(* ===== verification/_CoqProject ===== *)
-Q . S2P
Prelude.v
Bitmap.v
LowerBound.v
LruCache.v
Rc.v
MemPool.v
FrameManager.v
BplusKey.v
PageAlloc.v
BplusTree.v
BplusGhost.v
BplusWp.v
BplusFind.v
BplusInsert.v
BplusSplit.v
BplusInv.v
BplusExample.v
BplusInsertEntry.v
BplusRebalance.v
BplusDelete.v
BplusScanner.v
Serializer.v
LogFile.v
LogManager.v
LogHandler.v
LogRecovery.v
LogSink.v
RecordPage.v
RecordLog.v
BufferPoolFile.v
Crc.v
DoubleWrite.v
DiskBufferPool.v
RecordFile.v
TableMeta.v
Text.v
Float.v
Value.v
ValueKey.v
ValueText.v
Aggregator.v
Tuples.v
MakeRecord.v
InsertStmt.v
Expression.v
Like.v
Operators.v
RowOrder.v
OrderBy.v
GroupBy.v
Plans.v
Stores.v
Table.v
Dml.v
IndexScan.v
StoreImpl.v
CreateIndex.v
MvccTrx.v
MvccSessions.v
