(* ===== verification/Prelude.v ===== *)
(** * MiniOB verified

    MiniOB is a small relational database server in C++.  Its own logic is under [src/src/observer] (storage engine, values and
    expressions, query operators) and [src/deps/common] (bitmap, caches, serialization, checksums).  This library is a shallow embedding
    of that logic in Rocq, one function per C++ function, with the theorems that make it correct.  The documentation before a
    definition names the file, the lines and the function it translates.

    ** How the program is put together, and where it is modelled

    A query is a tree of physical operators that pull tuples from each other ([sql/operator]: [Operators], [OrderBy], [GroupBy], [IndexScan],
    [Plans]).
    They evaluate expressions ([sql/expr]: [Expression], [Like], [Aggregator]) on tuples ([Tuples]) of typed values ([common/value.*],
    [common/type/*]: [Value], [Float], [Text], [ValueText]); [RowOrder] is how sorts and groups compare them.  The leaves of the tree scan
    record files.
    A table ([storage/table]: [Table], [TableMeta]) is a record file and B+ tree indexes, whose keys are compared as values ([ValueKey]).
    It is verified against the interfaces of [Stores] ([RecordStore], [IndexStore]); [StoreImpl] shows that the record file and the B+
    tree keep them; [CreateIndex] fills a new index.  INSERT checks and casts its values ([sql/stmt/insert_stmt.*]: [InsertStmt]) and makes records of them
    ([MakeRecord]); the operators of INSERT, DELETE and UPDATE and how they undo what failed are in [Dml].  Transactions ([storage/trx]: [MvccTrx]) put two numbers in front of every row; [MvccSessions] runs several
    sessions interleaved.
    A record file ([storage/record]: [RecordFile]) is a set of slotted pages ([RecordPage], with the bitmaps of [Bitmap]) whose log
    records are redone by [RecordLog].  A B+ tree ([storage/index]) stores its nodes in pages too: [BplusTree] has the operations as
    programs over the pages, [BplusKey] the keys, [BplusScanner] the range scans; [LowerBound] is the binary search in a node.  The
    meaning of the pages is given by the trees of [BplusGhost]; [BplusWp] runs the primitives, [BplusFind], [BplusInsert], [BplusSplit],
    [BplusInsertEntry], [BplusRebalance] and [BplusDelete] verify search, insertion and deletion, [BplusInv] is the invariant and
    [BplusExample] a small index.
    Pages come from the buffer pool ([storage/buffer]: [DiskBufferPool]), which keeps them in frames ([FrameManager], a pool of objects
    [MemPool] and a least-recently-used cache [LruCache]), allocates them in the bitmap of the header page ([BufferPoolFile]; [PageAlloc]
    is its interface for the B+ tree), and writes them through the double write buffer ([DoubleWrite]) with the checksum of [Crc].
    All changes are logged first ([storage/clog]): [Serializer] and [LogFile] are the bytes, [LogManager] the directory of log files,
    [LogHandler] the buffer and the thread that empties it, [LogRecovery] the invariant of the running log, [LogSink] what the log
    promises to its clients.  [Rc] has the result codes and this file the machine integers, the tactics and the hints.

    ** State, errors, bounds

    State is passed explicitly: a record for an object, a [gmap] for a map, a list of bytes for a buffer.  Pointers that alias are
    modelled as addresses in a store where aliasing matters ([LruCache], [FrameManager], [DiskBufferPool]).  A handler returns the result
    code of the code and the new state; [option] around it is [None] for what C++ leaves undefined and for failed ASSERTs, and theorems
    show that it does not happen.  The B+ tree uses a monad with three results ([Ok], an early return [Err], [Stuck]).  Integers are [Z],
    wrapped where the code can overflow ([wrap], [to_int32]), or the operation is undefined ([int_result] in [Value]).  Numbers with a
    point are the binary32 numbers of the Standard Library, computed with as the code does.
    Loops that are not structural run on fuel.  The bounds are the sizes the loop walks over: the pages of a file for the free-page and
    scan loops ([RecordFile.init_free_pages], [RecordFile.fetch_pages]), the slots of a page ([RecordFile.fetch_in_page]), the length of a
    range ([LowerBound.lower_bound]), the height of a tree ([BplusTree.find_leaf]), the number of log entries.  Where a definition takes the
    fuel as an argument, as the query operators do, theorems require it to be larger than the number of tuples and conclude that the
    result is returned, so none of them says only that a result is right if there is one.
    Concurrency is modelled as interleavings: a history of client calls and thread steps for the log, a step relation over sessions for
    transactions.  Each step is one critical section of the code.  A crash keeps a prefix of the writes and may tear the one it hits.

    ** What the theorems show

    - B+ tree: insertion (into a file with room) and deletion refine a sorted list of entries, duplicates and splits up to the root
      included, and leak no page ([insert_entry_refines], [delete_entry_refines]); a scan gives exactly the entries of its range in order,
      where an exclusive bound of a unique index does not exclude ([scan_returns_range], [get_entry_returns_matches]), and the plan that scans an index delivers the rows of the plan that scans the table
      ([index_scan_equals_table_scan]).  The comparator of the keys is a total order on columns of integers, dates and strings without NULL
      ([column_keys_ordered]) and not with NULL: a row with NULL in an indexed column can never be deleted ([null_row_undeletable]).
    - Log: an append that was confirmed is replayed after a crash, in every interleaving, also when the process dies in the middle of the
      next entry; but then the replay may end with an error ([confirmed_log_survives_crash]); a shutdown flushes ([shutdown_flushes_log]);
      files round-trip and torn tails are reported ([log_file_roundtrip], [torn_log_tail_reported], [serializer_roundtrip]).
    - Pages and recovery: the buffer pool shows every client the pages it wrote ([buffer_pool_coherent], [buffer_pool_allocates]); redo of
      the logs of record pages and of file headers gives the state before the crash whatever was on disk ([record_recovery],
      [header_recovery]); torn pages are repaired ([torn_writes_repaired], [crc32_correct]), until a [clear_pages] leaves a page with a slot
      that will be given to another ([clear_pages_exact]).
    - Records and tables: a page and a file are maps from positions to records ([record_page_refines_map], [record_file_refines_map]), a
      scan is complete ([record_scan_complete]), free space is found again ([open_finds_free_pages], [init_empty_page_fits]); insertion and
      deletion keep the table and its indexes consistent ([table_insert_atomic], [table_delete_exact], [stored_table_roundtrip]), with
      the counterexample [table_insert_loses_entry]; a new index has the entries of the rows its transaction sees
      ([create_index_visible_rows]); the layout of records is well formed ([table_meta_well_formed]).
    - Statements that change tables: the values of an INSERT are what is read from its records ([insert_statement_roundtrip]), INSERT of
      several rows is atomic ([insert_values_atomic]), UPDATE changes all rows or none ([update_all_or_nothing]).
    - Transactions: the rows are versions, read by snapshot ([transactions_refine_versions], [repeatable_reads]), commit and rollback are
      exact ([transaction_end_exact]), with the defects [rollback_resurrects] and [recovery_rolls_back_nothing].
    - Queries: every operator gives the tuples its meaning demands if its child does, and a whole plan computes the relational query
      over stored tables ([select_plan_correct]); GROUP BY partitions its input and computes the mathematical aggregations
      ([group_by_correct]); LIKE decides the language of a pattern where no percent sign meets one ([like_matches]); text and values
      round-trip ([value_text_roundtrip]).
    - Base: bitmap searches, binary search and the cache are correct against simple specifications ([bitmap_searches_correct],
      [lower_bound_splits], [lru_refines_recency_list]).

    ** Assumptions

    Clients of an interface are verified against a class ([LruSpec], [PageAllocator], [LogSink], [RecordStore], [IndexStore],
    [PhysicalOperator], [RecordScanner]), and the implementations are instances of it.  What remains an argument is the C and C++ library:
    the order in which a hash set is iterated, [std::sort] (any function with [RowOrder.sort_law], instantiated by an insertion
    sort), the conversions [std::stof], [strtof] and [>>] on a [float], the contents of uninitialised memory.  System calls may transfer
    a part of the data or fail ([LogFile]); the writes of data pages succeed until a crash.

    The side conditions of the theorems, which their texts name:
    - Room.  Inserting into a tree needs more free pages in its file than the tree has pages ([StoreImpl.btree_room]), a record file fewer
      allocated pages than its bitmap has bits ([StoreImpl.file_room]); [Table.has_room], [CreateIndex.index_room_for] and [Dml.room_for] ask
      it of all parts of a table, of the next entries and of the next changes.  In a full file an insertion into the tree fails and its
      rollback can get stuck.  Getting a page needs a frame that is not pinned ([DiskBufferPool.call_ok]).
    - NULL.  The comparator of keys is no order on NULL, so [Table.row_ok] excludes rows with NULL in an indexed column; what happens to
      them is [null_row_undeletable].
    - The first index.  Where an insertion may be refused and undone inside a statement or a transaction, the first index refuses
      nothing ([Dml.first_not_unique], [MvccSessions.row_fits]); what happens otherwise is [table_insert_loses_entry].
    - Slots.  A slot to delete lies inside the bitmap of its page, which the code does not check ([RecordPage.op_ok]).
    - Sessions.  A transaction does not delete a row twice that it inserted ([MvccSessions.fits]); [MvccSessions.ex_double_delete] shows the assertion
      that fails otherwise.
    - Log.  No write of the log reports an error in a history ([LogHandler.history]); between two processes of a history the death is between
      the writes of two entries, the last one may cut an entry ([LogRecovery.death]).
    - Double write.  A torn slot has a wrong checksum ([DoubleWrite.torn]); the checksum of the code covers the data of the page and not the
      key and the flag of the slot, so a tear that leaves the data complete and the key old is outside of the model.

    ** Not modelled

    - The lexer and parser are generated; the other statements, name resolution, the optimizer and the plan generators (apart from the choice of an index in
      [IndexScan]) only build the objects
      from which the models start (expressions, operators, meta data).
    - Views; INSERT, DELETE and UPDATE are modelled on tables with the empty transaction ([VacuousTrx]), not together with
      [MvccTrx].
    - The vectorised operators, chunks and the PAX page format: a second engine over a format whose record operations the source leaves
      unimplemented ([RecordPage] models the interface as far as it goes).
    - The vector index and the distance functions of vectors (floating point results without an exact contract).
    - Creating, opening and dropping databases, tables and indexes: directories, JSON meta files (jsoncpp), file handles.
    - Server, sessions, protocols, configuration, text logs, threads: input and output around the modelled core.
    - Vendored libraries, tests, benchmarks and tools. *)
From stdpp Require Export strings base numbers option fin_maps gmap list.
From stdpp Require Import list_numbers.
#[global] Open Scope Z_scope.

(** ** Machine integers *)

(** [wrap w z] is the value a [w]-bit two's complement integer holds after [z] is stored in it. *)
Definition wrap (w z : Z) : Z := (z + 2 ^ (w - 1)) mod 2 ^ w - 2 ^ (w - 1).
Definition to_char (z : Z) : Z := wrap 8 z.
Definition to_int32 (z : Z) : Z := wrap 32 z.

Definition is_char (z : Z) : Prop := -128 ≤ z < 128.
Definition INT32_MAX : Z := 2147483647.
Definition INT32_MIN : Z := -2147483648.
Definition is_int32 (z : Z) : Prop := INT32_MIN ≤ z ≤ INT32_MAX.

#[export] Instance is_char_dec z : Decision (is_char z) := and_dec _ _.
#[export] Instance is_int32_dec z : Decision (is_int32 z) := and_dec _ _.

(** ** Tactics and hints of the development *)
Create HintDb miniob.

(** Splits conjunctions and existentials of the context and closes goals by arithmetic. *)
Ltac zify_bool :=
  repeat match goal with
  | H : (_ <? _)%Z = true |- _ => apply Z.ltb_lt in H
  | H : (_ <? _)%Z = false |- _ => apply Z.ltb_ge in H
  | H : (_ <=? _)%Z = true |- _ => apply Z.leb_le in H
  | H : (_ <=? _)%Z = false |- _ => apply Z.leb_gt in H
  | H : (_ =? _)%Z = true |- _ => apply Z.eqb_eq in H
  | H : (_ =? _)%Z = false |- _ => apply Z.eqb_neq in H
  | H : negb _ = true |- _ => apply negb_true_iff in H
  | H : negb _ = false |- _ => apply negb_false_iff in H
  end.

(** Case analysis on the boolean comparison that guards the goal. *)
Ltac case_bool :=
  match goal with
  | |- context [if ?b then _ else _] =>
      let E := fresh "E" in destruct b eqn:E; zify_bool
  end.

(** Decides a closed proposition by evaluating its decision procedure. *)
Ltac by_compute := apply (bool_decide_unpack _); vm_compute; exact I.

Ltac destruct_conj :=
  repeat match goal with
  | H : _ ∧ _ |- _ => destruct H
  | H : ∃ _, _ |- _ => destruct H
  end.

(** ** Arrays indexed by a C [int] *)

(** [a[i]]: [None] is an access outside the array, which C++ leaves undefined. *)
Definition at_z {A} (l : list A) (i : Z) : option A :=
  if 0 <=? i then l !! Z.to_nat i else None.

(** [a[i] = x] *)
Definition set_z {A} (l : list A) (i : Z) (x : A) : option (list A) :=
  if (0 <=? i) && (i <? Z.of_nat (length l)) then Some (<[Z.to_nat i := x]> l) else None.

Lemma at_z_is_Some {A} (l : list A) i :
  is_Some (at_z l i) ↔ 0 ≤ i < Z.of_nat (length l).
Proof.
  unfold at_z. case_bool.
  - rewrite lookup_lt_is_Some. lia.
  - split; [by intros [? ?] | lia].
Qed.

Lemma at_z_Some_range {A} (l : list A) i x :
  at_z l i = Some x → 0 ≤ i < Z.of_nat (length l).
Proof. intros H. apply at_z_is_Some. eauto. Qed.

Lemma set_z_Some {A} (l : list A) i x :
  0 ≤ i < Z.of_nat (length l) → set_z l i x = Some (<[Z.to_nat i := x]> l).
Proof.
  intros H. unfold set_z.
  rewrite (proj2 (Z.leb_le 0 i)), (proj2 (Z.ltb_lt i _)) by lia. done.
Qed.

Lemma at_z_insert {A} (l : list A) i j x :
  0 ≤ i < Z.of_nat (length l) →
  at_z (<[Z.to_nat i := x]> l) j = if decide (i = j) then Some x else at_z l j.
Proof.
  intros H. unfold at_z. destruct (0 <=? j) eqn:E; zify_bool.
  - case_decide as D.
    + subst. rewrite list_lookup_insert_eq; [done | lia].
    + rewrite list_lookup_insert_ne; [done | lia].
  - case_decide; [lia | done].
Qed.

(** ** Bounded searches *)

(** [for (i = lo; i < lo + n; i++) if (p i) return i; return -1;] *)
Fixpoint for_find (p : Z → bool) (lo : Z) (n : nat) : Z :=
  match n with
  | O => -1
  | S n' => if p lo then lo else for_find p (lo + 1) n'
  end.

Lemma for_find_spec p lo n r :
  0 ≤ lo → for_find p lo n = r →
  (r = -1 ∧ ∀ i, lo ≤ i < lo + Z.of_nat n → p i = false) ∨
  (lo ≤ r < lo + Z.of_nat n ∧ p r = true ∧ ∀ i, lo ≤ i < r → p i = false).
Proof.
  revert lo. induction n as [|n IH]; intros lo Hlo Hr; simpl in Hr.
  - left. split; [done|]. lia.
  - destruct (p lo) eqn:E.
    + right. subst r. split; [lia|]. split; [done|]. lia.
    + assert (Hcase : ∀ i, lo ≤ i → i = lo ∨ lo + 1 ≤ i) by lia.
      destruct (IH (lo + 1) ltac:(lia) Hr) as [[-> Hall]|(Hb & Hp & Hall)].
      * left. split; [done|]. intros i Hi.
        destruct (Hcase i ltac:(lia)) as [->|?]; [done | apply Hall; lia].
      * right. split; [lia|]. split; [done|]. intros i Hi.
        destruct (Hcase i ltac:(lia)) as [->|?]; [done | apply Hall; lia].
Qed.

(** ** Wrapping *)
Lemma wrap_small w z : 0 < w → - 2 ^ (w - 1) ≤ z < 2 ^ (w - 1) → wrap w z = z.
Proof.
  intros Hw Hz. unfold wrap.
  assert (2 ^ w = 2 * 2 ^ (w - 1)) as E.
  { rewrite <- Z.pow_succ_r by lia. f_equal. lia. }
  rewrite Z.mod_small; lia.
Qed.

Lemma wrap_range w z : 0 < w → - 2 ^ (w - 1) ≤ wrap w z < 2 ^ (w - 1).
Proof.
  intros Hw. unfold wrap.
  assert (2 ^ w = 2 * 2 ^ (w - 1)) as E.
  { rewrite <- Z.pow_succ_r by lia. f_equal. lia. }
  pose proof (Z.mod_pos_bound (z + 2 ^ (w - 1)) (2 ^ w)). lia.
Qed.

Lemma wrap_mod w z : 0 < w → wrap w z mod 2 ^ w = z mod 2 ^ w.
Proof.
  intros Hw. unfold wrap.
  rewrite Zminus_mod_idemp_l. f_equal. lia.
Qed.

Lemma wrap_testbit w z i : 0 < w → 0 ≤ i < w → Z.testbit (wrap w z) i = Z.testbit z i.
Proof.
  intros Hw Hi.
  rewrite <- (Z.mod_pow2_bits_low (wrap w z) w i) by lia.
  rewrite wrap_mod by lia. apply Z.mod_pow2_bits_low. lia.
Qed.

Lemma to_char_is_char z : is_char (to_char z).
Proof. apply (wrap_range 8). lia. Qed.

Lemma to_int32_small z : is_int32 z → to_int32 z = z.
Proof. unfold is_int32, INT32_MIN, INT32_MAX. intros. apply wrap_small; lia. Qed.

Lemma to_int32_is_int32 z : is_int32 (to_int32 z).
Proof.
  unfold is_int32, INT32_MIN, INT32_MAX, to_int32.
  pose proof (wrap_range 32 z). lia.
Qed.

Lemma small_bits_above z i w : 0 ≤ z < 2 ^ w → 0 ≤ w ≤ i → Z.testbit z i = false.
Proof.
  intros Hz Hi. rewrite <- (Z.mod_small z (2 ^ w)) by lia.
  apply Z.mod_pow2_bits_high. lia.
Qed.

(** A signed byte repeats its sign bit. *)
Lemma char_bits_sign z i : is_char z → 8 ≤ i → Z.testbit z i = Z.testbit z 7.
Proof.
  unfold is_char. intros Hz Hi.
  destruct (Z.lt_ge_cases z 0) as [Hneg|Hpos].
  - assert (∀ j, 7 ≤ j → Z.testbit z j = true) as Hall; [|rewrite !Hall by lia; done].
    intros j Hj. apply negb_false_iff. rewrite <- Z.lnot_spec by lia.
    apply small_bits_above with 7; unfold Z.lnot; lia.
  - rewrite !(small_bits_above z _ 7) by lia. done.
Qed.

(** ** Boolean filters *)
Lemma filter_all {T} (P : T → bool) l : Forall (λ x, P x = true) l → List.filter P l = l.
Proof. induction 1 as [|x l Hx _ IH]; [done|]. cbn [List.filter]. by rewrite Hx, IH. Qed.
Lemma filter_none {T} (P : T → bool) l : Forall (λ x, P x = false) l → List.filter P l = [].
Proof. induction 1 as [|x l Hx _ IH]; [done|]. cbn [List.filter]. by rewrite Hx. Qed.
