(* ===== verification/Bitmap.v ===== *)
(** * The page and slot bitmap ([deps/common/lang/bitmap.cpp])

    A bitmap is a C array of signed [char] and a number of bits.  The operations are
    modelled on the bytes, with the promotions and the wrap-around of [char]; the
    specification reads the array as a function from bit numbers to [bool]. *)
From S2P Require Import Prelude.

(** ** Data *)

(** [src/deps/common/lang/bitmap.h:19-39] [Bitmap] *)
Record Bitmap := mkBitmap {
  bitmap_ : list Z;  (* the bytes, as signed chars *)
  size_   : Z;       (* number of bits *)
}.

(** ** Operations *)

(** [src/deps/common/lang/bitmap.cpp:19-27] [find_first_zero] *)
Definition find_first_zero (byte start : Z) : Z :=
  for_find (λ i, Z.land byte (Z.shiftl 1 i) =? 0) start (Z.to_nat (8 - start)).

(** [src/deps/common/lang/bitmap.cpp:29-37] [find_first_setted] *)
Definition find_first_setted (byte start : Z) : Z :=
  for_find (λ i, negb (Z.land byte (Z.shiftl 1 i) =? 0)) start (Z.to_nat (8 - start)).

(** [src/deps/common/lang/bitmap.cpp:39-39] [bytes] *)
Definition bytes (size : Z) : Z :=
  if Z.rem size 8 =? 0 then Z.quot size 8 else Z.quot size 8 + 1.

(** [src/deps/common/lang/bitmap.cpp:44-48] [Bitmap::init] *)
Definition init (bitmap : list Z) (size : Z) : Bitmap := mkBitmap bitmap size.

(** [1 << (index % 8)]: a negative shift count is undefined. *)
Definition bit_mask (index : Z) : option Z :=
  if 0 <=? Z.rem index 8 then Some (Z.shiftl 1 (Z.rem index 8)) else None.

(** [src/deps/common/lang/bitmap.cpp:50-54] [Bitmap::get_bit] *)
Definition get_bit (b : Bitmap) (index : Z) : option bool :=
  bits ← at_z (bitmap_ b) (Z.quot index 8);
  mask ← bit_mask index;
  Some (negb (Z.land bits mask =? 0)).

(** [src/deps/common/lang/bitmap.cpp:56-60] [Bitmap::set_bit] *)
Definition set_bit (b : Bitmap) (index : Z) : option Bitmap :=
  bits ← at_z (bitmap_ b) (Z.quot index 8);
  mask ← bit_mask index;
  bm ← set_z (bitmap_ b) (Z.quot index 8) (to_char (Z.lor bits mask));
  Some (mkBitmap bm (size_ b)).

(** [src/deps/common/lang/bitmap.cpp:62-66] [Bitmap::clear_bit] *)
Definition clear_bit (b : Bitmap) (index : Z) : option Bitmap :=
  bits ← at_z (bitmap_ b) (Z.quot index 8);
  mask ← bit_mask index;
  bm ← set_z (bitmap_ b) (Z.quot index 8) (to_char (Z.land bits (Z.lnot mask)));
  Some (mkBitmap bm (size_ b)).

(** The loop the two searches share: [skip] is the byte that holds no candidate. *)
Fixpoint next_bit_loop (skip : Z) (find : Z → Z → Z) (bitmap : list Z)
    (iter : Z) (n : nat) (start_in_byte : Z) : option Z :=
  match n with
  | O => Some (-1)
  | S n' =>
      byte ← at_z bitmap iter;
      let index_in_byte := if byte =? skip then -1 else find byte start_in_byte in
      if 0 <=? index_in_byte then Some (iter * 8 + index_in_byte)
      else next_bit_loop skip find bitmap (iter + 1) n' 0
  end.

(** [src/deps/common/lang/bitmap.cpp:68-88] [Bitmap::next_unsetted_bit] *)
Definition next_unsetted_bit (b : Bitmap) (start : Z) : option Z :=
  ret ← next_bit_loop (-1) find_first_zero (bitmap_ b) (Z.quot start 8)
          (Z.to_nat (bytes (size_ b) - Z.quot start 8)) (Z.rem start 8);
  Some (if size_ b <=? ret then -1 else ret).

(** [src/deps/common/lang/bitmap.cpp:90-110] [Bitmap::next_setted_bit] *)
Definition next_setted_bit (b : Bitmap) (start : Z) : option Z :=
  ret ← next_bit_loop 0 find_first_setted (bitmap_ b) (Z.quot start 8)
          (Z.to_nat (bytes (size_ b) - Z.quot start 8)) (Z.rem start 8);
  Some (if size_ b <=? ret then -1 else ret).

(** ** Specification *)

(** Bit [i] of the array. *)
Definition bit (l : list Z) (i : Z) : bool := Z.testbit (l !!! Z.to_nat (i / 8)) (i mod 8).

(** The array holds chars and covers the bits. *)
Definition wf (b : Bitmap) : Prop :=
  Forall is_char (bitmap_ b) ∧ 0 ≤ size_ b ≤ 8 * Z.of_nat (length (bitmap_ b)).

#[export] Instance wf_dec b : Decision (wf b) := and_dec _ _.

(** [r] is the first bit from [start] below [size] whose value is [want], or [-1]. *)
Definition first_bit (want : bool) (b : Bitmap) (start r : Z) : Prop :=
  (r = -1 ∧ ∀ i, start ≤ i < size_ b → bit (bitmap_ b) i = negb want) ∨
  (start ≤ r < size_ b ∧ bit (bitmap_ b) r = want ∧
   ∀ i, start ≤ i < r → bit (bitmap_ b) i = negb want).

(** ** Lemmas *)

Lemma land_mask_testbit z k : 0 ≤ k → (Z.land z (Z.shiftl 1 k) =? 0) = negb (Z.testbit z k).
Proof.
  intros Hk. rewrite Z.shiftl_1_l.
  destruct (Z.testbit z k) eqn:E; simpl.
  - apply Z.eqb_neq. intros H0. apply (f_equal (λ x, Z.testbit x k)) in H0.
    rewrite Z.land_spec, Z.pow2_bits_true, E, Z.bits_0 in H0 by lia. done.
  - apply Z.eqb_eq. apply Z.bits_inj'. intros n Hn. rewrite Z.land_spec, Z.bits_0.
    destruct (decide (n = k)) as [->|]; [by rewrite E|].
    rewrite Z.pow2_bits_false by lia. apply andb_false_r.
Qed.

Lemma quot_rem_index index :
  0 ≤ index → Z.quot index 8 = index / 8 ∧ Z.rem index 8 = index mod 8 ∧ 0 ≤ index mod 8 < 8.
Proof.
  intros. rewrite Z.quot_div_nonneg, Z.rem_mod_nonneg by lia.
  pose proof (Z.mod_pos_bound index 8). lia.
Qed.

Lemma bytes_bounds size : 0 ≤ size → size ≤ 8 * bytes size < size + 8.
Proof.
  intros H. unfold bytes. destruct (quot_rem_index size H) as (-> & -> & ?).
  pose proof (Z.div_mod size 8 ltac:(lia)).
  case_bool; lia.
Qed.

Lemma bit_mask_nonneg index : 0 ≤ index → bit_mask index = Some (Z.shiftl 1 (index mod 8)).
Proof.
  intros H. unfold bit_mask. destruct (quot_rem_index index H) as (_ & -> & ?).
  rewrite (proj2 (Z.leb_le _ _)) by lia. done.
Qed.

Lemma at_z_byte (l : list Z) index :
  0 ≤ index < 8 * Z.of_nat (length l) →
  at_z l (index / 8) = Some (l !!! Z.to_nat (index / 8)).
Proof.
  intros H. assert (0 ≤ index / 8 < Z.of_nat (length l)) by
    (split; [apply Z.div_pos; lia | apply Z.div_lt_upper_bound; lia]).
  unfold at_z. rewrite (proj2 (Z.leb_le _ _)) by lia.
  apply list_lookup_lookup_total_lt. lia.
Qed.

Lemma get_bit_spec b index :
  0 ≤ index < 8 * Z.of_nat (length (bitmap_ b)) →
  get_bit b index = Some (bit (bitmap_ b) index).
Proof.
  intros H. unfold get_bit. destruct (quot_rem_index index ltac:(lia)) as (-> & _ & ?).
  rewrite at_z_byte by done. simpl. rewrite bit_mask_nonneg by lia. simpl.
  rewrite land_mask_testbit, negb_involutive by lia. done.
Qed.

(** A write of byte [i / 8] changes the bits of that byte only. *)
Lemma bit_insert (l : list Z) i j x :
  0 ≤ i < 8 * Z.of_nat (length l) → 0 ≤ j →
  bit (<[Z.to_nat (i / 8) := x]> l) j =
    if decide (i / 8 = j / 8) then Z.testbit x (j mod 8) else bit l j.
Proof.
  intros Hi Hj.
  assert (0 ≤ i / 8 < Z.of_nat (length l)) by
    (split; [apply Z.div_pos; lia | apply Z.div_lt_upper_bound; lia]).
  assert (0 ≤ j / 8) by (apply Z.div_pos; lia).
  unfold bit. case_decide as D.
  - rewrite D. rewrite list_lookup_total_insert_eq by lia. done.
  - rewrite list_lookup_total_insert_ne by lia. done.
Qed.

Lemma same_byte_bit i j : 0 ≤ i → 0 ≤ j → i / 8 = j / 8 → i mod 8 = j mod 8 ↔ i = j.
Proof.
  intros. pose proof (Z.div_mod i 8 ltac:(lia)). pose proof (Z.div_mod j 8 ltac:(lia)). lia.
Qed.

(** What a bit write leaves behind. *)
Definition updates_bit (b : Bitmap) (index : Z) (v : bool) (b' : Bitmap) : Prop :=
  size_ b' = size_ b ∧ length (bitmap_ b') = length (bitmap_ b) ∧ wf b' ∧
  ∀ j, 0 ≤ j → bit (bitmap_ b') j = if decide (index = j) then v else bit (bitmap_ b) j.

Lemma write_bit_spec b index (v : bool) (f : Z → Z) :
  wf b → 0 ≤ index < 8 * Z.of_nat (length (bitmap_ b)) →
  (∀ z k, 0 ≤ k < 8 →
     Z.testbit (f z) k = if decide (index mod 8 = k) then v else Z.testbit z k) →
  updates_bit b index v
    (mkBitmap (<[Z.to_nat (index / 8) := to_char (f (bitmap_ b !!! Z.to_nat (index / 8)))]>
                 (bitmap_ b)) (size_ b)).
Proof.
  intros [Hc Hs] Hi Hf. unfold updates_bit; simpl. rewrite length_insert.
  split; [done|]. split; [done|]. split.
  - split; simpl.
    + apply Forall_insert; [done | apply to_char_is_char].
    + rewrite length_insert. lia.
  - intros j Hj. rewrite bit_insert by done.
    pose proof (Z.mod_pos_bound j 8 ltac:(lia)).
    case_decide as D.
    + unfold to_char. rewrite wrap_testbit, Hf by lia.
      pose proof (same_byte_bit index j ltac:(lia) Hj D).
      unfold bit. rewrite <- D. do 2 case_decide; tauto.
    + case_decide; [by subst | done].
Qed.

Lemma lor_mask_bit z m k : 0 ≤ m → 0 ≤ k →
  Z.testbit (Z.lor z (Z.shiftl 1 m)) k = if decide (m = k) then true else Z.testbit z k.
Proof.
  intros. rewrite Z.lor_spec, Z.shiftl_1_l. case_decide as D.
  - subst. rewrite Z.pow2_bits_true by lia. apply orb_true_r.
  - rewrite Z.pow2_bits_false by lia. apply orb_false_r.
Qed.

Lemma ldiff_mask_bit z m k : 0 ≤ m → 0 ≤ k →
  Z.testbit (Z.land z (Z.lnot (Z.shiftl 1 m))) k = if decide (m = k) then false else Z.testbit z k.
Proof.
  intros. rewrite Z.land_spec, Z.lnot_spec, Z.shiftl_1_l by lia. case_decide as D.
  - subst. rewrite Z.pow2_bits_true by lia. apply andb_false_r.
  - rewrite Z.pow2_bits_false by lia. apply andb_true_r.
Qed.

Lemma byte_index_range b index :
  0 ≤ index < 8 * Z.of_nat (length (bitmap_ b)) →
  0 ≤ index / 8 < Z.of_nat (length (bitmap_ b)).
Proof. split; [apply Z.div_pos; lia | apply Z.div_lt_upper_bound; lia]. Qed.

Lemma set_bit_updates b index :
  wf b → 0 ≤ index < 8 * Z.of_nat (length (bitmap_ b)) →
  ∃ b', set_bit b index = Some b' ∧ updates_bit b index true b'.
Proof.
  intros Hwf Hi. unfold set_bit. destruct (quot_rem_index index ltac:(lia)) as (-> & _ & ?).
  rewrite at_z_byte by done. simpl. rewrite bit_mask_nonneg by lia. simpl.
  rewrite set_z_Some by (by apply byte_index_range). simpl. eexists. split; [done|].
  apply (write_bit_spec b index true (λ z, Z.lor z (Z.shiftl 1 (index mod 8)))); [done..|].
  intros. apply lor_mask_bit; lia.
Qed.

Lemma clear_bit_updates b index :
  wf b → 0 ≤ index < 8 * Z.of_nat (length (bitmap_ b)) →
  ∃ b', clear_bit b index = Some b' ∧ updates_bit b index false b'.
Proof.
  intros Hwf Hi. unfold clear_bit. destruct (quot_rem_index index ltac:(lia)) as (-> & _ & ?).
  rewrite at_z_byte by done. simpl. rewrite bit_mask_nonneg by lia. simpl.
  rewrite set_z_Some by (by apply byte_index_range). simpl. eexists. split; [done|].
  apply (write_bit_spec b index false (λ z, Z.land z (Z.lnot (Z.shiftl 1 (index mod 8))))); [done..|].
  intros. apply ldiff_mask_bit; lia.
Qed.

(** ** The searches *)

Section search.
Variables (want : bool) (skip : Z) (find : Z → Z → Z).

(** [find] finds the first wanted bit of a byte and [skip] is a byte without one. *)
Hypothesis find_spec : ∀ byte start, 0 ≤ start < 8 →
  (find byte start = -1 ∧ ∀ k, start ≤ k < 8 → Z.testbit byte k = negb want) ∨
  (start ≤ find byte start < 8 ∧ Z.testbit byte (find byte start) = want ∧
   ∀ k, start ≤ k < find byte start → Z.testbit byte k = negb want).
Hypothesis skip_spec : ∀ k, 0 ≤ k < 8 → Z.testbit skip k = negb want.

Lemma bit_in_byte (l : list Z) iter byte k :
  at_z l iter = Some byte → 0 ≤ k < 8 → bit l (iter * 8 + k) = Z.testbit byte k.
Proof.
  intros Ha Hk. unfold bit.
  rewrite Z.div_add_l, (Z.div_small k), Z.add_0_r by lia.
  rewrite Z.add_comm, Z.mod_add, Z.mod_small by lia.
  unfold at_z in Ha. destruct (0 <=? iter); [|done].
  by rewrite (list_lookup_total_correct _ _ _ Ha).
Qed.

(** The part of the search that one byte decides. *)
Lemma byte_step byte start :
  0 ≤ start < 8 →
  let k := if byte =? skip then -1 else find byte start in
  (k = -1 ∧ ∀ k', start ≤ k' < 8 → Z.testbit byte k' = negb want) ∨
  (start ≤ k < 8 ∧ Z.testbit byte k = want ∧
   ∀ k', start ≤ k' < k → Z.testbit byte k' = negb want).
Proof using find_spec skip_spec.
  intros Hs. simpl. case_bool; [|by apply find_spec].
  left. split; [done|]. intros. subst byte. apply skip_spec. lia.
Qed.

Lemma next_bit_loop_spec l n : ∀ iter start,
  0 ≤ iter → iter + Z.of_nat n ≤ Z.of_nat (length l) → 0 ≤ start < 8 →
  ∃ r, next_bit_loop skip find l iter n start = Some r ∧
    ((r = -1 ∧ ∀ i, iter * 8 + start ≤ i < (iter + Z.of_nat n) * 8 → bit l i = negb want) ∨
     (iter * 8 + start ≤ r < (iter + Z.of_nat n) * 8 ∧ bit l r = want ∧
      ∀ i, iter * 8 + start ≤ i < r → bit l i = negb want)).
Proof using find_spec skip_spec.
  induction n as [|n IH]; intros iter start Hi Hn Hs; simpl.
  { exists (-1). split; [done|]. left. split; [done|]. lia. }
  destruct (proj2 (at_z_is_Some l iter) ltac:(lia)) as [byte Hb].
  rewrite Hb. simpl.
  pose proof (byte_step byte start Hs) as Hstep. simpl in Hstep.
  set (k := if byte =? skip then -1 else find byte start) in *.
  destruct Hstep as [[-> Hall]|(Hk & Hw & Hall)].
  - destruct (IH (iter + 1) 0 ltac:(lia) ltac:(lia) ltac:(lia)) as (r & Hr & Hspec).
    simpl. rewrite Hr. exists r. split; [done|].
    assert (Hthis : ∀ i, iter * 8 + start ≤ i < (iter + 1) * 8 → bit l i = negb want).
    { intros i Hi'. replace i with (iter * 8 + (i - iter * 8)) by lia.
      rewrite (bit_in_byte l iter byte) by (done || lia). apply Hall. lia. }
    destruct Hspec as [[-> H]|(H1 & H2 & H3)]; [left|right]; repeat split; try done; try lia.
    + intros i Hi'. destruct (decide (i < (iter + 1) * 8)); [apply Hthis | apply H]; lia.
    + intros i Hi'. destruct (decide (i < (iter + 1) * 8)); [apply Hthis | apply H3]; lia.
  - rewrite (proj2 (Z.leb_le 0 k)) by lia. exists (iter * 8 + k). split; [done|].
    right. split; [lia|]. split.
    + by rewrite (bit_in_byte l iter byte) by (done || lia).
    + intros i Hi'. replace i with (iter * 8 + (i - iter * 8)) by lia.
      rewrite (bit_in_byte l iter byte) by (done || lia). apply Hall. lia.
Qed.

Lemma search_spec b start :
  wf b → 0 ≤ start →
  ∃ ret, next_bit_loop skip find (bitmap_ b) (Z.quot start 8)
           (Z.to_nat (bytes (size_ b) - Z.quot start 8)) (Z.rem start 8) = Some ret ∧
         first_bit want b start (if size_ b <=? ret then -1 else ret).
Proof using find_spec skip_spec.
  intros [_ Hsize] Hs. destruct (quot_rem_index start Hs) as (-> & -> & Hm).
  pose proof (bytes_bounds (size_ b) ltac:(lia)) as Hbb.
  pose proof (Z.div_mod start 8 ltac:(lia)) as Hdm.
  destruct (decide (bytes (size_ b) ≤ start / 8)) as [Hge|Hlt].
  { replace (Z.to_nat (bytes (size_ b) - start / 8)) with O by lia. simpl.
    exists (-1). split; [done|]. rewrite (proj2 (Z.leb_gt _ _)) by lia.
    left. split; [done|]. lia. }
  assert (0 ≤ start / 8) as Hs8 by (apply Z.div_pos; lia).
  destruct (next_bit_loop_spec (bitmap_ b) (Z.to_nat (bytes (size_ b) - start / 8))
              (start / 8) (start mod 8)) as (ret & -> & Hspec); [lia..|].
  exists ret. split; [done|]. unfold first_bit.
  destruct Hspec as [[-> H1]|(H1 & H2 & H3)].
  - rewrite (proj2 (Z.leb_gt _ _)) by lia. left. split; [done|]. intros. apply H1. lia.
  - case_bool; [left|right]; repeat split; try done; try lia; intros; apply H3; lia.
Qed.
End search.

Lemma find_first_zero_spec byte start : 0 ≤ start < 8 →
  (find_first_zero byte start = -1 ∧ ∀ k, start ≤ k < 8 → Z.testbit byte k = true) ∨
  (start ≤ find_first_zero byte start < 8 ∧ Z.testbit byte (find_first_zero byte start) = false ∧
   ∀ k, start ≤ k < find_first_zero byte start → Z.testbit byte k = true).
Proof.
  intros Hs. unfold find_first_zero.
  destruct (for_find_spec (λ i, Z.land byte (Z.shiftl 1 i) =? 0) start (Z.to_nat (8 - start)) _
              ltac:(lia) eq_refl) as [[-> H]|(H1 & H2 & H3)].
  - left. split; [done|]. intros k Hk. specialize (H k ltac:(lia)). simpl in H.
    rewrite land_mask_testbit in H by lia. by apply negb_false_iff.
  - set (r := for_find _ _ _) in *. right. split; [lia|].
    simpl in H2. rewrite land_mask_testbit in H2 by lia. apply negb_true_iff in H2.
    split; [done|]. intros k Hk. specialize (H3 k ltac:(lia)). simpl in H3.
    rewrite land_mask_testbit in H3 by lia. by apply negb_false_iff.
Qed.

Lemma find_first_setted_spec byte start : 0 ≤ start < 8 →
  (find_first_setted byte start = -1 ∧ ∀ k, start ≤ k < 8 → Z.testbit byte k = false) ∨
  (start ≤ find_first_setted byte start < 8 ∧ Z.testbit byte (find_first_setted byte start) = true ∧
   ∀ k, start ≤ k < find_first_setted byte start → Z.testbit byte k = false).
Proof.
  intros Hs. unfold find_first_setted.
  destruct (for_find_spec (λ i, negb (Z.land byte (Z.shiftl 1 i) =? 0)) start
              (Z.to_nat (8 - start)) _ ltac:(lia) eq_refl) as [[-> H]|(H1 & H2 & H3)].
  - left. split; [done|]. intros k Hk. specialize (H k ltac:(lia)). simpl in H.
    rewrite land_mask_testbit, negb_involutive in H by lia. done.
  - set (r := for_find _ _ _) in *. right. split; [lia|].
    simpl in H2. rewrite land_mask_testbit, negb_involutive in H2 by lia.
    split; [done|]. intros k Hk. specialize (H3 k ltac:(lia)). simpl in H3.
    rewrite land_mask_testbit, negb_involutive in H3 by lia. done.
Qed.

Lemma next_unsetted_bit_first b start :
  wf b → 0 ≤ start → ∃ r, next_unsetted_bit b start = Some r ∧ first_bit false b start r.
Proof.
  intros Hwf Hs. unfold next_unsetted_bit.
  destruct (search_spec false (-1) find_first_zero find_first_zero_spec
              ltac:(intros; apply Z.bits_m1; lia) b start Hwf Hs) as (ret & -> & H).
  eexists. split; [done | exact H].
Qed.

Lemma next_setted_bit_first b start :
  wf b → 0 ≤ start → ∃ r, next_setted_bit b start = Some r ∧ first_bit true b start r.
Proof.
  intros Hwf Hs. unfold next_setted_bit.
  destruct (search_spec true 0 find_first_setted find_first_setted_spec
              ltac:(intros; apply Z.bits_0) b start Hwf Hs) as (ret & -> & H).
  eexists. split; [done | exact H].
Qed.

(** ** The set of set bits *)

Definition set_bits (l : list Z) (n : Z) : gset Z := list_to_set (filter (λ i, bit l i = true) (seqZ 0 n)).

Lemma elem_of_set_bits l n i : i ∈ set_bits l n ↔ 0 ≤ i < n ∧ bit l i = true.
Proof. unfold set_bits. rewrite elem_of_list_to_set, list_elem_of_filter, elem_of_seqZ. naive_solver lia. Qed.

(** There are [n] set bits below [n] exactly when every bit is set. *)
Lemma set_bits_full l n :
  0 ≤ n → Z.of_nat (size (set_bits l n)) ≤ n ∧
          (Z.of_nat (size (set_bits l n)) = n ↔ ∀ i, 0 ≤ i < n → bit l i = true).
Proof.
  intros Hn. set (all := list_to_set (seqZ 0 n) : gset Z).
  assert (Hs : Z.of_nat (size all) = n).
  { unfold all. rewrite size_list_to_set by apply NoDup_seqZ. rewrite length_seqZ. lia. }
  assert (He : ∀ i, i ∈ all ↔ 0 ≤ i < n).
  { intros i. unfold all. rewrite elem_of_list_to_set, elem_of_seqZ. lia. }
  assert (Hsub : set_bits l n ⊆ all).
  { intros i [Hi _]%elem_of_set_bits. by apply He. }
  pose proof (subseteq_size _ _ Hsub). split; [lia|]. split.
  - intros Hf i Hi. destruct (bit l i) eqn:E; [done|].
    assert (set_bits l n ⊂ all) as Hlt%subset_size; [|lia]. split; [done|]. intros Hb.
    destruct (proj1 (elem_of_set_bits l n i) (Hb i (proj2 (He i) Hi))) as [_ ?]. congruence.
  - intros Hall. assert (set_bits l n = all) as ->; [|done]. apply set_eq. intros i.
    rewrite elem_of_set_bits, He. naive_solver.
Qed.

Lemma set_bits_set b i b' n :
  updates_bit b i true b' → 0 ≤ i < n → set_bits (bitmap_ b') n = {[i]} ∪ set_bits (bitmap_ b) n.
Proof.
  intros (_ & _ & _ & Hb) Hi. apply set_eq. intros j. rewrite elem_of_union, elem_of_singleton, !elem_of_set_bits.
  destruct (decide (0 ≤ j)) as [Hj|Hj]; [|naive_solver lia]. rewrite Hb by done. case_decide; naive_solver.
Qed.

Lemma set_bits_clear b i b' n :
  updates_bit b i false b' → 0 ≤ i → set_bits (bitmap_ b') n = set_bits (bitmap_ b) n ∖ {[i]}.
Proof.
  intros (_ & _ & _ & Hb) Hi. apply set_eq. intros j. rewrite elem_of_difference, elem_of_singleton, !elem_of_set_bits.
  destruct (decide (0 ≤ j)) as [Hj|Hj]; [|naive_solver lia]. rewrite Hb by done. case_decide; naive_solver.
Qed.

(** ** Properties *)

(** [next_unsetted_bit] and [next_setted_bit] terminate without an out-of-bounds access
    on every well-formed bitmap and return the first bit at or after [start], below the
    bitmap's size, that has the wanted value, or -1 when no bit has it; the padding bits of
    the last byte are never returned. *)
Theorem bitmap_searches_correct b start :
  wf b → 0 ≤ start →
  ∃ r s, next_unsetted_bit b start = Some r ∧ first_bit false b start r ∧
         next_setted_bit b start = Some s ∧ first_bit true b start s.
Proof.
  intros Hwf Hs.
  destruct (next_unsetted_bit_first b start Hwf Hs) as (r & Hr & Hfr).
  destruct (next_setted_bit_first b start Hwf Hs) as (s & Hs' & Hfs).
  by exists r, s.
Qed.

Lemma bitmap_searches_correct_witness :
  ∃ r s, next_unsetted_bit (mkBitmap [-1; 3] 12) 1 = Some r ∧
         first_bit false (mkBitmap [-1; 3] 12) 1 r ∧
         next_setted_bit (mkBitmap [-1; 3] 12) 1 = Some s ∧
         first_bit true (mkBitmap [-1; 3] 12) 1 s.
Proof.
  apply bitmap_searches_correct; [by_compute | lia].
Defined.

(** [set_bit] followed by [clear_bit] of an index of the array: [get_bit] reads true
    after the first and false after the second, every other bit keeps its value, and the
    bytes remain signed chars. *)
Theorem bitmap_set_clear_get b i j :
  wf b → 0 ≤ i < size_ b → 0 ≤ j < size_ b →
  ∃ b1 b2, set_bit b i = Some b1 ∧ clear_bit b1 i = Some b2 ∧ wf b1 ∧ wf b2 ∧
    get_bit b1 i = Some true ∧ get_bit b2 i = Some false ∧
    (i ≠ j → get_bit b1 j = get_bit b j ∧ get_bit b2 j = get_bit b j).
Proof.
  intros Hwf Hi Hj. pose proof Hwf as [_ Hsz].
  destruct (set_bit_updates b i Hwf ltac:(lia)) as (b1 & E1 & Hs1 & Hl1 & Hw1 & Hb1).
  destruct (clear_bit_updates b1 i Hw1 ltac:(lia)) as (b2 & E2 & Hs2 & Hl2 & Hw2 & Hb2).
  exists b1, b2. rewrite !get_bit_spec by lia.
  rewrite !Hb2, !Hb1 by lia. split_and!; try done; [by rewrite !decide_True..|].
  intros Hne. by rewrite !decide_False by done.
Qed.

Lemma bitmap_set_clear_get_witness :
  ∃ b1 b2, set_bit (mkBitmap [3; 0] 16) 7 = Some b1 ∧ clear_bit b1 7 = Some b2 ∧ wf b1 ∧ wf b2 ∧
    get_bit b1 7 = Some true ∧ get_bit b2 7 = Some false ∧
    (7 ≠ 1 → get_bit b1 1 = get_bit (mkBitmap [3; 0] 16) 1 ∧
             get_bit b2 1 = get_bit (mkBitmap [3; 0] 16) 1).
Proof.
  apply bitmap_set_clear_get; [by_compute | simpl; lia..].
Defined.
