(* ===== verification/LowerBound.v ===== *)
(** * Binary search ([deps/common/lang/lower_bound.h])

    [lower_bound] searches a random access range with a three-way comparison and also
    reports whether an equal element was met.  The range is a list and an iterator is an
    index; the model returns [None] only for an access outside the range or when the fuel
    ends before the loop does, and [lower_bound_ordered] shows that neither happens. *)
From S2P Require Import Prelude.

Section lower_bound.
Context {A T : Type} (comp : A → T → Z).

(** [src/deps/common/lang/lower_bound.h:39-55] [lower_bound] the loop *)
Fixpoint lower_bound_loop (l : list A) (val : T) (fuel : nat) (first last_count : Z)
  : option (Z * bool) :=
  if 0 <? last_count then
    match fuel with
    | O => None
    | S fuel' =>
        let step := Z.quot last_count 2 in
        item ← at_z l (first + step);
        let result := comp item val in
        if result =? 0 then Some (first + step, true)
        else if result <? 0 then
          lower_bound_loop l val fuel' (first + step + 1) (last_count - (step + 1))
        else lower_bound_loop l val fuel' first step
    end
  else Some (first, false).

(** [src/deps/common/lang/lower_bound.h:31-61] [lower_bound] *)
Definition lower_bound (l : list A) (val : T) : option (Z * bool) :=
  let count := Z.of_nat (length l) in
  lower_bound_loop l val (length l) 0 count.

(** Once an element is not below [val], every later one is above it. *)
Definition ordered (l : list A) (val : T) : Prop :=
  ∀ i j x y, (i < j)%nat → l !! i = Some x → l !! j = Some y →
    0 ≤ comp x val → 0 < comp y val.

(** The position [r] splits the list around [val]. *)
Definition splits (l : list A) (val : T) (r : Z) (found : bool) : Prop :=
  0 ≤ r ≤ Z.of_nat (length l) ∧
  (∀ i x, Z.of_nat i < r → l !! i = Some x → comp x val < 0) ∧
  (∀ i x, r < Z.of_nat i → l !! i = Some x → 0 < comp x val) ∧
  (if found then ∃ x, l !! Z.to_nat r = Some x ∧ comp x val = 0
   else ∀ x, l !! Z.to_nat r = Some x → 0 < comp x val).

Lemma lower_bound_loop_spec l val : ordered l val → ∀ fuel first last_count,
  0 ≤ first → 0 ≤ last_count ≤ Z.of_nat fuel →
  first + last_count ≤ Z.of_nat (length l) →
  (∀ i x, Z.of_nat i < first → l !! i = Some x → comp x val < 0) →
  (∀ i x, first + last_count ≤ Z.of_nat i → l !! i = Some x → 0 < comp x val) →
  ∃ r found, lower_bound_loop l val fuel first last_count = Some (r, found) ∧
             splits l val r found.
Proof.
  intros Hord. induction fuel as [|fuel IH]; intros first c Hf Hc Hlen Hlow Hhigh.
  { simpl. rewrite (proj2 (Z.ltb_ge _ _)) by lia. exists first, false. split; [done|].
    split; [lia|]. split; [done|].
    split; [intros i x Hi; apply Hhigh; lia | intros x; apply Hhigh; lia]. }
  simpl. destruct (0 <? c) eqn:Ec; zify_bool.
  2:{ exists first, false. split; [done|]. split; [lia|]. split; [done|].
      split; [intros i x Hi; apply Hhigh; lia | intros x; apply Hhigh; lia]. }
  rewrite Z.quot_div_nonneg by lia.
  pose proof (Z.div_mod c 2 ltac:(lia)). pose proof (Z.mod_pos_bound c 2 ltac:(lia)).
  set (step := c / 2) in *.
  destruct (proj2 (at_z_is_Some l (first + step)) ltac:(lia)) as [item Hitem].
  rewrite Hitem. simpl.
  assert (Hat : l !! Z.to_nat (first + step) = Some item).
  { unfold at_z in Hitem. by destruct (0 <=? first + step). }
  assert (Hbelow : comp item val ≤ 0 → ∀ i x,
            Z.of_nat i < first + step → l !! i = Some x → comp x val < 0).
  { intros Hle i x Hi Hx. destruct (Z.lt_ge_cases (comp x val) 0); [done|exfalso].
    pose proof (Hord i (Z.to_nat (first + step)) x item ltac:(lia) Hx Hat ltac:(lia)). lia. }
  assert (Habove : 0 ≤ comp item val → ∀ i x,
            first + step < Z.of_nat i → l !! i = Some x → 0 < comp x val).
  { intros Hge i x Hi Hx. exact (Hord (Z.to_nat (first + step)) i item x ltac:(lia) Hat Hx Hge). }
  destruct (comp item val =? 0) eqn:E0; zify_bool.
  { exists (first + step), true. split; [done|]. split; [lia|].
    split; [apply Hbelow; lia|]. split; [apply Habove; lia|]. eauto. }
  destruct (comp item val <? 0) eqn:E1; zify_bool.
  - apply IH; try lia.
    + intros i x Hi Hx. destruct (decide (Z.of_nat i = first + step)) as [e|].
      * replace i with (Z.to_nat (first + step)) in Hx by lia. congruence.
      * apply Hbelow with i; try done; lia.
    + intros. apply Hhigh with i; try done; lia.
  - apply IH; try lia; try done.
    intros i x Hi Hx. destruct (decide (Z.of_nat i = first + step)) as [e|].
    + replace i with (Z.to_nat (first + step)) in Hx by lia.
      assert (x = item) as -> by congruence. lia.
    + apply Habove with i; try done; lia.
Qed.

Lemma lower_bound_ordered l val :
  ordered l val → ∃ r found, lower_bound l val = Some (r, found) ∧ splits l val r found.
Proof.
  intros Hord. unfold lower_bound. apply lower_bound_loop_spec; try lia; try done.
  intros i x Hi Hx. apply lookup_lt_Some in Hx. lia.
Qed.
End lower_bound.

(** ** Properties *)

(** C40: on a range ordered by the comparison, [lower_bound] terminates, stays inside the
    range and returns the position that splits it: everything before is smaller than the
    value, everything after is larger, and the flag says exactly whether the element at the
    position equals the value. *)
Theorem lower_bound_splits {A T : Type} (comp : A → T → Z) (l : list A) (val : T) :
  ordered comp l val →
  ∃ r found, lower_bound comp l val = Some (r, found) ∧ splits comp l val r found.
Proof. apply lower_bound_ordered. Qed.

Lemma lower_bound_splits_witness :
  ∃ r found, lower_bound Z.sub [1; 4; 7] 4 = Some (r, found) ∧ splits Z.sub [1; 4; 7] 4 r found.
Proof.
  apply lower_bound_splits. intros i j x y Hij Hx Hy.
  repeat (destruct i as [|i]; [|]; try (simpl in Hx; discriminate));
  repeat (destruct j as [|j]; try (simpl in Hy; discriminate));
  simpl in *; simplify_eq; lia.
Defined.
