(* ===== verification/LruCache.v ===== *)
(** * The LRU cache ([deps/common/lang/lru_cache.h])

    The cache is a hash set of list nodes plus an intrusive doubly linked list, most
    recently used node first.  The model keeps the pointers: a heap of nodes, the two end
    pointers and the search structure.  A load or store through a dangling pointer makes an
    operation return [None].  [Represents] ties the pointers to a plain list of entries, and
    each operation is shown to implement a list operation on it. *)
From S2P Require Import Prelude.

(** Addresses of nodes. *)
Abbreviation addr := positive.

(** [src/deps/common/lang/lru_cache.h:27-38] [LruCache::ListNode] *)
Record ListNode {K V : Type} := mkNode {
  key_   : K;
  value_ : V;
  prev_  : option addr;
  next_  : option addr;
}.
#[global] Arguments ListNode : clear implicits.
#[global] Arguments mkNode {K V}.

(** [src/deps/common/lang/lru_cache.h:219-223] [LruCache] the fields *)
Record LruCache `{Countable K} {V : Type} := mkLru {
  heap       : gmap addr (ListNode K V);  (* the live nodes *)
  searcher_  : gmap K addr;               (* the hash set, looked up by key *)
  lru_front_ : option addr;
  lru_tail_  : option addr;
}.
#[global] Arguments LruCache K {_ _} V.
#[global] Arguments mkLru {K _ _ V}.

Section ops.
Context `{Countable K} {V : Type}.
Abbreviation hp := (gmap addr (ListNode K V)).
Implicit Types (h : hp) (c : LruCache K V) (p : addr) (k : K) (v : V).

Definition store_next h p (x : option addr) : option hp :=
  n ← h !! p; Some (<[p := mkNode (key_ n) (value_ n) (prev_ n) x]> h).
Definition store_prev h p (x : option addr) : option hp :=
  n ← h !! p; Some (<[p := mkNode (key_ n) (value_ n) x (next_ n)]> h).
Definition store_value h p v : option hp :=
  n ← h !! p; Some (<[p := mkNode (key_ n) v (prev_ n) (next_ n)]> h).

(** A store guarded by a null test. *)
Definition if_some (st : hp → addr → option addr → option hp) h (q x : option addr) : option hp :=
  match q with Some p => st h p x | None => Some h end.

(** The cache before any insertion. *)
Definition empty_cache : LruCache K V := mkLru ∅ ∅ None None.

(** [src/deps/common/lang/lru_cache.h:95-95] [LruCache::count] *)
Definition count c : nat := size (searcher_ c).

(** [src/deps/common/lang/lru_cache.h:158-179] [LruCache::lru_touch] *)
Definition lru_touch c p : option (LruCache K V) :=
  node ← heap c !! p;
  match prev_ node with
  | None => Some c
  | Some pp =>
      h ← store_next (heap c) pp (next_ node);
      h ← if_some store_prev h (next_ node) (Some pp);
      let tail := match next_ node with Some _ => lru_tail_ c | None => Some pp end in
      h ← store_prev h p None;
      h ← store_next h p (lru_front_ c);
      h ← if_some store_prev h (lru_front_ c) (Some p);
      Some (mkLru h (searcher_ c) (Some p) tail)
  end.

(** [src/deps/common/lang/lru_cache.h:181-196] [LruCache::lru_push] *)
Definition lru_push c p : option (LruCache K V) :=
  node ← heap c !! p;
  let tail := match lru_tail_ c with None => Some p | Some t => Some t end in
  h ← store_prev (heap c) p None;
  h ← store_next h p (lru_front_ c);
  h ← if_some store_prev h (lru_front_ c) (Some p);
  Some (mkLru h (<[key_ node := p]> (searcher_ c)) (Some p) tail).

(** [src/deps/common/lang/lru_cache.h:198-217] [LruCache::lru_remove] *)
Definition lru_remove c p : option (LruCache K V) :=
  node ← heap c !! p;
  h ← if_some store_next (heap c) (prev_ node) (next_ node);
  h ← if_some store_prev h (next_ node) (prev_ node);
  let front := if decide (lru_front_ c = Some p) then next_ node else lru_front_ c in
  let tail := if decide (lru_tail_ c = Some p) then prev_ node else lru_tail_ c in
  Some (mkLru (delete p h) (delete (key_ node) (searcher_ c)) front tail).

(** [src/deps/common/lang/lru_cache.h:97-107] [LruCache::get] *)
Definition get c k : option (LruCache K V * option V) :=
  match searcher_ c !! k with
  | None => Some (c, None)
  | Some p =>
      c' ← lru_touch c p;
      n ← heap c' !! p;
      Some (c', Some (value_ n))
  end.

(** [src/deps/common/lang/lru_cache.h:109-121] [LruCache::put] *)
Definition put c k v : option (LruCache K V) :=
  match searcher_ c !! k with
  | Some p =>
      h ← store_value (heap c) p v;
      lru_touch (mkLru h (searcher_ c) (lru_front_ c) (lru_tail_ c)) p
  | None =>
      let p := fresh (dom (heap c)) in  (* new ListNode(key, value) *)
      lru_push (mkLru (<[p := mkNode k v None None]> (heap c))
                  (searcher_ c) (lru_front_ c) (lru_tail_ c)) p
  end.

(** [src/deps/common/lang/lru_cache.h:123-130] [LruCache::remove] *)
Definition remove c k : option (LruCache K V) :=
  match searcher_ c !! k with
  | Some p => lru_remove c p
  | None => Some c
  end.

(** A walk along one of the links; [func] threads a state and says whether to go on. *)
Fixpoint walk {S : Type} (link : ListNode K V → option addr) h (func : S → K → V → S * bool)
    (fuel : nat) (node : option addr) (s : S) : option S :=
  match node with
  | None => Some s
  | Some p =>
      match fuel with
      | O => None
      | Datatypes.S fuel' =>
          n ← h !! p;
          let '(s', ret) := func s (key_ n) (value_ n) in
          if ret : bool then walk link h func fuel' (link n) s' else Some s'
      end
  end.

(** [src/deps/common/lang/lru_cache.h:137-145] [LruCache::foreach] *)
Definition foreach {S} c (func : S → K → V → S * bool) (s : S) : option S :=
  walk next_ (heap c) func (size (heap c)) (lru_front_ c) s.

(** [src/deps/common/lang/lru_cache.h:147-155] [LruCache::foreach_reverse] *)
Definition foreach_reverse {S} c (func : S → K → V → S * bool) (s : S) : option S :=
  walk prev_ (heap c) func (size (heap c)) (lru_tail_ c) s.
End ops.

(** ** Doubly linked segments *)

Definition hd_or (ps : list addr) (nx : option addr) : option addr :=
  match ps with p :: _ => Some p | [] => nx end.
Definition last_or (pp : option addr) (ps : list addr) : option addr :=
  match last ps with Some p => Some p | None => pp end.

Section seg.
Context `{Countable K} {V : Type}.
Abbreviation hp := (gmap addr (ListNode K V)).
Implicit Types (h : hp) (l : list (K * V)).

(** The nodes at addresses [ps] hold the entries [l], are linked both ways, and the
    segment is preceded by [pp] and followed by [nx]. *)
Fixpoint dseg h (pp : option addr) (ps : list addr) (nx : option addr) l : Prop :=
  match ps, l with
  | [], [] => True
  | p :: ps', (k, v) :: l' =>
      h !! p = Some (mkNode k v pp (hd_or ps' nx)) ∧ dseg h (Some p) ps' nx l'
  | _, _ => False
  end.

Lemma dseg_length h pp ps nx l : dseg h pp ps nx l → length ps = length l.
Proof.
  revert pp l. induction ps as [|p ps IH]; intros pp [|[k v] l]; simpl; try done.
  intros [_ Hs]. f_equal. eauto.
Qed.

Lemma dseg_frame h h' pp ps nx l :
  (∀ p, p ∈ ps → h' !! p = h !! p) → dseg h pp ps nx l → dseg h' pp ps nx l.
Proof.
  revert pp l. induction ps as [|p ps IH]; intros pp [|[k v] l] Hag; simpl; try done.
  intros [Hp Hs]. split.
  - rewrite Hag; [done | set_solver].
  - apply IH; [|done]. intros. apply Hag. set_solver.
Qed.

Lemma dseg_app h pp ps1 ps2 nx l1 l2 :
  length ps1 = length l1 →
  dseg h pp (ps1 ++ ps2) nx (l1 ++ l2) ↔
    dseg h pp ps1 (hd_or ps2 nx) l1 ∧ dseg h (last_or pp ps1) ps2 nx l2.
Proof.
  revert pp l1. induction ps1 as [|p ps1 IH]; intros pp [|[k v] l1] Hl; simpl in *; try done.
  { unfold last_or. simpl. tauto. }
  rewrite IH by lia.
  assert (hd_or (ps1 ++ ps2) nx = hd_or ps1 (hd_or ps2 nx)) as -> by (by destruct ps1).
  assert (last_or (Some p) ps1 = last_or pp (p :: ps1)) as ->; [|tauto].
  unfold last_or. rewrite last_cons. by destruct (last ps1).
Qed.

Lemma dseg_lookup h pp ps nx l p :
  dseg h pp ps nx l → p ∈ ps → is_Some (h !! p).
Proof.
  revert pp l. induction ps as [|q ps IH]; intros pp [|[k v] l]; simpl; try done;
    [set_solver|]. intros [Hq Hs] [->|Hin]%elem_of_cons; eauto.
Qed.

Lemma store_next_Some h (p : addr) x n :
  h !! p = Some n → store_next h p x = Some (<[p := mkNode (key_ n) (value_ n) (prev_ n) x]> h).
Proof. intros E. unfold store_next. by rewrite E. Qed.
Lemma store_prev_Some h (p : addr) x n :
  h !! p = Some n → store_prev h p x = Some (<[p := mkNode (key_ n) (value_ n) x (next_ n)]> h).
Proof. intros E. unfold store_prev. by rewrite E. Qed.

(** Redirecting the link that leaves the segment at its end. *)
Lemma dseg_store_last h pp ps nx l nx' :
  dseg h pp ps nx l → NoDup ps →
  ∃ h', if_some store_next h (last ps) nx' = Some h' ∧ dseg h' pp ps nx' l ∧
        (∀ p, p ∉ ps → h' !! p = h !! p) ∧ dom h' = dom h.
Proof.
  destruct ps as [|q ps _] using rev_ind.
  { intros Hs _. exists h. by destruct l. }
  intros Hs Hnd. rewrite last_snoc. simpl.
  pose proof (dseg_length _ _ _ _ _ Hs) as Hlen. rewrite length_app in Hlen. simpl in Hlen.
  destruct l as [|[k v] l _] using rev_ind; [simpl in Hlen; lia|].
  rewrite length_app in Hlen. simpl in Hlen.
  rewrite dseg_app in Hs by lia. destruct Hs as [Hs1 [Hq _]]. simpl in Hq.
  unfold store_next. rewrite Hq. simpl. eexists. split; [done|].
  apply NoDup_app in Hnd as (Hnd1 & Hnd2 & _).
  split; [|split].
  - rewrite dseg_app by lia. split.
    + eapply dseg_frame; [|exact Hs1]. intros p Hp.
      rewrite lookup_insert_ne; [done|]. intros <-. apply (Hnd2 _ Hp). set_solver.
    + simpl. rewrite lookup_insert_eq. done.
  - intros p Hp. rewrite lookup_insert_ne; [done|]. set_solver.
  - apply dom_insert_lookup_L. by rewrite Hq.
Qed.

(** Redirecting the link that leaves the segment at its front. *)
Lemma dseg_store_head h pp ps nx l pp' :
  dseg h pp ps nx l → NoDup ps →
  ∃ h', if_some store_prev h (head ps) pp' = Some h' ∧ dseg h' pp' ps nx l ∧
        (∀ p, p ∉ ps → h' !! p = h !! p) ∧ dom h' = dom h.
Proof.
  destruct ps as [|q ps]; intros Hs Hnd.
  { exists h. by destruct l. }
  destruct l as [|[k v] l]; [done|]. destruct Hs as [Hq Hs]. simpl.
  unfold store_prev. rewrite Hq. simpl. eexists. split; [done|].
  apply NoDup_cons in Hnd as [Hnq Hnd].
  split; [|split].
  - rewrite lookup_insert_eq. split; [done|].
    eapply dseg_frame; [|exact Hs]. intros p Hp.
    rewrite lookup_insert_ne; [done|]. by intros <-.
  - intros p Hp. rewrite lookup_insert_ne; [done|]. set_solver.
  - apply dom_insert_lookup_L. by rewrite Hq.
Qed.
End seg.

(** ** The abstract cache: a list of entries, most recently used first *)

Section spec.
Context `{Countable K} {V : Type}.
Implicit Types (l : list (K * V)).

Definition spec_lookup l (k : K) : option V := (list_to_map l : gmap K V) !! k.
Definition spec_rest l (k : K) : list (K * V) := filter (λ kv, kv.1 ≠ k) l.
Definition spec_get l (k : K) : list (K * V) * option V :=
  match spec_lookup l k with
  | Some v => ((k, v) :: spec_rest l k, Some v)
  | None => (l, None)
  end.
Definition spec_put l (k : K) (v : V) : list (K * V) := (k, v) :: spec_rest l k.
Definition spec_remove l (k : K) : list (K * V) := spec_rest l k.

(** [func] over the entries until it answers [false]. *)
Fixpoint spec_foreach {S} (func : S → K → V → S * bool) l (s : S) : S :=
  match l with
  | [] => s
  | (k, v) :: l' => let '(s', ret) := func s k v in
                    if ret : bool then spec_foreach func l' s' else s'
  end.

Lemma spec_rest_notin l k : k ∉ l.*1 → spec_rest l k = l.
Proof.
  intros Hk. unfold spec_rest. induction l as [|[k' v'] l IH]; [done|].
  simpl in Hk. apply not_elem_of_cons in Hk as [Hne Hk].
  rewrite filter_cons_True by (simpl; congruence). f_equal. by apply IH.
Qed.

Lemma spec_rest_split l1 k v l2 :
  NoDup (l1 ++ (k, v) :: l2).*1 → spec_rest (l1 ++ (k, v) :: l2) k = l1 ++ l2.
Proof.
  rewrite fmap_app, fmap_cons. simpl. intros (H1 & H2 & H3)%NoDup_app.
  apply NoDup_cons in H3 as [H3 _].
  unfold spec_rest. rewrite filter_app, filter_cons_False by (simpl; tauto).
  f_equal; apply spec_rest_notin; [|done].
  intros Hin. apply (H2 k Hin). apply list_elem_of_here.
Qed.

Lemma spec_lookup_Some l k v :
  NoDup l.*1 → spec_lookup l k = Some v ↔ ∃ l1 l2, l = l1 ++ (k, v) :: l2.
Proof.
  intros Hnd. unfold spec_lookup. rewrite <- elem_of_list_to_map by done. split.
  - intros (l1 & l2 & ->)%list_elem_of_split. eauto.
  - intros (l1 & l2 & ->). apply elem_of_app. right. apply list_elem_of_here.
Qed.

Lemma spec_lookup_None l k : spec_lookup l k = None ↔ k ∉ l.*1.
Proof. symmetry. apply not_elem_of_list_to_map. Qed.

Lemma spec_rest_fst l k x : x ∈ (spec_rest l k).*1 ↔ x ∈ l.*1 ∧ x ≠ k.
Proof.
  unfold spec_rest. rewrite !list_elem_of_fmap. split.
  - intros (kv & -> & [Hne Hin]%list_elem_of_filter). split; [by exists kv | done].
  - intros [(kv & -> & Hin) Hne]. exists kv. rewrite list_elem_of_filter. done.
Qed.

Lemma spec_rest_NoDup l k : NoDup l.*1 → NoDup (spec_rest l k).*1.
Proof.
  induction l as [|kv l IH]; simpl; [done|]. intros [Hn Hnd]%NoDup_cons.
  unfold spec_rest. rewrite filter_cons. case_decide; [|by apply IH].
  rewrite fmap_cons. apply NoDup_cons. split; [|by apply IH].
  intros Hin. apply Hn. by apply (spec_rest_fst l k) in Hin as [? _].
Qed.

Lemma spec_get_perm l k : NoDup l.*1 → (spec_get l k).1 ≡ₚ l.
Proof.
  intros Hnd. unfold spec_get. destruct (spec_lookup l k) as [v|] eqn:E; [|done].
  apply spec_lookup_Some in E as (l1 & l2 & ->); [|done].
  rewrite spec_rest_split by done. simpl. by rewrite Permutation_middle.
Qed.

Lemma spec_get_snd l k : (spec_get l k).2 = spec_lookup l k.
Proof. unfold spec_get. by destruct (spec_lookup l k). Qed.

Lemma spec_lookup_elem l k v : NoDup l.*1 → spec_lookup l k = Some v ↔ (k, v) ∈ l.
Proof. intros Hnd. unfold spec_lookup. by rewrite elem_of_list_to_map. Qed.

Lemma spec_rest_elem l k x : x ∈ spec_rest l k ↔ x ∈ l ∧ x.1 ≠ k.
Proof. unfold spec_rest. rewrite list_elem_of_filter. tauto. Qed.

Lemma spec_rest_cons_perm l k v :
  NoDup l.*1 → (k, v) ∈ l → l ≡ₚ (k, v) :: spec_rest l k.
Proof.
  intros Hnd Hin. apply spec_lookup_elem in Hin; [|done].
  rewrite <- (spec_get_perm l k Hnd) at 1. unfold spec_get. by rewrite Hin.
Qed.
End spec.

(** ** Refinement *)

Section represents.
Context `{Countable K} {V : Type}.
Implicit Types (c : LruCache K V) (l : list (K * V)) (ps : list addr).

(** The pointers of [c] hold the entries [l] in this order, at the addresses [ps]. *)
Record RepAt c ps l : Prop := {
  rep_seg : dseg (heap c) None ps None l;
  rep_addrs : NoDup ps;
  rep_keys : NoDup l.*1;
  rep_front : lru_front_ c = head ps;
  rep_tail : lru_tail_ c = last ps;
  rep_dom : dom (heap c) = list_to_set ps;
  rep_search : searcher_ c = list_to_map (zip l.*1 ps);
}.
Definition Represents c l : Prop := ∃ ps, RepAt c ps l.

Lemma rep_length c ps l : RepAt c ps l → length ps = length l.
Proof. intros []. by eapply dseg_length. Qed.

(** A listed entry sits at an address that splits the address list alike. *)
Lemma rep_split c ps l1 k v l2 :
  RepAt c ps (l1 ++ (k, v) :: l2) →
  ∃ ps1 p ps2, ps = ps1 ++ p :: ps2 ∧ length ps1 = length l1 ∧ length ps2 = length l2 ∧
    dseg (heap c) None ps1 (Some p) l1 ∧
    heap c !! p = Some (mkNode k v (last ps1) (head ps2)) ∧
    dseg (heap c) (Some p) ps2 None l2 ∧ searcher_ c !! k = Some p.
Proof.
  intros HR. pose proof (rep_length _ _ _ HR) as Hlen. destruct HR as [Hs Ha Hk _ _ _ Hse].
  rewrite length_app in Hlen. simpl in Hlen.
  destruct (drop (length l1) ps) as [|p ps2] eqn:Ed.
  { apply (f_equal length) in Ed. rewrite length_drop in Ed. simpl in Ed. lia. }
  exists (take (length l1) ps), p, ps2.
  assert (ps = take (length l1) ps ++ p :: ps2) as Heq by (by rewrite <- Ed, take_drop).
  assert (length (take (length l1) ps) = length l1) as Hl1 by (rewrite length_take; lia).
  set (ps1 := take (length l1) ps) in *. clearbody ps1. subst ps. clear Ed.
  rewrite length_app in Hlen. simpl in Hlen.
  rewrite dseg_app in Hs by done. destruct Hs as [Hs1 [Hp Hs2]].
  split; [done|]. split; [done|]. split; [lia|]. split; [done|]. split; [|split; [done|]].
  - rewrite Hp. unfold last_or, hd_or. by destruct (last ps1), ps2.
  - rewrite Hse. apply elem_of_list_to_map.
    + rewrite fst_zip; [done|]. rewrite length_fmap, !length_app. simpl. lia.
    + rewrite fmap_app, fmap_cons, zip_with_app by (by rewrite length_fmap). set_solver.
Qed.

Lemma rep_search_None c ps l k : RepAt c ps l → k ∉ l.*1 → searcher_ c !! k = None.
Proof.
  intros HR Hk. pose proof (rep_length _ _ _ HR). rewrite (rep_search _ _ _ HR).
  apply not_elem_of_list_to_map. rewrite fst_zip; [done|]. rewrite length_fmap. lia.
Qed.

Lemma represents_empty : Represents (empty_cache : LruCache K V) [].
Proof. exists []. constructor; simpl; try done; constructor. Qed.
End represents.

Section touch.
Context `{Countable K} {V : Type}.
Implicit Types (c : LruCache K V) (l : list (K * V)) (ps : list addr).

Lemma NoDup_middle {A} (l1 l2 : list A) (x : A) :
  NoDup (l1 ++ x :: l2) ↔ (x ∉ l1) ∧ (x ∉ l2) ∧ NoDup l1 ∧ NoDup l2 ∧ (∀ y, y ∈ l1 → y ∉ l2).
Proof.
  rewrite NoDup_app, NoDup_cons. split.
  - intros (? & Hd & ? & ?). split_and!; try done.
    + intros Hx. apply (Hd _ Hx). set_solver.
    + intros y Hy Hy2. apply (Hd y Hy). set_solver.
  - intros (? & ? & ? & ? & Hd). split_and!; try done.
    intros y Hy [->|Hy2]%elem_of_cons; [done|]. by apply (Hd y).
Qed.

(** [lru_touch] moves the entry of its node to the front. *)
Lemma lru_touch_rep c ps1 p ps2 l1 k v l2 :
  RepAt c (ps1 ++ p :: ps2) (l1 ++ (k, v) :: l2) → length ps1 = length l1 →
  ∃ c', lru_touch c p = Some c' ∧ RepAt c' (p :: ps1 ++ ps2) ((k, v) :: l1 ++ l2) ∧
        heap c' !! p = Some (mkNode k v None (head (ps1 ++ ps2))).
Proof.
  intros HR Hl. pose proof (rep_length _ _ _ HR) as Hlen.
  destruct HR as [Hs Ha Hk Hf Ht Hd Hse].
  rewrite dseg_app in Hs by done. destruct Hs as [Hs1 [Hp Hs2]].
  pose proof Ha as (Hp1 & Hp2 & Hn1 & Hn2 & Hdis)%NoDup_middle.
  unfold lru_touch. rewrite Hp. simpl.
  destruct ps1 as [|q ps1].
  { destruct l1; [|simpl in *; lia]. simpl in *. exists c.
    split; [done|]. split; [constructor; simpl; done|].
    rewrite Hp. by destruct ps2. }
  set (Q := q :: ps1) in *.
  assert (last_or None Q = last Q) as -> by (unfold last_or; by destruct (last Q)).
  destruct (last Q) as [t|] eqn:EQ; [|by apply last_None in EQ].
  assert (hd_or ps2 None = head ps2) as Hh by (by destruct ps2). rewrite Hh in Hp |- *.
  destruct (dseg_store_last _ _ _ _ _ (head ps2) Hs1 Hn1) as (h1 & E1 & D1 & F1 & M1).
  rewrite EQ in E1. simpl in E1. rewrite E1. simpl.
  assert (D1' : dseg h1 (Some p) ps2 None l2).
  { eapply dseg_frame; [|exact Hs2]. intros x Hx. apply F1. intros Hx1. by apply (Hdis x). }
  destruct (dseg_store_head _ _ _ _ _ (Some t) D1' Hn2) as (h2 & E2 & D2 & F2 & M2).
  rewrite E2. simpl.
  assert (h2 !! p = Some (mkNode k v (Some t) (head ps2))) as Hp'.
  { rewrite F2, F1, Hp by done. unfold last_or. by rewrite EQ. }
  rewrite (store_prev_Some _ _ _ _ Hp'). simpl.
  erewrite store_next_Some by apply lookup_insert_eq. simpl. rewrite insert_insert_eq.
  rewrite Hf. simpl.
  set (h3 := <[p:=_]> h2).
  assert (D3 : dseg h3 None Q (head ps2) l1).
  { eapply dseg_frame; [|exact D1]. intros x Hx. subst h3.
    rewrite lookup_insert_ne by (by intros ->). apply F2. by apply Hdis. }
  destruct (dseg_store_head _ _ _ _ _ (Some p) D3 Hn1) as (h4 & E4 & D4 & F4 & M4).
  simpl in E4. rewrite E4. simpl. eexists. split; [done|].
  assert (h4 !! p = Some (mkNode k v None (Some q))) as Hp4.
  { rewrite F4 by done. subst h3. by rewrite lookup_insert_eq. }
  split; [|simpl; exact Hp4].
  constructor; cbn [heap searcher_ lru_front_ lru_tail_].
  - split; [exact Hp4|]. change (dseg h4 (Some p) (Q ++ ps2) None (l1 ++ l2)).
    apply dseg_app; [done|]. split.
    + by rewrite Hh.
    + unfold last_or. rewrite EQ. eapply dseg_frame; [|exact D2].
      intros x Hx. rewrite F4 by (intros Hx1; by apply (Hdis x)). subst h3.
      rewrite lookup_insert_ne; [done|]. by intros ->.
  - change (NoDup (p :: Q ++ ps2)). apply NoDup_cons. rewrite elem_of_app.
    split; [tauto|]. apply NoDup_app. done.
  - rewrite fmap_app, fmap_cons in Hk. rewrite fmap_cons, fmap_app.
    apply NoDup_middle in Hk as (? & ? & ? & ? & ?).
    apply NoDup_cons. rewrite elem_of_app. split; [tauto|]. apply NoDup_app. done.
  - done.
  - change (match head ps2 with Some _ => lru_tail_ c | None => Some t end = last (p :: Q ++ ps2)).
    rewrite Ht, last_app_cons, (last_cons p (Q ++ ps2)). destruct ps2 as [|y ps2].
    + by rewrite app_nil_r, EQ.
    + rewrite last_app_cons. cbn [head]. rewrite last_cons_cons.
      destruct (last (y :: ps2)) eqn:E; [done|]. by apply last_None in E.
  - rewrite M4. subst h3. rewrite dom_insert_lookup_L by (by rewrite Hp').
    rewrite M2, M1, Hd. change (q :: ps1 ++ ps2) with (Q ++ ps2).
    apply set_eq. intros x. rewrite !elem_of_list_to_set, elem_of_cons, !elem_of_app, elem_of_cons. tauto.
  - rewrite Hse.
    transitivity (list_to_map (zip ((k, v) :: l1 ++ l2).*1 (p :: Q ++ ps2)) : gmap K addr); [|done].
    apply list_to_map_proper.
    + rewrite fst_zip; [done|]. rewrite length_fmap. lia.
    + rewrite fmap_cons, !fmap_app, fmap_cons. cbn [fst zip_with].
      rewrite !zip_with_app by (by rewrite length_fmap). cbn [zip_with].
      by rewrite Permutation_middle.
Qed.
End touch.

Section push_remove.
Context `{Countable K} {V : Type}.
Implicit Types (c : LruCache K V) (l : list (K * V)) (ps : list addr).

(** [lru_push] puts a node that is in no list at the front. *)
Lemma lru_push_rep c ps l p k v pp nx :
  RepAt c ps l → p ∉ ps → k ∉ l.*1 →
  ∃ c', lru_push (mkLru (<[p := mkNode k v pp nx]> (heap c)) (searcher_ c)
                    (lru_front_ c) (lru_tail_ c)) p = Some c' ∧
        RepAt c' (p :: ps) ((k, v) :: l).
Proof.
  intros [Hs Ha Hk Hf Ht Hd Hse] Hp Hkl. unfold lru_push. cbn [heap searcher_ lru_front_ lru_tail_].
  rewrite lookup_insert_eq. simpl.
  erewrite store_prev_Some by apply lookup_insert_eq. simpl. rewrite insert_insert_eq.
  erewrite store_next_Some by apply lookup_insert_eq. simpl. rewrite insert_insert_eq.
  rewrite Hf. set (h3 := <[p:=_]> (heap c)).
  assert (D3 : dseg h3 None ps None l).
  { eapply dseg_frame; [|exact Hs]. intros x Hx. subst h3.
    rewrite lookup_insert_ne; [done | by intros ->]. }
  destruct (dseg_store_head _ _ _ _ _ (Some p) D3 Ha) as (h4 & E4 & D4 & F4 & M4).
  rewrite E4. simpl. eexists. split; [done|].
  constructor; cbn [heap searcher_ lru_front_ lru_tail_].
  - split; [|done]. rewrite F4 by done. subst h3. rewrite lookup_insert_eq. by destruct ps.
  - by apply NoDup_cons.
  - rewrite fmap_cons. by apply NoDup_cons.
  - done.
  - rewrite Ht, last_cons. by destruct (last ps).
  - rewrite M4. subst h3. rewrite dom_insert_L, Hd. done.
  - by rewrite Hse.
Qed.

(** [lru_remove] unlinks a node and forgets it. *)
Lemma lru_remove_rep c ps1 p ps2 l1 k v l2 :
  RepAt c (ps1 ++ p :: ps2) (l1 ++ (k, v) :: l2) → length ps1 = length l1 →
  ∃ c', lru_remove c p = Some c' ∧ RepAt c' (ps1 ++ ps2) (l1 ++ l2).
Proof.
  intros HR Hl. pose proof (rep_length _ _ _ HR) as Hlen.
  destruct HR as [Hs Ha Hk Hf Ht Hd Hse].
  rewrite dseg_app in Hs by done. destruct Hs as [Hs1 [Hp Hs2]].
  pose proof Ha as (Hp1 & Hp2 & Hn1 & Hn2 & Hdis)%NoDup_middle.
  assert (Hl2 : length ps2 = length l2) by (by eapply dseg_length).
  unfold lru_remove. rewrite Hp. simpl.
  assert (last_or None ps1 = last ps1) as -> by (unfold last_or; by destruct (last ps1)).
  assert (hd_or ps2 None = head ps2) as -> by (by destruct ps2).
  destruct (dseg_store_last _ _ _ _ _ (head ps2) Hs1 Hn1) as (h1 & E1 & D1 & F1 & M1).
  rewrite E1. simpl.
  assert (D1' : dseg h1 (Some p) ps2 None l2).
  { eapply dseg_frame; [|exact Hs2]. intros x Hx. apply F1. intros Hx1. by apply (Hdis x). }
  destruct (dseg_store_head _ _ _ _ _ (last ps1) D1' Hn2) as (h2 & E2 & D2 & F2 & M2).
  rewrite E2. simpl. eexists. split; [done|].
  assert (Hdel : ∀ x, x ≠ p → delete p h2 !! x = h2 !! x) by (intros; by apply lookup_delete_ne).
  constructor; cbn [heap searcher_ lru_front_ lru_tail_].
  - apply dseg_app; [done|]. split.
    + assert (hd_or ps2 None = head ps2) as -> by (by destruct ps2).
      eapply dseg_frame; [|exact D1]. intros x Hx.
      rewrite Hdel by (by intros ->). apply F2. by apply Hdis.
    + assert (last_or None ps1 = last ps1) as -> by (unfold last_or; by destruct (last ps1)).
      eapply dseg_frame; [|exact D2]. intros x Hx. apply Hdel. by intros ->.
  - apply NoDup_app. done.
  - rewrite fmap_app, fmap_cons in Hk. rewrite fmap_app.
    apply NoDup_middle in Hk as (? & ? & ? & ? & ?). by apply NoDup_app.
  - rewrite Hf. destruct ps1 as [|q ps1]; simpl.
    + by rewrite decide_True.
    + rewrite decide_False; [done|]. intros [= ->]. apply Hp1. apply list_elem_of_here.
  - rewrite Ht, last_app_cons. destruct ps2 as [|q ps2] using rev_ind; [|clear IHps2].
    + rewrite app_nil_r. by rewrite decide_True.
    + rewrite app_comm_cons, last_snoc, app_assoc, last_snoc.
      rewrite decide_False; [done|]. intros [= ->]. apply Hp2. apply elem_of_app. right.
      apply list_elem_of_here.
  - rewrite dom_delete_L, M2, M1, Hd. apply set_eq. intros x.
    rewrite elem_of_difference, elem_of_singleton, !elem_of_list_to_set, !elem_of_app, elem_of_cons.
    split; [tauto|]. intros Hx. split; [tauto|]. intros ->. tauto.
  - rewrite Hse, !fmap_app, fmap_cons.
    rewrite (zip_with_app _ l1.*1 l2.*1) by (by rewrite length_fmap).
    rewrite (zip_with_app _ l1.*1 (k :: l2.*1)) by (by rewrite length_fmap).
    rewrite !list_to_map_app. cbn [fst zip_with list_to_map fmap list_fmap foldr uncurry].
    rewrite delete_union. f_equal.
    + apply delete_id. apply not_elem_of_list_to_map.
      rewrite fst_zip by (rewrite length_fmap; lia).
      rewrite fmap_app, fmap_cons in Hk. by apply NoDup_middle in Hk as (? & _).
    + apply delete_insert_id. apply not_elem_of_list_to_map.
      rewrite fst_zip by (rewrite length_fmap; lia).
      rewrite fmap_app, fmap_cons in Hk. by apply NoDup_middle in Hk as (_ & ? & _).
Qed.

(** Walking a represented list visits its entries in order. *)
Lemma walk_next_rep {S : Type} h (func : S → K → V → S * bool) pp ps l :
  dseg h pp ps None l → ∀ fuel s, (length ps ≤ fuel)%nat →
  walk next_ h func fuel (head ps) s = Some (spec_foreach func l s).
Proof.
  revert pp l. induction ps as [|p ps IH]; intros pp [|[k v] l]; simpl; try done.
  { intros _ [|fuel] s _; done. }
  intros [Hp Hs] [|fuel] s Hf; [lia|]. simpl. rewrite Hp. simpl.
  destruct (func s k v) as [s' []]; [|done].
  assert (hd_or ps None = head ps) as -> by (by destruct ps).
  eapply IH; [exact Hs | lia].
Qed.

Lemma walk_prev_rep {S : Type} h (func : S → K → V → S * bool) ps l : ∀ nx,
  dseg h None ps nx l → ∀ fuel s, (length ps ≤ fuel)%nat →
  walk prev_ h func fuel (last ps) s = Some (spec_foreach func (reverse l) s).
Proof.
  revert l. induction ps as [|p ps IH] using rev_ind; intros l nx Hs fuel s Hf.
  { destruct l; [|done]. by destruct fuel. }
  pose proof (dseg_length _ _ _ _ _ Hs) as Hlen. rewrite length_app in Hlen, Hf. simpl in *.
  destruct l as [|[k v] l _] using rev_ind; [simpl in *; lia|].
  rewrite length_app in Hlen. simpl in Hlen.
  rewrite dseg_app in Hs by lia. destruct Hs as [Hs [Hp _]].
  destruct fuel as [|fuel]; [lia|]. rewrite last_snoc, reverse_snoc. simpl. rewrite Hp. simpl.
  destruct (func s k v) as [s' []]; [|done].
  assert (last_or None ps = last ps) as -> by (unfold last_or; by destruct (last ps)).
  eapply IH; [exact Hs | lia].
Qed.
End push_remove.

Section operations.
Context `{Countable K} {V : Type}.
Implicit Types (c : LruCache K V) (l : list (K * V)) (k : K) (v : V).

Lemma rep_size c ps l : RepAt c ps l → size (heap c) = length ps.
Proof.
  intros HR. rewrite <- size_dom, (rep_dom _ _ _ HR).
  apply size_list_to_set, (rep_addrs _ _ _ HR).
Qed.

Lemma count_rep c l : Represents c l → count c = length l.
Proof.
  intros [ps HR]. pose proof (rep_length _ _ _ HR) as Hl. unfold count.
  rewrite (rep_search _ _ _ HR). rewrite <- size_dom, dom_list_to_map_L, fst_zip
    by (rewrite length_fmap; lia).
  rewrite size_list_to_set by apply (rep_keys _ _ _ HR). by rewrite length_fmap.
Qed.

Lemma get_rep c l k :
  Represents c l →
  ∃ c', get c k = Some (c', (spec_get l k).2) ∧ Represents c' (spec_get l k).1.
Proof.
  intros [ps HR]. unfold get, spec_get.
  destruct (spec_lookup l k) as [v|] eqn:E.
  - apply spec_lookup_Some in E as (l1 & l2 & ->); [|by apply (rep_keys _ _ _ HR)].
    destruct (rep_split _ _ _ _ _ _ HR) as (ps1 & p & ps2 & -> & Hl & _ & _ & _ & _ & ->).
    destruct (lru_touch_rep _ _ _ _ _ _ _ _ HR Hl) as (c' & Et & HR' & Hp).
    rewrite Et. simpl. rewrite Hp. simpl. eexists. split; [done|].
    rewrite spec_rest_split by apply (rep_keys _ _ _ HR). by eexists.
  - apply spec_lookup_None in E. rewrite (rep_search_None _ _ _ _ HR E).
    eexists. split; [done|]. by exists ps.
Qed.

Lemma put_rep c l k v :
  Represents c l → ∃ c', put c k v = Some c' ∧ Represents c' (spec_put l k v).
Proof.
  intros [ps HR]. unfold put, spec_put.
  destruct (spec_lookup l k) as [v0|] eqn:E.
  - apply spec_lookup_Some in E as (l1 & l2 & ->); [|by apply (rep_keys _ _ _ HR)].
    destruct (rep_split _ _ _ _ _ _ HR)
      as (ps1 & p & ps2 & -> & Hl & Hl2 & Hs1 & Hp & Hs2 & ->).
    unfold store_value. rewrite Hp. simpl.
    set (h := <[p:=_]> (heap c)).
    assert (HR' : RepAt (mkLru h (searcher_ c) (lru_front_ c) (lru_tail_ c))
                    (ps1 ++ p :: ps2) (l1 ++ (k, v) :: l2)).
    { destruct HR as [_ Ha Hk Hf Ht Hd Hse].
      pose proof Ha as (Hp1 & Hp2 & _)%NoDup_middle.
      constructor; cbn [heap searcher_ lru_front_ lru_tail_]; try done.
      - apply dseg_app; [done|]. split.
        + eapply dseg_frame; [|exact Hs1]. intros x Hx. subst h.
          rewrite lookup_insert_ne; [done | by intros ->].
        + split; [|eapply dseg_frame; [|exact Hs2]].
          * subst h. rewrite lookup_insert_eq. unfold last_or, hd_or. by destruct (last ps1), ps2.
          * intros x Hx. subst h. rewrite lookup_insert_ne; [done | by intros ->].
      - rewrite fmap_app, fmap_cons in Hk |- *. done.
      - subst h. rewrite dom_insert_lookup_L; [done | by rewrite Hp].
      - rewrite Hse, !fmap_app, !fmap_cons. done. }
    destruct (lru_touch_rep _ _ _ _ _ _ _ _ HR' Hl) as (c' & Et & HR2 & _).
    exists c'. split; [done|].
    rewrite spec_rest_split by apply (rep_keys _ _ _ HR). by eexists.
  - apply spec_lookup_None in E. rewrite (rep_search_None _ _ _ _ HR E).
    assert (fresh (dom (heap c)) ∉ ps) as Hfr.
    { pose proof (is_fresh (dom (heap c))) as Hf. rewrite (rep_dom _ _ _ HR) in Hf at 2.
      by rewrite elem_of_list_to_set in Hf. }
    destruct (lru_push_rep c ps l _ k v None None HR Hfr E) as (c' & Et & HR2).
    exists c'. split; [done|]. rewrite spec_rest_notin by done. by eexists.
Qed.

Lemma remove_rep c l k :
  Represents c l → ∃ c', remove c k = Some c' ∧ Represents c' (spec_remove l k).
Proof.
  intros [ps HR]. unfold remove, spec_remove.
  destruct (spec_lookup l k) as [v|] eqn:E.
  - apply spec_lookup_Some in E as (l1 & l2 & ->); [|by apply (rep_keys _ _ _ HR)].
    destruct (rep_split _ _ _ _ _ _ HR) as (ps1 & p & ps2 & -> & Hl & _ & _ & _ & _ & ->).
    destruct (lru_remove_rep _ _ _ _ _ _ _ _ HR Hl) as (c' & Et & HR').
    exists c'. split; [done|].
    rewrite spec_rest_split by apply (rep_keys _ _ _ HR). by eexists.
  - apply spec_lookup_None in E. rewrite (rep_search_None _ _ _ _ HR E).
    eexists. split; [done|]. rewrite spec_rest_notin by done. by exists ps.
Qed.

Lemma foreach_rep {S : Type} c l (func : S → K → V → S * bool) s :
  Represents c l → foreach c func s = Some (spec_foreach func l s).
Proof.
  intros [ps HR]. unfold foreach. rewrite (rep_front _ _ _ HR).
  eapply walk_next_rep; [apply (rep_seg _ _ _ HR)|]. by rewrite (rep_size _ _ _ HR).
Qed.

Lemma foreach_reverse_rep {S : Type} c l (func : S → K → V → S * bool) s :
  Represents c l → foreach_reverse c func s = Some (spec_foreach func (reverse l) s).
Proof.
  intros [ps HR]. unfold foreach_reverse. rewrite (rep_tail _ _ _ HR).
  eapply walk_prev_rep; [apply (rep_seg _ _ _ HR)|]. by rewrite (rep_size _ _ _ HR).
Qed.

Lemma represents_NoDup c l : Represents c l → NoDup l.*1.
Proof. intros [ps HR]. apply (rep_keys _ _ _ HR). Qed.
End operations.

(** ** The interface the frame manager is verified against *)
Class LruSpec (C K V : Type) `{Countable K} := {
  lru_abs : C → list (K * V) → Prop;
  lru_empty : C;
  lru_get : C → K → option (C * option V);
  lru_put : C → K → V → option C;
  lru_rm : C → K → option C;
  lru_count : C → nat;
  lru_foreach : ∀ {S : Type}, C → (S → K → V → S * bool) → S → option S;
  lru_foreach_reverse : ∀ {S : Type}, C → (S → K → V → S * bool) → S → option S;
  lru_abs_NoDup : ∀ c l, lru_abs c l → NoDup l.*1;
  lru_empty_ok : lru_abs lru_empty [];
  lru_get_ok : ∀ c l k, lru_abs c l →
    ∃ c', lru_get c k = Some (c', (spec_get l k).2) ∧ lru_abs c' (spec_get l k).1;
  lru_put_ok : ∀ c l k v, lru_abs c l →
    ∃ c', lru_put c k v = Some c' ∧ lru_abs c' (spec_put l k v);
  lru_rm_ok : ∀ c l k, lru_abs c l →
    ∃ c', lru_rm c k = Some c' ∧ lru_abs c' (spec_remove l k);
  lru_count_ok : ∀ c l, lru_abs c l → lru_count c = length l;
  lru_foreach_ok : ∀ {S : Type} c l (func : S → K → V → S * bool) s,
    lru_abs c l → lru_foreach c func s = Some (spec_foreach func l s);
  lru_foreach_reverse_ok : ∀ {S : Type} c l (func : S → K → V → S * bool) s,
    lru_abs c l → lru_foreach_reverse c func s = Some (spec_foreach func (reverse l) s);
}.

(** The linked list implements the interface. *)
#[export] Instance linked_lru `{Countable K} (V : Type) : LruSpec (LruCache K V) K V := {|
  lru_abs := Represents;
  lru_empty := empty_cache;
  lru_get := get;
  lru_put := put;
  lru_rm := remove;
  lru_count := count;
  lru_foreach := @foreach K _ _ V;
  lru_foreach_reverse := @foreach_reverse K _ _ V;
  lru_abs_NoDup := represents_NoDup;
  lru_empty_ok := represents_empty;
  lru_get_ok := get_rep;
  lru_put_ok := put_rep;
  lru_rm_ok := remove_rep;
  lru_count_ok := count_rep;
  lru_foreach_ok := @foreach_rep K _ _ V;
  lru_foreach_reverse_ok := @foreach_reverse_rep K _ _ V;
|}.

(** ** Sequences of operations *)
Section trace.
Context {K V : Type} `{Countable K}.

Inductive request :=
| RGet (k : K)
| RPut (k : K) (v : V)
| RRemove (k : K)
| RCount
| RColdest (n : nat).   (* a bounded [foreach_reverse], as a purge makes it *)

Inductive answer :=
| AValue (v : option V)
| ANat (n : nat)
| AKeys (ks : list K)
| AUnit.

(** Collects keys until [n] of them are found. *)
Definition collect (n : nat) (s : list K) (k : K) (v : V) : list K * bool :=
  (s ++ [k], negb (n <=? length (s ++ [k]))%nat).

Definition serve (c : LruCache K V) (r : request) : option (LruCache K V * answer) :=
  match r with
  | RGet k => '(c, v) ← get c k; Some (c, AValue v)
  | RPut k v => c ← put c k v; Some (c, AUnit)
  | RRemove k => c ← remove c k; Some (c, AUnit)
  | RCount => Some (c, ANat (count c))
  | RColdest n => ks ← foreach_reverse c (collect n) []; Some (c, AKeys ks)
  end.

(** The same request against the list of entries, most recently used first. *)
Definition spec_serve (l : list (K * V)) (r : request) : list (K * V) * answer :=
  match r with
  | RGet k => ((spec_get l k).1, AValue (spec_lookup l k))
  | RPut k v => (spec_put l k v, AUnit)
  | RRemove k => (spec_remove l k, AUnit)
  | RCount => (l, ANat (length l))
  | RColdest n => (l, AKeys (spec_foreach (collect n) (reverse l) []))
  end.

Fixpoint serve_all (c : LruCache K V) (rs : list request) : option (LruCache K V * list answer) :=
  match rs with
  | [] => Some (c, [])
  | r :: rs => '(c, a) ← serve c r; '(c, out) ← serve_all c rs; Some (c, a :: out)
  end.

Fixpoint spec_serve_all (l : list (K * V)) (rs : list request) : list (K * V) * list answer :=
  match rs with
  | [] => (l, [])
  | r :: rs => let '(l, a) := spec_serve l r in
               let '(l, out) := spec_serve_all l rs in (l, a :: out)
  end.

Lemma serve_ok c l r :
  Represents c l →
  ∃ c', serve c r = Some (c', (spec_serve l r).2) ∧ Represents c' (spec_serve l r).1.
Proof.
  intros HR. destruct r as [k|k v|k| |n]; simpl.
  - destruct (get_rep _ _ k HR) as (c' & -> & HR'). rewrite spec_get_snd. by eexists.
  - destruct (put_rep _ _ k v HR) as (c' & -> & HR'). by eexists.
  - destruct (remove_rep _ _ k HR) as (c' & -> & HR'). by eexists.
  - exists c. by rewrite (count_rep _ _ HR).
  - rewrite (foreach_reverse_rep _ _ _ _ HR). by eexists.
Qed.

Lemma serve_all_ok rs : ∀ c l,
  Represents c l →
  ∃ c', serve_all c rs = Some (c', (spec_serve_all l rs).2) ∧
        Represents c' (spec_serve_all l rs).1.
Proof.
  induction rs as [|r rs IH]; intros c l HR; simpl; [by exists c|].
  destruct (serve_ok c l r HR) as (c1 & -> & HR1). simpl.
  destruct (spec_serve l r) as [l1 a]. simpl in *.
  destruct (IH c1 l1 HR1) as (c2 & -> & HR2).
  destruct (spec_serve_all l1 rs) as [l2 out]. simpl in *. by exists c2.
Qed.
End trace.
#[global] Arguments request : clear implicits.
#[global] Arguments answer : clear implicits.

(** C36: the pointer structure refines the recency list.  Started empty, every sequence of
    get/put/remove/count requests and bounded backward walks runs without a dangling
    pointer access or a failed insertion, gives exactly the answers of the list
    specification, and leaves a doubly linked list that represents the specified one. *)
Theorem lru_refines_recency_list {K V : Type} `{Countable K} (rs : list (request K V)) :
  ∃ c', serve_all empty_cache rs = Some (c', (spec_serve_all [] rs).2) ∧
        Represents c' (spec_serve_all [] rs).1.
Proof. apply serve_all_ok, represents_empty. Qed.
