(* ===== verification/Rc.v ===== *)
(** * Return codes and shared scalar types ([src/observer/common/rc.h], [types.h])

    The codes as an enumeration with decidable equality, and the test for failure. *)
From S2P Require Import Prelude.

(** [src/src/observer/common/rc.h:22-79] [RC] *)
Inductive RC : Set :=
  | RC_SUCCESS
  | RC_INVALID_ARGUMENT
  | RC_UNIMPLEMENTED
  | RC_SQL_SYNTAX
  | RC_INTERNAL
  | RC_NOMEM
  | RC_NOTFOUND
  | RC_EMPTY
  | RC_FULL
  | RC_EXIST
  | RC_NOT_EXIST
  | RC_BUFFERPOOL_OPEN
  | RC_BUFFERPOOL_NOBUF
  | RC_BUFFERPOOL_INVALID_PAGE_NUM
  | RC_RECORD_OPENNED
  | RC_RECORD_INVALID_RID
  | RC_RECORD_INVALID_KEY
  | RC_RECORD_DUPLICATE_KEY
  | RC_RECORD_NOMEM
  | RC_RECORD_EOF
  | RC_RECORD_NOT_EXIST
  | RC_RECORD_INVISIBLE
  | RC_SCHEMA_DB_EXIST
  | RC_SCHEMA_DB_NOT_EXIST
  | RC_SCHEMA_DB_NOT_OPENED
  | RC_SCHEMA_TABLE_NOT_EXIST
  | RC_SCHEMA_TABLE_EXIST
  | RC_SCHEMA_FIELD_NOT_EXIST
  | RC_SCHEMA_FIELD_MISSING
  | RC_SCHEMA_FIELD_TYPE_MISMATCH
  | RC_SCHEMA_INDEX_NAME_REPEAT
  | RC_IOERR_READ
  | RC_IOERR_WRITE
  | RC_IOERR_ACCESS
  | RC_IOERR_OPEN
  | RC_IOERR_CLOSE
  | RC_IOERR_SEEK
  | RC_IOERR_TOO_LONG
  | RC_IOERR_SYNC
  | RC_LOCKED_UNLOCK
  | RC_LOCKED_NEED_WAIT
  | RC_LOCKED_CONCURRENCY_CONFLICT
  | RC_FILE_EXIST
  | RC_FILE_NOT_EXIST
  | RC_FILE_NAME
  | RC_FILE_BOUND
  | RC_FILE_CREATE
  | RC_FILE_OPEN
  | RC_FILE_NOT_OPENED
  | RC_FILE_CLOSE
  | RC_FILE_REMOVE
  | RC_VARIABLE_NOT_EXISTS
  | RC_VARIABLE_NOT_VALID
  | RC_LOGBUF_FULL
  | RC_LOG_FILE_FULL
  | RC_LOG_ENTRY_INVALID
  | RC_UNSUPPORTED.

#[export] Instance RC_eq_dec : EqDecision RC.
Proof. solve_decision. Defined.

(** [src/src/observer/common/rc.cpp:33-33] [OB_SUCC] *)
Definition OB_SUCC (rc : RC) : bool := bool_decide (rc = RC_SUCCESS).

(** [src/src/observer/common/rc.cpp:35-35] [OB_FAIL] *)
Definition OB_FAIL (rc : RC) : bool := bool_decide (rc ≠ RC_SUCCESS).

(** [src/src/observer/common/types.h:37-41] [ReadWriteMode] *)
Inductive ReadWriteMode : Set := READ_ONLY | READ_WRITE.

#[export] Instance ReadWriteMode_eq_dec : EqDecision ReadWriteMode.
Proof. solve_decision. Defined.

Lemma OB_SUCC_spec rc : OB_SUCC rc = true ↔ rc = RC_SUCCESS.
Proof. unfold OB_SUCC. apply bool_decide_eq_true. Qed.

Lemma OB_FAIL_negb rc : OB_FAIL rc = negb (OB_SUCC rc).
Proof. unfold OB_FAIL, OB_SUCC. by destruct rc. Qed.

(** ** Page geometry *)

(** [src/src/observer/storage/buffer/page.h:22-22] [BP_INVALID_PAGE_NUM] *)
Definition BP_INVALID_PAGE_NUM : Z := -1.
(** [src/src/observer/storage/buffer/page.h:26-26] [BP_PAGE_SIZE] *)
Definition BP_PAGE_SIZE : Z := 1024 * 8 * 8 * 8.
(** [src/src/observer/storage/buffer/page.h:27-27] [BP_PAGE_DATA_SIZE] the sizes of a page number,
    an LSN and a checksum are 4, 8 and 4 bytes *)
Definition BP_PAGE_DATA_SIZE : Z := BP_PAGE_SIZE - 4 - 8 - 4.
