(* ===== verification/MemPool.v ===== *)
(** * The object pool ([deps/common/mm/mem_pool.h], [MemPoolSimple])

    The pool hands out the addresses of preallocated objects.  Objects are never
    constructed again when they are reused, so the model tracks addresses only. *)
From S2P Require Import Prelude.

(** [src/deps/common/mm/mem_pool.h:157-161] [MemPoolSimple] the fields *)
Record MemPoolSimple := mkPool {
  pools             : list positive;  (* first address of each extent *)
  used              : gset positive;
  frees             : list positive;
  item_num_per_pool : nat;
  dynamic           : bool;
  pool_size         : nat;
  next_addr         : positive;       (* where [new T[n]] places the next extent *)
}.

Definition initial_pool : MemPoolSimple := mkPool [] ∅ [] 0 true 0 1.

(** The addresses of an extent of [n] objects. *)
Fixpoint extent (a : positive) (n : nat) : list positive :=
  match n with O => [] | S n' => a :: extent (Pos.succ a) n' end.

(** [src/deps/common/mm/mem_pool.h:220-247] [MemPoolSimple::extend] *)
Definition extend (m : MemPoolSimple) : MemPoolSimple * Z :=
  if negb (dynamic m) then (m, -1)
  else
    let n := item_num_per_pool m in
    let pool := next_addr m in
    (mkPool (pools m ++ [pool]) (used m) (frees m ++ extent pool n) n (dynamic m)
       (pool_size m + n)%nat (Pos.iter Pos.succ pool (Pos.of_succ_nat n)), 0).

(** [src/deps/common/mm/mem_pool.h:196-218] [MemPoolSimple::cleanup] *)
Definition cleanup (m : MemPoolSimple) : MemPoolSimple :=
  match pools m with
  | [] => m
  | _ => mkPool [] ∅ [] (item_num_per_pool m) (dynamic m) 0 (next_addr m)
  end.

Fixpoint extend_times (m : MemPoolSimple) (n : nat) : MemPoolSimple * Z :=
  match n with
  | O => (m, 0)
  | S n' => let '(m', ret) := extend m in
            if ret <? 0 then (cleanup m', -1) else extend_times m' n'
  end.

(** [src/deps/common/mm/mem_pool.h:166-194] [MemPoolSimple::init] *)
Definition init (m : MemPoolSimple) (dyn : bool) (pool_num item_num : Z) : MemPoolSimple * Z :=
  match pools m with
  | _ :: _ => (m, 0)
  | [] =>
      if (pool_num <=? 0) || (item_num <=? 0) then (m, -1)
      else
        let m1 := mkPool (pools m) (used m) (frees m) (Z.to_nat item_num) true
                    (pool_size m) (next_addr m) in
        let '(m2, ret) := extend_times m1 (Z.to_nat pool_num) in
        if ret <? 0 then (m2, -1)
        else (mkPool (pools m2) (used m2) (frees m2) (item_num_per_pool m2) dyn
                (pool_size m2) (next_addr m2), 0)
  end.

(** Takes the front of the free list. *)
Definition pop_free (m : MemPoolSimple) : MemPoolSimple * option positive :=
  match frees m with
  | [] => (m, None)
  | p :: rest => (mkPool (pools m) ({[p]} ∪ used m) rest (item_num_per_pool m) (dynamic m)
                    (pool_size m) (next_addr m), Some p)
  end.

(** [src/deps/common/mm/mem_pool.h:249-272] [MemPoolSimple::alloc] *)
Definition alloc (m : MemPoolSimple) : MemPoolSimple * option positive :=
  match frees m with
  | [] =>
      if negb (dynamic m) then (m, None)
      else let '(m', ret) := extend m in
           if ret <? 0 then (m', None) else pop_free m'
  | _ => pop_free m
  end.

(** [src/deps/common/mm/mem_pool.h:274-293] [MemPoolSimple::free] *)
Definition free (m : MemPoolSimple) (buf : positive) : MemPoolSimple :=
  if decide (buf ∈ used m) then
    mkPool (pools m) (used m ∖ {[buf]}) (frees m ++ [buf]) (item_num_per_pool m) (dynamic m)
      (pool_size m) (next_addr m)
  else m.

(** ** Invariant: every object of the pool is in exactly one of the two lists. *)
Record wf (m : MemPoolSimple) : Prop := {
  wf_frees : NoDup (frees m);
  wf_disj : ∀ p, p ∈ frees m → p ∉ used m;
  wf_size : pool_size m = (length (frees m) + size (used m))%nat;
  wf_bound : ∀ p, p ∈ frees m ∨ p ∈ used m → (p < next_addr m)%positive;
}.

Lemma extent_elem n : ∀ a p, p ∈ extent a n ↔ (Pos.to_nat a ≤ Pos.to_nat p < Pos.to_nat a + n)%nat.
Proof.
  induction n as [|n IH]; intros a p; simpl.
  - split; [set_solver | lia].
  - rewrite elem_of_cons, IH. split; [intros [->|]; lia | intros].
    destruct (decide (p = a)); [by left | right; lia].
Qed.

Lemma extent_length a n : length (extent a n) = n.
Proof. revert a. induction n; intros; simpl; auto. Qed.

Lemma extent_NoDup n : ∀ a, NoDup (extent a n).
Proof.
  induction n as [|n IH]; intros a; simpl; constructor; [|apply IH].
  rewrite extent_elem. lia.
Qed.

Lemma extend_next a n : Pos.to_nat (Pos.iter Pos.succ a (Pos.of_succ_nat n)) = (Pos.to_nat a + S n)%nat.
Proof.
  rewrite Pos2Nat.inj_iter, SuccNat2Pos.id_succ.
  induction n as [|n IH]; simpl in *; lia.
Qed.

Lemma extend_wf m : wf m → wf (extend m).1.
Proof.
  intros [Hf Hd Hs Hb]. unfold extend. destruct (dynamic m); simpl; [|by constructor].
  pose proof (extend_next (next_addr m) (item_num_per_pool m)) as Hn.
  constructor; simpl.
  - apply NoDup_app. split; [done|]. split; [|apply extent_NoDup].
    intros p Hp Hx. apply extent_elem in Hx. specialize (Hb p (or_introl Hp)). lia.
  - intros p [Hp|Hp]%elem_of_app; [by apply Hd|]. intros Hu.
    apply extent_elem in Hp. specialize (Hb p (or_intror Hu)). lia.
  - rewrite length_app, extent_length. lia.
  - intros p [[Hp|Hp]%elem_of_app|Hp].
    + specialize (Hb p (or_introl Hp)). lia.
    + apply extent_elem in Hp. lia.
    + specialize (Hb p (or_intror Hp)). lia.
Qed.

Lemma pop_free_wf m : wf m → wf (pop_free m).1.
Proof.
  intros Hwf. unfold pop_free. destruct (frees m) as [|p rest] eqn:E; [done|].
  destruct Hwf as [Hf Hd Hs Hb]. rewrite E in *.
  apply NoDup_cons in Hf as [Hp Hf]. simpl in *.
  constructor; simpl; [done| | |].
  - intros q Hq. specialize (Hd q (list_elem_of_further _ _ _ Hq)). set_unfold. naive_solver.
  - rewrite size_union by (pose proof (Hd p (list_elem_of_here _ _)); set_solver).
    rewrite size_singleton. lia.
  - intros q Hq. apply Hb. set_unfold. naive_solver.
Qed.

Lemma alloc_wf m : wf m → wf (alloc m).1.
Proof.
  intros Hwf. unfold alloc. destruct (frees m); [|by apply pop_free_wf].
  destruct (dynamic m) eqn:E; simpl; [|done].
  pose proof (extend_wf _ Hwf) as He. destruct (extend m) as [m' ret]. simpl in He.
  case_bool; [done | by apply pop_free_wf].
Qed.

Lemma alloc_Some m p m' :
  wf m → dynamic m = false → alloc m = (m', Some p) →
  p ∉ used m ∧ p ∈ used m' ∧ used m' = {[p]} ∪ used m ∧ p ∉ frees m' ∧ dynamic m' = false ∧
  pool_size m' = pool_size m.
Proof.
  intros [Hf Hd Hs Hb] Hdyn. unfold alloc. rewrite Hdyn. unfold pop_free.
  destruct (frees m) as [|q rest] eqn:E; [done|]. intros [= <- <-]. simpl.
  apply NoDup_cons in Hf as [Hq _]. split_and!; try done; [|set_solver].
  apply Hd. apply list_elem_of_here.
Qed.

Lemma alloc_None m m' : dynamic m = false → alloc m = (m', None) → m' = m ∧ frees m = [].
Proof.
  intros Hdyn. unfold alloc. rewrite Hdyn. unfold pop_free.
  destruct (frees m); simpl; [by intros [= <-] | done].
Qed.

Lemma free_wf m p : wf m → wf (free m p).
Proof.
  intros [Hf Hd Hs Hb]. unfold free. case_decide as Hu; [|by constructor].
  assert (p ∉ frees m) as Hpf by (intros ?; by apply (Hd p)).
  constructor; simpl.
  - apply NoDup_app. split_and!; [done| |apply NoDup_singleton]. set_solver.
  - intros q [Hq| ->%list_elem_of_singleton]%elem_of_app; [|set_solver].
    specialize (Hd q Hq). set_solver.
  - rewrite length_app, size_difference, size_singleton by set_solver. simpl.
    assert (size (used m) = 1 + size (used m ∖ {[p]}))%nat as Hsz.
    { rewrite <- (size_singleton (C:=gset positive) p), <- size_union by set_solver.
      f_equal. by apply union_difference_singleton_L. }
    rewrite size_difference, size_singleton in Hsz by set_solver. lia.
  - intros q Hq. apply Hb. set_solver.
Qed.

(** ** Properties *)

(** A client call; [free] may be given any pointer, also one the pool does not own. *)
Inductive pool_call := CAlloc | CFree (buf : positive).

Definition pool_step (m : MemPoolSimple) (c : pool_call) : MemPoolSimple * option positive :=
  match c with
  | CAlloc => alloc m
  | CFree buf => (free m buf, None)
  end.

(** The pool with the trace of what each call left in use. *)
Fixpoint pool_run (m : MemPoolSimple) (cs : list pool_call) : MemPoolSimple :=
  match cs with
  | [] => m
  | c :: cs => pool_run (pool_step m c).1 cs
  end.

Lemma pool_run_wf cs : ∀ m, wf m → wf (pool_run m cs).
Proof.
  induction cs as [|c cs IH]; intros m Hm; simpl; [done|].
  apply IH. destruct c; simpl; [by apply alloc_wf | by apply free_wf].
Qed.

Lemma alloc_fresh m p m' : wf m → alloc m = (m', Some p) → p ∉ used m ∧ used m' = {[p]} ∪ used m.
Proof.
  intros Hwf. unfold alloc. destruct (frees m) eqn:E; simpl.
  - destruct (dynamic m) eqn:Ed; simpl; [|done].
    pose proof (extend_wf _ Hwf) as He.
    assert (used (extend m).1 = used m) as Hu by (unfold extend; by rewrite Ed).
    destruct (extend m) as [m1 ret]. simpl in *. case_bool; [done|].
    unfold pop_free. destruct (frees m1) as [|q r] eqn:E1; [done|]. intros [= <- <-]. simpl.
    rewrite <- Hu. split; [|done]. apply (wf_disj _ He). rewrite E1. apply list_elem_of_here.
  - unfold pop_free. rewrite E. intros [= <- <-]. simpl. split; [|done].
    apply (wf_disj _ Hwf). rewrite E. apply list_elem_of_here.
Qed.

Lemma extend_times_ok n : ∀ m,
  wf m → dynamic m = true →
  let '(m', ret) := extend_times m n in
  ret = 0 ∧ wf m' ∧ dynamic m' = true ∧ item_num_per_pool m' = item_num_per_pool m ∧
  pool_size m' = (pool_size m + n * item_num_per_pool m)%nat.
Proof.
  induction n as [|n IH]; intros m Hwf Hd; simpl; [split_and!; try done; lia|].
  pose proof (extend_wf _ Hwf) as He.
  destruct (extend m) as [m1 ret] eqn:E. unfold extend in E. rewrite Hd in E. simpl in E.
  injection E as E1 E2. subst ret. simpl in He. rewrite (proj2 (Z.ltb_ge 0 0)) by lia.
  assert (dynamic m1 = true) as Hd1 by (by subst m1).
  specialize (IH m1 He Hd1). destruct (extend_times m1 n) as [m2 r2].
  destruct IH as (-> & Hw & Hdy & Hi & Hp). subst m1. simpl in Hi, Hp.
  split_and!; try done. lia.
Qed.

Lemma init_ok dyn pn n :
  0 < pn → 0 < n →
  let m := (init initial_pool dyn pn n).1 in
  wf m ∧ dynamic m = dyn ∧ item_num_per_pool m = Z.to_nat n ∧
  pool_size m = (Z.to_nat pn * Z.to_nat n)%nat.
Proof.
  intros Hpn Hn. unfold init. simpl.
  rewrite (proj2 (Z.leb_gt pn 0)), (proj2 (Z.leb_gt n 0)) by lia. simpl.
  pose proof (extend_times_ok (Z.to_nat pn) (mkPool [] ∅ [] (Z.to_nat n) true 0 1)) as He.
  destruct (extend_times _ _) as [m2 r]. destruct He as (-> & Hw & Hd & Hi & Hp); [|done|].
  { constructor; simpl; [constructor|set_solver|done|set_solver]. }
  simpl in *. split_and!; try done. destruct Hw. by constructor.
Qed.

Lemma extend_times_used n : ∀ m, used m = ∅ → used (extend_times m n).1 = ∅.
Proof.
  induction n as [|n IH]; intros m Hm; simpl; [done|].
  destruct (extend m) as [m1 ret] eqn:E.
  assert (used m1 = ∅) by (unfold extend in E; destruct (dynamic m); simpl in E; by simplify_eq).
  case_bool; simpl; [|by apply IH]. unfold cleanup. by destruct (pools m1).
Qed.

(** What [BPFrameManager::init] relies on. *)
Lemma init_config pn :
  0 < pn → (init initial_pool false pn 128).2 = 0 ∧ used (init initial_pool false pn 128).1 = ∅.
Proof.
  intros Hpn. unfold init. simpl. rewrite (proj2 (Z.leb_gt pn 0)) by lia. simpl.
  pose proof (extend_times_ok (Z.to_nat pn) (mkPool [] ∅ [] (Z.to_nat 128) true 0 1)) as He.
  pose proof (extend_times_used (Z.to_nat pn) (mkPool [] ∅ [] (Z.to_nat 128) true 0 1) eq_refl) as Hu.
  destruct (extend_times _ _) as [m2 r]. destruct He as (-> & _); [|done|done].
  constructor; simpl; [constructor|set_solver|done|set_solver].
Qed.

Lemma pool_step_config m c :
  dynamic (pool_step m c).1 = dynamic m ∧
  item_num_per_pool (pool_step m c).1 = item_num_per_pool m ∧
  (dynamic m = false → pool_size (pool_step m c).1 = pool_size m).
Proof.
  destruct c as [|b]; simpl.
  - unfold alloc, pop_free, extend.
    destruct (frees m) eqn:E, (dynamic m) eqn:Ed; simpl; try done.
    all: repeat case_match; simpl in *; simplify_eq; done.
  - unfold free. by case_decide.
Qed.

Lemma pool_run_config cs : ∀ m,
  dynamic (pool_run m cs) = dynamic m ∧
  item_num_per_pool (pool_run m cs) = item_num_per_pool m ∧
  (dynamic m = false → pool_size (pool_run m cs) = pool_size m).
Proof.
  induction cs as [|c cs IH]; intros m; simpl; [done|].
  destruct (IH (pool_step m c).1) as (E1 & E2 & E3).
  destruct (pool_step_config m c) as (F1 & F2 & F3).
  rewrite E1, E2. split_and!; try done. intros Hd. rewrite E3 by congruence. by apply F3.
Qed.

(** after [init] and any sequence of [alloc] and [free] calls, foreign and repeated
    frees included, every object is either free or in use, never both; [alloc] returns an
    object that was not in use, and only a pool that may not grow fails, exactly when all
    of its [pool_num * item_num] objects are in use. *)
Theorem mem_pool_alloc_free_sound dyn pool_num item_num cs :
  0 < pool_num → 0 < item_num →
  let m := pool_run (init initial_pool dyn pool_num item_num).1 cs in
  wf m ∧
  match alloc m with
  | (m', Some p) => p ∉ used m ∧ used m' = {[p]} ∪ used m
  | (m', None) => m' = m ∧ dyn = false ∧ Z.of_nat (size (used m)) = pool_num * item_num
  end.
Proof.
  intros Hp Hn. destruct (init_ok dyn pool_num item_num Hp Hn) as (Hw & Hd & Hi & Hs).
  set (m0 := (init _ _ _ _).1) in *. intros m.
  destruct (pool_run_config cs m0) as (Hd' & Hi' & Hs').
  pose proof (pool_run_wf cs m0 Hw : wf m) as Hwf. fold m in Hd', Hi', Hs'.
  split; [done|]. destruct (alloc m) as [m' [p|]] eqn:E; [by eapply alloc_fresh|].
  destruct (dynamic m) eqn:Ed.
  - exfalso. unfold alloc in E. rewrite Ed in E. destruct (frees m) eqn:Ef; simpl in E.
    + unfold extend in E. rewrite Ed in E. simpl in E. rewrite Ef in E. unfold pop_free in E.
      simpl in E. rewrite Hi', Hi in E. destruct (Z.to_nat item_num) eqn:En; [lia|]. done.
    + unfold pop_free in E. by rewrite Ef in E.
  - destruct (alloc_None _ _ Ed E) as [-> Hf]. split; [done|].
    split; [congruence|]. pose proof (wf_size _ Hwf) as Hsz. rewrite Hf in Hsz. simpl in Hsz.
    rewrite <- Hsz, (Hs' ltac:(congruence)), Hs. lia.
Qed.

Lemma mem_pool_alloc_free_sound_witness :
  let m := pool_run (init initial_pool false 1 2).1 [CAlloc; CFree 1; CFree 1; CAlloc; CAlloc] in
  wf m ∧
  match alloc m with
  | (m', Some p) => p ∉ used m ∧ used m' = {[p]} ∪ used m
  | (m', None) => m' = m ∧ false = false ∧ Z.of_nat (size (used m)) = 1 * 2
  end.
Proof.
  apply (mem_pool_alloc_free_sound false 1 2 [CAlloc; CFree 1; CFree 1; CAlloc; CAlloc]); lia.
Defined.
