(* ===== verification/FrameManager.v ===== *)
(** * Page frames and the frame manager ([storage/buffer/frame.h], [disk_buffer_pool.cpp])

    A frame is an object of the pool [MemPool]; the frame manager maps a frame id to the
    frame that holds the page, through the LRU cache of [LruCache] (used here only through
    the interface [LruSpec]).  Frames live in a store addressed by their pool address, so
    that the two references to a frame (the cache and the caller's pointer) alias.  [None]
    is a failed [ASSERT]. *)
From S2P Require Import Prelude Rc LruCache MemPool.

(** [src/src/observer/storage/buffer/frame.h:32-51] [FrameId] *)
Record FrameId := mkFrameId { fid_buffer_pool_id : Z; fid_page_num : Z }.

#[export] Instance FrameId_eq_dec : EqDecision FrameId.
Proof. solve_decision. Defined.
#[export] Instance FrameId_countable : Countable FrameId.
Proof.
  apply (inj_countable' (λ f, (fid_buffer_pool_id f, fid_page_num f)) (λ '(a, b), mkFrameId a b)).
  by intros [].
Defined.

(** [src/src/observer/storage/buffer/page.h:33-38] [Page] The payload type is a parameter. *)
Record Page {D : Type} := mkPage { lsn : Z; check_sum : Z; data : D }.
#[global] Arguments Page : clear implicits.
#[global] Arguments mkPage {D}.

(** [src/src/observer/storage/buffer/frame.h:170-188] [Frame] the fields of the frame *)
Record Frame {D : Type} := mkFrame {
  dirty_     : bool;
  pin_count_ : Z;
  frame_id_  : FrameId;
  page_      : Page D;
}.
#[global] Arguments Frame : clear implicits.
#[global] Arguments mkFrame {D}.

Section frame_ops.
Context {D : Type}.
Implicit Types (f : Frame D) (st : gmap positive (Frame D)).

Definition set_pin f n : Frame D := mkFrame (dirty_ f) n (frame_id_ f) (page_ f).
(** [src/src/observer/storage/buffer/frame.h:129-135] [Frame::mark_dirty] [clear_dirty] *)
Definition set_dirty f b : Frame D := mkFrame b (pin_count_ f) (frame_id_ f) (page_ f).
(** [src/src/observer/storage/buffer/frame.h:98-98] [Frame::set_page_num] *)
Definition set_page_num f n : Frame D :=
  mkFrame (dirty_ f) (pin_count_ f) (mkFrameId (fid_buffer_pool_id (frame_id_ f)) n) (page_ f).
(** [src/src/observer/storage/buffer/frame.h:84-84] [Frame::set_buffer_pool_id] *)
Definition set_buffer_pool_id f n : Frame D :=
  mkFrame (dirty_ f) (pin_count_ f) (mkFrameId n (fid_page_num (frame_id_ f))) (page_ f).
Definition set_page f p : Frame D := mkFrame (dirty_ f) (pin_count_ f) (frame_id_ f) p.

(** [src/src/observer/storage/buffer/frame.h:140-140] [Frame::can_purge] *)
Definition can_purge f : bool := pin_count_ f =? 0.

(** [src/src/observer/storage/buffer/frame.cpp:211-222] [Frame::pin] *)
Definition pin st (a : positive) : option (gmap positive (Frame D)) :=
  f ← st !! a; Some (<[a := set_pin f (pin_count_ f + 1)]> st).

(** [src/src/observer/storage/buffer/frame.cpp:224-250] [Frame::unpin] *)
Definition unpin st (a : positive) : option (gmap positive (Frame D)) :=
  f ← st !! a;
  if 0 <? pin_count_ f then Some (<[a := set_pin f (pin_count_ f - 1)]> st) else None.
End frame_ops.

(** [src/src/observer/storage/buffer/disk_buffer_pool.h:143-160] [BPFrameManager] the fields *)
Record BPFrameManager {D C : Type} := mkFM {
  frames_    : C;
  allocator_ : MemPoolSimple;
  store      : gmap positive (Frame D);  (* the objects of the pool *)
}.
#[global] Arguments BPFrameManager : clear implicits.
#[global] Arguments mkFM {D C}.

Section manager.
Context {D C : Type} `{LruSpec C FrameId positive}.
Abbreviation FM := (BPFrameManager D C).
Implicit Types (fm : FM) (id : FrameId) (a : positive).

Definition with_store fm st : FM := mkFM (frames_ fm) (allocator_ fm) st.

(** [src/src/observer/storage/buffer/disk_buffer_pool.cpp:113-121] [BPFrameManager::get_internal] *)
Definition get_internal fm id : option (FM * option positive) :=
  '(c, frame) ← lru_get (frames_ fm) id;
  match frame with
  | Some a => st ← pin (store fm) a; Some (mkFM c (allocator_ fm) st, Some a)
  | None => Some (mkFM c (allocator_ fm) (store fm), None)
  end.

(** [src/src/observer/storage/buffer/disk_buffer_pool.cpp:105-111] [BPFrameManager::get] *)
Definition fm_get fm (buffer_pool_id page_num : Z) : option (FM * option positive) :=
  get_internal fm (mkFrameId buffer_pool_id page_num).

(** [src/src/observer/storage/buffer/disk_buffer_pool.cpp:123-144] [BPFrameManager::alloc] *)
Definition fm_alloc fm (buffer_pool_id page_num : Z) : option (FM * option positive) :=
  let id := mkFrameId buffer_pool_id page_num in
  '(fm, frame) ← get_internal fm id;
  match frame with
  | Some a => Some (fm, Some a)
  | None =>
      let '(pool, frame) := MemPool.alloc (allocator_ fm) in
      match frame with
      | None => Some (mkFM (frames_ fm) pool (store fm), None)
      | Some a =>
          f ← store fm !! a;
          if pin_count_ f =? 0 then
            let f := set_page_num (set_buffer_pool_id f buffer_pool_id) page_num in
            let st := <[a := set_pin f (pin_count_ f + 1)]> (store fm) in
            c ← lru_put (frames_ fm) id a;
            Some (mkFM c pool st, Some a)
          else None
      end
  end.

(** [src/src/observer/storage/buffer/disk_buffer_pool.cpp:154-167] [BPFrameManager::free_internal] *)
Definition free_internal fm id a : option FM :=
  '(c, frame_source) ← lru_get (frames_ fm) id;
  f ← store fm !! a;
  if decide (frame_source = Some a ∧ pin_count_ f = 1) then
    st ← unpin (<[a := set_page_num f (-1)]> (store fm)) a;
    c ← lru_rm c id;
    Some (mkFM c (MemPool.free (allocator_ fm) a) st)
  else None.

(** [src/src/observer/storage/buffer/disk_buffer_pool.cpp:146-152] [BPFrameManager::free] *)
Definition fm_free fm (buffer_pool_id page_num : Z) a : option FM :=
  free_internal fm (mkFrameId buffer_pool_id page_num) a.

(** The [purge_finder] lambda: pins and collects frames nobody uses until [count] of them
    are found; the state also carries a failed [ASSERT] of [pin]. *)
Definition purge_finder (count : nat) (s : option (gmap positive (Frame D) * list positive))
    (id : FrameId) (a : positive) : option (gmap positive (Frame D) * list positive) * bool :=
  match s with
  | None => (None, false)
  | Some (st, found) =>
      match st !! a with
      | None => (None, false)
      | Some f =>
          if can_purge f then
            (st' ← pin st a; Some (st', found ++ [a]),
             negb (count <=? length (found ++ [a]))%nat)
          else (Some (st, found), true)
      end
  end.

(** What the purge does with one candidate: the callback decides. *)
Fixpoint purge_each {S : Type} (purger : FM → S → positive → option (FM * S * RC))
    fm (s : S) (frames : list positive) (freed : Z) : option (FM * S * Z) :=
  match frames with
  | [] => Some (fm, s, freed)
  | a :: rest =>
      '(fm, s, rc) ← purger fm s a;
      if decide (rc = RC_SUCCESS) then
        f ← store fm !! a;
        fm ← free_internal fm (frame_id_ f) a;
        purge_each purger fm s rest (freed + 1)
      else
        st ← unpin (store fm) a;
        purge_each purger (with_store fm st) s rest freed
  end.

(** [src/src/observer/storage/buffer/disk_buffer_pool.cpp:63-103] [BPFrameManager::purge_frames] *)
Definition purge_frames {S : Type} fm (count : Z)
    (purger : FM → S → positive → option (FM * S * RC)) (s : S) : option (FM * S * Z) :=
  let count := if count <=? 0 then 1 else count in
  '(st, frames_can_purge) ←
    mjoin (lru_foreach_reverse (frames_ fm) (purge_finder (Z.to_nat count))
             (Some (store fm, [])));
  purge_each purger (with_store fm st) s frames_can_purge 0.

(** The [fetcher] lambda. *)
Definition fetcher (buffer_pool_id : Z) (s : option (gmap positive (Frame D) * list positive))
    (id : FrameId) (a : positive) : option (gmap positive (Frame D) * list positive) * bool :=
  match s with
  | None => (None, false)
  | Some (st, found) =>
      if buffer_pool_id =? fid_buffer_pool_id id
      then (st' ← pin st a; Some (st', found ++ [a]), true)
      else (Some (st, found), true)
  end.

(** [src/src/observer/storage/buffer/disk_buffer_pool.cpp:169-183] [BPFrameManager::find_list] *)
Definition find_list fm (buffer_pool_id : Z) : option (FM * list positive) :=
  '(st, frames) ← mjoin (lru_foreach (frames_ fm) (fetcher buffer_pool_id) (Some (store fm, [])));
  Some (with_store fm st, frames).

(** [src/src/observer/storage/buffer/disk_buffer_pool.cpp:53-61] [BPFrameManager::cleanup] *)
Definition fm_cleanup fm : FM * RC :=
  if (0 <? Z.of_nat (lru_count (frames_ fm))) then (fm, RC_INTERNAL)
  else (mkFM lru_empty (allocator_ fm) (store fm), RC_SUCCESS).

(** [src/src/observer/storage/buffer/disk_buffer_pool.cpp:44-51] [BPFrameManager::init] The
    objects of every new extent exist, with a pin count of 0. *)
Definition fm_init (pool_num : Z) (blank : Frame D) : FM * RC :=
  let '(pool, ret) := MemPool.init initial_pool false pool_num 128 in
  let st := list_to_map ((λ a, (a, blank)) <$> frees pool) : gmap positive (Frame D) in
  (mkFM lru_empty pool st, if ret =? 0 then RC_SUCCESS else RC_NOMEM).
End manager.

(** ** Invariant *)
Section invariant.
Context {D C : Type} `{LruSpec C FrameId positive}.
Abbreviation FM := (BPFrameManager D C).
Implicit Types (fm : FM) (id : FrameId) (a : positive) (l : list (FrameId * positive)).

(** The mapped frames [l] are live objects that know their id; the free objects of the
    pool are not pinned. *)
Record entries_ok (pool : MemPoolSimple) (st : gmap positive (Frame D)) l : Prop := {
  ent_pool : MemPool.wf pool;
  ent_fixed : dynamic pool = false;
  ent_keys : NoDup l.*1;
  ent_addrs : NoDup l.*2;
  ent_used : ∀ a, a ∈ used pool ↔ a ∈ l.*2;
  ent_live : ∀ id a, (id, a) ∈ l → ∃ f, st !! a = Some f ∧ frame_id_ f = id ∧ 0 ≤ pin_count_ f;
  ent_idle : ∀ a, a ∈ frees pool → ∃ f, st !! a = Some f ∧ pin_count_ f = 0;
}.
Definition fm_wf fm l : Prop :=
  lru_abs (frames_ fm) l ∧ entries_ok (allocator_ fm) (store fm) l.

Lemma entries_perm pool st l l' : l ≡ₚ l' → entries_ok pool st l → entries_ok pool st l'.
Proof.
  intros Hp [? ? ? ? Hu Hl Hi]. constructor; try done.
  - by rewrite <- Hp.
  - by rewrite <- Hp.
  - intros a. rewrite <- Hp. apply Hu.
  - intros id a Hin. apply Hl. by rewrite Hp.
Qed.

(** Updating a mapped frame without touching its id keeps the invariant. *)
Lemma entries_update pool st l id a f f' :
  entries_ok pool st l → (id, a) ∈ l → st !! a = Some f →
  frame_id_ f' = frame_id_ f → 0 ≤ pin_count_ f' → entries_ok pool (<[a := f']> st) l.
Proof.
  intros [Hw ? Hk ? Hu Hl Hi] Hin Hf Hid Hpin. constructor; try done.
  - intros id' b Hb. destruct (decide (a = b)) as [<-|Hne].
    + rewrite lookup_insert_eq. destruct (Hl _ _ Hb) as (f0 & ? & ? & ?).
      exists f'. split; [done|]. split; [congruence | done].
    + rewrite lookup_insert_ne by done. by apply Hl.
  - intros b Hb. destruct (decide (a = b)) as [<-|Hne].
    + exfalso. apply (MemPool.wf_disj _ Hw _ Hb). apply Hu. by apply (list_elem_of_fmap_2' snd _ (id, a)).
    + rewrite lookup_insert_ne by done. by apply Hi.
Qed.

Lemma pin_ok pool st l id a :
  entries_ok pool st l → (id, a) ∈ l →
  ∃ f, st !! a = Some f ∧ pin st a = Some (<[a := set_pin f (pin_count_ f + 1)]> st) ∧
       entries_ok pool (<[a := set_pin f (pin_count_ f + 1)]> st) l.
Proof.
  intros He Hin. destruct (ent_live _ _ _ He _ _ Hin) as (f & Hf & Hid & Hp).
  exists f. split; [done|]. unfold pin. rewrite Hf. split; [done|].
  eapply entries_update; eauto. simpl. lia.
Qed.

Lemma get_internal_ok fm l id :
  fm_wf fm l →
  ∃ fm', get_internal fm id = Some (fm', spec_lookup l id) ∧ fm_wf fm' (spec_get l id).1 ∧
    allocator_ fm' = allocator_ fm ∧
    store fm' = match spec_lookup l id with
                | Some a => alter (λ f, set_pin f (pin_count_ f + 1)) a (store fm)
                | None => store fm
                end.
Proof.
  intros [Ha He]. unfold get_internal.
  destruct (lru_get_ok _ _ id Ha) as (c' & -> & Ha'). simpl. rewrite spec_get_snd.
  pose proof (spec_get_perm l id (ent_keys _ _ _ He)) as Hperm.
  destruct (spec_lookup l id) as [a|] eqn:E.
  - apply spec_lookup_elem in E as Hin; [|apply (ent_keys _ _ _ He)].
    destruct (pin_ok _ _ _ _ _ He Hin) as (f & Hf & -> & He'). simpl.
    eexists. split; [done|]. split; [|split; [done|]].
    + split; [done|]. simpl. by eapply entries_perm.
    + simpl. symmetry. apply map_eq. intros b. destruct (decide (a = b)) as [<-|?].
      * by rewrite lookup_alter_eq, lookup_insert_eq, Hf.
      * by rewrite lookup_alter_ne, lookup_insert_ne.
  - eexists. split; [done|]. split; [|done]. split; [done|]. simpl. by eapply entries_perm.
Qed.

(** [alloc] of a page that is not mapped and a pool that is not exhausted. *)
Lemma fm_alloc_fresh fm l bp pn a pool' :
  fm_wf fm l → spec_lookup l (mkFrameId bp pn) = None →
  MemPool.alloc (allocator_ fm) = (pool', Some a) →
  ∃ fm' f, fm_alloc fm bp pn = Some (fm', Some a) ∧ store fm !! a = Some f ∧
    store fm' = <[a := set_pin (set_page_num (set_buffer_pool_id f bp) pn) 1]> (store fm) ∧
    allocator_ fm' = pool' ∧ fm_wf fm' ((mkFrameId bp pn, a) :: l).
Proof.
  intros Hwf Hnone Hal. unfold fm_alloc. set (id := mkFrameId bp pn) in *.
  destruct (get_internal_ok fm l id Hwf) as (fm1 & -> & [Ha1 He1] & Hpool & Hst).
  assert ((spec_get l id).1 = l) as Hl by (unfold spec_get; by rewrite Hnone).
  rewrite Hl in Ha1, He1. rewrite Hnone in Hst |- *. simpl. rewrite Hpool, Hal.
  pose proof (ent_pool _ _ _ He1) as Hw. rewrite Hpool in Hw.
  pose proof (ent_fixed _ _ _ He1) as Hfix. rewrite Hpool in Hfix.
  destruct (MemPool.alloc_Some _ _ _ Hw Hfix Hal) as (Hnu & _ & Hused & Hnf & Hdyn & _).
  assert (a ∈ frees (allocator_ fm)) as Hfree.
  { unfold MemPool.alloc in Hal. rewrite Hfix in Hal. unfold pop_free in Hal.
    destruct (frees (allocator_ fm)); [done|]. injection Hal as _ <-. apply list_elem_of_here. }
  destruct (ent_idle _ _ _ He1 a ltac:(by rewrite Hpool)) as (f & Hf & Hpin).
  rewrite Hf. simpl. rewrite (proj2 (Z.eqb_eq _ _)) by done.
  destruct (lru_put_ok _ _ id a Ha1) as (c' & Hc & Ha2).
  fold id. rewrite Hc. simpl. rewrite Hpin. eexists _, f. split; [done|].
  rewrite Hst in Hf. split; [done|]. cbn [store allocator_]. rewrite Hst.
  split; [done|]. split; [done|].
  apply spec_lookup_None in Hnone.
  assert (spec_put l id a = (id, a) :: l) as Hput by (unfold spec_put; by rewrite spec_rest_notin).
  rewrite Hput in Ha2. split; [done|]. cbn [store allocator_].
  destruct He1 as [_ _ Hk Had Hu Hlive Hidle]. rewrite Hpool in Hu, Hidle. rewrite Hst in Hlive, Hidle.
  constructor.
  - pose proof (MemPool.alloc_wf _ Hw) as Hw'. by rewrite Hal in Hw'.
  - done.
  - rewrite fmap_cons. by apply NoDup_cons.
  - rewrite fmap_cons. apply NoDup_cons. split; [|done]. simpl. by rewrite <- Hu.
  - intros b. rewrite Hused, fmap_cons, elem_of_cons, elem_of_union, elem_of_singleton, Hu. done.
  - intros id' b [[= -> ->]|Hin]%elem_of_cons.
    + rewrite lookup_insert_eq. eexists. split; [done|]. simpl. split; [done | lia].
    + assert (b ≠ a) by (intros ->; apply Hnu, Hu; by apply (list_elem_of_fmap_2' snd _ (id', a))).
      rewrite lookup_insert_ne by done. by apply Hlive.
  - intros b Hb. assert (b ≠ a) by (by intros ->).
    rewrite lookup_insert_ne by done. apply Hidle.
    unfold MemPool.alloc in Hal. rewrite Hfix in Hal. unfold pop_free in Hal.
    destruct (frees (allocator_ fm)); [done|]. injection Hal as <- _. simpl in Hb. set_solver.
Qed.

(** [free_internal] of a frame that only the caller pins. *)
Lemma free_internal_ok fm l id a f :
  fm_wf fm l → (id, a) ∈ l → store fm !! a = Some f → pin_count_ f = 1 →
  ∃ fm', free_internal fm id a = Some fm' ∧ fm_wf fm' (spec_remove l id) ∧
    store fm' = <[a := set_pin (set_page_num f (-1)) 0]> (store fm) ∧
    allocator_ fm' = MemPool.free (allocator_ fm) a.
Proof.
  intros [Ha He] Hin Hf Hpin. unfold free_internal.
  destruct (lru_get_ok _ _ id Ha) as (c1 & -> & Ha1). simpl.
  rewrite spec_get_snd, (proj2 (spec_lookup_elem l id a (ent_keys _ _ _ He)) Hin), Hf. simpl.
  rewrite decide_True by done. unfold unpin. rewrite lookup_insert_eq. simpl.
  rewrite Hpin. simpl. destruct (lru_rm_ok _ _ id Ha1) as (c2 & -> & Ha2). simpl.
  eexists. split; [done|]. cbn [store allocator_].
  assert (spec_remove (spec_get l id).1 id = spec_remove l id) as Hrm.
  { unfold spec_get. rewrite (proj2 (spec_lookup_elem l id a (ent_keys _ _ _ He)) Hin).
    unfold spec_remove, spec_rest. simpl. rewrite filter_cons_False by (simpl; tauto).
    rewrite list_filter_filter. apply list_filter_iff. tauto. }
  rewrite Hrm in Ha2. rewrite insert_insert_eq. split; [|done].
  split; [done|]. cbn [store allocator_].
  pose proof (spec_rest_cons_perm l id a (ent_keys _ _ _ He) Hin) as Hperm.
  apply (entries_perm _ _ _ _ Hperm) in He. unfold spec_remove.
  set (l' := spec_rest l id) in *. destruct He as [Hw Hfix Hk Had Hu Hlive Hidle].
  rewrite fmap_cons in Hk. rewrite fmap_cons in Had. apply NoDup_cons in Hk as [Hk1 Hk]. apply NoDup_cons in Had as [Had1 Had].
  simpl in *. assert (a ∈ used (allocator_ fm)) as Hau by (apply Hu; apply list_elem_of_here).
  constructor.
  - by apply MemPool.free_wf.
  - unfold MemPool.free. by rewrite decide_True.
  - done.
  - done.
  - intros b. unfold MemPool.free. rewrite decide_True by done. simpl.
    rewrite elem_of_difference, elem_of_singleton, Hu, elem_of_cons.
    split; [tauto|]. intros Hb. split; [tauto|]. by intros ->.
  - intros id' b Hb. assert (b ≠ a).
    { intros ->. apply Had1. by apply (list_elem_of_fmap_2' snd _ (id', a)). }
    rewrite lookup_insert_ne by done. apply Hlive. by apply list_elem_of_further.
  - intros b. unfold MemPool.free. rewrite decide_True by done. simpl.
    destruct (decide (b = a)) as [->|Hne].
    + intros _. rewrite lookup_insert_eq. eauto.
    + intros [Hb|Hb%list_elem_of_singleton]%elem_of_app; [|done].
      rewrite lookup_insert_ne by done. by apply Hidle.
Qed.
End invariant.

(** ** Eviction *)
Section purge.
Context {D C : Type} `{LruSpec C FrameId positive}.
Abbreviation FM := (BPFrameManager D C).
Implicit Types (fm : FM) (id : FrameId) (a : positive) (l : list (FrameId * positive)).
Implicit Types (st : gmap positive (Frame D)).

Definition unpinned st (x : FrameId * positive) : Prop :=
  match st !! x.2 with Some f => pin_count_ f = 0 | None => False end.
#[local] Instance unpinned_dec st x : Decision (unpinned st x).
Proof. unfold unpinned. destruct (st !! x.2); apply _. Defined.

(** The frames a purge of [count] considers: the least recently used unpinned ones. *)
Definition candidates st l (count : nat) : list (FrameId * positive) :=
  take count (filter (unpinned st) (reverse l)).

(** Pinning a list of frames. *)
Definition pin_all st (addrs : list positive) : gmap positive (Frame D) :=
  foldr (λ a st, alter (λ f, set_pin f (pin_count_ f + 1)) a st) st addrs.

Lemma pin_all_lookup st addrs a :
  NoDup addrs →
  pin_all st addrs !! a =
    if decide (a ∈ addrs) then (λ f, set_pin f (pin_count_ f + 1)) <$> st !! a else st !! a.
Proof.
  induction addrs as [|b addrs IH]; intros Hnd.
  { by case_decide as E; [apply not_elem_of_nil in E|]. }
  cbn [pin_all foldr]. fold (pin_all st addrs).
  apply NoDup_cons in Hnd as [Hb Hnd]. destruct (decide (b = a)) as [->|Hne].
  - rewrite lookup_alter_eq, IH, decide_False by done.
    by rewrite decide_True by apply list_elem_of_here.
  - rewrite lookup_alter_ne, IH by done. apply decide_ext.
    rewrite elem_of_cons. split; [by right | by intros [?|?]].
Qed.

Lemma pin_all_snoc st found a f :
  NoDup (found ++ [a]) → st !! a = Some f →
  <[a := set_pin f (pin_count_ f + 1)]> (pin_all st found) = pin_all st (found ++ [a]).
Proof.
  intros Hn Ef. pose proof Hn as (Hfound & _ & _)%NoDup_app. apply map_eq. intros b.
  rewrite (pin_all_lookup _ (found ++ [a])) by done. destruct (decide (a = b)) as [<-|Hne].
  - rewrite lookup_insert_eq, decide_True, Ef; [done|].
    apply elem_of_app. right. apply list_elem_of_here.
  - rewrite lookup_insert_ne, pin_all_lookup by done. apply decide_ext.
    rewrite elem_of_app, list_elem_of_singleton. split; [by left | intros [?|?]; congruence].
Qed.

Lemma NoDup_filter_snd {A B} (P : A * B → Prop) `{∀ x, Decision (P x)} (r : list (A * B)) :
  NoDup r.*2 → NoDup (filter P r).*2.
Proof.
  induction r as [|x r IH]; [done|]. rewrite fmap_cons. intros [Hx Hr]%NoDup_cons.
  rewrite filter_cons. case_decide; [|by apply IH]. rewrite fmap_cons. apply NoDup_cons. split; [|by apply IH].
  intros Hin. apply Hx. apply list_elem_of_fmap in Hin as (y & -> & [_ Hy]%list_elem_of_filter).
  by apply list_elem_of_fmap_2.
Qed.

(** The finder over a suffix of the walk, with [found] already collected. *)
Lemma purge_finder_spec st count r : ∀ found,
  (∀ id a, (id, a) ∈ r → is_Some (st !! a)) → NoDup (found ++ r.*2) →
  (length found < count)%nat →
  spec_foreach (purge_finder count) r (Some (pin_all st found, found)) =
    let c := (take (count - length found) (filter (unpinned st) r)).*2 in
    Some (pin_all st (found ++ c), found ++ c).
Proof.
  induction r as [|[id a] r IH]; intros found Hlive Hnd Hlt.
  { simpl. by rewrite filter_nil, take_nil, app_nil_r. }
  cbn [spec_foreach]. unfold purge_finder at 1.
  rewrite fmap_cons in Hnd. simpl in Hnd.
  apply NoDup_middle in Hnd as Hsplit. destruct Hsplit as (Ha1 & Ha2 & Hf & Hr & Hdis).
  rewrite pin_all_lookup, decide_False by done.
  destruct (Hlive id a (list_elem_of_here _ _)) as [f Ef]. rewrite Ef.
  assert (Hlive' : ∀ id a, (id, a) ∈ r → is_Some (st !! a))
    by (intros; eapply Hlive; by apply list_elem_of_further).
  assert (Hund : unpinned st (id, a) ↔ pin_count_ f = 0) by (unfold unpinned; simpl; by rewrite Ef).
  unfold can_purge. destruct (pin_count_ f =? 0) eqn:E; zify_bool.
  - unfold pin. rewrite pin_all_lookup, decide_False, Ef by done. simpl.
    rewrite filter_cons_True by tauto.
    assert (NoDup (found ++ [a])) as Hn.
    { apply NoDup_app. split; [done|]. split; [|apply NoDup_singleton]. by intros x Hx ->%list_elem_of_singleton. }
    pose proof (pin_all_snoc st found a f Hn Ef) as Hst.
    rewrite Hst, length_app. simpl.
    destruct (Nat.leb_spec count (length found + 1)) as [Hle|Hgt]; simpl.
    + replace (count - length found)%nat with 1%nat by lia. done.
    + rewrite IH; [|done| |rewrite length_app; simpl; lia].
      * rewrite length_app. simpl.
        replace (count - length found)%nat with (S (count - (length found + 1))) by lia.
        simpl. by rewrite <- !app_assoc.
      * by rewrite <- app_assoc.
  - rewrite filter_cons_False by tauto. apply IH; [done| |done].
    apply NoDup_app. split_and!; [done| |done]. intros x Hx Hx2. by apply (Hdis x).
Qed.

Lemma candidates_sub st l count x : x ∈ candidates st l count → x ∈ l ∧ unpinned st x.
Proof.
  unfold candidates. intros Hx. apply elem_of_take in Hx as (i & Hi & _).
  apply list_elem_of_lookup_2, list_elem_of_filter in Hi as [Hu Hin].
  by rewrite elem_of_reverse in Hin.
Qed.

Lemma candidates_one st l x : x ∈ l → unpinned st x → ∃ y, candidates st l 1 = [y].
Proof.
  intros Hin Hu. unfold candidates.
  assert (x ∈ filter (unpinned st) (reverse l)) as Hx by (apply list_elem_of_filter; by rewrite elem_of_reverse).
  destruct (filter _ _) as [|y r]; [by apply elem_of_nil in Hx|]. by exists y.
Qed.

Lemma candidates_NoDup st l count : NoDup l.*2 → NoDup (candidates st l count).*2.
Proof.
  intros Hnd. unfold candidates. rewrite fmap_take.
  eapply sublist_NoDup; [|apply sublist_take].
  apply NoDup_filter_snd. by rewrite fmap_reverse, reverse_Permutation.
Qed.

(** A callback that may write pages but does not touch the frame table. *)
Definition purger_ok {S : Type} (purger : FM → S → positive → option (FM * S * RC)) : Prop :=
  ∀ fm s a, is_Some (store fm !! a) → ∃ fm' s' rc, purger fm s a = Some (fm', s', rc) ∧
    frames_ fm' = frames_ fm ∧ allocator_ fm' = allocator_ fm ∧
    ∀ b, (λ f, (frame_id_ f, pin_count_ f)) <$> store fm' !! b =
         (λ f, (frame_id_ f, pin_count_ f)) <$> store fm !! b.

Lemma entries_same_view pool st st' l :
  (∀ b, (λ f, (frame_id_ f, pin_count_ f)) <$> st' !! b =
        (λ f, (frame_id_ f, pin_count_ f)) <$> st !! b) →
  entries_ok pool st l → entries_ok pool st' l.
Proof.
  intros Hv [? ? ? ? ? Hl Hi]. constructor; try done.
  - intros id a Hin. destruct (Hl _ _ Hin) as (f & Hf & Hid & Hp).
    specialize (Hv a). rewrite Hf in Hv. simpl in Hv.
    destruct (st' !! a) as [f'|]; [|done]. injection Hv as Hv1 Hv2.
    exists f'. split; [done|]. split; [congruence | lia].
  - intros a Ha. destruct (Hi _ Ha) as (f & Hf & Hp).
    specialize (Hv a). rewrite Hf in Hv. simpl in Hv.
    destruct (st' !! a) as [f'|]; [|done]. injection Hv as Hv1 Hv2. exists f'. split; [done | lia].
Qed.

(** The loop over the candidates: every evicted frame is a candidate, the other mappings
    stay, and a callback that always succeeds evicts all of them. *)
Lemma purge_each_spec {S : Type} (purger : FM → S → positive → option (FM * S * RC)) :
  purger_ok purger → ∀ cs fm s l freed,
  fm_wf fm l → NoDup cs.*2 → (∀ id a, (id, a) ∈ cs → (id, a) ∈ l ∧
      ∃ f, store fm !! a = Some f ∧ pin_count_ f = 1) →
  ∃ fm' s' l' n, purge_each purger fm s cs.*2 freed = Some (fm', s', freed + n) ∧
    fm_wf fm' l' ∧ l' ⊆ l ∧ length l = (length l' + Z.to_nat n)%nat ∧ 0 ≤ n ∧
    (∀ x, x ∈ l → x ∉ l' → x ∈ cs) ∧
    (∀ id a, (id, a) ∈ l' → (id, a) ∉ cs →
        pin_count_ <$> store fm' !! a = pin_count_ <$> store fm !! a) ∧
    (∀ id a, (id, a) ∈ l' → (id, a) ∈ cs → pin_count_ <$> store fm' !! a = Some 0) ∧
    ((∀ fm s a r, purger fm s a = Some r → r.2 = RC_SUCCESS) → ∀ x, x ∈ cs → x ∉ l').
Proof.
  intros Hpg. induction cs as [|[id a] cs IH]; intros fm s l freed Hwf Hnd Hcs.
  { exists fm, s, l, 0. simpl. rewrite Z.add_0_r. split_and!; try done; try lia; set_solver. }
  rewrite fmap_cons in Hnd |- *. simpl in Hnd |- *. apply NoDup_cons in Hnd as [Hna Hnd].
  destruct (Hcs id a (list_elem_of_here _ _)) as [Hin (f & Hf & Hpin)].
  destruct Hwf as [Habs He].
  destruct (ent_live _ _ _ He _ _ Hin) as (f0 & Hf0 & Hid & _).
  assert (f0 = f) as -> by congruence.
  destruct (Hpg fm s a ltac:(eauto)) as (fm1 & s1 & rc & Hpe & Hfr & Hal & Hview).
  rewrite Hpe. simpl.
  pose proof (Hview a) as Hva. rewrite Hf in Hva. simpl in Hva.
  destruct (store fm1 !! a) as [f1|] eqn:Hf1; [|done]. injection Hva as Hid1 Hpin1.
  assert (Hwf1 : fm_wf fm1 l).
  { split; [by rewrite Hfr|]. rewrite Hal. by eapply entries_same_view. }
  assert (Hother : ∀ id' b, (id', b) ∈ cs → b ≠ a).
  { intros id' b Hb ->. apply Hna. by apply (list_elem_of_fmap_2' snd _ (id', a)). }
  assert (Hsame : ∀ id1 id2 b, (id1, b) ∈ l → (id2, b) ∈ l → id1 = id2).
  { intros id1 id2 b H1 H2. destruct (ent_live _ _ _ He _ _ H1) as (g1 & G1 & I1 & _).
    destruct (ent_live _ _ _ He _ _ H2) as (g2 & G2 & I2 & _). congruence. }
  assert (Hpinb : ∀ b, pin_count_ <$> store fm1 !! b = pin_count_ <$> store fm !! b).
  { intros b. specialize (Hview b). apply (f_equal (fmap snd)) in Hview.
    rewrite <- !option_fmap_compose in Hview. exact Hview. }
  case_decide as Hrc.
  - (* written back: the frame is freed *)
    cbn [mbind option_bind]. rewrite Hid1, Hid.
    destruct (free_internal_ok fm1 l id a f1 Hwf1 Hin Hf1 ltac:(lia)) as (fm2 & -> & Hwf2 & Hst2 & _).
    simpl. unfold spec_remove in Hwf2.
    destruct (IH fm2 s1 (spec_rest l id) (freed + 1) Hwf2 Hnd) as
      (fm' & s' & l' & n & -> & Hwf' & Hsub & Hlen & Hn & Hev & Hkeep & Hback & Hall).
    { intros id' b Hb. destruct (Hcs id' b (list_elem_of_further _ _ _ Hb)) as [Hl (g & Hg & Hpg')].
      pose proof (Hother _ _ Hb) as Hne. split.
      - apply spec_rest_elem. split; [done|]. simpl. intros ->.
        apply Hne. pose proof (ent_keys _ _ _ He) as Hk.
        apply (spec_lookup_elem l id b Hk) in Hl. apply (spec_lookup_elem l id a Hk) in Hin.
        congruence.
      - rewrite Hst2, lookup_insert_ne by done.
        specialize (Hpinb b). rewrite Hg in Hpinb. destruct (store fm1 !! b); [|done].
        eexists. split; [done|]. simpl in Hpinb. congruence. }
    pose proof (spec_rest_cons_perm l id a (ent_keys _ _ _ He) Hin) as Hperm.
    exists fm', s', l', (n + 1). split_and!; try done.
    + do 2 f_equal. lia.
    + intros x Hx. apply Hsub, spec_rest_elem in Hx. tauto.
    + rewrite Hperm. simpl. lia.
    + lia.
    + intros [id' b] Hx Hx'. destruct (decide (id' = id)) as [->|Hne].
      * apply elem_of_cons. left. f_equal. pose proof (ent_keys _ _ _ He) as Hk.
        apply (spec_lookup_elem l id b Hk) in Hx. apply (spec_lookup_elem l id a Hk) in Hin.
        congruence.
      * apply list_elem_of_further. apply Hev; [|done]. by apply spec_rest_elem.
    + intros id' b Hx Hx'. rewrite (Hkeep id' b) by (try done; intros ?; apply Hx'; by apply list_elem_of_further).
      apply Hsub, spec_rest_elem in Hx as [Hx Hne]. simpl in Hne.
      rewrite Hst2, lookup_insert_ne; [apply Hpinb|]. intros ->. apply Hne. eauto.
    + intros id' b Hx [[= -> ->]|Hx']%elem_of_cons; [|by eapply Hback].
      apply Hsub, spec_rest_elem in Hx as [_ Hne]. simpl in Hne. done.
    + intros Hsucc x [->|Hx]%elem_of_cons; [|by apply Hall].
      intros Hx%Hsub%spec_rest_elem. simpl in Hx. tauto.
  - (* refused: the frame is unpinned again *)
    unfold unpin. rewrite Hf1. simpl. rewrite (proj2 (Z.ltb_lt _ _)) by lia. simpl.
    set (fm2 := with_store fm1 _).
    assert (Hwf2 : fm_wf fm2 l).
    { destruct Hwf1 as [Ha1 He1]. split; [done|]. simpl.
      eapply entries_update; eauto. simpl. lia. }
    destruct (IH fm2 s1 l freed Hwf2 Hnd) as
      (fm' & s' & l' & n & -> & Hwf' & Hsub & Hlen & Hn & Hev & Hkeep & Hback & Hall).
    { intros id' b Hb. destruct (Hcs id' b (list_elem_of_further _ _ _ Hb)) as [Hl (g & Hg & Hpg')].
      split; [done|]. simpl. rewrite lookup_insert_ne by (intros <-; by eapply Hother).
      specialize (Hpinb b). rewrite Hg in Hpinb. destruct (store fm1 !! b); [|done].
      eexists. split; [done|]. simpl in Hpinb. congruence. }
    exists fm', s', l', n. split_and!; try done.
    + intros x Hx Hx'. apply list_elem_of_further. by apply Hev.
    + intros id' b Hx Hx'. rewrite (Hkeep id' b) by (try done; intros ?; apply Hx'; by apply list_elem_of_further).
      simpl. rewrite lookup_insert_ne; [apply Hpinb|]. intros <-. apply Hx'.
      assert (id' = id) as -> by eauto. apply list_elem_of_here.
    + intros id' b Hx [[= -> ->]|Hx']%elem_of_cons; [|by eapply Hback].
      rewrite (Hkeep id a Hx).
      * simpl. rewrite lookup_insert_eq. simpl. f_equal. lia.
      * intros Hc. by apply (Hother _ _ Hc).
    + intros Hsucc. exfalso. apply Hrc. exact (Hsucc _ _ _ _ Hpe).
Qed.

Lemma pin_all_candidates fm l count id a :
  fm_wf fm l → (id, a) ∈ candidates (store fm) l count →
  ∃ f, store fm !! a = Some f ∧ pin_count_ f = 0 ∧
       pin_all (store fm) (candidates (store fm) l count).*2 !! a = Some (set_pin f 1).
Proof.
  intros [_ He] Hc. apply candidates_sub in Hc as Hl. destruct Hl as [Hl Hu].
  unfold unpinned in Hu. simpl in Hu. destruct (store fm !! a) as [f|] eqn:Ef; [|done].
  exists f. split; [done|]. split; [done|].
  rewrite pin_all_lookup by (apply candidates_NoDup, (ent_addrs _ _ _ He)).
  rewrite decide_True by (by apply (list_elem_of_fmap_2' snd _ (id, a))).
  rewrite Ef. simpl. by rewrite Hu.
Qed.

Lemma pin_all_wf fm l count :
  fm_wf fm l → fm_wf (with_store fm (pin_all (store fm) (candidates (store fm) l count).*2)) l.
Proof.
  intros Hwf. pose proof Hwf as [Ha He]. split; [done|]. simpl.
  pose proof (candidates_NoDup (store fm) l count (ent_addrs _ _ _ He)) as Hnd.
  destruct He as [? ? ? ? Hu Hl Hi]. constructor; try done.
  - intros id a Hin. rewrite pin_all_lookup by done.
    destruct (Hl _ _ Hin) as (f & -> & Hid & Hp). case_decide; [|by exists f].
    eexists. split; [done|]. simpl. split; [done | lia].
  - intros a Ha'. rewrite pin_all_lookup by done. rewrite decide_False; [by apply Hi|].
    intros Hin. apply list_elem_of_fmap in Hin as ([id b] & -> & Hc).
    apply candidates_sub in Hc as [Hc _]. simpl in Ha'.
    apply (MemPool.wf_disj _ ltac:(done) _ Ha'), Hu. by apply (list_elem_of_fmap_2' snd _ (id, b)).
Qed.

(** A purge works on the candidates, all pinned. *)
Lemma purge_frames_eq {S : Type} fm l (count : Z)
    (purger : FM → S → positive → option (FM * S * RC)) (s : S) :
  fm_wf fm l →
  let cs := candidates (store fm) l (Z.to_nat (Z.max 1 count)) in
  purge_frames fm count purger s =
    purge_each purger (with_store fm (pin_all (store fm) cs.*2)) s cs.*2 0.
Proof.
  intros Hwf cs. pose proof Hwf as [Ha He]. unfold purge_frames.
  replace (if count <=? 0 then 1 else count) with (Z.max 1 count) by (case_bool; lia).
  rewrite (lru_foreach_reverse_ok _ _ _ _ Ha).
  rewrite (purge_finder_spec (store fm) _ (reverse l) []); simpl.
  2:{ intros id a Hin. rewrite elem_of_reverse in Hin.
      destruct (ent_live _ _ _ He _ _ Hin) as (f & -> & _). eauto. }
  2:{ rewrite fmap_reverse, reverse_Permutation. apply (ent_addrs _ _ _ He). }
  2:{ lia. }
  by rewrite Nat.sub_0_r.
Qed.

Lemma purge_frames_spec {S : Type} fm l (count : Z)
    (purger : FM → S → positive → option (FM * S * RC)) (s : S) :
  fm_wf fm l → purger_ok purger →
  let cs := candidates (store fm) l (Z.to_nat (Z.max 1 count)) in
  ∃ fm' s' l' n, purge_frames fm count purger s = Some (fm', s', n) ∧ fm_wf fm' l' ∧
    l' ⊆ l ∧ length l = (length l' + Z.to_nat n)%nat ∧ 0 ≤ n ∧
    (∀ x, x ∈ l → x ∉ l' → x ∈ cs) ∧
    (∀ id a, (id, a) ∈ l' → pin_count_ <$> store fm' !! a = pin_count_ <$> store fm !! a) ∧
    ((∀ fm s a r, purger fm s a = Some r → r.2 = RC_SUCCESS) → ∀ x, x ∈ cs → x ∉ l').
Proof.
  intros Hwf Hpg cs. pose proof Hwf as [Ha He]. rewrite (purge_frames_eq _ l) by done. fold cs.
  set (fm0 := with_store fm (pin_all (store fm) cs.*2)).
  destruct (purge_each_spec purger Hpg cs fm0 s l 0) as
    (fm' & s' & l' & n & -> & Hwf' & Hsub & Hlen & Hn & Hev & Hkeep & Hback & Hall).
  { by apply pin_all_wf. }
  { apply candidates_NoDup, (ent_addrs _ _ _ He). }
  { intros id a Hc. split; [by apply candidates_sub in Hc as [? _]|].
    destruct (pin_all_candidates _ _ _ _ _ Hwf Hc) as (f & _ & _ & Hf). simpl. fold cs in Hf.
    by eexists. }
  exists fm', s', l', n. split_and!; try done.
  intros id a Hx. destruct (decide ((id, a) ∈ cs)) as [Hc|Hc].
  - rewrite (Hback _ _ Hx Hc).
    by destruct (pin_all_candidates _ _ _ _ _ Hwf Hc) as (f & -> & <- & _).
  - rewrite (Hkeep _ _ Hx Hc). simpl.
    rewrite pin_all_lookup by apply candidates_NoDup, (ent_addrs _ _ _ He).
    rewrite decide_False; [done|]. intros Hin.
    apply list_elem_of_fmap in Hin as ([id' b] & -> & Hc').
    apply candidates_sub in Hc' as Hl'. destruct Hl' as [Hl' _].
    apply Hc. assert (id' = id) as <-; [|done]. simpl in *.
    destruct (ent_live _ _ _ He _ _ Hl') as (g1 & G1 & <- & _).
    destruct (ent_live _ _ _ He _ _ (Hsub _ Hx)) as (g2 & G2 & <- & _). congruence.
Qed.

(** [Frame::unpin] of a mapped frame that is pinned. *)
Lemma unpin_wf fm l id a f :
  fm_wf fm l → (id, a) ∈ l → store fm !! a = Some f → 0 < pin_count_ f →
  unpin (store fm) a = Some (<[a := set_pin f (pin_count_ f - 1)]> (store fm)) ∧
  fm_wf (with_store fm (<[a := set_pin f (pin_count_ f - 1)]> (store fm))) l.
Proof.
  intros [Ha He] Hin Hf Hp. unfold unpin. rewrite Hf. simpl.
  rewrite (proj2 (Z.ltb_lt _ _)) by done. split; [done|]. split; [done|].
  eapply entries_update; eauto. simpl. lia.
Qed.

Lemma fm_init_wf (blank : Frame D) pool_num :
  0 < pool_num → pin_count_ blank = 0 →
  fm_wf (fm_init (C := C) pool_num blank).1 [] ∧ (fm_init (C := C) pool_num blank).2 = RC_SUCCESS.
Proof.
  intros Hp Hb. unfold fm_init.
  destruct (MemPool.init_ok false pool_num 128 Hp ltac:(lia)) as (Hw & Hd & _ & _).
  destruct (MemPool.init_config pool_num ltac:(lia)) as [Hret Hus].
  destruct (MemPool.init initial_pool false pool_num 128) as [pool ret]. simpl in *. subst ret.
  split; [|done]. split; [apply lru_empty_ok|]. simpl. constructor; try done.
  - constructor.
  - constructor.
  - intros a. rewrite Hus. set_solver.
  - set_solver.
  - intros a Ha. exists blank. split; [|done]. apply elem_of_list_to_map.
    + rewrite <- list_fmap_compose. simpl. rewrite list_fmap_id. apply (MemPool.wf_frees _ Hw).
    + by apply list_elem_of_fmap_2' with (x := a).
Qed.
End purge.

(** ** Properties *)

(** a purge of the frame table evicts only frames that no one had pinned, and only
    among the [max 1 count] least recently used of those; every other mapping and the pin
    count of every frame that stays are as before, the table stays well formed (each page in
    one frame, each used frame of the pool mapped once), the result is the number of evicted
    frames, and a write-back callback that always succeeds evicts all the candidates.  The
    callback may write pages but must leave the frame table alone. *)
Theorem purge_evicts_cold_unpinned_frames {D C S : Type} `{LruSpec C FrameId positive}
    (fm : BPFrameManager D C) l (count : Z)
    (purger : BPFrameManager D C → S → positive → option (BPFrameManager D C * S * RC)) (s : S) :
  fm_wf fm l → purger_ok purger →
  let cs := candidates (store fm) l (Z.to_nat (Z.max 1 count)) in
  ∃ fm' s' l' n, purge_frames fm count purger s = Some (fm', s', n) ∧ fm_wf fm' l' ∧
    l' ⊆ l ∧ length l = (length l' + Z.to_nat n)%nat ∧ 0 ≤ n ∧
    (∀ x, x ∈ l → x ∉ l' → x ∈ cs) ∧
    (∀ id a, (id, a) ∈ l' → pin_count_ <$> store fm' !! a = pin_count_ <$> store fm !! a) ∧
    ((∀ fm s a r, purger fm s a = Some r → r.2 = RC_SUCCESS) → ∀ x, x ∈ cs → x ∉ l').
Proof. apply purge_frames_spec. Qed.

Lemma purge_evicts_cold_unpinned_frames_witness :
  ∃ (fm : BPFrameManager unit (LruCache FrameId positive)) l,
    l = [(mkFrameId 1 7, 1%positive)] ∧ fm_wf fm l ∧
    let cs := candidates (store fm) l (Z.to_nat (Z.max 1 0)) in
    cs = l ∧
    ∃ fm' s' l' n, purge_frames fm 0 (λ fm (_ : unit) _, Some (fm, tt, RC_SUCCESS)) tt = Some (fm', s', n) ∧
      fm_wf fm' l' ∧ l' ⊆ l ∧ length l = (length l' + Z.to_nat n)%nat ∧ 0 ≤ n ∧
      (∀ x, x ∈ l → x ∉ l' → x ∈ cs) ∧
      (∀ id a, (id, a) ∈ l' → pin_count_ <$> store fm' !! a = pin_count_ <$> store fm !! a) ∧
      ((∀ (fm : BPFrameManager unit (LruCache FrameId positive)) (s : unit) (a : positive) r,
          Some (fm, tt, RC_SUCCESS) = Some r → r.2 = RC_SUCCESS) →
       ∀ x, x ∈ cs → x ∉ l').
Proof.
  destruct (fm_init_wf (D := unit) (C := LruCache FrameId positive)
              (mkFrame false 0 (mkFrameId (-1) (-1)) (mkPage 0 0 tt)) 1 ltac:(lia) eq_refl) as [Hi _].
  set (fm0 := (fm_init 1 _).1) in *.
  destruct (fm_alloc_fresh fm0 [] 1 7 1%positive (MemPool.alloc (allocator_ fm0)).1
              Hi eq_refl ltac:(by vm_compute)) as (fm1 & f & _ & Hf & Hst & _ & Hwf1).
  destruct (unpin_wf fm1 _ (mkFrameId 1 7) 1%positive _ Hwf1 (list_elem_of_here _ _)
              ltac:(rewrite Hst; apply lookup_insert_eq) ltac:(done)) as [_ Hwf2].
  set (fm2 := with_store _ _) in *. set (l := [(mkFrameId 1 7, 1%positive)]) in *.
  assert (candidates (store fm2) l (Z.to_nat (Z.max 1 0)) = l) as Hcs.
  { unfold candidates, l. change (reverse [?x]) with [x].
    rewrite filter_cons_True; [by rewrite filter_nil|].
    unfold unpinned, fm2. simpl. by rewrite lookup_insert_eq. }
  exists fm2, l. split; [done|]. split; [done|]. split; [exact Hcs|].
  apply (purge_evicts_cold_unpinned_frames fm2 l 0 (λ fm _ _, Some (fm, tt, RC_SUCCESS)) tt Hwf2).
  intros fm s a _. by eexists _, _, _.
Defined.
