(* ===== verification/BplusKey.v ===== *)
(** * Keys of the B+ tree ([storage/index/bplus_tree.h], [storage/record/record.h])

    A key is the values of the indexed attributes followed by the [RID] of the record.  The
    byte string of an attribute is abstracted to its decoded value of type [A]; how two values
    of a column compare ([Value::compare]) is an argument of the comparator. *)
From S2P Require Import Prelude Rc.

(** ** Data *)

(** [src/src/observer/storage/record/record.h:34-51] [RID] *)
Record RID := mkRID { rid_page_num : Z; rid_slot_num : Z }.

#[export] Instance RID_eq_dec : EqDecision RID.
Proof. solve_decision. Defined.
#[export] Instance RID_countable : Countable RID.
Proof.
  apply (inj_countable' (λ r, (rid_page_num r, rid_slot_num r)) (λ '(a, b), mkRID a b)).
  by intros [].
Defined.

(** [src/src/observer/storage/record/record.h:53-61] [RID::compare] the differences are C ints *)
Definition RID_compare (rid1 rid2 : RID) : Z :=
  let page_diff := to_int32 (rid_page_num rid1 - rid_page_num rid2) in
  if negb (page_diff =? 0) then page_diff
  else to_int32 (rid_slot_num rid1 - rid_slot_num rid2).

(** [src/src/observer/storage/record/record.h:68-72] [RID::min] *)
Definition RID_min : RID := mkRID 0 0.

(** [src/src/observer/storage/record/record.h:78-82] [RID::max] *)
Definition RID_max : RID := mkRID INT32_MAX INT32_MAX.

(** A key: the attribute values, then the record's position. *)
Definition Key (A : Type) : Type := list A * RID.

(** [src/src/observer/storage/index/bplus_tree.h:92-147] [KeyComparator] the fields; one
    comparator per attribute ([AttrComparator]) *)
Record KeyComparator {A : Type} := mkKeyComparator {
  unique_ : bool;
  attrs_comparator_ : list (A → A → Z);
}.
#[global] Arguments KeyComparator : clear implicits.
#[global] Arguments mkKeyComparator {A}.

Section comparator.
Context {A : Type}.
Implicit Types (k : Key A) (c : KeyComparator A).

(** The loop over the attributes; [None] reads past the end of a key. *)
Fixpoint compare_attrs (comps : list (A → A → Z)) (v1 v2 : list A) : option Z :=
  match comps with
  | [] => Some 0
  | attr_comp :: comps =>
      match v1, v2 with
      | x1 :: v1, x2 :: v2 =>
          let result := attr_comp x1 x2 in
          if negb (result =? 0) then Some result else compare_attrs comps v1 v2
      | _, _ => None
      end
  end.

(** [src/src/observer/storage/index/bplus_tree.h:123-141] [KeyComparator::operator()] *)
Definition key_compare c k1 k2 : Z :=
  let result := default 0 (compare_attrs (attrs_comparator_ c) k1.1 k2.1) in
  if negb (result =? 0) then result
  else if unique_ c then 0
  else RID_compare k1.2 k2.2.

(** [src/src/observer/storage/index/bplus_tree.cpp:1626-1639] [BplusTreeHandler::make_key] the
    user key is followed in memory by bytes that are not part of it *)
Definition make_key (user_key : Key A) (rid : RID) : Key A := (user_key.1, rid).
End comparator.

(** ** Order *)

(** What the tree needs of a three-way comparison, on the keys that can occur. *)
Class TotalCompare {K : Type} (cmp : K → K → Z) (ok : K → Prop) : Prop := {
  cmp_refl : ∀ x, ok x → cmp x x = 0;
  cmp_flip : ∀ x y, ok x → ok y → cmp x y < 0 ↔ 0 < cmp y x;
  cmp_trans : ∀ x y z, ok x → ok y → ok z → cmp x y ≤ 0 → cmp y z ≤ 0 → cmp x z ≤ 0;
}.

Section total.
Context {K : Type} (cmp : K → K → Z) (ok : K → Prop) `{!TotalCompare cmp ok}.

Lemma cmp_le_flip x y : ok x → ok y → cmp x y ≤ 0 ↔ 0 ≤ cmp y x.
Proof. intros Hx Hy. pose proof (cmp_flip y x Hy Hx). lia. Qed.

Lemma cmp_eq_sym x y : ok x → ok y → cmp x y = 0 ↔ cmp y x = 0.
Proof.
  intros Hx Hy. pose proof (cmp_le_flip x y Hx Hy). pose proof (cmp_le_flip y x Hy Hx). lia.
Qed.

Lemma cmp_lt_le_trans x y z : ok x → ok y → ok z → cmp x y < 0 → cmp y z ≤ 0 → cmp x z < 0.
Proof.
  intros Hx Hy Hz. pose proof (cmp_flip x y Hx Hy). pose proof (cmp_flip x z Hx Hz).
  pose proof (cmp_le_flip z x Hz Hx). pose proof (cmp_trans y z x Hy Hz Hx).
  pose proof (cmp_le_flip y x Hy Hx). lia.
Qed.

Lemma cmp_le_lt_trans x y z : ok x → ok y → ok z → cmp x y ≤ 0 → cmp y z < 0 → cmp x z < 0.
Proof.
  intros Hx Hy Hz. pose proof (cmp_flip y z Hy Hz). pose proof (cmp_flip x z Hx Hz).
  pose proof (cmp_le_flip z x Hz Hx). pose proof (cmp_trans z x y Hz Hx Hy).
  pose proof (cmp_le_flip z y Hz Hy). lia.
Qed.
End total.

(** ** The key comparator is a total order on valid keys *)

(** A record position that the buffer pool can give out. *)
Definition valid_rid (r : RID) : Prop :=
  0 ≤ rid_page_num r ≤ INT32_MAX ∧ 0 ≤ rid_slot_num r ≤ INT32_MAX.

#[export] Instance valid_rid_dec r : Decision (valid_rid r) := and_dec _ _.

(** Positions compare without overflow. *)
Lemma RID_compare_valid r1 r2 :
  valid_rid r1 → valid_rid r2 →
  RID_compare r1 r2 =
    if decide (rid_page_num r1 = rid_page_num r2) then rid_slot_num r1 - rid_slot_num r2
    else rid_page_num r1 - rid_page_num r2.
Proof.
  unfold valid_rid, RID_compare, INT32_MAX. intros [? ?] [? ?].
  rewrite !to_int32_small by (unfold is_int32, INT32_MAX, INT32_MIN; lia).
  case_decide; case_bool; lia.
Qed.

#[export] Instance RID_total : TotalCompare RID_compare valid_rid.
Proof.
  constructor.
  - intros x Hx. rewrite RID_compare_valid by done. rewrite decide_True; [lia|done].
  - intros x y Hx Hy. rewrite !RID_compare_valid by done. repeat case_decide; lia.
  - intros x y z Hx Hy Hz. rewrite !RID_compare_valid by done. repeat case_decide; lia.
Qed.

Section key_order.
Context {A : Type} (c : KeyComparator A) (oks : list (A → Prop)).
(** Every column has an order on its valid values. *)
Hypothesis attrs_total :
  Forall2 (λ (comp : A → A → Z) ok, TotalCompare comp ok) (attrs_comparator_ c) oks.

(** One valid value per column. *)
Definition valid_attrs (oks : list (A → Prop)) (v : list A) : Prop := Forall2 (λ ok x, ok x) oks v.

(** A key with valid values and a valid position. *)
Definition valid_key (k : Key A) : Prop := valid_attrs oks k.1 ∧ valid_rid k.2.

Definition attrs_cmp (v1 v2 : list A) : Z := default 0 (compare_attrs (attrs_comparator_ c) v1 v2).

Lemma compare_attrs_total comps oks' :
  Forall2 (λ (comp : A → A → Z) ok, TotalCompare comp ok) comps oks' →
  TotalCompare (λ v1 v2, default 0 (compare_attrs comps v1 v2)) (valid_attrs oks').
Proof.
  intros Hall. induction Hall as [|comp ok comps oks' Hc Hcs IH].
  { constructor; simpl; lia. }
  constructor.
  - intros v (x & v' & Hx & Hv & ->)%Forall2_cons_inv_l. simpl.
    rewrite (cmp_refl (TotalCompare := Hc) x Hx). simpl.
    by apply (cmp_refl (TotalCompare := IH) v').
  - intros v w (x & v' & Hx & Hv & ->)%Forall2_cons_inv_l (y & w' & Hy & Hw & ->)%Forall2_cons_inv_l. simpl.
    pose proof (cmp_flip (TotalCompare := Hc) x y Hx Hy). pose proof (cmp_flip (TotalCompare := Hc) y x Hy Hx).
    pose proof (cmp_flip (TotalCompare := IH) v' w' Hv Hw) as IHv. simpl in IHv.
    repeat case_bool; simpl; lia.
  - intros v w u (x & v' & Hx & Hv & ->)%Forall2_cons_inv_l (y & w' & Hy & Hw & ->)%Forall2_cons_inv_l
      (z & u' & Hz & Hu & ->)%Forall2_cons_inv_l. simpl.
    pose proof (cmp_trans (TotalCompare := IH) v' w' u' Hv Hw Hu) as IHt. simpl in IHt.
    pose proof (cmp_trans (TotalCompare := Hc) x y z Hx Hy Hz).
    pose proof (cmp_lt_le_trans comp ok x y z Hx Hy Hz).
    pose proof (cmp_le_lt_trans comp ok x y z Hx Hy Hz).
    repeat case_bool; simpl; lia.
Qed.

Lemma key_total : TotalCompare (key_compare c) valid_key.
Proof using attrs_total.
  pose proof (compare_attrs_total _ _ attrs_total) as Ht.
  constructor.
  - intros k (Hf & Hr). unfold key_compare.
    rewrite (cmp_refl (TotalCompare := Ht) k.1) by done. simpl.
    case_match; [done|]. by apply (cmp_refl (TotalCompare := RID_total)).
  - intros x y (Hf & Hr) (Hf' & Hr'). unfold key_compare.
    pose proof (cmp_flip (TotalCompare := Ht) x.1 y.1 Hf Hf') as H1.
    pose proof (cmp_flip (TotalCompare := Ht) y.1 x.1 Hf' Hf) as H2.
    pose proof (cmp_flip (TotalCompare := RID_total) x.2 y.2 Hr Hr'). simpl in H1, H2.
    destruct (unique_ c); repeat case_bool; lia.
  - intros x y z (Hf & Hr) (Hf' & Hr') (Hf2 & Hr2). unfold key_compare.
    pose proof (cmp_trans (TotalCompare := Ht) x.1 y.1 z.1 Hf Hf' Hf2) as H1.
    pose proof (cmp_lt_le_trans _ _ x.1 y.1 z.1 (TotalCompare0 := Ht) Hf Hf' Hf2) as H2.
    pose proof (cmp_le_lt_trans _ _ x.1 y.1 z.1 (TotalCompare0 := Ht) Hf Hf' Hf2) as H3.
    pose proof (cmp_trans (TotalCompare := RID_total) x.2 y.2 z.2 Hr Hr' Hr2). simpl in H1, H2, H3.
    destruct (unique_ c); repeat case_bool; lia.
Qed.
End key_order.
