(* ===== verification/PageAlloc.v ===== *)
(** * What a page file promises to the structures stored in it

    The interface between the buffer pool ([DiskBufferPool::allocate_page],
    [dispose_page]) and the structures that keep their nodes in pages.  The buffer pool's
    file discharges the laws; the B+ tree is verified against them. *)
From S2P Require Import Prelude Rc.

Class PageAllocator (B : Type) := {
  bp_pages : B → gset Z;             (* the allocated pages *)
  bp_free : B → nat;                 (* how many more pages the file can hold *)
  bp_allocate : B → B * (Z + RC);
  bp_dispose : B → Z → B;
  bp_allocate_ok : ∀ b b' p,
    bp_allocate b = (b', inl p) → 0 ≤ p ∧ p ∉ bp_pages b ∧ bp_pages b' = {[p]} ∪ bp_pages b ∧
                                  bp_free b = S (bp_free b');
  bp_allocate_fail : ∀ b b' rc,
    bp_allocate b = (b', inr rc) → rc ≠ RC_SUCCESS ∧ bp_pages b' = bp_pages b ∧ bp_free b = 0%nat;
  bp_dispose_ok : ∀ b p,
    p ∈ bp_pages b → bp_pages (bp_dispose b p) = bp_pages b ∖ {[p]} ∧
                     (bp_free b ≤ bp_free (bp_dispose b p))%nat;
}.

(** A file with room succeeds. *)
Lemma bp_allocate_room `{PageAllocator B} (b : B) n :
  (S n ≤ bp_free b)%nat →
  ∃ b' p, bp_allocate b = (b', inl p) ∧ 0 ≤ p ∧ p ∉ bp_pages b ∧
          bp_pages b' = {[p]} ∪ bp_pages b ∧ (n ≤ bp_free b')%nat.
Proof.
  intros Hn. destruct (bp_allocate b) as [b' [p|rc]] eqn:E.
  - destruct (bp_allocate_ok _ _ _ E) as (? & ? & ? & ?). exists b', p. split_and!; try done. lia.
  - destruct (bp_allocate_fail _ _ _ E) as (_ & _ & ?). lia.
Qed.

(** ** A reference allocator: the pages below a bound, lowest free page first. *)
Record PageSet := mkPageSet { ps_pages : gset Z; ps_limit : nat }.

Definition ps_candidates (s : PageSet) : list Z :=
  filter (λ p, p ∉ ps_pages s) (Z.of_nat <$> seq 0 (ps_limit s)).

Lemma ps_candidates_elem s p :
  p ∈ ps_candidates s ↔ 0 ≤ p < Z.of_nat (ps_limit s) ∧ p ∉ ps_pages s.
Proof.
  unfold ps_candidates. rewrite list_elem_of_filter, list_elem_of_fmap. split.
  - intros [Hp (n & -> & Hn%elem_of_seq)]. split; [lia | done].
  - intros [Hr Hp]. split; [done|]. exists (Z.to_nat p). rewrite elem_of_seq. lia.
Qed.

Lemma ps_candidates_NoDup s : NoDup (ps_candidates s).
Proof.
  unfold ps_candidates. apply NoDup_filter. apply NoDup_fmap_2; [|apply NoDup_seq].
  intros ???. lia.
Qed.

Lemma ps_candidates_change s s' p :
  ps_limit s' = ps_limit s → p ∈ ps_candidates s → ps_pages s' = {[p]} ∪ ps_pages s →
  length (ps_candidates s) = S (length (ps_candidates s')).
Proof.
  intros Hl Hp Hs.
  assert (ps_candidates s ≡ₚ p :: ps_candidates s') as ->; [|done].
  apply NoDup_Permutation.
  - apply ps_candidates_NoDup.
  - apply NoDup_cons. split; [|apply ps_candidates_NoDup].
    rewrite ps_candidates_elem, Hs. set_solver.
  - intros x. rewrite elem_of_cons, !ps_candidates_elem, Hs, Hl, not_elem_of_union, elem_of_singleton.
    apply ps_candidates_elem in Hp as [??].
    split; [intros; destruct (decide (x = p)); [by left | right; tauto]|].
    intros [->|?]; tauto.
Qed.

Lemma ps_candidates_mono s s' :
  ps_limit s' = ps_limit s → ps_pages s' ⊆ ps_pages s →
  (length (ps_candidates s) ≤ length (ps_candidates s'))%nat.
Proof.
  intros Hl Hs. apply submseteq_length, NoDup_submseteq; [apply ps_candidates_NoDup|].
  intros x. rewrite !ps_candidates_elem, Hl. set_solver.
Qed.

Definition ps_allocate (s : PageSet) : PageSet * (Z + RC) :=
  match ps_candidates s with
  | p :: _ => (mkPageSet ({[p]} ∪ ps_pages s) (ps_limit s), inl p)
  | [] => (s, inr RC_BUFFERPOOL_NOBUF)
  end.

#[export] Program Instance page_set_allocator : PageAllocator PageSet := {|
  bp_pages := ps_pages;
  bp_free s := length (ps_candidates s);
  bp_allocate := ps_allocate;
  bp_dispose s p := mkPageSet (ps_pages s ∖ {[p]}) (ps_limit s);
|}.
Next Obligation.
  intros b b' p. unfold ps_allocate. destruct (ps_candidates b) as [|q cs] eqn:E; [done|].
  intros [= <- <-]. assert (q ∈ ps_candidates b) as Hq by (rewrite E; apply list_elem_of_here).
  pose proof Hq as [Hr Hn]%ps_candidates_elem. split_and!; try done; [lia|].
  rewrite <- E. by apply ps_candidates_change with q.
Qed.
Next Obligation.
  intros b b' rc. unfold ps_allocate. destruct (ps_candidates b) as [|q cs] eqn:E; [|done].
  by intros [= <- <-].
Qed.
Next Obligation.
  intros b p Hp. split; [done|]. apply ps_candidates_mono; [done|]. simpl. set_solver.
Qed.
