(* ===== verification/BplusTree.v ===== *)
(** * The B+ tree: pages, nodes and operations ([storage/index/bplus_tree.cpp])

    The state is the contents of the index file's pages, the two copies of the file header,
    the buffer pool's allocator and the mini-transaction (latch memo, log entries, pages to
    dispose).  A node is a tagged page; [key_num] is the length of its item list.  A handler
    is a computation of a small state-and-error monad: [Ok] continues, [Err] is an early
    return of a result code, [Stuck] is undefined behaviour or a failed [ASSERT].  Every
    primitive logs and then changes its page, in the order of the code. *)
From S2P Require Import Prelude Rc BplusKey PageAlloc LowerBound.

(** ** Data *)

(** [src/src/observer/storage/index/bplus_tree.h:222-237] [IndexFileHeader] *)
Record IndexFileHeader := mkHeader {
  root_page         : Z;
  internal_max_size : Z;
  leaf_max_size     : Z;
  attr_length       : Z;
  attrs_count       : Z;
  key_length        : Z;
  unique            : bool;
  attrs_length      : list Z;
  attrs_type        : list Z;
}.

(** [src/src/observer/storage/index/bplus_tree.h:48-53] [BplusTreeOperationType] *)
Inductive BplusTreeOperationType := OP_READ | OP_INSERT | OP_DELETE.

(** [src/src/observer/storage/index/bplus_tree.h:258-311] [IndexNode], [LeafIndexNode] and
    [InternalIndexNode] *)
Inductive Node {A : Type} :=
| LeafNode (parent next_brother : Z) (items : list (Key A * RID))
| InternalNode (parent : Z) (items : list (Key A * Z)).
#[global] Arguments Node : clear implicits.
#[global] Arguments LeafNode {A}.
#[global] Arguments InternalNode {A}.

(** The items an operation moves. *)
Inductive Items {A : Type} :=
| LeafItems (l : list (Key A * RID))
| InternalItems (l : list (Key A * Z)).
#[global] Arguments Items : clear implicits.
#[global] Arguments LeafItems {A}.
#[global] Arguments InternalItems {A}.

(** [src/src/observer/storage/index/bplus_tree_log_entry.h:41-55] [LogOperation::Type] with the
    fields of the entry handlers; the first argument is the page of the entry's frame *)
Inductive LogEntry {A : Type} :=
| InitHeaderPage (frame : Z) (header : IndexFileHeader)
| UpdateRootPage (frame root_page_num old_page_num : Z)
| SetParentPage (frame parent_page_num old_parent_page_num : Z)
| LeafInitEmpty (frame : Z)
| LeafSetNextPage (frame new_page_num old_page_num : Z)
| InternalInitEmpty (frame : Z)
| InternalCreateNewRoot (frame first_page_num : Z) (key : Key A) (page_num : Z)
| InternalUpdateKey (frame index : Z) (key old_key : Key A)
| NodeInsert (frame index : Z) (items : Items A)
| NodeRemove (frame index : Z) (items : Items A).
#[global] Arguments LogEntry : clear implicits.

(** [src/src/observer/storage/index/latch_memo.h:32-37] [LatchMemoType] *)
Inductive LatchMemoType := LATCH_SHARED | LATCH_EXCLUSIVE | LATCH_PIN.

(** [src/src/observer/storage/index/latch_memo.h:39-50] [LatchMemoItem] a frame or the root lock *)
Record LatchMemoItem := mkMemoItem { memo_type : LatchMemoType; memo_frame : option Z }.

Record State {A B : Type} := mkState {
  pages         : gmap Z (Node A);      (* the frames' data, by page number *)
  header_page   : IndexFileHeader;      (* the data of page FIRST_INDEX_PAGE *)
  file_header_  : IndexFileHeader;
  header_dirty_ : bool;
  bp            : B;
  memo          : list LatchMemoItem;   (* LatchMemo::items_ *)
  disposed      : list Z;               (* LatchMemo::disposed_pages_ *)
  entries       : list (LogEntry A);    (* BplusTreeLogger::entries_ *)
  need_log      : bool;
  faults        : list (option RC);     (* outcome of the next page requests; [] never fails *)
  lsns          : gmap Z Z;             (* Frame::lsn, by page number *)
  wal           : list (Z * list (LogEntry A));  (* the records given to the log handler *)
}.
#[global] Arguments State : clear implicits.
#[global] Arguments mkState {A B}.

(** ** The monad *)
Inductive Res {S T : Type} :=
| Ok (x : T) (st : S)
| Err (rc : RC) (st : S)
| Stuck.
#[global] Arguments Res : clear implicits.
#[global] Arguments Ok {S T}.
#[global] Arguments Err {S T}.
#[global] Arguments Stuck {S T}.

Definition M (S T : Type) : Type := S → Res S T.

#[export] Instance M_ret {S} : MRet (M S) := λ T x st, Ok x st.
#[export] Instance M_bind {S} : MBind (M S) := λ T U f m st,
  match m st with
  | Ok x st => f x st
  | Err rc st => Err rc st
  | Stuck => Stuck
  end.

Section monad.
Context {S : Type}.

Definition throw {T} (rc : RC) : M S T := λ st, Err rc st.
Definition stuck {T} : M S T := λ _, Stuck.
Definition gets {T} (f : S → T) : M S T := λ st, Ok (f st) st.
Definition modify (f : S → S) : M S unit := λ st, Ok tt (f st).
(** An access that is undefined when it has no value. *)
Definition of_option {T} (o : option T) : M S T :=
  match o with Some x => mret x | None => stuck end.
(** [ASSERT] *)
Definition assert_ (b : bool) : M S unit := if b then mret tt else stuck.
(** A call whose result code the caller drops. *)
Definition ignore (m : M S unit) : M S unit := λ st,
  match m st with
  | Err _ st => Ok tt st
  | r => r
  end.
End monad.

(** ** Nodes *)
Section node.
Context {A : Type}.
Implicit Types (n : Node A).

(** [src/src/observer/storage/index/bplus_tree.cpp:59-59] [IndexNodeHandler::is_leaf] *)
Definition is_leaf n : bool := match n with LeafNode _ _ _ => true | InternalNode _ _ => false end.
(** [src/src/observer/storage/index/bplus_tree.cpp:78-78] [IndexNodeHandler::size] *)
Definition size n : Z :=
  match n with LeafNode _ _ l => Z.of_nat (length l) | InternalNode _ l => Z.of_nat (length l) end.
(** [src/src/observer/storage/index/bplus_tree.cpp:93-93] [IndexNodeHandler::parent_page_num] *)
Definition parent_page_num n : Z := match n with LeafNode p _ _ => p | InternalNode p _ => p end.
Definition set_parent n (p : Z) : Node A :=
  match n with LeafNode _ nx l => LeafNode p nx l | InternalNode _ l => InternalNode p l end.

(** [src/src/observer/storage/index/bplus_tree.cpp:80-83] [IndexNodeHandler::max_size] *)
Definition max_size (h : IndexFileHeader) n : Z :=
  if is_leaf n then leaf_max_size h else internal_max_size h.
(** [src/src/observer/storage/index/bplus_tree.cpp:85-89] [IndexNodeHandler::min_size] *)
Definition min_size (h : IndexFileHeader) n : Z := let max := max_size h n in max - Z.quot max 2.

(** [src/src/observer/storage/index/bplus_tree.cpp:111-138] [IndexNodeHandler::is_safe] *)
Definition is_safe (h : IndexFileHeader) n (op : BplusTreeOperationType) (is_root_node : bool) : bool :=
  match op with
  | OP_READ => true
  | OP_INSERT => size n <? max_size h n
  | OP_DELETE =>
      if is_root_node then (if is_leaf n then 1 <? size n else 2 <? size n)
      else min_size h n <? size n
  end.

(** [src/src/observer/storage/index/bplus_tree.cpp:34-40] [calc_internal_page_capacity] *)
Definition calc_internal_page_capacity (attr_length : Z) : Z :=
  Z.quot (BP_PAGE_DATA_SIZE - 12) (attr_length + 8 + 4).
(** [src/src/observer/storage/index/bplus_tree.cpp:42-48] [calc_leaf_page_capacity] *)
Definition calc_leaf_page_capacity (attr_length : Z) : Z :=
  Z.quot (BP_PAGE_DATA_SIZE - 16) (attr_length + 8 + 8).

(** The bytes a node occupies fit the page. *)
Definition fits (h : IndexFileHeader) n : bool :=
  match n with
  | LeafNode _ _ l => 16 + Z.of_nat (length l) * (key_length h + 8) <=? BP_PAGE_DATA_SIZE
  | InternalNode _ l => 12 + Z.of_nat (length l) * (key_length h + 4) <=? BP_PAGE_DATA_SIZE
  end.

(** [memmove] and [memcpy] of a run of items at [index]; a gap would expose stale bytes. *)
Definition insert_run {T} (index : Z) (its l : list T) : option (list T) :=
  if (0 <=? index) && (index <=? Z.of_nat (length l))
  then Some (take (Z.to_nat index) l ++ its ++ drop (Z.to_nat index) l) else None.

Definition remove_run {T} (index num : Z) (l : list T) : option (list T) :=
  if (0 <=? index) && (0 <=? num) && (index + num <=? Z.of_nat (length l))
  then Some (take (Z.to_nat index) l ++ drop (Z.to_nat (index + num)) l) else None.

(** [src/src/observer/storage/index/bplus_tree.cpp:168-180] [IndexNodeHandler::recover_insert_items] *)
Definition recover_insert_items (h : IndexFileHeader) n (index : Z) (its : Items A) : option (Node A) :=
  n' ← match n, its with
       | LeafNode p nx l, LeafItems i => LeafNode p nx <$> insert_run index i l
       | InternalNode p l, InternalItems i => InternalNode p <$> insert_run index i l
       | _, _ => None
       end;
  if fits h n' then Some n' else None.

(** [src/src/observer/storage/index/bplus_tree.cpp:182-193] [IndexNodeHandler::recover_remove_items] *)
Definition recover_remove_items n (index num : Z) : option (Node A) :=
  match n with
  | LeafNode p nx l => LeafNode p nx <$> remove_run index num l
  | InternalNode p l => InternalNode p <$> remove_run index num l
  end.

(** [__item_at(index)] for a run of [num] items. *)
Definition items_at n (index num : Z) : option (Items A) :=
  if (0 <=? index) && (0 <=? num) && (index + num <=? size n) then
    Some match n with
         | LeafNode _ _ l => LeafItems (take (Z.to_nat num) (drop (Z.to_nat index) l))
         | InternalNode _ l => InternalItems (take (Z.to_nat num) (drop (Z.to_nat index) l))
         end
  else None.

(** [src/src/observer/storage/index/bplus_tree.cpp:232-236] [LeafIndexNodeHandler::key_at] also
    [InternalIndexNodeHandler::key_at] *)
Definition key_at n (index : Z) : option (Key A) :=
  match n with
  | LeafNode _ _ l => fst <$> at_z l index
  | InternalNode _ l => fst <$> at_z l index
  end.
End node.

Section search.
Context {A : Type} (cmp : Key A → Key A → Z).

(** [src/src/observer/storage/index/bplus_tree.cpp:244-253] [LeafIndexNodeHandler::lookup] *)
Definition leaf_lookup (l : list (Key A * RID)) (key : Key A) : option (Z * bool) :=
  lower_bound (λ item k, cmp item.1 k) l key.

(** [src/src/observer/storage/index/bplus_tree.cpp:557-585] [InternalIndexNodeHandler::lookup] the
    index of the child, and the insert position *)
Definition internal_lookup (l : list (Key A * Z)) (key : Key A) : option (Z * Z) :=
  let size := Z.of_nat (length l) in
  if size =? 0 then Some (0, 1)
  else
    '(i, _) ← lower_bound (λ item k, cmp item.1 k) (drop 1 l) key;
    let ret := i + 1 in
    if size <=? ret then Some (ret - 1, ret)
    else
      item ← at_z l ret;
      if cmp key item.1 <? 0 then Some (ret - 1, ret) else Some (ret, ret).

(** [src/src/observer/storage/index/bplus_tree.cpp:610-618] [InternalIndexNodeHandler::value_index] *)
Definition value_index (l : list (Key A * Z)) (page_num : Z) : Z :=
  for_find (λ i, match at_z l i with Some (_, v) => page_num =? v | None => false end) 0 (length l).
End search.

(** ** The tree *)
Section tree.
Context {A B : Type} `{PageAllocator B}.
Context (key_comparator_ : KeyComparator A) (zero_key : Key A).
#[local] Abbreviation St := (State A B).
#[local] Abbreviation MM := (M St).
#[local] Abbreviation cmp := (key_compare key_comparator_).
Implicit Types (st : St) (p par : Z) (key : Key A).

(** *** State *)
Definition set_pages st x : St :=
  mkState x (header_page st) (file_header_ st) (header_dirty_ st) (bp st) (memo st)
    (disposed st) (entries st) (need_log st) (faults st) (lsns st) (wal st).
Definition set_headers st hp fh d : St :=
  mkState (pages st) hp fh d (bp st) (memo st) (disposed st) (entries st) (need_log st)
    (faults st) (lsns st) (wal st).
Definition set_bp st x : St :=
  mkState (pages st) (header_page st) (file_header_ st) (header_dirty_ st) x (memo st)
    (disposed st) (entries st) (need_log st) (faults st) (lsns st) (wal st).
Definition set_memo st x : St :=
  mkState (pages st) (header_page st) (file_header_ st) (header_dirty_ st) (bp st) x
    (disposed st) (entries st) (need_log st) (faults st) (lsns st) (wal st).
Definition set_disposed st x : St :=
  mkState (pages st) (header_page st) (file_header_ st) (header_dirty_ st) (bp st) (memo st)
    x (entries st) (need_log st) (faults st) (lsns st) (wal st).
Definition set_entries st x : St :=
  mkState (pages st) (header_page st) (file_header_ st) (header_dirty_ st) (bp st) (memo st)
    (disposed st) x (need_log st) (faults st) (lsns st) (wal st).
Definition set_need_log st x : St :=
  mkState (pages st) (header_page st) (file_header_ st) (header_dirty_ st) (bp st) (memo st)
    (disposed st) (entries st) x (faults st) (lsns st) (wal st).
Definition set_faults st x : St :=
  mkState (pages st) (header_page st) (file_header_ st) (header_dirty_ st) (bp st) (memo st)
    (disposed st) (entries st) (need_log st) x (lsns st) (wal st).
Definition set_lsns st x : St :=
  mkState (pages st) (header_page st) (file_header_ st) (header_dirty_ st) (bp st) (memo st)
    (disposed st) (entries st) (need_log st) (faults st) x (wal st).
Definition set_wal st x : St :=
  mkState (pages st) (header_page st) (file_header_ st) (header_dirty_ st) (bp st) (memo st)
    (disposed st) (entries st) (need_log st) (faults st) (lsns st) x.

Definition with_root (h : IndexFileHeader) (r : Z) : IndexFileHeader :=
  mkHeader r (internal_max_size h) (leaf_max_size h) (attr_length h) (attrs_count h) (key_length h)
    (unique h) (attrs_length h) (attrs_type h).

(** The bytes behind a frame. *)
Definition get_node p : MM (Node A) := st ← gets (λ st, st); of_option (pages st !! p).
Definition put_node p (n : Node A) : MM unit := modify (λ st, set_pages st (<[p := n]> (pages st))).
Definition header : MM IndexFileHeader := gets file_header_.

Definition get_leaf p : MM (Z * Z * list (Key A * RID)) :=
  n ← get_node p;
  match n with LeafNode par nx l => mret (par, nx, l) | InternalNode _ _ => stuck end.
Definition get_internal p : MM (Z * list (Key A * Z)) :=
  n ← get_node p;
  match n with InternalNode par l => mret (par, l) | LeafNode _ _ _ => stuck end.

(** *** Latch memo *)

(** The outcome of one request to the buffer pool. *)
Definition page_fault : MM unit := λ st,
  match faults st with
  | [] => Ok tt st
  | None :: fs => Ok tt (set_faults st fs)
  | Some rc :: fs => Err rc (set_faults st fs)
  end.

Definition push_memo (i : LatchMemoItem) : MM unit := modify (λ st, set_memo st (memo st ++ [i])).

(** [src/src/observer/storage/index/latch_memo.cpp:38-49] [LatchMemo::get_page] *)
Definition get_page p : MM unit :=
  page_fault;;
  get_node p;;
  push_memo (mkMemoItem LATCH_PIN (Some p)).

(** [DiskBufferPool::allocate_page] gives out a zeroed page. *)
Definition pool_allocate_page : MM Z :=
  page_fault;;
  st ← gets (λ st, st);
  match bp_allocate (bp st) with
  | (b, inl p) =>
      modify (λ st, set_pages (set_bp st b) (<[p := InternalNode 0 []]> (pages st)));; mret p
  | (b, inr rc) => modify (λ st, set_bp st b);; throw rc
  end.

(** [src/src/observer/storage/index/latch_memo.cpp:51-62] [LatchMemo::allocate_page] *)
Definition allocate_page : MM Z :=
  p ← pool_allocate_page;
  push_memo (mkMemoItem LATCH_PIN (Some p));;
  mret p.

(** [src/src/observer/storage/index/latch_memo.cpp:64-64] [LatchMemo::dispose_page] *)
Definition dispose_page p : MM unit := modify (λ st, set_disposed st (disposed st ++ [p])).

(** [src/src/observer/storage/index/latch_memo.cpp:66-81] [LatchMemo::latch] no other thread holds
    a latch *)
Definition latch p (ty : LatchMemoType) : MM unit :=
  match ty with
  | LATCH_PIN => stuck
  | _ => push_memo (mkMemoItem ty (Some p))
  end.

(** [src/src/observer/storage/index/latch_memo.cpp:96-107] [LatchMemo::xlatch] and [slatch] of the
    root lock *)
Definition latch_root (ty : LatchMemoType) : MM unit := push_memo (mkMemoItem ty None).

(** [src/src/observer/storage/index/latch_memo.cpp:148-160] [LatchMemo::release_to] *)
Definition release_to (point : nat) : MM unit :=
  st ← gets (λ st, st);
  assert_ (point <=? length (memo st))%nat;;
  modify (λ st, set_memo st (drop point (memo st))).

(** [src/src/observer/storage/index/latch_memo.cpp:137-146] [LatchMemo::release] *)
Definition release : MM unit := modify (λ st,
  set_pages (set_bp (set_memo (set_disposed st []) []) (foldl bp_dispose (bp st) (disposed st)))
    (foldr delete (pages st) (disposed st))).

(** *** Log *)

(** [src/src/observer/storage/index/bplus_tree_log.cpp:93-101] [BplusTreeLogger::append_log_entry] *)
Definition append_log_entry (e : LogEntry A) : MM unit := modify (λ st,
  if need_log st then set_entries st (entries st ++ [e]) else st).

(** *** Node handlers *)

(** [src/src/observer/storage/index/bplus_tree.cpp:95-104] [IndexNodeHandler::set_parent_page_num] *)
Definition set_parent_page_num p par : MM unit :=
  n ← get_node p;
  append_log_entry (SetParentPage p par (parent_page_num n));;
  put_node p (set_parent n par).

Definition handler_insert_items p index its : MM unit :=
  n ← get_node p; h ← header;
  n' ← of_option (recover_insert_items h n index its);
  put_node p n'.

Definition handler_remove_items p index num : MM unit :=
  n ← get_node p;
  n' ← of_option (recover_remove_items n index num);
  put_node p n'.

(** [src/src/observer/storage/index/bplus_tree.cpp:202-212] [LeafIndexNodeHandler::init_empty] *)
Definition leaf_init_empty p : MM unit :=
  append_log_entry (LeafInitEmpty p);;
  put_node p (LeafNode BP_INVALID_PAGE_NUM BP_INVALID_PAGE_NUM []).

(** [src/src/observer/storage/index/bplus_tree.cpp:214-225] [LeafIndexNodeHandler::set_next_page] *)
Definition leaf_set_next_page p page_num : MM unit :=
  '(par, nx, l) ← get_leaf p;
  append_log_entry (LeafSetNextPage p page_num nx);;
  put_node p (LeafNode par page_num l).

(** [src/src/observer/storage/index/bplus_tree.cpp:255-269] [LeafIndexNodeHandler::insert] *)
Definition leaf_insert p index key (value : RID) : MM unit :=
  let item := LeafItems [(key, value)] in
  append_log_entry (NodeInsert p index item);;
  handler_insert_items p index item.

(** [src/src/observer/storage/index/bplus_tree.cpp:271-284] [LeafIndexNodeHandler::remove] *)
Definition leaf_remove p index : MM unit :=
  n ← get_node p;
  assert_ ((0 <=? index) && (index <? size n));;
  its ← of_option (items_at n index 1);
  append_log_entry (NodeRemove p index its);;
  handler_remove_items p index 1.

(** [src/src/observer/storage/index/bplus_tree.cpp:286-296] [LeafIndexNodeHandler::remove] by key *)
Definition leaf_remove_key p key : MM Z :=
  '(_, _, l) ← get_leaf p;
  '(index, found) ← of_option (leaf_lookup cmp l key);
  if found : bool then leaf_remove p index;; mret 1 else mret 0.

(** [src/src/observer/storage/index/bplus_tree.cpp:352-365] [LeafIndexNodeHandler::append] *)
Definition leaf_append p (its : Items A) : MM unit :=
  n ← get_node p;
  append_log_entry (NodeInsert p (size n) its);;
  handler_insert_items p (size n) its.

(** [src/src/observer/storage/index/bplus_tree.cpp:367-370] [LeafIndexNodeHandler::preappend] *)
Definition leaf_preappend p (its : Items A) : MM unit :=
  match its with
  | LeafItems [(key, value)] => leaf_insert p 0 key value
  | _ => stuck
  end.

(** [src/src/observer/storage/index/bplus_tree.cpp:298-317] [LeafIndexNodeHandler::move_half_to] *)
Definition leaf_move_half_to p (other : Z) : MM unit :=
  n ← get_node p;
  let move_index := Z.quot (size n) 2 in
  let move_item_num := size n - move_index in
  its ← of_option (items_at n move_index move_item_num);
  ignore (leaf_append other its);;
  append_log_entry (NodeRemove p move_index its);;
  handler_remove_items p move_index move_item_num.

(** [src/src/observer/storage/index/bplus_tree.cpp:318-323] [LeafIndexNodeHandler::move_first_to_end] *)
Definition leaf_move_first_to_end p (other : Z) : MM unit :=
  n ← get_node p;
  its ← of_option (items_at n 0 1);
  ignore (leaf_append other its);;
  leaf_remove p 0.

(** [src/src/observer/storage/index/bplus_tree.cpp:325-331] [LeafIndexNodeHandler::move_last_to_front] *)
Definition leaf_move_last_to_front p (other : Z) : MM unit :=
  n ← get_node p;
  its ← of_option (items_at n (size n - 1) 1);
  ignore (leaf_preappend other its);;
  ignore (leaf_remove p (size n - 1)).

(** [src/src/observer/storage/index/bplus_tree.cpp:335-350] [LeafIndexNodeHandler::move_to] *)
Definition leaf_move_to p (other : Z) : MM unit :=
  '(_, nx, l) ← get_leaf p;
  ignore (leaf_append other (LeafItems l));;
  ignore (leaf_set_next_page other nx);;
  append_log_entry (NodeRemove p 0 (LeafItems l));;
  handler_remove_items p 0 (Z.of_nat (length l)).

(** [src/src/observer/storage/index/bplus_tree.cpp:478-486] [InternalIndexNodeHandler::init_empty] *)
Definition internal_init_empty p : MM unit :=
  append_log_entry (InternalInitEmpty p);;
  put_node p (InternalNode BP_INVALID_PAGE_NUM []).

(** [src/src/observer/storage/index/bplus_tree.cpp:487-502] [InternalIndexNodeHandler::create_new_root]
    the two slots are written and the size grows by two *)
Definition create_new_root p (first_page_num : Z) key (page_num : Z) : MM unit :=
  append_log_entry (InternalCreateNewRoot p first_page_num key page_num);;
  '(par, l) ← get_internal p;
  match l with
  | [] => put_node p (InternalNode par [(zero_key, first_page_num); (key, page_num)])
  | _ => stuck
  end.

(** [src/src/observer/storage/index/bplus_tree.cpp:512-528] [InternalIndexNodeHandler::insert] *)
Definition internal_insert p key (page_num : Z) : MM unit :=
  '(_, l) ← get_internal p;
  '(_, insert_position) ← of_option (internal_lookup cmp l key);
  let item := InternalItems [(key, page_num)] in
  append_log_entry (NodeInsert p insert_position item);;
  handler_insert_items p insert_position item.

(** [src/src/observer/storage/index/bplus_tree.cpp:604-608] [InternalIndexNodeHandler::value_at] *)
Definition internal_value_at p index : MM Z :=
  '(_, l) ← get_internal p;
  '(_, v) ← of_option (at_z l index);
  mret v.

(** [src/src/observer/storage/index/bplus_tree.cpp:593-602] [InternalIndexNodeHandler::set_key_at] *)
Definition set_key_at p index key : MM unit :=
  '(par, l) ← get_internal p;
  '(old, v) ← of_option (at_z l index);
  append_log_entry (InternalUpdateKey p index key old);;
  l' ← of_option (set_z l index (key, v));
  put_node p (InternalNode par l').

(** [src/src/observer/storage/index/bplus_tree.cpp:620-632] [InternalIndexNodeHandler::remove] *)
Definition internal_remove p index : MM unit :=
  n ← get_node p;
  assert_ ((0 <=? index) && (index <? size n));;
  its ← of_option (items_at n index 1);
  append_log_entry (NodeRemove p index its);;
  handler_remove_items p index 1.

(** The loop that makes [p] the parent of the moved children. *)
Fixpoint adopt p (its : list (Key A * Z)) : MM unit :=
  match its with
  | [] => mret tt
  | (_, child) :: its =>
      get_page child;;
      ignore (set_parent_page_num child p);;
      adopt p its
  end.

(** [src/src/observer/storage/index/bplus_tree.cpp:684-718] [InternalIndexNodeHandler::insert_items] *)
Definition insert_items p index (its : Items A) : MM unit :=
  append_log_entry (NodeInsert p index its);;
  handler_insert_items p index its;;
  match its with
  | InternalItems l => adopt p l
  | LeafItems _ => stuck
  end.

(** [src/src/observer/storage/index/bplus_tree.cpp:723-731] [InternalIndexNodeHandler::append] *)
Definition internal_append p its : MM unit := n ← get_node p; insert_items p (size n) its.
(** [src/src/observer/storage/index/bplus_tree.cpp:733-736] [InternalIndexNodeHandler::preappend] *)
Definition internal_preappend p its : MM unit := insert_items p 0 its.

(** [src/src/observer/storage/index/bplus_tree.cpp:533-550] [InternalIndexNodeHandler::move_half_to] *)
Definition internal_move_half_to p (other : Z) : MM unit :=
  n ← get_node p;
  let move_index := Z.quot (size n) 2 in
  let move_num := size n - move_index in
  its ← of_option (items_at n move_index move_num);
  internal_append other its;;
  append_log_entry (NodeRemove p move_index its);;
  handler_remove_items p move_index move_num.

(** [src/src/observer/storage/index/bplus_tree.cpp:634-650] [InternalIndexNodeHandler::move_to] *)
Definition internal_move_to p (other : Z) : MM unit :=
  n ← get_node p;
  its ← of_option (items_at n 0 (size n));
  internal_append other its;;
  append_log_entry (NodeRemove p 0 its);;
  handler_remove_items p 0 (size n).

(** [src/src/observer/storage/index/bplus_tree.cpp:652-662] [InternalIndexNodeHandler::move_first_to_end] *)
Definition internal_move_first_to_end p (other : Z) : MM unit :=
  n ← get_node p;
  its ← of_option (items_at n 0 1);
  internal_append other its;;
  internal_remove p 0.

(** [src/src/observer/storage/index/bplus_tree.cpp:664-682] [InternalIndexNodeHandler::move_last_to_front] *)
Definition internal_move_last_to_front p (other : Z) : MM unit :=
  n ← get_node p;
  its ← of_option (items_at n (size n - 1) 1);
  internal_preappend other its;;
  append_log_entry (NodeRemove p (size n - 1) its);;
  handler_remove_items p (size n - 1) 1.

(** The operations the tree's function templates use of a node type. *)
Record IndexNodeHandlerType := mkHandlerType {
  ht_init_empty         : Z → MM unit;
  ht_move_half_to       : Z → Z → MM unit;
  ht_move_to            : Z → Z → MM unit;
  ht_move_first_to_end  : Z → Z → MM unit;
  ht_move_last_to_front : Z → Z → MM unit;
}.
Definition LeafIndexNodeHandler : IndexNodeHandlerType :=
  mkHandlerType leaf_init_empty leaf_move_half_to leaf_move_to leaf_move_first_to_end
    leaf_move_last_to_front.
Definition InternalIndexNodeHandler : IndexNodeHandlerType :=
  mkHandlerType internal_init_empty internal_move_half_to internal_move_to
    internal_move_first_to_end internal_move_last_to_front.

(** *** The tree's operations *)

Definition FIRST_INDEX_PAGE : Z := 1.

(** [src/src/observer/storage/index/bplus_tree.cpp:1291-1294] [BplusTreeHandler::is_empty] *)
Definition is_empty st : bool := root_page (file_header_ st) =? BP_INVALID_PAGE_NUM.

(** [src/src/observer/storage/index/bplus_tree.cpp:1582-1596] [BplusTreeHandler::update_root_page_num_locked]
    a header page that cannot be fetched is a null frame *)
Definition update_root_page_num_locked (root_page_num : Z) : MM unit :=
  (λ st, match page_fault st with Err _ _ => Stuck | r => r end);;
  push_memo (mkMemoItem LATCH_PIN (Some FIRST_INDEX_PAGE));;
  latch FIRST_INDEX_PAGE LATCH_EXCLUSIVE;;
  st ← gets (λ st, st);
  append_log_entry (UpdateRootPage FIRST_INDEX_PAGE root_page_num (root_page (header_page st)));;
  modify (λ st, set_headers st (with_root (header_page st) root_page_num)
                  (with_root (file_header_ st) root_page_num) true).

(** [src/src/observer/storage/index/bplus_tree.cpp:1358-1381] [BplusTreeHandler::crabing_protocal_fetch_page] *)
Definition crabing_protocal_fetch_page (op : BplusTreeOperationType) p (is_root_node : bool) : MM unit :=
  st ← gets (λ st, st);
  let memo_point := length (memo st) in
  get_page p;;
  latch p (match op with OP_READ => LATCH_SHARED | _ => LATCH_EXCLUSIVE end);;
  n ← get_node p; h ← header;
  if is_safe h n op is_root_node then release_to memo_point else mret tt.

(** The descent from an internal page; [fuel] bounds the depth. *)
Fixpoint find_leaf_loop (fuel : nat) (op : BplusTreeOperationType)
    (child_page_getter : list (Key A * Z) → option Z) p : MM Z :=
  n ← get_node p;
  match n with
  | LeafNode _ _ _ => mret p
  | InternalNode _ l =>
      match fuel with
      | O => stuck
      | S fuel =>
          next_page_id ← of_option (child_page_getter l);
          crabing_protocal_fetch_page op next_page_id false;;
          find_leaf_loop fuel op child_page_getter next_page_id
      end
  end.

(** A bound on the depth of the tree. *)
Definition depth_fuel st : nat := S (base.size (pages st)).

(** [src/src/observer/storage/index/bplus_tree.cpp:1316-1356] [BplusTreeHandler::find_leaf_internal] *)
Definition find_leaf_internal (op : BplusTreeOperationType)
    (child_page_getter : list (Key A * Z) → option Z) : MM Z :=
  latch_root (match op with OP_READ => LATCH_SHARED | _ => LATCH_EXCLUSIVE end);;
  st ← gets (λ st, st);
  if is_empty st then throw RC_EMPTY
  else
    crabing_protocal_fetch_page op (root_page (file_header_ st)) true;;
    find_leaf_loop (depth_fuel st) op child_page_getter (root_page (file_header_ st)).

(** [src/src/observer/storage/index/bplus_tree.cpp:1296-1304] [BplusTreeHandler::find_leaf] *)
Definition find_leaf (op : BplusTreeOperationType) key : MM Z :=
  find_leaf_internal op (λ l, '(i, _) ← internal_lookup cmp l key; snd <$> at_z l i).

(** [src/src/observer/storage/index/bplus_tree.cpp:1306-1314] [BplusTreeHandler::left_most_page] *)
Definition left_most_page : MM Z := find_leaf_internal OP_READ (λ l, snd <$> at_z l 0).

(** [src/src/observer/storage/index/bplus_tree.cpp:1530-1554] [BplusTreeHandler::split] *)
Definition split (T : IndexNodeHandlerType) p : MM Z :=
  new ← allocate_page;
  latch new LATCH_EXCLUSIVE;;
  ht_init_empty T new;;
  old_node ← get_node p;
  ignore (set_parent_page_num new (parent_page_num old_node));;
  ignore (ht_move_half_to T p new);;
  mret new.

(** [src/src/observer/storage/index/bplus_tree.cpp:1424-1525] [BplusTreeHandler::insert_entry_into_parent] *)
Fixpoint insert_entry_into_parent (fuel : nat) p (new : Z) key : MM unit :=
  match fuel with
  | O => stuck
  | S fuel =>
      n ← get_node p;
      let par := parent_page_num n in
      if par =? BP_INVALID_PAGE_NUM then
        root ← pool_allocate_page;
        ignore (internal_init_empty root);;
        ignore (create_new_root root p key new);;
        ignore (set_parent_page_num p root);;
        ignore (set_parent_page_num new root);;
        update_root_page_num_locked root
      else
        get_page par;;
        pn ← get_node par; h ← header;
        if size pn <? max_size h pn then
          ignore (internal_insert par key new);;
          ignore (set_parent_page_num new par)
        else
          new_parent ← split InternalIndexNodeHandler par;
          nn ← get_node new_parent;
          first ← of_option (key_at nn 0);
          (if 0 <? cmp key first then
             ignore (internal_insert new_parent key new);;
             ignore (set_parent_page_num new new_parent)
           else
             ignore (internal_insert par key new);;
             ignore (set_parent_page_num new par));;
          nn ← get_node new_parent;
          first ← of_option (key_at nn 0);
          insert_entry_into_parent fuel par new_parent first
  end.

(** [src/src/observer/storage/index/bplus_tree.cpp:1383-1422] [BplusTreeHandler::insert_entry_into_leaf_node] *)
Definition insert_entry_into_leaf_node p key (rid : RID) : MM unit :=
  '(_, _, l) ← get_leaf p;
  '(insert_position, exists_) ← of_option (leaf_lookup cmp l key);
  if exists_ : bool then throw RC_RECORD_DUPLICATE_KEY
  else
    n ← get_node p; h ← header;
    if size n <? max_size h n then ignore (leaf_insert p insert_position key rid)
    else
      st ← gets (λ st, st);
      new ← split LeafIndexNodeHandler p;
      '(par, nx, l) ← get_leaf p;
      ignore (leaf_set_next_page new nx);;
      ignore (set_parent_page_num new par);;
      ignore (leaf_set_next_page p new);;
      (if insert_position <? Z.of_nat (length l) then ignore (leaf_insert p insert_position key rid)
       else ignore (leaf_insert new (insert_position - Z.of_nat (length l)) key rid));;
      nn ← get_node new;
      first ← of_option (key_at nn 0);
      insert_entry_into_parent (depth_fuel st) p new first.

(** [src/src/observer/storage/index/bplus_tree.cpp:1598-1624] [BplusTreeHandler::create_new_tree] *)
Definition create_new_tree key (rid : RID) : MM unit :=
  st ← gets (λ st, st);
  if negb (root_page (file_header_ st) =? BP_INVALID_PAGE_NUM) then throw RC_INTERNAL
  else
    p ← allocate_page;
    ignore (leaf_init_empty p);;
    ignore (leaf_insert p 0 key rid);;
    update_root_page_num_locked p.

(** [src/src/observer/storage/index/bplus_tree.cpp:1717-1757] [BplusTreeHandler::adjust_root] *)
Definition adjust_root p : MM unit :=
  n ← get_node p;
  if is_leaf n && (0 <? size n) then mret tt
  else
    new_root ← (if is_leaf n then assert_ (size n =? 0);; mret BP_INVALID_PAGE_NUM
                else
                  child ← internal_value_at p 0;
                  get_page child;;
                  ignore (set_parent_page_num child BP_INVALID_PAGE_NUM);;
                  mret child);
    update_root_page_num_locked new_root;;
    dispose_page p.

(** [src/src/observer/storage/index/bplus_tree.cpp:1887-1918] [BplusTreeHandler::redistribute] *)
Definition redistribute (T : IndexNodeHandlerType) (neighbor p par index : Z) : MM unit :=
  if index =? 0 then
    ignore (ht_move_first_to_end T neighbor p);;
    nn ← get_node neighbor;
    k ← of_option (key_at nn 0);
    set_key_at par (index + 1) k
  else
    ignore (ht_move_last_to_front T neighbor p);;
    n ← get_node p;
    k ← of_option (key_at n 0);
    set_key_at par index k.

(** [src/src/observer/storage/index/bplus_tree.cpp:1840-1885] [BplusTreeHandler::coalesce] [rec] is
    the recursive call on the parent *)
Definition coalesce (rec : Z → MM unit) (T : IndexNodeHandlerType) (neighbor p par index : Z) : MM unit :=
  let '(left_frame, right_frame, index) :=
    if index =? 0 then (p, neighbor, index + 1) else (neighbor, p, index) in
  internal_remove par index;;
  ht_move_to T right_frame left_frame;;
  ln ← get_node left_frame;
  (if is_leaf ln then
     '(_, nx, _) ← get_leaf right_frame;
     ignore (leaf_set_next_page left_frame nx)
   else mret tt);;
  dispose_page right_frame;;
  rec par.

(** [src/src/observer/storage/index/bplus_tree.cpp:1759-1826] [BplusTreeHandler::coalesce_or_redistribute] *)
Fixpoint coalesce_or_redistribute (fuel : nat) (T : IndexNodeHandlerType) p : MM unit :=
  match fuel with
  | O => stuck
  | S fuel =>
      n ← get_node p; h ← header;
      if min_size h n <=? size n then mret tt
      else
        let par := parent_page_num n in
        if BP_INVALID_PAGE_NUM =? par then
          if 1 <? size n then mret tt else ignore (adjust_root p)
        else
          get_page par;;
          '(_, pl) ← get_internal par;
          k ← of_option (key_at n (size n - 1));
          '(index, _) ← of_option (internal_lookup cmp pl k);
          v ← internal_value_at par index;
          assert_ (v =? p);;
          neighbor ← internal_value_at par (if index =? 0 then 1 else index - 1);
          get_page neighbor;;
          latch neighbor LATCH_EXCLUSIVE;;
          nn ← get_node neighbor;
          if max_size h n <? size n + size nn
          then redistribute T neighbor p par index
          else coalesce (coalesce_or_redistribute fuel InternalIndexNodeHandler) T neighbor p par index
  end.

(** [src/src/observer/storage/index/bplus_tree.cpp:1920-1940] [BplusTreeHandler::delete_entry_internal] *)
Definition delete_entry_internal p key : MM unit :=
  remove_count ← leaf_remove_key p key;
  if remove_count =? 0 then throw RC_RECORD_NOT_EXIST
  else
    n ← get_node p; h ← header;
    if min_size h n <=? size n then mret tt
    else
      st ← gets (λ st, st);
      coalesce_or_redistribute (depth_fuel st) LeafIndexNodeHandler p.

(** [src/src/observer/storage/index/bplus_tree_log_entry.cpp:326-337]
    [NormalOperationLogEntryHandler::rollback] runs the base class's item operations, whose
    [__item_at] is a null pointer: only a removal at the end of the node moves no bytes *)
Definition base_recover_remove_items p index num : MM unit :=
  n ← get_node p;
  if index <? size n - num then stuck else handler_remove_items p index num.
Definition base_recover_insert_items p (its : Items A) : MM unit :=
  match its with
  | LeafItems [] | InternalItems [] => mret tt
  | _ => stuck
  end.
Definition items_num (its : Items A) : Z :=
  match its with
  | LeafItems l => Z.of_nat (length l)
  | InternalItems l => Z.of_nat (length l)
  end.

(** The [rollback] of each entry handler. *)
Definition entry_rollback (e : LogEntry A) : MM unit :=
  match e with
  | InitHeaderPage _ _ | LeafInitEmpty _ | InternalInitEmpty _ | InternalCreateNewRoot _ _ _ _ =>
      mret tt
  | UpdateRootPage _ _ old => update_root_page_num_locked old
  | SetParentPage p _ old => set_parent_page_num p old
  | LeafSetNextPage p _ old => ignore (leaf_set_next_page p old)
  | InternalUpdateKey p index _ old => set_key_at p index old
  | NodeInsert p index its => base_recover_remove_items p index (items_num its)
  | NodeRemove p _ its => base_recover_insert_items p its
  end.

(** [src/src/observer/storage/index/bplus_tree.cpp:1563-1580] [BplusTreeHandler::recover_init_header_page] *)
Definition recover_init_header_page (h : IndexFileHeader) : MM unit :=
  modify (λ st, set_headers st h h false).

(** [src/src/observer/storage/index/bplus_tree_log_entry.cpp:339-355] the [redo] of each entry
    handler *)
Definition entry_redo (e : LogEntry A) : MM unit :=
  match e with
  | InitHeaderPage _ h => recover_init_header_page h
  | UpdateRootPage _ root _ => update_root_page_num_locked root
  | SetParentPage p par _ => set_parent_page_num p par
  | LeafInitEmpty p => leaf_init_empty p
  | LeafSetNextPage p nx _ => ignore (leaf_set_next_page p nx)
  | InternalInitEmpty p => internal_init_empty p
  | InternalCreateNewRoot p first key page_num => create_new_root p first key page_num
  | InternalUpdateKey p index key _ => set_key_at p index key
  | NodeInsert p index its => handler_insert_items p index its
  | NodeRemove p index its => handler_remove_items p index (items_num its)
  end.

(** The page of an entry's frame. *)
Definition entry_frame (e : LogEntry A) : Z :=
  match e with
  | InitHeaderPage p _ | UpdateRootPage p _ _ | SetParentPage p _ _ | LeafInitEmpty p
  | LeafSetNextPage p _ _ | InternalInitEmpty p | InternalCreateNewRoot p _ _ _
  | InternalUpdateKey p _ _ _ | NodeInsert p _ _ | NodeRemove p _ _ => p
  end.

Fixpoint seq_all (l : list (MM unit)) : MM unit :=
  match l with [] => mret tt | m :: l => m;; seq_all l end.

Definition set_frame_lsns (lsn : Z) (es : list (LogEntry A)) (m : gmap Z Z) : gmap Z Z :=
  foldr (λ e m, <[entry_frame e := lsn]> m) m es.

(** [src/src/observer/storage/index/bplus_tree_log.cpp:103-131] [BplusTreeLogger::commit] [lsn] is
    the number the log handler gives the record, [None] when it does not accept it: then the changes stay without
    a record, since [BplusTreeMiniTransaction::~BplusTreeMiniTransaction] drops the code; the entries go with the logger *)
Definition commit (lsn : option Z) : MM unit := modify (λ st,
  match entries st, lsn with
  | [], _ => st
  | _, None => set_entries st []
  | es, Some lsn => set_entries (set_lsns (set_wal st (wal st ++ [(lsn, es)])) (set_frame_lsns lsn es (lsns st))) []
  end).

(** [src/src/observer/storage/index/bplus_tree_log.cpp:133-145] [BplusTreeLogger::rollback] *)
Definition rollback : MM unit :=
  st ← gets (λ st, st);
  modify (λ st, set_need_log st false);;
  seq_all ((λ e, ignore (entry_rollback e)) <$> reverse (entries st));;
  modify (λ st, set_need_log (set_entries st []) true).

(** [src/src/observer/storage/index/bplus_tree_log.cpp:185-233] [BplusTreeLogger::__redo] over the
    entries of one record *)
Definition redo_record (lsn : Z) (es : list (LogEntry A)) : MM unit :=
  modify (λ st, set_need_log st false);;
  st ← gets (λ st, st);
  let todo := filter (λ e, lsns st !!! entry_frame e < lsn) es in
  seq_all (entry_redo <$> todo);;
  modify (λ st, set_need_log (set_lsns st (set_frame_lsns lsn todo (lsns st))) true).

(** [src/src/observer/storage/index/bplus_tree_log.cpp:271-282]
    [BplusTreeMiniTransaction::~BplusTreeMiniTransaction] runs [body] in a mini-transaction that
    commits or rolls back by the result; the members are destroyed afterwards *)
Definition mini_transaction (lsn : option Z) (body : MM unit) st : option (RC * St) :=
  let begin := set_entries (set_disposed (set_memo st []) []) [] in
  match body begin with
  | Stuck => None
  | Ok _ st => match (commit lsn;; release) st with Ok _ st => Some (RC_SUCCESS, st) | _ => None end
  | Err rc st => match (rollback;; release) st with Ok _ st => Some (rc, st) | _ => None end
  end.

(** [src/src/observer/storage/index/bplus_tree.cpp:1641-1686] [BplusTreeHandler::insert_entry] *)
Definition insert_entry (lsn : option Z) (user_key : Key A) (rid : RID) : St → option (RC * St) :=
  mini_transaction lsn (
    let key := make_key user_key rid in
    st ← gets (λ st, st);
    if is_empty st then create_new_tree key rid
    else
      p ← find_leaf OP_INSERT key;
      insert_entry_into_leaf_node p key rid).

(** A result code the caller replaces by another. *)
Definition map_err {T} (f : RC → RC) (m : MM T) : MM T := λ st,
  match m st with Err rc st => Err (f rc) st | r => r end.

(** [src/src/observer/storage/index/bplus_tree.cpp:1942-1975] [BplusTreeHandler::delete_entry] *)
Definition delete_entry (lsn : option Z) (user_key : Key A) (rid : RID) : St → option (RC * St) :=
  mini_transaction lsn (
    let key := make_key user_key rid in
    p ← map_err (λ rc, if decide (rc = RC_EMPTY) then RC_RECORD_NOT_EXIST else rc)
          (find_leaf OP_DELETE key);
    delete_entry_internal p key).

End tree.
