(* ===== verification/BplusGhost.v ===== *)
(** * Ghost trees: what the pages of a B+ tree mean

    The pages of the file are described by a tree of page numbers, separator keys and items.
    Its in-order sequence [marks] lists items and separators together; the order of the tree is
    one sortedness statement about that sequence, which splitting, merging and rotating nodes
    leave unchanged (or change by one separator).  A [ctx] is the path from a node up to the
    root, innermost frame first. *)
From stdpp Require Import sorting.
From S2P Require Import Prelude Rc BplusKey PageAlloc LowerBound BplusTree.

(** ** Trees *)
#[warnings="-register-all"]
Inductive tree {A : Type} :=
| TLeaf (p : Z) (l : list (Key A * RID))
| TNode (p : Z) (kids : list (Key A * tree)).
#[global] Arguments tree : clear implicits.
#[global] Arguments TLeaf {A}.
#[global] Arguments TNode {A}.

(** An element of the in-order sequence. *)
Inductive mark {A : Type} := MItem (i : Key A * RID) | MSep (k : Key A).
#[global] Arguments mark : clear implicits.
#[global] Arguments MItem {A}.
#[global] Arguments MSep {A}.

Section ghost.
Context {A : Type}.
Implicit Types (t : tree A) (kids : list (Key A * tree A)) (p par : Z) (k : Key A).
Implicit Types (pgs : gmap Z (Node A)).

Lemma tree_ind' (P : tree A → Prop) :
  (∀ p l, P (TLeaf p l)) → (∀ p kids, Forall (λ kt, P kt.2) kids → P (TNode p kids)) → ∀ t, P t.
Proof.
  intros HL HN. fix IH 1. intros [p l|p kids]; [apply HL|]. apply HN.
  induction kids as [|[k t] kids IHk]; constructor; [apply IH | apply IHk].
Qed.

Definition root t : Z := match t with TLeaf p _ => p | TNode p _ => p end.

Fixpoint marks t : list (mark A) :=
  match t with
  | TLeaf _ l => MItem <$> l
  | TNode _ kids => tail (concat (map (λ kt, MSep kt.1 :: marks kt.2) kids))
  end.

Fixpoint pids t : list Z :=
  match t with
  | TLeaf p _ => [p]
  | TNode p kids => p :: concat (map (λ kt, pids kt.2) kids)
  end.

Fixpoint leaves t : list Z :=
  match t with
  | TLeaf p _ => [p]
  | TNode p kids => concat (map (λ kt, leaves kt.2) kids)
  end.

(** The items a node keeps for its children. *)
Definition kitems kids : list (Key A * Z) := (λ kt, (kt.1, root kt.2)) <$> kids.
Definition kmarks kids : list (mark A) := concat (map (λ kt, MSep kt.1 :: marks kt.2) kids).
Definition kpids kids : list Z := concat (map (λ kt, pids kt.2) kids).
Definition kleaves kids : list Z := concat (map (λ kt, leaves kt.2) kids).

(** The first keys along the left spine, which a search never reads, repeat the separator. *)
Fixpoint left_keys k t : Prop :=
  match t with
  | TLeaf _ _ => True
  | TNode _ [] => True
  | TNode _ ((k0, t0) :: _) => k0 = k ∧ left_keys k t0
  end.

Fixpoint keys_ok t : Prop :=
  match t with
  | TLeaf _ _ => True
  | TNode _ kids =>
      foldr (λ kt P, keys_ok kt.2 ∧ P) True kids ∧ Forall (λ kt, left_keys kt.1 kt.2) (tail kids)
  end.

(** All leaves are at depth [h]. *)
Fixpoint bal (h : nat) t {struct t} : Prop :=
  match t with
  | TLeaf _ _ => h = O
  | TNode _ kids => match h with O => False | S h => foldr (λ kt P, bal h kt.2 ∧ P) True kids end
  end.

(** No node overflows, and nodes below the root are at least half full, rounded down: a node
    of odd capacity that splits and receives the new item on its right is left with one item
    less than [min_size]. *)
Definition min_of (max : Z) : Z := Z.quot max 2.

Fixpoint occ (hd : IndexFileHeader) t {struct t} : Prop :=
  match t with
  | TLeaf _ l => min_of (leaf_max_size hd) ≤ Z.of_nat (length l) ≤ leaf_max_size hd
  | TNode _ kids =>
      min_of (internal_max_size hd) ≤ Z.of_nat (length kids) ≤ internal_max_size hd ∧
      foldr (λ kt P, occ hd kt.2 ∧ P) True kids
  end.

Definition root_occ (hd : IndexFileHeader) t : Prop :=
  match t with
  | TLeaf _ l => 1 ≤ Z.of_nat (length l) ≤ leaf_max_size hd
  | TNode _ kids =>
      2 ≤ Z.of_nat (length kids) ≤ internal_max_size hd ∧ Forall (λ kt, occ hd kt.2) kids
  end.

(** The pages hold the tree, below a parent page. *)
Fixpoint repr pgs par t : Prop :=
  match t with
  | TLeaf p l => ∃ nx, pgs !! p = Some (LeafNode par nx l)
  | TNode p kids =>
      pgs !! p = Some (InternalNode par ((λ kt, (kt.1, root kt.2)) <$> kids)) ∧
      foldr (λ kt P, repr pgs p kt.2 ∧ P) True kids
  end.

(** The leaves are linked in order. *)
Definition next_of pgs p : option Z :=
  match pgs !! p with Some (LeafNode _ nx _) => Some nx | _ => None end.
Definition head_or (l : list Z) : Z := match l with [] => BP_INVALID_PAGE_NUM | q :: _ => q end.
Fixpoint chain pgs (ls : list Z) : Prop :=
  match ls with
  | [] => True
  | p :: rest => next_of pgs p = Some (head_or rest) ∧ chain pgs rest
  end.

Lemma min_of_bounds max : 0 ≤ max → 2 * min_of max ≤ max < 2 * min_of max + 2.
Proof.
  intros Hm. unfold min_of. rewrite Z.quot_div_nonneg by lia.
  pose proof (Z.div_mod max 2 ltac:(lia)). pose proof (Z.mod_pos_bound max 2 ltac:(lia)). lia.
Qed.

Lemma foldr_Forall {T} (f : T → Prop) (l : list T) : foldr (λ x P, f x ∧ P) True l ↔ Forall f l.
Proof. induction l as [|x l IH]; simpl; [done|]. by rewrite Forall_cons, IH. Qed.

Lemma keys_ok_node p kids :
  keys_ok (TNode p kids) ↔
  Forall (λ kt, keys_ok kt.2) kids ∧ Forall (λ kt, left_keys kt.1 kt.2) (tail kids).
Proof. simpl. by rewrite (foldr_Forall (λ kt, keys_ok kt.2)). Qed.

Lemma bal_node h p kids : bal (S h) (TNode p kids) ↔ Forall (λ kt, bal h kt.2) kids.
Proof. simpl. by rewrite (foldr_Forall (λ kt, bal h kt.2)). Qed.

Lemma occ_node hd p kids :
  occ hd (TNode p kids) ↔
  min_of (internal_max_size hd) ≤ Z.of_nat (length kids) ≤ internal_max_size hd ∧
  Forall (λ kt, occ hd kt.2) kids.
Proof. simpl. by rewrite (foldr_Forall (λ kt, occ hd kt.2)). Qed.

Lemma repr_node pgs par p kids :
  repr pgs par (TNode p kids) ↔
  pgs !! p = Some (InternalNode par (kitems kids)) ∧ Forall (λ kt, repr pgs p kt.2) kids.
Proof. simpl. by rewrite (foldr_Forall (λ kt, repr pgs p kt.2)). Qed.

Lemma kmarks_app l1 l2 : kmarks (l1 ++ l2) = kmarks l1 ++ kmarks l2.
Proof. unfold kmarks. by rewrite map_app, concat_app. Qed.
Lemma kmarks_cons k t l : kmarks ((k, t) :: l) = MSep k :: marks t ++ kmarks l.
Proof. done. Qed.
Lemma kpids_app l1 l2 : kpids (l1 ++ l2) = kpids l1 ++ kpids l2.
Proof. unfold kpids. by rewrite map_app, concat_app. Qed.
Lemma kpids_cons k t l : kpids ((k, t) :: l) = pids t ++ kpids l.
Proof. done. Qed.
Lemma kleaves_app l1 l2 : kleaves (l1 ++ l2) = kleaves l1 ++ kleaves l2.
Proof. unfold kleaves. by rewrite map_app, concat_app. Qed.
Lemma kleaves_cons k t l : kleaves ((k, t) :: l) = leaves t ++ kleaves l.
Proof. done. Qed.
Lemma kitems_app l1 l2 : kitems (l1 ++ l2) = kitems l1 ++ kitems l2.
Proof. apply fmap_app. Qed.
Lemma kitems_length l : length (kitems l) = length l.
Proof. apply length_fmap. Qed.

Lemma kpids_elem l p : p ∈ kpids l ↔ ∃ kt, kt ∈ l ∧ p ∈ pids kt.2.
Proof.
  unfold kpids. induction l as [|[k t] l IH]; simpl; [set_solver|].
  rewrite elem_of_app, IH. set_solver.
Qed.

Lemma root_in_pids t : root t ∈ pids t.
Proof. destruct t; simpl; apply list_elem_of_here. Qed.

(** Every internal node has a child. *)
Fixpoint inhabited_kids t : Prop :=
  match t with
  | TLeaf _ _ => True
  | TNode _ kids => kids ≠ [] ∧ foldr (λ kt P, inhabited_kids kt.2 ∧ P) True kids
  end.

Lemma bal_depth t : ∀ h, bal h t → inhabited_kids t → (h < length (pids t))%nat.
Proof.
  induction t as [p l|p kids IH] using tree_ind'; intros h Hb Hi; simpl in *; [subst; lia|].
  destruct h as [|h]; [done|]. rewrite (foldr_Forall (λ kt, bal h kt.2)) in Hb.
  rewrite (foldr_Forall (λ kt, inhabited_kids kt.2)) in Hi. destruct Hi as [Hne Hi].
  destruct kids as [|[k t] kids]; [done|]. simpl. rewrite length_app.
  apply Forall_cons in IH as [IH _]. apply Forall_cons in Hb as [Hb _].
  apply Forall_cons in Hi as [Hi _]. specialize (IH h Hb Hi). simpl in IH. lia.
Qed.

(** ** Frame properties: what depends on which pages *)
Lemma repr_frame pgs pgs' t : ∀ par,
  (∀ p, p ∈ pids t → pgs' !! p = pgs !! p) → repr pgs par t → repr pgs' par t.
Proof.
  induction t as [p l|p kids IH] using tree_ind'; intros par Hf.
  - intros [nx Hp]. exists nx. rewrite Hf; [done|]. apply list_elem_of_here.
  - rewrite !repr_node. intros [Hp Hk]. split; [rewrite Hf; [done|apply list_elem_of_here]|].
    rewrite Forall_forall in IH |- *. rewrite Forall_forall in Hk. intros kt Hkt.
    apply (IH kt Hkt); [|by apply Hk]. intros q Hq. apply Hf. simpl. apply elem_of_cons. right.
    apply kpids_elem. eauto.
Qed.

Lemma repr_dom pgs par t p : repr pgs par t → p ∈ pids t → is_Some (pgs !! p).
Proof.
  revert par. induction t as [q l|q kids IH] using tree_ind'; intros par.
  - intros [nx Hq] ->%list_elem_of_singleton. eauto.
  - rewrite repr_node. intros [Hq Hk] [->|Hp]%elem_of_cons; [eauto|].
    fold (kpids kids) in Hp. apply kpids_elem in Hp as (kt & Hin & Hp).
    rewrite Forall_forall in IH, Hk. by eapply (IH kt Hin), Hp; apply Hk.
Qed.

Lemma repr_root pgs par t : repr pgs par t → ∃ n, pgs !! root t = Some n ∧ parent_page_num n = par.
Proof.
  destruct t as [p l|p kids]; [intros [nx Hp] | rewrite repr_node; intros [Hp _]]; by eexists.
Qed.

(** Changing the parent pointer of the root. *)
Lemma repr_set_parent pgs par par' t n :
  NoDup (pids t) → repr pgs par t → pgs !! root t = Some n →
  repr (<[root t := set_parent n par']> pgs) par' t.
Proof.
  destruct t as [p l|p kids]; simpl.
  - intros _ [nx Hp] Hn. simplify_eq. exists nx. by rewrite lookup_insert_eq.
  - intros [Hnp _]%NoDup_cons [Hp Hk] Hn. simplify_eq. rewrite lookup_insert_eq. split; [done|].
    rewrite (foldr_Forall (λ kt, repr pgs p kt.2)) in Hk.
    rewrite (foldr_Forall (λ kt, repr (<[p:=_]> pgs) p kt.2)).
    rewrite Forall_forall in Hk |- *. intros kt Hkt. eapply repr_frame; [|by apply Hk].
    intros q Hq. rewrite lookup_insert_ne; [done|]. intros ->. apply Hnp.
    fold (kpids kids). apply kpids_elem. eauto.
Qed.

Lemma chain_frame pgs pgs' ls :
  (∀ p, p ∈ ls → next_of pgs' p = next_of pgs p) → chain pgs ls → chain pgs' ls.
Proof.
  induction ls as [|p ls IH]; simpl; [done|]. intros Hf [Hp Hc].
  split; [rewrite Hf; [done | apply list_elem_of_here]|]. apply IH; [|done].
  intros q Hq. apply Hf. by apply list_elem_of_further.
Qed.

Lemma next_of_set_parent pgs p q n par :
  pgs !! q = Some n → next_of (<[q := set_parent n par]> pgs) p = next_of pgs p.
Proof.
  intros Hq. unfold next_of. destruct (decide (q = p)) as [->|].
  - rewrite lookup_insert_eq, Hq. by destruct n.
  - by rewrite lookup_insert_ne.
Qed.

Lemma leaves_pids t p : p ∈ leaves t → p ∈ pids t.
Proof.
  induction t as [q l|q kids IH] using tree_ind'; simpl; [done|].
  intros Hp. apply elem_of_cons. right. fold (kpids kids). apply kpids_elem.
  rewrite Forall_forall in IH.
  fold (kleaves kids) in Hp. revert Hp. unfold kleaves. clear q.
  induction kids as [|[k t] kids IHk]; simpl; [set_solver|].
  intros [Hp|Hp]%elem_of_app.
  - exists (k, t). split; [apply list_elem_of_here|]. apply (IH (k, t)); [apply list_elem_of_here | done].
  - destruct IHk as (kt & Hkt & Hq); [|done|].
    + intros x Hx. apply IH. by apply list_elem_of_further.
    + exists kt. split; [by apply list_elem_of_further | done].
Qed.

(** ** Contexts *)
Record frame := mkFr { fp : Z; fl : list (Key A * tree A); fk : Key A; fr : list (Key A * tree A) }.
Implicit Types (f : frame) (ctx : list frame).

Definition fill f t : tree A := TNode (fp f) (fl f ++ (fk f, t) :: fr f).
Fixpoint plug ctx t : tree A := match ctx with [] => t | f :: ctx => plug ctx (fill f t) end.

Definition ctx_par ctx : Z := match ctx with [] => BP_INVALID_PAGE_NUM | f :: _ => fp f end.

Fixpoint crepr pgs ctx (hole : Z) : Prop :=
  match ctx with
  | [] => True
  | f :: ctx =>
      pgs !! fp f = Some (InternalNode (ctx_par ctx) (kitems (fl f) ++ (fk f, hole) :: kitems (fr f))) ∧
      Forall (λ kt, repr pgs (fp f) kt.2) (fl f ++ fr f) ∧ crepr pgs ctx (fp f)
  end.

Fixpoint cpids ctx : list Z :=
  match ctx with [] => [] | f :: ctx => fp f :: kpids (fl f ++ fr f) ++ cpids ctx end.

Definition fpre f : list (mark A) :=
  match fl f with [] => [] | _ => tail (kmarks (fl f)) ++ [MSep (fk f)] end.
Fixpoint cpre ctx : list (mark A) := match ctx with [] => [] | f :: ctx => cpre ctx ++ fpre f end.
Fixpoint cpost ctx : list (mark A) :=
  match ctx with [] => [] | f :: ctx => kmarks (fr f) ++ cpost ctx end.

Fixpoint clpre ctx : list Z := match ctx with [] => [] | f :: ctx => clpre ctx ++ kleaves (fl f) end.
Fixpoint clpost ctx : list Z := match ctx with [] => [] | f :: ctx => kleaves (fr f) ++ clpost ctx end.

(** The first key the left spine below the hole must repeat. *)
Fixpoint req ctx : option (Key A) :=
  match ctx with
  | [] => None
  | f :: ctx => match fl f with [] => req ctx | _ => Some (fk f) end
  end.
Definition lk_opt (o : option (Key A)) t : Prop :=
  match o with Some k => left_keys k t | None => True end.

Fixpoint ckeys ctx : Prop :=
  match ctx with
  | [] => True
  | f :: ctx =>
      Forall (λ kt, keys_ok kt.2) (fl f ++ fr f) ∧
      Forall (λ kt, left_keys kt.1 kt.2) (tail (fl f) ++ fr f) ∧
      match req ctx with
      | Some k => match fl f with [] => fk f = k | (k0, t0) :: _ => k0 = k ∧ left_keys k t0 end
      | None => True
      end ∧ ckeys ctx
  end.

Fixpoint cbal (h : nat) ctx : Prop :=
  match ctx with
  | [] => True
  | f :: ctx => Forall (λ kt, bal h kt.2) (fl f ++ fr f) ∧ cbal (S h) ctx
  end.

Definition min_kids (hd : IndexFileHeader) ctx : Z :=
  match ctx with [] => 2 | _ => min_of (internal_max_size hd) end.
Fixpoint cocc (hd : IndexFileHeader) ctx : Prop :=
  match ctx with
  | [] => True
  | f :: ctx =>
      min_kids hd ctx ≤ Z.of_nat (length (fl f) + 1 + length (fr f)) ≤ internal_max_size hd ∧
      Forall (λ kt, occ hd kt.2) (fl f ++ fr f) ∧ cocc hd ctx
  end.
Definition hole_occ (hd : IndexFileHeader) ctx t : Prop :=
  match ctx with [] => root_occ hd t | _ => occ hd t end.

Lemma marks_node p kids : marks (TNode p kids) = tail (kmarks kids).
Proof. done. Qed.

Lemma marks_fill f t : marks (fill f t) = fpre f ++ marks t ++ kmarks (fr f).
Proof.
  unfold fill, fpre. rewrite marks_node, kmarks_app, kmarks_cons.
  destruct (fl f) as [|[k0 t0] L]; simpl; [done|]. by rewrite <- !app_assoc.
Qed.

Lemma marks_plug ctx : ∀ t, marks (plug ctx t) = cpre ctx ++ marks t ++ cpost ctx.
Proof.
  induction ctx as [|f ctx IH]; intros t; simpl; [by rewrite app_nil_r|].
  rewrite IH, marks_fill, <- !app_assoc. done.
Qed.

Lemma leaves_plug ctx : ∀ t, leaves (plug ctx t) = clpre ctx ++ leaves t ++ clpost ctx.
Proof.
  induction ctx as [|f ctx IH]; intros t; simpl; [by rewrite app_nil_r|].
  rewrite IH. unfold fill. change (leaves (TNode _ ?l)) with (kleaves l).
  rewrite kleaves_app, kleaves_cons, <- !app_assoc. done.
Qed.

Lemma pids_plug ctx : ∀ t, pids (plug ctx t) ≡ₚ pids t ++ cpids ctx.
Proof.
  induction ctx as [|f ctx IH]; intros t; simpl; [by rewrite app_nil_r|].
  rewrite IH. unfold fill. change (pids (TNode ?p ?l)) with (p :: kpids l).
  rewrite !kpids_app, kpids_cons. solve_Permutation.
Qed.

Lemma root_fill f t : root (fill f t) = fp f.
Proof. done. Qed.

Lemma repr_plug pgs ctx : ∀ t,
  repr pgs BP_INVALID_PAGE_NUM (plug ctx t) ↔ crepr pgs ctx (root t) ∧ repr pgs (ctx_par ctx) t.
Proof.
  induction ctx as [|f ctx IH]; intros t; cbn [plug crepr ctx_par]; [tauto|].
  rewrite IH, root_fill. unfold fill at 1. rewrite repr_node, kitems_app, !Forall_app, Forall_cons.
  unfold kitems at 2. rewrite fmap_cons. fold (kitems (fr f)). simpl. tauto.
Qed.

Lemma keys_ok_plug ctx : ∀ t,
  keys_ok (plug ctx t) ↔ ckeys ctx ∧ keys_ok t ∧ lk_opt (req ctx) t.
Proof.
  induction ctx as [|f ctx IH]; intros t; cbn [plug ckeys req]; [simpl; tauto|].
  rewrite IH. unfold fill. rewrite keys_ok_node, !Forall_app, Forall_cons. simpl.
  destruct (fl f) as [|[k0 t0] L]; simpl.
  - rewrite !Forall_nil. destruct (req ctx) as [k|]; simpl; [|tauto]. naive_solver.
  - rewrite ?Forall_app, ?Forall_cons. destruct (req ctx); simpl; tauto.
Qed.

Lemma bal_plug ctx : ∀ h t, bal (length ctx + h) (plug ctx t) ↔ cbal h ctx ∧ bal h t.
Proof.
  induction ctx as [|f ctx IH]; intros h t; cbn [plug cbal length]; [simpl; tauto|].
  replace (S (length ctx) + h)%nat with (length ctx + S h)%nat by lia.
  rewrite IH. unfold fill. rewrite bal_node, !Forall_app, Forall_cons. simpl. tauto.
Qed.

Lemma occ_plug hd ctx : ∀ t, root_occ hd (plug ctx t) ↔ cocc hd ctx ∧ hole_occ hd ctx t.
Proof.
  induction ctx as [|f ctx IH]; intros t; cbn [plug cocc hole_occ]; [tauto|].
  rewrite IH. unfold hole_occ, fill, min_kids. destruct ctx as [|f' ctx'].
  - cbn [root_occ]. rewrite !Forall_app, Forall_cons, length_app. simpl.
    replace (Z.of_nat (length (fl f) + S (length (fr f))))
      with (Z.of_nat (length (fl f) + 1 + length (fr f))) by lia. tauto.
  - rewrite occ_node, !Forall_app, Forall_cons, length_app. simpl.
    replace (Z.of_nat (length (fl f) + S (length (fr f))))
      with (Z.of_nat (length (fl f) + 1 + length (fr f))) by lia. tauto.
Qed.

Lemma hole_occ_node hd ctx p kids :
  hole_occ hd ctx (TNode p kids) ↔
  min_kids hd ctx ≤ Z.of_nat (length kids) ≤ internal_max_size hd ∧ Forall (λ kt, occ hd kt.2) kids.
Proof. destruct ctx; [done|]. unfold hole_occ, min_kids. apply occ_node. Qed.

Lemma root_plug ctx : ∀ t t', root t = root t' → root (plug ctx t) = root (plug ctx t').
Proof. induction ctx as [|f ctx IH]; intros t t' Ht; simpl; [done|]. by apply IH. Qed.

Lemma crepr_frame pgs pgs' ctx : ∀ hole,
  (∀ p, p ∈ cpids ctx → pgs' !! p = pgs !! p) → crepr pgs ctx hole → crepr pgs' ctx hole.
Proof.
  induction ctx as [|f ctx IH]; intros hole Hf; simpl; [done|]. intros (Hp & Hk & Hc).
  simpl in Hf. split; [rewrite Hf; [done | apply list_elem_of_here]|]. split.
  - rewrite Forall_forall in Hk |- *. intros kt Hkt. eapply repr_frame; [|by apply Hk].
    intros q Hq. apply Hf. apply elem_of_cons. right. apply elem_of_app. left.
    apply kpids_elem. eauto.
  - apply IH; [|done]. intros q Hq. apply Hf. apply elem_of_cons. right. apply elem_of_app. by right.
Qed.

Lemma crepr_dom pgs ctx p : ∀ hole, crepr pgs ctx hole → p ∈ cpids ctx → is_Some (pgs !! p).
Proof.
  induction ctx as [|f ctx IH]; intros hole; simpl; [set_solver|].
  intros (Hp & Hk & Hc) [->|[Hin|Hin]%elem_of_app]%elem_of_cons; [by eexists| |by eapply IH].
  apply kpids_elem in Hin as (kt & Hkt & Hin). rewrite Forall_forall in Hk.
  by eapply repr_dom, Hin; apply Hk.
Qed.

(** A page belongs to one child. *)
Lemma kpids_unique (kids : list (Key A * tree A)) kt kt' q :
  NoDup (kpids kids) → kt ∈ kids → kt' ∈ kids → q ∈ pids kt.2 → q ∈ pids kt'.2 → kt = kt'.
Proof.
  induction kids as [|[k0 t0] kids IH]; [set_solver|]. rewrite kpids_cons.
  intros (Hn & Hd & Hn')%NoDup_app [->|H1]%elem_of_cons [->|H2]%elem_of_cons Hq1 Hq2; [done| | |by apply IH].
  - exfalso. apply (Hd q); [done|]. apply kpids_elem. eauto.
  - exfalso. apply (Hd q); [done|]. apply kpids_elem. eauto.
Qed.

Lemma kpids_NoDup_elem (kids : list (Key A * tree A)) kt :
  NoDup (kpids kids) → kt ∈ kids → NoDup (pids kt.2).
Proof.
  induction kids as [|[k0 t0] kids IH]; [set_solver|]. rewrite kpids_cons.
  intros (Hn & _ & Hn')%NoDup_app [->|H]%elem_of_cons; [done | by apply IH].
Qed.
End ghost.
#[global] Arguments frame : clear implicits.
#[global] Arguments mkFr {A}.
