(* ===== verification/BplusWp.v ===== *)
(** * Running the B+ tree's primitives

    [runs m pgs e x pgs' e'] says that, with no failing page request, [m] started on pages
    [pgs] and environment [e] (headers, allocator, pages to dispose) returns [x] and leaves
    [pgs'] and [e'], whatever the latch memo and the log hold.  Each primitive has one lemma;
    a handler is run by chaining them with [runs_bind]. *)
From stdpp Require Import sorting.
From S2P Require Import Prelude Rc BplusKey PageAlloc LowerBound BplusTree BplusGhost.

(** ** Lookups *)
Section lookup.
Context {A : Type} (cmp : Key A → Key A → Z) (ok : Key A → Prop) `{!TotalCompare cmp ok}.

Definition lt_key (x y : Key A) : Prop := cmp x y < 0.

Lemma sorted_ordered {V} (l : list (Key A * V)) key :
  StronglySorted lt_key l.*1 → Forall ok l.*1 → ok key → ordered (λ item k, cmp item.1 k) l key.
Proof using Type*.
  intros Hs Hok Hkey i j x y Hij Hx Hy Hle.
  assert (Hlt : cmp x.1 y.1 < 0).
  { rewrite <- (take_drop_middle l i x Hx), fmap_app, fmap_cons in Hs.
    apply StronglySorted_app_1_r, StronglySorted_cons in Hs as [Hs _].
    rewrite Forall_forall in Hs. apply Hs. apply list_elem_of_fmap. exists y. split; [done|].
    apply list_elem_of_lookup. exists (j - S i)%nat. rewrite lookup_drop. by replace (S i + (j - S i))%nat with j by lia. }
  rewrite Forall_forall in Hok.
  assert (ok x.1) by (apply Hok, list_elem_of_fmap_2; by eapply list_elem_of_lookup_2).
  assert (ok y.1) by (apply Hok, list_elem_of_fmap_2; by eapply list_elem_of_lookup_2).
  pose proof (cmp_flip key y.1). pose proof (cmp_le_flip cmp ok key x.1).
  pose proof (cmp_le_lt_trans cmp ok key x.1 y.1). naive_solver lia.
Qed.

(** The position of a key between the smaller and the larger items. *)
Lemma splits_position {V} (l1 l2 : list (Key A * V)) key r found :
  splits (λ item k, cmp item.1 k) (l1 ++ l2) key r found →
  Forall (λ x, cmp x.1 key ≤ 0) l1 → Forall (λ x, 0 < cmp x.1 key) l2 →
  if found then ∃ l1' x, l1 = l1' ++ [x] ∧ cmp x.1 key = 0 ∧ r = Z.of_nat (length l1')
  else r = Z.of_nat (length l1) ∧ Forall (λ x, cmp x.1 key < 0) l1.
Proof.
  intros (Hr & Hlow & Hhigh & Hf) H1 H2. rewrite Forall_forall in H1, H2.
  destruct found.
  - destruct Hf as (x & Hx & Hx0).
    assert (Hrl : (Z.to_nat r < length l1)%nat).
    { destruct (decide (Z.to_nat r < length l1)%nat) as [|Hge]; [done|exfalso].
      rewrite lookup_app_r in Hx by lia.
      specialize (H2 x (list_elem_of_lookup_2 _ _ _ Hx)). lia. }
    rewrite lookup_app_l in Hx by done.
    destruct (decide (S (Z.to_nat r) = length l1)) as [Hlast|Hnl].
    + exists (take (Z.to_nat r) l1), x. rewrite <- (take_drop (Z.to_nat r) l1) at 1.
      rewrite (drop_S _ _ _ Hx), drop_ge by lia. rewrite length_take. split; [done|]. split; [done | lia].
    + exfalso. destruct (lookup_lt_is_Some_2 l1 (S (Z.to_nat r))) as [y Hy]; [lia|].
      pose proof (H1 y (list_elem_of_lookup_2 _ _ _ Hy)).
      assert (0 < cmp y.1 key); [|lia]. apply (Hhigh (S (Z.to_nat r)) y); [lia|].
      by apply lookup_app_l_Some.
  - assert (Hrl : r = Z.of_nat (length l1)).
    { destruct (Z.lt_trichotomy r (Z.of_nat (length l1))) as [Hlt|[Heq|Hgt]]; [|done|].
      - exfalso. destruct (lookup_lt_is_Some_2 l1 (Z.to_nat r)) as [y Hy]; [lia|].
        pose proof (H1 y (list_elem_of_lookup_2 _ _ _ Hy)).
        specialize (Hf y (lookup_app_l_Some _ _ _ _ Hy)). lia.
      - exfalso. rewrite length_app in Hr.
        destruct (lookup_lt_is_Some_2 l2 0) as [y Hy]; [lia|].
        pose proof (H2 y (list_elem_of_lookup_2 _ _ _ Hy)).
        assert (cmp y.1 key < 0); [|lia]. apply (Hlow (length l1) y); [lia|].
        rewrite lookup_app_r by lia. by rewrite Nat.sub_diag. }
    split; [done|]. rewrite Forall_forall. intros x Hx.
    apply list_elem_of_lookup in Hx as [i Hi]. apply (Hlow i x).
    + apply lookup_lt_Some in Hi. lia.
    + by apply lookup_app_l_Some.
Qed.

Lemma at_z_middle {V} (l1 l2 : list V) x : at_z (l1 ++ x :: l2) (Z.of_nat (length l1)) = Some x.
Proof.
  unfold at_z. rewrite (proj2 (Z.leb_le _ _)) by lia. rewrite Nat2Z.id. by apply list_lookup_middle.
Qed.

(** The child that a key belongs to, and where a new separator goes. *)
Lemma internal_lookup_spec (x0 : Key A * Z) l1 l2 key :
  StronglySorted lt_key (l1 ++ l2).*1 → Forall ok (l1 ++ l2).*1 → ok key →
  Forall (λ x, cmp x.1 key ≤ 0) l1 → Forall (λ x, 0 < cmp x.1 key) l2 →
  ∃ pos, internal_lookup cmp (x0 :: l1 ++ l2) key = Some (Z.of_nat (length l1), pos) ∧
    (Forall (λ x, cmp x.1 key ≠ 0) l1 → pos = Z.of_nat (S (length l1))).
Proof using Type*.
  intros Hs Hok Hkey H1 H2. unfold internal_lookup. cbn [length].
  rewrite (proj2 (Z.eqb_neq _ 0)) by lia. change (drop 1 (x0 :: l1 ++ l2)) with (l1 ++ l2).
  destruct (lower_bound_ordered (λ item k, cmp item.1 k) (l1 ++ l2) key) as (r & found & -> & Hsp).
  { by apply sorted_ordered. }
  simpl. pose proof (splits_position _ _ _ _ _ Hsp H1 H2) as Hpos. destruct found.
  - destruct Hpos as (l1' & x & -> & Hx & ->). rewrite !length_app in *. simpl.
    rewrite (proj2 (Z.leb_gt _ _)) by lia.
    replace (x0 :: (l1' ++ [x]) ++ l2) with ((x0 :: l1') ++ x :: l2) by (simpl; by rewrite <- app_assoc).
    replace (Z.of_nat (length l1') + 1) with (Z.of_nat (length (x0 :: l1'))) by (simpl; lia).
    rewrite at_z_middle. simpl.
    assert (ok x.1).
    { rewrite Forall_forall in Hok. apply Hok. rewrite !fmap_app. simpl. set_solver. }
    assert (cmp key x.1 = 0) by (by apply (cmp_eq_sym cmp ok)).
    rewrite (proj2 (Z.ltb_ge _ _)) by lia. eexists. split; [do 2 f_equal; lia|].
    intros [_ Hne]%Forall_app. apply Forall_cons in Hne as [Hne _]. done.
  - destruct Hpos as [-> Hlt]. rewrite length_app. destruct (decide (l2 = [])) as [->|Hne].
    + simpl. rewrite (proj2 (Z.leb_le _ _)) by lia. eexists. split; [do 2 f_equal; lia|]. lia.
    + destruct l2 as [|y l2]; [done|]. simpl. rewrite (proj2 (Z.leb_gt _ _)) by lia.
      replace (x0 :: l1 ++ y :: l2) with ((x0 :: l1) ++ y :: l2) by done.
      replace (Z.of_nat (length l1) + 1) with (Z.of_nat (length (x0 :: l1))) by (simpl; lia).
      rewrite at_z_middle. simpl. apply Forall_cons in H2 as [Hy _].
      assert (ok y.1).
      { rewrite Forall_forall in Hok. apply Hok. rewrite fmap_app. simpl. set_solver. }
      assert (cmp key y.1 < 0) by (by apply (cmp_flip (cmp := cmp) (ok := ok))).
      rewrite (proj2 (Z.ltb_lt _ _)) by done. eexists. split; [do 2 f_equal; lia|]. lia.
Qed.

(** Looking a key up in a leaf. *)
Lemma leaf_lookup_spec (l : list (Key A * RID)) key :
  StronglySorted lt_key l.*1 → Forall ok l.*1 → ok key →
  ∃ l1 l2 found, leaf_lookup cmp l key = Some (Z.of_nat (length l1), found) ∧ l = l1 ++ l2 ∧
    Forall (λ x, cmp x.1 key < 0) l1 ∧
    if found then ∃ x l2', l2 = x :: l2' ∧ cmp x.1 key = 0 ∧ Forall (λ x, 0 < cmp x.1 key) l2'
    else Forall (λ x, 0 < cmp x.1 key) l2.
Proof using Type*.
  intros Hs Hok Hkey. unfold leaf_lookup.
  destruct (lower_bound_ordered (λ item k, cmp item.1 k) l key) as (r & found & -> & Hr & Hlow & Hhigh & Hf).
  { by apply sorted_ordered. }
  exists (take (Z.to_nat r) l), (drop (Z.to_nat r) l), found.
  rewrite length_take. split; [do 2 f_equal; lia|]. split; [by rewrite take_drop|]. split.
  { rewrite Forall_forall. intros x (i & Hi & Hlt)%elem_of_take. apply (Hlow i x); [lia | done]. }
  assert (Hdrop : ∀ n, (Z.to_nat r < n)%nat → Forall (λ x, 0 < cmp x.1 key) (drop n l)).
  { intros n Hn. rewrite Forall_forall. intros x [i Hi]%list_elem_of_lookup.
    rewrite lookup_drop in Hi. eapply Hhigh; [|exact Hi]. lia. }
  destruct found.
  - destruct Hf as (x & Hx & Hx0). exists x, (drop (S (Z.to_nat r)) l).
    split; [by apply drop_S|]. split; [done|]. apply Hdrop. lia.
  - destruct (l !! Z.to_nat r) as [x|] eqn:Hx.
    + rewrite (drop_S _ _ _ Hx). apply Forall_cons. split; [by apply Hf|]. apply Hdrop. lia.
    + apply lookup_ge_None in Hx. by rewrite drop_ge by lia.
Qed.
End lookup.

(** ** Running a computation *)
Section runs.
Context {A B : Type} `{PageAllocator B} (key_comparator_ : KeyComparator A) (zero_key : Key A).
#[local] Abbreviation St := (State A B).
#[local] Abbreviation MM := (M St).
#[local] Abbreviation Pages := (gmap Z (Node A)).
#[local] Abbreviation cmp := (key_compare key_comparator_).
#[local] Abbreviation Leaf := (LeafIndexNodeHandler (A := A) (B := B)).
#[local] Abbreviation Internal := (InternalIndexNodeHandler (A := A) (B := B)).

(** The part of the state besides the pages that an operation's result depends on. *)
Record env := mkEnv { e_hp : IndexFileHeader; e_fh : IndexFileHeader; e_bp : B; e_disp : list Z }.
Implicit Types (pgs : Pages) (e : env) (p par : Z) (key : Key A).

Definition in_state st pgs e : Prop :=
  faults st = [] ∧ pages st = pgs ∧ header_page st = e_hp e ∧ file_header_ st = e_fh e ∧
  bp st = e_bp e ∧ disposed st = e_disp e.

Definition runs {T} (m : MM T) pgs e (x : T) pgs' e' : Prop :=
  ∀ st, in_state st pgs e → ∃ st', m st = Ok x st' ∧ in_state st' pgs' e'.

Lemma runs_ret {T} (x : T) pgs e : runs (mret x) pgs e x pgs e.
Proof. intros st Hst. by exists st. Qed.

Lemma runs_bind {T U} (m : MM T) (f : T → MM U) pgs e x pgs1 e1 y pgs2 e2 :
  runs m pgs e x pgs1 e1 → runs (f x) pgs1 e1 y pgs2 e2 → runs (m ≫= f) pgs e y pgs2 e2.
Proof.
  intros Hm Hf st Hst. destruct (Hm st Hst) as (st1 & E1 & Hst1).
  destruct (Hf st1 Hst1) as (st2 & E2 & Hst2). exists st2. split; [|done].
  unfold mbind, M_bind. by rewrite E1.
Qed.

Lemma runs_ignore (m : MM unit) pgs e pgs' e' :
  runs m pgs e tt pgs' e' → runs (ignore m) pgs e tt pgs' e'.
Proof.
  intros Hm st Hst. destruct (Hm st Hst) as (st' & E & Hst'). exists st'. unfold ignore. by rewrite E.
Qed.

Lemma runs_eq {T} (m : MM T) pgs e x pgs' e' pgs'' e'' :
  runs m pgs e x pgs' e' → pgs' = pgs'' → e' = e'' → runs m pgs e x pgs'' e''.
Proof. by intros ? -> ->. Qed.

Lemma runs_of_option {T} (o : option T) x pgs e : o = Some x → runs (of_option o) pgs e x pgs e.
Proof. intros ->. apply runs_ret. Qed.

Lemma runs_assert b pgs e : b = true → runs (assert_ b) pgs e tt pgs e.
Proof. intros ->. apply runs_ret. Qed.

(** Reading the state: the continuation must run from every state of the class. *)
Lemma runs_gets {T U} (f : St → T) (k : T → MM U) pgs e y pgs' e' :
  (∀ st, in_state st pgs e → runs (k (f st)) pgs e y pgs' e') → runs (gets f ≫= k) pgs e y pgs' e'.
Proof. intros Hk st Hst. by apply (Hk st Hst). Qed.

Lemma runs_get_node p n pgs e : pgs !! p = Some n → runs (get_node p) pgs e n pgs e.
Proof.
  intros Hp. apply runs_gets. intros st (_ & Hpg & _). rewrite Hpg. by apply runs_of_option.
Qed.

Lemma runs_put_node p n pgs e : runs (put_node p n) pgs e tt (<[p := n]> pgs) e.
Proof.
  intros st (? & Hp & ? & ? & ? & ?). eexists. split; [done|].
  split_and!; simpl; try done. by rewrite Hp.
Qed.

Lemma runs_header pgs e : runs header pgs e (e_fh e) pgs e.
Proof.
  intros st Hst. exists st. split; [|done]. unfold header, gets. f_equal. apply Hst.
Qed.

Lemma runs_get_leaf p par nx l pgs e :
  pgs !! p = Some (LeafNode par nx l) → runs (get_leaf p) pgs e (par, nx, l) pgs e.
Proof. intros Hp. eapply runs_bind; [by apply runs_get_node | apply runs_ret]. Qed.

Lemma runs_get_internal p par l pgs e :
  pgs !! p = Some (InternalNode par l) → runs (get_internal p) pgs e (par, l) pgs e.
Proof. intros Hp. eapply runs_bind; [by apply runs_get_node | apply runs_ret]. Qed.

Lemma runs_append_log_entry en pgs e : runs (append_log_entry en) pgs e tt pgs e.
Proof.
  intros st Hst. eexists. split; [done|]. destruct Hst as (? & ? & ? & ? & ? & ?).
  destruct (need_log st); by split_and!.
Qed.

Lemma runs_push_memo i pgs e : runs (push_memo i) pgs e tt pgs e.
Proof. intros st Hst. eexists. split; [done|]. by destruct Hst as (? & ? & ? & ? & ? & ?). Qed.

Lemma runs_page_fault pgs e : runs page_fault pgs e tt pgs e.
Proof. intros st Hst. exists st. unfold page_fault. by rewrite (proj1 Hst). Qed.

Lemma runs_get_page p n pgs e : pgs !! p = Some n → runs (get_page p) pgs e tt pgs e.
Proof.
  intros Hp. eapply runs_bind; [apply runs_page_fault|]. simpl.
  eapply runs_bind; [by eapply runs_get_node|]. apply runs_push_memo.
Qed.

Lemma runs_latch p ty pgs e : ty ≠ LATCH_PIN → runs (latch p ty) pgs e tt pgs e.
Proof. intros Hty. destruct ty; [apply runs_push_memo | apply runs_push_memo | done]. Qed.

Lemma runs_dispose_page p pgs e :
  runs (dispose_page p) pgs e tt pgs (mkEnv (e_hp e) (e_fh e) (e_bp e) (e_disp e ++ [p])).
Proof.
  intros st (? & ? & ? & ? & ? & Hd). eexists. split; [done|].
  split_and!; simpl; try done. by rewrite Hd.
Qed.

Lemma runs_pool_allocate_page b p pgs e :
  bp_allocate (e_bp e) = (b, inl p) →
  runs pool_allocate_page pgs e p (<[p := InternalNode 0 []]> pgs)
       (mkEnv (e_hp e) (e_fh e) b (e_disp e)).
Proof.
  intros Hb. eapply runs_bind; [apply runs_page_fault|]. apply runs_gets. intros st Hst.
  destruct Hst as (_ & Hp & _ & _ & Hbp & _). rewrite Hbp, Hb.
  eapply runs_bind; [|apply runs_ret].
  intros st' (? & Hp' & ? & ? & ? & ?). eexists. split; [done|]. by split_and!; simpl; rewrite ?Hp'.
Qed.

Lemma runs_allocate_page b p pgs e :
  bp_allocate (e_bp e) = (b, inl p) →
  runs allocate_page pgs e p (<[p := InternalNode 0 []]> pgs)
       (mkEnv (e_hp e) (e_fh e) b (e_disp e)).
Proof.
  intros Hb. eapply runs_bind; [by apply runs_pool_allocate_page|].
  eapply runs_bind; [apply runs_push_memo | apply runs_ret].
Qed.

Lemma runs_update_root r pgs e :
  runs (update_root_page_num_locked r) pgs e tt pgs
       (mkEnv (with_root (e_hp e) r) (with_root (e_fh e) r) (e_bp e) (e_disp e)).
Proof.
  eapply runs_bind.
  { intros st Hst. exists st. unfold page_fault. by rewrite (proj1 Hst). }
  eapply runs_bind; [apply runs_push_memo|]. eapply runs_bind; [by apply runs_latch|].
  apply runs_gets. intros st Hst. eapply runs_bind; [apply runs_append_log_entry|].
  clear st Hst. intros st (? & ? & Hhp & Hfh & ? & ?). eexists. split; [done|].
  split_and!; simpl; try done; by rewrite ?Hhp, ?Hfh.
Qed.

(** *** Node handlers *)
Lemma insert_run_middle {V} (l1 l2 its : list V) :
  insert_run (Z.of_nat (length l1)) its (l1 ++ l2) = Some (l1 ++ its ++ l2).
Proof.
  unfold insert_run. rewrite length_app, (proj2 (Z.leb_le _ _)), (proj2 (Z.leb_le _ _)) by lia. simpl.
  by rewrite Nat2Z.id, take_app_length, drop_app_length.
Qed.

Lemma remove_run_middle {V} (l1 its l2 : list V) num :
  num = Z.of_nat (length its) →
  remove_run (Z.of_nat (length l1)) num (l1 ++ its ++ l2) = Some (l1 ++ l2).
Proof.
  intros ->. unfold remove_run. rewrite !length_app, !(proj2 (Z.leb_le _ _)) by lia. simpl.
  replace (Z.to_nat (Z.of_nat (length l1) + Z.of_nat (length its))) with (length (l1 ++ its))
    by (rewrite length_app; lia).
  rewrite Nat2Z.id, take_app_length, app_assoc, drop_app_length. done.
Qed.

Definition leaf_fits (h : IndexFileHeader) (n : nat) : Prop :=
  16 + Z.of_nat n * (key_length h + 8) ≤ BP_PAGE_DATA_SIZE.
Definition internal_fits (h : IndexFileHeader) (n : nat) : Prop :=
  12 + Z.of_nat n * (key_length h + 4) ≤ BP_PAGE_DATA_SIZE.

Lemma runs_handler_insert_leaf p par nx l1 l2 its pgs e idx :
  pgs !! p = Some (LeafNode par nx (l1 ++ l2)) → idx = Z.of_nat (length l1) →
  leaf_fits (e_fh e) (length (l1 ++ its ++ l2)) →
  runs (handler_insert_items p idx (LeafItems its)) pgs e tt
       (<[p := LeafNode par nx (l1 ++ its ++ l2)]> pgs) e.
Proof.
  intros Hp -> Hfit. eapply runs_bind; [by apply runs_get_node|].
  eapply runs_bind; [apply runs_header|]. eapply runs_bind; [|apply runs_put_node].
  apply runs_of_option. unfold recover_insert_items. rewrite insert_run_middle. simpl.
  unfold fits. by rewrite (proj2 (Z.leb_le _ _)) by exact Hfit.
Qed.

Lemma runs_handler_insert_internal p par l1 l2 its pgs e idx :
  pgs !! p = Some (InternalNode par (l1 ++ l2)) → idx = Z.of_nat (length l1) →
  internal_fits (e_fh e) (length (l1 ++ its ++ l2)) →
  runs (handler_insert_items p idx (InternalItems its)) pgs e tt
       (<[p := InternalNode par (l1 ++ its ++ l2)]> pgs) e.
Proof.
  intros Hp -> Hfit. eapply runs_bind; [by apply runs_get_node|].
  eapply runs_bind; [apply runs_header|]. eapply runs_bind; [|apply runs_put_node].
  apply runs_of_option. unfold recover_insert_items. rewrite insert_run_middle. simpl.
  unfold fits. by rewrite (proj2 (Z.leb_le _ _)) by exact Hfit.
Qed.

Lemma runs_handler_remove_leaf p par nx l1 its l2 pgs e idx num :
  pgs !! p = Some (LeafNode par nx (l1 ++ its ++ l2)) → idx = Z.of_nat (length l1) →
  num = Z.of_nat (length its) →
  runs (handler_remove_items p idx num) pgs e tt (<[p := LeafNode par nx (l1 ++ l2)]> pgs) e.
Proof.
  intros Hp -> Hn. eapply runs_bind; [by apply runs_get_node|].
  eapply runs_bind; [|apply runs_put_node]. apply runs_of_option. simpl.
  by rewrite remove_run_middle.
Qed.

Lemma runs_handler_remove_internal p par l1 its l2 pgs e idx num :
  pgs !! p = Some (InternalNode par (l1 ++ its ++ l2)) → idx = Z.of_nat (length l1) →
  num = Z.of_nat (length its) →
  runs (handler_remove_items p idx num) pgs e tt (<[p := InternalNode par (l1 ++ l2)]> pgs) e.
Proof.
  intros Hp -> Hn. eapply runs_bind; [by apply runs_get_node|].
  eapply runs_bind; [|apply runs_put_node]. apply runs_of_option. simpl.
  by rewrite remove_run_middle.
Qed.

Lemma runs_set_parent p n par pgs e :
  pgs !! p = Some n → runs (set_parent_page_num p par) pgs e tt (<[p := set_parent n par]> pgs) e.
Proof.
  intros Hp. eapply runs_bind; [by apply runs_get_node|].
  eapply runs_bind; [apply runs_append_log_entry | apply runs_put_node].
Qed.

Lemma runs_leaf_init_empty p pgs e :
  runs (leaf_init_empty p) pgs e tt
       (<[p := LeafNode BP_INVALID_PAGE_NUM BP_INVALID_PAGE_NUM []]> pgs) e.
Proof. eapply runs_bind; [apply runs_append_log_entry | apply runs_put_node]. Qed.

Lemma runs_internal_init_empty p pgs e :
  runs (internal_init_empty p) pgs e tt (<[p := InternalNode BP_INVALID_PAGE_NUM []]> pgs) e.
Proof. eapply runs_bind; [apply runs_append_log_entry | apply runs_put_node]. Qed.

Lemma runs_leaf_set_next p par nx l nx' pgs e :
  pgs !! p = Some (LeafNode par nx l) →
  runs (leaf_set_next_page p nx') pgs e tt (<[p := LeafNode par nx' l]> pgs) e.
Proof.
  intros Hp. eapply runs_bind; [by eapply runs_get_leaf|].
  eapply runs_bind; [apply runs_append_log_entry | apply runs_put_node].
Qed.

Lemma runs_leaf_insert p par nx l1 l2 key v pgs e idx :
  pgs !! p = Some (LeafNode par nx (l1 ++ l2)) → idx = Z.of_nat (length l1) →
  leaf_fits (e_fh e) (S (length (l1 ++ l2))) →
  runs (leaf_insert p idx key v) pgs e tt (<[p := LeafNode par nx (l1 ++ (key, v) :: l2)]> pgs) e.
Proof.
  intros Hp Hi Hf. eapply runs_bind; [apply runs_append_log_entry|].
  apply (runs_handler_insert_leaf p par nx l1 l2 [(key, v)]); try done.
  rewrite !length_app in *. simpl. by rewrite Nat.add_succ_r.
Qed.

Lemma items_at_middle_leaf par nx (l1 its l2 : list (Key A * RID)) idx num :
  idx = Z.of_nat (length l1) → num = Z.of_nat (length its) →
  items_at (LeafNode par nx (l1 ++ its ++ l2)) idx num = Some (LeafItems its).
Proof.
  intros -> ->. unfold items_at. simpl. rewrite !length_app, !(proj2 (Z.leb_le _ _)) by lia. simpl.
  by rewrite !Nat2Z.id, drop_app_length, take_app_length.
Qed.

Lemma items_at_middle_internal par (l1 its l2 : list (Key A * Z)) idx num :
  idx = Z.of_nat (length l1) → num = Z.of_nat (length its) →
  items_at (InternalNode par (l1 ++ its ++ l2)) idx num = Some (InternalItems its).
Proof.
  intros -> ->. unfold items_at. simpl. rewrite !length_app, !(proj2 (Z.leb_le _ _)) by lia. simpl.
  by rewrite !Nat2Z.id, drop_app_length, take_app_length.
Qed.

Lemma runs_leaf_remove p par nx l1 x l2 pgs e idx :
  pgs !! p = Some (LeafNode par nx (l1 ++ x :: l2)) → idx = Z.of_nat (length l1) →
  runs (leaf_remove p idx) pgs e tt (<[p := LeafNode par nx (l1 ++ l2)]> pgs) e.
Proof.
  intros Hp ->. eapply runs_bind; [by apply runs_get_node|]. eapply runs_bind.
  { apply runs_assert. simpl. rewrite length_app. simpl.
    rewrite (proj2 (Z.leb_le _ _)), (proj2 (Z.ltb_lt _ _)) by lia. done. }
  eapply runs_bind.
  { apply runs_of_option. by apply (items_at_middle_leaf par nx l1 [x] l2). }
  eapply runs_bind; [apply runs_append_log_entry|].
  by apply (runs_handler_remove_leaf p par nx l1 [x] l2).
Qed.

Lemma runs_internal_remove p par l1 x l2 pgs e idx :
  pgs !! p = Some (InternalNode par (l1 ++ x :: l2)) → idx = Z.of_nat (length l1) →
  runs (internal_remove p idx) pgs e tt (<[p := InternalNode par (l1 ++ l2)]> pgs) e.
Proof.
  intros Hp ->. eapply runs_bind; [by apply runs_get_node|]. eapply runs_bind.
  { apply runs_assert. simpl. rewrite length_app. simpl.
    rewrite (proj2 (Z.leb_le _ _)), (proj2 (Z.ltb_lt _ _)) by lia. done. }
  eapply runs_bind.
  { apply runs_of_option. by apply (items_at_middle_internal par l1 [x] l2). }
  eapply runs_bind; [apply runs_append_log_entry|].
  by apply (runs_handler_remove_internal p par l1 [x] l2).
Qed.

Lemma runs_leaf_append p par nx l its pgs e :
  pgs !! p = Some (LeafNode par nx l) → leaf_fits (e_fh e) (length (l ++ its)) →
  runs (leaf_append p (LeafItems its)) pgs e tt (<[p := LeafNode par nx (l ++ its)]> pgs) e.
Proof.
  intros Hp Hf. eapply runs_bind; [by apply runs_get_node|].
  eapply runs_bind; [apply runs_append_log_entry|].
  pose proof (runs_handler_insert_leaf p par nx l [] its pgs e (Z.of_nat (length l))) as Hr.
  rewrite !app_nil_r in Hr. by apply Hr.
Qed.

(** *** Children of a moved run get a new parent *)
Definition adopt_all (q : Z) (cs : list Z) pgs : Pages :=
  foldl (λ m c, alter (λ n, set_parent n q) c m) pgs cs.

Lemma set_parent_twice n (q q' : Z) : set_parent (A := A) (set_parent n q) q' = set_parent n q'.
Proof. by destruct n. Qed.

Lemma adopt_all_lookup q cs p : ∀ pgs,
  adopt_all q cs pgs !! p =
    if decide (p ∈ cs) then (λ n, set_parent n q) <$> pgs !! p else pgs !! p.
Proof.
  induction cs as [|c cs IH]; intros pgs; cbn [adopt_all foldl].
  { case_decide as D; [by apply not_elem_of_nil in D | done]. }
  change (foldl _ ?m cs) with (adopt_all q cs m). rewrite IH. destruct (decide (c = p)) as [->|Hne].
  - rewrite lookup_alter_eq. rewrite (decide_True (P := p ∈ p :: cs)) by apply list_elem_of_here.
    case_decide; [|done]. rewrite <- option_fmap_compose. destruct (pgs !! p); simpl; [|done].
    by rewrite set_parent_twice.
  - rewrite lookup_alter_ne by done. apply decide_ext. rewrite elem_of_cons.
    split; [by right | by intros [?|?]; [congruence|]].
Qed.

Lemma runs_adopt q its : ∀ pgs e,
  (∀ c, c ∈ its.*2 → is_Some (pgs !! c)) → runs (adopt q its) pgs e tt (adopt_all q its.*2 pgs) e.
Proof.
  induction its as [|[k c] its IH]; intros pgs e Hc; [apply runs_ret|].
  cbn [adopt]. destruct (Hc c (list_elem_of_here _ _)) as [n Hn].
  eapply runs_bind; [by eapply runs_get_page|].
  eapply runs_bind; [by apply runs_ignore, runs_set_parent|].
  eapply runs_eq; [apply IH| |done].
  - intros d Hd. destruct (decide (c = d)) as [->|]; [by rewrite lookup_insert_eq; eauto|].
    rewrite lookup_insert_ne by done. apply Hc. by apply list_elem_of_further.
  - simpl. f_equal. apply map_eq. intros d. destruct (decide (c = d)) as [->|].
    + by rewrite lookup_insert_eq, lookup_alter_eq, Hn.
    + by rewrite lookup_insert_ne, lookup_alter_ne.
Qed.

Lemma runs_insert_items p par l1 l2 its pgs e idx :
  pgs !! p = Some (InternalNode par (l1 ++ l2)) → idx = Z.of_nat (length l1) →
  internal_fits (e_fh e) (length (l1 ++ its ++ l2)) →
  (∀ c, c ∈ its.*2 → is_Some (pgs !! c)) →
  runs (insert_items p idx (InternalItems its)) pgs e tt
       (adopt_all p its.*2 (<[p := InternalNode par (l1 ++ its ++ l2)]> pgs)) e.
Proof.
  intros Hp Hi Hf Hc. eapply runs_bind; [apply runs_append_log_entry|].
  eapply runs_bind; [by apply (runs_handler_insert_internal p par l1 l2 its)|].
  apply runs_adopt. intros c Hcc. destruct (decide (p = c)) as [->|].
  - rewrite lookup_insert_eq. eauto.
  - rewrite lookup_insert_ne by done. by apply Hc.
Qed.

Lemma runs_internal_append p par l its pgs e :
  pgs !! p = Some (InternalNode par l) → internal_fits (e_fh e) (length (l ++ its)) →
  (∀ c, c ∈ its.*2 → is_Some (pgs !! c)) →
  runs (internal_append p (InternalItems its)) pgs e tt
       (adopt_all p its.*2 (<[p := InternalNode par (l ++ its)]> pgs)) e.
Proof.
  intros Hp Hf Hc. eapply runs_bind; [by apply runs_get_node|].
  pose proof (runs_insert_items p par l [] its pgs e (Z.of_nat (length l))) as Hr.
  rewrite !app_nil_r in Hr. by apply Hr.
Qed.

(** *** Splitting *)
Lemma half_position {V} (l1 l2 : list V) :
  Z.of_nat (length l1) = Z.quot (Z.of_nat (length (l1 ++ l2))) 2 →
  Z.of_nat (length (l1 ++ l2)) - Z.quot (Z.of_nat (length (l1 ++ l2))) 2 = Z.of_nat (length l2).
Proof. rewrite length_app. lia. Qed.

Lemma runs_split_leaf p par nx l1 l2 pgs e b np :
  pgs !! p = Some (LeafNode par nx (l1 ++ l2)) →
  Z.of_nat (length l1) = Z.quot (Z.of_nat (length (l1 ++ l2))) 2 →
  bp_allocate (e_bp e) = (b, inl np) → pgs !! np = None → leaf_fits (e_fh e) (length l2) →
  runs (split Leaf p) pgs e np
    (<[p := LeafNode par nx l1]> (<[np := LeafNode par BP_INVALID_PAGE_NUM l2]> pgs))
    (mkEnv (e_hp e) (e_fh e) b (e_disp e)).
Proof.
  intros Hp Hl Hb Hnp Hf. assert (np ≠ p) as Hne by congruence.
  eapply runs_bind; [by apply runs_allocate_page|].
  eapply runs_bind; [by apply runs_latch|]. eapply runs_bind; [apply runs_leaf_init_empty|].
  rewrite insert_insert_eq. eapply runs_bind.
  { apply runs_get_node. rewrite lookup_insert_ne by done. exact Hp. }
  eapply runs_bind.
  { apply runs_ignore, runs_set_parent. apply lookup_insert_eq. }
  rewrite insert_insert_eq. cbn [parent_page_num set_parent].
  eapply runs_bind; [|apply runs_ret]. apply runs_ignore.
  eapply runs_bind.
  { apply runs_get_node. rewrite lookup_insert_ne by done. exact Hp. }
  cbn [size]. cbv zeta. rewrite (half_position l1 l2 Hl), <- Hl. eapply runs_bind.
  { apply runs_of_option. rewrite <- (app_nil_r (l1 ++ l2)), <- app_assoc.
    by apply items_at_middle_leaf. }
  eapply runs_bind.
  { apply runs_ignore, runs_leaf_append; [apply lookup_insert_eq|]. simpl. exact Hf. }
  rewrite insert_insert_eq. eapply runs_bind; [apply runs_append_log_entry|].
  match goal with |- runs _ ?m ?e' _ _ _ =>
    pose proof (runs_handler_remove_leaf p par nx l1 l2 [] m e') as Hr end.
  rewrite !app_nil_r in Hr. apply Hr.
  - by rewrite lookup_insert_ne.
  - done.
  - done.
Qed.

Lemma runs_split_internal p par l1 l2 pgs e b np :
  pgs !! p = Some (InternalNode par (l1 ++ l2)) →
  Z.of_nat (length l1) = Z.quot (Z.of_nat (length (l1 ++ l2))) 2 →
  bp_allocate (e_bp e) = (b, inl np) → pgs !! np = None → internal_fits (e_fh e) (length l2) →
  (∀ c, c ∈ l2.*2 → is_Some (pgs !! c) ∧ c ≠ p) →
  runs (split Internal p) pgs e np
    (<[p := InternalNode par l1]> (adopt_all np l2.*2 (<[np := InternalNode par l2]> pgs)))
    (mkEnv (e_hp e) (e_fh e) b (e_disp e)).
Proof.
  intros Hp Hl Hb Hnp Hf Hc. assert (np ≠ p) as Hne by congruence.
  eapply runs_bind; [by apply runs_allocate_page|].
  eapply runs_bind; [by apply runs_latch|]. eapply runs_bind; [apply runs_internal_init_empty|].
  rewrite insert_insert_eq. eapply runs_bind.
  { apply runs_get_node. rewrite lookup_insert_ne by done. exact Hp. }
  eapply runs_bind.
  { apply runs_ignore, runs_set_parent. apply lookup_insert_eq. }
  rewrite insert_insert_eq. cbn [parent_page_num set_parent].
  eapply runs_bind; [|apply runs_ret]. apply runs_ignore.
  eapply runs_bind.
  { apply runs_get_node. rewrite lookup_insert_ne by done. exact Hp. }
  cbn [size]. cbv zeta. rewrite (half_position l1 l2 Hl), <- Hl. eapply runs_bind.
  { apply runs_of_option. rewrite <- (app_nil_r (l1 ++ l2)), <- app_assoc.
    by apply items_at_middle_internal. }
  eapply runs_bind.
  { apply runs_internal_append; [apply lookup_insert_eq | exact Hf|].
    intros c Hcc. destruct (Hc c Hcc) as [[n Hn] _].
    rewrite lookup_insert_ne by congruence. eauto. }
  rewrite insert_insert_eq. eapply runs_bind; [apply runs_append_log_entry|].
  match goal with |- runs _ ?m ?e' _ _ _ =>
    pose proof (runs_handler_remove_internal p par l1 l2 [] m e') as Hr end.
  rewrite !app_nil_r in Hr. apply Hr.
  - rewrite adopt_all_lookup, decide_False by (intros Hin; by destruct (Hc _ Hin)).
    by rewrite lookup_insert_ne.
  - done.
  - done.
Qed.
End runs.
