(* ===== verification/BplusFind.v ===== *)
(** * Finding the leaf of a key

    The order of a tree is the sortedness of its [marks]; the descent keeps every mark to the
    left of the node at or below the key and every mark to the right above it. *)
From stdpp Require Import sorting.
From S2P Require Import Prelude Rc BplusKey PageAlloc LowerBound BplusTree BplusGhost BplusWp.

(** ** Order *)
Section order.
Context {A : Type} (cmp : Key A → Key A → Z) (ok : Key A → Prop) `{!TotalCompare cmp ok}.
Implicit Types (m : mark A) (key : Key A).

Definition mkey m : Key A := match m with MItem i => i.1 | MSep k => k end.

(** [m1] may precede [m2]: a separator may equal the item after it. *)
Definition before m1 m2 : Prop :=
  match m1, m2 with
  | MSep a, MItem b => cmp a b.1 ≤ 0
  | _, _ => cmp (mkey m1) (mkey m2) < 0
  end.

(** A mark on the left, or on the right, of a searched key. *)
Definition left_of key m : Prop :=
  match m with MItem i => cmp i.1 key < 0 | MSep k => cmp k key ≤ 0 end.
Definition right_of key m : Prop := 0 < cmp (mkey m) key.

Lemma before_le m1 m2 : before m1 m2 → cmp (mkey m1) (mkey m2) ≤ 0.
Proof. destruct m1, m2; simpl; lia. Qed.

Lemma left_of_le key m : left_of key m → cmp (mkey m) key ≤ 0.
Proof. destruct m; simpl; lia. Qed.

(** A mark before a separator that is on the left is on the left. *)
Lemma left_of_before key m k :
  ok (mkey m) → ok k → ok key → before m (MSep k) → cmp k key ≤ 0 → left_of key m.
Proof using Type*.
  intros Hm Hk Hkey Hb Hle. assert (cmp (mkey m) key < 0).
  { apply (cmp_lt_le_trans cmp ok _ k); try done. by destruct m. }
  destruct m; simpl in *; lia.
Qed.

Lemma right_of_before key m k :
  ok (mkey m) → ok k → ok key → before (MSep k) m → 0 < cmp k key → right_of key m.
Proof using Type*.
  intros Hm Hk Hkey Hb Hgt. unfold right_of.
  apply (cmp_flip (cmp := cmp) (ok := ok)); try done.
  apply (cmp_lt_le_trans cmp ok _ k); try done; [by apply (cmp_flip (cmp := cmp) (ok := ok))|].
  exact (before_le (MSep k) m Hb).
Qed.

Definition msorted (l : list (mark A)) : Prop := StronglySorted before l.
Definition mvalid (l : list (mark A)) : Prop := Forall (λ m, ok (mkey m)) l.

Lemma msorted_app l1 l2 :
  msorted (l1 ++ l2) ↔ (∀ x y, x ∈ l1 → y ∈ l2 → before x y) ∧ msorted l1 ∧ msorted l2.
Proof. apply StronglySorted_app. Qed.

Lemma msorted_items (l : list (Key A * RID)) :
  msorted (MItem <$> l) ↔ StronglySorted (lt_key cmp) l.*1.
Proof.
  unfold msorted. induction l as [|x l IH]; simpl; [split; constructor|].
  rewrite !StronglySorted_cons, IH, !Forall_fmap. done.
Qed.

Lemma mvalid_items (l : list (Key A * RID)) : mvalid (MItem <$> l) ↔ Forall ok l.*1.
Proof. unfold mvalid. by rewrite !Forall_fmap. Qed.

(** The separators of a run of children are sorted. *)
Lemma kmarks_sep_elem (kids : list (Key A * tree A)) k : k ∈ kids.*1 → MSep k ∈ kmarks kids.
Proof.
  induction kids as [|[k0 t0] kids IH]; simpl; [set_solver|]. rewrite kmarks_cons.
  intros [->|Hk]%elem_of_cons; [apply list_elem_of_here|]. apply list_elem_of_further.
  apply elem_of_app. right. by apply IH.
Qed.

Lemma kmarks_keys_sorted (kids : list (Key A * tree A)) :
  msorted (kmarks kids) → StronglySorted (lt_key cmp) kids.*1.
Proof.
  induction kids as [|[k t] kids IH]; simpl; [constructor|]. rewrite kmarks_cons.
  intros [Hall Hs]%StronglySorted_cons. apply msorted_app in Hs as (_ & _ & Hs).
  apply StronglySorted_cons. split; [|by apply IH]. rewrite Forall_forall in Hall. rewrite Forall_forall.
  intros k' Hk'. apply (Hall (MSep k')). apply elem_of_app. right. by apply kmarks_sep_elem.
Qed.

Lemma kmarks_keys_valid (kids : list (Key A * tree A)) : mvalid (kmarks kids) → Forall ok kids.*1.
Proof.
  unfold mvalid. intros Hv. rewrite Forall_forall in Hv. rewrite Forall_forall. intros k Hk. apply (Hv (MSep k)).
  by apply kmarks_sep_elem.
Qed.

(** A sorted list splits around a key. *)
Lemma split_at_key {V} (l : list (Key A * V)) key :
  StronglySorted (lt_key cmp) l.*1 → Forall ok l.*1 → ok key →
  ∃ l1 l2, l = l1 ++ l2 ∧ Forall (λ x, cmp x.1 key ≤ 0) l1 ∧ Forall (λ x, 0 < cmp x.1 key) l2.
Proof using Type*.
  intros Hs Hok Hkey. induction l as [|[k v] l IH]; [by exists [], []|].
  simpl in Hs, Hok. apply StronglySorted_cons in Hs as [Hall Hs]. apply Forall_cons in Hok as [Hk Hok].
  destruct (decide (cmp k key ≤ 0)) as [Hle|Hgt].
  - destruct (IH Hs Hok) as (l1 & l2 & -> & H1 & H2). exists ((k, v) :: l1), l2.
    split; [done|]. split; [by apply Forall_cons | done].
  - exists [], ((k, v) :: l). split; [done|]. split; [done|]. apply Forall_cons. split; [simpl; lia|].
    rewrite Forall_forall in Hall. rewrite Forall_forall in Hok. rewrite Forall_forall. intros x Hx.
    assert (x.1 ∈ l.*1) as Hin by (by apply list_elem_of_fmap_2).
    specialize (Hall _ Hin). specialize (Hok _ Hin). unfold lt_key in Hall.
    apply (cmp_flip (cmp := cmp) (ok := ok)); try done.
    apply (cmp_lt_le_trans cmp ok _ k); try done; [|lia].
    apply (cmp_flip (cmp := cmp) (ok := ok)); try done. lia.
Qed.

(** The child of an internal node that a search takes, and what is around it. *)
Lemma child_of_key p (kids : list (Key A * tree A)) key :
  kids ≠ [] → msorted (tail (kmarks kids)) → mvalid (tail (kmarks kids)) → ok key →
  ∃ L k t R pos, kids = L ++ (k, t) :: R ∧
    internal_lookup cmp (kitems kids) key = Some (Z.of_nat (length L), pos) ∧
    Forall (left_of key) (fpre (mkFr p L k R)) ∧ Forall (right_of key) (kmarks R).
Proof using Type*.
  intros Hne Hs Hv Hkey. destruct kids as [|[k0 t0] rest]; [done|]. clear Hne.
  rewrite kmarks_cons in Hs, Hv. simpl in Hs, Hv.
  apply msorted_app in Hs as (Hcross & Hs0 & Hsr). apply Forall_app in Hv as [Hv0 Hvr].
  pose proof (kmarks_keys_sorted _ Hsr) as Hks. pose proof (kmarks_keys_valid _ Hvr) as Hkv.
  destruct (split_at_key rest key Hks Hkv Hkey) as (R1 & R2 & -> & H1 & H2).
  destruct (internal_lookup_spec cmp ok (k0, root t0) (kitems R1) (kitems R2) key) as (pos & Hlk & _).
  { rewrite <- kitems_app. unfold kitems. rewrite <- list_fmap_compose. exact Hks. }
  { rewrite <- kitems_app. unfold kitems. rewrite <- list_fmap_compose. exact Hkv. }
  { done. }
  { unfold kitems. by rewrite Forall_fmap. }
  { unfold kitems. by rewrite Forall_fmap. }
  rewrite kitems_length, <- kitems_app in Hlk.
  assert (Hright : Forall (right_of key) (kmarks R2)).
  { destruct R2 as [|[k2 t2] R2]; [done|]. rewrite kmarks_app in Hsr, Hvr.
    apply msorted_app in Hsr as (_ & _ & Hsr). rewrite kmarks_cons in *.
    apply Forall_app in Hvr as [_ Hvr]. apply Forall_cons in Hvr as [Hk2 Hvr].
    apply StronglySorted_cons in Hsr as [Hall _]. apply Forall_cons in H2 as [Hgt _].
    apply Forall_cons. split; [done|]. rewrite Forall_forall in Hall. rewrite Forall_forall in Hvr. rewrite Forall_forall.
    intros m Hm. by apply (right_of_before key m k2); auto. }
  destruct (decide (R1 = [])) as [->|Hne].
  - exists [], k0, t0, R2, pos. by split_and!.
  - destruct (exists_last Hne) as (R1' & [k t] & ->).
    exists ((k0, t0) :: R1'), k, t, R2, pos. rewrite <- !app_assoc in *. simpl in *.
    rewrite length_app in Hlk. simpl in Hlk. rewrite Nat.add_1_r in Hlk.
    split_and!; try done. unfold fpre. simpl.
    apply Forall_app in H1 as [_ H1]. apply Forall_cons in H1 as [Hk _]. simpl in Hk.
    rewrite kmarks_app, kmarks_cons in Hsr, Hvr, Hcross.
    apply Forall_app in Hvr as [Hvr1 Hvr]. apply Forall_cons in Hvr as [Hok_k _]. simpl in Hok_k.
    apply Forall_app. split; [|apply Forall_cons; split; [done | constructor]].
    rewrite Forall_forall. rewrite Forall_forall in Hv0. rewrite Forall_forall in Hvr1.
    intros m [Hm|Hm]%elem_of_app; apply (left_of_before key m k); auto.
    + apply Hcross; [done|]. apply elem_of_app. right. apply list_elem_of_here.
    + apply msorted_app in Hsr as (Hc & _). apply Hc; [done|]. apply list_elem_of_here.
Qed.
End order.

(** ** The descent *)
Section find.
Context {A B : Type} `{PageAllocator B} (key_comparator_ : KeyComparator A) (zero_key : Key A).
Context (ok : Key A → Prop) `{!TotalCompare (key_compare key_comparator_) ok}.
#[local] Abbreviation cmp := (key_compare key_comparator_).
#[local] Abbreviation Pages := (gmap Z (Node A)).
Implicit Types (pgs : Pages) (e : env (B := B)) (key : Key A).

Lemma runs_crabing op p b n pgs e :
  pgs !! p = Some n → runs (crabing_protocal_fetch_page op p b) pgs e tt pgs e.
Proof.
  intros Hp st Hst. pose proof Hst as (Hf & Hpg & Hh1 & Hh2 & Hbp & Hd).
  unfold crabing_protocal_fetch_page, get_page, page_fault, get_node, latch, header, release_to,
    gets, push_memo, modify, of_option, mbind, M_bind, mret, M_ret.
  rewrite Hf, Hpg, Hp. destruct op; cbn -[is_safe]; rewrite Hpg, Hp; cbn -[is_safe];
    (destruct (is_safe _ _ _ _); cbn; [|eexists; split; [done|]; by split_and!]);
    rewrite !length_app, (proj2 (Nat.leb_le _ _)) by lia; cbn; (eexists; split; [done|]; by split_and!).
Qed.

Lemma runs_find_leaf_loop op getter fuel : ∀ t h pgs e par ctx (P : list (frame A) → tree A → Prop),
  bal h t → (h ≤ fuel)%nat → repr pgs par t → P ctx t →
  (∀ ctx p kids, P ctx (TNode p kids) →
     ∃ L k t R, kids = L ++ (k, t) :: R ∧ getter (kitems kids) = Some (root t) ∧
                P (mkFr p L k R :: ctx) t) →
  ∃ ctx' p l, runs (find_leaf_loop fuel op getter (root t)) pgs e p pgs e ∧
    plug ctx' (TLeaf p l) = plug ctx t ∧ P ctx' (TLeaf p l).
Proof.
  induction fuel as [|fuel IH]; intros t h pgs e par ctx P Hb Hh Hr HP Hstep.
  - destruct t as [p l|p kids]; [|destruct h; simpl in Hb; [done|lia]].
    destruct Hr as [nx Hp]. exists ctx, p, l. split_and!; try done.
    eapply runs_bind; [by apply runs_get_node | apply runs_ret].
  - destruct t as [p l|p kids].
    + destruct Hr as [nx Hp]. exists ctx, p, l. split_and!; try done.
      eapply runs_bind; [by apply runs_get_node | apply runs_ret].
    + destruct h as [|h]; [done|]. apply bal_node in Hb. apply repr_node in Hr as [Hp Hk].
      destruct (Hstep ctx p kids HP) as (L & k & t & R & -> & Hg & HP').
      apply Forall_app in Hb as [_ [Hb _]%Forall_cons]. apply Forall_app in Hk as [_ [Hk _]%Forall_cons].
      destruct (IH t h pgs e p (mkFr p L k R :: ctx) P Hb ltac:(lia) Hk HP' Hstep)
        as (ctx' & q & l & Hrun & Hplug & HP'').
      exists ctx', q, l. split; [|done].
      eapply runs_bind; [by apply runs_get_node|]. cbn [root].
      eapply runs_bind; [by apply runs_of_option|].
      destruct (repr_root _ _ _ Hk) as (n & Hn & _).
      eapply runs_bind; [by eapply runs_crabing | exact Hrun].
Qed.

(** A search from the root ends at the leaf whose range holds the key. *)
Definition around key (ctx : list (frame A)) : Prop :=
  Forall (left_of cmp key) (cpre ctx) ∧ Forall (right_of cmp key) (cpost ctx).

Lemma find_leaf_search op key T h pgs e :
  bal h T → inhabited_kids T → (h ≤ base.size pgs)%nat → repr pgs BP_INVALID_PAGE_NUM T →
  msorted cmp (marks T) → mvalid ok (marks T) → ok key →
  root_page (e_fh e) = root T → root T ≠ BP_INVALID_PAGE_NUM →
  ∃ ctx p l, runs (find_leaf key_comparator_ op key) pgs e p pgs e ∧
    T = plug ctx (TLeaf p l) ∧ around key ctx.
Proof using Type*.
  intros Hb Hi Hh Hr Hs Hv Hkey Hroot Hne.
  set (getter := λ l : list (Key A * Z), '(i, _) ← internal_lookup cmp l key; snd <$> at_z l i).
  set (P := λ (ctx : list (frame A)) t, inhabited_kids t ∧ plug ctx t = T ∧ around key ctx).
  destruct (runs_find_leaf_loop op getter (S (base.size pgs)) T h pgs e BP_INVALID_PAGE_NUM [] P)
    as (ctx & p & l & Hrun & Hplug & _ & HP & Har); try done; [lia| |].
  - intros ctx p kids ((Hne' & Hik) & Hpl & Hl & Hrt).
    rewrite (foldr_Forall (λ kt, inhabited_kids kt.2)) in Hik.
    rewrite <- Hpl, marks_plug in Hs, Hv. apply msorted_app in Hs as (_ & _ & Hs).
    apply msorted_app in Hs as (_ & Hs & _). apply Forall_app in Hv as [_ Hv].
    apply Forall_app in Hv as [Hv _].
    destruct (child_of_key cmp ok p kids key Hne' Hs Hv Hkey) as (L & k & t & R & pos & -> & Hlk & HL & HR).
    exists L, k, t, R. split; [done|]. split.
    + unfold getter. rewrite Hlk. simpl. rewrite kitems_app, <- (kitems_length L).
      change (kitems ((k, t) :: R)) with ((k, root t) :: kitems R). by rewrite at_z_middle.
    + apply Forall_app in Hik as [_ [Hik _]%Forall_cons]. split; [done|]. split; [done|].
      split; simpl; apply Forall_app; by split.
  - exists ctx, p, l. split; [|done]. unfold find_leaf, find_leaf_internal.
    eapply runs_bind; [apply runs_push_memo|]. apply runs_gets. intros st (Hf & Hpg & _ & Hfh & _).
    unfold is_empty. rewrite Hfh, Hroot, (proj2 (Z.eqb_neq _ _)) by done.
    destruct (repr_root _ _ _ Hr) as (n & Hn & _).
    eapply runs_bind; [by eapply runs_crabing|]. unfold depth_fuel. rewrite Hpg. exact Hrun.
Qed.
End find.
