(* ===== verification/BplusInsert.v ===== *)
(** * Insertion keeps the tree

    Sorted insertion into a leaf, the split of a full leaf, and what both do to the items and the order of a tree. *)
From stdpp Require Import sorting.
From S2P Require Import Prelude Rc BplusKey PageAlloc LowerBound BplusTree BplusGhost BplusWp BplusFind.

(** ** Generic facts on sorted and duplicate-free lists *)
Lemma StronglySorted_sublist {X} (R : X → X → Prop) (l1 l2 : list X) :
  l1 `sublist_of` l2 → StronglySorted R l2 → StronglySorted R l1.
Proof.
  induction 1 as [|x l1 l2 Hs IH|x l1 l2 Hs IH]; [done| |]; intros [Hall Hr]%StronglySorted_cons.
  - apply StronglySorted_cons. split; [|by apply IH]. rewrite Forall_forall in Hall.
    rewrite Forall_forall. intros y Hy. apply Hall. by eapply elem_of_sublist.
  - by apply IH.
Qed.

Lemma Forall_fst {X Y} (P : X → Prop) (l : list (X * Y)) : Forall P l.*1 → Forall (λ x, P x.1) l.
Proof. by rewrite Forall_fmap. Qed.

Section facts.
Context {A : Type} (cmp : Key A → Key A → Z) (ok : Key A → Prop) `{!TotalCompare cmp ok}.
Implicit Types (t : tree A) (f : frame A) (k : Key A).

(** A header whose capacities the algorithms can work with and the page can hold. *)
Record hdr_wf (h : IndexFileHeader) : Prop := {
  hw_leaf : 4 ≤ leaf_max_size h;
  hw_internal : 6 ≤ internal_max_size h;
  hw_key : 0 ≤ key_length h;
  hw_leaf_fits : 16 + leaf_max_size h * (key_length h + 8) ≤ BP_PAGE_DATA_SIZE;
  hw_internal_fits : 12 + internal_max_size h * (key_length h + 4) ≤ BP_PAGE_DATA_SIZE;
}.

Lemma hdr_leaf_fits h n : hdr_wf h → Z.of_nat n ≤ leaf_max_size h → leaf_fits h n.
Proof. intros []. unfold leaf_fits. nia. Qed.
Lemma hdr_internal_fits h n : hdr_wf h → Z.of_nat n ≤ internal_max_size h → internal_fits h n.
Proof. intros []. unfold internal_fits. nia. Qed.

Lemma msorted_seps (ks : list (Key A)) : msorted cmp (MSep <$> ks) ↔ StronglySorted (lt_key cmp) ks.
Proof.
  unfold msorted. induction ks as [|k ks IH]; simpl; [split; constructor|].
  by rewrite !StronglySorted_cons, IH, Forall_fmap.
Qed.

Lemma kmarks_seps_sublist (kids : list (Key A * tree A)) :
  (MSep <$> kids.*1) `sublist_of` kmarks kids.
Proof.
  induction kids as [|[k t] kids IH]; simpl; [constructor|]. rewrite kmarks_cons.
  constructor. by apply sublist_inserts_l.
Qed.

(** The separators of a node, first key aside, around a hole. *)
Definition hole_keys f : list (Key A) := match fl f with [] => [] | _ :: L => L.*1 ++ [fk f] end.

Lemma fpre_seps_sublist f : (MSep <$> hole_keys f) `sublist_of` fpre f.
Proof.
  unfold hole_keys, fpre. destruct (fl f) as [|[k0 t0] L]; [constructor|].
  rewrite fmap_app. apply sublist_app; [|done]. rewrite kmarks_cons. simpl.
  apply sublist_inserts_l, kmarks_seps_sublist.
Qed.

Lemma tail_items f t :
  kitems (fl f ++ (fk f, t) :: fr f) =
  hd (fk f, root t) (kitems (fl f)) ::
    match fl f with [] => [] | _ :: L => kitems L ++ [(fk f, root t)] end ++ kitems (fr f).
Proof.
  rewrite kitems_app. destruct (fl f) as [|[k0 t0] L]; simpl; [done|]. by rewrite <- app_assoc.
Qed.

(** A separator right of the hole's subtree goes behind the hole. *)
Lemma sep_position f t k :
  msorted cmp (fpre f ++ MSep k :: kmarks (fr f)) → mvalid ok (fpre f ++ MSep k :: kmarks (fr f)) →
  ∃ i, internal_lookup cmp (kitems (fl f ++ (fk f, t) :: fr f)) k =
         Some (i, Z.of_nat (S (length (fl f)))).
Proof using Type*.
  intros Hs Hv.
  set (l1 := match fl f with [] => [] | _ :: L => kitems L ++ [(fk f, root t)] end).
  assert (Hk1 : l1.*1 = hole_keys f).
  { unfold l1, hole_keys. destruct (fl f) as [|[k0 t0] L]; [done|]. rewrite fmap_app.
    unfold kitems. by rewrite <- list_fmap_compose. }
  assert (Hlen : length l1 = length (fl f)).
  { unfold l1. destruct (fl f) as [|[k0 t0] L]; [done|]. rewrite length_app, kitems_length. simpl. lia. }
  assert (Hk2 : (kitems (fr f)).*1 = (fr f).*1) by (unfold kitems; by rewrite <- list_fmap_compose).
  assert (Hsub : (MSep <$> (hole_keys f ++ k :: (fr f).*1)) `sublist_of` fpre f ++ MSep k :: kmarks (fr f)).
  { rewrite fmap_app, fmap_cons. apply sublist_app; [apply fpre_seps_sublist|].
    constructor. apply kmarks_seps_sublist. }
  assert (Hks : StronglySorted (lt_key cmp) (hole_keys f ++ k :: (fr f).*1)).
  { apply msorted_seps. by eapply StronglySorted_sublist. }
  assert (Hkv : Forall ok (hole_keys f ++ k :: (fr f).*1)).
  { rewrite Forall_forall. intros x Hx. unfold mvalid in Hv. rewrite Forall_forall in Hv.
    apply (Hv (MSep x)). eapply elem_of_sublist; [|exact Hsub]. by apply list_elem_of_fmap_2. }
  apply StronglySorted_app in Hks as (Hc & Hs1 & [Hs2 Hs3]%StronglySorted_cons).
  apply Forall_app in Hkv as [Hv1 [Hvk Hv2]%Forall_cons].
  rewrite tail_items. fold l1.
  destruct (internal_lookup_spec cmp ok (hd (fk f, root t) (kitems (fl f))) l1 (kitems (fr f)) k)
    as (pos & -> & Hpos).
  - rewrite fmap_app, Hk1, Hk2. apply StronglySorted_app. split_and!; try done.
    intros x y Hx Hy. apply Hc; [done|]. by apply list_elem_of_further.
  - rewrite fmap_app, Hk1, Hk2. by apply Forall_app.
  - done.
  - apply (Forall_fst (λ x, cmp x k ≤ 0)). rewrite Hk1, Forall_forall. intros x Hx.
    specialize (Hc x k Hx (list_elem_of_here _ _)). unfold lt_key in Hc. lia.
  - apply (Forall_fst (λ x, 0 < cmp x k)). rewrite Hk2, Forall_forall. intros x Hx.
    rewrite Forall_forall in Hs2. specialize (Hs2 x Hx). rewrite Forall_forall in Hv2.
    specialize (Hv2 x Hx). by apply (cmp_flip (cmp := cmp) (ok := ok)).
  - rewrite Hpos, Hlen; [by eexists|].
    apply (Forall_fst (λ x, cmp x k ≠ 0)). rewrite Hk1, Forall_forall. intros x Hx.
    specialize (Hc x k Hx (list_elem_of_here _ _)). unfold lt_key in Hc. lia.
Qed.

(** A subtree whose root alone changed, by its parent pointer. *)
Lemma repr_reparent (pgs pgs' : gmap Z (Node A)) par par' t :
  NoDup (pids t) → repr pgs par t →
  (∀ n, pgs !! root t = Some n → pgs' !! root t = Some (set_parent n par')) →
  (∀ q, q ∈ pids t → q ≠ root t → pgs' !! q = pgs !! q) → repr pgs' par' t.
Proof.
  intros Hnd Hr Hroot Hrest. destruct (repr_root _ _ _ Hr) as (n & Hn & _).
  eapply repr_frame; [|by apply (repr_set_parent pgs par par' t n)].
  intros q Hq. destruct (decide (q = root t)) as [->|Hne].
  - rewrite lookup_insert_eq. by apply Hroot.
  - rewrite lookup_insert_ne by done. by apply Hrest.
Qed.

Lemma repr_next_of (pgs pgs' : gmap Z (Node A)) p par :
  (∃ n, pgs !! p = Some n ∧ pgs' !! p = Some (set_parent n par)) → next_of pgs' p = next_of pgs p.
Proof. intros (n & Hn & Hn'). unfold next_of. rewrite Hn, Hn'. by destruct n. Qed.
End facts.

Section insert.
Context {A B : Type} `{PageAllocator B} (key_comparator_ : KeyComparator A) (zero_key : Key A).
Context (ok : Key A → Prop) `{!TotalCompare (key_compare key_comparator_) ok}.
#[local] Abbreviation cmp := (key_compare key_comparator_).
#[local] Abbreviation Pages := (gmap Z (Node A)).
#[local] Abbreviation Internal := (InternalIndexNodeHandler (A := A) (B := B)).
#[local] Abbreviation Leaf := (LeafIndexNodeHandler (A := A) (B := B)).
Implicit Types (pgs : Pages) (e : env (B := B)) (t : tree A) (ctx : list (frame A)) (k key : Key A).

(** A node was split: [t1] is in the hole of [ctx], [t2] has to get a place after it, with
    separator [k]. *)
Record split_state pgs e ctx t1 k t2 (h : nat) : Prop := {
  ss_hdr : hdr_wf (e_fh e);
  ss_nodup : NoDup (pids t1 ++ pids t2 ++ cpids ctx);
  ss_pos : Forall (λ p, 0 ≤ p) (pids t1 ++ pids t2 ++ cpids ctx);
  ss_dom : ∀ p, is_Some (pgs !! p) → p ∈ bp_pages (e_bp e);
  ss_crepr : crepr pgs ctx (root t1);
  ss_repr1 : repr pgs (ctx_par ctx) t1;
  ss_repr2 : ∃ par, repr pgs par t2;
  ss_chain : chain pgs (clpre ctx ++ leaves t1 ++ leaves t2 ++ clpost ctx);
  ss_cbal : cbal h ctx;
  ss_bal1 : bal h t1;
  ss_bal2 : bal h t2;
  ss_cocc : cocc (e_fh e) ctx;
  ss_occ1 : occ (e_fh e) t1;
  ss_occ2 : occ (e_fh e) t2;
  ss_ckeys : ckeys ctx;
  ss_keys1 : keys_ok t1;
  ss_keys2 : keys_ok t2;
  ss_lk1 : lk_opt (req ctx) t1;
  ss_lk2 : left_keys k t2;
  ss_sorted : msorted cmp (cpre ctx ++ marks t1 ++ MSep k :: marks t2 ++ cpost ctx);
  ss_valid : mvalid ok (cpre ctx ++ marks t1 ++ MSep k :: marks t2 ++ cpost ctx);
  ss_root : root_page (e_fh e) = root (plug ctx t1);
}.

(** The pages after the change hold the tree [T]; [fresh] are the pages it took. *)
Record grown pgs e pgs' e' (fresh : list Z) (T : tree A) : Prop := {
  gr_repr : repr pgs' BP_INVALID_PAGE_NUM T;
  gr_chain : chain pgs' (leaves T);
  gr_keys : keys_ok T;
  gr_bal : ∃ h, bal h T;
  gr_occ : root_occ (e_fh e) T;
  gr_fh : e_fh e' = with_root (e_fh e) (root T);
  gr_hp : e_hp e' = e_hp e ∨ e_hp e' = with_root (e_hp e) (root T);
  gr_hp_root : root_page (e_hp e) = root_page (e_fh e) → root_page (e_hp e') = root T;
  gr_disp : e_disp e' = e_disp e;
  gr_bp : bp_pages (e_bp e') = list_to_set fresh ∪ bp_pages (e_bp e);
  gr_fresh : Forall (λ p, 0 ≤ p ∧ p ∉ bp_pages (e_bp e)) fresh;
  gr_fresh_nodup : NoDup fresh;
  gr_dom : dom pgs' = list_to_set fresh ∪ dom pgs;
}.

Lemma with_root_same (hd : IndexFileHeader) : with_root hd (root_page hd) = hd.
Proof. by destruct hd. Qed.

Lemma with_root_twice hd r r' : with_root (with_root hd r) r' = with_root hd r'.
Proof. done. Qed.

Lemma hdr_wf_root hd r : hdr_wf hd → hdr_wf (with_root hd r).
Proof. by intros []. Qed.

(** *** The root was split *)
Lemma insert_new_root pgs e t1 k t2 h fuel :
  split_state pgs e [] t1 k t2 h → (1 ≤ bp_free (e_bp e))%nat →
  ∃ pgs' e' fresh T,
    runs (insert_entry_into_parent key_comparator_ zero_key (S fuel) (root t1) (root t2) k)
         pgs e tt pgs' e' ∧
    grown pgs e pgs' e' fresh T ∧ marks T = marks t1 ++ MSep k :: marks t2 ∧
    leaves T = leaves t1 ++ leaves t2 ∧ pids T ≡ₚ fresh ++ pids t1 ++ pids t2.
Proof using Type*.
  intros [Hhdr Hnd Hpos Hdom Hcr Hr1 [par2 Hr2] Hch Hcb Hb1 Hb2 Hco Ho1 Ho2 Hck Hk1 Hk2 Hlk1 Hlk2 Hso Hva Hro] Hfree.
  simpl in *. rewrite app_nil_r in Hnd, Hpos, Hch.
  destruct (bp_allocate_room (e_bp e) 0 Hfree) as (b & rp & Hb & Hrp0 & Hrp & Hbp & _).
  destruct (repr_root _ _ _ Hr1) as (n1 & Hn1 & Hp1).
  destruct (repr_root _ _ _ Hr2) as (n2 & Hn2 & Hp2).
  assert (Hrp1 : pgs !! rp = None).
  { destruct (pgs !! rp) eqn:E; [|done]. destruct Hrp. apply Hdom. eauto. }
  apply NoDup_app in Hnd as (Hnd1 & Hdis & Hnd2).
  assert (Hne : root t1 ≠ root t2).
  { intros E. apply (Hdis (root t1)); [apply root_in_pids|]. rewrite E. apply root_in_pids. }
  assert (Hrpt : ∀ t par q, repr pgs par t → q ∈ pids t → q ≠ rp).
  { intros t par q Hr Hq ->. destruct (repr_dom _ _ _ _ Hr Hq). congruence. }
  set (T := TNode rp [(zero_key, t1); (k, t2)]).
  set (pgs1 := <[root t1 := set_parent n1 rp]>
                 (<[rp := InternalNode BP_INVALID_PAGE_NUM (kitems [(zero_key, t1); (k, t2)])]> pgs)).
  exists (<[root t2 := set_parent n2 rp]> pgs1).
  exists (mkEnv (with_root (e_hp e) rp) (with_root (e_fh e) rp) b (e_disp e)), [rp], T.
  split.
  { cbn [insert_entry_into_parent].
    eapply runs_bind; [by apply runs_get_node|]. cbv zeta. rewrite Hp1, Z.eqb_refl.
    eapply runs_bind; [by apply runs_pool_allocate_page|].
    eapply runs_bind; [apply runs_ignore, runs_internal_init_empty|]. rewrite insert_insert_eq.
    eapply runs_bind.
    { apply runs_ignore. eapply runs_bind; [apply runs_append_log_entry|].
      eapply runs_bind; [apply runs_get_internal, lookup_insert_eq|]. apply runs_put_node. }
    rewrite insert_insert_eq. eapply runs_bind.
    { apply runs_ignore, runs_set_parent. rewrite lookup_insert_ne; [exact Hn1|].
      intros E. by eapply (Hrpt t1); [exact Hr1 | apply root_in_pids |]. }
    eapply runs_bind.
    { apply runs_ignore, runs_set_parent. rewrite !lookup_insert_ne; [exact Hn2|..].
      - intros E. by eapply (Hrpt t2); [exact Hr2 | apply root_in_pids |].
      - done. }
    eapply runs_eq; [apply runs_update_root | done | done]. }
  split; [|by split_and!; simpl; rewrite ?app_nil_r].
  constructor; try done.
  - unfold T. apply repr_node. split.
    + unfold pgs1. rewrite lookup_insert_ne, lookup_insert_ne; [by rewrite lookup_insert_eq|..].
      * intros E. by eapply (Hrpt t1); [exact Hr1 | apply root_in_pids |].
      * intros E. by eapply (Hrpt t2); [exact Hr2 | apply root_in_pids |].
    + apply Forall_cons. split; [|apply Forall_cons; split; [|constructor]]; simpl.
      * apply (repr_reparent pgs _ BP_INVALID_PAGE_NUM); try done.
        -- intros n Hn. unfold pgs1. rewrite lookup_insert_ne, lookup_insert_eq by done. congruence.
        -- intros q Hq Hqr. unfold pgs1. rewrite !lookup_insert_ne; try done.
           ++ intros <-. by eapply (Hrpt t1); [exact Hr1 | exact Hq |].
           ++ intros <-. apply (Hdis (root t2)); [done | apply root_in_pids].
      * apply (repr_reparent pgs _ par2); try done.
        -- intros n Hn. rewrite lookup_insert_eq. congruence.
        -- intros q Hq Hqr. unfold pgs1. rewrite !lookup_insert_ne; try done.
           ++ intros <-. by eapply (Hrpt t2); [exact Hr2 | exact Hq |].
           ++ intros <-. apply (Hdis (root t1)); [apply root_in_pids | done].
  - unfold T. simpl. rewrite app_nil_r. eapply chain_frame; [|exact Hch].
    intros q Hq. assert (q ≠ rp).
    { apply elem_of_app in Hq as [Hq|Hq]; apply leaves_pids in Hq; [exact (Hrpt t1 _ _ Hr1 Hq) | exact (Hrpt t2 _ _ Hr2 Hq)]. }
    destruct (decide (q = root t2)) as [->|]; [|destruct (decide (q = root t1)) as [->|]].
    + apply (repr_next_of _ _ _ rp). exists n2. by rewrite lookup_insert_eq.
    + apply (repr_next_of _ _ _ rp). exists n1. unfold pgs1.
      by rewrite lookup_insert_ne, lookup_insert_eq.
    + unfold next_of, pgs1. by rewrite !lookup_insert_ne.
  - unfold T. apply keys_ok_node. split; [by repeat constructor|]. simpl. by repeat constructor.
  - exists (S h). unfold T. apply bal_node. by repeat constructor.
  - unfold T. simpl. destruct Hhdr. split; [lia|]. by repeat constructor.
  - right. done.
  - simpl. rewrite Hbp. set_solver.
  - by constructor.
  - repeat constructor. set_solver.
  - unfold pgs1. rewrite !dom_insert_L. simpl.
    assert (root t1 ∈ dom pgs) by (apply elem_of_dom; eauto).
    assert (root t2 ∈ dom pgs) by (apply elem_of_dom; eauto). set_solver.
Qed.
Lemma runs_internal_insert p par l1 l2 key c pgs e i :
  pgs !! p = Some (InternalNode par (l1 ++ l2)) →
  internal_lookup cmp (l1 ++ l2) key = Some (i, Z.of_nat (length l1)) →
  internal_fits (e_fh e) (S (length (l1 ++ l2))) →
  runs (internal_insert key_comparator_ p key c) pgs e tt
       (<[p := InternalNode par (l1 ++ (key, c) :: l2)]> pgs) e.
Proof.
  intros Hp Hlk Hf. eapply runs_bind; [by apply runs_get_internal|].
  eapply runs_bind; [by apply runs_of_option|]. eapply runs_bind; [apply runs_append_log_entry|].
  apply (runs_handler_insert_internal p par l1 l2 [(key, c)]); try done.
  rewrite !length_app in *. simpl. by rewrite Nat.add_succ_r.
Qed.

(** The new child goes behind the hole of a node with room. *)
Lemma insert_child p par f t1 k t2 pgs e :
  pgs !! p = Some (InternalNode par (kitems (fl f ++ (fk f, t1) :: fr f))) →
  msorted cmp (fpre f ++ MSep k :: kmarks (fr f)) → mvalid ok (fpre f ++ MSep k :: kmarks (fr f)) →
  internal_fits (e_fh e) (S (length (fl f ++ (fk f, t1) :: fr f))) →
  runs (internal_insert key_comparator_ p k (root t2)) pgs e tt
       (<[p := InternalNode par (kitems (fl f ++ (fk f, t1) :: (k, t2) :: fr f))]> pgs) e.
Proof using Type*.
  intros Hp Hs Hv Hf. destruct (sep_position cmp ok f t1 k Hs Hv) as [i Hi].
  assert (Hsplit : ∀ R, kitems (fl f ++ (fk f, t1) :: R) = kitems (fl f ++ [(fk f, t1)]) ++ kitems R).
  { intros R. by rewrite <- kitems_app, <- app_assoc. }
  rewrite Hsplit in Hp, Hi. rewrite Hsplit.
  apply (runs_internal_insert p par _ (kitems (fr f)) k (root t2) pgs e i); try done.
  - by rewrite kitems_length, length_app, Nat.add_comm.
  - rewrite <- Hsplit, kitems_length. done.
Qed.

(** The marks around a hole, from those of the whole tree. *)
Lemma around_hole f ctx (m : list (mark A)) (P : list (mark A) → Prop) :
  cpre (f :: ctx) ++ m ++ cpost (f :: ctx) = cpre ctx ++ (fpre f ++ m ++ kmarks (fr f)) ++ cpost ctx.
Proof. simpl. by rewrite <- !app_assoc. Qed.

Lemma hole_marks f ctx t1 k t2 :
  msorted cmp (cpre (f :: ctx) ++ marks t1 ++ MSep k :: marks t2 ++ cpost (f :: ctx)) →
  mvalid ok (cpre (f :: ctx) ++ marks t1 ++ MSep k :: marks t2 ++ cpost (f :: ctx)) →
  msorted cmp (fpre f ++ MSep k :: kmarks (fr f)) ∧ mvalid ok (fpre f ++ MSep k :: kmarks (fr f)).
Proof.
  assert (Hsub : (fpre f ++ MSep k :: kmarks (fr f)) `sublist_of`
                 (cpre (f :: ctx) ++ marks t1 ++ MSep k :: marks t2 ++ cpost (f :: ctx))).
  { simpl. rewrite <- app_assoc. apply sublist_inserts_l, sublist_app; [done|].
    apply sublist_inserts_l. constructor. apply sublist_inserts_l. by apply sublist_inserts_r. }
  intros Hs Hv. split; [by eapply StronglySorted_sublist|].
  unfold mvalid in *. rewrite Forall_forall in Hv. rewrite Forall_forall. intros x Hx. apply Hv.
  by eapply elem_of_sublist.
Qed.

(** The children of the parent with the new one among them. *)
Definition joined f t1 k t2 : list (Key A * tree A) := fl f ++ (fk f, t1) :: (k, t2) :: fr f.

Lemma joined_ok hd f ctx t1 k t2 h p :
  cbal h (f :: ctx) → cocc hd (f :: ctx) → ckeys (f :: ctx) →
  bal h t1 → bal h t2 → occ hd t1 → occ hd t2 → keys_ok t1 → keys_ok t2 →
  lk_opt (req (f :: ctx)) t1 → left_keys k t2 →
  keys_ok (TNode p (joined f t1 k t2)) ∧ lk_opt (req ctx) (TNode p (joined f t1 k t2)) ∧
  bal (S h) (TNode p (joined f t1 k t2)) ∧ Forall (λ kt, occ hd kt.2) (joined f t1 k t2).
Proof.
  intros [Hcbs _] [_ [Hco _]] (Hck1 & Hck2 & Hck3 & _) Hb1 Hb2 Ho1 Ho2 Hk1 Hk2 Hlk1 Hlk2.
  unfold joined. split_and!.
  - apply keys_ok_node. apply Forall_app in Hck1 as [Hck1L Hck1R].
    split; [by apply Forall_app; split; [|by repeat constructor]|].
    cbn [req] in Hlk1. destruct (fl f) as [|[k0 t0] L]; simpl in *.
    + by apply Forall_cons.
    + apply Forall_app in Hck2 as [Hck2L Hck2R]. apply Forall_app. by repeat constructor.
  - cbn [req] in Hlk1. unfold lk_opt. destruct (req ctx) as [k'|]; [|done].
    destruct (fl f) as [|[k0 t0] L]; simpl in *; [by subst|done].
  - apply bal_node. apply Forall_app in Hcbs as [HcbL HcbR]. apply Forall_app. by repeat constructor.
  - apply Forall_app in Hco as [HcoL HcoR]. apply Forall_app. by repeat constructor.
Qed.

Lemma joined_length f t1 k t2 :
  Z.of_nat (length (joined f t1 k t2)) = Z.of_nat (length (fl f) + 1 + length (fr f)) + 1.
Proof. unfold joined. rewrite length_app. simpl. lia. Qed.

Lemma joined_marks f t1 k t2 :
  tail (kmarks (joined f t1 k t2)) = fpre f ++ marks t1 ++ MSep k :: marks t2 ++ kmarks (fr f).
Proof.
  unfold joined, fpre. rewrite kmarks_app, !kmarks_cons.
  destruct (fl f) as [|[k0 t0] L]; simpl; [done|]. by rewrite <- !app_assoc.
Qed.

Lemma insert_in_room pgs e f ctx t1 k t2 h fuel :
  split_state pgs e (f :: ctx) t1 k t2 h →
  Z.of_nat (length (fl f) + 1 + length (fr f)) < internal_max_size (e_fh e) →
  ∃ pgs' T,
    runs (insert_entry_into_parent key_comparator_ zero_key (S fuel) (root t1) (root t2) k)
         pgs e tt pgs' e ∧
    grown pgs e pgs' e [] T ∧
    T = plug ctx (TNode (fp f) (joined f t1 k t2)).
Proof using Type*.
  intros [Hhdr Hnd Hpos Hdom [Hfp [Hsib Hcr]] Hr1 [par2 Hr2] Hch Hcb Hb1 Hb2 Hco Ho1 Ho2
    Hck Hk1 Hk2 Hlk1 Hlk2 Hso Hva Hro] Hroom.
  destruct (joined_ok (e_fh e) f ctx t1 k t2 h (fp f)) as (HJk & HJl & HJb & HJo); try done.
  destruct Hcb as [_ Hcb]. destruct Hco as [Hsz [_ Hcc]]. destruct Hck as (_ & _ & _ & Hck).
  destruct (hole_marks _ _ _ _ _ Hso Hva) as [Hs Hv].
  destruct (repr_root _ _ _ Hr1) as (n1 & Hn1 & Hp1).
  destruct (repr_root _ _ _ Hr2) as (n2 & Hn2 & Hp2). cbn [ctx_par] in *. cbn [cpids] in *.
  set (kids := joined f t1 k t2) in *.
  set (par := ctx_par ctx) in *.
  set (pgs1 := <[fp f := InternalNode par (kitems kids)]> pgs).
  set (pgs2 := <[root t2 := set_parent n2 (fp f)]> pgs1).
  apply NoDup_app in Hnd as (Hnd1 & Hd1 & Hnd). apply NoDup_app in Hnd as (Hnd2 & Hd2 & Hnd).
  apply NoDup_cons in Hnd as (Hd3 & Hnd). apply NoDup_app in Hnd as (Hndk & Hd4 & Hndc).
  pose proof (root_in_pids t1) as Hin1. pose proof (root_in_pids t2) as Hin2.
  assert (Hf2 : fp f ≠ root t2) by (intros E; apply (Hd2 (root t2)); [done | rewrite <- E; set_solver]).
  assert (Hf1 : fp f ≠ root t1) by (intros E; apply (Hd1 (root t1)); [done | rewrite <- E; set_solver]).
  assert (Hother : ∀ q, q ≠ fp f → q ≠ root t2 → pgs2 !! q = pgs !! q).
  { intros q ??. unfold pgs2, pgs1. by rewrite !lookup_insert_ne. }
  assert (Hfp' : fp f ≠ BP_INVALID_PAGE_NUM).
  { rewrite !Forall_app, Forall_cons in Hpos. unfold BP_INVALID_PAGE_NUM. lia. }
  assert (Hlen : Z.of_nat (length kids) = Z.of_nat (length (fl f) + 1 + length (fr f)) + 1).
  { apply joined_length. }
  exists pgs2, (plug ctx (TNode (fp f) kids)). split; [|split; [|done]].
  { cbn [insert_entry_into_parent]. eapply runs_bind; [by apply runs_get_node|]. cbv zeta.
    rewrite Hp1, (proj2 (Z.eqb_neq _ _)) by done.
    eapply runs_bind; [by eapply runs_get_page|]. eapply runs_bind; [by apply runs_get_node|].
    eapply runs_bind; [apply runs_header|]. cbn [size max_size is_leaf].
    rewrite length_app. cbn [length]. rewrite !kitems_length, (proj2 (Z.ltb_lt _ _)) by lia.
    eapply runs_bind.
    { apply runs_ignore, insert_child; [|done|done|].
      - rewrite Hfp. unfold par. rewrite kitems_app. done.
      - apply hdr_internal_fits; [done|]. rewrite length_app. simpl. lia. }
    apply runs_ignore, runs_set_parent. unfold pgs1. by rewrite lookup_insert_ne. }
  constructor; try done.
  - apply repr_plug. split.
    + cbn [root]. eapply crepr_frame; [|exact Hcr]. intros q Hq. apply Hother.
      * intros ->. apply Hd3. set_solver.
      * intros ->. apply (Hd2 (root t2)); [done|]. set_solver.
    + apply repr_node. split.
      { unfold pgs2, pgs1. rewrite lookup_insert_ne by done. by rewrite lookup_insert_eq. }
      assert (Hk : ∀ t, (∀ q, q ∈ pids t → q ∈ kpids (fl f ++ fr f)) → repr pgs (fp f) t → repr pgs2 (fp f) t).
      { intros t Ht Hr. eapply repr_frame; [|exact Hr]. intros q Hq%Ht. apply Hother.
        - intros ->. apply Hd3. set_solver.
        - intros ->. apply (Hd2 (root t2)); [done|]. set_solver. }
      assert (HkF : Forall (λ kt, repr pgs2 (fp f) kt.2) (fl f ++ fr f)).
      { rewrite Forall_forall in Hsib. rewrite Forall_forall. intros kt Hkt.
        apply Hk; [|by apply Hsib]. intros q Hq. apply kpids_elem. eauto. }
      apply Forall_app in HkF as [HkL HkR]. unfold kids, joined. apply Forall_app. split; [done|].
      apply Forall_cons. split; [|apply Forall_cons; split; [|done]]; simpl.
      * eapply repr_frame; [|exact Hr1]. intros q Hq. apply Hother.
        -- intros ->. apply (Hd1 (fp f)); [done|]. set_solver.
        -- intros ->. apply (Hd1 (root t2)); [done|]. set_solver.
      * apply (repr_reparent pgs _ par2); try done.
        -- intros n Hn. unfold pgs2. rewrite lookup_insert_eq. congruence.
        -- intros q Hq Hne. apply Hother; [|done]. intros ->. apply (Hd2 (fp f)); [done|]. set_solver.
  - rewrite leaves_plug. unfold kids, joined. change (leaves (TNode _ ?l)) with (kleaves l).
    rewrite kleaves_app, !kleaves_cons. simpl in Hch. rewrite <- !app_assoc in Hch. rewrite <- !app_assoc.
    eapply chain_frame; [|exact Hch]. intros q _.
    destruct (decide (q = root t2)) as [->|Hq2].
    + apply (repr_next_of _ _ _ (fp f)). exists n2. unfold pgs2. by rewrite lookup_insert_eq.
    + destruct (decide (q = fp f)) as [->|Hq1].
      * unfold next_of, pgs2, pgs1. rewrite lookup_insert_ne, lookup_insert_eq by done. by rewrite Hfp.
      * unfold next_of. by rewrite Hother.
  - by apply keys_ok_plug.
  - exists (length ctx + S h)%nat. by apply bal_plug.
  - apply occ_plug. split; [done|]. apply hole_occ_node. rewrite Hlen. split; [lia | done].
  - rewrite <- (root_plug ctx (fill f t1)) by done. cbn [plug] in Hro. rewrite <- Hro.
    by rewrite with_root_same.
  - by left.
  - intros Heq. rewrite Heq, Hro. by apply (root_plug ctx (fill f t1) (TNode (fp f) kids)).
  - simpl. set_solver.
  - constructor.
  - unfold pgs2, pgs1. rewrite !dom_insert_L. simpl.
    assert (fp f ∈ dom pgs) by (apply elem_of_dom; eauto).
    assert (root t2 ∈ dom pgs) by (apply elem_of_dom; eauto). set_solver.
Qed.
(** *** The parent was full *)
Lemma marks_split p q (KL KR : list (Key A * tree A)) k0 t0 :
  KL ≠ [] →
  marks (TNode p KL) ++ MSep k0 :: marks (TNode q ((k0, t0) :: KR)) =
    tail (kmarks (KL ++ (k0, t0) :: KR)).
Proof.
  intros Hne. destruct KL as [|[k1 t1] KL]; [done|].
  rewrite !marks_node, kmarks_app, !kmarks_cons. done.
Qed.

Lemma joined_root_elem f t1 k t2 kt q :
  kt ∈ joined f t1 k t2 → q ∈ pids kt.2 → q ∈ pids t1 ++ pids t2 ++ kpids (fl f ++ fr f).
Proof.
  unfold joined. rewrite kpids_app, !elem_of_app, !elem_of_cons, !kpids_elem.
  intros [Hk|[->|[->|Hk]]] Hq; simpl in *; eauto 10.
Qed.

Lemma joined_pids f t1 k t2 :
  kpids (joined f t1 k t2) ≡ₚ pids t1 ++ pids t2 ++ kpids (fl f ++ fr f).
Proof. unfold joined. rewrite !kpids_app, !kpids_cons. solve_Permutation. Qed.

Lemma joined_repr pgs f ctx t1 k t2 par2 kt :
  crepr pgs (f :: ctx) (root t1) → repr pgs (fp f) t1 → repr pgs par2 t2 →
  kt ∈ joined f t1 k t2 → ∃ par, repr pgs par kt.2.
Proof.
  intros (_ & Hsib & _) H1 H2. unfold joined. rewrite elem_of_app, !elem_of_cons.
  rewrite Forall_forall in Hsib.
  intros [Hk|[->|[->|Hk]]]; eauto; exists (fp f); apply Hsib, elem_of_app; tauto.
Qed.

(** What the split of the parent page and the insertion leave in the pages. *)
Record parent_split pgs (pg : Pages) (p np par : Z) (KL KR : list (Key A * tree A)) : Prop := {
  sp_left : pg !! p = Some (InternalNode par (kitems KL));
  sp_right : pg !! np = Some (InternalNode par (kitems KR));
  sp_lkids : ∀ kt n, kt ∈ KL → pgs !! root kt.2 = Some n → pg !! root kt.2 = Some (set_parent n p);
  sp_rkids : ∀ kt n, kt ∈ KR → pgs !! root kt.2 = Some n → pg !! root kt.2 = Some (set_parent n np);
  sp_other : ∀ q, q ≠ p → q ≠ np → (∀ kt, kt ∈ KL ++ KR → q ≠ root kt.2) → pg !! q = pgs !! q;
}.

(** Every page under the children keeps its leaf link. *)
Lemma parent_split_next pgs (pg : Pages) p np par KL KR q :
  parent_split pgs pg p np par KL KR →
  (∃ par' l, pgs !! p = Some (InternalNode par' l)) → pgs !! np = None →
  (∀ kt, kt ∈ KL ++ KR → is_Some (pgs !! root kt.2)) →
  next_of pg q = next_of pgs q.
Proof.
  intros [HL HR Hl Hr Ho] (par' & l & Hp) Hnp Hk.
  destruct (decide (q = p)) as [->|]; [unfold next_of; by rewrite HL, Hp|].
  destruct (decide (q = np)) as [->|]; [unfold next_of; by rewrite HR, Hnp|].
  destruct (decide (q ∈ (λ kt, root kt.2) <$> (KL ++ KR))) as [Hin|Hin].
  - apply list_elem_of_fmap in Hin as (kt & -> & Hkt). destruct (Hk _ Hkt) as [nd Hnd].
    apply elem_of_app in Hkt as [Hkt|Hkt]; eapply repr_next_of; exists nd; eauto.
  - unfold next_of. rewrite Ho; try done. intros kt Hkt ->. apply Hin.
    apply list_elem_of_fmap. eauto.
Qed.
(** The state after the parent was split is again a split state, one level up. *)
Lemma split_parent_state pgs e f ctx t1 k t2 h b np (pg : Pages) KL kf tf KR :
  split_state pgs e (f :: ctx) t1 k t2 h →
  np ∉ bp_pages (e_bp e) → 0 ≤ np → bp_pages b = {[np]} ∪ bp_pages (e_bp e) →
  joined f t1 k t2 = KL ++ (kf, tf) :: KR →
  min_of (internal_max_size (e_fh e)) ≤ Z.of_nat (length KL) ≤ internal_max_size (e_fh e) →
  min_of (internal_max_size (e_fh e)) ≤ Z.of_nat (length ((kf, tf) :: KR)) ≤ internal_max_size (e_fh e) →
  parent_split pgs pg (fp f) np (ctx_par ctx) KL ((kf, tf) :: KR) →
  dom pg = {[np]} ∪ dom pgs →
  split_state pg (mkEnv (e_hp e) (e_fh e) b (e_disp e)) ctx (TNode (fp f) KL) kf
    (TNode np ((kf, tf) :: KR)) (S h).
Proof using Type*.
  intros [Hhdr Hnd Hpos Hdom Hcr Hr1 [par2 Hr2] Hch Hcb Hb1 Hb2 Hco Ho1 Ho2
    Hck Hk1 Hk2 Hlk1 Hlk2 Hso Hva Hro] Hnp Hnp0 Hbp HJ HszL HszR Hps Hdomg.
  destruct (joined_ok (e_fh e) f ctx t1 k t2 h (fp f)) as (HJk & HJl & HJb & HJo); try done.
  pose proof (joined_marks f t1 k t2) as HJm. pose proof (joined_pids f t1 k t2) as HJp.
  assert (Hrep : ∀ kt, kt ∈ joined f t1 k t2 → ∃ par, repr pgs par kt.2).
  { intros kt. by eapply joined_repr. }
  assert (HJq : ∀ kt q, kt ∈ joined f t1 k t2 → q ∈ pids kt.2 →
                 q ∈ pids t1 ++ pids t2 ++ kpids (fl f ++ fr f)).
  { intros kt q. apply joined_root_elem. }
  rewrite HJ in HJk, HJl, HJb, HJo, HJm, HJp, Hrep, HJq.
  set (T2 := (kf, tf) :: KR) in *.
  assert (HKL : KL ≠ []).
  { intros ->. destruct Hhdr. simpl in HszL.
    pose proof (min_of_bounds (internal_max_size (e_fh e))). lia. }
  cbn [cpids] in Hnd, Hpos.
  assert (Hperm : pids t1 ++ pids t2 ++ fp f :: kpids (fl f ++ fr f) ++ cpids ctx ≡ₚ
                  fp f :: kpids (KL ++ T2) ++ cpids ctx) by (rewrite HJp; solve_Permutation).
  rewrite Hperm in Hnd. rewrite Hperm in Hpos.
  assert (Hnpp : pgs !! np = None).
  { destruct (pgs !! np) eqn:E; [|done]. destruct Hnp. apply Hdom. eauto. }
  assert (Hinp : ∀ q, q ∈ fp f :: kpids (KL ++ T2) ++ cpids ctx → q ≠ np).
  { intros q Hq ->. apply elem_of_cons in Hq as [->|[Hq|Hq]%elem_of_app].
    - destruct Hcr as [Hfp _]. congruence.
    - apply kpids_elem in Hq as (kt & Hkt & Hq). destruct (Hrep _ Hkt) as [par Hr].
      destruct (repr_dom _ _ _ _ Hr Hq). congruence.
    - destruct Hcr as (_ & _ & Hcr). destruct (crepr_dom _ _ _ _ Hcr Hq). congruence. }
  apply NoDup_cons in Hnd as (Hd3 & Hnd). pose proof Hnd as (Hndk & Hd4 & Hndc)%NoDup_app.
  assert (Hkr : ∀ kt, kt ∈ KL ++ T2 → root kt.2 ∈ kpids (KL ++ T2)).
  { intros kt Hkt. apply kpids_elem. exists kt. split; [done | apply root_in_pids]. }
  assert (Hoth : ∀ q, q ≠ fp f → q ≠ np → q ∉ kpids (KL ++ T2) → pg !! q = pgs !! q).
  { intros q Hq1 Hq2 Hq3. apply (sp_other _ _ _ _ _ _ _ Hps); try done.
    intros kt Hkt ->. by apply Hq3, Hkr. }
  assert (Hkid : ∀ kt q, kt ∈ KL ++ T2 → q ∈ pids kt.2 → q ≠ root kt.2 → pg !! q = pgs !! q).
  { intros kt q Hkt Hq Hne. apply (sp_other _ _ _ _ _ _ _ Hps).
    - intros ->. apply Hd3, elem_of_app. left. apply kpids_elem. eauto.
    - apply Hinp. apply list_elem_of_further, elem_of_app. left. apply kpids_elem. eauto.
    - intros kt' Hkt' ->. assert (kt' = kt) as ->; [|done].
      eapply kpids_unique; [exact Hndk|done|done|apply root_in_pids|done]. }
  assert (Hmk : cpre ctx ++ marks (TNode (fp f) KL) ++ MSep kf :: marks (TNode np T2) ++ cpost ctx =
                cpre (f :: ctx) ++ marks t1 ++ MSep k :: marks t2 ++ cpost (f :: ctx)).
  { pose proof (marks_split (fp f) np KL KR kf tf HKL) as Hms. fold T2 in Hms. rewrite HJm in Hms.
    cbn [cpre cpost]. rewrite <- app_assoc. f_equal.
    change (MSep kf :: ?l ++ ?m) with ((MSep kf :: l) ++ m). rewrite app_assoc, Hms.
    rewrite <- !app_assoc. cbn [app]. by rewrite <- !app_assoc. }
  constructor; cbn [e_fh e_bp e_hp e_disp]; try done.
  - change (pids (TNode ?p ?l)) with (p :: kpids l).
    assert ((fp f :: kpids KL) ++ (np :: kpids T2) ++ cpids ctx ≡ₚ
            np :: fp f :: kpids (KL ++ T2) ++ cpids ctx) as ->.
    { rewrite kpids_app. solve_Permutation. }
    apply NoDup_cons. split; [intros Hq; by apply Hinp in Hq|]. by apply NoDup_cons.
  - change (pids (TNode ?p ?l)) with (p :: kpids l). rewrite kpids_app in Hpos.
    rewrite Forall_cons, !Forall_app in Hpos. rewrite !Forall_app, !Forall_cons. tauto.
  - intros q [nd Hq]. rewrite Hbp. destruct (decide (q = np)) as [->|]; [set_solver|].
    assert (q ∈ dom pg) as Hqd by (apply elem_of_dom; eauto). rewrite Hdomg in Hqd.
    apply elem_of_union in Hqd as [?|Hqd]; [set_solver|]. apply elem_of_dom in Hqd.
    specialize (Hdom q Hqd). set_solver.
  - eapply crepr_frame; [|apply Hcr]. intros q Hq. apply Hoth.
    + intros ->. apply Hd3. set_solver.
    + apply Hinp. set_solver.
    + intros Hq'. by apply (Hd4 q).
  - apply repr_node. split; [apply (sp_left _ _ _ _ _ _ _ Hps)|].
    rewrite Forall_forall. intros kt Hkt.
    assert (Hkt' : kt ∈ KL ++ T2) by (apply elem_of_app; by left). destruct (Hrep _ Hkt') as [par Hr].
    apply (repr_reparent pgs _ par); try done.
    + by eapply kpids_NoDup_elem.
    + intros nd Hn. by apply (sp_lkids _ _ _ _ _ _ _ Hps).
    + intros q Hq Hne. by apply (Hkid kt).
  - exists (ctx_par ctx). apply repr_node. split; [apply (sp_right _ _ _ _ _ _ _ Hps)|].
    rewrite Forall_forall. intros kt Hkt.
    assert (Hkt' : kt ∈ KL ++ T2) by (apply elem_of_app; by right). destruct (Hrep _ Hkt') as [par Hr].
    apply (repr_reparent pgs _ par); try done.
    + by eapply kpids_NoDup_elem.
    + intros nd Hn. by apply (sp_rkids _ _ _ _ _ _ _ Hps).
    + intros q Hq Hne. by apply (Hkid kt).
  - change (leaves (TNode ?p ?l)) with (kleaves l).
    assert (kleaves KL ++ kleaves T2 ++ clpost ctx =
            kleaves (fl f) ++ leaves t1 ++ leaves t2 ++ kleaves (fr f) ++ clpost ctx) as ->.
    { rewrite app_assoc, <- kleaves_app, <- HJ. unfold joined.
      by rewrite kleaves_app, !kleaves_cons, <- !app_assoc. }
    simpl in Hch. rewrite <- !app_assoc in Hch. eapply chain_frame; [|exact Hch].
    intros q _. eapply parent_split_next; [exact Hps| |done|].
    + destruct Hcr as [Hfp _]. eauto.
    + intros kt Hkt. destruct (Hrep _ Hkt) as [par Hr]. destruct (repr_root _ _ _ Hr) as (nd & -> & _). eauto.
  - apply Hcb.
  - apply bal_node in HJb. apply Forall_app in HJb as [HJb _]. by apply bal_node.
  - apply bal_node in HJb. apply Forall_app in HJb as [_ HJb]. by apply bal_node.
  - apply Hco.
  - apply Forall_app in HJo as [HJo _]. by apply occ_node.
  - apply Forall_app in HJo as [_ HJo]. by apply occ_node.
  - apply Hck.
  - apply keys_ok_node in HJk as [HJk HJt]. apply Forall_app in HJk as [HJk _]. apply keys_ok_node.
    split; [done|]. destruct KL as [|kt KL]; [done|]. simpl in *. by apply Forall_app in HJt as [? _].
  - apply keys_ok_node in HJk as [HJk HJt]. apply Forall_app in HJk as [_ HJk]. apply keys_ok_node.
    split; [done|]. destruct KL as [|kt KL]; [done|]. simpl in *. apply Forall_app in HJt as [_ HJt].
    by apply Forall_cons in HJt as [_ ?].
  - unfold lk_opt in *. destruct (req ctx); [|done]. by destruct KL as [|[kz tz] KL].
  - apply keys_ok_node in HJk as [_ HJt]. destruct KL as [|kt KL]; [done|]. simpl in *.
    apply Forall_app in HJt as [_ HJt]. by apply Forall_cons in HJt as [? _].
  - by rewrite Hmk.
  - by rewrite Hmk.
  - rewrite Hro. cbn [plug]. by apply root_plug.
Qed.
End insert.
