(* ===== verification/BplusSplit.v ===== *)
(** * Splitting a full parent, up to the root

    A child that was split hands a new key to its parent; the parent may be full and split in turn, and at the end the tree
    may get a new root.  The induction runs along the path to the root. *)
From stdpp Require Import sorting.
From S2P Require Import Prelude Rc BplusKey PageAlloc LowerBound BplusTree BplusGhost BplusWp BplusFind BplusInsert.

Section split.
Context {A B : Type} `{PageAllocator B} (key_comparator_ : KeyComparator A) (zero_key : Key A).
Context (ok : Key A → Prop) `{!TotalCompare (key_compare key_comparator_) ok}.
#[local] Abbreviation cmp := (key_compare key_comparator_).
#[local] Abbreviation Pages := (gmap Z (Node A)).
#[local] Abbreviation Internal := (InternalIndexNodeHandler (A := A) (B := B)).
Implicit Types (pgs : Pages) (e : env (B := B)) (t : tree A) (ctx : list (frame A)) (k key : Key A).
Implicit Types (kids KL KR : list (Key A * tree A)).

Definition kroots kids : list Z := (kitems kids).*2.

Lemma kroots_elem kids q : q ∈ kroots kids ↔ ∃ kt, kt ∈ kids ∧ q = root kt.2.
Proof.
  unfold kroots, kitems. rewrite list_elem_of_fmap. split.
  - intros ([k c] & -> & Hin). apply list_elem_of_fmap in Hin as (kt & [= -> ->] & Hkt). eauto.
  - intros (kt & Hkt & ->). exists (kt.1, root kt.2). split; [done|].
    apply list_elem_of_fmap. eauto.
Qed.

Lemma kroots_in kids kt : kt ∈ kids → root kt.2 ∈ kroots kids.
Proof. rewrite kroots_elem. eauto. Qed.

Lemma kroots_app KL KR : kroots (KL ++ KR) = kroots KL ++ kroots KR.
Proof. unfold kroots. by rewrite kitems_app, fmap_app. Qed.

Lemma set_parent_same (n : Node A) : set_parent n (parent_page_num n) = n.
Proof. by destruct n. Qed.

(** The state right after [split]: the children of the right half are adopted. *)
Lemma parent_split_start pgs p np par KL KR :
  np ≠ p → p ∉ kroots (KL ++ KR) → np ∉ kroots (KL ++ KR) → NoDup (kroots (KL ++ KR)) →
  (∀ kt, kt ∈ KL → ∃ n, pgs !! root kt.2 = Some n ∧ parent_page_num n = p) →
  parent_split pgs
    (<[p := InternalNode par (kitems KL)]>
       (adopt_all np (kroots KR) (<[np := InternalNode par (kitems KR)]> pgs))) p np par KL KR.
Proof.
  rewrite kroots_app. intros Hne Hp Hnp (_ & Hdis & _)%NoDup_app HL.
  apply not_elem_of_app in Hp as [Hp1 Hp2]. apply not_elem_of_app in Hnp as [Hn1 Hn2].
  constructor.
  - by rewrite lookup_insert_eq.
  - rewrite lookup_insert_ne by done. rewrite adopt_all_lookup, decide_False by done.
    by rewrite lookup_insert_eq.
  - intros kt n Hkt Hn. pose proof (kroots_in _ _ Hkt) as Hin.
    rewrite lookup_insert_ne by (intros ->; done).
    rewrite adopt_all_lookup, decide_False by (by apply Hdis).
    rewrite lookup_insert_ne by (intros ->; done).
    destruct (HL kt Hkt) as (n' & Hn' & <-). rewrite Hn' in Hn. injection Hn as <-.
    by rewrite set_parent_same.
  - intros kt n Hkt Hn. pose proof (kroots_in _ _ Hkt) as Hin.
    rewrite lookup_insert_ne by (intros ->; done).
    rewrite adopt_all_lookup, decide_True by done.
    rewrite lookup_insert_ne by (intros ->; done). by rewrite Hn.
  - intros q Hq1 Hq2 Hq3. rewrite lookup_insert_ne by done.
    rewrite adopt_all_lookup, decide_False.
    + by rewrite lookup_insert_ne.
    + intros (kt & Hkt & ->)%kroots_elem. apply (Hq3 kt); [apply elem_of_app; by right | done].
Qed.

(** A further child for the right half. *)
Lemma parent_split_right pgs (pg : Pages) p np par KL KR KR' k t2 n2 :
  parent_split pgs pg p np par KL KR → KR' ≡ₚ (k, t2) :: KR →
  NoDup (p :: np :: root t2 :: kroots (KL ++ KR)) → pgs !! root t2 = Some n2 →
  parent_split pgs (<[root t2 := set_parent n2 np]> (<[np := InternalNode par (kitems KR')]> pg))
    p np par KL KR'.
Proof.
  intros [HL HR Hl Hr Ho] HK Hnd Hn2. rewrite !NoDup_cons, !not_elem_of_cons, kroots_app in Hnd.
  rewrite !not_elem_of_app in Hnd. destruct Hnd as ((?&?&?&?) & (?&?&?) & (?&?) & _).
  constructor.
  - by rewrite !lookup_insert_ne.
  - rewrite lookup_insert_ne by done. by rewrite lookup_insert_eq.
  - intros kt n Hkt Hn. pose proof (kroots_in _ _ Hkt) as Hin.
    rewrite !lookup_insert_ne by congruence. by apply Hl.
  - intros kt n Hkt Hn. rewrite HK in Hkt. apply elem_of_cons in Hkt as [->|Hkt]; simpl in *.
    + rewrite lookup_insert_eq. congruence.
    + pose proof (kroots_in _ _ Hkt) as Hin.
      rewrite !lookup_insert_ne by congruence. by apply Hr.
  - intros q Hq1 Hq2 Hq3. rewrite lookup_insert_ne, lookup_insert_ne.
    + apply Ho; try done. intros kt Hkt. apply Hq3. rewrite HK. set_solver.
    + done.
    + apply not_eq_sym. apply (Hq3 (k, t2)). rewrite HK. set_solver.
Qed.

(** A further child for the left half. *)
Lemma parent_split_left pgs (pg : Pages) p np par KL KL' KR k t2 n2 :
  parent_split pgs pg p np par KL KR → KL' ≡ₚ (k, t2) :: KL →
  NoDup (p :: np :: root t2 :: kroots (KL ++ KR)) → pgs !! root t2 = Some n2 →
  parent_split pgs (<[root t2 := set_parent n2 p]> (<[p := InternalNode par (kitems KL')]> pg))
    p np par KL' KR.
Proof.
  intros [HL HR Hl Hr Ho] HK Hnd Hn2. rewrite !NoDup_cons, !not_elem_of_cons, kroots_app in Hnd.
  rewrite !not_elem_of_app in Hnd. destruct Hnd as ((?&?&?&?) & (?&?&?) & (?&?) & _).
  constructor.
  - rewrite lookup_insert_ne by done. by rewrite lookup_insert_eq.
  - by rewrite !lookup_insert_ne.
  - intros kt n Hkt Hn. rewrite HK in Hkt. apply elem_of_cons in Hkt as [->|Hkt]; simpl in *.
    + rewrite lookup_insert_eq. congruence.
    + pose proof (kroots_in _ _ Hkt) as Hin.
      rewrite !lookup_insert_ne by congruence. by apply Hl.
  - intros kt n Hkt Hn. pose proof (kroots_in _ _ Hkt) as Hin.
    rewrite !lookup_insert_ne by congruence. by apply Hr.
  - intros q Hq1 Hq2 Hq3. rewrite lookup_insert_ne, lookup_insert_ne.
    + apply Ho; try done. intros kt Hkt. apply Hq3. rewrite HK. set_solver.
    + done.
    + apply not_eq_sym. apply (Hq3 (k, t2)). rewrite HK. set_solver.
Qed.

Lemma kroots_sublist kids : kroots kids `sublist_of` kpids kids.
Proof.
  induction kids as [|[k t] kids IH]; [constructor|]. rewrite kpids_cons.
  change (kroots ((k, t) :: kids)) with ([root t] ++ kroots kids).
  apply sublist_app; [|done].
  destruct t; simpl; constructor; apply sublist_nil_l.
Qed.

(** What the pages hold around a hole whose node was split. *)
Lemma parent_facts pgs e f ctx t1 k t2 h np :
  split_state key_comparator_ ok pgs e (f :: ctx) t1 k t2 h → np ∉ bp_pages (e_bp e) →
  pgs !! fp f = Some (InternalNode (ctx_par ctx) (kitems (fl f ++ (fk f, t1) :: fr f))) ∧
  pgs !! np = None ∧ fp f ≠ BP_INVALID_PAGE_NUM ∧
  NoDup (fp f :: np :: root t2 :: kroots (fl f ++ (fk f, t1) :: fr f)) ∧
  (∀ kt, kt ∈ fl f ++ (fk f, t1) :: fr f →
     ∃ n, pgs !! root kt.2 = Some n ∧ parent_page_num n = fp f) ∧
  is_Some (pgs !! root t2).
Proof.
  intros [_ Hnd Hpos Hdom [Hfp [Hsib Hcr]] Hr1 [par2 Hr2] _ _ _ _ _ _ _ _ _ _ _ _ _ _ _] Hnp.
  assert (Hkid : ∀ kt, kt ∈ fl f ++ (fk f, t1) :: fr f → repr pgs (fp f) kt.2).
  { rewrite Forall_forall in Hsib. intros kt. rewrite elem_of_app, elem_of_cons.
    intros [Hin|[->|Hin]]; [|exact Hr1|]; apply Hsib; set_solver. }
  assert (Hnpp : pgs !! np = None).
  { destruct (pgs !! np) eqn:E; [|done]. destruct Hnp. apply Hdom. eauto. }
  assert (Hex : ∀ kt, kt ∈ fl f ++ (fk f, t1) :: fr f →
     ∃ n, pgs !! root kt.2 = Some n ∧ parent_page_num n = fp f) by eauto using repr_root.
  destruct (repr_root _ _ _ Hr2) as (n2 & Hn2 & _).
  split_and!; eauto.
  - rewrite kitems_app. exact Hfp.
  - cbn [cpids] in Hpos. rewrite !Forall_app, Forall_cons in Hpos. unfold BP_INVALID_PAGE_NUM. lia.
  - cbn [cpids] in Hnd.
    assert (Hnd' : NoDup (fp f :: pids t2 ++ kpids (fl f ++ (fk f, t1) :: fr f))).
    { apply (NoDup_app _ (cpids ctx)).
      assert (pids t1 ++ pids t2 ++ fp f :: kpids (fl f ++ fr f) ++ cpids ctx ≡ₚ
        (fp f :: pids t2 ++ kpids (fl f ++ (fk f, t1) :: fr f)) ++ cpids ctx) as <-; [|done].
      rewrite !kpids_app, kpids_cons. solve_Permutation. }
    assert (Hnd2 : NoDup (fp f :: root t2 :: kroots (fl f ++ (fk f, t1) :: fr f))).
    { eapply sublist_NoDup; [exact Hnd'|]. constructor.
      apply (sublist_app [_]); [|apply kroots_sublist].
      destruct t2; simpl; constructor; apply sublist_nil_l. }
    rewrite !NoDup_cons, !not_elem_of_cons in *. destruct Hnd2 as ((?&?) & ? & ?).
    split_and!; try done; try congruence. intros (kt & Hkt & ->)%kroots_elem.
    destruct (Hex _ Hkt) as (? & ? & _). congruence.
Qed.

(** The middle of a full node falls before or behind the hole. *)
Lemma split_halves f (m : nat) :
  (1 ≤ m ≤ length (fl f) + length (fr f))%nat →
  (∃ KL L2, fl f = KL ++ L2 ∧ length KL = m) ∨
  (∃ R1 KR, fr f = R1 ++ KR ∧ (length (fl f) + 1 + length R1 = m)%nat ∧ KR ≠ []).
Proof.
  intros Hm. destruct (decide (m ≤ length (fl f))%nat).
  - left. exists (take m (fl f)), (drop m (fl f)).
    rewrite take_drop, length_take. split; [done | lia].
  - right. exists (take (m - length (fl f) - 1) (fr f)), (drop (m - length (fl f) - 1) (fr f)).
    rewrite take_drop, length_take. split_and!; [done | lia|].
    intros E%(f_equal length). rewrite length_drop in E. simpl in E. lia.
Qed.

(** Where the first key of the right half lies, when the hole is in that half. *)
Lemma fpre_suffix KL L2 (kh : Key A) R p q :
  KL ≠ [] → ∃ m, fpre (mkFr p (KL ++ L2) kh R) = m ++ kmarks L2 ++ [MSep kh] ∧
                 fpre (mkFr q L2 kh R) `sublist_of` kmarks L2 ++ [MSep kh].
Proof.
  intros Hne. destruct KL as [|[k0 t0] KL]; [done|]. exists (marks t0 ++ kmarks KL).
  unfold fpre. cbn [fl fk app]. rewrite kmarks_cons, kmarks_app. cbn [tail].
  rewrite <- !app_assoc. split; [done|]. destruct L2 as [|[k1 u1] L2]; [apply sublist_nil_l|].
  rewrite kmarks_cons. by constructor.
Qed.

Lemma dom_adopt_all q cs pgs : dom (adopt_all q cs pgs) = dom pgs.
Proof.
  apply set_eq. intros x. rewrite !elem_of_dom, adopt_all_lookup.
  case_decide; [by rewrite fmap_is_Some | done].
Qed.

(** Splitting the parent and inserting the new child, then going on with [K]. *)
Definition split_insert (p : Z) k (new : Z) {U} (K : Z → Key A → M (State A B) U) : M (State A B) U :=
  new_parent ← split Internal p;
  nn ← get_node new_parent;
  first ← of_option (key_at nn 0);
  (if 0 <? cmp k first then
     ignore (internal_insert key_comparator_ new_parent k new);;
     ignore (set_parent_page_num new new_parent)
   else
     ignore (internal_insert key_comparator_ p k new);;
     ignore (set_parent_page_num new p));;
  nn ← get_node new_parent;
  first ← of_option (key_at nn 0);
  K new_parent first.

Lemma runs_split_insert pgs e p par kidsL kidsR kf tf k t2 n2 b np (q : Z) KL' KR' tf' :
  pgs !! p = Some (InternalNode par (kitems (kidsL ++ (kf, tf) :: kidsR))) →
  Z.of_nat (length kidsL) = Z.quot (Z.of_nat (length (kidsL ++ (kf, tf) :: kidsR))) 2 →
  bp_allocate (e_bp e) = (b, inl np) → pgs !! np = None →
  internal_fits (e_fh e) (length ((kf, tf) :: kidsR)) →
  (∀ kt, kt ∈ kidsL ++ (kf, tf) :: kidsR → ∃ n, pgs !! root kt.2 = Some n ∧ parent_page_num n = p) →
  NoDup (p :: np :: root t2 :: kroots (kidsL ++ (kf, tf) :: kidsR)) →
  pgs !! root t2 = Some n2 →
  q = (if 0 <? cmp k kf then np else p) →
  (∀ pg1 : Pages, pg1 !! p = Some (InternalNode par (kitems kidsL)) →
     pg1 !! np = Some (InternalNode par (kitems ((kf, tf) :: kidsR))) →
     runs (internal_insert key_comparator_ q k (root t2)) pg1 (mkEnv (e_hp e) (e_fh e) b (e_disp e)) tt
          (<[q := InternalNode par (kitems (if 0 <? cmp k kf then (kf, tf') :: KR' else KL'))]> pg1)
          (mkEnv (e_hp e) (e_fh e) b (e_disp e))) →
  (if 0 <? cmp k kf then (kf, tf') :: KR' ≡ₚ (k, t2) :: (kf, tf) :: kidsR ∧ KL' = kidsL
   else KL' ≡ₚ (k, t2) :: kidsL ∧ (kf, tf') :: KR' = (kf, tf) :: kidsR) →
  ∃ pg : Pages, parent_split pgs pg p np par KL' ((kf, tf') :: KR') ∧ dom pg = {[np]} ∪ dom pgs ∧
    ∀ U (K : Z → Key A → M (State A B) U) y pgs' e',
      runs (K np kf) pg (mkEnv (e_hp e) (e_fh e) b (e_disp e)) y pgs' e' →
      runs (split_insert p k (root t2) K) pgs e y pgs' e'.
Proof.
  intros Hp Hhalf Hb Hnp Hfit Hkids Hnd Hn2 Hq Hins HK.
  set (KR := (kf, tf) :: kidsR) in *. rewrite kitems_app in Hp.
  assert (Hnd' := Hnd). rewrite !NoDup_cons, !not_elem_of_cons in Hnd'.
  destruct Hnd' as ((Hpn & Hpt & Hpk) & (Hnt & Hnk) & Htk & Hndk).
  set (pg1 := <[p := InternalNode par (kitems kidsL)]>
                (adopt_all np (kroots KR) (<[np := InternalNode par (kitems KR)]> pgs))).
  assert (Hps : parent_split pgs pg1 p np par kidsL KR).
  { apply parent_split_start; try done. intros kt Hkt. apply Hkids, elem_of_app. by left. }
  set (pg2 := <[root t2 := set_parent n2 q]>
     (<[q := InternalNode par (kitems (if 0 <? cmp k kf then (kf, tf') :: KR' else KL'))]> pg1)).
  assert (Hps2 : parent_split pgs pg2 p np par KL' ((kf, tf') :: KR')).
  { unfold pg2. rewrite Hq. destruct (0 <? cmp k kf).
    - destruct HK as [HK ->]. by eapply parent_split_right.
    - destruct HK as [HK ->]. by eapply parent_split_left. }
  assert (Hqp : q = np ∨ q = p) by (rewrite Hq; destruct (0 <? cmp k kf); tauto).
  exists pg2. split; [done|]. split.
  { assert (Hd1 : p ∈ dom pgs) by (apply elem_of_dom; eauto).
    assert (Hd2 : root t2 ∈ dom pgs) by (apply elem_of_dom; eauto).
    unfold pg2, pg1. rewrite !dom_insert_L, dom_adopt_all, dom_insert_L.
    clear - Hd1 Hd2 Hqp. destruct Hqp as [-> | ->]; set_solver. }
  intros U K y pgs' e' HKr. eapply runs_bind.
  { apply runs_split_internal; [exact Hp| |exact Hb|done|by rewrite kitems_length|].
    - by rewrite <- kitems_app, !kitems_length.
    - intros c Hc. fold (kroots KR) in Hc. split; [|intros ->; apply Hpk; rewrite kroots_app; apply elem_of_app; by right].
      apply kroots_elem in Hc as (kt & Hkt & ->). destruct (Hkids kt) as (n & -> & _); [|by eauto].
      apply elem_of_app. by right. }
  eapply runs_bind; [apply runs_get_node, (sp_right _ _ _ _ _ _ _ Hps)|].
  eapply runs_bind; [by apply (runs_of_option _ kf)|].
  eapply runs_bind with (x := tt) (pgs1 := pg2) (e1 := mkEnv (e_hp e) (e_fh e) b (e_disp e)).
  - assert (Hgo : runs (ignore (internal_insert key_comparator_ q k (root t2));;
                        ignore (set_parent_page_num (root t2) q)) pg1 (mkEnv (e_hp e) (e_fh e) b (e_disp e)) tt pg2
                        (mkEnv (e_hp e) (e_fh e) b (e_disp e))).
    { eapply runs_bind.
      - apply runs_ignore, Hins; [apply (sp_left _ _ _ _ _ _ _ Hps) | apply (sp_right _ _ _ _ _ _ _ Hps)].
      - apply runs_ignore, runs_set_parent.
        rewrite lookup_insert_ne by (destruct Hqp; congruence).
        rewrite (sp_other _ _ _ _ _ _ _ Hps); [done|congruence..|].
        intros kt Hkt E. apply Htk. rewrite E. by apply kroots_in. }
    clearbody pg2. revert Hgo. rewrite Hq. by destruct (0 <? cmp k kf).
  - eapply runs_bind; [apply runs_get_node, (sp_right _ _ _ _ _ _ _ Hps2)|].
    eapply runs_bind; [by apply (runs_of_option _ kf) | exact HKr].
Qed.

Lemma right_head f L2 t1 k t2 :
  ∃ kf tf R R', L2 ++ (fk f, t1) :: fr f = (kf, tf) :: R ∧
    L2 ++ (fk f, t1) :: (k, t2) :: fr f = (kf, tf) :: R' ∧ MSep kf ∈ kmarks L2 ++ [MSep (fk f)].
Proof.
  destruct L2 as [|[kz tz] L2]; cbn [app].
  - do 4 eexists. split_and!; [done|done|]. by apply list_elem_of_singleton.
  - do 4 eexists. split_and!; [done|done|]. rewrite kmarks_cons. apply list_elem_of_here.
Qed.

(** The hole's subtree and its new sibling end up in the right half. *)
Lemma split_insert_right pgs e f ctx t1 k t2 h b np KL L2 :
  split_state key_comparator_ ok pgs e (f :: ctx) t1 k t2 h →
  bp_allocate (e_bp e) = (b, inl np) → np ∉ bp_pages (e_bp e) →
  Z.of_nat (length (fl f) + 1 + length (fr f)) = internal_max_size (e_fh e) →
  fl f = KL ++ L2 → Z.of_nat (length KL) = Z.quot (internal_max_size (e_fh e)) 2 →
  ∃ (pg : Pages) kf tf R,
    L2 ++ (fk f, t1) :: (k, t2) :: fr f = (kf, tf) :: R ∧
    parent_split pgs pg (fp f) np (ctx_par ctx) KL ((kf, tf) :: R) ∧ dom pg = {[np]} ∪ dom pgs ∧
    ∀ U (K : Z → Key A → M (State A B) U) y pgs' e',
      runs (K np kf) pg (mkEnv (e_hp e) (e_fh e) b (e_disp e)) y pgs' e' →
      runs (split_insert (fp f) k (root t2) K) pgs e y pgs' e'.
Proof using Type*.
  intros Hss Hb Hnp Hsz Hfl HKL. destruct (right_head f L2 t1 k t2) as (kf & tf & R & R' & HR & HR' & Hin).
  destruct (parent_facts _ _ _ _ _ _ _ _ _ Hss Hnp) as (Hp & Hnpp & Hinv & Hnd & Hkids & [n2 Hn2]).
  pose proof (ss_hdr _ _ _ _ _ _ _ _ _ Hss) as Hhdr. pose proof Hhdr as [_ Hi _ _ _].
  assert (Hkeys : fl f ++ (fk f, t1) :: fr f = KL ++ (kf, tf) :: R) by (by rewrite Hfl, <- app_assoc, HR).
  destruct (hole_marks _ _ _ _ _ _ _ (ss_sorted _ _ _ _ _ _ _ _ _ Hss) (ss_valid _ _ _ _ _ _ _ _ _ Hss))
    as [Hs Hv].
  assert (Hmin := min_of_bounds (internal_max_size (e_fh e))). unfold min_of in Hmin.
  assert (Hne : KL ≠ []) by (intros E; rewrite E in HKL; cbn [length] in HKL; lia).
  destruct (fpre_suffix KL L2 (fk f) (fr f) (fp f) np Hne) as (m & Hm & Hsub).
  rewrite <- Hfl in Hm. replace (mkFr (fp f) (fl f) (fk f) (fr f)) with f in Hm by (by destruct f).
  rewrite Hm in Hs, Hv.
  assert (Hkf : 0 < cmp k kf).
  { assert (Hlt : cmp kf k < 0).
    { unfold msorted in Hs. rewrite <- (app_assoc m) in Hs. apply StronglySorted_app in Hs as (_ & _ & Hs).
      apply StronglySorted_app in Hs as (Hc & _).
      apply (Hc (MSep kf) (MSep k)); [done | apply list_elem_of_here]. }
    unfold mvalid in Hv. rewrite Forall_forall in Hv.
    assert (Hv1 : ok kf) by (apply (Hv (MSep kf)); rewrite !elem_of_app; rewrite elem_of_app in Hin; tauto).
    assert (Hv2 : ok k) by (apply (Hv (MSep k)); rewrite !elem_of_app; right; apply list_elem_of_here).
    by apply (cmp_flip (cmp := cmp) (ok := ok)). }
  assert (Hlen : length (fl f ++ (fk f, t1) :: fr f) = (length (fl f) + 1 + length (fr f))%nat).
  { rewrite length_app. simpl. lia. }
  assert (HlenR : Z.of_nat (length ((kf, tf) :: R')) ≤ internal_max_size (e_fh e)).
  { rewrite <- HR', length_app. rewrite Hfl, length_app in Hsz. simpl. lia. }
  assert (HlenR2 : length ((kf, tf) :: R') = S (length ((kf, tf) :: R))).
  { rewrite <- HR, <- HR', !length_app. simpl. lia. }
  destruct (runs_split_insert pgs e (fp f) (ctx_par ctx) KL R kf tf k t2 n2 b np np KL R' tf)
    as (pg & Hps & Hdom & Hrun); try done.
  - by rewrite <- Hkeys.
  - rewrite <- Hkeys, Hlen. by rewrite Hsz.
  - apply hdr_internal_fits; [done | lia].
  - by rewrite <- Hkeys.
  - by rewrite <- Hkeys.
  - by rewrite (proj2 (Z.ltb_lt _ _)).
  - intros pg1 _ H2. rewrite (proj2 (Z.ltb_lt _ _)) by done. rewrite <- HR in H2. rewrite <- HR'.
    apply (insert_child key_comparator_ zero_key ok np (ctx_par ctx) (mkFr np L2 (fk f) (fr f))); [done|..].
    + eapply StronglySorted_sublist; [|exact Hs]. rewrite <- app_assoc.
      apply sublist_inserts_l, sublist_app; done.
    + unfold mvalid in *. rewrite Forall_forall in Hv. rewrite Forall_forall. intros x Hx. apply Hv.
      eapply elem_of_sublist; [exact Hx|]. rewrite <- app_assoc.
      apply sublist_inserts_l, sublist_app; done.
    + cbn [fl fk fr e_fh]. rewrite HR. apply hdr_internal_fits; [done | lia].
  - rewrite (proj2 (Z.ltb_lt _ _)) by done. split; [|done]. rewrite <- HR, <- HR'. solve_Permutation.
  - exists pg, kf, tf, R'. eauto.
Qed.

(** They end up in the left half. *)
Lemma split_insert_left pgs e f ctx t1 k t2 h b np R1 kf tf R :
  split_state key_comparator_ ok pgs e (f :: ctx) t1 k t2 h →
  bp_allocate (e_bp e) = (b, inl np) → np ∉ bp_pages (e_bp e) →
  Z.of_nat (length (fl f) + 1 + length (fr f)) = internal_max_size (e_fh e) →
  fr f = R1 ++ (kf, tf) :: R →
  Z.of_nat (length (fl f) + 1 + length R1) = Z.quot (internal_max_size (e_fh e)) 2 →
  ∃ (pg : Pages),
    parent_split pgs pg (fp f) np (ctx_par ctx) (fl f ++ (fk f, t1) :: (k, t2) :: R1) ((kf, tf) :: R) ∧
    dom pg = {[np]} ∪ dom pgs ∧
    ∀ U (K : Z → Key A → M (State A B) U) y pgs' e',
      runs (K np kf) pg (mkEnv (e_hp e) (e_fh e) b (e_disp e)) y pgs' e' →
      runs (split_insert (fp f) k (root t2) K) pgs e y pgs' e'.
Proof using Type*.
  intros Hss Hb Hnp Hsz Hfr HKL.
  destruct (parent_facts _ _ _ _ _ _ _ _ _ Hss Hnp) as (Hp & Hnpp & Hinv & Hnd & Hkids & [n2 Hn2]).
  pose proof (ss_hdr _ _ _ _ _ _ _ _ _ Hss) as Hhdr. pose proof Hhdr as [_ Hi _ _ _].
  assert (Hkeys : fl f ++ (fk f, t1) :: fr f = (fl f ++ (fk f, t1) :: R1) ++ (kf, tf) :: R)
    by (by rewrite Hfr, <- app_assoc).
  destruct (hole_marks _ _ _ _ _ _ _ (ss_sorted _ _ _ _ _ _ _ _ _ Hss) (ss_valid _ _ _ _ _ _ _ _ _ Hss))
    as [Hs Hv].
  rewrite Hfr, kmarks_app, kmarks_cons in Hs. rewrite Hfr, kmarks_app, kmarks_cons in Hv.
  assert (Hkf : cmp k kf < 0).
  { unfold msorted in Hs. apply StronglySorted_app in Hs as (_ & _ & [Hs _]%StronglySorted_cons).
    rewrite Forall_forall in Hs. apply (Hs (MSep kf)). apply elem_of_app. right. apply list_elem_of_here. }
  assert (Hsub : fpre (mkFr (fp f) (fl f) (fk f) R1) ++ MSep k :: kmarks R1 `sublist_of`
                 fpre f ++ MSep k :: kmarks R1 ++ MSep kf :: marks tf ++ kmarks R).
  { apply sublist_app; [done|]. constructor. by apply sublist_inserts_r. }
  assert (Hmin := min_of_bounds (internal_max_size (e_fh e))). unfold min_of in Hmin.
  assert (HlenL : length (fl f ++ (fk f, t1) :: R1) = (length (fl f) + 1 + length R1)%nat).
  { rewrite length_app. simpl. lia. }
  assert (HlenA : length (fl f ++ (fk f, t1) :: fr f) = (length (fl f) + 1 + length (fr f))%nat).
  { rewrite length_app. simpl. lia. }
  assert (HlenR : (length (fl f ++ (fk f, t1) :: R1) + length ((kf, tf) :: R) =
                   length (fl f) + 1 + length (fr f))%nat).
  { rewrite <- HlenA, Hkeys. by rewrite <- length_app. }
  assert (Hif : (0 <? cmp k kf) = false) by (apply Z.ltb_ge; lia).
  destruct (runs_split_insert pgs e (fp f) (ctx_par ctx) (fl f ++ (fk f, t1) :: R1) R kf tf k t2 n2 b np
              (fp f) (fl f ++ (fk f, t1) :: (k, t2) :: R1) R tf)
    as (pg & Hps & Hdom & Hrun); try done; rewrite ?Hif; try done.
  - by rewrite <- Hkeys.
  - by rewrite <- Hkeys, HlenA, HlenL, Hsz.
  - apply hdr_internal_fits; [done | lia].
  - by rewrite <- Hkeys.
  - by rewrite <- Hkeys.
  - intros pg1 H1 _.
    apply (insert_child key_comparator_ zero_key ok (fp f) (ctx_par ctx) (mkFr (fp f) (fl f) (fk f) R1)); [done|..].
    + by eapply StronglySorted_sublist.
    + unfold mvalid in *. rewrite Forall_forall in Hv. rewrite Forall_forall. intros x Hx. apply Hv.
      by eapply elem_of_sublist.
    + cbn [fl fk fr e_fh]. rewrite HlenL. apply hdr_internal_fits; [done | lia].
  - split; [|done]. solve_Permutation.
  - exists pg. eauto.
Qed.

(** One level of the propagation: the full parent becomes a split node itself. *)
Lemma split_parent_step pgs e f ctx t1 k t2 h :
  split_state key_comparator_ ok pgs e (f :: ctx) t1 k t2 h → (1 ≤ bp_free (e_bp e))%nat →
  Z.of_nat (length (fl f) + 1 + length (fr f)) = internal_max_size (e_fh e) →
  ∃ pg b np KL kf tf KR,
    0 ≤ np ∧ np ∉ bp_pages (e_bp e) ∧ bp_pages b = {[np]} ∪ bp_pages (e_bp e) ∧
    (bp_free (e_bp e) ≤ S (bp_free b))%nat ∧ dom pg = {[np]} ∪ dom pgs ∧
    joined f t1 k t2 = KL ++ (kf, tf) :: KR ∧
    split_state key_comparator_ ok pg (mkEnv (e_hp e) (e_fh e) b (e_disp e)) ctx (TNode (fp f) KL) kf
      (TNode np ((kf, tf) :: KR)) (S h) ∧
    ∀ U (K : Z → Key A → M (State A B) U) y pgs' e',
      runs (K np kf) pg (mkEnv (e_hp e) (e_fh e) b (e_disp e)) y pgs' e' →
      runs (split_insert (fp f) k (root t2) K) pgs e y pgs' e'.
Proof using Type*.
  intros Hss Hfree Hsz.
  destruct (bp_allocate_room (e_bp e) (pred (bp_free (e_bp e))) ltac:(lia)) as (b & np & Hb & Hnp0 & Hnp & Hbp & Hfr).
  pose proof (ss_hdr _ _ _ _ _ _ _ _ _ Hss) as Hhdr. pose proof Hhdr as [_ Hi _ _ _].
  pose proof (min_of_bounds (internal_max_size (e_fh e)) ltac:(lia)) as Hmin.
  destruct (split_halves f (Z.to_nat (min_of (internal_max_size (e_fh e)))))
    as [(KL & L2 & Hfl & HKL)|(R1 & KR & Hfr' & HR1 & HKR)]; [lia|..].
  - destruct (split_insert_right _ _ _ _ _ _ _ _ _ _ KL L2 Hss Hb Hnp Hsz Hfl) as
      (pg & kf & tf & R & HR & Hps & Hdom & Hrun); [unfold min_of in *; lia|].
    assert (HJ : joined f t1 k t2 = KL ++ (kf, tf) :: R).
    { unfold joined. by rewrite Hfl, <- HR, <- app_assoc. }
    assert (Hlen : Z.of_nat (length ((kf, tf) :: R)) = internal_max_size (e_fh e) + 1 - Z.of_nat (length KL)).
    { pose proof (joined_length f t1 k t2) as Hj. rewrite HJ, length_app in Hj. lia. }
    exists pg, b, np, KL, kf, tf, R. split_and!; try done; try lia.
    eapply split_parent_state; try done; lia.
  - destruct KR as [|[kf tf] R]; [done|].
    destruct (split_insert_left _ _ _ _ _ _ _ _ _ _ R1 kf tf R Hss Hb Hnp Hsz Hfr') as
      (pg & Hps & Hdom & Hrun); [unfold min_of in *; lia|].
    assert (HJ : joined f t1 k t2 = (fl f ++ (fk f, t1) :: (k, t2) :: R1) ++ (kf, tf) :: R).
    { unfold joined. by rewrite Hfr', <- app_assoc. }
    assert (HlenL : length (fl f ++ (fk f, t1) :: (k, t2) :: R1) = (length (fl f) + 1 + length R1 + 1)%nat).
    { rewrite length_app. simpl. lia. }
    assert (Hlen : Z.of_nat (length ((kf, tf) :: R)) =
                   internal_max_size (e_fh e) - Z.of_nat (length (fl f) + 1 + length R1)).
    { pose proof (joined_length f t1 k t2) as Hj. rewrite HJ, length_app, HlenL in Hj. lia. }
    exists pg, b, np, (fl f ++ (fk f, t1) :: (k, t2) :: R1), kf, tf, R. split_and!; try done; try lia.
    eapply split_parent_state; try done; rewrite ?HlenL; lia.
Qed.

(** The marks, leaves and pages of the tree do not change with the split. *)
Lemma split_marks f ctx t1 k t2 p np KL kf tf KR :
  KL ≠ [] → joined f t1 k t2 = KL ++ (kf, tf) :: KR →
  cpre ctx ++ marks (TNode p KL) ++ MSep kf :: marks (TNode np ((kf, tf) :: KR)) ++ cpost ctx =
  cpre (f :: ctx) ++ marks t1 ++ MSep k :: marks t2 ++ cpost (f :: ctx).
Proof.
  intros HKL HJ. pose proof (marks_split p np KL KR kf tf HKL) as Hms.
  rewrite <- HJ, joined_marks in Hms. cbn [cpre cpost]. rewrite <- app_assoc. f_equal.
  change (MSep kf :: ?l ++ ?m) with ((MSep kf :: l) ++ m). rewrite app_assoc, Hms.
  rewrite <- !app_assoc. cbn [app]. by rewrite <- !app_assoc.
Qed.

Lemma split_leaves f ctx t1 k t2 p np KL kf tf KR :
  joined f t1 k t2 = KL ++ (kf, tf) :: KR →
  clpre ctx ++ leaves (TNode p KL) ++ leaves (TNode np ((kf, tf) :: KR)) ++ clpost ctx =
  clpre (f :: ctx) ++ leaves t1 ++ leaves t2 ++ clpost (f :: ctx).
Proof.
  intros HJ. change (leaves (TNode ?p ?l)) with (kleaves l). cbn [clpre clpost].
  rewrite (app_assoc (kleaves KL)), <- kleaves_app, <- HJ. unfold joined.
  by rewrite kleaves_app, !kleaves_cons, <- !app_assoc.
Qed.

Lemma split_pids f ctx t1 k t2 np KL kf tf KR :
  joined f t1 k t2 = KL ++ (kf, tf) :: KR →
  pids (TNode (fp f) KL) ++ pids (TNode np ((kf, tf) :: KR)) ++ cpids ctx ≡ₚ
  np :: pids t1 ++ pids t2 ++ cpids (f :: ctx).
Proof.
  intros HJ. change (pids (TNode ?p ?l)) with (p :: kpids l). cbn [cpids].
  pose proof (joined_pids f t1 k t2) as Hp. rewrite HJ, kpids_app in Hp.
  transitivity (np :: fp f :: (kpids KL ++ kpids ((kf, tf) :: KR)) ++ cpids ctx); [solve_Permutation|].
  rewrite Hp. solve_Permutation.
Qed.

Lemma runs_into_parent_full pgs e f ctx t1 k t2 h fuel {y pgs' e'} :
  split_state key_comparator_ ok pgs e (f :: ctx) t1 k t2 h →
  Z.of_nat (length (fl f) + 1 + length (fr f)) = internal_max_size (e_fh e) →
  runs (split_insert (fp f) k (root t2) (insert_entry_into_parent key_comparator_ zero_key fuel (fp f)))
    pgs e y pgs' e' →
  runs (insert_entry_into_parent key_comparator_ zero_key (S fuel) (root t1) (root t2) k) pgs e y pgs' e'.
Proof.
  intros [_ _ Hpos _ [Hfp _] Hr1 _ _ _ _ _ _ _ _ _ _ _ _ _ _ _ _] Hsz Hrun.
  destruct (repr_root _ _ _ Hr1) as (n1 & Hn1 & Hp1).
  cbn [insert_entry_into_parent]. eapply runs_bind; [by apply runs_get_node|]. cbv zeta.
  cbn [ctx_par] in Hp1. rewrite Hp1, (proj2 (Z.eqb_neq _ _)).
  2: { cbn [cpids] in Hpos. rewrite !Forall_app, Forall_cons in Hpos. unfold BP_INVALID_PAGE_NUM. lia. }
  eapply runs_bind; [by eapply runs_get_page|]. eapply runs_bind; [by apply runs_get_node|].
  eapply runs_bind; [apply runs_header|]. cbn [size max_size is_leaf].
  rewrite length_app. cbn [length]. rewrite !kitems_length, (proj2 (Z.ltb_ge _ _)) by lia.
  exact Hrun.
Qed.

Lemma insert_up ctx : ∀ pgs e t1 k t2 h fuel,
  split_state key_comparator_ ok pgs e ctx t1 k t2 h →
  (length ctx < bp_free (e_bp e))%nat → (length ctx < fuel)%nat →
  ∃ pgs' e' fresh T,
    runs (insert_entry_into_parent key_comparator_ zero_key fuel (root t1) (root t2) k) pgs e tt pgs' e' ∧
    grown pgs e pgs' e' fresh T ∧
    marks T = cpre ctx ++ marks t1 ++ MSep k :: marks t2 ++ cpost ctx ∧
    leaves T = clpre ctx ++ leaves t1 ++ leaves t2 ++ clpost ctx ∧
    pids T ≡ₚ fresh ++ pids t1 ++ pids t2 ++ cpids ctx.
Proof using Type*.
  induction ctx as [|f ctx IH]; intros pgs e t1 k t2 h fuel Hss Hfree Hfuel;
    (destruct fuel as [|fuel]; [simpl in Hfuel; lia|]).
  { destruct (insert_new_root _ zero_key ok pgs e t1 k t2 h fuel Hss) as (pgs' & e' & fresh & T & ? & ? & HT & HL & HP);
      [simpl in *; lia|].
    exists pgs', e', fresh, T. split_and!; try done; cbn [cpre cpost clpre clpost cpids]; by rewrite ?app_nil_r. }
  simpl in Hfree, Hfuel. pose proof (ss_cocc _ _ _ _ _ _ _ _ _ Hss) as (Hsz & _).
  destruct (Z.lt_ge_cases (Z.of_nat (length (fl f) + 1 + length (fr f))) (internal_max_size (e_fh e))) as [Hlt|Hge].
  { destruct (insert_in_room _ zero_key ok _ _ _ _ _ _ _ _ fuel Hss Hlt) as (pgs' & T & Hrun & Hgr & ->).
    exists pgs', e, [], (plug ctx (TNode (fp f) (joined f t1 k t2))). split_and!; try done.
    - rewrite marks_plug, marks_node, joined_marks. cbn [cpre cpost].
      rewrite <- !app_assoc. cbn [app]. by rewrite <- !app_assoc.
    - rewrite leaves_plug. change (leaves (TNode ?p ?l)) with (kleaves l). cbn [clpre clpost].
      unfold joined. by rewrite kleaves_app, !kleaves_cons, <- !app_assoc.
    - rewrite pids_plug. change (pids (TNode ?p ?l)) with (p :: kpids l). rewrite joined_pids.
      cbn [cpids]. solve_Permutation. }
  destruct (split_parent_step _ _ _ _ _ _ _ _ Hss) as
    (pg & b & np & KL & kf & tf & KR & Hnp0 & Hnp & Hbp & Hfr & Hdom & HJ & Hss' & Hrun); [lia|lia|].
  destruct (IH _ _ _ _ _ _ fuel Hss') as (pgs' & e' & fresh & T & Hrun' & Hgr & HT & HL & HP);
    [cbn [e_bp]; lia | lia|].
  assert (HKL : KL ≠ []).
  { pose proof (ss_occ1 _ _ _ _ _ _ _ _ _ Hss') as [Ho _]%occ_node. cbn [e_fh] in Ho.
    pose proof (ss_hdr _ _ _ _ _ _ _ _ _ Hss) as [_ Hi _ _ _].
    pose proof (min_of_bounds (internal_max_size (e_fh e))). intros ->. cbn [length] in Ho. lia. }
  exists pgs', e', (np :: fresh), T. split_and!.
  - eapply runs_into_parent_full; [exact Hss|lia|]. apply Hrun. exact Hrun'.
  - destruct Hgr as [? ? ? ? ? ? ? ? ? Hgbp Hgf Hgn Hgd]. constructor; try done.
    + rewrite Hgbp. cbn [e_bp]. rewrite Hbp. simpl. set_solver.
    + apply Forall_cons. split; [done|]. eapply Forall_impl; [exact Hgf|]. cbn [e_bp]. rewrite Hbp. set_solver.
    + apply NoDup_cons. split; [|done]. rewrite Forall_forall in Hgf. intros Hin%Hgf. cbn [e_bp] in Hin.
      rewrite Hbp in Hin. set_solver.
    + rewrite Hgd, Hdom. simpl. set_solver.
  - rewrite HT. by apply split_marks.
  - rewrite HL. by apply split_leaves with (k := k).
  - rewrite HP, split_pids by done. solve_Permutation.
Qed.
End split.
