(* ===== verification/BplusInv.v ===== *)
(** * The invariant of an index

    [index_ok reserved st l]: the pages of [st] hold a well-formed B+ tree whose items are [l],
    in order; the file's allocated pages are those of the tree and the reserved ones, so none
    is leaked. *)
From stdpp Require Import sorting.
From S2P Require Import Prelude Rc BplusKey PageAlloc LowerBound BplusTree BplusGhost BplusWp BplusFind BplusInsert.

(** Deleting a list of pages. *)
Lemma lookup_delete_all {V} (m : gmap Z V) ds q : q ∉ ds → foldr delete m ds !! q = m !! q.
Proof.
  induction ds as [|d ds IH]; [done|]. intros [Hne Hq]%not_elem_of_cons. simpl.
  rewrite lookup_delete_ne by done. by apply IH.
Qed.

Lemma dom_delete_all {V} (m : gmap Z V) ds : dom (foldr delete m ds) = dom m ∖ list_to_set ds.
Proof.
  induction ds as [|d ds IH]; simpl; [set_solver|]. rewrite dom_delete_L, IH. set_solver.
Qed.

Section contents.
Context {A : Type} (cmp : Key A → Key A → Z) (ok : Key A → Prop) `{!TotalCompare cmp ok}.
Implicit Types (m : list (mark A)) (l : list (Key A * RID)) (key : Key A).

(** The items of an in-order sequence. *)
Fixpoint items_of m : list (Key A * RID) :=
  match m with
  | [] => []
  | MItem i :: m => i :: items_of m
  | MSep _ :: m => items_of m
  end.

Lemma items_of_app m1 m2 : items_of (m1 ++ m2) = items_of m1 ++ items_of m2.
Proof. induction m1 as [|[i|k] m1 IH]; simpl; by rewrite ?IH. Qed.

Lemma items_of_items l : items_of (MItem <$> l) = l.
Proof. induction l as [|i l IH]; [done|]. rewrite fmap_cons. cbn [items_of]. by rewrite IH. Qed.

Lemma items_of_elem m i : i ∈ items_of m ↔ MItem i ∈ m.
Proof.
  induction m as [|[j|k] m IH]; simpl; [split; intros Hin; by apply not_elem_of_nil in Hin|..];
    rewrite !elem_of_cons, IH.
  - split; [intros [->|?]; auto | intros [[= ->]|?]; auto].
  - split; [auto | by intros [?|?]].
Qed.

Lemma items_of_sorted m : msorted cmp m → StronglySorted (lt_key cmp) (items_of m).*1.
Proof.
  induction m as [|x m IH]; [constructor|]. intros [Hs Hx]%StronglySorted_inv.
  specialize (IH Hs). destruct x as [i|k]; [|exact IH]. simpl. apply StronglySorted_cons.
  split; [|exact IH]. rewrite Forall_fmap, Forall_forall. intros j Hj%items_of_elem.
  rewrite Forall_forall in Hx. by apply (Hx (MItem j)).
Qed.

Lemma items_of_valid m : mvalid ok m → Forall ok (items_of m).*1.
Proof.
  unfold mvalid. intros Hv. rewrite Forall_fmap, Forall_forall. intros i Hi%items_of_elem.
  rewrite Forall_forall in Hv. by apply (Hv (MItem i)).
Qed.

Lemma items_of_left key m :
  Forall (left_of cmp key) m → Forall (λ i, cmp i.1 key < 0) (items_of m).
Proof.
  intros Hl. rewrite Forall_forall. intros i Hi%items_of_elem. rewrite Forall_forall in Hl.
  by apply (Hl (MItem i)).
Qed.

Lemma items_of_right key m :
  Forall (right_of cmp key) m → Forall (λ i, 0 < cmp i.1 key) (items_of m).
Proof.
  intros Hl. rewrite Forall_forall. intros i Hi%items_of_elem. rewrite Forall_forall in Hl.
  by apply (Hl (MItem i)).
Qed.

(** Putting an item where it belongs keeps the order. *)
Lemma msorted_insert m1 m2 key rid :
  msorted cmp (m1 ++ m2) → mvalid ok (m1 ++ m2) → ok key →
  Forall (left_of cmp key) m1 → Forall (right_of cmp key) m2 →
  msorted cmp (m1 ++ MItem (key, rid) :: m2) ∧ mvalid ok (m1 ++ MItem (key, rid) :: m2).
Proof using Type*.
  intros Hs Hv Hkey H1 H2. split.
  - apply msorted_app in Hs as (Hc & Hs1 & Hs2). apply Forall_app in Hv as [Hv1 Hv2].
    rewrite Forall_forall in H1. rewrite Forall_forall in H2. rewrite Forall_forall in Hv2.
    apply msorted_app. split_and!; [|done|].
    + intros x y Hx [->|Hy]%elem_of_cons; [|by apply Hc]. specialize (H1 x Hx).
      by destruct x.
    + apply StronglySorted_cons. split; [|done]. rewrite Forall_forall. intros y Hy.
      specialize (H2 y Hy). unfold right_of in H2.
      assert (cmp key (mkey y) < 0); [|by destruct y].
      by apply (cmp_flip (cmp := cmp) (ok := ok)); auto.
  - apply Forall_app in Hv as [? ?]. apply Forall_app. split; [done|]. by apply Forall_cons.
Qed.

(** A separator equal to the key of the item behind it, after another item. *)
Lemma msorted_separate m1 x i m2 :
  msorted cmp (m1 ++ MItem x :: MItem i :: m2) → mvalid ok (m1 ++ MItem x :: MItem i :: m2) →
  msorted cmp (m1 ++ MItem x :: MSep i.1 :: MItem i :: m2) ∧
  mvalid ok (m1 ++ MItem x :: MSep i.1 :: MItem i :: m2).
Proof using Type*.
  intros Hs Hv. apply msorted_app in Hs as (Hc & Hs1 & Hs2).
  apply StronglySorted_cons in Hs2 as [Hx Hs2]. pose proof Hs2 as [Hi _]%StronglySorted_cons.
  apply Forall_app in Hv as [Hv1 Hv2]. apply Forall_cons in Hv2 as [Hvx Hv2].
  pose proof Hv2 as [Hvi _]%Forall_cons. pose proof Hx as [Hxi _]%Forall_cons. simpl in *.
  split; [|apply Forall_app; split; [done|]; constructor; [done|]; by constructor].
  apply msorted_app. split_and!; [|done|].
  - intros a b Ha [->|[->|Hb]%elem_of_cons]%elem_of_cons.
    + by apply Hc; [|apply list_elem_of_here].
    + assert (Hb : before cmp a (MItem x)) by (apply Hc; [done | apply list_elem_of_here]).
      apply before_le in Hb. unfold mvalid in Hv1. rewrite Forall_forall in Hv1. simpl in Hb.
      assert (cmp (mkey a) i.1 < 0); [|by destruct a].
      apply (cmp_le_lt_trans cmp ok _ x.1); auto.
    + apply Hc; [done|]. by apply list_elem_of_further.
  - apply StronglySorted_cons. split; [by apply Forall_cons|]. apply StronglySorted_cons.
    split; [|done]. apply Forall_cons. split; [|eapply Forall_impl; [exact Hi|]; intros [] Hb; simpl in *; lia].
    simpl. rewrite (cmp_refl (cmp := cmp) (ok := ok)) by done. done.
Qed.
End contents.

Section inv.
Context {A B : Type} `{PageAllocator B} (key_comparator_ : KeyComparator A) (zero_key : Key A).
Context (ok : Key A → Prop) `{!TotalCompare (key_compare key_comparator_) ok}.
#[local] Abbreviation cmp := (key_compare key_comparator_).
#[local] Abbreviation Pages := (gmap Z (Node A)).
#[local] Abbreviation St := (State A B).
#[local] Abbreviation MM := (M St).
Implicit Types (pgs : Pages) (e : env (B := B)) (T : tree A) (l : list (Key A * RID)) (st : St).

(** The pages hold a well-formed tree and nothing else. *)
Record tree_ok (hd : IndexFileHeader) pgs T : Prop := {
  to_nodup : NoDup (pids T);
  to_pos : Forall (λ p, 0 ≤ p) (pids T);
  to_dom : dom pgs = list_to_set (pids T);
  to_repr : repr pgs BP_INVALID_PAGE_NUM T;
  to_chain : chain pgs (leaves T);
  to_keys : keys_ok T;
  to_bal : ∃ h, bal h T;
  to_occ : root_occ hd T;
  to_sorted : msorted cmp (marks T);
  to_valid : mvalid ok (marks T);
  to_root : root_page hd = root T;
}.

Definition holds (hd : IndexFileHeader) pgs l : Prop :=
  (root_page hd = BP_INVALID_PAGE_NUM ∧ pgs = ∅ ∧ l = []) ∨
  (∃ T, tree_ok hd pgs T ∧ l = items_of (marks T)).

(** [reserved] are the pages of the file that are not the tree's: the header page. *)
Record env_ok (reserved : gset Z) pgs e l : Prop := {
  eo_hdr : hdr_wf (e_fh e);
  eo_root : root_page (e_hp e) = root_page (e_fh e);
  eo_bp : bp_pages (e_bp e) = reserved ∪ dom pgs;
  eo_reserved : reserved ## dom pgs;
  eo_holds : holds (e_fh e) pgs l;
}.

Definition env_of st : env (B := B) := mkEnv (header_page st) (file_header_ st) (bp st) [].

Definition index_ok (reserved : gset Z) st l : Prop :=
  faults st = [] ∧ env_ok reserved (pages st) (env_of st) l.

Lemma tree_ok_root_valid hd pgs T : tree_ok hd pgs T → root T ≠ BP_INVALID_PAGE_NUM.
Proof.
  intros Ht. pose proof (to_pos _ _ _ Ht) as Hp. rewrite Forall_forall in Hp.
  specialize (Hp _ (root_in_pids T)). unfold BP_INVALID_PAGE_NUM. lia.
Qed.

Lemma tree_ok_size hd pgs T : tree_ok hd pgs T → base.size pgs = length (pids T).
Proof.
  intros Ht. rewrite <- (size_dom pgs (D := gset Z)), (to_dom _ _ _ Ht).
  by apply size_list_to_set, (to_nodup _ _ _ Ht).
Qed.

(** The contents of an index are in key order, without duplicates. *)
Lemma holds_sorted hd pgs l :
  holds hd pgs l → StronglySorted (lt_key cmp) l.*1 ∧ Forall ok l.*1.
Proof.
  intros [(_ & _ & ->)|(T & HT & ->)]; [split; constructor|].
  split; [apply items_of_sorted, HT | apply items_of_valid, HT].
Qed.

Lemma occ_inhabited hd T : hdr_wf hd → occ hd T → inhabited_kids T.
Proof.
  intros Hh. pose proof (min_of_bounds (internal_max_size hd)) as Hm. destruct Hh.
  induction T as [p l|p kids IH] using tree_ind'; [done|]. intros [Hs Ho]%occ_node.
  simpl. rewrite (foldr_Forall (λ kt, inhabited_kids kt.2)). split.
  - intros ->. cbn [length] in Hs. lia.
  - rewrite Forall_forall in IH. rewrite Forall_forall in Ho. rewrite Forall_forall. auto.
Qed.

Lemma root_occ_inhabited hd T : hdr_wf hd → root_occ hd T → inhabited_kids T.
Proof.
  intros Hh. destruct T as [p l|p kids]; [done|]. intros [Hs Ho].
  simpl. rewrite (foldr_Forall (λ kt, inhabited_kids kt.2)). split.
  - intros ->. cbn [length] in Hs. lia.
  - eapply Forall_impl; [exact Ho|]. intros kt. by apply occ_inhabited.
Qed.

(** *** While the tree is changed *)

(** A well-formed tree whatever the sizes of its nodes, in pages that hold the pages to dispose
    of as well. *)
Record tree_mid pgs e T : Prop := {
  tm_nodup : NoDup (pids T ++ e_disp e);
  tm_pos : Forall (λ p, 0 ≤ p) (pids T);
  tm_dom : dom pgs = list_to_set (pids T ++ e_disp e);
  tm_repr : repr pgs BP_INVALID_PAGE_NUM T;
  tm_chain : chain pgs (leaves T);
  tm_keys : keys_ok T;
  tm_bal : ∃ h, bal h T;
  tm_sorted : msorted cmp (marks T);
  tm_valid : mvalid ok (marks T);
  tm_root : root_page (e_fh e) = root T;
}.

Lemma tree_ok_mid pgs e T :
  tree_ok (e_fh e) pgs T → e_disp e = [] → tree_mid pgs e T.
Proof. intros [] Hd. constructor; rewrite ?Hd, ?app_nil_r; done. Qed.

Lemma tree_mid_ok pgs e T :
  tree_mid pgs e T → root_occ (e_fh e) T →
  tree_ok (e_fh e) (foldr delete pgs (e_disp e)) T.
Proof.
  intros [Hnd Hpos Hdom Hr Hch Hk Hb Hs Hv Hroot] Ho.
  apply NoDup_app in Hnd as (Hnd & Hdis & _).
  assert (Hget : ∀ q, q ∈ pids T → foldr delete pgs (e_disp e) !! q = pgs !! q).
  { intros q Hq. by apply lookup_delete_all, Hdis. }
  constructor; try done.
  - rewrite dom_delete_all, Hdom, list_to_set_app_L. set_solver.
  - by eapply repr_frame.
  - eapply chain_frame; [|done]. intros q Hq%leaves_pids. unfold next_of. by rewrite Hget.
Qed.

Lemma bal_plug_inv (ctx : list (frame A)) : ∀ n t, bal n (plug ctx t) → ∃ h, n = (length ctx + h)%nat ∧ cbal h ctx ∧ bal h t.
Proof.
  induction ctx as [|f ctx IH]; intros n t; simpl; [eauto|].
  intros (h & -> & Hc & Hb)%IH. destruct h as [|h]; [done|]. unfold fill in Hb. rewrite bal_node in Hb.
  apply Forall_app in Hb as [Hb1 [Hb2 Hb3]%Forall_cons]. exists h. split_and!; [lia| |done|done].
  by apply Forall_app.
Qed.

(** Other items in one leaf. *)
Lemma tree_mid_leaf pgs e ctx p nx l l' :
  tree_mid pgs e (plug ctx (TLeaf p l)) →
  pgs !! p = Some (LeafNode (ctx_par ctx) nx l) →
  msorted cmp (cpre ctx ++ (MItem <$> l') ++ cpost ctx) →
  mvalid ok (cpre ctx ++ (MItem <$> l') ++ cpost ctx) →
  tree_mid (<[p := LeafNode (ctx_par ctx) nx l']> pgs) e (plug ctx (TLeaf p l')).
Proof.
  intros [Hnd Hpos Hdom Hr Hch Hk [n Hb] Hs Hv Hroot] Hp Hs' Hv'.
  assert (Hpids : pids (plug ctx (TLeaf p l)) ≡ₚ pids (plug ctx (TLeaf p l'))) by (by rewrite !pids_plug).
  assert (Hleaves : leaves (plug ctx (TLeaf p l)) = leaves (plug ctx (TLeaf p l'))) by (by rewrite !leaves_plug).
  pose proof (pids_plug ctx (TLeaf p l)) as Hpp. cbn [pids] in Hpp.
  assert (Hpc : p ∉ cpids ctx).
  { apply NoDup_app in Hnd as (Hnd & _). rewrite Hpp in Hnd. by apply NoDup_cons in Hnd as [? _]. }
  constructor.
  - by rewrite <- Hpids.
  - by rewrite <- Hpids.
  - rewrite dom_insert_L, Hdom. rewrite !list_to_set_app_L, <- (list_to_set_perm_L _ _ Hpids), (list_to_set_perm_L _ _ Hpp). simpl. set_solver.
  - apply repr_plug in Hr as [Hc _]. apply repr_plug. split.
    + eapply crepr_frame; [|exact Hc]. intros q Hq. rewrite lookup_insert_ne; [done|]. by intros ->.
    + exists nx. by rewrite lookup_insert_eq.
  - rewrite <- Hleaves. eapply chain_frame; [|exact Hch]. intros q _. unfold next_of.
    destruct (decide (q = p)) as [->|]; [by rewrite lookup_insert_eq, Hp|by rewrite lookup_insert_ne].
  - apply keys_ok_plug in Hk as (Hc & _ & Hreq). apply keys_ok_plug. split_and!; try done.
  - apply bal_plug_inv in Hb as (h & -> & Hc & ->). exists (length ctx + 0)%nat. by apply bal_plug.
  - by rewrite marks_plug.
  - by rewrite marks_plug.
  - rewrite Hroot. by apply root_plug.
Qed.

Lemma tree_ok_leaf e pgs ctx p nx l l' :
  tree_ok (e_fh e) pgs (plug ctx (TLeaf p l)) →
  pgs !! p = Some (LeafNode (ctx_par ctx) nx l) →
  msorted cmp (cpre ctx ++ (MItem <$> l') ++ cpost ctx) →
  mvalid ok (cpre ctx ++ (MItem <$> l') ++ cpost ctx) → hole_occ (e_fh e) ctx (TLeaf p l') →
  tree_ok (e_fh e) (<[p := LeafNode (ctx_par ctx) nx l']> pgs) (plug ctx (TLeaf p l')).
Proof.
  intros HT Hp Hs Hv Ho. pose proof (to_occ _ _ _ HT) as [Hc _]%occ_plug.
  apply (tree_mid_ok _ (mkEnv (e_hp e) (e_fh e) (e_bp e) [])); [|by apply occ_plug].
  apply (tree_mid_leaf _ _ ctx p nx l l'); try done. by apply tree_ok_mid.
Qed.

(** *** Mini-transactions *)

Lemma mini_transaction_ok lsn (body : MM unit) st pgs' e' :
  faults st = [] → runs body (pages st) (env_of st) tt pgs' e' →
  ∃ st', mini_transaction lsn body st = Some (RC_SUCCESS, st') ∧
    in_state st' (foldr delete pgs' (e_disp e'))
      (mkEnv (e_hp e') (e_fh e') (foldl bp_dispose (e_bp e') (e_disp e')) []).
Proof.
  intros Hf Hrun. unfold mini_transaction.
  destruct (Hrun (set_entries (set_disposed (set_memo st []) []) [])) as (st1 & -> & Hst1); [by split_and!|].
  eexists. split; [done|]. destruct Hst1 as (? & ? & ? & ? & ? & ?).
  destruct (entries st1), lsn; split_and!; simpl; congruence.
Qed.

(** A read-only computation: only the memo of the mini-transaction changes. *)
Definition keeps st st' : Prop := ∃ m, st' = set_memo st m.

Definition reads {U} (m : MM U) : Prop := ∀ st, faults st = [] →
  match m st with Ok _ st' | Err _ st' => keeps st st' | Stuck => True end.

Lemma mini_transaction_read lsn (body : MM unit) st rc st1 :
  body (set_entries (set_disposed (set_memo st []) []) []) = Err rc st1 →
  keeps (set_entries (set_disposed (set_memo st []) []) []) st1 →
  mini_transaction lsn body st =
    Some (rc, set_need_log (set_entries (set_disposed (set_memo st []) []) []) true).
Proof. intros Hb [m ->]. unfold mini_transaction. by rewrite Hb. Qed.

Lemma keeps_refl st : keeps st st.
Proof. exists (memo st). by destruct st. Qed.

Lemma keeps_trans st1 st2 st3 : keeps st1 st2 → keeps st2 st3 → keeps st1 st3.
Proof. intros [m ->] [m' ->]. by exists m'. Qed.

Lemma keeps_faults st st' : keeps st st' → faults st' = faults st.
Proof. by intros [m ->]. Qed.

Lemma reads_ret {U} (x : U) : reads (mret x).
Proof. intros st _. apply keeps_refl. Qed.

Lemma reads_bind {U V} (m : MM U) (f : U → MM V) : reads m → (∀ x, reads (f x)) → reads (m ≫= f).
Proof.
  intros Hm Hf st Hst. specialize (Hm st Hst). unfold mbind, M_bind.
  destruct (m st) as [x st1|rc st1|]; [|done|done].
  specialize (Hf x st1). rewrite (keeps_faults _ _ Hm) in Hf. specialize (Hf Hst).
  destruct (f x st1); try done; by eapply keeps_trans.
Qed.

Lemma reads_gets {U} (f : St → U) : reads (gets f).
Proof. intros st _. apply keeps_refl. Qed.
Lemma reads_throw {U} rc : reads (throw rc : MM U).
Proof. intros st _. apply keeps_refl. Qed.
Lemma reads_of_option {U} (o : option U) : reads (of_option o).
Proof. destruct o; [apply reads_ret | done]. Qed.
Lemma reads_assert b : reads (assert_ b).
Proof. destruct b; [apply reads_ret | done]. Qed.
Lemma reads_push_memo i : reads (push_memo i).
Proof. intros st _. by eexists. Qed.
Lemma reads_get_node p : reads (get_node p).
Proof. apply reads_bind; [apply reads_gets | intros st; apply reads_of_option]. Qed.
Lemma reads_page_fault : reads page_fault.
Proof. intros st Hf. unfold page_fault. rewrite Hf. apply keeps_refl. Qed.
Lemma reads_get_page p : reads (get_page p).
Proof.
  apply reads_bind; [apply reads_page_fault|]. intros _.
  apply reads_bind; [apply reads_get_node | intros _; apply reads_push_memo].
Qed.
Lemma reads_latch p ty : reads (latch p ty).
Proof. destruct ty; [apply reads_push_memo.. | done]. Qed.
Lemma reads_release_to n : reads (release_to n).
Proof.
  apply reads_bind; [apply reads_gets|]. intros st. apply reads_bind; [apply reads_assert|].
  intros _ st1 _. by eexists.
Qed.
Lemma reads_crabing op p b : reads (crabing_protocal_fetch_page op p b).
Proof.
  apply reads_bind; [apply reads_gets|]. intros st. apply reads_bind; [apply reads_get_page|].
  intros _. apply reads_bind; [apply reads_latch|]. intros _. apply reads_bind; [apply reads_get_node|].
  intros n. apply reads_bind; [apply reads_gets|]. intros h.
  case_match; [apply reads_release_to | apply reads_ret].
Qed.
Lemma reads_find_leaf_loop fuel op getter : ∀ p, reads (find_leaf_loop fuel op getter p).
Proof.
  induction fuel as [|fuel IH]; intros p; (apply reads_bind; [apply reads_get_node|]);
    (intros [par nx l|par l]; [apply reads_ret|]); [done|].
  apply reads_bind; [apply reads_of_option|]. intros q.
  apply reads_bind; [apply reads_crabing | intros _; apply IH].
Qed.
Lemma reads_find_leaf_internal op getter : reads (find_leaf_internal op getter).
Proof.
  apply reads_bind; [apply reads_push_memo|]. intros _. apply reads_bind; [apply reads_gets|].
  intros st. case_match; [apply reads_throw|].
  apply reads_bind; [apply reads_crabing | intros _; apply reads_find_leaf_loop].
Qed.
End inv.

(** ** The abstract index: an ordered list of items *)
Section spec.
Context {A : Type} (cmp : Key A → Key A → Z) (ok : Key A → Prop) `{!TotalCompare cmp ok}.
Implicit Types (l : list (Key A * RID)) (key : Key A).

Definition has_key l key : bool := existsb (λ i, cmp i.1 key =? 0) l.

Fixpoint ordered_insert key (rid : RID) l : list (Key A * RID) :=
  match l with
  | [] => [(key, rid)]
  | i :: l' => if cmp i.1 key <? 0 then i :: ordered_insert key rid l' else (key, rid) :: l
  end.

(** The result code and the contents after an insertion, and after a deletion. *)
Definition spec_insert key rid l : RC * list (Key A * RID) :=
  if has_key l key then (RC_RECORD_DUPLICATE_KEY, l) else (RC_SUCCESS, ordered_insert key rid l).

Definition spec_delete key l : RC * list (Key A * RID) :=
  if has_key l key then (RC_SUCCESS, List.filter (λ i, negb (cmp i.1 key =? 0)) l)
  else (RC_RECORD_NOT_EXIST, l).

Lemma has_key_app l1 l2 key : has_key (l1 ++ l2) key = has_key l1 key || has_key l2 key.
Proof. apply existsb_app. Qed.

Lemma has_key_left l key : Forall (λ i, cmp i.1 key < 0) l → has_key l key = false.
Proof.
  induction 1 as [|i l Hi _ IH]; [done|]. unfold has_key in *. simpl. rewrite IH, orb_false_r.
  apply Z.eqb_neq. lia.
Qed.

Lemma has_key_right l key : Forall (λ i, 0 < cmp i.1 key) l → has_key l key = false.
Proof.
  induction 1 as [|i l Hi _ IH]; [done|]. unfold has_key in *. simpl. rewrite IH, orb_false_r.
  apply Z.eqb_neq. lia.
Qed.

Lemma ordered_insert_at l1 l2 key rid :
  Forall (λ i, cmp i.1 key < 0) l1 → Forall (λ i, 0 < cmp i.1 key) l2 →
  ordered_insert key rid (l1 ++ l2) = l1 ++ (key, rid) :: l2.
Proof.
  intros H1 H2. induction H1 as [|i l1 Hi _ IH]; simpl.
  - destruct H2 as [|i l2 Hi _]; [done|]. simpl. by rewrite (proj2 (Z.ltb_ge _ _)) by lia.
  - by rewrite (proj2 (Z.ltb_lt _ _)), IH.
Qed.

Lemma filter_keep l key :
  has_key l key = false → List.filter (λ i, negb (cmp i.1 key =? 0)) l = l.
Proof.
  induction l as [|i l IH]; [done|]. unfold has_key in *. simpl. intros [Hi Hl]%orb_false_iff.
  by rewrite Hi, (IH Hl).
Qed.

Lemma spec_insert_at l1 l2 key rid :
  Forall (λ i, cmp i.1 key < 0) l1 → Forall (λ i, 0 < cmp i.1 key) l2 →
  spec_insert key rid (l1 ++ l2) = (RC_SUCCESS, l1 ++ (key, rid) :: l2).
Proof.
  intros H1 H2. unfold spec_insert. rewrite has_key_app, has_key_left, has_key_right by done.
  by rewrite ordered_insert_at.
Qed.

Lemma has_key_at l1 x l2 key : cmp x.1 key = 0 → has_key (l1 ++ x :: l2) key = true.
Proof.
  intros Hx. rewrite has_key_app. unfold has_key. simpl. by rewrite Hx, Z.eqb_refl, orb_true_r.
Qed.

Lemma spec_delete_at l1 x l2 key :
  Forall (λ i, cmp i.1 key < 0) l1 → cmp x.1 key = 0 → Forall (λ i, 0 < cmp i.1 key) l2 →
  spec_delete key (l1 ++ x :: l2) = (RC_SUCCESS, l1 ++ l2).
Proof.
  intros H1 Hx H2. unfold spec_delete. rewrite has_key_at by done.
  rewrite List.filter_app. simpl. rewrite Hx, Z.eqb_refl. simpl.
  by rewrite !filter_keep by auto using has_key_left, has_key_right.
Qed.

Lemma spec_delete_none l1 l2 key :
  Forall (λ i, cmp i.1 key < 0) l1 → Forall (λ i, 0 < cmp i.1 key) l2 →
  spec_delete key (l1 ++ l2) = (RC_RECORD_NOT_EXIST, l1 ++ l2).
Proof.
  intros H1 H2. unfold spec_delete. by rewrite has_key_app, has_key_left, has_key_right.
Qed.
End spec.
