(* ===== verification/BplusExample.v ===== *)
(** * A small index, for the concrete instances of the theorems

    Keys are one integer column; leaves hold four items, internal nodes six children; the
    allocator hands out the lowest free page. *)
From stdpp Require Import sorting.
From S2P Require Import Prelude Rc BplusKey PageAlloc LowerBound BplusTree BplusGhost BplusWp BplusFind BplusInsert BplusInv.

Definition ex_cmp : KeyComparator Z := mkKeyComparator false [λ x y, x - y].
Definition ex_zero_key : Key Z := ([0], mkRID 0 0).
Definition ex_ok : Key Z → Prop := valid_key [λ _, True].

#[export] Instance ex_total : TotalCompare (key_compare ex_cmp) ex_ok.
Proof. apply key_total. repeat constructor; intros; lia. Qed.

Definition ex_key (x : Z) : Key Z := ([x], mkRID 1 x).

Lemma ex_key_ok x : 0 ≤ x ≤ 1000 → ex_ok (ex_key x).
Proof.
  intros Hx. split; [by repeat constructor|].
  unfold valid_rid, INT32_MAX. cbn. lia.
Qed.

Definition ex_header (root : Z) : IndexFileHeader := mkHeader root 6 4 4 1 12 false [4] [0].

Lemma ex_header_wf r : hdr_wf (ex_header r).
Proof. by constructor; cbn; unfold BP_PAGE_DATA_SIZE, BP_PAGE_SIZE; lia. Qed.

Definition ex_state (root : Z) (pgs : gmap Z (Node Z)) (used : gset Z) : State Z PageSet :=
  mkState pgs (ex_header root) (ex_header root) false (mkPageSet used 20) [] [] [] true [] ∅ [].

(** An index with no item. *)
Definition ex_empty : State Z PageSet := ex_state BP_INVALID_PAGE_NUM ∅ {[0; 1]}.

(** An index of one leaf, page 2. *)
Definition ex_items : list (Key Z * RID) :=
  (λ x, (ex_key x, mkRID 1 x)) <$> [10; 20; 30; 40].
Definition ex_leaf : State Z PageSet :=
  ex_state 2 {[2 := LeafNode BP_INVALID_PAGE_NUM BP_INVALID_PAGE_NUM ex_items]} {[0; 1; 2]}.

Lemma ex_empty_ok : index_ok ex_cmp ex_ok {[0; 1]} ex_empty [].
Proof.
  split; [done|]. constructor; [apply ex_header_wf|done|by vm_compute|done|]. left. done.
Qed.

Lemma ex_leaf_ok : index_ok ex_cmp ex_ok {[0; 1]} ex_leaf ex_items.
Proof.
  split; [done|]. constructor; [apply ex_header_wf|done|by vm_compute|set_solver|].
  right. exists (TLeaf 2 ex_items). split; [|done]. constructor; try done.
  - apply NoDup_singleton.
  - by repeat constructor.
  - by eexists.
  - by exists 0%nat.
  - apply msorted_items. repeat constructor; by vm_compute.
  - apply mvalid_items. repeat constructor; by vm_compute.
Qed.
