(* ===== verification/BplusInsertEntry.v ===== *)
(** * Insertion of an entry: the whole operation

    The first entry of an empty index, the search for the leaf, insertion with and without splits, and the rollback of a failed
    mini-transaction, put together into the refinement theorem of [insert_entry]. *)
From stdpp Require Import sorting.
From S2P Require Import Prelude Rc BplusKey PageAlloc LowerBound BplusTree BplusGhost BplusWp BplusFind BplusInsert BplusSplit BplusInv BplusExample.

Section insert_entry.
Context {A B : Type} `{PageAllocator B} (key_comparator_ : KeyComparator A) (zero_key : Key A).
Context (ok : Key A → Prop) `{!TotalCompare (key_compare key_comparator_) ok}.
#[local] Abbreviation cmp := (key_compare key_comparator_).
#[local] Abbreviation Pages := (gmap Z (Node A)).
#[local] Abbreviation St := (State A B).
#[local] Abbreviation MM := (M St).
#[local] Abbreviation Leaf := (LeafIndexNodeHandler (A := A) (B := B)).
Implicit Types (pgs : Pages) (e : env (B := B)) (T : tree A) (l : list (Key A * RID)) (st : St).
Implicit Types (ctx : list (frame A)) (key : Key A).

Lemma left_items key l : Forall (left_of cmp key) (MItem <$> l) ↔ Forall (λ i, cmp i.1 key < 0) l.
Proof. by rewrite Forall_fmap. Qed.
Lemma right_items key l : Forall (right_of cmp key) (MItem <$> l) ↔ Forall (λ i, 0 < cmp i.1 key) l.
Proof. by rewrite Forall_fmap. Qed.

(** The leaf a search ends at, split at the key. *)
Record at_leaf pgs T key ctx p nx l1 l2 (found : bool) : Prop := {
  al_tree : T = plug ctx (TLeaf p (l1 ++ l2));
  al_page : pgs !! p = Some (LeafNode (ctx_par ctx) nx (l1 ++ l2));
  al_lookup : leaf_lookup cmp (l1 ++ l2) key = Some (Z.of_nat (length l1), found);
  al_left : Forall (left_of cmp key) (cpre ctx ++ (MItem <$> l1));
  al_right : if found then ∃ x l2', l2 = x :: l2' ∧ cmp x.1 key = 0 ∧
                            Forall (right_of cmp key) ((MItem <$> l2') ++ cpost ctx)
             else Forall (right_of cmp key) ((MItem <$> l2) ++ cpost ctx);
}.

Lemma tree_search op key T pgs e :
  hdr_wf (e_fh e) → tree_ok key_comparator_ ok (e_fh e) pgs T → ok key →
  ∃ ctx p nx l1 l2 found,
    runs (find_leaf key_comparator_ op key) pgs e p pgs e ∧ at_leaf pgs T key ctx p nx l1 l2 found.
Proof using Type*.
  intros Hh HT Hkey. destruct (to_bal _ _ _ _ _ HT) as [h Hb].
  pose proof (root_occ_inhabited _ _ Hh (to_occ _ _ _ _ _ HT)) as Hi.
  destruct (find_leaf_search key_comparator_ zero_key ok op key T h pgs e) as
    (ctx & p & l & Hrun & Hpl & Hl & Hr); try done; try apply HT.
  { pose proof (bal_depth _ _ Hb Hi). rewrite (tree_ok_size _ _ _ _ _ HT). lia. }
  { by eapply tree_ok_root_valid. }
  pose proof (to_repr _ _ _ _ _ HT) as Hrep. rewrite Hpl in Hrep. apply repr_plug in Hrep as [_ [nx Hp]].
  pose proof (to_sorted _ _ _ _ _ HT) as Hs. pose proof (to_valid _ _ _ _ _ HT) as Hv.
  rewrite Hpl, marks_plug in Hs, Hv. cbn [marks] in Hs, Hv.
  apply msorted_app in Hs as (_ & _ & Hs). apply msorted_app in Hs as (_ & Hs & _).
  apply Forall_app in Hv as [_ Hv]. apply Forall_app in Hv as [Hv _].
  apply msorted_items in Hs. apply mvalid_items in Hv.
  destruct (leaf_lookup_spec cmp ok l key Hs Hv Hkey) as (l1 & l2 & found & Hlk & -> & Hl1 & Hl2).
  exists ctx, p, nx, l1, l2, found. split; [done|]. constructor; try done.
  - apply Forall_app. by rewrite left_items.
  - destruct found.
    + destruct Hl2 as (x & l2' & -> & Hx & Hl2). exists x, l2'. split_and!; try done.
      apply Forall_app. by rewrite right_items.
    + apply Forall_app. by rewrite right_items.
Qed.

(** The contents around the leaf. *)
Lemma at_leaf_contents pgs T key ctx p nx l1 l2 found :
  at_leaf pgs T key ctx p nx l1 l2 found →
  items_of (marks T) = items_of (cpre ctx ++ (MItem <$> l1)) ++ items_of ((MItem <$> l2) ++ cpost ctx).
Proof.
  intros [-> _ _ _ _]. rewrite marks_plug. cbn [marks]. rewrite fmap_app, !items_of_app.
  by rewrite <- !app_assoc.
Qed.

Lemma hole_occ_leaf hd ctx p l n l' p' :
  hole_occ hd ctx (TLeaf p l) → length l' = n → (length l ≤ n)%nat → Z.of_nat n ≤ leaf_max_size hd →
  hole_occ hd ctx (TLeaf p' l').
Proof. destruct ctx; simpl; lia. Qed.

(** The item fits into its leaf. *)
Lemma insert_into_leaf_room pgs e T key ctx p nx l1 l2 rid :
  hdr_wf (e_fh e) → tree_ok key_comparator_ ok (e_fh e) pgs T → ok key →
  at_leaf pgs T key ctx p nx l1 l2 false → Z.of_nat (length (l1 ++ l2)) < leaf_max_size (e_fh e) →
  ∃ pgs' T',
    runs (insert_entry_into_leaf_node key_comparator_ zero_key p key rid) pgs e tt pgs' e ∧
    tree_ok key_comparator_ ok (e_fh e) pgs' T' ∧ dom pgs' = dom pgs ∧
    marks T' = (cpre ctx ++ (MItem <$> l1)) ++ MItem (key, rid) :: (MItem <$> l2) ++ cpost ctx.
Proof using Type*.
  intros Hh HT Hkey [-> Hp Hlk Hl Hr] Hroom.
  assert (Hp' : p ∈ dom pgs) by (apply elem_of_dom; eauto).
  assert (Hm : marks (plug ctx (TLeaf p (l1 ++ (key, rid) :: l2))) =
    (cpre ctx ++ (MItem <$> l1)) ++ MItem (key, rid) :: (MItem <$> l2) ++ cpost ctx).
  { rewrite marks_plug. cbn [marks]. rewrite fmap_app, fmap_cons, <- !app_assoc. done. }
  assert (Hm0 : marks (plug ctx (TLeaf p (l1 ++ l2))) =
    (cpre ctx ++ (MItem <$> l1)) ++ (MItem <$> l2) ++ cpost ctx).
  { rewrite marks_plug. cbn [marks]. rewrite fmap_app, <- !app_assoc. done. }
  pose proof (to_sorted _ _ _ _ _ HT) as Hs. pose proof (to_valid _ _ _ _ _ HT) as Hv.
  rewrite Hm0 in Hs, Hv. destruct (msorted_insert cmp ok _ _ key rid Hs Hv Hkey Hl Hr) as [Hs' Hv'].
  exists (<[p := LeafNode (ctx_par ctx) nx (l1 ++ (key, rid) :: l2)]> pgs),
    (plug ctx (TLeaf p (l1 ++ (key, rid) :: l2))).
  split_and!; [|eapply (tree_ok_leaf key_comparator_ ok e); try done|rewrite dom_insert_L; set_solver|done].
  - eapply runs_bind; [by eapply runs_get_leaf|]. eapply runs_bind; [by apply runs_of_option|].
    eapply runs_bind; [by apply runs_get_node|]. eapply runs_bind; [apply runs_header|].
    cbn [size max_size is_leaf]. rewrite (proj2 (Z.ltb_lt _ _)) by done.
    apply runs_ignore, runs_leaf_insert; [done|done|]. apply hdr_leaf_fits; [done|lia].
  - rewrite marks_plug in Hm. cbn [marks] in Hm. by rewrite Hm.
  - rewrite marks_plug in Hm. cbn [marks] in Hm. by rewrite Hm.
  - pose proof (to_occ _ _ _ _ _ HT) as [_ Ho]%occ_plug. eapply hole_occ_leaf; [exact Ho|done|..];
      rewrite !length_app in *; simpl; lia.
Qed.

(** A full leaf: the two halves and where the item goes. *)
Lemma leaf_halves l1 l2 (i : Key A * RID) (m : nat) :
  (1 ≤ m < length (l1 ++ l2))%nat →
  (∃ mid lb, l2 = mid ++ lb ∧ length (l1 ++ mid) = m ∧ (length l1 < m)%nat ∧ lb ≠ []) ∨
  (∃ la mid, l1 = la ++ mid ∧ length la = m).
Proof.
  intros Hm. rewrite length_app in Hm. destruct (decide (length l1 < m)%nat).
  - left. exists (take (m - length l1) l2), (drop (m - length l1) l2).
    rewrite take_drop, length_app, length_take. split_and!; [done|lia|done|].
    intros E%(f_equal length). rewrite length_drop in E. simpl in E. lia.
  - right. exists (take m l1), (drop m l1). rewrite take_drop, length_take. split; [done|lia].
Qed.

(** The part of [insert_entry_into_leaf_node] between the split of the leaf and the parent. *)
Lemma runs_link_leaves p np par nx la lb pgs e :
  p ≠ np → pgs !! p = Some (LeafNode par nx la) → pgs !! np = Some (LeafNode par BP_INVALID_PAGE_NUM lb) →
  ∀ U (K : MM U) y pgs' e',
  runs K (<[p := LeafNode par np la]> (<[np := LeafNode par nx lb]> pgs)) e y pgs' e' →
  runs (ignore (leaf_set_next_page np nx);; ignore (set_parent_page_num np par);;
        ignore (leaf_set_next_page p np);; K) pgs e y pgs' e'.
Proof.
  intros Hne Hp Hnp U K y pgs' e' HK.
  eapply runs_bind; [by apply runs_ignore; eapply runs_leaf_set_next|].
  eapply runs_bind; [apply runs_ignore, runs_set_parent, lookup_insert_eq|].
  rewrite insert_insert_eq. cbn [set_parent].
  eapply runs_bind; [|exact HK]. apply runs_ignore, (runs_leaf_set_next p par nx).
  by rewrite lookup_insert_ne.
Qed.

(** Up to the point where the item is put into one of the halves. *)
Lemma runs_leaf_split pgs e p par nx la lb idx key rid b np :
  hdr_wf (e_fh e) → pgs !! p = Some (LeafNode par nx (la ++ lb)) →
  leaf_lookup cmp (la ++ lb) key = Some (idx, false) →
  Z.of_nat (length (la ++ lb)) = leaf_max_size (e_fh e) →
  Z.of_nat (length la) = min_of (leaf_max_size (e_fh e)) →
  bp_allocate (e_bp e) = (b, inl np) → pgs !! np = None →
  ∀ y pgs' e',
  runs ((if idx <? Z.of_nat (length la) then ignore (leaf_insert p idx key rid)
         else ignore (leaf_insert np (idx - Z.of_nat (length la)) key rid));;
        nn ← get_node np;
        first ← of_option (key_at nn 0);
        insert_entry_into_parent key_comparator_ zero_key (S (base.size pgs)) p np first)
    (<[p := LeafNode par np la]> (<[np := LeafNode par nx lb]> pgs))
    (mkEnv (e_hp e) (e_fh e) b (e_disp e)) y pgs' e' →
  runs (insert_entry_into_leaf_node key_comparator_ zero_key p key rid) pgs e y pgs' e'.
Proof.
  intros Hh Hp Hlk Hlen Hla Hb Hnp y pgs' e' HK. assert (Hne : p ≠ np) by congruence.
  eapply runs_bind; [by eapply runs_get_leaf|]. eapply runs_bind; [by apply runs_of_option|].
  eapply runs_bind; [by apply runs_get_node|]. eapply runs_bind; [apply runs_header|].
  cbn [size max_size is_leaf]. rewrite (proj2 (Z.ltb_ge _ _)) by lia.
  apply runs_gets. intros st (_ & Hpg & _).
  eapply runs_bind.
  { apply runs_split_leaf; [exact Hp| |exact Hb|done|].
    - rewrite Hla. unfold min_of. by rewrite Hlen.
    - apply hdr_leaf_fits; [done|]. rewrite length_app in Hlen. lia. }
  eapply runs_bind; [apply runs_get_leaf, lookup_insert_eq|].
  eapply runs_link_leaves; [done|apply lookup_insert_eq| |].
  { rewrite lookup_insert_ne by done. apply lookup_insert_eq. }
  unfold depth_fuel. rewrite Hpg. rewrite (insert_insert_ne _ np p) by done.
  by rewrite !insert_insert_eq.
Qed.

Lemma runs_leaf_full pgs e p par nx l1 l2 key rid b np :
  hdr_wf (e_fh e) → pgs !! p = Some (LeafNode par nx (l1 ++ l2)) →
  leaf_lookup cmp (l1 ++ l2) key = Some (Z.of_nat (length l1), false) →
  Z.of_nat (length (l1 ++ l2)) = leaf_max_size (e_fh e) →
  bp_allocate (e_bp e) = (b, inl np) → pgs !! np = None →
  ∃ la i lb, l1 ++ (key, rid) :: l2 = la ++ i :: lb ∧ la ≠ [] ∧
    min_of (leaf_max_size (e_fh e)) ≤ Z.of_nat (length la) ≤ leaf_max_size (e_fh e) ∧
    min_of (leaf_max_size (e_fh e)) ≤ Z.of_nat (length (i :: lb)) ≤ leaf_max_size (e_fh e) ∧
    ∀ y pgs' e',
      runs (insert_entry_into_parent key_comparator_ zero_key (S (base.size pgs)) p np i.1)
        (<[p := LeafNode par np la]> (<[np := LeafNode par nx (i :: lb)]> pgs))
        (mkEnv (e_hp e) (e_fh e) b (e_disp e)) y pgs' e' →
      runs (insert_entry_into_leaf_node key_comparator_ zero_key p key rid) pgs e y pgs' e'.
Proof.
  intros Hh Hp Hlk Hlen Hb Hnp. pose proof Hh as [Hlm _ _ _ _].
  pose proof (min_of_bounds (leaf_max_size (e_fh e)) ltac:(lia)) as Hmin.
  assert (Hne : p ≠ np) by congruence.
  destruct (leaf_halves l1 l2 (key, rid) (Z.to_nat (min_of (leaf_max_size (e_fh e)))))
    as [(mid & lb & -> & Hla & Hl1 & Hlb)|(la & mid & -> & Hla)]; [lia|..].
  - destruct lb as [|i lb]; [done|]. exists (l1 ++ (key, rid) :: mid), i, lb.
    rewrite app_assoc in Hp, Hlk, Hlen. rewrite length_app in Hlen.
    assert (Hlen' : length (l1 ++ (key, rid) :: mid) = S (length (l1 ++ mid))).
    { rewrite !length_app. simpl. lia. }
    split_and!; [by rewrite <- app_assoc|by destruct l1|lia..|].
    intros y pgs' e' HK. eapply runs_leaf_split; try done; [by rewrite length_app|lia|].
    rewrite (proj2 (Z.ltb_lt _ _)) by lia.
    eapply runs_bind.
    { apply runs_ignore, runs_leaf_insert; [apply lookup_insert_eq|done|].
      apply hdr_leaf_fits; [done|]. cbn [e_fh]. lia. }
    rewrite insert_insert_eq. eapply runs_bind.
    { apply runs_get_node. rewrite lookup_insert_ne by done. apply lookup_insert_eq. }
    eapply runs_bind; [by apply (runs_of_option _ i.1)|exact HK].
  - assert (Hi : ∃ i lb, mid ++ (key, rid) :: l2 = i :: lb) by (destruct mid; eauto).
    destruct Hi as (i & lb & Hi). exists la, i, lb. rewrite <- Hi.
    rewrite <- app_assoc in Hp, Hlk, Hlen.
    assert (Hlen' : length (mid ++ (key, rid) :: l2) = S (length (mid ++ l2))).
    { rewrite !length_app. simpl. lia. }
    pose proof Hlen as Hlen2. rewrite length_app in Hlen2.
    split_and!; [by rewrite <- app_assoc|intros E; rewrite E in Hla; simpl in Hla; lia|lia..|].
    intros y pgs' e' HK. eapply runs_leaf_split; try done; [lia|].
    rewrite (proj2 (Z.ltb_ge _ _)) by (rewrite length_app; lia).
    eapply runs_bind.
    { apply runs_ignore, (runs_leaf_insert np par nx mid l2).
      - rewrite lookup_insert_ne by done. apply lookup_insert_eq.
      - rewrite length_app. lia.
      - apply hdr_leaf_fits; [done|]. cbn [e_fh]. lia. }
    rewrite (insert_insert_ne _ np p), insert_insert_eq by done. rewrite Hi in HK |- *. eapply runs_bind.
    { apply runs_get_node. rewrite lookup_insert_ne by done. apply lookup_insert_eq. }
    eapply runs_bind; [by apply (runs_of_option _ i.1)|exact HK].
Qed.

Lemma chain_split pgs pgs' L p np R :
  chain pgs (L ++ [p] ++ R) → next_of pgs' p = Some np → next_of pgs' np = next_of pgs p →
  (∀ q, q ∈ L ++ R → next_of pgs' q = next_of pgs q) → chain pgs' (L ++ [p] ++ [np] ++ R).
Proof.
  intros Hch Hp Hnp Ho. induction L as [|x L IH]; simpl in *.
  - destruct Hch as [Hc Hch]. split_and!; [done|congruence|]. by eapply chain_frame.
  - destruct Hch as [Hx Hch]. split.
    + rewrite Ho, Hx by apply list_elem_of_here. by destruct L.
    + apply IH; [done|]. intros q Hq. apply Ho. by apply list_elem_of_further.
Qed.

Lemma kleaves_pids (kids : list (Key A * tree A)) q : q ∈ kleaves kids → q ∈ kpids kids.
Proof.
  induction kids as [|[k t] kids IH]; [done|]. rewrite kleaves_cons, kpids_cons, !elem_of_app.
  intros [Hq|Hq]; [left; by apply leaves_pids | right; by apply IH].
Qed.

Lemma clpre_pids ctx q : q ∈ clpre ctx → q ∈ cpids ctx.
Proof.
  induction ctx as [|f ctx IH]; simpl; [done|]. rewrite elem_of_cons, kpids_app, !elem_of_app.
  intros [Hq|Hq%kleaves_pids]; tauto.
Qed.

Lemma clpost_pids ctx q : q ∈ clpost ctx → q ∈ cpids ctx.
Proof.
  induction ctx as [|f ctx IH]; simpl; [done|]. rewrite elem_of_cons, kpids_app, !elem_of_app.
  intros [Hq%kleaves_pids|Hq]; tauto.
Qed.

(** The two halves of a leaf are a split state. *)
Lemma leaf_split_state pgs e ctx p nx l np la i lb b :
  hdr_wf (e_fh e) → tree_ok key_comparator_ ok (e_fh e) pgs (plug ctx (TLeaf p l)) →
  pgs !! p = Some (LeafNode (ctx_par ctx) nx l) →
  (∀ q, is_Some (pgs !! q) → q ∈ bp_pages (e_bp e)) →
  0 ≤ np → np ∉ bp_pages (e_bp e) → bp_pages b = {[np]} ∪ bp_pages (e_bp e) → la ≠ [] →
  min_of (leaf_max_size (e_fh e)) ≤ Z.of_nat (length la) ≤ leaf_max_size (e_fh e) →
  min_of (leaf_max_size (e_fh e)) ≤ Z.of_nat (length (i :: lb)) ≤ leaf_max_size (e_fh e) →
  msorted cmp (cpre ctx ++ (MItem <$> la ++ i :: lb) ++ cpost ctx) →
  mvalid ok (cpre ctx ++ (MItem <$> la ++ i :: lb) ++ cpost ctx) →
  split_state key_comparator_ ok
    (<[p := LeafNode (ctx_par ctx) np la]> (<[np := LeafNode (ctx_par ctx) nx (i :: lb)]> pgs))
    (mkEnv (e_hp e) (e_fh e) b (e_disp e)) ctx (TLeaf p la) i.1 (TLeaf np (i :: lb)) 0.
Proof using Type*.
  intros Hh [Hnd Hpos Hdomp Hr Hch Hk [n Hb] Ho Hs Hv Hroot] Hp Hdom Hnp0 Hnp Hbp Hla HszL HszR Hs' Hv'.
  rewrite pids_plug in Hnd, Hpos. cbn [pids] in Hnd, Hpos.
  assert (Hnpp : pgs !! np = None).
  { destruct (pgs !! np) eqn:E; [|done]. destruct Hnp. eauto. }
  apply NoDup_cons in Hnd as [Hpc Hnd]. apply Forall_cons in Hpos as [Hpp Hpos].
  apply repr_plug in Hr as [Hc Hr]. cbn [root] in Hc.
  assert (Hnpc : np ∉ cpids ctx).
  { intros Hq. destruct (crepr_dom _ _ _ _ Hc Hq). congruence. }
  assert (Hne : p ≠ np) by congruence.
  destruct (exists_last Hla) as (la' & x & Hx).
  destruct (msorted_separate cmp ok (cpre ctx ++ (MItem <$> la')) x i ((MItem <$> lb) ++ cpost ctx)) as [Hs2 Hv2].
  { rewrite Hx, <- app_assoc, fmap_app in Hs'. simpl in Hs'. rewrite <- !app_assoc in *. exact Hs'. }
  { rewrite Hx, <- app_assoc, fmap_app in Hv'. simpl in Hv'. rewrite <- !app_assoc in *. exact Hv'. }
  assert (Hmk : cpre ctx ++ marks (TLeaf p la) ++ MSep i.1 :: marks (TLeaf np (i :: lb)) ++ cpost ctx =
    (cpre ctx ++ (MItem <$> la')) ++ MItem x :: MSep i.1 :: MItem i :: (MItem <$> lb) ++ cpost ctx).
  { cbn [marks]. rewrite Hx, fmap_app. simpl. by rewrite <- !app_assoc. }
  apply bal_plug_inv in Hb as (h & -> & Hcb & ->). apply keys_ok_plug in Hk as (Hck & _ & Hreq).
  apply occ_plug in Ho as [Hco _].
  constructor; cbn [e_fh e_bp e_hp e_disp]; try done.
  - cbn [pids]. simpl. rewrite !NoDup_cons, not_elem_of_cons. done.
  - cbn [pids]. simpl. by rewrite !Forall_cons.
  - intros q Hq. rewrite Hbp. destruct (decide (q = np)) as [->|]; [set_solver|].
    destruct (decide (q = p)) as [->|]; [apply elem_of_union_r; eauto|].
    rewrite !lookup_insert_ne in Hq by done. apply elem_of_union_r. eauto.
  - eapply crepr_frame; [|exact Hc]. intros q Hq. rewrite !lookup_insert_ne; congruence.
  - exists np. apply lookup_insert_eq.
  - exists (ctx_par ctx), nx. rewrite lookup_insert_ne by done. apply lookup_insert_eq.
  - rewrite leaves_plug in Hch. cbn [leaves] in *. eapply chain_split; [exact Hch|..].
    + unfold next_of. by rewrite lookup_insert_eq.
    + unfold next_of. rewrite lookup_insert_ne by done. by rewrite lookup_insert_eq, Hp.
    + intros q Hq. assert (q ∈ cpids ctx) as Hqc.
      { apply elem_of_app in Hq as [Hq|Hq]; [by apply clpre_pids | by apply clpost_pids]. }
      unfold next_of. rewrite !lookup_insert_ne by congruence. done.
  - by rewrite Hmk.
  - by rewrite Hmk.
  - rewrite Hroot. by apply root_plug.
Qed.

Lemma occ_with_root hd r T : occ (with_root hd r) T ↔ occ hd T.
Proof.
  induction T as [p l|p kids IH] using tree_ind'; [done|]. rewrite !occ_node. cbn [with_root internal_max_size].
  rewrite !Forall_forall. rewrite Forall_forall in IH. split; intros [? Ho]; (split; [done|]);
    intros kt Hkt; by apply IH, Ho.
Qed.

Lemma root_occ_with_root hd r T : root_occ (with_root hd r) T ↔ root_occ hd T.
Proof.
  destruct T as [p l|p kids]; [done|]. simpl. rewrite !Forall_forall.
  split; intros [? Ho]; (split; [done|]); intros kt Hkt; by eapply occ_with_root, Ho.
Qed.

Lemma ctx_length ctx : (length ctx ≤ length (cpids ctx))%nat.
Proof. induction ctx as [|f ctx IH]; simpl; [done|]. rewrite length_app. lia. Qed.

(** What insertion gives: the pages hold a tree with the item, and only pages were taken. *)
Record inserted pgs e pgs' e' T' (ms : list (mark A)) : Prop := {
  in_tree : tree_ok key_comparator_ ok (e_fh e') pgs' T';
  in_marks : items_of (marks T') = items_of ms;
  in_hdr : hdr_wf (e_fh e');
  in_root : root_page (e_hp e') = root_page (e_fh e');
  in_disp : e_disp e' = e_disp e;
  in_pages : ∃ fresh : gset Z, fresh ## bp_pages (e_bp e) ∧ dom pgs' = fresh ∪ dom pgs ∧
               bp_pages (e_bp e') = fresh ∪ bp_pages (e_bp e);
}.

Lemma items_of_sep (m1 m2 : list (mark A)) k : items_of (m1 ++ MSep k :: m2) = items_of (m1 ++ m2).
Proof. by rewrite !items_of_app. Qed.

Lemma insert_into_leaf_full pgs e T key ctx p nx l1 l2 rid :
  hdr_wf (e_fh e) → root_page (e_hp e) = root_page (e_fh e) →
  tree_ok key_comparator_ ok (e_fh e) pgs T → ok key →
  dom pgs ⊆ bp_pages (e_bp e) → (S (base.size pgs) ≤ bp_free (e_bp e))%nat →
  at_leaf pgs T key ctx p nx l1 l2 false → Z.of_nat (length (l1 ++ l2)) = leaf_max_size (e_fh e) →
  ∃ pgs' e' T',
    runs (insert_entry_into_leaf_node key_comparator_ zero_key p key rid) pgs e tt pgs' e' ∧
    inserted pgs e pgs' e' T'
      ((cpre ctx ++ (MItem <$> l1)) ++ MItem (key, rid) :: (MItem <$> l2) ++ cpost ctx).
Proof using Type*.
  intros Hh Hhr HT Hkey Hdom Hfree [-> Hp Hlk Hl Hr] Hfull.
  pose proof (to_sorted _ _ _ _ _ HT) as Hs. pose proof (to_valid _ _ _ _ _ HT) as Hv.
  rewrite marks_plug in Hs, Hv. cbn [marks] in Hs, Hv. rewrite fmap_app, <- app_assoc, app_assoc in Hs, Hv.
  destruct (msorted_insert cmp ok _ _ key rid Hs Hv Hkey Hl Hr) as [Hs' Hv']. clear Hs Hv.
  destruct (bp_allocate_room (e_bp e) (pred (bp_free (e_bp e))) ltac:(lia)) as (b & np & Hb & Hnp0 & Hnp & Hbp & Hfr).
  assert (Hdom' : ∀ q, is_Some (pgs !! q) → q ∈ bp_pages (e_bp e)).
  { intros q Hq. apply Hdom, elem_of_dom, Hq. }
  assert (Hnpp : pgs !! np = None).
  { destruct (pgs !! np) eqn:E; [|done]. destruct Hnp. eauto. }
  destruct (runs_leaf_full _ _ _ _ _ _ _ _ rid _ _ Hh Hp Hlk Hfull Hb Hnpp) as
    (la & i & lb & Hsplit & Hla & HszL & HszR & Hrun).
  assert (Hm : (cpre ctx ++ (MItem <$> l1)) ++ MItem (key, rid) :: (MItem <$> l2) ++ cpost ctx =
               cpre ctx ++ (MItem <$> la ++ i :: lb) ++ cpost ctx).
  { rewrite <- Hsplit, fmap_app, fmap_cons, <- !app_assoc. done. }
  rewrite Hm in Hs', Hv' |- *.
  assert (Hss : split_state key_comparator_ ok
    (<[p := LeafNode (ctx_par ctx) np la]> (<[np := LeafNode (ctx_par ctx) nx (i :: lb)]> pgs))
    (mkEnv (e_hp e) (e_fh e) b (e_disp e)) ctx (TLeaf p la) i.1 (TLeaf np (i :: lb)) 0).
  { by apply (leaf_split_state pgs e ctx p nx (l1 ++ l2)). }
  pose proof (tree_ok_size _ _ _ _ _ HT) as Hsz. rewrite pids_plug in Hsz.
  cbn [pids app length] in Hsz. pose proof (ctx_length ctx) as Hcl.
  destruct (insert_up key_comparator_ zero_key ok ctx _ _ _ _ _ _ (S (base.size pgs)) Hss) as
    (pgs' & e' & fresh & T' & Hrun' & Hgr & HT' & HL & HP); [cbn [e_bp]; lia|lia|].
  assert (Hdom1 : dom (<[p := LeafNode (ctx_par ctx) np la]> (<[np := LeafNode (ctx_par ctx) nx (i :: lb)]> pgs))
                  = {[np]} ∪ dom pgs).
  { rewrite !dom_insert_L. assert (p ∈ dom pgs) by (apply elem_of_dom; eauto). set_solver. }
  exists pgs', e', T'. split; [by apply Hrun, Hrun'|].
  destruct Hgr as [Hgr Hgch Hgk [n Hgb] Hgo Hgfh Hghp Hgroot Hgd Hgbp Hgf Hgn Hgdom].
  cbn [e_fh e_bp e_hp e_disp] in *.
  assert (Hdisj : ∀ q, q ∈ fresh → q ≠ np ∧ q ∉ bp_pages (e_bp e)).
  { rewrite Forall_forall in Hgf. intros q [_ Hq]%Hgf. rewrite Hbp in Hq. set_solver. }
  constructor.
  - constructor; rewrite ?Hgfh.
    + rewrite HP. apply NoDup_app. split_and!; [done| |apply (ss_nodup _ _ _ _ _ _ _ _ _ Hss)].
      intros q Hq Hin. destruct (Hdisj q Hq) as [Hq1 Hq2].
      assert (q ∈ np :: pids (plug ctx (TLeaf p (l1 ++ l2)))) as Hqq.
      { rewrite pids_plug. cbn [pids] in *. set_solver. }
      apply elem_of_cons in Hqq as [->|Hqq]; [done|]. apply Hq2, Hdom.
      rewrite (to_dom _ _ _ _ _ HT). by apply elem_of_list_to_set.
    + rewrite HP. apply Forall_app. split; [|apply (ss_pos _ _ _ _ _ _ _ _ _ Hss)].
      eapply Forall_impl; [exact Hgf|]. tauto.
    + rewrite Hgdom, Hdom1, (to_dom _ _ _ _ _ HT), (list_to_set_perm_L _ _ HP),
        (list_to_set_perm_L _ _ (pids_plug _ _)). cbn [pids]. rewrite !list_to_set_app_L. simpl.
      clear. set_solver.
    + done.
    + done.
    + done.
    + by exists n.
    + by apply root_occ_with_root.
    + rewrite HT'. apply (ss_sorted _ _ _ _ _ _ _ _ _ Hss).
    + rewrite HT'. apply (ss_valid _ _ _ _ _ _ _ _ _ Hss).
    + done.
  - rewrite HT'. cbn [marks]. rewrite app_assoc, items_of_sep. f_equal.
    rewrite fmap_app, <- !app_assoc. done.
  - rewrite Hgfh. by apply hdr_wf_root.
  - rewrite Hgfh. by apply Hgroot.
  - done.
  - exists (list_to_set (np :: fresh)). rewrite Hgbp, Hgdom, Hdom1, Hbp.
    rewrite list_to_set_cons. split_and!; [|set_solver|set_solver].
    apply disjoint_union_l. split; [set_solver|]. intros q Hq%elem_of_list_to_set Hq'.
    by destruct (Hdisj q Hq).
Qed.

(** The items before and after the key. *)
Lemma at_leaf_sides pgs T key ctx p nx l1 l2 found :
  at_leaf pgs T key ctx p nx l1 l2 found →
  Forall (λ i, cmp i.1 key < 0) (items_of (cpre ctx ++ (MItem <$> l1))) ∧
  if found then ∃ x l2', l2 = x :: l2' ∧ cmp x.1 key = 0 ∧
       Forall (λ i, 0 < cmp i.1 key) (items_of ((MItem <$> l2') ++ cpost ctx))
  else Forall (λ i, 0 < cmp i.1 key) (items_of ((MItem <$> l2) ++ cpost ctx)).
Proof.
  intros [_ _ _ Hl Hr]. split; [by apply items_of_left|]. destruct found.
  - destruct Hr as (x & l2' & -> & Hx & Hr). exists x, l2'. split_and!; [done|done|].
    by apply items_of_right.
  - by apply items_of_right.
Qed.

Definition insert_body (key : Key A) (rid : RID) : MM unit :=
  st ← gets (λ st, st);
  if is_empty st then create_new_tree key rid
  else
    p ← find_leaf key_comparator_ OP_INSERT key;
    insert_entry_into_leaf_node key_comparator_ zero_key p key rid.

(** *** The first item *)
Lemma insert_first pgs e key rid :
  hdr_wf (e_fh e) → root_page (e_fh e) = BP_INVALID_PAGE_NUM → pgs = ∅ → ok key →
  (1 ≤ bp_free (e_bp e))%nat →
  ∃ pgs' e' T', runs (create_new_tree key rid) pgs e tt pgs' e' ∧
    inserted pgs e pgs' e' T' [MItem (key, rid)].
Proof using Type*.
  intros Hh Hroot -> Hkey Hfree.
  destruct (bp_allocate_room (e_bp e) 0 Hfree) as (b & np & Hb & Hnp0 & Hnp & Hbp & Hfr).
  exists {[np := LeafNode BP_INVALID_PAGE_NUM BP_INVALID_PAGE_NUM [(key, rid)]]},
    (mkEnv (with_root (e_hp e) np) (with_root (e_fh e) np) b (e_disp e)), (TLeaf np [(key, rid)]).
  split.
  { apply runs_gets. intros st (_ & _ & _ & Hfh & _). rewrite Hfh, Hroot, Z.eqb_refl. cbn [negb].
    eapply runs_bind; [by apply runs_allocate_page|].
    eapply runs_bind; [apply runs_ignore, runs_leaf_init_empty|]. rewrite insert_insert_eq.
    eapply runs_bind.
    { apply runs_ignore. apply (runs_leaf_insert np BP_INVALID_PAGE_NUM BP_INVALID_PAGE_NUM [] []);
        [apply lookup_insert_eq|done|]. apply hdr_leaf_fits; [done|]. destruct Hh. simpl. lia. }
    rewrite insert_insert_eq. eapply runs_eq; [apply runs_update_root|done|done]. }
  constructor; cbn [e_fh e_hp e_bp e_disp]; try done.
  - constructor; try done.
    + by apply NoDup_singleton.
    + by repeat constructor.
    + rewrite dom_singleton_L. simpl. set_solver.
    + exists BP_INVALID_PAGE_NUM. by rewrite lookup_singleton_eq.
    + simpl. split; [|done]. unfold next_of. by rewrite lookup_singleton_eq.
    + by exists 0%nat.
    + destruct Hh. simpl. lia.
    + repeat constructor.
    + by repeat constructor.
  - by apply hdr_wf_root.
  - exists ({[np]} : gset Z). rewrite dom_singleton_L, Hbp. set_solver.
Qed.

(** A new item, not yet in the index. *)
Lemma insert_new reserved pgs e l key rid :
  env_ok key_comparator_ ok reserved pgs e l → ok key →
  (S (base.size pgs) ≤ bp_free (e_bp e))%nat → has_key cmp l key = false →
  ∃ pgs' e', runs (insert_body key rid) pgs e tt pgs' e' ∧
    env_ok key_comparator_ ok reserved pgs' e' (ordered_insert cmp key rid l) ∧ e_disp e' = e_disp e.
Proof using Type*.
  intros [Hh Hhr Hbp Hres Hho] Hkey Hfree Hnew.
  assert (Hdone : ∀ pgs' e' T' ms, inserted pgs e pgs' e' T' ms → items_of ms = ordered_insert cmp key rid l →
    runs (insert_body key rid) pgs e tt pgs' e' →
    ∃ pgs' e', runs (insert_body key rid) pgs e tt pgs' e' ∧
    env_ok key_comparator_ ok reserved pgs' e' (ordered_insert cmp key rid l) ∧ e_disp e' = e_disp e).
  { intros pgs' e' T' ms [HT Hm Hh' Hr' Hd (fresh & Hf1 & Hf2 & Hf3)] Hms Hrun.
    exists pgs', e'. split; [done|]. split; [|done]. constructor; try done.
    - rewrite Hf3, Hf2, Hbp. set_solver.
    - rewrite Hf2. rewrite Hbp in Hf1. set_solver.
    - right. exists T'. split; [done|]. by rewrite Hm. }
  destruct Hho as [(Hroot & Hpg & ->)|(T & HT & ->)].
  - destruct (insert_first pgs e key rid Hh Hroot Hpg Hkey) as (pgs' & e' & T' & Hrun & Hins); [lia|].
    apply (Hdone pgs' e' T' _ Hins); [done|].
    apply runs_gets. intros st (_ & _ & _ & Hfh & _). unfold is_empty. rewrite Hfh, Hroot. exact Hrun.
  - destruct (tree_search OP_INSERT key T pgs e Hh HT Hkey) as (ctx & p & nx & l1 & l2 & found & Hrun & Hal).
    rewrite (at_leaf_contents _ _ _ _ _ _ _ _ _ Hal) in Hnew, Hdone |- *.
    destruct (at_leaf_sides _ _ _ _ _ _ _ _ _ Hal) as [Hl Hr]. destruct found.
    { destruct Hr as (x & l2' & -> & Hx & _). rewrite fmap_cons in Hnew. cbn [app items_of] in Hnew.
      by rewrite has_key_at in Hnew. }
    rewrite ordered_insert_at in Hdone |- * by done.
    assert (Hgo : ∀ pgs' e', runs (insert_entry_into_leaf_node key_comparator_ zero_key p key rid) pgs e tt pgs' e' →
      runs (insert_body key rid) pgs e tt pgs' e').
    { intros pgs' e' Hi. apply runs_gets. intros st (_ & _ & _ & Hfh & _). unfold is_empty.
      rewrite Hfh, (to_root _ _ _ _ _ HT), (proj2 (Z.eqb_neq _ _)) by (by eapply tree_ok_root_valid).
      by eapply runs_bind. }
    destruct (Z.lt_ge_cases (Z.of_nat (length (l1 ++ l2))) (leaf_max_size (e_fh e))) as [Hlt|Hge].
    + destruct (insert_into_leaf_room _ _ _ _ _ _ _ _ _ rid Hh HT Hkey Hal Hlt) as (pgs' & T' & Hrun' & HT' & Hdom & Hm).
      eapply (Hdone pgs' e T' (marks T')); [|by rewrite Hm, items_of_app|by apply Hgo].
      constructor; try done. exists ∅. rewrite Hdom. set_solver.
    + pose proof (to_occ _ _ _ _ _ HT) as Ho. rewrite (al_tree _ _ _ _ _ _ _ _ _ Hal) in Ho.
      apply occ_plug in Ho as [_ Ho]. assert (Hmax : Z.of_nat (length (l1 ++ l2)) ≤ leaf_max_size (e_fh e)).
      { destruct ctx; simpl in Ho; lia. }
      destruct (insert_into_leaf_full pgs e T key ctx p nx l1 l2 rid) as (pgs' & e' & T' & Hrun' & Hins); try done.
      { rewrite Hbp. set_solver. }
      { lia. }
      eapply Hdone; [exact Hins|by rewrite items_of_app|by apply Hgo].
Qed.

(** *** The key is in the index *)
Lemma insert_duplicate reserved st l key rid :
  faults st = [] → disposed st = [] → env_ok key_comparator_ ok reserved (pages st) (env_of st) l →
  ok key → has_key cmp l key = true →
  ∃ st', insert_body key rid st = Err RC_RECORD_DUPLICATE_KEY st' ∧ keeps st st'.
Proof using Type*.
  intros Hf Hd [Hh _ _ _ Hho] Hkey Hdup.
  destruct Hho as [(_ & _ & ->)|(T & HT & ->)]; [done|].
  destruct (tree_search OP_INSERT key T (pages st) (env_of st) Hh HT Hkey)
    as (ctx & p & nx & l1 & l2 & found & Hrun & Hal).
  rewrite (at_leaf_contents _ _ _ _ _ _ _ _ _ Hal), has_key_app in Hdup.
  destruct (at_leaf_sides _ _ _ _ _ _ _ _ _ Hal) as [Hl Hr]. rewrite has_key_left in Hdup by done.
  destruct found; [|by rewrite has_key_right in Hdup].
  destruct (Hrun st) as (st1 & E & _ & Hpg & _); [by split_and!|].
  exists st1. split.
  - unfold insert_body, gets, mbind, M_bind. unfold is_empty.
    pose proof (to_root _ _ _ _ _ HT) as Hroot. cbn [env_of e_fh] in Hroot.
    rewrite Hroot, (proj2 (Z.eqb_neq _ _)) by (by eapply tree_ok_root_valid).
    rewrite E. unfold insert_entry_into_leaf_node, get_leaf, get_node, gets, mbind, M_bind.
    rewrite Hpg, (al_page _ _ _ _ _ _ _ _ _ Hal). simpl. by rewrite (al_lookup _ _ _ _ _ _ _ _ _ Hal).
  - pose proof (reads_find_leaf_internal OP_INSERT
      (λ its : list (Key A * Z), '(i, _) ← internal_lookup cmp its key; snd <$> at_z its i) st Hf) as Hread.
    unfold find_leaf in E. by rewrite E in Hread.
Qed.

Lemma insert_entry_ok reserved st l lsn (user_key : Key A) rid :
  index_ok key_comparator_ ok reserved st l → ok (make_key user_key rid) →
  (S (base.size (pages st)) ≤ bp_free (bp st))%nat →
  let spec := spec_insert cmp (make_key user_key rid) rid l in
  ∃ st', insert_entry key_comparator_ zero_key lsn user_key rid st = Some (spec.1, st') ∧
    index_ok key_comparator_ ok reserved st' spec.2 ∧
    (spec.1 ≠ RC_SUCCESS → pages st' = pages st).
Proof using Type*.
  intros [Hf Hok] Hkey Hfree. cbv zeta. set (key := make_key user_key rid) in *.
  unfold spec_insert. destruct (has_key cmp l key) eqn:Hdup.
  - set (st0 := set_entries (set_disposed (set_memo st []) []) []).
    destruct (insert_duplicate reserved st0 l key rid) as (st1 & E & Hk); try done.
    eexists. split; [by eapply mini_transaction_read|]. done.
  - destruct (insert_new reserved (pages st) (env_of st) l key rid Hok Hkey Hfree Hdup)
      as (pgs' & e' & Hrun & Hok' & Hd).
    destruct (mini_transaction_ok lsn _ st pgs' e' Hf Hrun) as (st' & E & Hst').
    cbn [env_of e_disp] in Hd. rewrite Hd in Hst'. cbn [foldr foldl] in Hst'.
    destruct Hst' as (? & Hpg & Hhp & Hfh & Hbp & _). cbn [e_hp e_fh e_bp] in *.
    exists st'. split; [exact E|]. split; [|done]. split; [done|]. destruct Hok' as [H1 H2 H3 H4 H5].
    constructor; cbn [env_of e_hp e_fh e_bp]; rewrite ?Hpg, ?Hhp, ?Hfh, ?Hbp; done.
Qed.

(** C1: [insert_entry] refines insertion into an ordered list.  On an index with the contents [l], a key the order is defined on and more
    free pages in the file than the tree has pages (enough for a split on every level; with a full file the call fails
    and its rollback can get stuck) it returns (it never trips an assertion, runs out of fuel or reads outside a node),
    with the code and the contents of the specification: a new key is put at its place in the
    order, for a key that is there the code is [RC_RECORD_DUPLICATE_KEY] and no page changes.
    The pages hold a well-formed, balanced tree again, no page is leaked and none is used twice. *)
Theorem insert_entry_refines reserved st l lsn (user_key : Key A) rid :
  index_ok key_comparator_ ok reserved st l → ok (make_key user_key rid) →
  (S (base.size (pages st)) ≤ bp_free (bp st))%nat →
  let spec := spec_insert cmp (make_key user_key rid) rid l in
  ∃ st', insert_entry key_comparator_ zero_key lsn user_key rid st = Some (spec.1, st') ∧
    index_ok key_comparator_ ok reserved st' spec.2 ∧
    (spec.1 ≠ RC_SUCCESS → pages st' = pages st).
Proof using Type*. apply insert_entry_ok. Qed.
End insert_entry.

(** A duplicate and a new item that splits the leaf. *)
Lemma insert_entry_refines_witness :
  (∃ st', insert_entry ex_cmp ex_zero_key (Some 1) ([20], mkRID 0 0) (mkRID 1 20) ex_leaf =
            Some (RC_RECORD_DUPLICATE_KEY, st')) ∧
  ∃ st', insert_entry ex_cmp ex_zero_key (Some 1) ([25], mkRID 0 0) (mkRID 1 25) ex_leaf = Some (RC_SUCCESS, st') ∧
    index_ok ex_cmp ex_ok {[0; 1]} st' ((λ x, (ex_key x, mkRID 1 x)) <$> [10; 20; 25; 30; 40]).
Proof.
  split.
  - destruct (insert_entry_refines ex_cmp ex_zero_key ex_ok {[0; 1]} ex_leaf ex_items (Some 1) ([20], mkRID 0 0) (mkRID 1 20))
      as (st' & E & _); [apply ex_leaf_ok|by apply (ex_key_ok 20)|vm_compute; lia|].
    exists st'. exact E.
  - destruct (insert_entry_refines ex_cmp ex_zero_key ex_ok {[0; 1]} ex_leaf ex_items (Some 1) ([25], mkRID 0 0) (mkRID 1 25))
      as (st' & E & Hok & _); [apply ex_leaf_ok|by apply (ex_key_ok 25)|vm_compute; lia|].
    exists st'. split; [exact E|exact Hok].
Defined.
