(* ===== verification/BplusRebalance.v ===== *)
(** * Rebalancing two siblings

    Merging two siblings and moving an item between them replace two neighbouring children of a
    node by one or two others with the same items. *)
From stdpp Require Import sorting.
From S2P Require Import Prelude Rc BplusKey PageAlloc LowerBound BplusTree BplusGhost BplusWp BplusFind BplusInsert BplusSplit BplusInv BplusInsertEntry.

Section rebalance.
Context {A B : Type} `{PageAllocator B} (key_comparator_ : KeyComparator A) (zero_key : Key A).
Context (ok : Key A → Prop) `{!TotalCompare (key_compare key_comparator_) ok}.
#[local] Abbreviation cmp := (key_compare key_comparator_).
#[local] Abbreviation Pages := (gmap Z (Node A)).
#[local] Abbreviation St := (State A B).
#[local] Abbreviation MM := (M St).
#[local] Abbreviation Leaf := (LeafIndexNodeHandler (A := A) (B := B)).
Implicit Types (pgs : Pages) (e : env (B := B)) (T : tree A) (st : St).
Implicit Types (ctx : list (frame A)) (key : Key A) (kids L R : list (Key A * tree A)).

#[local] Abbreviation tree_mid := (tree_mid key_comparator_ ok).

(** The children around two siblings do not change; the siblings become [M]. *)
Lemma replace_kids pgs pgs' e gone ctx p L kl tl k tr R M tl' M' :
  tree_mid pgs e (plug ctx (TNode p (L ++ (kl, tl) :: (k, tr) :: R))) →
  M = (kl, tl') :: M' →
  pgs' !! p = Some (InternalNode (ctx_par ctx) (kitems (L ++ M ++ R))) →
  Forall (λ kt, repr pgs' p kt.2) M →
  kpids M ++ gone ≡ₚ pids tl ++ pids tr →
  (∀ q, q ≠ p → q ∉ pids tl ++ pids tr → pgs' !! q = pgs !! q) →
  dom pgs' = dom pgs →
  chain pgs' (clpre ctx ++ kleaves (L ++ M ++ R) ++ clpost ctx) →
  msorted cmp (cpre ctx ++ tail (kmarks (L ++ M ++ R)) ++ cpost ctx) →
  mvalid ok (cpre ctx ++ tail (kmarks (L ++ M ++ R)) ++ cpost ctx) →
  (∀ h, bal h tl → bal h tr → Forall (λ kt, bal h kt.2) M) →
  (keys_ok tl → keys_ok tr → left_keys k tr → Forall (λ kt, keys_ok kt.2) M ∧ Forall (λ kt, left_keys kt.1 kt.2) M') →
  (∀ kk, left_keys kk tl → left_keys kk tl') →
  tree_mid pgs' (mkEnv (e_hp e) (e_fh e) (e_bp e) (e_disp e ++ gone)) (plug ctx (TNode p (L ++ M ++ R))).
Proof.
  intros [Hnd Hpos Hdom Hr Hch Hk [n Hb] Hs Hv Hroot] HM Hp HrM Hpm Hoth Hdom' Hch' Hs' Hv' HbM HkM Hlk.
  assert (Hpids : pids (plug ctx (TNode p (L ++ M ++ R))) ++ gone ≡ₚ
                  pids (plug ctx (TNode p (L ++ (kl, tl) :: (k, tr) :: R)))).
  { rewrite !pids_plug. change (pids (TNode p ?l)) with (p :: kpids l).
    rewrite !kpids_app, !kpids_cons.
    transitivity (p :: kpids L ++ (kpids M ++ gone) ++ kpids R ++ cpids ctx); [solve_Permutation|].
    rewrite Hpm. solve_Permutation. }
  assert (Hall : pids (plug ctx (TNode p (L ++ M ++ R))) ++ e_disp e ++ gone ≡ₚ
                 pids (plug ctx (TNode p (L ++ (kl, tl) :: (k, tr) :: R))) ++ e_disp e).
  { rewrite <- Hpids. solve_Permutation. }
  apply keys_ok_plug in Hk as (Hck & Hk & Hreq). apply keys_ok_node in Hk as [Hk Hkt].
  apply Forall_app in Hk as [HkL [Hkl [Hkr HkR]%Forall_cons]%Forall_cons].
  assert (Hkeys : left_keys k tr ∧ Forall (λ kt, left_keys kt.1 kt.2) R ∧
    (L ≠ [] → Forall (λ kt, left_keys kt.1 kt.2) (tail L) ∧ left_keys kl tl)).
  { destruct L as [|[k0 t0] L]; simpl in Hkt.
    - apply Forall_cons in Hkt as [??]. done.
    - apply Forall_app in Hkt as [? [? [??]%Forall_cons]%Forall_cons]. done. }
  destruct Hkeys as (Hlkr & HkR' & HkL'). destruct (HkM Hkl Hkr Hlkr) as [HkM1 HkM2].
  pose proof Hnd as (Hnd1 & _)%NoDup_app. rewrite pids_plug in Hnd1.
  change (pids (TNode p ?l)) with (p :: kpids l) in Hnd1. rewrite kpids_app, !kpids_cons in Hnd1.
  assert (Hnd2 : NoDup ((pids tl ++ pids tr) ++ p :: kpids L ++ kpids R ++ cpids ctx)).
  { assert ((pids tl ++ pids tr) ++ p :: kpids L ++ kpids R ++ cpids ctx ≡ₚ
      (p :: kpids L ++ pids tl ++ pids tr ++ kpids R) ++ cpids ctx) as -> by solve_Permutation. done. }
  apply NoDup_app in Hnd2 as (_ & Hdis & [Hpo _]%NoDup_cons).
  assert (Hkeep : ∀ q, q ∈ kpids L ++ kpids R ++ cpids ctx → pgs' !! q = pgs !! q).
  { intros q Hq. apply Hoth; [intros ->; by apply Hpo|]. intros Hin. apply (Hdis q Hin).
    by apply list_elem_of_further. }
  apply repr_plug in Hr as [Hc Hr]. apply repr_node in Hr as [_ HrK].
  apply Forall_app in HrK as [HrL [_ [_ HrR]%Forall_cons]%Forall_cons].
  assert (Hframe : ∀ K, Forall (λ kt, repr pgs p kt.2) K → (∀ q, q ∈ kpids K → q ∈ kpids L ++ kpids R ++ cpids ctx) →
                        Forall (λ kt, repr pgs' p kt.2) K).
  { intros K HK HKq. rewrite Forall_forall in HK. rewrite Forall_forall. intros kt Hin.
    eapply repr_frame; [|by apply HK]. intros q Hq. apply Hkeep, HKq. apply kpids_elem. eauto. }
  constructor; cbn [e_disp e_fh].
  - by rewrite Hall.
  - rewrite <- Hpids in Hpos. by apply Forall_app in Hpos as [? _].
  - rewrite Hdom', Hdom. by rewrite Hall.
  - apply repr_plug. split.
    + eapply crepr_frame; [|exact Hc]. intros q Hq. apply Hkeep. rewrite !elem_of_app. tauto.
    + apply repr_node. split; [done|]. apply Forall_app. split; [|apply Forall_app; split; [done|]].
      * apply Hframe; [done|]. intros q Hq. rewrite !elem_of_app. tauto.
      * apply Hframe; [done|]. intros q Hq. rewrite !elem_of_app. tauto.
  - rewrite leaves_plug. done.
  - apply keys_ok_plug. split; [done|]. split.
    + apply keys_ok_node. rewrite !Forall_app. split; [done|]. rewrite HM.
      destruct L as [|[k0 t0] L]; simpl.
      * by apply Forall_app.
      * destruct HkL' as [? ?]; [done|]. rewrite Forall_app, Forall_cons, Forall_app. naive_solver.
    + unfold lk_opt in *. destruct (req ctx) as [k'|]; [|done]. rewrite HM.
      destruct L as [|[k0 t0] L]; simpl in *; [|done]. destruct Hreq. split; [done|]. by apply Hlk.
  - apply bal_plug_inv in Hb as (h & -> & Hc' & Hb). destruct h as [|h]; [done|].
    exists (length ctx + S h)%nat. apply bal_plug. split; [done|]. rewrite bal_node in Hb. rewrite bal_node.
    apply Forall_app in Hb as [Hb1 [Hb2 [Hb3 Hb4]%Forall_cons]%Forall_cons].
    apply Forall_app. split; [done|]. apply Forall_app. split; [by apply HbM | done].
  - by rewrite marks_plug, marks_node.
  - by rewrite marks_plug, marks_node.
  - rewrite Hroot. by apply root_plug.
Qed.

(** *** The moves between two nodes *)
Lemma runs_leaf_move_to p other par nx l po nxo lo pgs e :
  p ≠ other → pgs !! p = Some (LeafNode par nx l) → pgs !! other = Some (LeafNode po nxo lo) →
  leaf_fits (e_fh e) (length (lo ++ l)) →
  runs (leaf_move_to p other) pgs e tt
    (<[p := LeafNode par nx []]> (<[other := LeafNode po nx (lo ++ l)]> pgs)) e.
Proof.
  intros Hne Hp Ho Hf. eapply runs_bind; [by eapply runs_get_leaf|].
  eapply runs_bind; [by eapply runs_ignore, runs_leaf_append|].
  eapply runs_bind; [by eapply runs_ignore, runs_leaf_set_next, lookup_insert_eq|].
  rewrite insert_insert_eq. eapply runs_bind; [apply runs_append_log_entry|].
  match goal with |- runs _ ?m ?e' _ _ _ =>
    pose proof (runs_handler_remove_leaf p par nx [] l [] m e' 0 (Z.of_nat (length l))) as Hr end.
  rewrite app_nil_r in Hr. apply Hr; [|done|done]. by rewrite lookup_insert_ne.
Qed.

Lemma runs_leaf_move_first p other par nx x l po nxo lo pgs e :
  p ≠ other → pgs !! p = Some (LeafNode par nx (x :: l)) → pgs !! other = Some (LeafNode po nxo lo) →
  leaf_fits (e_fh e) (length (lo ++ [x])) →
  runs (leaf_move_first_to_end p other) pgs e tt
    (<[p := LeafNode par nx l]> (<[other := LeafNode po nxo (lo ++ [x])]> pgs)) e.
Proof.
  intros Hne Hp Ho Hf. eapply runs_bind; [by apply runs_get_node|].
  eapply runs_bind; [apply runs_of_option, (items_at_middle_leaf par nx [] [x] l); done|].
  eapply runs_bind; [by eapply runs_ignore, runs_leaf_append|].
  apply (runs_leaf_remove p par nx [] x l); [|done]. by rewrite lookup_insert_ne.
Qed.

Lemma runs_leaf_move_last p other par nx l x po nxo lo pgs e :
  p ≠ other → pgs !! p = Some (LeafNode par nx (l ++ [x])) → pgs !! other = Some (LeafNode po nxo lo) →
  leaf_fits (e_fh e) (S (length lo)) →
  runs (leaf_move_last_to_front p other) pgs e tt
    (<[p := LeafNode par nx l]> (<[other := LeafNode po nxo (x :: lo)]> pgs)) e.
Proof.
  intros Hne Hp Ho Hf. eapply runs_bind; [by apply runs_get_node|]. destruct x as [k r].
  assert (Hsz : size (LeafNode par nx (l ++ [(k, r)])) - 1 = Z.of_nat (length l)).
  { simpl. rewrite length_app. simpl. lia. }
  rewrite Hsz. eapply runs_bind.
  { apply runs_of_option. pose proof (items_at_middle_leaf par nx l [(k, r)] [] (Z.of_nat (length l)) 1) as Hi.
    rewrite app_nil_r in Hi. by apply Hi. }
  eapply runs_bind.
  { apply runs_ignore. apply (runs_leaf_insert other po nxo [] lo); [done|done|exact Hf]. }
  apply runs_ignore. match goal with |- runs _ ?m ?e' _ _ _ =>
    pose proof (runs_leaf_remove p par nx l (k, r) [] m e') as Hr end.
  rewrite app_nil_r in Hr. apply Hr; [|done]. by rewrite lookup_insert_ne.
Qed.

Lemma adopted_page (p other q : Z) (cs : list Z) (n n' : Node A) pgs :
  p ≠ other → p ∉ cs → pgs !! p = Some n → adopt_all q cs (<[other := n']> pgs) !! p = Some n.
Proof.
  intros Hne Hc Hp. rewrite adopt_all_lookup, decide_False by done. by rewrite lookup_insert_ne.
Qed.

Lemma children_present (its : list (Key A * Z)) other (n' : Node A) pgs :
  (∀ c, c ∈ its.*2 → is_Some (pgs !! c)) → ∀ c, c ∈ its.*2 → is_Some (<[other := n']> pgs !! c).
Proof.
  intros Hc c Hin. destruct (decide (c = other)) as [->|]; [rewrite lookup_insert_eq; eauto|].
  rewrite lookup_insert_ne by done. auto.
Qed.

Lemma runs_internal_move_to p other par l po lo pgs e :
  p ≠ other → pgs !! p = Some (InternalNode par l) → pgs !! other = Some (InternalNode po lo) →
  internal_fits (e_fh e) (length (lo ++ l)) → (∀ c, c ∈ l.*2 → is_Some (pgs !! c)) → p ∉ l.*2 →
  runs (internal_move_to p other) pgs e tt
    (<[p := InternalNode par []]> (adopt_all other l.*2 (<[other := InternalNode po (lo ++ l)]> pgs))) e.
Proof.
  intros Hne Hp Ho Hf Hc Hpc. eapply runs_bind; [by apply runs_get_node|].
  eapply runs_bind.
  { apply runs_of_option. pose proof (items_at_middle_internal par [] l [] 0 (size (InternalNode par l))) as Hi.
    rewrite app_nil_r in Hi. by apply Hi. }
  eapply runs_bind; [by apply runs_internal_append|].
  eapply runs_bind; [apply runs_append_log_entry|].
  match goal with |- runs _ ?m ?e' _ _ _ =>
    pose proof (runs_handler_remove_internal p par [] l [] m e' 0 (size (InternalNode par l))) as Hr end.
  rewrite app_nil_r in Hr. apply Hr; [|done|done]. by apply adopted_page.
Qed.

Lemma runs_internal_move_first p other par x l po lo pgs e :
  p ≠ other → pgs !! p = Some (InternalNode par (x :: l)) → pgs !! other = Some (InternalNode po lo) →
  internal_fits (e_fh e) (length (lo ++ [x])) → is_Some (pgs !! x.2) → p ≠ x.2 →
  runs (internal_move_first_to_end p other) pgs e tt
    (<[p := InternalNode par l]> (adopt_all other [x.2] (<[other := InternalNode po (lo ++ [x])]> pgs))) e.
Proof.
  intros Hne Hp Ho Hf Hc Hpc. eapply runs_bind; [by apply runs_get_node|].
  eapply runs_bind; [apply runs_of_option, (items_at_middle_internal par [] [x] l); done|].
  eapply runs_bind.
  { apply (runs_internal_append other po lo [x]); [done|done|].
    by intros c Hin%list_elem_of_singleton; subst. }
  apply (runs_internal_remove p par [] x l); [|done]. apply adopted_page; try done.
  by intros Hin%list_elem_of_singleton.
Qed.

Lemma runs_internal_move_last p other par l x po lo pgs e :
  p ≠ other → pgs !! p = Some (InternalNode par (l ++ [x])) → pgs !! other = Some (InternalNode po lo) →
  internal_fits (e_fh e) (S (length lo)) → is_Some (pgs !! x.2) → p ≠ x.2 →
  runs (internal_move_last_to_front p other) pgs e tt
    (<[p := InternalNode par l]> (adopt_all other [x.2] (<[other := InternalNode po (x :: lo)]> pgs))) e.
Proof.
  intros Hne Hp Ho Hf Hc Hpc. eapply runs_bind; [by apply runs_get_node|].
  assert (Hsz : size (InternalNode par (l ++ [x])) - 1 = Z.of_nat (length l)).
  { simpl. rewrite length_app. simpl. lia. }
  rewrite Hsz. eapply runs_bind.
  { apply runs_of_option. pose proof (items_at_middle_internal par l [x] [] (Z.of_nat (length l)) 1) as Hi.
    rewrite app_nil_r in Hi. by apply Hi. }
  eapply runs_bind.
  { apply (runs_insert_items other po [] lo [x]); [done|done|exact Hf|].
    by intros c Hin%list_elem_of_singleton; subst. }
  eapply runs_bind; [apply runs_append_log_entry|].
  match goal with |- runs _ ?m ?e' _ _ _ =>
    pose proof (runs_handler_remove_internal p par l [x] [] m e' (Z.of_nat (length l)) 1) as Hr end.
  rewrite !app_nil_r in Hr. apply Hr; [|done|done]. apply adopted_page; try done.
  by intros Hin%list_elem_of_singleton.
Qed.

Lemma set_z_middle {V} (l1 l2 : list V) x y :
  set_z (l1 ++ x :: l2) (Z.of_nat (length l1)) y = Some (l1 ++ y :: l2).
Proof.
  unfold set_z. rewrite length_app. simpl. rewrite (proj2 (Z.leb_le _ _)), (proj2 (Z.ltb_lt _ _)) by lia.
  simpl. rewrite Nat2Z.id. by rewrite insert_app_r_alt, Nat.sub_diag by lia.
Qed.

Lemma runs_set_key_at p par l1 old v l2 key pgs e idx :
  pgs !! p = Some (InternalNode par (l1 ++ (old, v) :: l2)) → idx = Z.of_nat (length l1) →
  runs (set_key_at p idx key) pgs e tt (<[p := InternalNode par (l1 ++ (key, v) :: l2)]> pgs) e.
Proof.
  intros Hp ->. eapply runs_bind; [by apply runs_get_internal|].
  eapply runs_bind; [apply runs_of_option, at_z_middle|].
  eapply runs_bind; [apply runs_append_log_entry|].
  eapply runs_bind; [apply runs_of_option, set_z_middle|]. apply runs_put_node.
Qed.

Lemma runs_value_at p par l1 k v l2 pgs e idx :
  pgs !! p = Some (InternalNode par (l1 ++ (k, v) :: l2)) → idx = Z.of_nat (length l1) →
  runs (internal_value_at p idx) pgs e v pgs e.
Proof.
  intros Hp ->. eapply runs_bind; [by apply runs_get_internal|].
  eapply runs_bind; [apply runs_of_option, at_z_middle|]. apply runs_ret.
Qed.

(** What the pages hold at two siblings. *)
Record siblings pgs e ctx p L kl tl k tr R : Prop := {
  sb_parent : pgs !! p = Some (InternalNode (ctx_par ctx) (kitems (L ++ (kl, tl) :: (k, tr) :: R)));
  sb_left : repr pgs p tl;
  sb_right : repr pgs p tr;
  sb_nodup : NoDup (p :: pids tl ++ pids tr);
  sb_pos : 0 ≤ p;
}.

Lemma siblings_of pgs e ctx p L kl tl k tr R :
  tree_mid pgs e (plug ctx (TNode p (L ++ (kl, tl) :: (k, tr) :: R))) →
  siblings pgs e ctx p L kl tl k tr R.
Proof.
  intros [Hnd Hpos _ Hr _ _ _ _ _ _]. apply repr_plug in Hr as [_ [Hp Hr]%repr_node].
  apply Forall_app in Hr as [_ [Hl [Hr _]%Forall_cons]%Forall_cons].
  apply NoDup_app in Hnd as (Hnd & _). rewrite pids_plug in Hnd, Hpos.
  change (pids (TNode p ?l)) with (p :: kpids l) in *. rewrite kpids_app, !kpids_cons in Hnd.
  constructor; try done.
  - assert (Heq : (p :: kpids L ++ pids tl ++ pids tr ++ kpids R) ++ cpids ctx ≡ₚ
      (p :: pids tl ++ pids tr) ++ kpids L ++ kpids R ++ cpids ctx) by solve_Permutation.
    rewrite Heq in Hnd. by apply NoDup_app in Hnd as (? & _).
  - by apply Forall_cons in Hpos as [? _].
Qed.

Lemma siblings_keys pgs e ctx p L kl tl k tr R :
  tree_mid pgs e (plug ctx (TNode p (L ++ (kl, tl) :: (k, tr) :: R))) →
  keys_ok tl ∧ keys_ok tr ∧ left_keys k tr.
Proof.
  intros HT. pose proof (tm_keys _ _ _ _ _ HT) as (_ & [Hk Hkt]%keys_ok_node & _)%keys_ok_plug.
  apply Forall_app in Hk as [_ [? [? _]%Forall_cons]%Forall_cons]. split_and!; [done|done|].
  destruct L as [|[k0 t0] L]; simpl in Hkt; [by apply Forall_cons in Hkt as [??]|].
  by apply Forall_app in Hkt as [_ [_ [? _]%Forall_cons]%Forall_cons].
Qed.

(** The marks of a node around one child. *)
Lemma child_marks p L kl t rest :
  tail (kmarks (L ++ (kl, t) :: rest)) = fpre (mkFr p L kl rest) ++ marks t ++ kmarks rest.
Proof. apply (marks_fill (mkFr p L kl rest) t). Qed.

(** The children of two sibling nodes distributed anew. *)
Definition node_pair (kl : Key A) (pl : Z) (ks1 : list (Key A * tree A)) (pr : Z) (ks2 : list (Key A * tree A)) :=
  (kl, TNode pl ks1) :: match ks2 with [] => [] | (k, _) :: _ => [(k, TNode pr ks2)] end.

Lemma node_pair_marks kl pl ks1 pr ks2 :
  ks1 ≠ [] → kmarks (node_pair kl pl ks1 pr ks2) = MSep kl :: tail (kmarks (ks1 ++ ks2)).
Proof.
  intros Hne. unfold node_pair. rewrite kmarks_cons. f_equal. destruct ks2 as [|[k t] ks2].
  - by rewrite !app_nil_r, marks_node.
  - rewrite kmarks_cons. cbn [kmarks map concat]. rewrite app_nil_r. by apply marks_split.
Qed.

Lemma repartition_nodes pgs pgs' e ctx p L kl pl ksl k pr ksr R ks1 ks2 :
  tree_mid pgs e (plug ctx (TNode p (L ++ (kl, TNode pl ksl) :: (k, TNode pr ksr) :: R))) →
  ksl ≠ [] → ksr ≠ [] → ks1 ≠ [] → ks1 ++ ks2 = ksl ++ ksr →
  parent_split (<[p := InternalNode (ctx_par ctx) (kitems (L ++ node_pair kl pl ks1 pr ks2 ++ R))]> pgs)
    pgs' pl pr p ks1 ks2 →
  dom pgs' = dom pgs →
  tree_mid pgs' (mkEnv (e_hp e) (e_fh e) (e_bp e) (e_disp e ++ match ks2 with [] => [pr] | _ => [] end))
    (plug ctx (TNode p (L ++ node_pair kl pl ks1 pr ks2 ++ R))).
Proof.
  intros HT Hnl Hnr Hn1 Hks Hps Hdom.
  pose proof (siblings_of _ _ _ _ _ _ _ _ _ _ HT) as [Hp [Hl HlK]%repr_node [Hr HrK]%repr_node Hnd Hpos].
  pose proof Hps as [Hpl Hpr Hk1 Hk2 Ho]. set (M := node_pair kl pl ks1 pr ks2) in *.
  change (pids (TNode ?p ?l)) with (p :: kpids l) in Hnd.
  assert (Hpk : pids (TNode pl ksl) ++ pids (TNode pr ksr) ≡ₚ pl :: pr :: kpids (ks1 ++ ks2)).
  { rewrite Hks, kpids_app. change (pids (TNode ?p ?l)) with (p :: kpids l). solve_Permutation. }
  change (pids (TNode ?p ?l)) with (p :: kpids l) in Hpk. rewrite Hpk in Hnd.
  rewrite !NoDup_cons, !not_elem_of_cons in Hnd. destruct Hnd as ((Hppl & Hppr & Hpk') & (Hplr & Hplk) & Hprk & Hndk).
  destruct (siblings_keys _ _ _ _ _ _ _ _ _ _ HT) as ([Hkl Hkl']%keys_ok_node & [Hkr Hkr']%keys_ok_node & Hlk).
  destruct ksr as [|[k0 c0] ksr]; [done|]. destruct Hlk as [-> Hlk]. cbn [tail] in Hkr'.
  assert (HkA : Forall (λ kt, keys_ok kt.2) (ks1 ++ ks2)) by (rewrite Hks; by apply Forall_app).
  assert (HkT : Forall (λ kt, left_keys kt.1 kt.2) (tail (ks1 ++ ks2))).
  { rewrite Hks. destruct ksl as [|kt ksl]; [done|]. simpl. apply Forall_app. split; [done|]. by constructor. }
  assert (HR : ∀ kt, kt ∈ ks1 ++ ks2 → ∃ par, repr pgs par kt.2).
  { intros kt. rewrite Hks, elem_of_app. rewrite Forall_forall in HlK. rewrite Forall_forall in HrK.
    intros [?|?]; eauto. }
  assert (Hin : ∀ kt q, kt ∈ ks1 ++ ks2 → q ∈ pids kt.2 → q ∈ kpids (ks1 ++ ks2)).
  { intros kt q Hkt Hq. apply kpids_elem. eauto. }
  assert (Hroot : ∀ kt, kt ∈ ks1 ++ ks2 → root kt.2 ≠ p).
  { intros kt Hkt E. apply Hpk'. rewrite <- E. eapply Hin; [done | apply root_in_pids]. }
  assert (Hrepr : ∀ q ks, ks ⊆ ks1 ++ ks2 →
    (∀ kt n, kt ∈ ks → <[p := InternalNode (ctx_par ctx) (kitems (L ++ M ++ R))]> pgs !! root kt.2 = Some n →
       pgs' !! root kt.2 = Some (set_parent n q)) → Forall (λ kt, repr pgs' q kt.2) ks).
  { intros q ks Hsub Hkid. rewrite Forall_forall. intros kt Hkt. destruct (HR kt (Hsub _ Hkt)) as [par Hrk].
    apply (repr_reparent pgs pgs' par); try done.
    - eapply kpids_NoDup_elem; [exact Hndk | by apply Hsub].
    - intros n Hn. apply Hkid; [done|]. rewrite lookup_insert_ne; [done|]. by apply not_eq_sym, Hroot, Hsub.
    - intros x Hx Hxr. pose proof (Hin kt x (Hsub _ Hkt) Hx) as Hxk. rewrite Ho.
      + rewrite lookup_insert_ne; [done|]. by intros ->.
      + by intros ->.
      + by intros ->.
      + intros kt' Hkt' E. rewrite E in Hx, Hxr. assert (kt' = kt) as ->; [|done].
        eapply kpids_unique; [exact Hndk|done|by apply Hsub|apply root_in_pids|done]. }
  assert (Hother : ∀ q, q ≠ p → q ∉ pl :: pr :: kpids (ks1 ++ ks2) → pgs' !! q = pgs !! q).
  { intros q Hqp Hq. rewrite !not_elem_of_cons in Hq. destruct Hq as (? & ? & Hq). rewrite Ho; try done.
    - by rewrite lookup_insert_ne.
    - intros kt Hkt ->. apply Hq. eapply Hin; [done | apply root_in_pids]. }
  assert (Hpp : pgs' !! p = Some (InternalNode (ctx_par ctx) (kitems (L ++ M ++ R)))).
  { rewrite Ho; [by rewrite lookup_insert_eq|done|done|]. intros kt Hkt E. by apply (Hroot kt). }
  assert (Hnext : ∀ q, next_of pgs' q = next_of pgs q).
  { intros q. destruct (decide (q = p)) as [->|]; [unfold next_of; by rewrite Hpp, Hp|].
    destruct (decide (q = pl)) as [->|]; [unfold next_of; by rewrite Hpl, Hl|].
    destruct (decide (q = pr)) as [->|]; [unfold next_of; by rewrite Hpr, Hr|].
    destruct (decide (q ∈ kroots (ks1 ++ ks2))) as [Hq|Hq].
    - apply kroots_elem in Hq as (kt & Hkt & ->). destruct (HR _ Hkt) as [par Hrk].
      destruct (repr_root _ _ _ Hrk) as (nd & Hn & _).
      assert (Hn' : <[p := InternalNode (ctx_par ctx) (kitems (L ++ M ++ R))]> pgs !! root kt.2 = Some nd).
      { rewrite lookup_insert_ne; [done|]. by apply not_eq_sym, Hroot. }
      apply elem_of_app in Hkt as [Hkt|Hkt]; eapply repr_next_of; exists nd; eauto.
    - unfold next_of. rewrite Ho; try done; [by rewrite lookup_insert_ne|].
      intros kt Hkt ->. by apply Hq, kroots_in. }
  assert (HkM : tail (kmarks (L ++ M ++ R)) = tail (kmarks (L ++ (kl, TNode pl ksl) :: (k, TNode pr ((k, c0) :: ksr)) :: R))).
  { assert (Hm : kmarks M = kmarks [(kl, TNode pl ksl); (k, TNode pr ((k, c0) :: ksr))]).
    { unfold M. rewrite node_pair_marks by done. rewrite Hks, kmarks_cons. f_equal.
      cbn [kmarks map concat]. rewrite app_nil_r. by apply eq_sym, marks_split. }
    change ((kl, TNode pl ksl) :: ?x :: R) with ([(kl, TNode pl ksl); x] ++ R).
    by rewrite !kmarks_app, Hm. }
  assert (Hlv : kleaves M = leaves (TNode pl ksl) ++ leaves (TNode pr ((k, c0) :: ksr))).
  { change (leaves (TNode ?p ?l)) with (kleaves l). rewrite <- kleaves_app, <- Hks, kleaves_app.
    unfold M, node_pair. rewrite kleaves_cons. destruct ks2 as [|[k' t'] ks2]; [done|].
    rewrite kleaves_cons. cbn [kleaves map concat]. by rewrite app_nil_r. }
  pose proof (tm_chain _ _ _ _ _ HT) as Hch. pose proof (tm_sorted _ _ _ _ _ HT) as Hs. pose proof (tm_valid _ _ _ _ _ HT) as Hv.
  rewrite leaves_plug in Hch. rewrite marks_plug, marks_node in Hs, Hv.
  eapply (replace_kids pgs pgs' e _ ctx p L kl (TNode pl ksl) k _ R M (TNode pl ks1)); try done.
  - unfold M, node_pair. apply Forall_cons. split.
    + apply repr_node. split; [done|]. apply Hrepr; [apply list_subseteq_app_l; done|done].
    + destruct ks2 as [|[k' t'] ks2]; [constructor|]. apply Forall_singleton. apply repr_node.
      split; [done|]. apply Hrepr; [apply list_subseteq_app_r; done|done].
  - rewrite Hpk. unfold M, node_pair. rewrite kpids_cons, kpids_app.
    change (pids (TNode ?p ?l)) with (p :: kpids l). destruct ks2 as [|[k' t'] ks2].
    + cbn [kpids map concat]. solve_Permutation.
    + rewrite kpids_cons. change (pids (TNode ?p ?l)) with (p :: kpids l). cbn [kpids map concat]. solve_Permutation.
  - intros q Hqp Hq. apply Hother; [done|]. by rewrite <- Hpk.
  - change (leaves (TNode p ?l)) with (kleaves l) in Hch. rewrite kleaves_app, !kleaves_cons in Hch.
    rewrite !kleaves_app, Hlv. rewrite <- !app_assoc in *. eapply chain_frame; [|exact Hch]. auto.
  - by rewrite HkM.
  - by rewrite HkM.
  - intros h. destruct h as [|h]; [done|]. rewrite !bal_node. intros Hb1 Hb2.
    assert (Hb : Forall (λ kt, bal h kt.2) (ks1 ++ ks2)) by (rewrite Hks; by apply Forall_app).
    apply Forall_app in Hb as [Hb3 Hb4]. unfold M, node_pair. apply Forall_cons. split; [by apply bal_node|].
    destruct ks2 as [|[k' t'] ks2]; [constructor|]. apply Forall_singleton. by apply bal_node.
  - intros _ _ _. apply Forall_app in HkA as [HkA1 HkA2].
    assert (HkT1 : Forall (λ kt, left_keys kt.1 kt.2) (tail ks1) ∧ Forall (λ kt, left_keys kt.1 kt.2) ks2).
    { destruct ks1 as [|kt ks1]; [done|]. by apply Forall_app in HkT. }
    destruct HkT1 as [HkT1 HkT2]. unfold M, node_pair. split.
    + apply Forall_cons. split; [by apply keys_ok_node|]. destruct ks2 as [|[k' t'] ks2]; [constructor|].
      apply Forall_singleton. apply keys_ok_node. split; [done|]. by apply Forall_cons in HkT2 as [_ ?].
    + destruct ks2 as [|[k' t'] ks2]; [constructor|]. apply Forall_singleton.
      apply Forall_cons in HkT2 as [? _]. done.
  - intros kk. destruct ksl as [|[k1 c1] ksl]; [done|]. destruct ks1 as [|[k2 c2] ks1]; [done|].
    simpl in Hks. by injection Hks as -> -> _.
Qed.

(** The items of two sibling leaves distributed anew. *)
Definition leaf_pair (kl : Key A) (pl : Z) (l1 : list (Key A * RID)) (pr : Z) (l2 : list (Key A * RID)) :=
  (kl, TLeaf pl l1) :: match l2 with [] => [] | i :: _ => [(i.1, TLeaf pr l2)] end.

Lemma leaf_pair_marks kl pl l1 pr l2 :
  kmarks (leaf_pair kl pl l1 pr l2) =
  MSep kl :: (MItem <$> l1) ++ match l2 with [] => [] | i :: _ => MSep i.1 :: (MItem <$> l2) end.
Proof.
  unfold leaf_pair. rewrite kmarks_cons. cbn [marks]. destruct l2 as [|i l2]; [done|].
  rewrite kmarks_cons. cbn [marks kmarks map concat]. by rewrite app_nil_r.
Qed.

(** The separator between two leaves moves with the items. *)
Lemma leaf_pair_sorted X kl pl ll k lr pr l1 l2 Y :
  msorted cmp (X ++ (MItem <$> ll) ++ MSep k :: (MItem <$> lr) ++ Y) →
  mvalid ok (X ++ (MItem <$> ll) ++ MSep k :: (MItem <$> lr) ++ Y) →
  l1 ++ l2 = ll ++ lr → l1 ≠ [] →
  msorted cmp (X ++ tail (kmarks (leaf_pair kl pl l1 pr l2)) ++ Y) ∧
  mvalid ok (X ++ tail (kmarks (leaf_pair kl pl l1 pr l2)) ++ Y).
Proof using Type*.
  intros Hs Hv Hl Hne. rewrite leaf_pair_marks. cbn [tail].
  assert (Hsub : X ++ (MItem <$> l1) ++ (MItem <$> l2) ++ Y `sublist_of`
                 X ++ (MItem <$> ll) ++ MSep k :: (MItem <$> lr) ++ Y).
  { rewrite (app_assoc (MItem <$> l1)), <- fmap_app, Hl, fmap_app, <- app_assoc.
    apply sublist_app; [done|]. apply sublist_app; [done|]. by apply sublist_cons. }
  assert (Hs' : msorted cmp (X ++ (MItem <$> l1) ++ (MItem <$> l2) ++ Y)).
  { by eapply StronglySorted_sublist. }
  assert (Hv' : mvalid ok (X ++ (MItem <$> l1) ++ (MItem <$> l2) ++ Y)).
  { unfold mvalid in *. rewrite Forall_forall in Hv. rewrite Forall_forall. intros x Hx. apply Hv.
    by eapply elem_of_sublist. }
  destruct l2 as [|i l2]; [by rewrite app_nil_r|].
  destruct (exists_last Hne) as (l1' & x & ->). rewrite fmap_app in *. simpl in *.
  rewrite <- !app_assoc in *. simpl in *. rewrite app_assoc in Hs', Hv'. rewrite app_assoc.
  by apply msorted_separate.
Qed.

Lemma chain_drop pgs pgs' X p q Y :
  chain pgs (X ++ p :: q :: Y) → next_of pgs' p = next_of pgs q →
  (∀ x, x ∈ X ++ Y → next_of pgs' x = next_of pgs x) → chain pgs' (X ++ p :: Y).
Proof.
  intros Hch Hp Ho. induction X as [|x X IH]; simpl in *.
  - destruct Hch as [_ [Hq Hch]]. split; [congruence|]. by eapply chain_frame.
  - destruct Hch as [Hx Hch]. split.
    + rewrite Ho, Hx by apply list_elem_of_here. by destruct X.
    + apply IH; [done|]. intros y Hy. apply Ho. by apply list_elem_of_further.
Qed.

Lemma repartition_leaves pgs pgs' e ctx p L kl pl ll k pr lr R l1 l2 nxl nxr :
  tree_mid pgs e (plug ctx (TNode p (L ++ (kl, TLeaf pl ll) :: (k, TLeaf pr lr) :: R))) →
  pgs !! pl = Some (LeafNode p nxl ll) → pgs !! pr = Some (LeafNode p nxr lr) →
  l1 ++ l2 = ll ++ lr → l1 ≠ [] →
  pgs' !! p = Some (InternalNode (ctx_par ctx) (kitems (L ++ leaf_pair kl pl l1 pr l2 ++ R))) →
  pgs' !! pl = Some (LeafNode p (match l2 with [] => nxr | _ => nxl end) l1) →
  pgs' !! pr = Some (LeafNode p nxr l2) →
  (∀ q, q ≠ p → q ≠ pl → q ≠ pr → pgs' !! q = pgs !! q) → dom pgs' = dom pgs →
  tree_mid pgs' (mkEnv (e_hp e) (e_fh e) (e_bp e) (e_disp e ++ match l2 with [] => [pr] | _ => [] end))
    (plug ctx (TNode p (L ++ leaf_pair kl pl l1 pr l2 ++ R))).
Proof using Type*.
  intros HT Hpl Hpr Hl Hne Hp' Hpl' Hpr' Ho Hdom. set (M := leaf_pair kl pl l1 pr l2) in *.
  pose proof (siblings_of _ _ _ _ _ _ _ _ _ _ HT) as [Hp _ _ Hnd Hpos]. cbn [pids app] in Hnd.
  rewrite !NoDup_cons, !not_elem_of_cons in Hnd. destruct Hnd as ((Hppl & Hppr & _) & (Hplr & _) & _).
  pose proof (tm_chain _ _ _ _ _ HT) as Hch. pose proof (tm_sorted _ _ _ _ _ HT) as Hs. pose proof (tm_valid _ _ _ _ _ HT) as Hv.
  rewrite leaves_plug in Hch. rewrite marks_plug, marks_node, (child_marks p), kmarks_cons in Hs, Hv. cbn [marks] in Hs, Hv.
  set (X := cpre ctx ++ fpre (mkFr p L kl ((k, TLeaf pr lr) :: R))).
  destruct (leaf_pair_sorted X kl pl ll k lr pr l1 l2 (kmarks R ++ cpost ctx)) as [Hs' Hv']; [..|done|done|].
  { unfold X. rewrite <- !app_assoc in *. simpl in Hs. rewrite <- !app_assoc in Hs. exact Hs. }
  { unfold X. rewrite <- !app_assoc in *. simpl in Hv. rewrite <- !app_assoc in Hv. exact Hv. }
  assert (HM : cpre ctx ++ tail (kmarks (L ++ M ++ R)) ++ cpost ctx =
               X ++ tail (kmarks M) ++ kmarks R ++ cpost ctx).
  { unfold M, leaf_pair at 1. cbn [app]. rewrite (child_marks p). unfold X. rewrite kmarks_app, <- !app_assoc.
    unfold leaf_pair. rewrite kmarks_cons. cbn [tail marks]. rewrite <- !app_assoc. done. }
  change (leaves (TNode p ?l)) with (kleaves l) in Hch. rewrite kleaves_app, !kleaves_cons in Hch.
  cbn [leaves] in Hch.
  eapply (replace_kids pgs pgs' e _ ctx p L kl (TLeaf pl ll) k (TLeaf pr lr) R M (TLeaf pl l1)); try done.
  - unfold M, leaf_pair. apply Forall_cons. split; [by eexists|].
    destruct l2 as [|i l2]; [constructor|]. apply Forall_singleton. by eexists.
  - unfold M, leaf_pair. rewrite kpids_cons. destruct l2 as [|i l2]; [done|]. rewrite kpids_cons. done.
  - intros q Hq Hq'. cbn [pids app] in Hq'. rewrite !not_elem_of_cons in Hq'. apply Ho; tauto.
  - rewrite !kleaves_app. unfold M, leaf_pair. rewrite kleaves_cons. cbn [leaves].
    rewrite <- !app_assoc in Hch. cbn [app] in Hch. rewrite <- !app_assoc.
    pose proof (tm_nodup _ _ _ _ _ HT) as (Hndp & _)%NoDup_app. rewrite pids_plug in Hndp.
    change (pids (TNode p ?l)) with (p :: kpids l) in Hndp. rewrite kpids_app, !kpids_cons in Hndp. cbn [pids] in Hndp.
    assert (Hnl : ∀ q, q ∈ (clpre ctx ++ kleaves L) ++ kleaves R ++ clpost ctx → q ≠ p ∧ q ≠ pl ∧ q ≠ pr).
    { intros q Hq. assert (Hq' : q ∈ kpids L ++ kpids R ++ cpids ctx).
      { rewrite !elem_of_app in *. destruct Hq as [[Hq|Hq]|[Hq|Hq]];
          eauto using clpre_pids, clpost_pids, kleaves_pids. }
      assert (Heq : (p :: kpids L ++ [pl] ++ [pr] ++ kpids R) ++ cpids ctx ≡ₚ
                    p :: pl :: pr :: kpids L ++ kpids R ++ cpids ctx) by solve_Permutation.
      rewrite Heq in Hndp. rewrite !NoDup_cons, !not_elem_of_cons in Hndp.
      destruct Hndp as ((_ & _ & H1) & (_ & H2) & H3 & _). split_and!; intros ->; done. }
    assert (Hkeep : ∀ q, q ∈ (clpre ctx ++ kleaves L) ++ kleaves R ++ clpost ctx → next_of pgs' q = next_of pgs q).
    { intros q Hq. destruct (Hnl q Hq) as (? & ? & ?). unfold next_of. by rewrite Ho. }
    rewrite app_assoc in Hch. rewrite app_assoc. destruct l2 as [|i l2].
    + cbn [app kleaves map concat]. eapply chain_drop; [exact Hch| |exact Hkeep].
      unfold next_of. by rewrite Hpl', Hpr.
    + rewrite kleaves_cons. cbn [leaves kleaves map concat app]. eapply chain_frame; [|exact Hch].
      intros q. rewrite elem_of_app, !elem_of_cons. intros [Hq|[->|[->|Hq]]].
      * apply Hkeep. apply elem_of_app. by left.
      * unfold next_of. by rewrite Hpl', Hpl.
      * unfold next_of. by rewrite Hpr', Hpr.
      * apply Hkeep. apply elem_of_app. by right.
  - by rewrite HM.
  - by rewrite HM.
  - intros [|h]; [|done]. intros _ _. unfold M, leaf_pair. apply Forall_cons. split; [done|].
    destruct l2; [constructor|]. by apply Forall_singleton.
  - intros _ _ _. unfold M, leaf_pair. split.
    + apply Forall_cons. split; [done|]. destruct l2; [constructor|]. by apply Forall_singleton.
    + destruct l2; [constructor|]. by apply Forall_singleton.
Qed.

Lemma moved_split pgs (pgs1 : Pages) pl pr p ks1 ks2 q moved :
  pgs1 !! pl = Some (InternalNode p (kitems ks1)) → pgs1 !! pr = Some (InternalNode p (kitems ks2)) →
  (∀ x, x ≠ pl → x ≠ pr →
     pgs1 !! x = if decide (x ∈ moved) then (λ n, set_parent n q) <$> pgs !! x else pgs !! x) →
  pl ∉ kroots (ks1 ++ ks2) → pr ∉ kroots (ks1 ++ ks2) → moved ⊆ kroots (ks1 ++ ks2) →
  (∀ kt, kt ∈ ks1 → if decide (root kt.2 ∈ moved) then q = pl
                    else ∃ n, pgs !! root kt.2 = Some n ∧ parent_page_num n = pl) →
  (∀ kt, kt ∈ ks2 → if decide (root kt.2 ∈ moved) then q = pr
                    else ∃ n, pgs !! root kt.2 = Some n ∧ parent_page_num n = pr) →
  parent_split pgs pgs1 pl pr p ks1 ks2.
Proof.
  intros Hl Hr Ho Hpl Hpr Hm H1 H2. rewrite kroots_app, elem_of_app in Hpl, Hpr.
  constructor; try done.
  - intros kt n Hkt Hn. specialize (H1 kt Hkt). pose proof (kroots_in _ _ Hkt).
    rewrite Ho by (intros E; rewrite E in *; tauto). case_decide; [by rewrite Hn, H1|].
    destruct H1 as (n' & Hn' & <-). rewrite Hn. rewrite Hn in Hn'. injection Hn' as <-. by rewrite set_parent_same.
  - intros kt n Hkt Hn. specialize (H2 kt Hkt). pose proof (kroots_in _ _ Hkt).
    rewrite Ho by (intros E; rewrite E in *; tauto). case_decide; [by rewrite Hn, H2|].
    destruct H2 as (n' & Hn' & <-). rewrite Hn. rewrite Hn in Hn'. injection Hn' as <-. by rewrite set_parent_same.
  - intros x Hx1 Hx2 Hx3. rewrite Ho by done. rewrite decide_False; [done|].
    intros (kt & Hkt & ->)%Hm%kroots_elem. by apply (Hx3 kt).
Qed.

(** Two sibling nodes and their children in the pages. *)
Record node_siblings pgs p pl ksl pr ksr : Prop := {
  ns_left : pgs !! pl = Some (InternalNode p (kitems ksl));
  ns_right : pgs !! pr = Some (InternalNode p (kitems ksr));
  ns_pl : p ≠ pl; ns_pr : p ≠ pr; ns_lr : pl ≠ pr;
  ns_p : p ∉ kroots (ksl ++ ksr); ns_l : pl ∉ kroots (ksl ++ ksr); ns_r : pr ∉ kroots (ksl ++ ksr);
  ns_nodup : NoDup (kroots (ksl ++ ksr));
  ns_lkids : ∀ kt, kt ∈ ksl → ∃ n, pgs !! root kt.2 = Some n ∧ parent_page_num n = pl;
  ns_rkids : ∀ kt, kt ∈ ksr → ∃ n, pgs !! root kt.2 = Some n ∧ parent_page_num n = pr;
}.

Lemma node_siblings_of pgs e ctx p L kl pl ksl k pr ksr R :
  tree_mid pgs e (plug ctx (TNode p (L ++ (kl, TNode pl ksl) :: (k, TNode pr ksr) :: R))) →
  node_siblings pgs p pl ksl pr ksr.
Proof.
  intros HT. pose proof (siblings_of _ _ _ _ _ _ _ _ _ _ HT)
    as [Hp [Hl HlK]%repr_node [Hr HrK]%repr_node Hnd _].
  change (pids (TNode ?p ?l)) with (p :: kpids l) in Hnd.
  assert (Hnd' : NoDup (p :: pl :: pr :: kpids (ksl ++ ksr))).
  { rewrite kpids_app. assert (p :: (pl :: kpids ksl) ++ pr :: kpids ksr ≡ₚ
      p :: pl :: pr :: kpids ksl ++ kpids ksr) as <- by solve_Permutation. done. }
  assert (Hnd2 : NoDup (p :: pl :: pr :: kroots (ksl ++ ksr))).
  { eapply sublist_NoDup; [exact Hnd'|]. do 3 constructor. apply kroots_sublist. }
  rewrite !NoDup_cons, !not_elem_of_cons in Hnd2. destruct Hnd2 as ((?&?&?) & (?&?) & ? & ?).
  rewrite Forall_forall in HlK. rewrite Forall_forall in HrK.
  constructor; try done; intros kt Hkt; eapply repr_root; auto.
Qed.

Lemma node_kid_present pgs p pl ksl pr ksr c :
  node_siblings pgs p pl ksl pr ksr → c ∈ kroots (ksl ++ ksr) → is_Some (pgs !! c).
Proof.
  intros [_ _ _ _ _ _ _ _ _ Hl Hr] (kt & [Hkt|Hkt]%elem_of_app & ->)%kroots_elem.
  - destruct (Hl kt Hkt) as (n & Hn & _). eauto.
  - destruct (Hr kt Hkt) as (n & Hn & _). eauto.
Qed.

(** *** Coalescing *)
Definition coalesced e (pr : Z) : env (B := B) := mkEnv (e_hp e) (e_fh e) (e_bp e) (e_disp e ++ [pr]).

(** The roles of the node and its neighbor. *)
Definition roles (me neighbor idx pl pr : Z) L : Prop :=
  (idx = 0 ∧ L = [] ∧ me = pl ∧ neighbor = pr) ∨
  (idx ≠ 0 ∧ idx = Z.of_nat (length L) + 1 ∧ neighbor = pl ∧ me = pr).

Lemma runs_coalesce_roles rec HT pgs e me neighbor idx pl pr p L y pgs' e' :
  roles me neighbor idx pl pr L →
  runs (internal_remove p (Z.of_nat (length L) + 1);;
        ht_move_to HT pr pl;;
        ln ← get_node pl;
        (if is_leaf ln then
           '(_, nx, _) ← get_leaf pr;
           ignore (leaf_set_next_page pl nx)
         else mret tt);;
        dispose_page pr;;
        rec p) pgs e y pgs' e' →
  runs (coalesce rec HT neighbor me p idx) pgs e y pgs' e'.
Proof.
  intros [(-> & -> & -> & ->)|(Hne & -> & -> & ->)] Hrun; unfold coalesce.
  - exact Hrun.
  - rewrite (proj2 (Z.eqb_neq _ _)) by done. exact Hrun.
Qed.

Lemma kitems_pair L kl tl k tr R :
  kitems (L ++ (kl, tl) :: (k, tr) :: R) = kitems (L ++ [(kl, tl)]) ++ (k, root tr) :: kitems R.
Proof. by rewrite !kitems_app, <- app_assoc. Qed.

Lemma kitems_snoc_length L x : Z.of_nat (length (kitems (L ++ [x]))) = Z.of_nat (length L) + 1.
Proof. rewrite kitems_length, length_app. simpl. lia. Qed.

Lemma kitems_same L kl t t' R :
  root t = root t' → kitems (L ++ (kl, t) :: R) = kitems (L ++ [(kl, t')]) ++ kitems R.
Proof. intros Hr. rewrite !kitems_app, <- app_assoc. simpl. by rewrite Hr. Qed.

Lemma runs_coalesce_leaf pgs e ctx p L kl pl ll k pr lr R me neighbor idx :
  hdr_wf (e_fh e) →
  tree_mid pgs e (plug ctx (TNode p (L ++ (kl, TLeaf pl ll) :: (k, TLeaf pr lr) :: R))) →
  ll ++ lr ≠ [] → Z.of_nat (length (ll ++ lr)) ≤ leaf_max_size (e_fh e) →
  roles me neighbor idx pl pr L →
  ∃ pgs1,
    tree_mid pgs1 (coalesced e pr) (plug ctx (TNode p (L ++ (kl, TLeaf pl (ll ++ lr)) :: R))) ∧
    dom pgs1 = dom pgs ∧
    ∀ rec pgs' e', runs (rec p) pgs1 (coalesced e pr) tt pgs' e' →
      runs (coalesce rec Leaf neighbor me p idx) pgs e tt pgs' e'.
Proof using Type*.
  intros Hh HT Hne Hfit Hroles.
  pose proof (siblings_of _ _ _ _ _ _ _ _ _ _ HT) as [Hp [nxl Hl] [nxr Hr] Hnd Hpos].
  cbn [pids app] in Hnd. rewrite !NoDup_cons, !not_elem_of_cons in Hnd.
  destruct Hnd as ((Hppl & Hppr & _) & (Hplr & _) & _). rewrite kitems_pair in Hp.
  set (pgs1 := <[pl := LeafNode p nxr (ll ++ lr)]> (<[pr := LeafNode p nxr []]>
     (<[p := InternalNode (ctx_par ctx) (kitems (L ++ (kl, TLeaf pl (ll ++ lr)) :: R))]> pgs))).
  assert (Hdom : dom pgs1 = dom pgs).
  { unfold pgs1. rewrite !dom_insert_lookup_L; [done|..]; rewrite ?lookup_insert_ne by done; eauto. }
  exists pgs1. split; [|split; [done|]].
  - pose proof (repartition_leaves pgs pgs1 e ctx p L kl pl ll k pr lr R (ll ++ lr) [] nxl nxr HT) as Hrep.
    apply Hrep; try done.
    + by rewrite app_nil_r.
    + unfold pgs1. rewrite !lookup_insert_ne by done. by rewrite lookup_insert_eq.
    + unfold pgs1. by rewrite lookup_insert_eq.
    + unfold pgs1. rewrite lookup_insert_ne by done. by rewrite lookup_insert_eq.
    + intros q ???. unfold pgs1. by rewrite !lookup_insert_ne.
  - intros rec pgs' e' Hrec. apply (runs_coalesce_roles _ _ _ _ _ _ _ pl pr p L); [done|].
    eapply runs_bind; [eapply runs_internal_remove; [exact Hp|by rewrite kitems_snoc_length]|].
    eapply runs_bind.
    { apply (runs_leaf_move_to pr pl p nxr lr p nxl ll); [done|by rewrite lookup_insert_ne..|].
      by apply hdr_leaf_fits. }
    eapply runs_bind.
    { apply runs_get_node. rewrite lookup_insert_ne by done. apply lookup_insert_eq. }
    cbn [is_leaf]. eapply runs_bind.
    { eapply runs_bind; [apply runs_get_leaf, lookup_insert_eq|]. cbv beta iota.
      apply runs_ignore, (runs_leaf_set_next pl p nxr (ll ++ lr)).
      rewrite lookup_insert_ne by done. apply lookup_insert_eq. }
    eapply runs_bind; [apply runs_dispose_page|].
    match goal with |- runs _ ?m _ _ _ _ => assert (m = pgs1) as -> end; [|exact Hrec].
    unfold pgs1. rewrite (kitems_same L kl (TLeaf pl (ll ++ lr)) (TLeaf pl ll) R) by done.
    rewrite (insert_insert_ne (<[p := _]> pgs) pr pl), insert_insert_eq by done. done.
Qed.

Lemma kroots_kitems (ks : list (Key A * tree A)) : (kitems ks).*2 = kroots ks.
Proof. done. Qed.

(** The pages after a move of children, from the move and the update of the parent. *)
Lemma moved_tree pgs (pgs1 : Pages) e ctx p L kl pl ksl k pr ksr R ks1 ks2 q moved :
  tree_mid pgs e (plug ctx (TNode p (L ++ (kl, TNode pl ksl) :: (k, TNode pr ksr) :: R))) →
  ksl ≠ [] → ksr ≠ [] → ks1 ≠ [] → ks1 ++ ks2 = ksl ++ ksr →
  pgs1 !! p = Some (InternalNode (ctx_par ctx) (kitems (L ++ node_pair kl pl ks1 pr ks2 ++ R))) →
  pgs1 !! pl = Some (InternalNode p (kitems ks1)) → pgs1 !! pr = Some (InternalNode p (kitems ks2)) →
  (∀ x, x ≠ p → x ≠ pl → x ≠ pr →
     pgs1 !! x = if decide (x ∈ moved) then (λ n, set_parent n q) <$> pgs !! x else pgs !! x) →
  moved ⊆ kroots (ks1 ++ ks2) → dom pgs1 = dom pgs →
  (∀ kt, kt ∈ ks1 → if decide (root kt.2 ∈ moved) then q = pl else kt ∈ ksl) →
  (∀ kt, kt ∈ ks2 → if decide (root kt.2 ∈ moved) then q = pr else kt ∈ ksr) →
  tree_mid pgs1 (mkEnv (e_hp e) (e_fh e) (e_bp e) (e_disp e ++ match ks2 with [] => [pr] | _ => [] end))
    (plug ctx (TNode p (L ++ node_pair kl pl ks1 pr ks2 ++ R))).
Proof.
  intros HT Hnl Hnr Hn1 Hks Hp1 Hl1 Hr1 Ho Hm Hdom H1 H2.
  pose proof (node_siblings_of _ _ _ _ _ _ _ _ _ _ _ _ HT) as Hns.
  eapply repartition_nodes; try done. destruct Hns. rewrite <- Hks in *.
  apply moved_split with (q := q) (moved := moved); try done.
  - intros x Hx1 Hx2. destruct (decide (x = p)) as [->|Hx].
    + rewrite lookup_insert_eq, decide_False by auto. done.
    + rewrite lookup_insert_ne by done. by apply Ho.
  - intros kt Hkt. specialize (H1 kt Hkt). case_decide; [done|].
    rewrite lookup_insert_ne by (intros ->; apply ns_p0, kroots_in, elem_of_app; by left). auto.
  - intros kt Hkt. specialize (H2 kt Hkt). case_decide; [done|].
    rewrite lookup_insert_ne by (intros ->; apply ns_p0, kroots_in, elem_of_app; by right). auto.
Qed.

Lemma runs_coalesce_node pgs e ctx p L kl pl ksl k pr ksr R me neighbor idx :
  hdr_wf (e_fh e) →
  tree_mid pgs e (plug ctx (TNode p (L ++ (kl, TNode pl ksl) :: (k, TNode pr ksr) :: R))) →
  ksl ≠ [] → ksr ≠ [] → Z.of_nat (length (ksl ++ ksr)) ≤ internal_max_size (e_fh e) →
  roles me neighbor idx pl pr L →
  ∃ pgs1,
    tree_mid pgs1 (coalesced e pr) (plug ctx (TNode p (L ++ (kl, TNode pl (ksl ++ ksr)) :: R))) ∧
    dom pgs1 = dom pgs ∧
    ∀ rec pgs' e', runs (rec p) pgs1 (coalesced e pr) tt pgs' e' →
      runs (coalesce rec (InternalIndexNodeHandler (A := A) (B := B)) neighbor me p idx) pgs e tt pgs' e'.
Proof using Type*.
  intros Hh HT Hnl Hnr Hfit Hroles.
  pose proof (siblings_of _ _ _ _ _ _ _ _ _ _ HT) as [Hp _ _ _ _]. rewrite kitems_pair in Hp.
  pose proof (node_siblings_of _ _ _ _ _ _ _ _ _ _ _ _ HT) as Hns. pose proof Hns as [].
  rewrite kroots_app, not_elem_of_app in ns_p0, ns_l0, ns_r0.
  set (pgs0 := <[p := InternalNode (ctx_par ctx) (kitems (L ++ (kl, TNode pl (ksl ++ ksr)) :: R))]> pgs).
  set (pgs1 := <[pr := InternalNode p []]> (adopt_all pl (kroots ksr)
     (<[pl := InternalNode p (kitems ksl ++ kitems ksr)]> pgs0))).
  assert (Hpresent : ∀ c, c ∈ (kitems ksr).*2 → is_Some (pgs0 !! c)).
  { intros c Hc. unfold pgs0. rewrite lookup_insert_ne by (intros ->; tauto).
    eapply node_kid_present; [exact Hns|]. rewrite kroots_app. apply elem_of_app. by right. }
  assert (Hdom : dom pgs1 = dom pgs).
  { unfold pgs1. rewrite dom_insert_L, dom_adopt_all, !dom_insert_L.
    assert (p ∈ dom pgs ∧ pl ∈ dom pgs ∧ pr ∈ dom pgs) as (?&?&?) by (rewrite !elem_of_dom; eauto).
    clear -H0 H1 H2. set_solver. }
  exists pgs1. split; [|split; [done|]].
  - pose proof (moved_tree pgs pgs1 e ctx p L kl pl ksl k pr ksr R (ksl ++ ksr) [] pl (kroots ksr) HT) as Hrep.
    apply Hrep; try done.
    + by destruct ksl.
    + by rewrite app_nil_r.
    + unfold pgs1. rewrite lookup_insert_ne by done. rewrite adopt_all_lookup, decide_False by tauto.
      rewrite lookup_insert_ne by done. unfold pgs0. by rewrite lookup_insert_eq.
    + unfold pgs1. rewrite lookup_insert_ne by done. rewrite adopt_all_lookup, decide_False by tauto.
      by rewrite lookup_insert_eq, kitems_app.
    + unfold pgs1. by rewrite lookup_insert_eq.
    + intros x Hx1 Hx2 Hx3. unfold pgs1. rewrite lookup_insert_ne, adopt_all_lookup by done.
      rewrite (lookup_insert_ne pgs0) by done. unfold pgs0. by rewrite (lookup_insert_ne pgs).
    + rewrite app_nil_r, kroots_app. apply list_subseteq_app_r. done.
    + intros kt [Hkt|Hkt]%elem_of_app; case_decide as Hd; try done. by destruct Hd; apply kroots_in.
    + by intros kt Hkt%not_elem_of_nil.
  - intros rec pgs' e' Hrec. apply (runs_coalesce_roles _ _ _ _ _ _ _ pl pr p L); [done|].
    eapply runs_bind; [eapply runs_internal_remove; [exact Hp|by rewrite kitems_snoc_length]|].
    rewrite <- (kitems_same L kl (TNode pl (ksl ++ ksr)) (TNode pl ksl) R) by done. fold pgs0.
    eapply runs_bind.
    { apply (runs_internal_move_to pr pl p (kitems ksr) p (kitems ksl)); try done.
      - unfold pgs0. by rewrite lookup_insert_ne.
      - unfold pgs0. by rewrite lookup_insert_ne.
      - rewrite <- kitems_app, kitems_length. by apply hdr_internal_fits.
      - rewrite kroots_kitems. tauto. }
    rewrite kroots_kitems. fold pgs1.
    eapply runs_bind.
    { apply runs_get_node. unfold pgs1. rewrite lookup_insert_ne by done.
      rewrite adopt_all_lookup, decide_False by tauto. apply lookup_insert_eq. }
    cbn [is_leaf]. eapply runs_bind; [apply runs_ret|].
    eapply runs_bind; [apply runs_dispose_page | exact Hrec].
Qed.

(** *** Redistribution *)
Lemma env_nil e : mkEnv (e_hp e) (e_fh e) (e_bp e) (e_disp e ++ []) = e.
Proof. rewrite app_nil_r. by destruct e. Qed.

(** From the right sibling to the end of the left one. *)
Lemma runs_redistribute_leaf_first pgs e ctx p kl pl ll k pr x y lr R :
  hdr_wf (e_fh e) →
  tree_mid pgs e (plug ctx (TNode p ((kl, TLeaf pl ll) :: (k, TLeaf pr (x :: y :: lr)) :: R))) →
  Z.of_nat (length ll) < leaf_max_size (e_fh e) →
  ∃ pgs1,
    tree_mid pgs1 e (plug ctx (TNode p (leaf_pair kl pl (ll ++ [x]) pr (y :: lr) ++ R))) ∧
    dom pgs1 = dom pgs ∧
    runs (redistribute Leaf pr pl p 0) pgs e tt pgs1 e.
Proof using Type*.
  intros Hh HT Hfit.
  pose proof (siblings_of _ _ _ _ [] _ _ _ _ _ HT) as [Hp [nxl Hl] [nxr Hr] Hnd Hpos].
  cbn [pids app] in Hnd. rewrite !NoDup_cons, !not_elem_of_cons in Hnd.
  destruct Hnd as ((Hppl & Hppr & _) & (Hplr & _) & _).
  set (pgs1 := <[p := InternalNode (ctx_par ctx) (kitems (leaf_pair kl pl (ll ++ [x]) pr (y :: lr) ++ R))]>
     (<[pr := LeafNode p nxr (y :: lr)]> (<[pl := LeafNode p nxl (ll ++ [x])]> pgs))).
  assert (Hdom : dom pgs1 = dom pgs).
  { unfold pgs1. rewrite !dom_insert_lookup_L; [done|..]; rewrite ?lookup_insert_ne by done; eauto. }
  exists pgs1. split; [|split; [done|]].
  - pose proof (repartition_leaves pgs pgs1 e ctx p [] kl pl ll k pr (x :: y :: lr) R (ll ++ [x]) (y :: lr) nxl nxr HT) as Hrep.
    cbn [app] in Hrep. rewrite env_nil in Hrep. apply Hrep; try done.
    + by rewrite <- app_assoc.
    + by destruct ll.
    + unfold pgs1. by rewrite lookup_insert_eq.
    + unfold pgs1. rewrite !lookup_insert_ne by done. by rewrite lookup_insert_eq.
    + unfold pgs1. rewrite lookup_insert_ne by done. by rewrite lookup_insert_eq.
    + intros q ???. unfold pgs1. by rewrite !lookup_insert_ne.
  - unfold redistribute. cbn [Z.eqb]. eapply runs_bind.
    { apply runs_ignore. apply (runs_leaf_move_first pr pl p nxr x (y :: lr) p nxl ll); try done.
      apply hdr_leaf_fits; [done|]. rewrite length_app. simpl. lia. }
    eapply runs_bind; [apply runs_get_node, lookup_insert_eq|].
    eapply runs_bind; [by apply (runs_of_option _ y.1)|].
    apply (runs_set_key_at p (ctx_par ctx) [(kl, pl)] k pr (kitems R)); [|done].
    by rewrite !lookup_insert_ne.
Qed.

(** From the end of the left sibling to the right one. *)
Lemma runs_redistribute_leaf_last pgs e ctx p L kl pl z ll x k pr lr R :
  hdr_wf (e_fh e) →
  tree_mid pgs e (plug ctx (TNode p (L ++ (kl, TLeaf pl (z :: ll ++ [x])) :: (k, TLeaf pr lr) :: R))) →
  Z.of_nat (length lr) < leaf_max_size (e_fh e) →
  ∃ pgs1,
    tree_mid pgs1 e (plug ctx (TNode p (L ++ leaf_pair kl pl (z :: ll) pr (x :: lr) ++ R))) ∧
    dom pgs1 = dom pgs ∧
    runs (redistribute Leaf pl pr p (Z.of_nat (length L) + 1)) pgs e tt pgs1 e.
Proof using Type*.
  intros Hh HT Hfit.
  pose proof (siblings_of _ _ _ _ _ _ _ _ _ _ HT) as [Hp [nxl Hl] [nxr Hr] Hnd Hpos].
  cbn [pids app] in Hnd. rewrite !NoDup_cons, !not_elem_of_cons in Hnd.
  destruct Hnd as ((Hppl & Hppr & _) & (Hplr & _) & _). rewrite kitems_pair in Hp.
  set (pgs1 := <[p := InternalNode (ctx_par ctx) (kitems (L ++ leaf_pair kl pl (z :: ll) pr (x :: lr) ++ R))]>
     (<[pl := LeafNode p nxl (z :: ll)]> (<[pr := LeafNode p nxr (x :: lr)]> pgs))).
  assert (Hdom : dom pgs1 = dom pgs).
  { unfold pgs1. rewrite !dom_insert_lookup_L; [done|..]; rewrite ?lookup_insert_ne by done; eauto. }
  exists pgs1. split; [|split; [done|]].
  - pose proof (repartition_leaves pgs pgs1 e ctx p L kl pl (z :: ll ++ [x]) k pr lr R (z :: ll) (x :: lr) nxl nxr HT) as Hrep.
    cbn [app] in Hrep. rewrite env_nil in Hrep. apply Hrep; try done.
    + by rewrite <- app_assoc.
    + unfold pgs1. by rewrite lookup_insert_eq.
    + unfold pgs1. rewrite !lookup_insert_ne by done. by rewrite lookup_insert_eq.
    + unfold pgs1. rewrite !lookup_insert_ne by done. by rewrite lookup_insert_eq.
    + intros q ???. unfold pgs1. by rewrite !lookup_insert_ne.
  - unfold redistribute. rewrite (proj2 (Z.eqb_neq _ _)) by lia. eapply runs_bind.
    { apply runs_ignore. apply (runs_leaf_move_last pl pr p nxl (z :: ll) x p nxr lr); try done.
      apply hdr_leaf_fits; [done|]. lia. }
    eapply runs_bind.
    { apply runs_get_node. rewrite lookup_insert_ne by done. apply lookup_insert_eq. }
    eapply runs_bind; [by apply (runs_of_option _ x.1)|].
    eapply runs_eq; [eapply (runs_set_key_at p (ctx_par ctx)); [|by rewrite kitems_snoc_length]| |done].
    { by rewrite !lookup_insert_ne. }
    unfold pgs1, leaf_pair. cbn [app].
    by rewrite (kitems_same L kl (TLeaf pl (z :: ll)) (TLeaf pl (z :: ll ++ [x]))).
Qed.

Lemma runs_redistribute_node_first pgs e ctx p kl pl ksl k pr kx tx ky ty ksr R :
  hdr_wf (e_fh e) →
  tree_mid pgs e (plug ctx (TNode p ((kl, TNode pl ksl) :: (k, TNode pr ((kx, tx) :: (ky, ty) :: ksr)) :: R))) →
  ksl ≠ [] → Z.of_nat (length ksl) < internal_max_size (e_fh e) →
  ∃ pgs1,
    tree_mid pgs1 e (plug ctx (TNode p (node_pair kl pl (ksl ++ [(kx, tx)]) pr ((ky, ty) :: ksr) ++ R))) ∧
    dom pgs1 = dom pgs ∧
    runs (redistribute (InternalIndexNodeHandler (A := A) (B := B)) pr pl p 0) pgs e tt pgs1 e.
Proof using Type*.
  intros Hh HT Hnl Hfit.
  pose proof (siblings_of _ _ _ _ [] _ _ _ _ _ HT) as [Hp _ _ _ _].
  pose proof (node_siblings_of _ _ _ _ [] _ _ _ _ _ _ _ HT) as Hns. pose proof Hns as [].
  rewrite kroots_app in ns_p0, ns_l0, ns_r0, ns_nodup0.
  change (kroots ((kx, tx) :: ?l)) with (root tx :: kroots l) in ns_p0, ns_l0, ns_r0, ns_nodup0.
  rewrite not_elem_of_app, not_elem_of_cons in ns_p0, ns_l0, ns_r0.
  destruct ns_p0 as (? & ? & ?), ns_l0 as (? & ? & ?), ns_r0 as (? & ? & ?).
  apply NoDup_app in ns_nodup0 as (_ & Hdl & [Hdr _]%NoDup_cons).
  set (pgs1 := <[p := InternalNode (ctx_par ctx) (kitems (node_pair kl pl (ksl ++ [(kx, tx)]) pr ((ky, ty) :: ksr) ++ R))]>
     (<[pr := InternalNode p (kitems ((ky, ty) :: ksr))]>
        (adopt_all pl [root tx] (<[pl := InternalNode p (kitems ksl ++ [(kx, root tx)])]> pgs)))).
  assert (Htx : is_Some (pgs !! root tx)).
  { destruct (ns_rkids0 (kx, tx)) as (n & Hn & _); [apply list_elem_of_here|]. eauto. }
  assert (Hdom : dom pgs1 = dom pgs).
  { unfold pgs1. rewrite !dom_insert_L, dom_adopt_all, dom_insert_L.
    assert (Hd : p ∈ dom pgs ∧ pl ∈ dom pgs ∧ pr ∈ dom pgs) by (rewrite !elem_of_dom; eauto).
    clear -Hd. set_solver. }
  exists pgs1. split; [|split; [done|]].
  - pose proof (moved_tree pgs pgs1 e ctx p [] kl pl ksl k pr ((kx, tx) :: (ky, ty) :: ksr) R
      (ksl ++ [(kx, tx)]) ((ky, ty) :: ksr) pl [root tx] HT) as Hrep.
    cbn [app] in Hrep. rewrite env_nil in Hrep. apply Hrep; try done.
    + by destruct ksl.
    + by rewrite <- app_assoc.
    + unfold pgs1. by rewrite lookup_insert_eq.
    + unfold pgs1. rewrite !lookup_insert_ne by done. rewrite adopt_all_lookup, decide_False.
      * by rewrite lookup_insert_eq, kitems_app.
      * by intros Hin%list_elem_of_singleton.
    + unfold pgs1. rewrite lookup_insert_ne by done. by rewrite lookup_insert_eq.
    + intros q ???. unfold pgs1. rewrite !lookup_insert_ne, adopt_all_lookup by done.
      by rewrite !lookup_insert_ne.
    + intros q Hq%list_elem_of_singleton. subst q. rewrite !kroots_app. apply elem_of_app. left.
      apply elem_of_app. right. apply list_elem_of_here.
    + intros kt [Hkt|Hkt%list_elem_of_singleton]%elem_of_app.
      * case_decide; done.
      * subst kt. rewrite decide_True; [done|]. by apply list_elem_of_singleton.
    + intros kt Hkt. rewrite decide_False; [by apply list_elem_of_further|].
      intros Hin%list_elem_of_singleton. apply Hdr. rewrite <- Hin. by apply kroots_in.
  - unfold redistribute. cbn [Z.eqb]. eapply runs_bind.
    { apply runs_ignore.
      apply (runs_internal_move_first pr pl p (kx, root tx) (kitems ((ky, ty) :: ksr)) p (kitems ksl)); try done.
      apply hdr_internal_fits; [done|]. rewrite length_app, kitems_length. simpl. lia. }
    eapply runs_bind; [apply runs_get_node, lookup_insert_eq|].
    eapply runs_bind; [by apply (runs_of_option _ ky)|].
    apply (runs_set_key_at p (ctx_par ctx) [(kl, pl)] k pr (kitems R)); [|done].
    rewrite lookup_insert_ne, adopt_all_lookup, decide_False by (done || by intros Hin%list_elem_of_singleton).
    by rewrite lookup_insert_ne.
Qed.

Lemma runs_redistribute_node_last pgs e ctx p L kl pl kz tz ksl kx tx k pr ksr R :
  hdr_wf (e_fh e) →
  tree_mid pgs e (plug ctx (TNode p (L ++ (kl, TNode pl ((kz, tz) :: ksl ++ [(kx, tx)])) :: (k, TNode pr ksr) :: R))) →
  ksr ≠ [] → Z.of_nat (length ksr) < internal_max_size (e_fh e) →
  ∃ pgs1,
    tree_mid pgs1 e (plug ctx (TNode p (L ++ node_pair kl pl ((kz, tz) :: ksl) pr ((kx, tx) :: ksr) ++ R))) ∧
    dom pgs1 = dom pgs ∧
    runs (redistribute (InternalIndexNodeHandler (A := A) (B := B)) pl pr p (Z.of_nat (length L) + 1)) pgs e tt pgs1 e.
Proof using Type*.
  intros Hh HT Hnr Hfit. set (ks1 := (kz, tz) :: ksl) in *.
  change ((kz, tz) :: ksl ++ [(kx, tx)]) with (ks1 ++ [(kx, tx)]) in HT.
  pose proof (siblings_of _ _ _ _ _ _ _ _ _ _ HT) as [Hp _ _ _ _]. rewrite kitems_pair in Hp.
  pose proof (node_siblings_of _ _ _ _ _ _ _ _ _ _ _ _ HT) as Hns. pose proof Hns as [].
  rewrite kroots_app, kroots_app in ns_p0, ns_l0, ns_r0, ns_nodup0.
  change (kroots [(kx, tx)]) with [root tx] in ns_p0, ns_l0, ns_r0, ns_nodup0.
  rewrite !not_elem_of_app, not_elem_of_cons in ns_p0, ns_l0, ns_r0.
  destruct ns_p0 as ((? & ? & _) & ?), ns_l0 as ((? & ? & _) & ?), ns_r0 as ((? & ? & _) & ?).
  apply NoDup_app in ns_nodup0 as ((_ & Hdl & _)%NoDup_app & Hdr & _).
  set (pgs1 := <[p := InternalNode (ctx_par ctx) (kitems (L ++ node_pair kl pl ks1 pr ((kx, tx) :: ksr) ++ R))]>
     (<[pl := InternalNode p (kitems ks1)]>
        (adopt_all pr [root tx] (<[pr := InternalNode p ((kx, root tx) :: kitems ksr)]> pgs)))).
  assert (Htx : is_Some (pgs !! root tx)).
  { destruct (ns_lkids0 (kx, tx)) as (n & Hn & _); [apply elem_of_app; right; by apply list_elem_of_singleton|]. eauto. }
  rewrite kitems_app in ns_left0.
  assert (Hdom : dom pgs1 = dom pgs).
  { unfold pgs1. rewrite !dom_insert_L, dom_adopt_all, dom_insert_L.
    assert (Hd : p ∈ dom pgs ∧ pl ∈ dom pgs ∧ pr ∈ dom pgs) by (rewrite !elem_of_dom; eauto).
    clear -Hd. set_solver. }
  exists pgs1. split; [|split; [done|]].
  - pose proof (moved_tree pgs pgs1 e ctx p L kl pl (ks1 ++ [(kx, tx)]) k pr ksr R
      ks1 ((kx, tx) :: ksr) pr [root tx] HT) as Hrep.
    rewrite env_nil in Hrep. apply Hrep; try done.
    + by rewrite <- app_assoc.
    + unfold pgs1. by rewrite lookup_insert_eq.
    + unfold pgs1. rewrite lookup_insert_ne by done. by rewrite lookup_insert_eq.
    + unfold pgs1. rewrite !lookup_insert_ne by done. rewrite adopt_all_lookup, decide_False.
      * by rewrite lookup_insert_eq.
      * by intros Hin%list_elem_of_singleton.
    + intros q ???. unfold pgs1. rewrite !lookup_insert_ne, adopt_all_lookup by done.
      by rewrite !lookup_insert_ne.
    + intros q Hq%list_elem_of_singleton. subst q. rewrite !kroots_app. apply elem_of_app. right.
      apply list_elem_of_here.
    + intros kt Hkt. rewrite decide_False; [apply elem_of_app; by left|].
      intros Hin%list_elem_of_singleton. apply (Hdl (root kt.2)); [by apply kroots_in|].
      by apply list_elem_of_singleton.
    + intros kt [->|Hkt]%elem_of_cons; [rewrite decide_True; [done|]; by apply list_elem_of_singleton|].
      case_decide; done.
  - unfold redistribute. rewrite (proj2 (Z.eqb_neq _ _)) by lia. eapply runs_bind.
    { apply runs_ignore.
      apply (runs_internal_move_last pl pr p (kitems ks1) (kx, root tx) p (kitems ksr)); try done.
      apply hdr_internal_fits; [done|]. rewrite kitems_length. lia. }
    eapply runs_bind.
    { apply runs_get_node. rewrite lookup_insert_ne, adopt_all_lookup, decide_False by (done || by intros Hin%list_elem_of_singleton).
      apply lookup_insert_eq. }
    eapply runs_bind; [by apply (runs_of_option _ kx)|].
    eapply runs_eq; [eapply (runs_set_key_at p (ctx_par ctx)); [|by rewrite kitems_snoc_length]| |done].
    { rewrite lookup_insert_ne, adopt_all_lookup, decide_False by (done || by intros Hin%list_elem_of_singleton).
      by rewrite lookup_insert_ne. }
    unfold pgs1, node_pair. cbn [app].
    by rewrite (kitems_same L kl (TNode pl ks1) (TNode pl (ks1 ++ [(kx, tx)]))).
Qed.
End rebalance.
