(* ===== verification/BplusDelete.v ===== *)
(** * Deletion of an entry

    Removal from a leaf and the repair of underfull nodes up to the root, put together into the refinement theorem of
    [delete_entry]. *)
From stdpp Require Import sorting.
From S2P Require Import Prelude Rc BplusKey PageAlloc LowerBound BplusTree BplusGhost BplusWp BplusFind BplusInsert BplusSplit BplusInv BplusExample BplusInsertEntry BplusRebalance.

Section delete.
Context {A B : Type} `{PageAllocator B} (key_comparator_ : KeyComparator A) (zero_key : Key A).
Context (ok : Key A → Prop) `{!TotalCompare (key_compare key_comparator_) ok}.
#[local] Abbreviation cmp := (key_compare key_comparator_).
#[local] Abbreviation Pages := (gmap Z (Node A)).
#[local] Abbreviation St := (State A B).
#[local] Abbreviation MM := (M St).
#[local] Abbreviation Leaf := (LeafIndexNodeHandler (A := A) (B := B)).
#[local] Abbreviation Internal := (InternalIndexNodeHandler (A := A) (B := B)).
#[local] Abbreviation tree_mid := (tree_mid key_comparator_ ok).
Implicit Types (pgs : Pages) (e : env (B := B)) (T t : tree A) (st : St).
Implicit Types (ctx : list (frame A)) (f : frame A) (key k : Key A) (kids L R : list (Key A * tree A)).

(** A key of the hole's subtree leads back to the hole. *)
Lemma hole_lookup f t x :
  msorted cmp (fpre f ++ marks t ++ kmarks (fr f)) → mvalid ok (fpre f ++ marks t ++ kmarks (fr f)) →
  x ∈ marks t →
  ∃ pos, internal_lookup cmp (kitems (fl f ++ (fk f, t) :: fr f)) (mkey x) =
         Some (Z.of_nat (length (fl f)), pos).
Proof using Type*.
  intros Hs Hv Hx.
  set (l1 := match fl f with [] => [] | _ :: L => kitems L ++ [(fk f, root t)] end).
  assert (Hk1 : l1.*1 = hole_keys f).
  { unfold l1, hole_keys. destruct (fl f) as [|[k0 t0] L]; [done|]. rewrite fmap_app.
    unfold kitems. by rewrite <- list_fmap_compose. }
  assert (Hlen : length l1 = length (fl f)).
  { unfold l1. destruct (fl f) as [|[k0 t0] L]; [done|]. rewrite length_app, kitems_length. simpl. lia. }
  assert (Hk2 : (kitems (fr f)).*1 = (fr f).*1) by (unfold kitems; by rewrite <- list_fmap_compose).
  assert (Hin1 : ∀ y, y ∈ hole_keys f → MSep y ∈ fpre f).
  { intros y Hy. eapply elem_of_sublist; [|apply fpre_seps_sublist]. by apply list_elem_of_fmap_2. }
  assert (Hin2 : ∀ y, y ∈ (fr f).*1 → MSep y ∈ kmarks (fr f)) by (intros y; apply (kmarks_sep_elem cmp ok)).
  unfold mvalid in Hv. rewrite Forall_forall in Hv.
  assert (Hokx : ok (mkey x)) by (apply Hv; set_solver).
  apply msorted_app in Hs as (Hc1 & Hs1 & (Hc2 & _ & Hs3)%msorted_app).
  assert (Hks : StronglySorted (lt_key cmp) (hole_keys f ++ (fr f).*1)).
  { apply StronglySorted_app. split_and!.
    - intros y z Hy Hz. apply (Hc1 (MSep y) (MSep z)); [by apply Hin1|]. apply elem_of_app. right. by apply Hin2.
    - apply msorted_seps. eapply StronglySorted_sublist; [apply fpre_seps_sublist | exact Hs1].
    - by apply (kmarks_keys_sorted cmp ok). }
  rewrite tail_items. fold l1.
  destruct (internal_lookup_spec cmp ok (hd (fk f, root t) (kitems (fl f))) l1 (kitems (fr f)) (mkey x))
    as (pos & -> & _).
  - by rewrite fmap_app, Hk1, Hk2.
  - rewrite fmap_app, Hk1, Hk2, Forall_forall. intros y [Hy|Hy]%elem_of_app; apply (Hv (MSep y)); set_solver.
  - done.
  - apply (Forall_fst (λ y, cmp y (mkey x) ≤ 0)). rewrite Hk1, Forall_forall. intros y Hy.
    apply (before_le cmp (MSep y) x), Hc1; [by apply Hin1|]. set_solver.
  - apply (Forall_fst (λ y, 0 < cmp y (mkey x))). rewrite Hk2, Forall_forall. intros y Hy.
    apply (cmp_flip (cmp := cmp) (ok := ok)); [done|apply (Hv (MSep y)); set_solver|].
    assert (Hb : before cmp x (MSep y)) by (apply Hc2; [done | by apply Hin2]). by destruct x.
  - rewrite Hlen. by eexists.
Qed.

Definition tree_size t : Z :=
  match t with TLeaf _ l => Z.of_nat (length l) | TNode _ kids => Z.of_nat (length kids) end.

Definition tree_leaf t : bool := match t with TLeaf _ _ => true | TNode _ _ => false end.

Lemma repr_page pgs par t :
  repr pgs par t → ∃ n, pgs !! root t = Some n ∧ parent_page_num n = par ∧ size n = tree_size t ∧
    is_leaf n = tree_leaf t.
Proof.
  destruct t as [p l|p kids].
  - intros [nx Hp]. by eexists.
  - intros [Hp _]%repr_node. eexists. split_and!; [done|done| |done]. simpl. by rewrite kitems_length.
Qed.

(** The last key of a node's page is a key of its subtree. *)
Lemma last_key pgs par t n :
  repr pgs par t → pgs !! root t = Some n → (if tree_leaf t then 1 else 2) ≤ tree_size t →
  ∃ x, x ∈ marks t ∧ key_at n (size n - 1) = Some (mkey x).
Proof.
  destruct t as [p l|p kids]; cbn [tree_leaf tree_size root].
  - intros [nx Hp] Hn Hsz. rewrite Hp in Hn. injection Hn as <-.
    destruct (decide (l = [])) as [->|Hne]; [simpl in Hsz; lia|].
    destruct (exists_last Hne) as (l' & x & ->). exists (MItem x). split.
    + cbn [marks]. apply list_elem_of_fmap_2, elem_of_app. right. by apply list_elem_of_singleton.
    + simpl. rewrite length_app. simpl. replace (Z.of_nat (length l' + 1) - 1) with (Z.of_nat (length l')) by lia.
      by rewrite at_z_middle.
  - intros [Hp _]%repr_node Hn Hsz. rewrite Hp in Hn. injection Hn as <-.
    destruct (decide (kids = [])) as [->|Hne]; [simpl in Hsz; lia|].
    destruct (exists_last Hne) as (kids' & [k t] & ->). rewrite length_app in Hsz. simpl in Hsz.
    destruct kids' as [|[k0 t0] kids']; [simpl in Hsz; lia|].
    exists (MSep k). split.
    + rewrite marks_node. cbn [app]. rewrite kmarks_cons. cbn [tail]. rewrite kmarks_app, kmarks_cons.
      rewrite !elem_of_app. right. right. apply list_elem_of_here.
    + cbn [size key_at]. rewrite kitems_length, kitems_app, length_app. simpl length.
      replace (Z.of_nat (S (length kids') + 1) - 1) with (Z.of_nat (length (kitems ((k0, t0) :: kids'))))
        by (rewrite kitems_length; simpl; lia).
      change (kitems [(k, t)]) with [(k, root t)]. by rewrite at_z_middle.
Qed.

(** What a deletion leaves: no item and no page in use, or a well-formed tree. *)
Definition settled pgs e (its : list (Key A * RID)) : Prop :=
  (root_page (e_fh e) = BP_INVALID_PAGE_NUM ∧ its = [] ∧ NoDup (e_disp e) ∧ dom pgs = list_to_set (e_disp e)) ∨
  (∃ T, tree_mid pgs e T ∧ root_occ (e_fh e) T ∧ items_of (marks T) = its).

Record after pgs e pgs' e' (its : list (Key A * RID)) : Prop := {
  af_settled : settled pgs' e' its;
  af_hdr : hdr_wf (e_fh e');
  af_root : root_page (e_hp e') = root_page (e_fh e');
  af_bp : e_bp e' = e_bp e;
  af_dom : dom pgs' = dom pgs;
}.

Lemma after_here pgs e T :
  hdr_wf (e_fh e) → root_page (e_hp e) = root_page (e_fh e) → tree_mid pgs e T → root_occ (e_fh e) T →
  after pgs e pgs e (items_of (marks T)).
Proof. intros. constructor; try done. right. eauto. Qed.

(** The room a node may be short of. *)
Definition slack (hd : IndexFileHeader) ctx t : Prop :=
  match t with
  | TLeaf _ l =>
      (match ctx with [] => 0 | _ => min_of (leaf_max_size hd) - 1 end) ≤ Z.of_nat (length l) ≤ leaf_max_size hd
  | TNode _ kids =>
      (match ctx with [] => 1 | _ => min_of (internal_max_size hd) - 1 end) ≤ Z.of_nat (length kids) ≤
        internal_max_size hd ∧ Forall (λ kt, occ hd kt.2) kids
  end.

Lemma slack_occ hd ctx t :
  hdr_wf hd → slack hd ctx t →
  (match t with TLeaf _ _ => leaf_max_size hd | TNode _ _ => internal_max_size hd end) -
    Z.quot (match t with TLeaf _ _ => leaf_max_size hd | TNode _ _ => internal_max_size hd end) 2 ≤ tree_size t →
  hole_occ hd ctx t.
Proof.
  intros [Hl Hi _ _ _] Hs Hsz.
  pose proof (min_of_bounds (leaf_max_size hd) ltac:(lia)) as H1.
  pose proof (min_of_bounds (internal_max_size hd) ltac:(lia)) as H2. unfold min_of in *.
  destruct t as [p l|p kids]; simpl in *.
  - destruct ctx; simpl; unfold min_of; lia.
  - destruct Hs as [Hs Hk]. apply hole_occ_node. split; [|done]. unfold min_kids, min_of. destruct ctx; lia.
Qed.

Lemma min_size_of hd pgs par t n :
  repr pgs par t → pgs !! root t = Some n →
  min_size hd n = (match t with TLeaf _ _ => leaf_max_size hd | TNode _ _ => internal_max_size hd end) -
    Z.quot (match t with TLeaf _ _ => leaf_max_size hd | TNode _ _ => internal_max_size hd end) 2.
Proof.
  intros Hr Hn. destruct (repr_page _ _ _ Hr) as (n' & Hn' & _ & _ & Hleaf).
  rewrite Hn in Hn'. injection Hn' as <-. unfold min_size, max_size. rewrite Hleaf. by destruct t.
Qed.

(** *** The root *)
Lemma child_root_occ hd t : hdr_wf hd → occ hd t → root_occ hd t.
Proof.
  intros [Hl Hi _ _ _]. pose proof (min_of_bounds (leaf_max_size hd) ltac:(lia)).
  pose proof (min_of_bounds (internal_max_size hd) ltac:(lia)).
  destruct t as [p l|p kids]; [simpl; lia|]. rewrite occ_node. intros [? ?]. split; [lia | done].
Qed.

Lemma tree_mid_child pgs e p k t n :
  tree_mid pgs e (TNode p [(k, t)]) → pgs !! root t = Some n →
  tree_mid (<[root t := set_parent n BP_INVALID_PAGE_NUM]> pgs)
    (mkEnv (with_root (e_hp e) (root t)) (with_root (e_fh e) (root t)) (e_bp e) (e_disp e ++ [p])) t.
Proof.
  intros [Hnd Hpos Hdom [Hp [Hr _]%Forall_cons]%repr_node Hch Hk [h Hb] Hs Hv Hroot] Hn.
  change (pids (TNode p ?l)) with (p :: kpids l) in *. rewrite kpids_cons in *.
  cbn [kpids map concat] in *. rewrite app_nil_r in *. simpl in Hr.
  change (leaves (TNode p ?l)) with (kleaves l) in Hch. rewrite kleaves_cons in Hch.
  cbn [kleaves map concat] in Hch. rewrite app_nil_r in Hch.
  rewrite marks_node, kmarks_cons in Hs, Hv. cbn [kmarks map concat tail] in Hs, Hv. rewrite app_nil_r in Hs, Hv.
  constructor; cbn [e_disp e_fh]; try done.
  - assert (pids t ++ e_disp e ++ [p] ≡ₚ (p :: pids t) ++ e_disp e) as -> by solve_Permutation. done.
  - by apply Forall_cons in Hpos as [_ ?].
  - rewrite dom_insert_L, Hdom. rewrite !list_to_set_app_L. simpl.
    assert (root t ∈ (list_to_set (pids t) : gset Z)) by (apply elem_of_list_to_set, root_in_pids). set_solver.
  - eapply repr_set_parent; [|done..]. apply NoDup_app in Hnd as (Hnd & _). by apply NoDup_cons in Hnd as [_ ?].
  - eapply chain_frame; [|exact Hch]. intros q _. by apply next_of_set_parent.
  - by apply keys_ok_node in Hk as [[? _]%Forall_cons _].
  - destruct h as [|h]; [done|]. apply bal_node in Hb. apply Forall_cons in Hb as [? _]. by exists h.
Qed.

Lemma runs_adjust_root pgs e t :
  hdr_wf (e_fh e) → root_page (e_hp e) = root_page (e_fh e) → tree_mid pgs e t →
  slack (e_fh e) [] t → tree_size t ≤ 1 →
  ∃ pgs' e', runs (adjust_root (root t)) pgs e tt pgs' e' ∧ after pgs e pgs' e' (items_of (marks t)).
Proof using Type*.
  intros Hh Hhr HT Hsl Hsz. pose proof (tm_repr _ _ _ _ _ HT) as Hr.
  destruct t as [p l|p kids]; cbn [tree_size root] in *.
  - destruct Hr as [nx Hp]. destruct l as [|i [|i' l]]; [| |simpl in Hsz; lia].
    + exists pgs, (mkEnv (with_root (e_hp e) BP_INVALID_PAGE_NUM) (with_root (e_fh e) BP_INVALID_PAGE_NUM)
               (e_bp e) (e_disp e ++ [p])). split.
      * eapply runs_bind; [by apply runs_get_node|]. cbn [is_leaf size length andb Z.of_nat Z.ltb].
        eapply runs_bind.
        { eapply runs_bind; [by apply runs_assert|apply runs_ret]. }
        eapply runs_bind; [apply runs_update_root|]. eapply runs_eq; [apply runs_dispose_page|done|done].
      * constructor; try done; [|by apply hdr_wf_root]. left. cbn [e_fh e_disp].
        pose proof (tm_nodup _ _ _ _ _ HT) as Hnd. pose proof (tm_dom _ _ _ _ _ HT) as Hdom.
        cbn [pids app] in Hnd, Hdom. split_and!; try done.
        -- by rewrite Permutation_app_comm.
        -- by rewrite Hdom, (Permutation_app_comm (e_disp e)).
    + exists pgs, e. split.
      * eapply runs_bind; [by apply runs_get_node|]. apply runs_ret.
      * apply after_here; try done. destruct Hh. simpl. lia.
  - destruct Hsl as [Hs Hocc]. destruct kids as [|[k t] [|kt kids]]; [simpl in Hs; lia| |simpl in Hsz; lia].
    apply repr_node in Hr as [Hp [Hr _]%Forall_cons].
    destruct (repr_root _ _ _ Hr) as (n & Hn & _). cbn [snd] in *.
    exists (<[root t := set_parent n BP_INVALID_PAGE_NUM]> pgs),
      (mkEnv (with_root (e_hp e) (root t)) (with_root (e_fh e) (root t)) (e_bp e) (e_disp e ++ [p])). split.
    + eapply runs_bind; [by apply runs_get_node|]. cbn [is_leaf andb].
      eapply runs_bind.
      { eapply runs_bind; [by apply (runs_value_at p BP_INVALID_PAGE_NUM [] k (root t) [])|].
        eapply runs_bind; [by eapply runs_get_page|].
        eapply runs_bind; [by apply runs_ignore, runs_set_parent|]. apply runs_ret. }
      eapply runs_bind; [apply runs_update_root|]. eapply runs_eq; [apply runs_dispose_page|done|done].
    + assert (root t ∈ dom pgs) by (apply elem_of_dom; eauto).
      constructor; try done; [|by apply hdr_wf_root|rewrite dom_insert_L; set_solver].
      right. exists t. split; [by eapply tree_mid_child|]. cbn [e_fh].
      apply Forall_cons in Hocc as [Hocc _]. split.
      * by apply root_occ_with_root, child_root_occ.
      * rewrite marks_node, kmarks_cons. cbn [kmarks map concat tail]. by rewrite app_nil_r.
Qed.

(** *** Two siblings *)
Lemma items_tail kids : items_of (tail (kmarks kids)) = items_of (kmarks kids).
Proof. by destruct kids as [|[k t] kids]. Qed.

Lemma items_kids kids (k : Key A) t : items_of (kmarks ((k, t) :: kids)) = items_of (marks t) ++ items_of (kmarks kids).
Proof. rewrite kmarks_cons. cbn [items_of]. apply items_of_app. Qed.

Lemma items_replace ctx p L M R M' :
  items_of (kmarks M) = items_of (kmarks M') →
  items_of (marks (plug ctx (TNode p (L ++ M ++ R)))) = items_of (marks (plug ctx (TNode p (L ++ M' ++ R)))).
Proof.
  intros HM. rewrite !marks_plug, !marks_node, !items_of_app, !items_tail, !kmarks_app, !items_of_app.
  by rewrite HM.
Qed.

Lemma items_leaf_pair (kl : Key A) pl l1 pr l2 : items_of (kmarks (leaf_pair kl pl l1 pr l2)) = l1 ++ l2.
Proof.
  rewrite leaf_pair_marks. cbn [items_of]. rewrite items_of_app, items_of_items.
  destruct l2 as [|i l2]; [done|]. cbn [items_of]. by rewrite items_of_items.
Qed.

Lemma items_node_pair (kl : Key A) pl ks1 pr ks2 :
  ks1 ≠ [] → items_of (kmarks (node_pair kl pl ks1 pr ks2)) = items_of (kmarks (ks1 ++ ks2)).
Proof. intros Hne. rewrite node_pair_marks by done. cbn [items_of]. apply items_tail. Qed.

Lemma items_two (kl : Key A) tl k tr :
  items_of (kmarks [(kl, tl); (k, tr)]) = items_of (marks tl) ++ items_of (marks tr).
Proof. rewrite !items_kids. cbn [kmarks map concat items_of]. by rewrite app_nil_r. Qed.

Lemma items_node p kids : items_of (marks (TNode p kids)) = items_of (kmarks kids).
Proof. by rewrite marks_node, items_tail. Qed.

Definition capacity (hd : IndexFileHeader) t : Z :=
  match t with TLeaf _ _ => leaf_max_size hd | TNode _ _ => internal_max_size hd end.

Definition handler_of t : IndexNodeHandlerType := if tree_leaf t then Leaf else Internal.

(** A node short of at most one child, with well-sized children. *)
Definition near_occ (hd : IndexFileHeader) t : Prop :=
  min_of (capacity hd t) - 1 ≤ tree_size t ≤ capacity hd t ∧
  match t with TLeaf _ _ => True | TNode _ kids => Forall (λ kt, occ hd kt.2) kids end.

Lemma occ_near hd t : occ hd t → near_occ hd t ∧ min_of (capacity hd t) ≤ tree_size t.
Proof.
  unfold near_occ, capacity, tree_size. destruct t as [p l|p kids]; [simpl; lia|].
  rewrite occ_node. intros [??]. split; [split; [lia | done] | lia].
Qed.

Lemma near_slack hd f ctx t : slack hd (f :: ctx) t → near_occ hd t.
Proof. destruct t; simpl; unfold near_occ; simpl; tauto. Qed.

Lemma capacity_bounds hd t :
  hdr_wf hd → 2 ≤ min_of (capacity hd t) ∧ 2 * min_of (capacity hd t) ≤ capacity hd t < 2 * min_of (capacity hd t) + 2
              ∧ (tree_leaf t = false → 3 ≤ min_of (capacity hd t)).
Proof.
  intros [Hl Hi _ _ _]. pose proof (min_of_bounds (leaf_max_size hd) ltac:(lia)).
  pose proof (min_of_bounds (internal_max_size hd) ltac:(lia)). destruct t; cbn [capacity tree_leaf]; split_and!; try done; lia.
Qed.

Lemma coalesce_pair pgs e ctx p L kl tl k tr R me neighbor idx :
  hdr_wf (e_fh e) → tree_mid pgs e (plug ctx (TNode p (L ++ (kl, tl) :: (k, tr) :: R))) →
  tree_leaf tl = tree_leaf tr → near_occ (e_fh e) tl → near_occ (e_fh e) tr →
  min_of (capacity (e_fh e) tl) ≤ tree_size tl + tree_size tr - 1 →
  tree_size tl + tree_size tr ≤ capacity (e_fh e) tl →
  roles me neighbor idx (root tl) (root tr) L →
  ∃ tm pgs1,
    tree_mid pgs1 (coalesced e (root tr)) (plug ctx (TNode p (L ++ (kl, tm) :: R))) ∧ occ (e_fh e) tm ∧
    items_of (marks (plug ctx (TNode p (L ++ (kl, tm) :: R)))) =
      items_of (marks (plug ctx (TNode p (L ++ (kl, tl) :: (k, tr) :: R)))) ∧
    dom pgs1 = dom pgs ∧
    ∀ rec pgs' e', runs (rec p) pgs1 (coalesced e (root tr)) tt pgs' e' →
      runs (coalesce rec (handler_of tl) neighbor me p idx) pgs e tt pgs' e'.
Proof using Type*.
  intros Hh HT Hlf [Hs1 Ho1] [Hs2 Ho2] Hmin Hmax Hroles. pose proof (capacity_bounds _ tl Hh) as (Hc1 & Hc2 & Hc3).
  pose proof (capacity_bounds _ tr Hh) as (Hc4 & Hc5 & Hc6).
  destruct tl as [pl ll|pl ksl], tr as [pr lr|pr ksr]; try done;
    cbn [capacity tree_size root tree_leaf handler_of] in *.
  - assert (Hne : ll ++ lr ≠ []).
    { intros [-> ->]%app_eq_nil. simpl in Hmin. lia. }
    destruct (runs_coalesce_leaf key_comparator_ zero_key ok pgs e ctx p L kl pl ll k pr lr R me neighbor idx)
      as (pgs1 & HT1 & Hdom & Hrun); try done; [rewrite length_app; lia|].
    exists (TLeaf pl (ll ++ lr)), pgs1. split_and!; try done.
    + cbn [occ]. rewrite length_app. lia.
    + apply (items_replace ctx p L [_] R [(kl, TLeaf pl ll); (k, TLeaf pr lr)]).
      rewrite items_two, items_kids. cbn [kmarks map concat marks]. rewrite !items_of_items. by rewrite app_nil_r.
  - destruct (runs_coalesce_node key_comparator_ zero_key ok pgs e ctx p L kl pl ksl k pr ksr R me neighbor idx)
      as (pgs1 & HT1 & Hdom & Hrun); try done.
    { intros ->. simpl in Hs1. specialize (Hc3 eq_refl). lia. }
    { intros ->. simpl in Hs2. specialize (Hc3 eq_refl). lia. }
    { rewrite length_app; lia. }
    exists (TNode pl (ksl ++ ksr)), pgs1. split_and!; try done.
    + apply occ_node. rewrite length_app. split; [lia|]. by apply Forall_app.
    + apply (items_replace ctx p L [_] R [(kl, TNode pl ksl); (k, TNode pr ksr)]).
      rewrite items_two, items_kids. cbn [kmarks map concat]. rewrite app_nil_r.
      by rewrite !items_node, kmarks_app, items_of_app.
Qed.

Lemma node_pair_occ hd (kl : Key A) pl ks1 pr ks2 :
  occ hd (TNode pl ks1) → occ hd (TNode pr ks2) → ks2 ≠ [] →
  Forall (λ kt, occ hd kt.2) (node_pair kl pl ks1 pr ks2) ∧ length (node_pair kl pl ks1 pr ks2) = 2%nat.
Proof. intros H1 H2 Hne. destruct ks2 as [|[k t] ks2]; [done|]. split; [|done].
  apply Forall_cons. split; [done|]. by apply Forall_singleton.
Qed.

Lemma leaf_pair_occ hd (kl : Key A) pl l1 pr l2 :
  occ hd (TLeaf pl l1) → occ hd (TLeaf pr l2) → l2 ≠ [] →
  Forall (λ kt, occ hd kt.2) (leaf_pair kl pl l1 pr l2) ∧ length (leaf_pair kl pl l1 pr l2) = 2%nat.
Proof. intros H1 H2 Hne. destruct l2 as [|i l2]; [done|]. split; [|done].
  apply Forall_cons. split; [done|]. by apply Forall_singleton.
Qed.

(** What a redistribution leaves. *)
Definition redistributed pgs e ctx p L kl tl k tr R pgs1 : Prop :=
  ∃ M, tree_mid pgs1 e (plug ctx (TNode p (L ++ M ++ R))) ∧ Forall (λ kt, occ (e_fh e) kt.2) M ∧
    length M = 2%nat ∧ dom pgs1 = dom pgs ∧
    items_of (marks (plug ctx (TNode p (L ++ M ++ R)))) =
      items_of (marks (plug ctx (TNode p (L ++ (kl, tl) :: (k, tr) :: R)))).

Lemma redistribute_first pgs e ctx p kl tl k tr R :
  hdr_wf (e_fh e) → tree_mid pgs e (plug ctx (TNode p ((kl, tl) :: (k, tr) :: R))) →
  tree_leaf tl = tree_leaf tr → near_occ (e_fh e) tl → near_occ (e_fh e) tr →
  tree_size tl < capacity (e_fh e) tl → min_of (capacity (e_fh e) tl) < tree_size tr →
  ∃ pgs1, redistributed pgs e ctx p [] kl tl k tr R pgs1 ∧
    runs (redistribute (handler_of tl) (root tr) (root tl) p 0) pgs e tt pgs1 e.
Proof using Type*.
  intros Hh HT Hlf [Hs1 Ho1] [Hs2 Ho2] Hfit Hmin. pose proof (capacity_bounds _ tl Hh) as (Hc1 & Hc2 & Hc3).
  destruct tl as [pl ll|pl ksl], tr as [pr lr|pr ksr]; try done;
    cbn [capacity tree_size root tree_leaf handler_of] in *.
  - destruct lr as [|x [|y lr]]; [simpl in Hmin; lia..|]. cbn [length] in Hmin, Hs2.
    destruct (runs_redistribute_leaf_first key_comparator_ zero_key ok pgs e ctx p kl pl ll k pr x y lr R)
      as (pgs1 & HT1 & Hdom & Hrun); try done.
    destruct (leaf_pair_occ (e_fh e) kl pl (ll ++ [x]) pr (y :: lr)) as [Ho Hlen];
      [cbn [occ]; rewrite ?length_app; cbn [length]; lia..|done|].
    exists pgs1. split; [|done]. exists (leaf_pair kl pl (ll ++ [x]) pr (y :: lr)). split_and!; try done.
    apply (items_replace ctx p [] _ R [(kl, TLeaf pl ll); (k, TLeaf pr (x :: y :: lr))]).
    rewrite items_leaf_pair, items_two. cbn [marks]. rewrite !items_of_items. by rewrite <- app_assoc.
  - destruct ksr as [|[kx tx] [|[ky ty] ksr]]; [simpl in Hmin; lia..|]. cbn [length] in Hmin, Hs2.
    assert (Hne : ksl ≠ []) by (intros ->; specialize (Hc3 eq_refl); simpl in Hs1; lia).
    destruct (runs_redistribute_node_first key_comparator_ zero_key ok pgs e ctx p kl pl ksl k pr kx tx ky ty ksr R)
      as (pgs1 & HT1 & Hdom & Hrun); try done.
    apply Forall_cons in Ho2 as [Ho2 Ho3].
    destruct (node_pair_occ (e_fh e) kl pl (ksl ++ [(kx, tx)]) pr ((ky, ty) :: ksr)) as [Ho Hlen].
    { apply occ_node. rewrite length_app. cbn [length]. split; [lia|]. apply Forall_app. by repeat constructor. }
    { apply occ_node. cbn [length]. split; [lia | done]. }
    { done. }
    exists pgs1. split; [|done]. exists (node_pair kl pl (ksl ++ [(kx, tx)]) pr ((ky, ty) :: ksr)). split_and!; try done.
    apply (items_replace ctx p [] _ R [(kl, TNode pl ksl); (k, TNode pr ((kx, tx) :: (ky, ty) :: ksr))]).
    rewrite items_node_pair by (by destruct ksl). rewrite items_two, !items_node.
    rewrite <- app_assoc. cbn [app]. by rewrite kmarks_app, items_of_app.
Qed.

Lemma redistribute_last pgs e ctx p L kl tl k tr R :
  hdr_wf (e_fh e) → tree_mid pgs e (plug ctx (TNode p (L ++ (kl, tl) :: (k, tr) :: R))) →
  tree_leaf tl = tree_leaf tr → near_occ (e_fh e) tl → near_occ (e_fh e) tr →
  tree_size tr < capacity (e_fh e) tr → min_of (capacity (e_fh e) tl) < tree_size tl →
  ∃ pgs1, redistributed pgs e ctx p L kl tl k tr R pgs1 ∧
    runs (redistribute (handler_of tr) (root tl) (root tr) p (Z.of_nat (length L) + 1)) pgs e tt pgs1 e.
Proof using Type*.
  intros Hh HT Hlf [Hs1 Ho1] [Hs2 Ho2] Hfit Hmin. pose proof (capacity_bounds _ tl Hh) as (Hc1 & Hc2 & Hc3).
  destruct tl as [pl ll|pl ksl], tr as [pr lr|pr ksr]; try done;
    cbn [capacity tree_size root tree_leaf handler_of] in *.
  - destruct (decide (ll = [])) as [->|Hne]; [simpl in Hmin; lia|].
    destruct (exists_last Hne) as (ll' & x & ->). rewrite length_app in Hmin, Hs1. cbn [length] in Hmin, Hs1.
    destruct ll' as [|z ll']; [simpl in Hmin; lia|]. cbn [length] in Hmin, Hs1.
    destruct (runs_redistribute_leaf_last key_comparator_ zero_key ok pgs e ctx p L kl pl z ll' x k pr lr R)
      as (pgs1 & HT1 & Hdom & Hrun); try done.
    destruct (leaf_pair_occ (e_fh e) kl pl (z :: ll') pr (x :: lr)) as [Ho Hlen];
      [cbn [occ length]; lia..|done|].
    exists pgs1. split; [|done]. exists (leaf_pair kl pl (z :: ll') pr (x :: lr)). split_and!; try done.
    apply (items_replace ctx p L _ R [(kl, TLeaf pl (z :: ll' ++ [x])); (k, TLeaf pr lr)]).
    rewrite items_leaf_pair, items_two. cbn [marks]. rewrite !items_of_items. cbn [app]. by rewrite <- app_assoc.
  - destruct (decide (ksl = [])) as [->|Hne]; [simpl in Hmin; lia|].
    destruct (exists_last Hne) as (ksl' & [kx tx] & ->). rewrite length_app in Hmin, Hs1. cbn [length] in Hmin, Hs1.
    destruct ksl' as [|[kz tz] ksl']; [simpl in Hmin; lia|]. cbn [length] in Hmin, Hs1.
    pose proof (capacity_bounds _ (TNode pr ksr) Hh) as (_ & _ & Hc4). cbn [capacity tree_leaf] in Hc4.
    assert (Hnr : ksr ≠ []) by (intros ->; specialize (Hc4 eq_refl); simpl in Hs2; lia).
    destruct (runs_redistribute_node_last key_comparator_ zero_key ok pgs e ctx p L kl pl kz tz ksl' kx tx k pr ksr R)
      as (pgs1 & HT1 & Hdom & Hrun); try done.
    apply (Forall_app _ ((kz, tz) :: ksl')) in Ho1 as [Ho1 [Ho3 _]%Forall_cons].
    destruct (node_pair_occ (e_fh e) kl pl ((kz, tz) :: ksl') pr ((kx, tx) :: ksr)) as [Ho Hlen].
    { apply occ_node. cbn [length]. split; [lia | done]. }
    { apply occ_node. cbn [length]. split; [lia|]. by constructor. }
    { done. }
    exists pgs1. split; [|done]. exists (node_pair kl pl ((kz, tz) :: ksl') pr ((kx, tx) :: ksr)). split_and!; try done.
    apply (items_replace ctx p L _ R [(kl, TNode pl ((kz, tz) :: ksl' ++ [(kx, tx)])); (k, TNode pr ksr)]).
    rewrite items_node_pair by done. rewrite items_two, !items_node, <- items_of_app, <- kmarks_app.
    cbn [app]. by rewrite <- app_assoc.
Qed.

(** *** Up the tree *)
Lemma capacity_min t hd : capacity hd t - Z.quot (capacity hd t) 2 = capacity hd t - min_of (capacity hd t).
Proof. done. Qed.

(** The node is short: its neighbor is found through the parent. *)
Lemma runs_neighbor fuel HT pgs e f ctx t LN kn tn RN y pgs' e' :
  hdr_wf (e_fh e) → tree_mid pgs e (plug (f :: ctx) t) →
  (if tree_leaf t then 1 else 2) ≤ tree_size t →
  tree_size t < capacity (e_fh e) t - min_of (capacity (e_fh e) t) →
  fl f ++ (fk f, t) :: fr f = LN ++ (kn, tn) :: RN →
  Z.of_nat (length LN) = (if Z.of_nat (length (fl f)) =? 0 then 1 else Z.of_nat (length (fl f)) - 1) →
  runs (if capacity (e_fh e) t <? tree_size t + tree_size tn
        then redistribute HT (root tn) (root t) (fp f) (Z.of_nat (length (fl f)))
        else coalesce (coalesce_or_redistribute key_comparator_ fuel Internal) HT (root tn) (root t) (fp f)
               (Z.of_nat (length (fl f)))) pgs e y pgs' e' →
  runs (coalesce_or_redistribute key_comparator_ (S fuel) HT (root t)) pgs e y pgs' e'.
Proof using Type*.
  intros Hh HTm Hsz1 Hsz2 Hkids HLN Hrun.
  pose proof (tm_repr _ _ _ _ _ HTm) as [_ Hr]%(repr_plug pgs ctx (fill f t)). apply repr_node in Hr as [Hp HrK].
  assert (Hrt : repr pgs (fp f) t) by (by apply Forall_app in HrK as [_ [? _]%Forall_cons]).
  assert (Hrn : repr pgs (fp f) tn).
  { rewrite Hkids in HrK. by apply Forall_app in HrK as [_ [? _]%Forall_cons]. }
  destruct (repr_page _ _ _ Hrt) as (n & Hn & Hpar & Hsize & Hleaf).
  destruct (repr_page _ _ _ Hrn) as (nn & Hnn & _ & Hsizen & _).
  destruct (last_key pgs (fp f) t n Hrt Hn Hsz1) as (x & Hx & Hkey).
  pose proof (tm_sorted _ _ _ _ _ HTm) as Hs. pose proof (tm_valid _ _ _ _ _ HTm) as Hv.
  cbn [plug] in Hs, Hv. rewrite marks_plug, marks_fill in Hs, Hv.
  apply msorted_app in Hs as (_ & _ & (_ & Hs & _)%msorted_app).
  apply Forall_app in Hv as [_ [Hv _]%Forall_app].
  destruct (hole_lookup f t x Hs Hv Hx) as [pos Hlk].
  assert (Hpos : fp f ≠ BP_INVALID_PAGE_NUM).
  { pose proof (tm_pos _ _ _ _ _ HTm) as Hpo. cbn [plug] in Hpo. rewrite pids_plug in Hpo.
    apply Forall_app in Hpo as [Hpo _]. apply Forall_cons in Hpo as [Hpo _]. unfold BP_INVALID_PAGE_NUM. lia. }
  assert (Hmin : min_size (e_fh e) n = capacity (e_fh e) t - min_of (capacity (e_fh e) t)).
  { rewrite (min_size_of _ _ _ _ _ Hrt Hn). by destruct t. }
  assert (Hmax : max_size (e_fh e) n = capacity (e_fh e) t).
  { unfold max_size. rewrite Hleaf. by destruct t. }
  cbn [coalesce_or_redistribute]. eapply runs_bind; [by apply runs_get_node|].
  eapply runs_bind; [apply runs_header|]. rewrite Hmin, Hsize, (proj2 (Z.leb_gt _ _)) by done.
  cbv zeta. rewrite Hpar, (proj2 (Z.eqb_neq _ _)) by done.
  eapply runs_bind; [by eapply runs_get_page|]. eapply runs_bind; [by apply runs_get_internal|].
  rewrite <- Hsize. eapply runs_bind; [by apply runs_of_option|]. eapply runs_bind; [by apply runs_of_option|].
  cbv beta iota. rewrite kitems_app in Hp.
  eapply runs_bind; [by eapply (runs_value_at (fp f)); [exact Hp|rewrite kitems_length]|].
  eapply runs_bind; [apply runs_assert, Z.eqb_refl|].
  rewrite <- kitems_app, Hkids, kitems_app in Hp.
  eapply runs_bind; [eapply (runs_value_at (fp f)); [exact Hp|by rewrite kitems_length, HLN]|].
  eapply runs_bind; [by eapply runs_get_page|]. eapply runs_bind; [by apply runs_latch|].
  eapply runs_bind; [by apply runs_get_node|]. rewrite Hmax, Hsize, Hsizen. exact Hrun.
Qed.

Lemma after_coalesced pgs pgs1 e pr pgs' e' its :
  after pgs1 (coalesced e pr) pgs' e' its → dom pgs1 = dom pgs → after pgs e pgs' e' its.
Proof. intros [] Hd. constructor; try done. by rewrite af_dom0. Qed.

(** Both siblings are leaves or both are nodes. *)
Lemma siblings_leaf pgs e ctx p L kl tl k tr R :
  tree_mid pgs e (plug ctx (TNode p (L ++ (kl, tl) :: (k, tr) :: R))) → tree_leaf tl = tree_leaf tr.
Proof.
  intros HT. destruct (tm_bal _ _ _ _ _ HT) as [n Hb]. apply bal_plug_inv in Hb as (h & _ & _ & Hb).
  destruct h as [|h]; [done|]. apply bal_node in Hb.
  apply Forall_app in Hb as [_ [Hb1 [Hb2 _]%Forall_cons]%Forall_cons].
  simpl in Hb1, Hb2. destruct tl, tr, h; done.
Qed.

(** One short node among its siblings: either the tree is settled or the parent is next. *)
Lemma rebalance_step fuel pgs e f ctx t :
  hdr_wf (e_fh e) → root_page (e_hp e) = root_page (e_fh e) → tree_mid pgs e (plug (f :: ctx) t) →
  cocc (e_fh e) (f :: ctx) → slack (e_fh e) (f :: ctx) t →
  tree_size t < capacity (e_fh e) t - min_of (capacity (e_fh e) t) →
  (∀ pgs1 pr kids, tree_mid pgs1 (coalesced e pr) (plug ctx (TNode (fp f) kids)) →
     slack (e_fh e) ctx (TNode (fp f) kids) →
     ∃ pgs' e', runs (coalesce_or_redistribute key_comparator_ fuel Internal (fp f)) pgs1 (coalesced e pr) tt pgs' e' ∧
       after pgs1 (coalesced e pr) pgs' e' (items_of (marks (plug ctx (TNode (fp f) kids))))) →
  ∃ pgs' e', runs (coalesce_or_redistribute key_comparator_ (S fuel) (handler_of t) (root t)) pgs e tt pgs' e' ∧
    after pgs e pgs' e' (items_of (marks (plug (f :: ctx) t))).
Proof using Type*.
  intros Hh Hhr HT Hco Hsl Hshort IH. destruct Hco as (Hsz & Hoc & Hcc).
  pose proof (near_slack _ _ _ _ Hsl) as Hnear. pose proof (capacity_bounds _ t Hh) as (Hc1 & Hc2 & Hc3).
  assert (Hone : (if tree_leaf t then 1 else 2) ≤ tree_size t).
  { destruct Hnear as [Hn _]. destruct (tree_leaf t) eqn:E; [lia|]. specialize (Hc3 eq_refl). lia. }
  assert (Hmk : 2 ≤ min_kids (e_fh e) ctx).
  { unfold min_kids. pose proof (capacity_bounds _ (TNode 0 []) Hh) as (Hc & _). destruct ctx; [lia|exact Hc]. }
  (* the sibling pair: left, right, the children around it, and the neighbor *)
  assert (Hpair : ∃ L kl tl k tr R LN kn tn RN,
    fl f ++ (fk f, t) :: fr f = L ++ (kl, tl) :: (k, tr) :: R ∧
    fl f ++ (fk f, t) :: fr f = LN ++ (kn, tn) :: RN ∧
    Z.of_nat (length LN) = (if Z.of_nat (length (fl f)) =? 0 then 1 else Z.of_nat (length (fl f)) - 1) ∧
    Forall (λ kt, occ (e_fh e) kt.2) L ∧ Forall (λ kt, occ (e_fh e) kt.2) R ∧ occ (e_fh e) tn ∧
    roles (root t) (root tn) (Z.of_nat (length (fl f))) (root tl) (root tr) L ∧
    ((fl f = [] ∧ L = [] ∧ tl = t ∧ tr = tn) ∨
     (Z.of_nat (length (fl f)) = Z.of_nat (length L) + 1 ∧ tl = tn ∧ tr = t))).
  { destruct (decide (fl f = [])) as [Hnil|Hne].
    - rewrite Hnil in *. cbn [app length] in *. destruct (fr f) as [|[kr tr] R]; [simpl in Hsz; lia|].
      apply Forall_cons in Hoc as [Ho1 Ho2].
      exists [], (fk f), t, kr, tr, R, [(fk f, t)], kr, tr, R. split_and!; try done; [by left|left; done].
    - destruct (exists_last Hne) as (L & [kl tl] & HL). rewrite HL in *.
      rewrite <- app_assoc in Hoc. apply Forall_app in Hoc as [Ho1 [Ho2 Ho3]%Forall_cons].
      exists L, kl, tl, (fk f), t, (fr f), L, kl, tl, ((fk f, t) :: fr f). rewrite length_app in *. cbn [length] in *.
      rewrite <- !app_assoc. cbn [app]. split_and!; try done.
      + rewrite (proj2 (Z.eqb_neq _ _)) by lia. lia.
      + right. split_and!; try done; lia.
      + right. split_and!; try done; lia. }
  destruct Hpair as (L & kl & tl & k & tr & R & LN & kn & tn & RN & HK & HKN & HLN & HoL & HoR & Hon & Hroles & Hwhich).
  assert (HTp : tree_mid pgs e (plug ctx (TNode (fp f) (L ++ (kl, tl) :: (k, tr) :: R)))) by (by rewrite <- HK).
  pose proof (siblings_leaf _ _ _ _ _ _ _ _ _ _ HTp) as Hlf.
  assert (Hits : items_of (marks (plug (f :: ctx) t)) =
                 items_of (marks (plug ctx (TNode (fp f) (L ++ (kl, tl) :: (k, tr) :: R))))) by (by rewrite <- HK).
  destruct (occ_near _ _ Hon) as [Hnearn Hminn].
  assert (Hcap : ∀ t', tree_leaf t' = tree_leaf t → capacity (e_fh e) t' = capacity (e_fh e) t ∧ handler_of t' = handler_of t).
  { intros t' E. destruct t', t; done. }
  assert (Hlen : (length (L ++ (kl, tl) :: (k, tr) :: R) = length (fl f) + 1 + length (fr f))%nat).
  { rewrite <- HK, length_app. simpl. lia. }
  rewrite length_app in Hlen. cbn [length] in Hlen.
  destruct (Z.ltb_spec (capacity (e_fh e) t) (tree_size t + tree_size tn)) as [Hbig|Hsmall].
  - (* redistribute *)
    assert (Hre : ∃ pgs1, redistributed pgs e ctx (fp f) L kl tl k tr R pgs1 ∧
      runs (redistribute (handler_of t) (root tn) (root t) (fp f) (Z.of_nat (length (fl f)))) pgs e tt pgs1 e).
    { destruct Hwhich as [(Hnil & -> & -> & ->)|(Hidx & -> & ->)].
      - rewrite Hnil. destruct (Hcap tn) as [Hcn _]; [done|]. apply (redistribute_first pgs e ctx (fp f) kl t k tn R); try done; lia.
      - rewrite Hidx. destruct (Hcap tn) as [Hcn _]; [done|].
        apply (redistribute_last pgs e ctx (fp f) L kl tn k t R); try done; rewrite ?Hcn; lia. }
    destruct Hre as (pgs1 & (M & HT1 & HoM & HlM & Hdom & HiM) & Hrun).
    exists pgs1, e. split.
    { eapply runs_neighbor; try done. by rewrite (proj2 (Z.ltb_lt _ _)). }
    rewrite Hits, <- HiM. constructor; try done. right. eexists. split; [exact HT1|]. split; [|done].
    apply occ_plug. split; [done|]. apply hole_occ_node. rewrite !length_app, HlM. split; [lia|].
    by rewrite !Forall_app.
  - (* coalesce *)
    assert (Hnl : near_occ (e_fh e) tl ∧ near_occ (e_fh e) tr ∧ capacity (e_fh e) tl = capacity (e_fh e) t ∧
      handler_of tl = handler_of t ∧ tree_size tl + tree_size tr = tree_size t + tree_size tn).
    { destruct Hwhich as [(_ & _ & -> & ->)|(_ & -> & ->)]; [done|].
      destruct (Hcap tn) as [Hcn Hhn]; [done|]. split_and!; try done. lia. }
    destruct Hnl as (Hn1 & Hn2 & Hcl & Hhl & Hsum).
    assert (Hcn : capacity (e_fh e) tn = capacity (e_fh e) t).
    { destruct Hwhich as [(_ & _ & -> & ->)|(_ & -> & ->)]; apply Hcap; done. }
    destruct Hnear as [Hnear _].
    destruct (coalesce_pair pgs e ctx (fp f) L kl tl k tr R (root t) (root tn) (Z.of_nat (length (fl f))))
      as (tm & pgs1 & HT1 & Hom & Him & Hdom & Hrun); try done; [rewrite Hcl, ?Hsum; rewrite ?Hcn in *; lia..|].
    destruct (IH pgs1 (root tr) (L ++ (kl, tm) :: R) HT1) as (pgs' & e' & Hrun' & Haf).
    { split; [rewrite length_app; cbn [length]; unfold min_kids in *; destruct ctx; lia|].
      apply Forall_app. split; [done|]. by constructor. }
    exists pgs', e'. split.
    { eapply runs_neighbor; try done. rewrite (proj2 (Z.ltb_ge _ _)) by done. rewrite <- Hhl. by apply Hrun. }
    rewrite Hits, <- Him. by eapply after_coalesced.
Qed.

Lemma rebalance_up ctx : ∀ fuel pgs e t,
  hdr_wf (e_fh e) → root_page (e_hp e) = root_page (e_fh e) → tree_mid pgs e (plug ctx t) →
  cocc (e_fh e) ctx → slack (e_fh e) ctx t → (length ctx < fuel)%nat →
  ∃ pgs' e', runs (coalesce_or_redistribute key_comparator_ fuel (handler_of t) (root t)) pgs e tt pgs' e' ∧
    after pgs e pgs' e' (items_of (marks (plug ctx t))).
Proof using Type*.
  induction ctx as [|f ctx IH]; intros fuel pgs e t Hh Hhr HT Hco Hsl Hfuel;
    (destruct fuel as [|fuel]; [simpl in Hfuel; lia|]);
    pose proof (tm_repr _ _ _ _ _ HT) as Hr; apply repr_plug in Hr as [_ Hr];
    destruct (repr_page _ _ _ Hr) as (n & Hn & Hpar & Hsize & Hleaf);
    pose proof (min_size_of (e_fh e) _ _ _ _ Hr Hn) as Hmin; fold (capacity (e_fh e) t) in Hmin;
    destruct (Z.leb_spec (min_size (e_fh e) n) (tree_size t)) as [Hbig|Hshort].
  2: {
    cbn [plug ctx_par] in *. assert (Hstart : ∀ y pgs' e',
      runs (if 1 <? size n then mret tt else ignore (adjust_root (root t))) pgs e y pgs' e' →
      runs (coalesce_or_redistribute key_comparator_ (S fuel) (handler_of t) (root t)) pgs e y pgs' e').
    { intros y pgs' e' Hrun. cbn [coalesce_or_redistribute]. eapply runs_bind; [by apply runs_get_node|].
      eapply runs_bind; [apply runs_header|]. rewrite Hsize, (proj2 (Z.leb_gt _ _)) by done.
      cbv zeta. rewrite Hpar, Z.eqb_refl. by rewrite <- Hsize. }
    rewrite Hsize in Hstart. destruct (Z.ltb_spec 1 (tree_size t)) as [Hlt|Hge].
    - exists pgs, e. split; [apply Hstart, runs_ret|]. apply after_here; try done.
      destruct t as [p l|p kids]; cbn [tree_size root_occ] in *; simpl in Hsl; [lia|]. split; [lia | tauto].
    - destruct (runs_adjust_root pgs e t) as (pgs' & e' & Hrun & Haf); try done.
      exists pgs', e'. split; [by apply Hstart, runs_ignore | done]. }
  1, 2: exists pgs, e; split;
    [ cbn [coalesce_or_redistribute]; (eapply runs_bind; [by apply runs_get_node|]);
      (eapply runs_bind; [apply runs_header|]); rewrite Hsize, (proj2 (Z.leb_le _ _)) by done; apply runs_ret
    | apply after_here; try done; apply occ_plug; split; [done|]; apply slack_occ; try done;
      fold (capacity (e_fh e) t); lia ].
  eapply rebalance_step; try done.
  - unfold min_of. lia.
  - intros pgs1 pr kids HT1 Hsl1. destruct Hco as (_ & _ & Hcc).
    apply (IH fuel pgs1 (coalesced e pr) (TNode (fp f) kids)); try done. simpl in Hfuel. lia.
Qed.

(** *** The whole operation *)
Definition delete_body key : MM unit :=
  p ← map_err (λ rc, if decide (rc = RC_EMPTY) then RC_RECORD_NOT_EXIST else rc)
        (find_leaf key_comparator_ OP_DELETE key);
  delete_entry_internal key_comparator_ p key.

Lemma runs_map_err {U} g (m : MM U) pgs e x pgs' e' :
  runs m pgs e x pgs' e' → runs (map_err g m) pgs e x pgs' e'.
Proof. intros Hm st Hst. destruct (Hm st Hst) as (st' & E & Hst'). exists st'. unfold map_err. by rewrite E. Qed.

(** The entry is there. *)
Lemma delete_present pgs e T key :
  hdr_wf (e_fh e) → root_page (e_hp e) = root_page (e_fh e) → e_disp e = [] →
  tree_ok key_comparator_ ok (e_fh e) pgs T → ok key → has_key cmp (items_of (marks T)) key = true →
  ∃ pgs' e', runs (delete_body key) pgs e tt pgs' e' ∧
    after pgs e pgs' e' (spec_delete cmp key (items_of (marks T))).2.
Proof using Type*.
  intros Hh Hhr Hd HT Hkey Hhas.
  destruct (tree_search key_comparator_ zero_key ok OP_DELETE key T pgs e Hh HT Hkey)
    as (ctx & p & nx & l1 & l2 & found & Hrun & Hal).
  pose proof (at_leaf_contents _ _ _ _ _ _ _ _ _ _ Hal) as Hits.
  destruct (at_leaf_sides _ _ _ _ _ _ _ _ _ _ Hal) as [Hl Hr]. rewrite Hits in Hhas.
  destruct found; [|by rewrite has_key_app, has_key_left, has_key_right in Hhas].
  destruct Hr as (x & l2' & -> & Hx & Hr). rewrite fmap_cons in Hits. cbn [app items_of] in Hits.
  rewrite Hits, spec_delete_at by done. cbn [snd].
  pose proof (al_tree _ _ _ _ _ _ _ _ _ _ Hal) as HTp. pose proof (al_page _ _ _ _ _ _ _ _ _ _ Hal) as Hp.
  pose proof (al_lookup _ _ _ _ _ _ _ _ _ _ Hal) as Hlk.
  set (pgs1 := <[p := LeafNode (ctx_par ctx) nx (l1 ++ l2')]> pgs).
  pose proof (tree_ok_mid _ _ _ _ _ HT Hd) as Hmid. rewrite HTp in Hmid.
  assert (HT1 : tree_mid pgs1 e (plug ctx (TLeaf p (l1 ++ l2')))).
  { pose proof (to_sorted _ _ _ _ _ HT) as Hs. pose proof (to_valid _ _ _ _ _ HT) as Hv.
    rewrite HTp, marks_plug in Hs, Hv. cbn [marks] in Hs, Hv.
    assert (Hsub : cpre ctx ++ (MItem <$> l1 ++ l2') ++ cpost ctx `sublist_of`
                   cpre ctx ++ (MItem <$> l1 ++ x :: l2') ++ cpost ctx).
    { apply sublist_app; [done|]. apply sublist_app; [|done]. apply fmap_sublist, sublist_app; [done|]. by constructor. }
    apply (tree_mid_leaf _ _ pgs e ctx p nx (l1 ++ x :: l2')); [exact Hmid|exact Hp|by eapply StronglySorted_sublist|].
    unfold mvalid in *. rewrite Forall_forall in Hv. rewrite Forall_forall. intros m Hm. apply Hv.
    by eapply elem_of_sublist. }
  assert (Hits1 : items_of (marks (plug ctx (TLeaf p (l1 ++ l2')))) =
    items_of (cpre ctx ++ (MItem <$> l1)) ++ items_of ((MItem <$> l2') ++ cpost ctx)).
  { rewrite marks_plug. cbn [marks]. rewrite fmap_app, !items_of_app, <- !app_assoc. done. }
  rewrite <- Hits1.
  pose proof (to_occ _ _ _ _ _ HT) as Ho. rewrite HTp in Ho. apply occ_plug in Ho as [Hco Ho].
  assert (Hsl : slack (e_fh e) ctx (TLeaf p (l1 ++ l2'))).
  { unfold hole_occ, slack in *. destruct ctx; simpl in Ho; rewrite length_app in *; cbn [length] in *; lia. }
  assert (Hdom1 : dom pgs1 = dom pgs).
  { unfold pgs1. rewrite dom_insert_lookup_L; [done|]. eauto. }
  pose proof (tm_nodup _ _ _ _ _ Hmid) as Hnd.
  assert (Hfuel : (length ctx < S (base.size pgs1))%nat).
  { rewrite <- (size_dom (D := gset Z)), Hdom1, (to_dom _ _ _ _ _ HT).
    rewrite size_list_to_set by apply (to_nodup _ _ _ _ _ HT). rewrite HTp, pids_plug. pose proof (ctx_length ctx). simpl. lia. }
  assert (Hgo : ∀ y pgs' e',
    runs (n ← get_node p; h ← header;
          if min_size h n <=? size n then mret tt
          else
            st ← gets (λ st, st);
            coalesce_or_redistribute key_comparator_ (depth_fuel st) Leaf p) pgs1 e y pgs' e' →
    runs (delete_body key) pgs e y pgs' e').
  { intros y pgs' e' Hgo. eapply runs_bind; [by apply runs_map_err|].
    eapply runs_bind.
    { eapply runs_bind; [by eapply runs_get_leaf|]. eapply runs_bind; [by apply runs_of_option|].
      cbv beta iota. eapply runs_bind; [|apply runs_ret]. by eapply runs_leaf_remove. }
    cbn [Z.eqb]. exact Hgo. }
  set (n1 := LeafNode (ctx_par ctx) nx (l1 ++ l2')) in *.
  assert (Hn1 : pgs1 !! p = Some n1) by apply lookup_insert_eq.
  destruct (Z.leb_spec (min_size (e_fh e) n1) (size n1)) as [Hbig|Hshort].
  - exists pgs1, e. split.
    + apply Hgo. eapply runs_bind; [by apply runs_get_node|]. eapply runs_bind; [apply runs_header|].
      rewrite (proj2 (Z.leb_le _ _)) by done. apply runs_ret.
    + constructor; try done. right. eexists. split; [exact HT1|]. split; [|done].
      apply occ_plug. split; [done|]. by apply slack_occ.
  - destruct (rebalance_up ctx (S (base.size pgs1)) pgs1 e (TLeaf p (l1 ++ l2'))) as (pgs' & e' & Hrun' & Haf); try done.
    exists pgs', e'. split; [|destruct Haf; constructor; try done; congruence].
    apply Hgo. eapply runs_bind; [by apply runs_get_node|]. eapply runs_bind; [apply runs_header|].
    rewrite (proj2 (Z.leb_gt _ _)) by done. apply runs_gets. intros st (_ & Hpg & _).
    unfold depth_fuel. rewrite Hpg. exact Hrun'.
Qed.

Lemma dispose_all ds : ∀ b : B,
  NoDup ds → (∀ d, d ∈ ds → d ∈ bp_pages b) →
  bp_pages (foldl bp_dispose b ds) = bp_pages b ∖ list_to_set ds.
Proof.
  induction ds as [|d ds IH]; intros b Hnd Hin; [simpl; set_solver|].
  apply NoDup_cons in Hnd as [Hd Hnd]. simpl.
  destruct (bp_dispose_ok b d) as [Hb _]; [apply Hin, list_elem_of_here|].
  rewrite IH, Hb; [set_solver|done|]. intros d' Hd'. rewrite Hb.
  assert (d' ≠ d) by (by intros ->). specialize (Hin d' (list_elem_of_further _ _ _ Hd')). set_solver.
Qed.

(** The pages to dispose go; what is left is an index again. *)
Lemma after_released reserved pgs e pgs' e' l its :
  env_ok key_comparator_ ok reserved pgs e l → after pgs e pgs' e' its →
  env_ok key_comparator_ ok reserved (foldr delete pgs' (e_disp e'))
    (mkEnv (e_hp e') (e_fh e') (foldl bp_dispose (e_bp e') (e_disp e')) []) its.
Proof.
  intros [_ _ Hbp Hres _] [Hset Hh Hr Hb Hdom].
  assert (Hds : NoDup (e_disp e') ∧ list_to_set (e_disp e') ⊆ dom pgs').
  { destruct Hset as [(_ & _ & Hnd & Hd)|(T & HT & _ & _)]; [by rewrite Hd|].
    pose proof (tm_nodup _ _ _ _ _ HT) as (_ & _ & Hnd)%NoDup_app. split; [done|].
    rewrite (tm_dom _ _ _ _ _ HT), list_to_set_app_L. set_solver. }
  destruct Hds as [Hnd Hsub]. constructor; cbn [e_fh e_hp e_bp]; try done.
  - rewrite dispose_all, Hb, Hbp, dom_delete_all, <- Hdom; [|done|].
    + rewrite <- Hdom in Hres. clear -Hres Hsub. set_solver.
    + intros d Hd. rewrite Hb, Hbp, <- Hdom. apply elem_of_union_r, Hsub. by apply elem_of_list_to_set.
  - rewrite dom_delete_all, Hdom. clear -Hres. set_solver.
  - destruct Hset as [(Hroot & -> & _ & Hd)|(T & HT & Ho & <-)].
    + left. split_and!; try done. apply dom_empty_inv_L. rewrite dom_delete_all, Hd. set_solver.
    + right. exists T. split; [|done]. by apply (tree_mid_ok _ _ pgs' e' T).
Qed.

(** The entry is not there. *)
Lemma delete_missing reserved st l key :
  faults st = [] → disposed st = [] → env_ok key_comparator_ ok reserved (pages st) (env_of st) l →
  ok key → has_key cmp l key = false →
  ∃ st', delete_body key st = Err RC_RECORD_NOT_EXIST st' ∧ keeps st st'.
Proof using Type*.
  intros Hf Hd [Hh _ _ _ Hho] Hkey Hno.
  destruct Hho as [(Hroot & _ & ->)|(T & HT & ->)].
  - eexists. split.
    + unfold delete_body, find_leaf, find_leaf_internal, map_err, mbind, M_bind, latch_root, push_memo, modify, gets.
      unfold is_empty. cbn [env_of e_fh] in Hroot. simpl. rewrite Hroot, Z.eqb_refl. simpl. done.
    + by eexists.
  - destruct (tree_search key_comparator_ zero_key ok OP_DELETE key T (pages st) (env_of st) Hh HT Hkey)
      as (ctx & p & nx & l1 & l2 & found & Hrun & Hal).
    rewrite (at_leaf_contents _ _ _ _ _ _ _ _ _ _ Hal), has_key_app in Hno. apply orb_false_iff in Hno as [_ Hno].
    destruct (at_leaf_sides _ _ _ _ _ _ _ _ _ _ Hal) as [Hl Hr]. destruct found.
    { destruct Hr as (x & l2' & -> & Hx & _). rewrite fmap_cons in Hno. cbn [app items_of] in Hno.
      unfold has_key in Hno. simpl in Hno. by rewrite Hx in Hno. }
    destruct (Hrun st) as (st1 & E & _ & Hpg & _); [by split_and!|].
    exists st1. split.
    + unfold delete_body, map_err, mbind, M_bind. rewrite E.
      unfold delete_entry_internal, leaf_remove_key, get_leaf, get_node, gets, mbind, M_bind.
      rewrite Hpg, (al_page _ _ _ _ _ _ _ _ _ _ Hal). simpl. by rewrite (al_lookup _ _ _ _ _ _ _ _ _ _ Hal).
    + pose proof (reads_find_leaf_internal OP_DELETE
        (λ its : list (Key A * Z), '(i, _) ← internal_lookup cmp its key; snd <$> at_z its i) st Hf) as Hread.
      unfold find_leaf in E. by rewrite E in Hread.
Qed.

Lemma delete_entry_ok reserved st l lsn (user_key : Key A) rid :
  index_ok key_comparator_ ok reserved st l → ok (make_key user_key rid) →
  let spec := spec_delete cmp (make_key user_key rid) l in
  ∃ st', delete_entry key_comparator_ lsn user_key rid st = Some (spec.1, st') ∧
    index_ok key_comparator_ ok reserved st' spec.2 ∧
    (spec.1 ≠ RC_SUCCESS → pages st' = pages st).
Proof using Type*.
  intros [Hf Hok] Hkey. cbv zeta. set (key := make_key user_key rid) in *.
  destruct (has_key cmp l key) eqn:Hhas.
  - destruct Hok as [Hh Hhr Hbp Hres Hho]. assert (Hok : env_ok key_comparator_ ok reserved (pages st) (env_of st) l) by done.
    destruct Hho as [(_ & _ & ->)|(T & HT & ->)]; [done|].
    destruct (delete_present (pages st) (env_of st) T key Hh Hhr eq_refl HT Hkey Hhas) as (pgs' & e' & Hrun & Haf).
    destruct (mini_transaction_ok lsn _ st pgs' e' Hf Hrun) as (st' & E & Hst').
    pose proof (after_released _ _ _ _ _ _ _ Hok Haf) as Hok'.
    assert (H1 : (spec_delete cmp key (items_of (marks T))).1 = RC_SUCCESS) by (unfold spec_delete; by rewrite Hhas).
    exists st'. rewrite H1. split; [exact E|]. split; [|done].
    destruct Hst' as (? & Hpg & Hhp & Hfh & Hbp' & _). split; [done|].
    unfold env_of. by rewrite Hpg, Hhp, Hfh, Hbp'.
  - unfold spec_delete. rewrite Hhas. cbn [fst snd].
    set (st0 := set_entries (set_disposed (set_memo st []) []) []).
    destruct (delete_missing reserved st0 l key) as (st1 & E & Hk); try done.
    eexists. split; [by eapply mini_transaction_read|]. done.
Qed.

(** C2: [delete_entry] refines removal from an ordered list: on an index with the contents [l] it
    always returns; an entry that is there is removed with [RC_SUCCESS], and the pages hold a
    well-formed tree again after any number of redistributions and coalescings up to the root,
    with the pages it gave up returned to the file; for an entry that is not there the code is
    [RC_RECORD_NOT_EXIST] and no page changes. *)
Theorem delete_entry_refines reserved st l lsn (user_key : Key A) rid :
  index_ok key_comparator_ ok reserved st l → ok (make_key user_key rid) →
  let spec := spec_delete cmp (make_key user_key rid) l in
  ∃ st', delete_entry key_comparator_ lsn user_key rid st = Some (spec.1, st') ∧
    index_ok key_comparator_ ok reserved st' spec.2 ∧
    (spec.1 ≠ RC_SUCCESS → pages st' = pages st).
Proof using Type*. apply delete_entry_ok. Qed.
End delete.

(** The last entry of an index, and one that is missing. *)
Lemma delete_entry_refines_witness :
  (∃ st', delete_entry ex_cmp (Some 1) ([20], mkRID 0 0) (mkRID 1 20) ex_leaf = Some (RC_SUCCESS, st') ∧
     index_ok ex_cmp ex_ok {[0; 1]} st' ((λ x, (ex_key x, mkRID 1 x)) <$> [10; 30; 40])) ∧
  ∃ st', delete_entry ex_cmp (Some 1) ([25], mkRID 0 0) (mkRID 1 25) ex_leaf = Some (RC_RECORD_NOT_EXIST, st').
Proof.
  split.
  - destruct (delete_entry_refines ex_cmp ex_zero_key ex_ok {[0; 1]} ex_leaf ex_items (Some 1) ([20], mkRID 0 0) (mkRID 1 20))
      as (st' & E & Hok & _); [apply ex_leaf_ok|by apply (ex_key_ok 20)|].
    exists st'. split; [exact E|exact Hok].
  - destruct (delete_entry_refines ex_cmp ex_zero_key ex_ok {[0; 1]} ex_leaf ex_items (Some 1) ([25], mkRID 0 0) (mkRID 1 25))
      as (st' & E & _); [apply ex_leaf_ok|by apply (ex_key_ok 25)|].
    exists st'. exact E.
Defined.
