(* ===== verification/BplusScanner.v ===== *)
(** * Range scans of the B+ tree ([BplusTreeScanner], [storage/index/bplus_tree.cpp])

    The scanner walks the linked leaves from the first key of the range.  Its operations are
    computations over the state of the tree; they return the result code, so that the loop of
    [get_entry] can test it, and the new scanner. *)
From stdpp Require Import sorting.
From S2P Require Import Prelude Rc BplusKey PageAlloc LowerBound BplusTree BplusGhost BplusWp BplusFind BplusInsert BplusInv BplusExample BplusInsertEntry.

(** [src/src/observer/storage/index/bplus_tree.h:788-800] [BplusTreeScanner] the members; the page
    stands for the frame *)
Record Scanner {A : Type} := mkScanner {
  inited_        : bool;
  current_frame_ : option Z;
  right_key_     : option (Key A);
  iter_index_    : Z;
  first_emitted_ : bool;
}.
#[global] Arguments Scanner : clear implicits.
#[global] Arguments mkScanner {A}.

Section scanner.
Context {A B : Type} `{PageAllocator B} (key_comparator_ : KeyComparator A).
#[local] Abbreviation cmp := (key_compare key_comparator_).
#[local] Abbreviation St := (State A B).
#[local] Abbreviation MM := (M St).
Implicit Types (s : Scanner A) (p : Z) (user_key key : Key A) (rid : RID).

Definition new_scanner : Scanner A := mkScanner false None None (-1) false.
Definition set_current s c : Scanner A :=
  mkScanner (inited_ s) c (right_key_ s) (iter_index_ s) (first_emitted_ s).
Definition set_iter s i : Scanner A :=
  mkScanner (inited_ s) (current_frame_ s) (right_key_ s) i (first_emitted_ s).

(** [src/src/observer/storage/index/bplus_tree.cpp:2141-2145] [BplusTreeScanner::fetch_item] *)
Definition fetch_item s : MM RID :=
  p ← of_option (current_frame_ s);
  '(_, _, l) ← get_leaf p;
  item ← of_option (at_z l (iter_index_ s));
  mret item.2.

(** [src/src/observer/storage/index/bplus_tree.cpp:2147-2159] [BplusTreeScanner::touch_end] *)
Definition touch_end s : MM bool :=
  match right_key_ s with
  | None => mret false
  | Some right_key =>
      p ← of_option (current_frame_ s);
      n ← get_node p;
      this_key ← of_option (key_at n (iter_index_ s));
      mret (0 <? cmp this_key right_key)
  end.

(** The position of the first item of the range; [None] is past the last leaf. *)
Definition open_left (left_user_key : option (Key A)) (left_inclusive : bool) : MM (option (Z * Z)) :=
  match left_user_key with
  | None => λ st,
      match left_most_page st with
      | Ok p st => Ok (Some (p, 0)) st
      | Err rc st => if decide (rc = RC_EMPTY) then Ok None st else Err rc st
      | Stuck => Stuck
      end
  | Some user_key =>
      let left_key := make_key user_key (if left_inclusive then RID_min else RID_max) in
      λ st,
      match find_leaf key_comparator_ OP_READ left_key st with
      | Err rc st => if decide (rc = RC_EMPTY) then Ok None st else Err rc st
      | Stuck => Stuck
      | Ok p st =>
          ('(_, next_page_num, l) ← get_leaf p;
           '(left_index, _) ← of_option (leaf_lookup cmp l left_key);
           if Z.of_nat (length l) <=? left_index then
             if next_page_num =? BP_INVALID_PAGE_NUM then release;; mret None
             else
               get_page next_page_num;;
               latch next_page_num LATCH_SHARED;;
               mret (Some (next_page_num, 0))
           else mret (Some (p, left_index))) st
      end
  end.

(** [src/src/observer/storage/index/bplus_tree.cpp:1985-2139] [BplusTreeScanner::open] *)
Definition scanner_open s (left_user_key : option (Key A)) (left_inclusive : bool)
    (right_user_key : option (Key A)) (right_inclusive : bool) : MM (RC * Scanner A) :=
  if inited_ s then mret (RC_INTERNAL, s)
  else
    let s := mkScanner true (current_frame_ s) (right_key_ s) (iter_index_ s) false in
    let invalid :=
      match left_user_key, right_user_key with
      | Some l, Some r =>
          let result := cmp l r in
          (0 <? result) || ((result =? 0) && (negb left_inclusive || negb right_inclusive))
      | _, _ => false
      end in
    if invalid then mret (RC_INVALID_ARGUMENT, s)
    else
      start ← open_left left_user_key left_inclusive;
      match start with
      | None => mret (RC_SUCCESS, set_current s None)
      | Some (p, index) =>
          let right_key :=
            (λ user_key, make_key user_key (if right_inclusive then RID_max else RID_min)) <$> right_user_key in
          let s := mkScanner true (Some p) right_key index false in
          ended ← touch_end s;
          mret (RC_SUCCESS, if ended : bool then set_current s None else s)
      end.

(** [src/src/observer/storage/index/bplus_tree.cpp:2161-2213] [BplusTreeScanner::next_entry] [fuel]
    bounds the pages skipped by the tail call *)
Fixpoint next_entry (fuel : nat) s : MM (RC * option RID * Scanner A) :=
  match fuel with
  | O => stuck
  | S fuel =>
      match current_frame_ s with
      | None => mret (RC_RECORD_EOF, None, s)
      | Some p =>
          if negb (first_emitted_ s) then
            rid ← fetch_item s;
            mret (RC_SUCCESS, Some rid, mkScanner (inited_ s) (current_frame_ s) (right_key_ s) (iter_index_ s) true)
          else
            let s := set_iter s (iter_index_ s + 1) in
            '(_, next_page_num, l) ← get_leaf p;
            if iter_index_ s <? Z.of_nat (length l) then
              ended ← touch_end s;
              if ended : bool then mret (RC_RECORD_EOF, None, s)
              else
                rid ← fetch_item s;
                mret (RC_SUCCESS, Some rid, s)
            else if BP_INVALID_PAGE_NUM =? next_page_num then mret (RC_RECORD_EOF, None, s)
            else
              st ← gets (λ st, st);
              let memo_point := length (memo st) in
              get_page next_page_num;;
              latch next_page_num LATCH_SHARED;;
              release_to memo_point;;
              next_entry fuel (set_iter (set_current s (Some next_page_num)) (-1))
      end
  end.

(** The loop of [get_entry]: the positions and the code that ended it. *)
Fixpoint scan_loop (fuel : nat) s : MM (RC * list RID) :=
  match fuel with
  | O => stuck
  | S fuel =>
      st ← gets (λ st, st);
      '(rc, rid, s) ← next_entry (depth_fuel st) s;
      match rid with
      | Some rid => '(rc, rids) ← scan_loop fuel s; mret (rc, rid :: rids)
      | None => mret (rc, [])
      end
  end.

(** [src/src/observer/storage/index/bplus_tree.cpp:1688-1716] [BplusTreeHandler::get_entry] [fuel]
    bounds the number of entries *)
Definition get_entry (fuel : nat) user_key : MM (RC * list RID) :=
  '(rc, s) ← scanner_open new_scanner (Some user_key) true (Some user_key) true;
  if decide (rc = RC_SUCCESS) then
    '(rc, rids) ← scan_loop fuel s;
    mret (if decide (rc = RC_RECORD_EOF) then RC_SUCCESS else rc, rids)
  else mret (rc, []).
End scanner.

(** ** The linked leaves *)
Section linked.
Context {A : Type}.
Implicit Types (t T : tree A) (pgs : gmap Z (Node A)) (ctx : list (frame A)).
Implicit Types (suf : list (Z * list (Key A * RID))).

(** The leaves in order, with their items. *)
Fixpoint lleaves t : list (Z * list (Key A * RID)) :=
  match t with
  | TLeaf p l => [(p, l)]
  | TNode _ kids => concat (map (λ kt, lleaves kt.2) kids)
  end.

Fixpoint linked pgs suf : Prop :=
  match suf with
  | [] => True
  | (p, l) :: rest =>
      l ≠ [] ∧ (∃ par, pgs !! p = Some (LeafNode par (head_or rest.*1) l)) ∧ linked pgs rest
  end.

Definition klleaves (kids : list (Key A * tree A)) := concat (map (λ kt, lleaves kt.2) kids).

Lemma klleaves_app k1 k2 : klleaves (k1 ++ k2) = klleaves k1 ++ klleaves k2.
Proof. unfold klleaves. by rewrite map_app, concat_app. Qed.

Lemma lleaves_fst t : (lleaves t).*1 = leaves t.
Proof.
  induction t as [p l|p kids IH] using tree_ind'; [done|]. simpl.
  induction IH as [|[k t] kids Hk _ IHk]; [done|]. simpl in *. by rewrite fmap_app, Hk, IHk.
Qed.

Lemma lleaves_snd t : concat (lleaves t).*2 = items_of (marks t).
Proof.
  induction t as [p l|p kids IH] using tree_ind'.
  - cbn [lleaves fmap list_fmap snd concat marks]. by rewrite app_nil_r, items_of_items.
  - rewrite marks_node. assert (Htail : items_of (tail (kmarks kids)) = items_of (kmarks kids)) by (by destruct kids as [|[]]).
    rewrite Htail. change (lleaves (TNode p kids)) with (klleaves kids). clear Htail.
    induction IH as [|[k t] kids Hk _ IHk]; [done|]. rewrite kmarks_cons. cbn [items_of].
    change (klleaves ((k, t) :: kids)) with (lleaves t ++ klleaves kids).
    rewrite fmap_app, concat_app, items_of_app, IHk. cbn [snd] in Hk. by rewrite Hk.
Qed.

Lemma lleaves_page pgs par t p l :
  repr pgs par t → (p, l) ∈ lleaves t → ∃ par' nx, pgs !! p = Some (LeafNode par' nx l).
Proof.
  revert par. induction t as [q l'|q kids IH] using tree_ind'; intros par.
  - intros [nx Hp] Hin%list_elem_of_singleton. injection Hin as -> ->. eauto.
  - intros [_ Hk]%repr_node Hin. change (lleaves (TNode q kids)) with (klleaves kids) in Hin.
    clear par. induction kids as [|[k t] kids IHk]; [by apply not_elem_of_nil in Hin|].
    apply Forall_cons in IH as [IH1 IH2]. apply Forall_cons in Hk as [Hk1 Hk2].
    change (klleaves ((k, t) :: kids)) with (lleaves t ++ klleaves kids) in Hin.
    apply elem_of_app in Hin as [Hin|Hin]; [by eapply IH1 | by apply IHk].
Qed.

Lemma lleaves_inhabited hd t p l : hdr_wf hd → occ hd t → (p, l) ∈ lleaves t → l ≠ [].
Proof.
  intros Hh. pose proof (min_of_bounds (leaf_max_size hd)). destruct Hh.
  induction t as [q l'|q kids IH] using tree_ind'.
  - intros Ho Hin%list_elem_of_singleton. injection Hin as -> ->. cbn [occ] in Ho. intros ->. simpl in Ho. lia.
  - intros [_ Hk]%occ_node Hin. change (lleaves (TNode q kids)) with (klleaves kids) in Hin.
    induction kids as [|[k t] kids IHk]; [by apply not_elem_of_nil in Hin|].
    apply Forall_cons in IH as [IH1 IH2]. apply Forall_cons in Hk as [Hk1 Hk2].
    change (klleaves ((k, t) :: kids)) with (lleaves t ++ klleaves kids) in Hin.
    apply elem_of_app in Hin as [Hin|Hin]; [by apply IH1 | by apply IHk].
Qed.

Lemma root_lleaves_inhabited hd t p l : hdr_wf hd → root_occ hd t → (p, l) ∈ lleaves t → l ≠ [].
Proof.
  intros Hh. destruct t as [q l'|q kids].
  - intros Ho Hin%list_elem_of_singleton. injection Hin as -> ->. intros ->. simpl in Ho. lia.
  - intros [_ Hk] Hin. change (lleaves (TNode q kids)) with (klleaves kids) in Hin.
    induction Hk as [|[k t] kids Hk1 _ IHk]; [by apply not_elem_of_nil in Hin|].
    change (klleaves ((k, t) :: kids)) with (lleaves t ++ klleaves kids) in Hin.
    apply elem_of_app in Hin as [Hin|Hin]; [by eapply lleaves_inhabited | by apply IHk].
Qed.

Lemma linked_intro pgs suf :
  (∀ p l, (p, l) ∈ suf → l ≠ [] ∧ ∃ par nx, pgs !! p = Some (LeafNode par nx l)) →
  chain pgs suf.*1 → linked pgs suf.
Proof.
  induction suf as [|[p l] suf IH]; [done|]. intros Hp [Hn Hch]. cbn [fst] in *.
  destruct (Hp p l (list_elem_of_here _ _)) as (Hne & par & nx & Hpg). split; [done|]. split.
  - exists par. unfold next_of in Hn. rewrite Hpg in Hn. injection Hn as ->. exact Hpg.
  - apply IH; [|done]. intros q l' Hin. apply Hp. by apply list_elem_of_further.
Qed.

Lemma linked_suffix pgs pre suf : linked pgs (pre ++ suf) → linked pgs suf.
Proof. induction pre as [|[p l] pre IH]; [done|]. intros (_ & _ & Hl). by apply IH. Qed.

(** The leaves before and after a leaf. *)
Lemma lleaves_plug ctx :
  ∃ pre post, (∀ t, lleaves (plug ctx t) = pre ++ lleaves t ++ post) ∧
    concat pre.*2 = items_of (cpre ctx) ∧ concat post.*2 = items_of (cpost ctx).
Proof.
  induction ctx as [|f ctx (pre & post & Hp & Hpre & Hpost)].
  - exists [], []. split_and!; try done. intros t. by rewrite app_nil_r.
  - exists (pre ++ klleaves (fl f)), (klleaves (fr f) ++ post). 
    assert (Hkl : ∀ kids, concat (klleaves kids).*2 = items_of (kmarks kids)).
    { intros kids. pose proof (lleaves_snd (TNode 0 kids)) as Hs. rewrite marks_node in Hs.
      change (lleaves (TNode 0 kids)) with (klleaves kids) in Hs. rewrite Hs. by destruct kids as [|[]]. }
    split_and!.
    + intros t. cbn [plug]. rewrite Hp. unfold fill. change (lleaves (TNode ?q ?l)) with (klleaves l).
      rewrite klleaves_app. change (klleaves ((fk f, t) :: fr f)) with (lleaves t ++ klleaves (fr f)).
      by rewrite <- !app_assoc.
    + cbn [cpre]. rewrite fmap_app, concat_app, items_of_app, Hpre, Hkl. f_equal. unfold fpre.
      destruct (fl f) as [|[k t] L]; [done|]. rewrite items_of_app. cbn [items_of]. by rewrite app_nil_r.
    + cbn [cpost]. by rewrite fmap_app, concat_app, items_of_app, Hkl, Hpost.
Qed.
End linked.

(** ** The scan *)
Section scan.
Context {A B : Type} `{PageAllocator B} (key_comparator_ : KeyComparator A) (zero_key : Key A).
Context (ok : Key A → Prop) `{!TotalCompare (key_compare key_comparator_) ok}.
#[local] Abbreviation cmp := (key_compare key_comparator_).
#[local] Abbreviation Pages := (gmap Z (Node A)).
#[local] Abbreviation St := (State A B).
#[local] Abbreviation MM := (M St).
Implicit Types (pgs : Pages) (e : env (B := B)) (T t : tree A) (st : St) (s : Scanner A).
Implicit Types (l rem : list (Key A * RID)) (suf : list (Z * list (Key A * RID))).

Definition ended (rk : option (Key A)) (i : Key A * RID) : bool :=
  match rk with None => false | Some rk => 0 <? cmp i.1 rk end.

(** The scanner stands at an item of a leaf (or before the first); [rem] are the items after. *)
Definition scanner_at pgs rk s rem : Prop :=
  ∃ p l rest i, current_frame_ s = Some p ∧ right_key_ s = rk ∧ iter_index_ s = i ∧
    linked pgs ((p, l) :: rest) ∧ Forall (λ q, 0 ≤ q) rest.*1 ∧ (length rest ≤ base.size pgs)%nat ∧
    -1 ≤ i < Z.of_nat (length l) ∧ rem = drop (Z.to_nat (i + 1)) l ++ concat rest.*2.

Definition emitted s : Scanner A :=
  mkScanner (inited_ s) (current_frame_ s) (right_key_ s) (iter_index_ s) true.

Lemma runs_touch_end s pgs e p par nx l i x rk :
  current_frame_ s = Some p → right_key_ s = rk → iter_index_ s = Z.of_nat i →
  pgs !! p = Some (LeafNode par nx l) → l !! i = Some x →
  runs (B := B) (touch_end key_comparator_ s) pgs e (ended rk x) pgs e.
Proof.
  intros Hc Hrk Hi Hp Hx. unfold touch_end. rewrite Hrk. destruct rk as [rk|]; [|apply runs_ret].
  rewrite Hc. eapply runs_bind; [apply runs_of_option; reflexivity|].
  eapply runs_bind; [by apply runs_get_node|].
  eapply runs_bind; [apply (runs_of_option _ x.1)|apply runs_ret].
  simpl. unfold at_z. by rewrite Hi, (proj2 (Z.leb_le _ _)), Nat2Z.id, Hx by lia.
Qed.

Lemma runs_fetch_item s pgs e p par nx l i x :
  current_frame_ s = Some p → iter_index_ s = Z.of_nat i →
  pgs !! p = Some (LeafNode par nx l) → l !! i = Some x →
  runs (B := B) (fetch_item s) pgs e x.2 pgs e.
Proof.
  intros Hc Hi Hp Hx. unfold fetch_item. rewrite Hc.
  eapply runs_bind; [apply runs_of_option; reflexivity|].
  eapply runs_bind; [by eapply runs_get_leaf|].
  eapply runs_bind; [apply (runs_of_option _ x)|apply runs_ret].
  unfold at_z. by rewrite Hi, (proj2 (Z.leb_le _ _)), Nat2Z.id, Hx by lia.
Qed.

Lemma runs_release_to pgs e {U} (m : MM U) y pgs' e' :
  runs m pgs e y pgs' e' →
  ∀ st, in_state st pgs e → ∀ n st1, n = length (memo st) → (length (memo st) ≤ length (memo st1))%nat →
  in_state st1 pgs e → ∃ st', (release_to n;; m) st1 = Ok y st' ∧ in_state st' pgs' e'.
Proof.
  intros Hm st Hst n st1 -> Hle Hst1.
  unfold release_to, gets, assert_, modify, mbind, M_bind, mret, M_ret. rewrite (proj2 (Nat.leb_le _ _)) by done.
  apply Hm. by destruct Hst1 as (? & ? & ? & ? & ? & ?).
Qed.

(** Turning to the next leaf. *)
Lemma runs_next_page p n pgs e {U} (m : MM U) y pgs' e' :
  pgs !! p = Some n → runs m pgs e y pgs' e' →
  runs (st ← gets (λ st, st);
        let memo_point := length (memo st) in
        get_page p;; latch p LATCH_SHARED;; release_to memo_point;; m) pgs e y pgs' e'.
Proof.
  intros Hp Hm st Hst. pose proof Hst as (Hf & Hpg & Hh1 & Hh2 & Hbp & Hd).
  unfold get_page, page_fault, get_node, latch, gets, push_memo, modify, of_option, mbind, M_bind, mret, M_ret.
  rewrite Hf, Hpg, Hp. cbn.
  apply (runs_release_to pgs e m y pgs' e' Hm st Hst); [done| |by split_and!].
  cbn. rewrite !length_app. lia.
Qed.

(** The next entry is in the leaf. *)
Lemma next_in_leaf pgs e fuel s p par nx l i x rk :
  current_frame_ s = Some p → right_key_ s = rk → iter_index_ s = i → first_emitted_ s = true →
  pgs !! p = Some (LeafNode par nx l) → -1 ≤ i → l !! Z.to_nat (i + 1) = Some x →
  runs (B := B) (next_entry key_comparator_ (S fuel) s) pgs e
    (if ended rk x then (RC_RECORD_EOF, None, set_iter s (i + 1))
     else (RC_SUCCESS, Some x.2, set_iter s (i + 1))) pgs e.
Proof.
  intros Hc Hrk Hi Hfe Hp Hir Hx. cbn [next_entry]. rewrite Hc, Hfe. cbn [negb].
  eapply runs_bind; [by eapply runs_get_leaf|]. cbv beta iota zeta.
  pose proof (lookup_lt_Some _ _ _ Hx) as Hlt.
  assert (Hi1 : iter_index_ (set_iter s (i + 1)) = Z.of_nat (Z.to_nat (i + 1))) by (simpl; lia).
  rewrite Hi. rewrite Hi1 at 1. rewrite (proj2 (Z.ltb_lt _ _)) by lia.
  eapply runs_bind; [by eapply (runs_touch_end (set_iter s (i + 1)))|].
  destruct (ended rk x); [apply runs_ret|].
  eapply runs_bind; [by eapply (runs_fetch_item (set_iter s (i + 1)))|apply runs_ret].
Qed.

(** The leaf is exhausted. *)
Lemma next_past_leaf pgs e fuel s p par nx l i y :
  current_frame_ s = Some p → iter_index_ s = i → first_emitted_ s = true →
  pgs !! p = Some (LeafNode par nx l) → Z.of_nat (length l) ≤ i + 1 →
  (if nx =? BP_INVALID_PAGE_NUM then y = (RC_RECORD_EOF, None, set_iter s (i + 1))
   else is_Some (pgs !! nx) ∧
        runs (B := B) (next_entry key_comparator_ fuel (set_iter (set_current (set_iter s (i + 1)) (Some nx)) (-1))) pgs e y pgs e) →
  runs (B := B) (next_entry key_comparator_ (S fuel) s) pgs e y pgs e.
Proof.
  intros Hc Hi Hfe Hp Hout Hy. cbn [next_entry]. rewrite Hc, Hfe. cbn [negb].
  eapply runs_bind; [by eapply runs_get_leaf|]. cbv beta iota zeta.
  rewrite Hi. cbn [set_iter iter_index_]. rewrite (proj2 (Z.ltb_ge _ _)) by lia. rewrite Z.eqb_sym.
  destruct (nx =? BP_INVALID_PAGE_NUM); [subst y; apply runs_ret|].
  destruct Hy as [[n Hn] Hrun]. by eapply runs_next_page.
Qed.

(** The next entry of the range, or its end. *)
Lemma next_entry_spec pgs e rk rest : ∀ fuel s rem p l i,
  current_frame_ s = Some p → right_key_ s = rk → iter_index_ s = i → first_emitted_ s = true →
  linked pgs ((p, l) :: rest) → Forall (λ q, 0 ≤ q) rest.*1 → (length rest ≤ base.size pgs)%nat →
  -1 ≤ i < Z.of_nat (length l) → rem = drop (Z.to_nat (i + 1)) l ++ concat rest.*2 → (length rest < fuel)%nat →
  ∃ s',
    match rem with
    | [] => runs (B := B) (next_entry key_comparator_ fuel s) pgs e (RC_RECORD_EOF, None, s') pgs e
    | x :: rem' =>
        if ended rk x then runs (B := B) (next_entry key_comparator_ fuel s) pgs e (RC_RECORD_EOF, None, s') pgs e
        else runs (B := B) (next_entry key_comparator_ fuel s) pgs e (RC_SUCCESS, Some x.2, s') pgs e ∧
             scanner_at pgs rk s' rem' ∧ first_emitted_ s' = true
    end.
Proof.
  induction rest as [|[q lq] rest IH]; intros fuel s rem p l i Hc Hrk Hi Hfe Hlk Hpos Hsz Hir Hrem Hfuel;
    (destruct fuel as [|fuel]; [simpl in Hfuel; lia|]);
    pose proof Hlk as (Hne & [par Hp] & Hlk');
    (destruct (Z.ltb_spec (i + 1) (Z.of_nat (length l))) as [Hin|Hout];
    [ (destruct (lookup_lt_is_Some_2 l (Z.to_nat (i + 1))) as [x Hx]; [lia|]);
      rewrite (drop_S l x _ Hx) in Hrem; cbn [app] in Hrem; rewrite Hrem;
      exists (set_iter s (i + 1));
      pose proof (next_in_leaf pgs e fuel s p par _ l i x rk Hc Hrk Hi Hfe Hp (proj1 Hir) Hx) as Hrun;
      destruct (ended rk x); [exact Hrun|]; split_and!; [exact Hrun| |done];
      eexists p, l, _, (i + 1); split_and!; try done; [lia..|];
      by replace (Z.to_nat (i + 1 + 1)) with (S (Z.to_nat (i + 1))) by lia
    | rewrite drop_ge in Hrem by lia; cbn [app] in Hrem ]).
  - subst rem. exists (set_iter s (i + 1)). eapply next_past_leaf; try done.
  - apply Forall_cons in Hpos as [Hq Hpos]. cbn [fst] in Hq. cbn [head_or fmap list_fmap fst] in Hp.
    pose proof Hlk' as (Hneq & [parq Hpq] & _).
    destruct (IH fuel (set_iter (set_current (set_iter s (i + 1)) (Some q)) (-1)) rem q lq (-1)) as (s' & Hs'); try done.
    { simpl in Hsz. lia. }
    { destruct lq; [done|]. simpl. lia. }
    { simpl in Hfuel. lia. }
    exists s'. assert (Hgo : ∀ y, runs (B := B) (next_entry key_comparator_ fuel
          (set_iter (set_current (set_iter s (i + 1)) (Some q)) (-1))) pgs e y pgs e →
        runs (B := B) (next_entry key_comparator_ (S fuel) s) pgs e y pgs e).
    { intros y Hy. eapply next_past_leaf; try done.
      rewrite (proj2 (Z.eqb_neq _ _)) by (unfold BP_INVALID_PAGE_NUM; lia). eauto. }
    destruct rem as [|x rem']; [by apply Hgo|]. destruct (ended rk x); [by apply Hgo|].
    destruct Hs' as (Hrun & ? & ?). split_and!; try done. by apply Hgo.
Qed.

(** The items up to the end of the range. *)
Fixpoint until (rk : option (Key A)) l : list (Key A * RID) :=
  match l with [] => [] | x :: l => if ended rk x then [] else x :: until rk l end.

Lemma scan_loop_spec pgs e rk rem : ∀ fuel s,
  scanner_at pgs rk s rem → first_emitted_ s = true → (length rem < fuel)%nat →
  runs (B := B) (scan_loop key_comparator_ fuel s) pgs e (RC_RECORD_EOF, (until rk rem).*2) pgs e.
Proof.
  induction rem as [|x rem IH]; intros fuel s Hat Hfe Hfuel;
    (destruct fuel as [|fuel]; [simpl in Hfuel; lia|]);
    pose proof Hat as (p & l & rest & i & Hc & Hrk & Hi & Hlk & Hpos & Hsz & Hir & Hrem);
    (destruct (next_entry_spec pgs e rk rest (S (base.size pgs)) s _ p l i Hc Hrk Hi Hfe Hlk Hpos Hsz Hir Hrem) as (s' & Hs'); [lia|]);
    cbn [scan_loop until]; apply runs_gets; intros st (_ & Hpg & _); unfold depth_fuel; rewrite Hpg.
  - eapply runs_bind; [exact Hs'|]. apply runs_ret.
  - destruct (ended rk x).
    + eapply runs_bind; [exact Hs'|]. apply runs_ret.
    + destruct Hs' as (Hrun & Hat' & Hfe'). eapply runs_bind; [exact Hrun|].
      cbv beta iota. eapply runs_bind; [apply (IH fuel s' Hat' Hfe'); simpl in Hfuel; lia|]. apply runs_ret.
Qed.

(** From the first item of the range. *)
Lemma scan_from_start pgs e rk fuel s p l rest i :
  current_frame_ s = Some p → right_key_ s = rk → iter_index_ s = Z.of_nat i → first_emitted_ s = false →
  linked pgs ((p, l) :: rest) → Forall (λ q, 0 ≤ q) rest.*1 → (length rest ≤ base.size pgs)%nat →
  (i < length l)%nat → (length (drop i l ++ concat rest.*2) < fuel)%nat →
  runs (B := B) (ended ← touch_end key_comparator_ s;
        scan_loop key_comparator_ fuel (if ended : bool then set_current s None else s)) pgs e
    (RC_RECORD_EOF, (until rk (drop i l ++ concat rest.*2)).*2) pgs e.
Proof.
  intros Hc Hrk Hi Hfe Hlk Hpos Hsz Hil Hfuel. destruct (lookup_lt_is_Some_2 l i Hil) as [x Hx].
  pose proof Hlk as (_ & [par Hp] & _). rewrite (drop_S l x _ Hx) in *. cbn [app length until] in *.
  eapply runs_bind; [by eapply runs_touch_end|].
  destruct fuel as [|fuel]; [lia|]. cbn [scan_loop]. apply runs_gets. intros st (_ & Hpg & _).
  unfold depth_fuel. destruct (ended rk x).
  - eapply runs_bind; [apply runs_ret|]. apply runs_ret.
  - eapply runs_bind with (x := (RC_SUCCESS, Some x.2, emitted s)).
    { cbn [next_entry]. rewrite Hc, Hfe. cbn [negb]. eapply runs_bind; [by eapply runs_fetch_item|].
      unfold emitted. rewrite Hc. apply runs_ret. }
    cbv beta iota. eapply runs_bind; [apply scan_loop_spec; [|done|]|apply runs_ret]; [|lia].
    exists p, l, rest, (Z.of_nat i). split_and!; try done; [lia|lia|].
    by replace (Z.to_nat (Z.of_nat i + 1)) with (S i) by lia.
Qed.

(** *** The start of the range *)
Definition from (lk : option (Key A)) (i : Key A * RID) : bool :=
  match lk with None => true | Some lk => 0 <=? cmp i.1 lk end.

Lemma left_most_search T pgs e :
  hdr_wf (e_fh e) → tree_ok key_comparator_ ok (e_fh e) pgs T →
  ∃ ctx p l, runs (B := B) left_most_page pgs e p pgs e ∧ T = plug ctx (TLeaf p l) ∧ cpre ctx = [].
Proof.
  intros Hh HT. destruct (to_bal _ _ _ _ _ HT) as [h Hb].
  pose proof (root_occ_inhabited _ _ Hh (to_occ _ _ _ _ _ HT)) as Hi.
  pose proof (to_repr _ _ _ _ _ HT) as Hr. pose proof (to_root _ _ _ _ _ HT) as Hroot.
  pose proof (tree_ok_root_valid _ _ _ _ _ HT) as Hne. pose proof (tree_ok_size _ _ _ _ _ HT) as Hsz.
  set (P := λ (ctx : list (frame A)) t, inhabited_kids t ∧ plug ctx t = T ∧ cpre ctx = []).
  pose proof (bal_depth _ _ Hb Hi) as Hdepth.
  destruct (runs_find_leaf_loop (B := B) OP_READ (λ its : list (Key A * Z), snd <$> at_z its 0) (S (base.size pgs)) T h pgs e
    BP_INVALID_PAGE_NUM [] P) as (ctx & p & l & Hrun & Hplug & _ & HP & Hc); try done; [lia| |].
  - intros ctx p kids ((Hne' & Hik) & Hpl & Hc).
    rewrite (foldr_Forall (λ kt, inhabited_kids kt.2)) in Hik. destruct kids as [|[k t] kids]; [done|].
    exists [], k, t, kids. split_and!; try done.
    split_and!; [by apply Forall_cons in Hik as [? _]|done|].
    cbn [cpre]. by rewrite Hc.
  - exists ctx, p, l. split; [|done]. unfold left_most_page, find_leaf_internal.
    eapply runs_bind; [apply runs_push_memo|]. apply runs_gets. intros st (Hf & Hpg & _ & Hfh & _).
    unfold is_empty. rewrite Hfh, Hroot, (proj2 (Z.eqb_neq _ _)) by done.
    destruct (repr_root _ _ _ Hr) as (n & Hn & _).
    eapply runs_bind; [by eapply runs_crabing|]. unfold depth_fuel. rewrite Hpg. exact Hrun.
Qed.

(** The leaves of a tree are linked. *)
Lemma tree_linked hd pgs T :
  hdr_wf hd → tree_ok key_comparator_ ok hd pgs T → linked pgs (lleaves T).
Proof.
  intros Hh HT. apply linked_intro.
  - intros p l Hin. split; [eapply root_lleaves_inhabited; try done; apply HT|].
    eapply lleaves_page; [apply HT | done].
  - rewrite lleaves_fst. apply HT.
Qed.

Lemma lleaves_pages hd pgs T pre suf :
  tree_ok key_comparator_ ok hd pgs T → lleaves T = pre ++ suf →
  Forall (λ q, 0 ≤ q) suf.*1 ∧ (length suf ≤ base.size pgs)%nat.
Proof.
  intros HT Heq. assert (Hsub : ∀ q, q ∈ suf.*1 → q ∈ pids T).
  { intros q Hq. apply leaves_pids. rewrite <- lleaves_fst, Heq, fmap_app. apply elem_of_app. by right. }
  split.
  - pose proof (to_pos _ _ _ _ _ HT) as Hpos. rewrite Forall_forall in Hpos. rewrite Forall_forall. auto.
  - rewrite (tree_ok_size _ _ _ _ _ HT), <- (length_fmap fst suf). 
    apply submseteq_length, NoDup_submseteq; [|done].
    assert (Hnd : NoDup (leaves T)).
    { pose proof (to_nodup _ _ _ _ _ HT) as Hnd. clear -Hnd. induction T as [p l|p kids IH] using tree_ind'; [done|].
      change (leaves (TNode p kids)) with (kleaves kids). change (pids (TNode p kids)) with (p :: kpids kids) in Hnd.
      apply NoDup_cons in Hnd as [_ Hnd]. induction IH as [|[k t] kids Hk _ IHk]; [constructor|].
      rewrite kpids_cons in Hnd. rewrite kleaves_cons. apply NoDup_app in Hnd as (H1 & H2 & H3).
      apply NoDup_app. split_and!; [by apply Hk| |by apply IHk].
      intros q Hq%leaves_pids Hq2%kleaves_pids. by apply (H2 q). }
    rewrite <- lleaves_fst, Heq, fmap_app in Hnd. by apply NoDup_app in Hnd as (_ & _ & ?).
Qed.

(** What the search for the start of the range finds. *)
Definition start_at pgs lk l (start : option (Z * Z)) : Prop :=
  match start with
  | None => List.filter (from lk) l = []
  | Some (p, index) => ∃ l0 rest i, index = Z.of_nat i ∧ linked pgs ((p, l0) :: rest) ∧
      Forall (λ q, 0 ≤ q) rest.*1 ∧ (length rest ≤ base.size pgs)%nat ∧ (i < length l0)%nat ∧
      List.filter (from lk) l = drop i l0 ++ concat rest.*2
  end.

Lemma runs_release pgs e : e_disp e = [] → runs (B := B) (A := A) release pgs e tt pgs e.
Proof.
  intros Hd st (? & Hpg & ? & ? & Hbp & Hdi). eexists. split; [done|]. rewrite Hdi, Hd. simpl.
  split_and!; simpl; rewrite ?Hdi, ?Hd; done.
Qed.

Definition left_key (left_user_key : option (Key A)) (left_inclusive : bool) : option (Key A) :=
  (λ k, make_key k (if left_inclusive then RID_min else RID_max)) <$> left_user_key.

Lemma from_left l key : Forall (λ i, cmp i.1 key < 0) l → List.filter (from (Some key)) l = [].
Proof. intros Hl. apply filter_none. eapply Forall_impl; [exact Hl|]. intros i Hi. apply Z.leb_gt, Hi. Qed.
Lemma from_right l key : Forall (λ i, 0 ≤ cmp i.1 key) l → List.filter (from (Some key)) l = l.
Proof. intros Hl. apply filter_all. eapply Forall_impl; [exact Hl|]. intros i Hi. by apply Z.leb_le. Qed.

(** The leaf of a search and the leaves after it. *)
Lemma at_leaf_from hd pgs T key ctx p nx l1 l2 found :
  hdr_wf hd → tree_ok key_comparator_ ok hd pgs T → at_leaf key_comparator_ pgs T key ctx p nx l1 l2 found →
  ∃ post, linked pgs ((p, l1 ++ l2) :: post) ∧ Forall (λ q, 0 ≤ q) post.*1 ∧
    (length post ≤ base.size pgs)%nat ∧ nx = head_or post.*1 ∧
    List.filter (from (Some key)) (items_of (marks T)) = l2 ++ concat post.*2.
Proof.
  intros Hh HT Hal. destruct (lleaves_plug ctx) as (pre & post & Hlp & Hpre & Hpost).
  pose proof (tree_linked _ _ _ Hh HT) as Hlk. pose proof (al_tree _ _ _ _ _ _ _ _ _ _ Hal) as HTp.
  assert (Hll : lleaves T = pre ++ (p, l1 ++ l2) :: post) by (rewrite HTp, Hlp; done).
  rewrite Hll in Hlk. apply linked_suffix in Hlk.
  destruct (lleaves_pages _ _ _ _ _ HT Hll) as [Hpos Hsz].
  apply Forall_cons in Hpos as [_ Hpos]. cbn [length] in Hsz.
  exists post. split_and!; [done|done|lia| |].
  - destruct Hlk as (_ & [par Hp] & _). pose proof (al_page _ _ _ _ _ _ _ _ _ _ Hal). congruence.
  - rewrite (at_leaf_contents _ _ _ _ _ _ _ _ _ _ Hal), List.filter_app.
    destruct (at_leaf_sides _ _ _ _ _ _ _ _ _ _ Hal) as [Hl Hr].
    rewrite (from_left _ _ Hl), from_right.
    + rewrite items_of_app, items_of_items. cbn [app]. by rewrite <- Hpost.
    + destruct found.
      * destruct Hr as (x & l2' & -> & Hx & Hr). rewrite fmap_cons. cbn [app items_of].
        constructor; [lia|]. eapply Forall_impl; [exact Hr|]. simpl; lia.
      * eapply Forall_impl; [exact Hr|]. simpl; lia.
Qed.

Lemma runs_op_bind_ok {U V} (m : MM U) (f : RC → MM V) (g : U → MM V) pgs e x y pgs1 e1 pgs2 e2 :
  runs m pgs e x pgs1 e1 → runs (g x) pgs1 e1 y pgs2 e2 →
  runs (λ st, match m st with Ok x st => g x st | Err rc st => f rc st | Stuck => Stuck end) pgs e y pgs2 e2.
Proof. intros Hm Hg st Hst. destruct (Hm st Hst) as (st1 & -> & Hst1). by apply Hg. Qed.

Lemma find_leaf_internal_empty op getter pgs e st :
  in_state st pgs e → root_page (e_fh e) = BP_INVALID_PAGE_NUM →
  ∃ st', find_leaf_internal op getter st = Err RC_EMPTY st' ∧ in_state st' pgs e.
Proof.
  intros Hst Hroot. unfold find_leaf_internal, latch_root, push_memo, modify, gets, mbind, M_bind, is_empty. cbn.
  destruct Hst as (? & ? & ? & Hfh & ? & ?). rewrite Hfh, Hroot, Z.eqb_refl. eexists. by split_and!.
Qed.

Lemma open_left_spec reserved pgs e l left li :
  env_ok key_comparator_ ok reserved pgs e l → e_disp e = [] →
  (∀ k, left_key left li = Some k → ok k) →
  ∃ start, runs (open_left key_comparator_ left li) pgs e start pgs e ∧
    start_at pgs (left_key left li) l start.
Proof using Type*.
  intros [Hh _ _ _ [(Hroot & -> & ->)|(T & HT & ->)]] Hd Hk.
  - exists None. split; [|by destruct left]. intros st Hst. unfold open_left.
    destruct left as [k|]; [unfold find_leaf|unfold left_most_page];
      (edestruct find_leaf_internal_empty as (st' & -> & Hst'); [done|done|];
       rewrite decide_True by done; by exists st').
  - destruct left as [k|].
    + destruct (tree_search key_comparator_ zero_key ok OP_READ _ T pgs e Hh HT (Hk _ eq_refl))
        as (ctx & p & nx & l1 & l2 & found & Hrun & Hal).
      destruct (at_leaf_from _ _ _ _ _ _ _ _ _ _ Hh HT Hal) as (post & Hlk & Hpos & Hsz & -> & Hfrom).
      set (start := match l2, post with
        | [], [] => None | [], (q, _) :: _ => Some (q, 0) | _, _ => Some (p, Z.of_nat (length l1)) end).
      exists start. split.
      * eapply runs_op_bind_ok; [exact Hrun|].
        eapply runs_bind; [eapply runs_get_leaf, al_page, Hal|].
        eapply runs_bind; [apply runs_of_option, (al_lookup _ _ _ _ _ _ _ _ _ _ Hal)|].
        cbv beta iota. rewrite length_app. destruct l2 as [|x l2]; cbn [length].
        { rewrite (proj2 (Z.leb_le _ _)) by lia. destruct post as [|[q lq] post]; cbn [head_or fmap list_fmap fst].
          - rewrite Z.eqb_refl. eapply runs_bind; [by apply runs_release|apply runs_ret].
          - apply Forall_cons in Hpos as [Hq _]. cbn [fst] in Hq.
            rewrite (proj2 (Z.eqb_neq _ _)) by (unfold BP_INVALID_PAGE_NUM; lia).
            destruct Hlk as (_ & _ & _ & [par Hpq] & _).
            eapply runs_bind; [by eapply runs_get_page|]. eapply runs_bind; [by apply runs_latch|]. apply runs_ret. }
        rewrite (proj2 (Z.leb_gt _ _)) by lia. apply runs_ret.
      * unfold start_at. change (left_key (Some k) li) with (Some (make_key k (if li then RID_min else RID_max))).
        rewrite Hfrom. subst start. destruct l2 as [|x l2]; [destruct post as [|[q lq] post]|].
        -- done.
        -- destruct Hlk as (_ & _ & Hlk). apply Forall_cons in Hpos as [_ Hpos]. cbn [length] in Hsz.
           exists lq, post, 0%nat. split_and!; try done; [lia|]. destruct Hlk as (Hne & _). destruct lq; [done|simpl; lia].
        -- exists (l1 ++ x :: l2), post, (length l1). split_and!; try done; [rewrite length_app; simpl; lia|].
           by rewrite drop_app_length.
    + destruct (left_most_search T pgs e Hh HT) as (ctx & p & l & Hrun & HTp & Hpre).
      exists (Some (p, 0)). split; [eapply runs_op_bind_ok; [exact Hrun|]; apply runs_ret|].
      destruct (lleaves_plug ctx) as (pre & post & Hlp & Hcpre & Hpost).
      pose proof (tree_linked _ _ _ Hh HT) as Hlk.
      assert (Hll : lleaves T = pre ++ (p, l) :: post) by (rewrite HTp, Hlp; done).
      rewrite Hll in Hlk. apply linked_suffix in Hlk.
      destruct (lleaves_pages _ _ _ _ _ HT Hll) as [Hpos Hsz].
      apply Forall_cons in Hpos as [_ Hpos]. cbn [length] in Hsz.
      exists l, post, 0%nat. split_and!; try done; [lia| |].
      * destruct Hlk as (Hne & _). destruct l; [done|simpl; lia].
      * rewrite filter_all by (by apply Forall_true). cbn [drop].
        by rewrite HTp, marks_plug, !items_of_app, Hpre, Hpost; cbn [marks app]; rewrite items_of_items.
Qed.

(** ** The range of a scan *)
Definition right_key (right_user_key : option (Key A)) (right_inclusive : bool) : option (Key A) :=
  (λ k, make_key k (if right_inclusive then RID_max else RID_min)) <$> right_user_key.

Definition range_invalid (left right : option (Key A)) (li ri : bool) : bool :=
  match left, right with
  | Some l, Some r => (0 <? cmp l r) || ((cmp l r =? 0) && (negb li || negb ri))
  | _, _ => false
  end.

Definition in_range (lk rk : option (Key A)) (i : Key A * RID) : bool := from lk i && negb (ended rk i).

Lemma until_filter lk rk l :
  StronglySorted (lt_key cmp) l.*1 → Forall ok l.*1 → (∀ k, rk = Some k → ok k) →
  until rk (List.filter (from lk) l) = List.filter (in_range lk rk) l.
Proof using Type*.
  intros Hs Hv Hrk. induction l as [|i l IH]; [done|].
  rewrite fmap_cons in Hs, Hv. apply StronglySorted_cons in Hs as [Hi Hs]. apply Forall_cons in Hv as [Hvi Hv].
  specialize (IH Hs Hv). unfold in_range at 1. cbn [List.filter].
  destruct (from lk i); cbn [andb until]; [|exact IH]. destruct (ended rk i) eqn:He; cbn [negb]; [|by rewrite IH].
  symmetry. apply filter_none. rewrite Forall_fmap in Hi. rewrite Forall_fmap in Hv. eapply Forall_impl; [exact (proj2 (Forall_and _ _) (conj Hi Hv))|].
  intros j [Hij Hvj]. simpl in Hij, Hvj. unfold in_range. destruct rk as [rk|]; [|done].
  unfold ended in *. apply andb_false_iff. right. apply negb_false_iff, Z.ltb_lt. apply Z.ltb_lt in He.
  specialize (Hrk _ eq_refl). unfold lt_key in Hij.
  apply (cmp_flip (cmp := cmp) (ok := ok)); [done..|].
  apply (cmp_lt_le_trans cmp ok _ i.1); [done..| |lia]. by apply (cmp_flip (cmp := cmp) (ok := ok)).
Qed.

(** A scanner is opened and emptied. *)
Definition scan (fuel : nat) (left : option (Key A)) (li : bool) (right : option (Key A)) (ri : bool) :
    MM (RC * list RID) :=
  '(rc, s) ← scanner_open key_comparator_ new_scanner left li right ri;
  if decide (rc = RC_SUCCESS) then scan_loop key_comparator_ fuel s else mret (rc, []).

Lemma runs_scan reserved pgs e l left li right ri fuel :
  env_ok key_comparator_ ok reserved pgs e l → e_disp e = [] →
  (∀ k, left_key left li = Some k → ok k) → (∀ k, right_key right ri = Some k → ok k) →
  (length l < fuel)%nat →
  runs (scan fuel left li right ri) pgs e
    (if range_invalid left right li ri then (RC_INVALID_ARGUMENT, [])
     else (RC_RECORD_EOF, (List.filter (in_range (left_key left li) (right_key right ri)) l).*2)) pgs e.
Proof using Type*.
  intros Hok Hd Hl Hr Hfuel. unfold scan, scanner_open. cbn [inited_ new_scanner].
  fold (range_invalid left right li ri). destruct (range_invalid left right li ri).
  { eapply runs_bind; [apply runs_ret|]. cbv beta iota. rewrite decide_False by done. apply runs_ret. }
  destruct (open_left_spec reserved pgs e l left li Hok Hd Hl) as (start & Hrun & Hstart).
  destruct (holds_sorted _ _ _ _ _ (eo_holds _ _ _ _ _ _ Hok)) as [Hs Hv].
  rewrite <- (until_filter _ _ _ Hs Hv Hr).
  assert (Hlen : (length (List.filter (from (left_key left li)) l) < fuel)%nat).
  { pose proof (List.filter_length_le (from (left_key left li)) l). lia. }
  destruct start as [[p index]|].
  - destruct Hstart as (l0 & rest & i & -> & Hlk & Hpos & Hsz & Hil & Hfrom). rewrite Hfrom in *.
    pose proof (scan_from_start pgs e (right_key right ri) fuel
      (mkScanner true (Some p) (right_key right ri) (Z.of_nat i) false) p l0 rest i) as Hscan.
    intros st Hst. destruct (Hrun st Hst) as (st1 & E1 & Hst1).
    destruct (Hscan eq_refl eq_refl eq_refl eq_refl Hlk Hpos Hsz Hil Hlen st1 Hst1) as (st2 & E2 & Hst2).
    exists st2. split; [|exact Hst2]. rewrite <- E2.
    unfold mbind, M_bind, mret, M_ret. rewrite E1. fold (right_key right ri).
    change (from_option _ _ _) with (right_key right ri). destruct (touch_end _ _ _) as [b st3|rc st3|]; [|done|done]. by rewrite decide_True.
  - eapply runs_bind; [eapply runs_bind; [exact Hrun|apply runs_ret]|]. cbv beta iota.
    rewrite decide_True by done. unfold start_at in Hstart. rewrite Hstart in *.
    destruct fuel as [|fuel]; [lia|]. cbn [scan_loop]. apply runs_gets. intros st _.
    eapply (runs_bind _ _ _ _ (RC_RECORD_EOF, None, _)); [apply runs_ret|apply runs_ret].
Qed.
End scan.

(** ** Theorems *)
Section scan_theorems.
Context {A B : Type} `{PageAllocator B} (key_comparator_ : KeyComparator A) (zero_key : Key A).
Implicit Types (st : State A B) (l : list (Key A * RID)) (user_key : Key A).

(** In terms of whole keys: an exclusive bound is the user key with the least or the greatest
    position. *)
Lemma scan_between_keys (ok : Key A → Prop) `{!TotalCompare (key_compare key_comparator_) ok}
    reserved st l left left_inclusive right right_inclusive fuel :
  index_ok key_comparator_ ok reserved st l → disposed st = [] →
  (∀ k, left_key left left_inclusive = Some k → ok k) →
  (∀ k, right_key right right_inclusive = Some k → ok k) →
  (length l < fuel)%nat →
  ∃ st', scan key_comparator_ fuel left left_inclusive right right_inclusive st =
      Ok (if range_invalid key_comparator_ left right left_inclusive right_inclusive
          then (RC_INVALID_ARGUMENT, [])
          else (RC_RECORD_EOF,
                (List.filter (λ i,
                   match left_key left left_inclusive with
                   | None => true | Some k => 0 <=? key_compare key_comparator_ i.1 k end &&
                   match right_key right right_inclusive with
                   | None => true | Some k => key_compare key_comparator_ i.1 k <=? 0 end) l).*2)) st' ∧
    pages st' = pages st ∧ file_header_ st' = file_header_ st ∧ bp st' = bp st.
Proof.
  intros [Hf Hok] Hd Hl Hr Hfuel.
  destruct (runs_scan key_comparator_ zero_key ok reserved _ _ l left left_inclusive right right_inclusive fuel
    Hok eq_refl Hl Hr Hfuel st) as (st' & E & Hst'); [by split_and!|].
  exists st'. split; [|by destruct Hst' as (_ & ? & _ & ? & ? & _)]. rewrite E.
  case_match; [done|]. do 3 f_equal. apply List.filter_ext. intros i. unfold in_range, from, ended.
  destruct (left_key _ _), (right_key _ _); cbn [negb]; rewrite ?andb_true_r, ?Z.leb_antisym; done.
Qed.

Lemma RID_compare_diag r : RID_compare r r = 0.
Proof. unfold RID_compare. by rewrite !Z.sub_diag. Qed.

(** Between the two keys made of a user key. *)
Lemma between_keys oks (i : Key A * RID) user_key :
  valid_key oks i.1 →
  in_range key_comparator_ (Some (make_key user_key RID_min)) (Some (make_key user_key RID_max)) i =
  (attrs_cmp key_comparator_ i.1.1 user_key.1 =? 0).
Proof.
  intros (_ & Hrid). unfold in_range, from, ended, key_compare, make_key. cbn [fst snd].
  fold (attrs_cmp key_comparator_ i.1.1 user_key.1).
  assert (Hmax : valid_rid RID_max) by (by unfold valid_rid, RID_max, INT32_MAX).
  assert (Hmin : valid_rid RID_min) by (by unfold valid_rid, RID_min, INT32_MAX).
  rewrite !RID_compare_valid by done. destruct Hrid as [? ?]. unfold RID_max, RID_min in *.
  cbn [rid_page_num rid_slot_num] in *. unfold INT32_MAX in *.
  destruct (unique_ key_comparator_); repeat case_decide; repeat case_bool; lia.
Qed.

Lemma scanner_open_code s left li right ri st rc s' st' :
  scanner_open key_comparator_ s left li right ri st = Ok (rc, s') st' → rc ≠ RC_RECORD_EOF.
Proof.
  unfold scanner_open. destruct (inited_ s); [by intros [= <- _ _]|].
  case_match; [by intros [= <- _ _]|]. unfold mbind, M_bind, mret, M_ret.
  destruct (open_left _ _ _ _) as [[[p i]|] st1|rc1 st1|]; [|by intros [= <- _ _]|done|done].
  destruct (touch_end _ _ _) as [b st2|rc2 st2|]; [by intros [= <- _ _]|done|done].
Qed.

(** [get_entry] finds exactly the items whose attributes compare equal to those of the user
    key, in the order of their positions, and always returns [RC_SUCCESS], also when there are
    none; it changes neither the pages nor the allocator. *)
Theorem get_entry_returns_matches oks reserved st l user_key fuel :
  Forall2 (λ (comp : A → A → Z) ok_attr, TotalCompare comp ok_attr) (attrs_comparator_ key_comparator_) oks →
  index_ok key_comparator_ (valid_key oks) reserved st l → disposed st = [] →
  valid_attrs oks user_key.1 →
  (length l < fuel)%nat →
  ∃ st', get_entry key_comparator_ fuel user_key st =
      Ok (RC_SUCCESS, (List.filter (λ i, attrs_cmp key_comparator_ i.1.1 user_key.1 =? 0) l).*2) st' ∧
    pages st' = pages st ∧ file_header_ st' = file_header_ st ∧ bp st' = bp st.
Proof.
  intros Htot [Hf Hok] Hd Hval Hfuel. pose proof (key_total key_comparator_ oks Htot) as Hord.
  assert (Hmk : ∀ r, valid_rid r → valid_key oks (make_key user_key r)) by (intros r Hr; done).
  destruct (runs_scan key_comparator_ zero_key _ reserved _ _ l (Some user_key) true (Some user_key) true fuel
    Hok eq_refl) with (st := st) as (st' & E & Hst'); try done.
  { intros k [= <-]. by apply Hmk. }
  { intros k [= <-]. by apply Hmk. }
  assert (Hinv : range_invalid key_comparator_ (Some user_key) (Some user_key) true true = false).
  { unfold range_invalid, key_compare. fold (attrs_cmp key_comparator_ user_key.1 user_key.1).
    pose proof (compare_attrs_total _ _ Htot) as Ht. unfold attrs_cmp.
    rewrite (cmp_refl (TotalCompare := Ht) user_key.1) by done. simpl. rewrite RID_compare_diag.
    by destruct (unique_ key_comparator_). }
  rewrite Hinv in E. exists st'. split; [|by destruct Hst' as (_ & ? & _ & ? & ? & _)].
  replace (List.filter (λ i, attrs_cmp key_comparator_ i.1.1 user_key.1 =? 0) l) with
    (List.filter (in_range key_comparator_ (left_key (Some user_key) true) (right_key (Some user_key) true)) l).
  - unfold get_entry, scan, mbind, M_bind in *. destruct (scanner_open _ _ _ _ _ _ _) as [[rc s] st1|rc st1|] eqn:Hopen; [|done|done].
    case_decide; [by rewrite E|]. unfold mret, M_ret in E. injection E as Hrc _ _.
    by destruct (scanner_open_code _ _ _ _ _ _ _ _ _ Hopen).
  - apply List.filter_ext_in. intros i Hi. apply (between_keys oks).
    destruct (holds_sorted _ _ _ _ _ (eo_holds _ _ _ _ _ _ Hok)) as [_ Hv].
    rewrite Forall_fmap, Forall_forall in Hv. by apply Hv, list_elem_of_In.
Qed.
(** A bound that is a user key: in a unique index, where positions are not compared, an exclusive
    bound lets the entries with the values of the bound through. *)
Definition above_left (left : option (Key A)) (inclusive : bool) (i : Key A * RID) : bool :=
  match left with
  | None => true
  | Some k => if inclusive || unique_ key_comparator_ then 0 <=? attrs_cmp key_comparator_ i.1.1 k.1
              else 0 <? attrs_cmp key_comparator_ i.1.1 k.1
  end.
Definition below_right (right : option (Key A)) (inclusive : bool) (i : Key A * RID) : bool :=
  match right with
  | None => true
  | Some k => if inclusive || unique_ key_comparator_ then attrs_cmp key_comparator_ i.1.1 k.1 <=? 0
              else attrs_cmp key_comparator_ i.1.1 k.1 <? 0
  end.

(** Positions that records have: page 0 is the header of the file. *)
Definition inner_rid (r : RID) : Prop := r ≠ RID_min ∧ r ≠ RID_max.

Lemma key_with_rid oks (i : Key A * RID) user_key r :
  valid_key oks i.1 → valid_rid r →
  key_compare key_comparator_ i.1 (make_key user_key r) =
  (if negb (attrs_cmp key_comparator_ i.1.1 user_key.1 =? 0) then attrs_cmp key_comparator_ i.1.1 user_key.1
   else if unique_ key_comparator_ then 0
   else if decide (rid_page_num i.1.2 = rid_page_num r) then rid_slot_num i.1.2 - rid_slot_num r
   else rid_page_num i.1.2 - rid_page_num r).
Proof.
  intros (_ & Hrid) Hr. unfold key_compare, make_key. cbn [fst snd].
  fold (attrs_cmp key_comparator_ i.1.1 user_key.1). by rewrite RID_compare_valid.
Qed.

Lemma valid_rid_extremes : valid_rid RID_min ∧ valid_rid RID_max.
Proof. by unfold valid_rid, RID_min, RID_max, INT32_MAX. Qed.

Lemma inner_rid_spec r : valid_rid r → inner_rid r →
  (0 < rid_page_num r ∨ 0 < rid_slot_num r) ∧ (rid_page_num r < INT32_MAX ∨ rid_slot_num r < INT32_MAX).
Proof.
  destruct r as [p s]. unfold valid_rid, inner_rid, RID_min, RID_max. cbn. intros [? ?] [Hmn Hmx]. split.
  - destruct (decide (p = 0)) as [->|]; [|lia]. destruct (decide (s = 0)) as [->|]; [done|lia].
  - destruct (decide (p = INT32_MAX)) as [->|]; [|lia]. destruct (decide (s = INT32_MAX)) as [->|]; [done|lia].
Qed.

Lemma left_bound_user oks (i : Key A * RID) left inclusive :
  valid_key oks i.1 → inner_rid i.1.2 →
  match left_key left inclusive with None => true | Some k => 0 <=? key_compare key_comparator_ i.1 k end = above_left left inclusive i.
Proof.
  intros Hi Hin. destruct left as [k|]; [|done]. cbn [left_key fmap option_fmap option_map above_left].
  destruct valid_rid_extremes as [Hmin Hmax]. destruct (inner_rid_spec _ (proj2 Hi) Hin) as [Hlow Hhigh].
  pose proof (proj2 Hi) as [? ?]. rewrite (key_with_rid oks) by (by destruct inclusive).
  destruct inclusive, (unique_ key_comparator_); unfold RID_min, RID_max in *; cbn [orb rid_page_num rid_slot_num] in *;
    repeat case_decide; repeat case_bool; lia.
Qed.

Lemma right_bound_user oks (i : Key A * RID) right inclusive :
  valid_key oks i.1 → inner_rid i.1.2 →
  match right_key right inclusive with None => true | Some k => key_compare key_comparator_ i.1 k <=? 0 end = below_right right inclusive i.
Proof.
  intros Hi Hin. destruct right as [k|]; [|done]. cbn [right_key fmap option_fmap option_map below_right].
  destruct valid_rid_extremes as [Hmin Hmax]. destruct (inner_rid_spec _ (proj2 Hi) Hin) as [Hlow Hhigh].
  pose proof (proj2 Hi) as [? ?]. rewrite (key_with_rid oks) by (by destruct inclusive).
  destruct inclusive, (unique_ key_comparator_); unfold RID_min, RID_max in *; cbn [orb rid_page_num rid_slot_num] in *;
    repeat case_decide; repeat case_bool; lia.
Qed.

(** C3: a scan of an index with the contents [l] (under an order on the values of every column) returns
    the positions of exactly the items between the two bounds, in key order, and ends with
    [RC_RECORD_EOF]; it returns [RC_INVALID_ARGUMENT] exactly when the comparator of whole keys finds the
    left user key behind the right one, or equal to it with an exclusive bound.  In an index that is not
    unique an inclusive bound includes, and an exclusive bound excludes, the items with the values of the
    bound; this needs items whose positions are neither [RID::min] nor [RID::max].  In a unique index,
    where the comparator ignores positions, an exclusive bound includes these items all the same, against the
    comment of [BplusTreeScanner::open].  The scan always ends, whatever the leaves it crosses, and it changes
    neither the pages nor the allocator. *)
Theorem scan_returns_range oks reserved st l left left_inclusive right right_inclusive fuel :
  Forall2 (λ (comp : A → A → Z) ok_attr, TotalCompare comp ok_attr) (attrs_comparator_ key_comparator_) oks →
  index_ok key_comparator_ (valid_key oks) reserved st l → disposed st = [] →
  (∀ k, left = Some k ∨ right = Some k → valid_attrs oks k.1) → Forall (λ i, inner_rid i.1.2) l →
  (length l < fuel)%nat →
  ∃ st', scan key_comparator_ fuel left left_inclusive right right_inclusive st =
      Ok (if range_invalid key_comparator_ left right left_inclusive right_inclusive
          then (RC_INVALID_ARGUMENT, [])
          else (RC_RECORD_EOF, (List.filter (λ i, above_left left left_inclusive i && below_right right right_inclusive i) l).*2)) st' ∧
    pages st' = pages st ∧ file_header_ st' = file_header_ st ∧ bp st' = bp st.
Proof.
  intros Htot Hok Hd Hval Hin Hfuel. pose proof (key_total key_comparator_ oks Htot) as Hord.
  destruct valid_rid_extremes as [Hmin Hmax].
  destruct (scan_between_keys (valid_key oks) reserved st l left left_inclusive right right_inclusive fuel Hok Hd)
    as (st' & E & Hst); [| |done|].
  { intros k (k0 & Hk0 & ->)%fmap_Some. split; [apply (Hval k0); by left|by destruct left_inclusive]. }
  { intros k (k0 & Hk0 & ->)%fmap_Some. split; [apply (Hval k0); by right|by destruct right_inclusive]. }
  exists st'. split; [|done]. rewrite E. case_match; [done|]. do 3 f_equal. apply List.filter_ext_in. intros i Hi.
  destruct Hok as [_ Hok]. destruct (holds_sorted _ _ _ _ _ (eo_holds _ _ _ _ _ _ Hok)) as [_ Hv].
  apply list_elem_of_In in Hi. rewrite Forall_fmap, Forall_forall in Hv. rewrite Forall_forall in Hin.
  assert (Hvi : valid_key oks i.1) by (by apply Hv). assert (Hri : inner_rid i.1.2) by (by apply Hin).
  by rewrite (left_bound_user oks), (right_bound_user oks).
Qed.
End scan_theorems.

(** A half-open range, an empty range, and the same range in a unique index. *)
Definition ex_unique : KeyComparator Z := mkKeyComparator true [λ x y, x - y].

Lemma ex_columns : Forall2 (λ (comp : Z → Z → Z) ok_attr, TotalCompare comp ok_attr) [λ x y, x - y] [λ _, True].
Proof. repeat constructor; intros; lia. Qed.

Lemma ex_bounds x y (k : Key Z) : Some ([x], mkRID 0 0) = Some k ∨ Some ([y], mkRID 0 0) = Some k → valid_attrs [λ _, True] k.1.
Proof. intros [[= <-]|[= <-]]; by repeat constructor. Qed.

Lemma scan_returns_range_witness :
  (∃ st', scan ex_cmp 5 (Some ([20], mkRID 0 0)) true (Some ([40], mkRID 0 0)) false ex_leaf =
     Ok (RC_RECORD_EOF, [mkRID 1 20; mkRID 1 30]) st') ∧
  (∃ st', scan ex_cmp 5 (Some ([40], mkRID 0 0)) true (Some ([20], mkRID 0 0)) true ex_leaf =
     Ok (RC_INVALID_ARGUMENT, []) st').
Proof.
  split.
  - destruct (scan_returns_range ex_cmp ex_zero_key [λ _, True] {[0; 1]} ex_leaf ex_items
      (Some ([20], mkRID 0 0)) true (Some ([40], mkRID 0 0)) false 5) as (st' & E & _);
      [apply ex_columns|apply ex_leaf_ok|done|apply ex_bounds|by repeat constructor|simpl; lia|].
    exists st'. exact E.
  - destruct (scan_returns_range ex_cmp ex_zero_key [λ _, True] {[0; 1]} ex_leaf ex_items
      (Some ([40], mkRID 0 0)) true (Some ([20], mkRID 0 0)) true 5) as (st' & E & _);
      [apply ex_columns|apply ex_leaf_ok|done|apply ex_bounds|by repeat constructor|simpl; lia|].
    exists st'. exact E.
Defined.

(** In a unique index the same range has its exclusive bound in it. *)
Example exclusive_bound_of_unique_index :
  match scan ex_unique 5 (Some ([20], mkRID 0 0)) true (Some ([40], mkRID 0 0)) false ex_leaf with
  | Ok r _ => r = (RC_RECORD_EOF, [mkRID 1 20; mkRID 1 30; mkRID 1 40])
  | _ => False
  end.
Proof. vm_compute. reflexivity. Qed.

Lemma get_entry_returns_matches_witness :
  (∃ st', get_entry ex_cmp 5 ([30], mkRID 0 0) ex_leaf = Ok (RC_SUCCESS, [mkRID 1 30]) st') ∧
  (∃ st', get_entry ex_cmp 5 ([31], mkRID 0 0) ex_leaf = Ok (RC_SUCCESS, []) st').
Proof.
  assert (Htot : Forall2 (λ (comp : Z → Z → Z) ok_attr, TotalCompare comp ok_attr) (attrs_comparator_ ex_cmp) [λ _, True]).
  { repeat constructor; intros; lia. }
  split.
  - destruct (get_entry_returns_matches ex_cmp ex_zero_key [λ _, True] {[0; 1]} ex_leaf ex_items
      ([30], mkRID 0 0) 5) as (st' & E & _);
      [exact Htot|apply ex_leaf_ok|done|by repeat constructor|simpl; lia|]. exists st'. exact E.
  - destruct (get_entry_returns_matches ex_cmp ex_zero_key [λ _, True] {[0; 1]} ex_leaf ex_items
      ([31], mkRID 0 0) 5) as (st' & E & _);
      [exact Htot|apply ex_leaf_ok|done|by repeat constructor|simpl; lia|]. exists st'. exact E.
Defined.
