(* ===== verification/Serializer.v ===== *)
(** * Serialization of integers and byte strings ([deps/common/lang/serializer.{h,cpp}])

    A byte is an integer of [0, 256).  Integers are copied from memory, so they are
    little-endian on the machines the program runs on.  The class [Wire] is the contract of a
    pair of encoder and decoder; the log records of the other files are its instances. *)
From S2P Require Import Prelude.

(** ** Little-endian integers *)
Definition is_byte (b : Z) : Prop := 0 ≤ b < 256.

Fixpoint le_encode (n : nat) (z : Z) : list Z :=
  match n with O => [] | S n => z mod 256 :: le_encode n (z / 256) end.

Fixpoint le_decode (l : list Z) : Z :=
  match l with [] => 0 | b :: l => b + 256 * le_decode l end.

Lemma le_encode_length n z : length (le_encode n z) = n.
Proof. revert z. induction n as [|n IH]; intros z; [done|]. simpl. by rewrite IH. Qed.

Lemma le_encode_bytes n z : Forall is_byte (le_encode n z).
Proof.
  revert z. induction n as [|n IH]; intros z; constructor; [|apply IH].
  apply Z.mod_pos_bound. lia.
Qed.

Lemma le_decode_encode n z : le_decode (le_encode n z) = z mod 2 ^ (8 * Z.of_nat n).
Proof.
  revert z. induction n as [|n IH]; intros z; cbn [le_encode le_decode]; [by rewrite Z.mod_1_r|].
  rewrite IH. replace (8 * Z.of_nat (S n)) with (8 + 8 * Z.of_nat n) by lia.
  rewrite Z.pow_add_r by lia. change (2 ^ 8) with 256.
  rewrite (Z.rem_mul_r z 256) by lia. lia.
Qed.

Lemma le_encode_decode l : Forall is_byte l → le_encode (length l) (le_decode l) = l.
Proof.
  induction 1 as [|b l Hb _ IH]; [done|]. cbn [length le_decode le_encode]. unfold is_byte in Hb.
  rewrite (Z.add_comm b), Z.mul_comm, Z.div_add_l, Z.div_small, Z.add_0_r, IH by lia.
  by rewrite Z.add_comm, Z.mod_add, Z.mod_small by lia.
Qed.

(** The value of a signed integer of [w] bits read back from memory. *)
Definition int_bytes (n : nat) (l : list Z) : Z := wrap (8 * Z.of_nat n) (le_decode l).

Lemma int_bytes_encode n z : (0 < n)%nat →
  - 2 ^ (8 * Z.of_nat n - 1) ≤ z < 2 ^ (8 * Z.of_nat n - 1) → int_bytes n (le_encode n z) = z.
Proof.
  intros Hn Hz. unfold int_bytes. rewrite le_decode_encode. unfold wrap.
  rewrite Zplus_mod_idemp_l. apply wrap_small; lia.
Qed.

(** ** Serializer and deserializer *)


(** [src/deps/common/lang/serializer.cpp:20-24] [Serializer::write] the buffer of the serializer *)
Definition write (buffer_ data : list Z) : list Z := buffer_ ++ data.

(** [src/deps/common/lang/serializer.cpp:26-30] [Serializer::write_int32] *)
Definition write_int32 (buffer_ : list Z) (value : Z) : list Z := write buffer_ (le_encode 4 value).

(** [src/deps/common/lang/serializer.cpp:32-36] [Serializer::write_int64] *)
Definition write_int64 (buffer_ : list Z) (value : Z) : list Z := write buffer_ (le_encode 8 value).

(** [src/deps/common/lang/serializer.h:62-91] [Deserializer] the members *)
Record Deserializer := mkDeserializer { buffer_ : list Z; position_ : nat }.

(** [src/deps/common/lang/serializer.h:81-81] [Deserializer::remain] *)
Definition remain (d : Deserializer) : nat := (length (buffer_ d) - position_ d)%nat.

(** [src/deps/common/lang/serializer.cpp:38-47] [Deserializer::read] [None] is the result -1 *)
Definition read (n : nat) (d : Deserializer) : option (list Z * Deserializer) :=
  if (remain d <? n)%nat then None
  else Some (take n (drop (position_ d) (buffer_ d)), mkDeserializer (buffer_ d) (position_ d + n)).

(** [src/deps/common/lang/serializer.cpp:49-53] [Deserializer::read_int32] *)
Definition read_int32 (d : Deserializer) : option (Z * Deserializer) :=
  '(l, d) ← read 4 d; Some (int_bytes 4 l, d).

(** [src/deps/common/lang/serializer.cpp:55-59] [Deserializer::read_int64] *)
Definition read_int64 (d : Deserializer) : option (Z * Deserializer) :=
  '(l, d) ← read 8 d; Some (int_bytes 8 l, d).

(** ** The contract of an encoding *)

(** [d] stands before the bytes [l] and [d'] after them. *)
Definition feeds (d : Deserializer) (l : list Z) (d' : Deserializer) : Prop :=
  ∃ pre rest, d = mkDeserializer (pre ++ l ++ rest) (length pre) ∧
              d' = mkDeserializer (pre ++ l ++ rest) (length pre + length l).

Class Wire {T : Type} (ok : T → Prop) (enc : T → list Z)
    (dec : Deserializer → option (T * Deserializer)) : Prop :=
  wire_read : ∀ x d d', ok x → feeds d (enc x) d' → dec d = Some (x, d').

Lemma feeds_all l : feeds (mkDeserializer l 0) l (mkDeserializer l (length l)).
Proof. exists [], []. by rewrite app_nil_r. Qed.

Lemma feeds_app d l1 l2 d2 : feeds d (l1 ++ l2) d2 → ∃ d1, feeds d l1 d1 ∧ feeds d1 l2 d2.
Proof.
  intros (pre & rest & -> & ->). exists (mkDeserializer (pre ++ (l1 ++ l2) ++ rest) (length pre + length l1)).
  split.
  - exists pre, (l2 ++ rest). by rewrite <- !app_assoc.
  - exists (pre ++ l1), rest. by rewrite !length_app, <- !app_assoc, Nat.add_assoc.
Qed.

Lemma read_feeds d l d' : feeds d l d' → read (length l) d = Some (l, d').
Proof.
  intros (pre & rest & -> & ->). unfold read, remain. cbn [buffer_ position_].
  rewrite !length_app, (proj2 (Nat.ltb_ge _ _)) by lia. by rewrite drop_app_length, take_app_length.
Qed.

Lemma feeds_remain d l d' : feeds d l d' → remain d = (length l + remain d')%nat.
Proof. intros (pre & rest & -> & ->). unfold remain. cbn. rewrite !length_app. lia. Qed.

(** Reading past the end fails and reads nothing. *)
Lemma read_short n d : (remain d < n)%nat → read n d = None.
Proof. intros Hn. unfold read. by rewrite (proj2 (Nat.ltb_lt _ _)). Qed.

#[export] Instance wire_int32 : Wire is_int32 (le_encode 4) read_int32.
Proof.
  intros z d d' Hz Hd. unfold read_int32. rewrite <- (le_encode_length 4 z), (read_feeds _ _ _ Hd).
  cbn [mbind option_bind]. do 2 f_equal. rewrite le_encode_length. apply (int_bytes_encode 4); [lia|]. unfold is_int32, INT32_MAX, INT32_MIN in Hz. simpl. lia.
Qed.

Definition is_int64 (z : Z) : Prop := - 2 ^ 63 ≤ z < 2 ^ 63.
#[export] Instance is_int64_dec z : Decision (is_int64 z) := and_dec _ _.

#[export] Instance wire_int64 : Wire is_int64 (le_encode 8) read_int64.
Proof.
  intros z d d' Hz Hd. unfold read_int64. rewrite <- (le_encode_length 8 z), (read_feeds _ _ _ Hd).
  cbn [mbind option_bind]. do 2 f_equal. rewrite le_encode_length. apply (int_bytes_encode 8); [lia|]. exact Hz.
Qed.

(** A sequence of encodings. *)
#[export] Instance wire_pair {T U} okT okU encT encU decT decU :
  Wire (T := T) okT encT decT → Wire (T := U) okU encU decU →
  Wire (λ p : T * U, okT p.1 ∧ okU p.2) (λ p, encT p.1 ++ encU p.2)
       (λ d, '(x, d) ← decT d; '(y, d) ← decU d; Some ((x, y), d)).
Proof.
  intros HT HU [x y] d d' [Hx Hy] (d1 & H1 & H2)%feeds_app. cbn [fst snd] in *.
  rewrite (HT x d d1 Hx H1). simpl. by rewrite (HU y d1 d' Hy H2).
Qed.

(** A field of a record: an int32, an int64 or a byte string. *)
Inductive field := FInt32 (z : Z) | FInt64 (z : Z) | FBytes (l : list Z).

Definition field_ok (f : field) : Prop :=
  match f with FInt32 z => is_int32 z | FInt64 z => is_int64 z | FBytes _ => True end.

Definition write_field (b : list Z) (f : field) : list Z :=
  match f with FInt32 z => write_int32 b z | FInt64 z => write_int64 b z | FBytes l => write b l end.

(** Reads a field of the same kind. *)
Definition read_field (f : field) (d : Deserializer) : option (field * Deserializer) :=
  match f with
  | FInt32 _ => '(z, d) ← read_int32 d; Some (FInt32 z, d)
  | FInt64 _ => '(z, d) ← read_int64 d; Some (FInt64 z, d)
  | FBytes l => '(l, d) ← read (length l) d; Some (FBytes l, d)
  end.

Fixpoint read_fields (fs : list field) (d : Deserializer) : option (list field * Deserializer) :=
  match fs with
  | [] => Some ([], d)
  | f :: fs => '(f, d) ← read_field f d; '(fs, d) ← read_fields fs d; Some (f :: fs, d)
  end.

Definition field_bytes (f : field) : list Z :=
  match f with FInt32 z => le_encode 4 z | FInt64 z => le_encode 8 z | FBytes l => l end.

Lemma write_fields fs b : foldl write_field b fs = b ++ concat (map field_bytes fs).
Proof.
  revert b. induction fs as [|f fs IH]; intros b; simpl; [by rewrite app_nil_r|].
  rewrite IH, app_assoc. by destruct f.
Qed.

Lemma read_field_feeds f d d' : field_ok f → feeds d (field_bytes f) d' → read_field f d = Some (f, d').
Proof.
  destruct f as [z|z|l]; cbn [field_ok field_bytes read_field]; intros Hok Hd.
  - by rewrite (wire_read (Wire := wire_int32) z d d').
  - by rewrite (wire_read (Wire := wire_int64) z d d').
  - by rewrite (read_feeds _ _ _ Hd).
Qed.

Lemma read_fields_feeds fs : ∀ d d', Forall field_ok fs → feeds d (concat (map field_bytes fs)) d' →
  read_fields fs d = Some (fs, d').
Proof.
  induction fs as [|f fs IH]; intros d d' Hok Hd.
  - destruct Hd as (pre & rest & -> & ->). cbn. by rewrite Nat.add_0_r.
  - apply Forall_cons in Hok as [Hf Hok]. apply feeds_app in Hd as (d1 & H1 & H2). cbn [read_fields].
    rewrite (read_field_feeds f d d1 Hf H1). cbn [mbind option_bind]. by rewrite (IH d1 d' Hok H2).
Qed.

(** What the serializer writes the deserializer reads back: after any sequence of int32,
    int64 and byte-string fields has been written, reading the same sequence of fields from the
    buffer returns their values and leaves nothing unread; one more read returns an error. *)
Theorem serializer_roundtrip (fields : list field) :
  Forall field_ok fields →
  ∃ d, read_fields fields (mkDeserializer (foldl write_field [] fields) 0) = Some (fields, d) ∧
    remain d = 0%nat ∧ ∀ n, read (S n) d = None.
Proof.
  intros Hok. rewrite write_fields. eexists. split; [apply read_fields_feeds; [done|apply feeds_all]|].
  split; [unfold remain; simpl; lia|]. intros n. apply read_short. unfold remain. simpl. lia.
Qed.

Lemma serializer_roundtrip_witness :
  ∃ d, read_fields [FInt32 (-5); FInt64 70000; FBytes [1; 2; 3]]
         (mkDeserializer (write (write_int64 (write_int32 [] (-5)) 70000) [1; 2; 3]) 0) =
       Some ([FInt32 (-5); FInt64 70000; FBytes [1; 2; 3]], d) ∧ remain d = 0%nat.
Proof.
  destruct (serializer_roundtrip [FInt32 (-5); FInt64 70000; FBytes [1; 2; 3]]) as (d & E & Hd & _).
  { repeat constructor; by vm_compute. }
  exists d. split; [exact E|exact Hd].
Defined.
