(* ===== verification/LogFile.v ===== *)
(** * Log entries and log files ([storage/clog/log_entry.*, log_file.*], [deps/common/io/io.cpp])

    A file is its bytes.  [readn] and [writen] are modelled with the outcomes of the system
    calls they make: a call may transfer only a part, may ask to be retried or may fail. *)
From S2P Require Import Prelude Rc Serializer.

(** ** Input and output *)

(** What the next call of [::read] or [::write] does; when no outcome is listed the call
    transfers everything. *)
Inductive SysResult :=
  | SysShort (k : nat)            (* at most [S k] bytes *)
  | SysRetry                      (* EAGAIN or EINTR *)
  | SysError (err : positive).

(** [src/deps/common/io/io.cpp:353-368] [writen] on a file opened for appending: the result, the
    file and the outcomes of the later calls *)
Fixpoint writen (sys : list SysResult) (file data : list Z) : Z * list Z * list SysResult :=
  match data, sys with
  | [], _ => (0, file, sys)
  | _, [] => (0, file ++ data, [])
  | _, SysShort k :: sys => writen sys (file ++ take (S k) data) (drop (S k) data)
  | _, SysRetry :: sys => writen sys file data
  | _, SysError err :: sys => (Z.pos err, file, sys)
  end.

(** [src/deps/common/io/io.cpp:370-388] [readn] of [size] bytes where [rest] is what follows the
    position; -1 is the end of the file *)
Fixpoint readn (sys : list SysResult) (rest : list Z) (size : nat) (buf : list Z) :
    Z * list Z * list Z * list SysResult :=
  match size, sys with
  | O, _ => (0, buf, rest, sys)
  | _, [] => if (length rest <? size)%nat then (-1, buf ++ rest, [], [])
             else (0, buf ++ take size rest, drop size rest, [])
  | _, SysShort k :: sys =>
      let n := min (S k) (min size (length rest)) in
      if (n =? 0)%nat then (-1, buf, rest, sys)
      else readn sys (drop n rest) (size - n) (buf ++ take n rest)
  | _, SysRetry :: sys => readn sys rest size buf
  | _, SysError err :: sys => (Z.pos err, buf, rest, sys)
  end.

Definition no_error (s : SysResult) : Prop := match s with SysError _ => False | _ => True end.

(** Whatever the sizes of the transfers, everything is written. *)
Lemma writen_good sys file data : Forall no_error sys →
  ∃ sys', writen sys file data = (0, file ++ data, sys') ∧ Forall no_error sys'.
Proof.
  intros Hs. revert file data. induction Hs as [|[k| |err] sys Hx Hs IH]; intros file data; cbn [writen].
  - destruct data; [rewrite app_nil_r|]; by eexists.
  - destruct data as [|b data]; [rewrite app_nil_r; eexists; split; [done|by constructor]|].
    destruct (IH (file ++ take (S k) (b :: data)) (drop (S k) (b :: data))) as (sys' & -> & ?).
    rewrite <- app_assoc, take_drop. by eexists.
  - destruct data as [|b data]; [rewrite app_nil_r; eexists; split; [done|by constructor]|]. apply IH.
  - done.
Qed.

(** A failed write has written a strict prefix. *)
Lemma writen_bad sys file data ret file' sys' :
  writen sys file data = (ret, file', sys') →
  if ret =? 0 then file' = file ++ data
  else ∃ k, (k < length data)%nat ∧ file' = file ++ take k data.
Proof.
  revert file data. induction sys as [|s sys IH]; intros file data; cbn [writen].
  - destruct data as [|b data]; intros [= <- <- <-]; [by rewrite app_nil_r|done].
  - destruct data as [|b data]; [|destruct s as [k| |err]].
    + intros [= <- <- <-]. by rewrite app_nil_r.
    + intros E%IH. case_match.
      * by rewrite E, <- app_assoc, take_drop.
      * destruct E as (k' & Hk & ->). rewrite length_drop in Hk. exists (S k + k')%nat. split; [lia|].
        by rewrite <- app_assoc, <- take_take_drop.
    + apply IH.
    + intros [= <- <- <-]. cbn [Z.eqb]. exists 0%nat. rewrite app_nil_r. split; [simpl; lia|done].
Qed.

Lemma readn_good sys rest size buf : Forall no_error sys → (size ≤ length rest)%nat →
  ∃ sys', readn sys rest size buf = (0, buf ++ take size rest, drop size rest, sys') ∧ Forall no_error sys'.
Proof.
  intros Hs. revert rest size buf. induction Hs as [|[k| |err] sys Hx Hs IH]; intros rest size buf Hle; cbn [readn].
  - destruct size as [|size]; [|rewrite (proj2 (Nat.ltb_ge _ _)) by lia; by eexists].
    rewrite take_0, app_nil_r, drop_0. by eexists.
  - destruct size as [|size].
    { rewrite take_0, app_nil_r, drop_0. eexists. split; [done|by constructor]. }
    set (n := min (S k) (min (S size) (length rest))). rewrite (proj2 (Nat.eqb_neq n 0)) by lia.
    destruct (IH (drop n rest) (S size - n)%nat (buf ++ take n rest)) as (sys' & -> & ?).
    { rewrite length_drop. lia. }
    eexists. split; [|done]. rewrite <- app_assoc, take_take_drop, drop_drop. do 4 f_equal; f_equal; lia.
  - destruct size as [|size]; [|by apply IH].
    rewrite take_0, app_nil_r, drop_0. eexists. split; [done|by constructor].
  - done.
Qed.

Lemma readn_eof sys rest size buf : Forall no_error sys → (length rest < size)%nat →
  ∃ buf' sys', readn sys rest size buf = (-1, buf', [], sys') ∧ Forall no_error sys'.
Proof.
  intros Hs. revert rest size buf. induction Hs as [|[k| |err] sys Hx Hs IH]; intros rest size buf Hle; cbn [readn].
  - destruct size as [|size]; [lia|]. rewrite (proj2 (Nat.ltb_lt _ _)) by done. by eexists _, _.
  - destruct size as [|size]; [lia|]. case_match eqn:Hn.
    + apply Nat.eqb_eq in Hn. destruct rest; [by eexists _, _|simpl in *; lia].
    + apply IH. rewrite length_drop. lia.
  - destruct size as [|size]; [lia|]. by apply IH.
  - done.
Qed.

(** ** Log entries *)

(** [src/src/observer/storage/clog/log_module.h:26-32] [LogModule::Id] *)
Inductive LogModuleId : Set := BUFFER_POOL | BPLUS_TREE | RECORD_MANAGER | TRANSACTION.

(** [src/src/observer/storage/clog/log_module.h:39-39] [LogModule::index] *)
Definition module_index (id : LogModuleId) : Z :=
  match id with BUFFER_POOL => 0 | BPLUS_TREE => 1 | RECORD_MANAGER => 2 | TRANSACTION => 3 end.

(** [src/src/observer/storage/clog/log_entry.h:28-37] [LogHeader] *)
Record LogHeader := mkLogHeader { lh_lsn : Z; lh_size : Z; lh_module_id : Z }.
Definition LogHeader_SIZE : Z := 16.

(** [src/src/observer/storage/clog/log_entry.h:86-89] [LogEntry] *)
Record LogEntry := mkLogEntry { header_ : LogHeader; data_ : list Z }.
Definition lsn (e : LogEntry) : Z := lh_lsn (header_ e).
Definition payload_size (e : LogEntry) : Z := lh_size (header_ e).
(** [src/src/observer/storage/clog/log_entry.h:76-76] [LogEntry::total_size] *)
Definition total_size (e : LogEntry) : Z := LogHeader_SIZE + payload_size e.
(** [src/src/observer/storage/clog/log_entry.h:78-78] [LogEntry::set_lsn] *)
Definition set_lsn (e : LogEntry) (l : Z) : LogEntry :=
  mkLogEntry (mkLogHeader l (lh_size (header_ e)) (lh_module_id (header_ e))) (data_ e).

(** [src/src/observer/storage/clog/log_entry.h:60-67] [LogEntry::max_payload_size] *)
Definition max_payload_size : Z := 4 * 1024 * 1024 - LogHeader_SIZE.

(** [src/src/observer/storage/clog/log_entry.cpp:71-83] [LogEntry::init] *)
Definition entry_init (l : Z) (module_id : Z) (data : list Z) : RC * LogEntry :=
  if max_payload_size <? to_int32 (Z.of_nat (length data)) then (RC_INVALID_ARGUMENT, mkLogEntry (mkLogHeader 0 0 0) [])
  else (RC_SUCCESS, mkLogEntry (mkLogHeader l (to_int32 (Z.of_nat (length data))) module_id) data).

(** The header in memory. *)
Definition header_bytes (h : LogHeader) : list Z :=
  le_encode 8 (lh_lsn h) ++ le_encode 4 (lh_size h) ++ le_encode 4 (lh_module_id h).
Definition header_of_bytes (l : list Z) : LogHeader :=
  mkLogHeader (int_bytes 8 (take 8 l)) (int_bytes 4 (take 4 (drop 8 l))) (int_bytes 4 (take 4 (drop 12 l))).
Definition entry_bytes (e : LogEntry) : list Z := header_bytes (header_ e) ++ data_ e.

Record entry_ok (e : LogEntry) : Prop := {
  eok_lsn : is_int64 (lsn e);
  eok_module : is_int32 (lh_module_id (header_ e));
  eok_size : payload_size e = Z.of_nat (length (data_ e));
  eok_max : payload_size e ≤ max_payload_size;
}.

(** Closes the well-formedness of a concrete entry. *)
Ltac entry_ok := constructor; [by_compute|by_compute|reflexivity|by_compute].

Lemma header_bytes_length h : length (header_bytes h) = 16%nat.
Proof. unfold header_bytes. by rewrite !length_app, !le_encode_length. Qed.

Lemma header_of_app l1 l2 l3 : length l1 = 8%nat → length l2 = 4%nat → length l3 = 4%nat →
  header_of_bytes (l1 ++ l2 ++ l3) = mkLogHeader (int_bytes 8 l1) (int_bytes 4 l2) (int_bytes 4 l3).
Proof.
  intros H1 H2 H3. unfold header_of_bytes.
  assert (E1 : take 8 (l1 ++ l2 ++ l3) = l1) by (rewrite <- H1; apply take_app_length).
  assert (E2 : drop 8 (l1 ++ l2 ++ l3) = l2 ++ l3) by (rewrite <- H1; apply drop_app_length).
  assert (E3 : drop 12 (l1 ++ l2 ++ l3) = l3).
  { replace 12%nat with (8 + 4)%nat by lia. rewrite <- drop_drop, E2, <- H2. apply drop_app_length. }
  assert (E4 : take 4 (l2 ++ l3) = l2) by (rewrite <- H2; apply take_app_length).
  rewrite E1, E2, E3, E4. by rewrite (firstn_all2 l3) by lia.
Qed.

Lemma header_roundtrip e : entry_ok e → header_of_bytes (header_bytes (header_ e)) = header_ e.
Proof.
  intros [Hl Hm Hs Hx]. unfold header_bytes. set (h := header_ e) in *.
  rewrite header_of_app by apply le_encode_length.
  assert (Hsz : is_int32 (lh_size h)).
  { unfold is_int32, INT32_MAX, INT32_MIN, payload_size, max_payload_size, LogHeader_SIZE in *. fold h in Hs, Hx. lia. }
  rewrite (int_bytes_encode 8 (lh_lsn h)), (int_bytes_encode 4 (lh_size h)), (int_bytes_encode 4 (lh_module_id h));
    [by destruct h|lia| |lia| |lia|exact Hl]; unfold is_int32, INT32_MAX, INT32_MIN in *; simpl; lia.
Qed.

Lemma entry_init_ok l m data : Z.of_nat (length data) ≤ max_payload_size →
  entry_init l m data = (RC_SUCCESS, mkLogEntry (mkLogHeader l (Z.of_nat (length data)) m) data).
Proof.
  intros Hd. unfold entry_init. rewrite to_int32_small by (unfold is_int32, INT32_MAX, INT32_MIN, max_payload_size, LogHeader_SIZE in *; lia).
  by rewrite (proj2 (Z.ltb_ge _ _)).
Qed.

(** ** The reader *)
Section reader.
Context {S : Type} (callback : S → LogEntry → S * RC).

(** The loop of [iterate]; the state is what the callback keeps. *)
Fixpoint iterate_loop (fuel : nat) (sys : list SysResult) (rest : list Z) (s : S) : option (RC * S) :=
  match fuel with
  | O => None
  | Datatypes.S fuel =>
      let '(ret, header, rest, sys) := readn sys rest 16 [] in
      if negb (ret =? 0) then
        if ret =? -1 then Some (RC_SUCCESS, s) else Some (RC_IOERR_READ, s)
      else
        let header := header_of_bytes header in
        if (lh_size header <? 0) || (max_payload_size <? lh_size header) then Some (RC_IOERR_READ, s)
        else
          let '(ret, data, rest, sys) := readn sys rest (Z.to_nat (lh_size header)) [] in
          if negb (ret =? 0) then Some (RC_IOERR_READ, s)
          else
            let '(_, entry) := entry_init (lh_lsn header) (lh_module_id header) data in
            let '(s, rc) := callback s entry in
            if OB_FAIL rc then Some (rc, s) else iterate_loop fuel sys rest s
  end.

(** [src/src/observer/storage/clog/log_file.cpp:95-141] [LogFileReader::skip_to] the loop; [rest]
    is what follows the position in the file *)
Fixpoint skip_to_loop (fuel : nat) (sys : list SysResult) (rest : list Z) (start_lsn : Z) :
    option (RC * list Z * list SysResult) :=
  match fuel with
  | O => None
  | Datatypes.S fuel =>
      let '(ret, header, rest', sys) := readn sys rest 16 [] in
      if negb (ret =? 0) then
        if ret =? -1 then Some (RC_SUCCESS, rest', sys) else Some (RC_IOERR_READ, rest', sys)
      else
        let header := header_of_bytes header in
        if start_lsn <=? lh_lsn header then Some (RC_SUCCESS, rest, sys)
        else if (lh_size header <? 0) || (max_payload_size <? lh_size header) then Some (RC_IOERR_READ, rest', sys)
        else skip_to_loop fuel sys (drop (Z.to_nat (lh_size header)) rest') start_lsn
  end.

(** [src/src/observer/storage/clog/log_file.cpp:51-93] [LogFileReader::iterate] [file] is the content of
    the opened file, [None] that it is not open; the fuel is the length of the file *)
Definition iterate (sys : list SysResult) (file : option (list Z)) (start_lsn : Z) (s : S) : option (RC * S) :=
  match file with
  | None => Some (RC_FILE_NOT_OPENED, s)
  | Some file =>
      '(rc, rest, sys) ← skip_to_loop (Datatypes.S (length file)) sys file start_lsn;
      if OB_FAIL rc then Some (rc, s) else iterate_loop (Datatypes.S (length rest)) sys rest s
  end.

(** What the callback makes of a sequence of entries: the first error stops it. *)
Fixpoint feed (s : S) (es : list LogEntry) : RC * S :=
  match es with
  | [] => (RC_SUCCESS, s)
  | e :: es => let '(s, rc) := callback s e in if OB_FAIL rc then (rc, s) else feed s es
  end.
End reader.

Definition file_of (es : list LogEntry) : list Z := concat (map entry_bytes es).

(** A torn entry: a strict prefix of the bytes of one. *)
Definition torn (tail : list Z) (e : LogEntry) : Prop :=
  (length tail < length (entry_bytes e))%nat ∧ tail = take (length tail) (entry_bytes e).

Lemma entry_bytes_length e : entry_ok e → length (entry_bytes e) = (16 + length (data_ e))%nat.
Proof. intros _. unfold entry_bytes. by rewrite length_app, header_bytes_length. Qed.

Section reader_proofs.
Context {S : Type} (callback : S → LogEntry → S * RC).
Implicit Types (s : S) (es : list LogEntry) (e : LogEntry).

(** Reading the header of an entry. *)
Lemma readn_header sys e rest : Forall no_error sys → entry_ok e →
  ∃ sys', readn sys (entry_bytes e ++ rest) 16 [] = (0, header_bytes (header_ e), data_ e ++ rest, sys') ∧
    Forall no_error sys'.
Proof.
  intros Hs He. destruct (readn_good sys (entry_bytes e ++ rest) 16 [] Hs) as (sys' & E & Hs').
  { rewrite length_app, entry_bytes_length by done. lia. }
  exists sys'. split; [|done]. rewrite E. unfold entry_bytes.
  rewrite <- app_assoc, take_app_le, drop_app_le by (rewrite header_bytes_length; lia).
  rewrite firstn_all2, drop_ge by (rewrite header_bytes_length; lia). done.
Qed.

Lemma entry_size_guard e : entry_ok e →
  (lh_size (header_ e) <? 0) || (max_payload_size <? lh_size (header_ e)) = false.
Proof.
  intros [_ _ Hs Hx]. unfold payload_size in *. apply orb_false_iff. split; apply Z.ltb_ge; lia.
Qed.

Lemma entry_eta e : entry_ok e →
  entry_init (lh_lsn (header_ e)) (lh_module_id (header_ e)) (data_ e) = (RC_SUCCESS, e).
Proof.
  intros [_ _ Hs Hx]. rewrite entry_init_ok by lia. unfold payload_size in Hs.
  destruct e as [[l sz m] data]; simpl in *. by rewrite Hs.
Qed.

Lemma iterate_step fuel sys e rest s : Forall no_error sys → entry_ok e →
  ∃ sys', Forall no_error sys' ∧
    iterate_loop callback (Datatypes.S fuel) sys (entry_bytes e ++ rest) s =
      let '(s, rc) := callback s e in
      if OB_FAIL rc then Some (rc, s) else iterate_loop callback fuel sys' rest s.
Proof.
  intros Hs He. destruct (readn_header sys e rest Hs He) as (sys1 & E & Hs1). cbn [iterate_loop].
  rewrite E. cbn [negb Z.eqb]. rewrite header_roundtrip, entry_size_guard by done.
  pose proof He as [_ _ Hsz _]. unfold payload_size in Hsz. rewrite Hsz, Nat2Z.id.
  destruct (readn_good sys1 (data_ e ++ rest) (length (data_ e)) [] Hs1) as (sys2 & E2 & Hs2); [rewrite length_app; lia|].
  exists sys2. split; [done|]. rewrite E2. cbn [negb Z.eqb app]. by rewrite take_app_length, drop_app_length, entry_eta.
Qed.

(** What the loop makes of the end of a file. *)
Definition tail_code (tail : list Z) : RC := if (length tail <? 16)%nat then RC_SUCCESS else RC_IOERR_READ.

Lemma iterate_tail fuel sys tail e s : Forall no_error sys → entry_ok e → torn tail e →
  iterate_loop callback (Datatypes.S fuel) sys tail s = Some (tail_code tail, s).
Proof.
  intros Hs He [Hlt Ht]. cbn [iterate_loop]. unfold tail_code.
  destruct (Nat.ltb_spec (length tail) 16) as [Hsh|Hlong].
  - destruct (readn_eof sys tail 16 [] Hs Hsh) as (b & sys1 & -> & _). done.
  - rewrite entry_bytes_length in Hlt by done.
    assert (Hsplit : tail = header_bytes (header_ e) ++ take (length tail - 16) (data_ e)).
    { rewrite Ht at 1. unfold entry_bytes. rewrite take_app_ge by (rewrite header_bytes_length; lia).
      by rewrite header_bytes_length. }
    destruct (readn_good sys tail 16 [] Hs Hlong) as (sys1 & -> & Hs1). cbn [negb Z.eqb app].
    assert (Htake : take 16 tail = header_bytes (header_ e)).
    { rewrite Hsplit, take_app_le by (rewrite header_bytes_length; lia). apply firstn_all2. rewrite header_bytes_length. lia. }
    rewrite Htake, header_roundtrip, entry_size_guard by done.
    pose proof He as [_ _ Hsz _]. unfold payload_size in Hsz. rewrite Hsz, Nat2Z.id.
    destruct (readn_eof sys1 (drop 16 tail) (length (data_ e)) [] Hs1) as (b & sys2 & -> & _); [rewrite length_drop; lia|]. done.
Qed.

Lemma iterate_loop_spec es tail e0 : ∀ fuel sys s,
  Forall no_error sys → Forall entry_ok es → entry_ok e0 → torn tail e0 → (length es < fuel)%nat →
  iterate_loop callback fuel sys (file_of es ++ tail) s =
    Some (let '(rc, s) := feed callback s es in (if OB_FAIL rc then rc else tail_code tail, s)).
Proof.
  induction es as [|e es IH]; intros fuel sys s Hs Hes He0 Ht Hf; (destruct fuel as [|fuel]; [simpl in Hf; lia|]).
  - cbn [file_of map concat app feed]. by rewrite (iterate_tail fuel sys tail e0).
  - apply Forall_cons in Hes as [He Hes]. unfold file_of. cbn [map concat]. rewrite <- app_assoc.
    destruct (iterate_step fuel sys e (file_of es ++ tail) s Hs He) as (sys' & Hs' & E).
    unfold file_of in E. rewrite E. cbn [feed]. destruct (callback s e) as [s1 rc].
    destruct (OB_FAIL rc) eqn:Hrc; [by rewrite Hrc|]. apply IH; try done. simpl in Hf. lia.
Qed.

(** The entries from the first one that is not before [start_lsn]. *)
Fixpoint from_lsn (start_lsn : Z) es : list LogEntry :=
  match es with [] => [] | e :: es' => if start_lsn <=? lsn e then es else from_lsn start_lsn es' end.

Lemma from_lsn_suffix start es : ∃ pre, es = pre ++ from_lsn start es.
Proof.
  induction es as [|e es [pre IH]]; [by exists []|]. simpl. destruct (start <=? lsn e); [by exists []|].
  exists (e :: pre). simpl. by rewrite <- IH.
Qed.

Lemma skip_to_spec es tail e0 start : ∀ fuel sys,
  Forall no_error sys → Forall entry_ok es → entry_ok e0 → torn tail e0 →
  (length tail < 16)%nat ∨ start ≤ lsn e0 → (length es < fuel)%nat →
  ∃ sys' tail', Forall no_error sys' ∧ torn tail' e0 ∧ tail_code tail' = tail_code tail ∧
    skip_to_loop fuel sys (file_of es ++ tail) start = Some (RC_SUCCESS, file_of (from_lsn start es) ++ tail', sys').
Proof.
  induction es as [|e es IH]; intros fuel sys Hs Hes He0 Ht Hstart Hf; (destruct fuel as [|fuel]; [simpl in Hf; lia|]).
  - cbn [file_of map concat app from_lsn skip_to_loop]. pose proof Ht as [Hlt Htk].
    destruct (Nat.ltb_spec (length tail) 16) as [Hsh|Hlong].
    + destruct (readn_eof sys tail 16 [] Hs Hsh) as (b & sys1 & -> & Hs1). cbn [negb Z.eqb].
      exists sys1, []. split_and!; try done.
      * split; [|done]. rewrite entry_bytes_length by done. simpl. lia.
      * unfold tail_code. by rewrite (proj2 (Nat.ltb_lt _ _) Hsh).
    + destruct (readn_good sys tail 16 [] Hs Hlong) as (sys1 & -> & Hs1). cbn [negb Z.eqb app].
      destruct Hstart as [?|Hstart]; [lia|]. assert (Htake : take 16 tail = header_bytes (header_ e0)).
      { rewrite Htk. unfold entry_bytes. rewrite take_take, take_app_le by (rewrite header_bytes_length; lia).
        apply firstn_all2. rewrite header_bytes_length. lia. }
      rewrite Htake, header_roundtrip by done. unfold lsn in Hstart. rewrite (proj2 (Z.leb_le _ _)) by done.
      by exists sys1, tail.
  - apply Forall_cons in Hes as [He Hes]. unfold file_of. cbn [map concat from_lsn skip_to_loop]. rewrite <- app_assoc.
    destruct (readn_header sys e (concat (map entry_bytes es) ++ tail) Hs He) as (sys1 & -> & Hs1).
    cbn [negb Z.eqb]. rewrite header_roundtrip, entry_size_guard by done. fold (lsn e).
    destruct (start <=? lsn e) eqn:Hle.
    + exists sys1, tail. cbn [map concat]. by rewrite <- app_assoc.
    + pose proof He as [_ _ Hsz _]. unfold payload_size in Hsz. rewrite Hsz, Nat2Z.id, drop_app_length.
      apply IH; try done. simpl in Hf. lia.
Qed.

Lemma file_of_length es : Forall entry_ok es → (length es ≤ length (file_of es))%nat.
Proof.
  induction 1 as [|e es He _ IH]; [done|]. unfold file_of. cbn [map concat length].
  rewrite length_app, entry_bytes_length by done. unfold file_of in IH. lia.
Qed.

Lemma from_lsn_ok start es : Forall entry_ok es → Forall entry_ok (from_lsn start es).
Proof.
  destruct (from_lsn_suffix start es) as [pre Hp]. rewrite Hp at 1. by intros [_ ?]%Forall_app.
Qed.

Lemma iterate_spec sys es tail e0 start s :
  Forall no_error sys → Forall entry_ok es → entry_ok e0 → torn tail e0 → (length tail < 16)%nat ∨ start ≤ lsn e0 →
  iterate callback sys (Some (file_of es ++ tail)) start s =
    Some (let '(rc, s) := feed callback s (from_lsn start es) in (if OB_FAIL rc then rc else tail_code tail, s)).
Proof.
  intros Hs Hes He0 Ht Hst. unfold iterate.
  destruct (skip_to_spec es tail e0 start (Datatypes.S (length (file_of es ++ tail))) sys Hs Hes He0 Ht Hst)
    as (sys' & tail' & Hs' & Ht' & Hcode & ->).
  { pose proof (file_of_length es Hes). rewrite length_app. lia. }
  cbn [mbind option_bind OB_FAIL]. unfold OB_FAIL at 1. rewrite bool_decide_eq_false_2 by (by intros []).
  rewrite (iterate_loop_spec (from_lsn start es) tail' e0); try done.
  - by rewrite Hcode.
  - by apply from_lsn_ok.
  - pose proof (file_of_length _ (from_lsn_ok start es Hes)). rewrite length_app. lia.
Qed.
End reader_proofs.

(** ** The writer *)

(** The files of the log directory by name, the outcomes of the later system calls and of the
    later calls of [::open]. *)
Record Disk := mkDisk {
  files : gmap string (list Z);
  sys : list SysResult;
  opens : list bool;
}.

(** [src/src/observer/storage/clog/log_file.h:93-98] [LogFileWriter] the members *)
Record LogFileWriter := mkWriter {
  filename_ : string;
  fd_ : bool;          (* the file is open *)
  last_lsn_ : Z;
  end_lsn_ : Z;
}.
Definition new_writer : LogFileWriter := mkWriter "" false 0 0.

(** [src/src/observer/storage/clog/log_file.cpp:149-166] [LogFileWriter::open] a missing file is
    created *)
Definition writer_open (w : LogFileWriter) (d : Disk) (filename : string) (end_lsn : Z) : RC * LogFileWriter * Disk :=
  if fd_ w then (RC_FILE_OPEN, w, d)
  else
    let end_lsn := to_int32 end_lsn in
    match opens d with
    | false :: rest => (RC_FILE_OPEN, mkWriter filename false (last_lsn_ w) end_lsn, mkDisk (files d) (sys d) rest)
    | opens =>
        (RC_SUCCESS, mkWriter filename true (last_lsn_ w) end_lsn,
         mkDisk (<[filename := default [] (files d !! filename)]> (files d)) (sys d) (tail opens))
    end.

(** [src/src/observer/storage/clog/log_file.cpp:168-177] [LogFileWriter::close] *)
Definition writer_close (w : LogFileWriter) : RC * LogFileWriter :=
  if fd_ w then (RC_SUCCESS, mkWriter (filename_ w) false (last_lsn_ w) (end_lsn_ w)) else (RC_FILE_NOT_OPENED, w).

(** [src/src/observer/storage/clog/log_file.cpp:179-215] [LogFileWriter::write] *)
Definition writer_write (w : LogFileWriter) (d : Disk) (entry : LogEntry) : RC * LogFileWriter * Disk :=
  if end_lsn_ w <? lsn entry then (RC_LOG_FILE_FULL, w, d)
  else if negb (fd_ w) then (RC_FILE_NOT_OPENED, w, d)
  else if lsn entry <=? last_lsn_ w then (RC_INVALID_ARGUMENT, w, d)
  else
    let '(ret, file, sys1) := writen (sys d) (default [] (files d !! filename_ w)) (header_bytes (header_ entry)) in
    let d := mkDisk (<[filename_ w := file]> (files d)) sys1 (opens d) in
    if negb (ret =? 0) then (RC_IOERR_WRITE, w, d)
    else
      let '(ret, file, sys1) := writen (sys d) file (data_ entry) in
      let d := mkDisk (<[filename_ w := file]> (files d)) sys1 (opens d) in
      if negb (ret =? 0) then (RC_IOERR_WRITE, w, d)
      else (RC_SUCCESS, mkWriter (filename_ w) (fd_ w) (to_int32 (lsn entry)) (end_lsn_ w), d).

(** [src/src/observer/storage/clog/log_file.cpp:217-220] [LogFileWriter::valid] *)
Definition writer_valid (w : LogFileWriter) : bool := fd_ w.
(** [src/src/observer/storage/clog/log_file.cpp:222-225] [LogFileWriter::full] *)
Definition writer_full (w : LogFileWriter) : bool := end_lsn_ w <=? last_lsn_ w.

Lemma writer_write_good w d e :
  Forall no_error (sys d) → fd_ w = true → last_lsn_ w < lsn e ≤ end_lsn_ w → is_int32 (lsn e) →
  ∃ sys', Forall no_error sys' ∧
    writer_write w d e =
      (RC_SUCCESS, mkWriter (filename_ w) true (lsn e) (end_lsn_ w),
       mkDisk (<[filename_ w := default [] (files d !! filename_ w) ++ entry_bytes e]> (files d)) sys' (opens d)).
Proof.
  intros Hs Hfd Hl Hi. unfold writer_write. rewrite (proj2 (Z.ltb_ge _ _)), Hfd, (proj2 (Z.leb_gt _ _)) by lia.
  destruct (writen_good (sys d) (default [] (files d !! filename_ w)) (header_bytes (header_ e)) Hs) as (s1 & -> & Hs1).
  cbn [negb Z.eqb sys files opens].
  destruct (writen_good s1 (default [] (files d !! filename_ w) ++ header_bytes (header_ e)) (data_ e) Hs1) as (s2 & -> & Hs2).
  cbn [negb Z.eqb]. exists s2. split; [done|]. rewrite to_int32_small by done.
  by rewrite insert_insert_eq, <- app_assoc.
Qed.

(** A write that fails leaves the file as it was, or with a strict prefix of the entry behind. *)
Lemma writer_write_torn w d e rc w' d' :
  writer_write w d e = (rc, w', d') → rc ≠ RC_SUCCESS →
  w' = w ∧ (files d' = files d ∨
    ∃ tail, torn tail e ∧
      files d' = <[filename_ w := default [] (files d !! filename_ w) ++ tail]> (files d)).
Proof.
  unfold writer_write. case_match; [by intros [= <- <- <-]; auto|]. case_match; [by intros [= <- <- <-]; auto|].
  case_match; [by intros [= <- <- <-]; auto|].
  destruct (writen (sys d) _ _) as [[ret file] s1] eqn:E1. apply writen_bad in E1.
  destruct (ret =? 0) eqn:Hret; cbn [negb].
  - destruct (writen (sys _) _ _) as [[ret2 file2] s2] eqn:E2. apply writen_bad in E2.
    destruct (ret2 =? 0) eqn:Hret2; cbn [negb]; [by intros [= <- <- <-]|].
    intros [= <- <- <-] _. split; [done|]. right. cbn [files]. destruct E2 as (k & Hk & ->).
    exists (header_bytes (header_ e) ++ take k (data_ e)). rewrite E1, insert_insert_eq, <- app_assoc.
    split; [|done]. unfold torn, entry_bytes. rewrite !length_app, length_take, Nat.min_l by lia.
    split; [lia|]. rewrite take_app_ge by lia. do 2 f_equal. lia.
  - intros [= <- <- <-] _. split; [done|]. right. cbn [files]. destruct E1 as (k & Hk & ->).
    exists (take k (header_bytes (header_ e))). split; [|done]. unfold torn, entry_bytes.
    rewrite length_app, length_take, Nat.min_l by lia. split; [lia|]. by rewrite take_app_le by lia.
Qed.

(** ** Whole files *)

(** Writes entries in turn, as [LogEntryBuffer::flush] does. *)
Fixpoint write_all (w : LogFileWriter) (d : Disk) (es : list LogEntry) : RC * LogFileWriter * Disk :=
  match es with
  | [] => (RC_SUCCESS, w, d)
  | e :: es =>
      let '(rc, w, d) := writer_write w d e in
      if OB_FAIL rc then (rc, w, d) else write_all w d es
  end.

(** Increasing sequence numbers after [lo], up to [hi]. *)
Fixpoint ascending (lo hi : Z) (es : list LogEntry) : Prop :=
  match es with [] => True | e :: es => lo < lsn e ≤ hi ∧ ascending (lsn e) hi es end.

Lemma ascending_from_lsn lo hi es start :
  ascending lo hi es → from_lsn start es = List.filter (λ e, start <=? lsn e) es.
Proof.
  revert lo. induction es as [|e es IH]; intros lo; [done|]. cbn [ascending from_lsn List.filter].
  intros [He Hes]. destruct (start <=? lsn e) eqn:Hle; [|by eapply IH]. f_equal. zify_bool.
  clear IH He. assert (Hlo : start ≤ lsn e) by done. revert Hes Hlo. generalize (lsn e). clear Hle.
  induction es as [|e' es IH]; intros l; [done|]. cbn [ascending List.filter]. intros [He Hes] Hl.
  rewrite (proj2 (Z.leb_le _ _)) by lia. f_equal. apply (IH (lsn e')); [done|lia].
Qed.

Lemma write_all_good es : ∀ w d,
  Forall no_error (sys d) → fd_ w = true → ascending (last_lsn_ w) (end_lsn_ w) es →
  INT32_MIN ≤ last_lsn_ w → end_lsn_ w ≤ INT32_MAX →
  ∃ w' sys', Forall no_error sys' ∧ fd_ w' = true ∧ filename_ w' = filename_ w ∧ end_lsn_ w' = end_lsn_ w ∧
    write_all w d es = (RC_SUCCESS, w',
      mkDisk (if es is [] then files d
              else <[filename_ w := default [] (files d !! filename_ w) ++ file_of es]> (files d)) sys' (opens d)).
Proof.
  induction es as [|e es IH]; intros w d Hs Hfd Hasc Hlo Hhi.
  - exists w, (sys d). by destruct d.
  - destruct Hasc as [He Hes]. cbn [write_all].
    destruct (writer_write_good w d e Hs Hfd He) as (s1 & Hs1 & ->).
    { unfold is_int32. lia. }
    unfold OB_FAIL at 1. rewrite bool_decide_eq_false_2 by (by intros []).
    destruct (IH (mkWriter (filename_ w) true (lsn e) (end_lsn_ w))
      (mkDisk (<[filename_ w := default [] (files d !! filename_ w) ++ entry_bytes e]> (files d)) s1 (opens d)))
      as (w' & s2 & Hs2 & Hfd2 & Hfn & Hend & ->); try done; [cbn; lia|].
    exists w', s2. split_and!; try done. f_equal. f_equal. cbn [filename_ files].
    destruct es as [|e2 es]; [unfold file_of; cbn [map concat]; by rewrite app_nil_r|].
    rewrite lookup_insert_eq, insert_insert_eq. unfold file_of. cbn [map concat from_option default id].
    by rewrite <- !app_assoc.
Qed.

(** C35: entries written to a new log file are read back: after [write] accepts entries with
    increasing sequence numbers up to the file's last one, [iterate] from any position hands
    exactly the entries that are not before it to the callback, in order and unchanged, and
    returns the callback's first error or [RC_SUCCESS] - whatever the sizes of the partial
    transfers the system calls make. *)
Theorem log_file_roundtrip {S} (callback : S → LogEntry → S * RC) es start_lsn end_lsn filename d sys' s :
  Forall entry_ok es → ascending 0 end_lsn es → 0 ≤ end_lsn ≤ INT32_MAX →
  files d !! filename = None → opens d = [] → Forall no_error (sys d) → Forall no_error sys' →
  let '(rc1, w, d1) := writer_open new_writer d filename end_lsn in
  let '(rc2, w2, d2) := write_all w d1 es in
  rc1 = RC_SUCCESS ∧ rc2 = RC_SUCCESS ∧
  iterate callback sys' (files d2 !! filename) start_lsn s =
    Some (feed callback s (List.filter (λ e, start_lsn <=? lsn e) es)).
Proof.
  intros Hok Hasc Hend Hf Hop Hs Hs'. unfold writer_open. cbn [fd_ new_writer]. rewrite Hop, Hf.
  rewrite to_int32_small by (unfold is_int32, INT32_MIN; lia). cbn [default last_lsn_ new_writer from_option].
  destruct (write_all_good es (mkWriter filename true 0 end_lsn) (mkDisk (<[filename := []]> (files d)) (sys d) (tail [])))
    as (w' & s1 & _ & _ & _ & _ & ->); try done; [cbn; lia|].
  split_and!; try done. cbn [files filename_].
  assert (E : (if es is [] then <[filename:=[]]> (files d)
     else <[filename:=default [] (<[filename:=[]]> (files d) !! filename) ++ file_of es]> (<[filename:=[]]> (files d))) !! filename
    = Some (file_of es ++ [])).
  { destruct es; [by rewrite lookup_insert_eq|]. by rewrite !lookup_insert_eq, app_nil_r. }
  rewrite E, (iterate_spec callback sys' es [] (mkLogEntry (mkLogHeader 0 0 0) []));
    [|done|done|entry_ok|by split; [vm_compute; lia|]|left; simpl; lia].
  rewrite (ascending_from_lsn _ _ _ _ Hasc). destruct (feed _ _ _) as [rc s2]. unfold tail_code. cbn.
  unfold OB_FAIL. case_bool_decide as Hrc; [done|]. by rewrite Hrc.
Qed.

Definition ex_entry (l : Z) (data : list Z) : LogEntry :=
  mkLogEntry (mkLogHeader l (Z.of_nat (length data)) 0) data.

Lemma log_file_roundtrip_witness :
  let '(rc1, w, d1) := writer_open new_writer (mkDisk ∅ [SysShort 4; SysRetry] []) "clog_0.log" 999 in
  let '(rc2, w2, d2) := write_all w d1 [ex_entry 1 [7]; ex_entry 2 [8; 9]; ex_entry 3 [10]] in
  rc1 = RC_SUCCESS ∧ rc2 = RC_SUCCESS ∧
  iterate (λ l e, (l ++ [data_ e], RC_SUCCESS)) [SysShort 0; SysRetry; SysShort 2] (files d2 !! "clog_0.log") 2 [] =
    Some (RC_SUCCESS, [[8; 9]; [10]]).
Proof.
  apply (log_file_roundtrip (λ l e, (l ++ [data_ e], RC_SUCCESS))); try done.
  - repeat apply Forall_cons_2; [entry_ok..|done].
  - by repeat constructor.
  - by repeat constructor.
Defined.

(** A torn tail is detected: when the last write of a file failed half-way or the process died
    in it, reading the file still hands every complete entry to the callback; the result is then
    [RC_SUCCESS] when less than a header was written and [RC_IOERR_READ] when the header is whole
    but the payload is not. *)
Theorem torn_log_tail_reported {S} (callback : S → LogEntry → S * RC) es e k start_lsn sys' s :
  Forall entry_ok es → entry_ok e → (k < length (entry_bytes e))%nat → start_lsn ≤ lsn e → Forall no_error sys' →
  iterate callback sys' (Some (file_of es ++ take k (entry_bytes e))) start_lsn s =
    Some (let '(rc, s) := feed callback s (from_lsn start_lsn es) in
          (if OB_FAIL rc then rc else if (k <? 16)%nat then RC_SUCCESS else RC_IOERR_READ, s)).
Proof.
  intros Hes He Hk Hst Hs. rewrite (iterate_spec callback sys' es _ e); try done; [| |by right].
  - unfold tail_code. by rewrite length_take, Nat.min_l by lia.
  - unfold torn. by rewrite length_take, Nat.min_l by lia.
Qed.

Lemma torn_log_tail_reported_witness :
  iterate (λ l e, (l ++ [lsn e], RC_SUCCESS)) [] (Some (file_of [ex_entry 1 [7]; ex_entry 2 [8]] ++
    take 17 (entry_bytes (ex_entry 3 [10; 11])))) 0 [] = Some (RC_IOERR_READ, [1; 2]).
Proof.
  apply (torn_log_tail_reported (λ l e, (l ++ [lsn e], RC_SUCCESS)) [ex_entry 1 [7]; ex_entry 2 [8]] (ex_entry 3 [10; 11]) 17);
    [repeat apply Forall_cons_2; [entry_ok..|done]|entry_ok|vm_compute; lia|by vm_compute|done].
Defined.
