(* ===== verification/LogManager.v ===== *)
(** * The directory of log files ([LogFileManager], [storage/clog/log_file.cpp])

    A log file is named after the first sequence number it may hold.  The manager keeps the
    files ordered by that number; a file holds [max_entry_number_per_file] numbers. *)
From Stdlib Require Import Ascii.
From stdpp Require Import sorting pretty.
From S2P Require Import Prelude Rc Serializer LogFile.

Definition file_prefix_ : string := "clog_".
Definition file_suffix_ : string := ".log".

(** ** File names *)

(** [std::string::starts_with] and [ends_with]. *)
Definition starts_with (s p : string) : bool := String.prefix p s.
Definition ends_with (s p : string) : bool :=
  (String.length p <=? String.length s)%nat &&
  String.eqb (String.substring (String.length s - String.length p) (String.length p) s) p.

(** [std::from_chars]: an optional sign and the digits up to the first other character; [None]
    when there is no digit or the number is not an int64. *)
Definition digit_of (c : ascii) : option Z :=
  let n := Z.of_nat (nat_of_ascii c) in
  if (48 <=? n) && (n <=? 57) then Some (n - 48) else None.

Fixpoint scan_digits (s : string) (acc : Z) (seen : bool) : option Z :=
  match s with
  | String c s' =>
      match digit_of c with
      | Some d => scan_digits s' (10 * acc + d) true
      | None => if seen then Some acc else None
      end
  | EmptyString => if seen then Some acc else None
  end.

Definition from_chars (s : string) : option Z :=
  v ← match s with
      | String "-" s' => Z.opp <$> scan_digits s' 0 false
      | _ => scan_digits s 0 false
      end;
  if bool_decide (is_int64 v) then Some v else None.

(** [src/src/observer/storage/clog/log_file.cpp:280-295] [LogFileManager::get_lsn_from_filename] the
    number is written only on success *)
Definition get_lsn_from_filename (filename : string) : RC * option Z :=
  if negb (starts_with filename file_prefix_) || negb (ends_with filename file_suffix_) then
    (RC_INVALID_ARGUMENT, None)
  else
    let lsn_str := String.substring (String.length file_prefix_)
      (String.length filename - String.length file_suffix_ - String.length file_prefix_) filename in
    match from_chars lsn_str with
    | None => (RC_INVALID_ARGUMENT, None)
    | Some lsn => (RC_SUCCESS, Some lsn)
    end.

(** The name [next_file] makes. *)
Definition log_file_name (lsn : Z) : string := (file_prefix_ +:+ pretty lsn +:+ file_suffix_)%string.

Lemma digit_of_pretty x : (x < 10)%N → digit_of (pretty_N_char x) = Some (Z.of_N x).
Proof.
  intros Hx. assert (Hc : x = 0%N ∨ x = 1%N ∨ x = 2%N ∨ x = 3%N ∨ x = 4%N ∨ x = 5%N ∨ x = 6%N ∨ x = 7%N ∨ x = 8%N ∨ x = 9%N) by lia.
  repeat (destruct Hc as [-> | Hc]; [done|]). by subst.
Qed.

Lemma scan_pretty_go x : ∀ s b, (0 < x)%N → scan_digits (pretty_N_go x s) 0 b = scan_digits s (Z.of_N x) true.
Proof.
  induction (N.lt_wf_0 x) as [x _ IH]. intros s b Hx. rewrite pretty_N_go_step by done.
  pose proof (N.mod_lt x 10 ltac:(done)) as Hm. pose proof (N.div_mod x 10 ltac:(done)) as Hdm.
  destruct (decide (x `div` 10 = 0)%N) as [E|Hne].
  - rewrite E, pretty_N_go_0. cbn [scan_digits]. rewrite digit_of_pretty by done. f_equal. lia.
  - rewrite IH; [|by apply N.div_lt|lia]. cbn [scan_digits]. rewrite digit_of_pretty by done. f_equal. lia.
Qed.

Lemma from_chars_pretty z : 0 ≤ z < 2 ^ 63 → from_chars (pretty z) = Some z.
Proof.
  intros Hz. unfold from_chars.
  assert (Hs : scan_digits (pretty z) 0 false = Some z ∧ ∀ s, pretty z ≠ String "-" s).
  { destruct z as [|p|p]; [done| |lia]. change (pretty (Z.pos p)) with (pretty (N.pos p)).
    unfold pretty, pretty_N. rewrite decide_False by done. split.
    - by rewrite scan_pretty_go.
    - intros s. apply (pretty_N_go_ne_dash _ "" s). done. }
  destruct Hs as [Hs Hd].
  assert (E : match pretty z with String "-" s' => Z.opp <$> scan_digits s' 0 false | _ => scan_digits (pretty z) 0 false end = Some z).
  { destruct (pretty z) as [|c s]; [done|]. 
    destruct (ascii_dec c "-") as [->|Hc]; [by destruct (Hd s)|].
    destruct c as [[] [] [] [] [] [] [] []]; done. }
  rewrite E. cbn [mbind option_bind]. by rewrite bool_decide_eq_true_2 by (unfold is_int64; lia).
Qed.

#[local] Open Scope string_scope.
Lemma string_prefix_app p s : String.prefix p (p ++ s) = true.
Proof.
  induction p as [|c p IH]; [by destruct s|].
  change (String.prefix _ _) with (if ascii_dec c c then String.prefix p (p ++ s) else false).
  by destruct (ascii_dec c c).
Qed.
Lemma substring_skip p s n : String.substring (String.length p) n (p ++ s) = String.substring 0 n s.
Proof. induction p as [|c p IH]; [done|]. exact IH. Qed.
Lemma substring_take p s : String.substring 0 (String.length p) (p ++ s) = p.
Proof.
  induction p as [|c p IH]; [by destruct s|].
  change (String.substring _ _ _) with (String c (String.substring 0 (String.length p) (p ++ s))). by rewrite IH.
Qed.
Lemma string_length_app a b : String.length (a ++ b) = (String.length a + String.length b)%nat.
Proof. induction a as [|c a IH]; [done|]. change (S (String.length (a ++ b)) = S (String.length a + String.length b))%nat. by rewrite IH. Qed.
Lemma string_app_nil a : a ++ "" = a.
Proof. induction a as [|c a IH]; [done|]. change (String c (a ++ "") = String c a). by rewrite IH. Qed.
Lemma string_app_assoc a b c : a ++ (b ++ c) = (a ++ b) ++ c.
Proof. induction a as [|x a IH]; [done|]. change (String x (a ++ (b ++ c)) = String x ((a ++ b) ++ c)). by rewrite IH. Qed.
Lemma substring_end a b : String.substring (String.length a) (String.length b) (a ++ b) = b.
Proof. rewrite substring_skip. rewrite <- (string_app_nil b) at 2. apply substring_take. Qed.
Lemma ends_with_app a b : ends_with (a ++ b) b = true.
Proof.
  unfold ends_with. rewrite string_length_app, (proj2 (Nat.leb_le _ _)), Nat.add_sub, substring_end by lia.
  apply String.eqb_refl.
Qed.
Lemma substring_middle a b c :
  String.substring (String.length a) (String.length (a ++ b ++ c) - String.length c - String.length a) (a ++ b ++ c) = b.
Proof.
  rewrite !string_length_app, substring_skip.
  replace (_ - _ - _)%nat with (String.length b) by lia. apply substring_take.
Qed.
#[local] Close Scope string_scope.

Lemma get_lsn_log_file_name z : 0 ≤ z < 2 ^ 63 → get_lsn_from_filename (log_file_name z) = (RC_SUCCESS, Some z).
Proof.
  intros Hz. unfold get_lsn_from_filename, log_file_name, starts_with.
  rewrite string_prefix_app, substring_middle, from_chars_pretty by done.
  by rewrite string_app_assoc, ends_with_app.
Qed.

(** ** The manager *)

(** [src/src/observer/storage/clog/log_file.h:147-154] [LogFileManager] the members; [log_files_] is
    the ordered map from the first number of a file to its name in the directory *)
Record LogFileManager := mkManager {
  max_entry_number_per_file_ : Z;
  log_files_ : list (Z * string);
}.

(** [std::map::emplace]: an existing key keeps its value. *)
Fixpoint emplace (k : Z) (v : string) (m : list (Z * string)) : list (Z * string) :=
  match m with
  | [] => [(k, v)]
  | (k', v') :: m' =>
      if k =? k' then m else if k <? k' then (k, v) :: m else (k', v') :: emplace k v m'
  end.

Definition has_file (k : Z) (m : list (Z * string)) : bool := existsb (λ f, f.1 =? k) m.

(** [src/src/observer/storage/clog/log_file.cpp:235-278] [LogFileManager::init] [names] are the regular
    files of the directory in the order of the listing, [None] when it does not exist *)
Definition manager_init (names : option (list string)) (create_directories : bool)
    (max_entry_number_per_file : Z) : RC * LogFileManager :=
  match names with
  | None => (if create_directories then RC_SUCCESS else RC_FILE_CREATE, mkManager max_entry_number_per_file [])
  | Some names =>
      let step m filename :=
        match get_lsn_from_filename filename with
        | (RC_SUCCESS, Some lsn) => if has_file lsn m then m else emplace lsn filename m
        | _ => m
        end in
      (RC_SUCCESS, mkManager max_entry_number_per_file (foldl step [] names))
  end.

(** [src/src/observer/storage/clog/log_file.cpp:297-310] [LogFileManager::list_files] *)
Definition list_files (m : LogFileManager) (start_lsn : Z) : list string :=
  (List.filter (λ f, start_lsn <=? f.1 + max_entry_number_per_file_ m - 1) (log_files_ m)).*2.

(** [src/src/observer/storage/clog/log_file.cpp:325-339] [LogFileManager::next_file] *)
Definition next_file (m : LogFileManager) (w : LogFileWriter) (d : Disk) :
    RC * LogFileManager * LogFileWriter * Disk :=
  let '(_, w) := writer_close w in
  let lsn := match last (log_files_ m) with Some (l, _) => l + max_entry_number_per_file_ m | None => 0 end in
  let filename := log_file_name lsn in
  let m := mkManager (max_entry_number_per_file_ m) (emplace lsn filename (log_files_ m)) in
  let '(rc, w, d) := writer_open w d filename (lsn + max_entry_number_per_file_ m - 1) in
  (rc, m, w, d).

(** [src/src/observer/storage/clog/log_file.cpp:312-323] [LogFileManager::last_file] *)
Definition last_file (m : LogFileManager) (w : LogFileWriter) (d : Disk) :
    RC * LogFileManager * LogFileWriter * Disk :=
  match last (log_files_ m) with
  | None => next_file m w d
  | Some (first, filename) =>
      let '(_, w) := writer_close w in
      let '(rc, w, d) := writer_open w d filename (first + max_entry_number_per_file_ m - 1) in
      (rc, m, w, d)
  end.

(** The map keeps its keys in order. *)
Definition ordered (m : list (Z * string)) : Prop := StronglySorted (λ f g, f.1 < g.1) m.

Lemma emplace_elem k v m f : has_file k m = false → f ∈ emplace k v m ↔ f = (k, v) ∨ f ∈ m.
Proof.
  induction m as [|[k' v'] m IH]; cbn [emplace].
  - intros _. by rewrite elem_of_cons.
  - cbn [has_file existsb fst]. intros [Hk Hm]%orb_false_iff. rewrite Z.eqb_sym, Hk.
    destruct (k <? k'); rewrite !elem_of_cons; [done|]. rewrite (IH Hm). tauto.
Qed.

Lemma emplace_ordered k v m : has_file k m = false → ordered m → ordered (emplace k v m).
Proof.
  unfold ordered. induction m as [|[k' v'] m IH]; cbn [emplace].
  - intros _ _. constructor; [constructor|apply Forall_nil_2].
  - cbn [has_file existsb fst]. intros [Hk Hm]%orb_false_iff [Hall Hs]%StronglySorted_cons.
    rewrite Z.eqb_sym, Hk. zify_bool. destruct (k <? k') eqn:E; zify_bool.
    + constructor; [by apply StronglySorted_cons|]. apply Forall_cons_2; [done|].
      eapply Forall_impl; [exact Hall|]. intros g Hg. cbn [fst] in *. lia.
    + constructor; [by apply IH|]. rewrite Forall_forall in Hall |- *.
      intros g [->|Hg]%(emplace_elem _ _ _ _ Hm); [cbn [fst]; lia|by apply Hall].
Qed.

Lemma ordered_unique m1 m2 : ordered m1 → ordered m2 → (∀ f, f ∈ m1 ↔ f ∈ m2) → m1 = m2.
Proof.
  unfold ordered. intros H1. revert m2. induction H1 as [|f m1 H1 IH Hf]; intros m2 H2 Heq.
  - destruct m2 as [|g m2]; [done|]. exfalso. apply (not_elem_of_nil g), Heq, list_elem_of_here.
  - destruct H2 as [|g m2 H2 Hg]; [exfalso; apply (not_elem_of_nil f), Heq, list_elem_of_here|].
    rewrite Forall_forall in Hf, Hg.
    assert (f = g) as <-.
    { assert (Hfg : f = g ∨ f ∈ m2) by (apply elem_of_cons, Heq, list_elem_of_here).
      assert (Hgf : g = f ∨ g ∈ m1) by (apply elem_of_cons, Heq, list_elem_of_here).
      destruct Hfg as [?|Hfg]; [done|]. destruct Hgf as [?|Hgf]; [done|].
      specialize (Hf _ Hgf). specialize (Hg _ Hfg). lia. }
    f_equal. apply IH; [done|]. intros x. specialize (Heq x). rewrite !elem_of_cons in Heq.
    split; intros Hx; (destruct Heq as [Ha Hb]).
    + destruct Ha as [->|?]; [by right| |done]. specialize (Hf _ Hx). lia.
    + destruct Hb as [->|?]; [by right| |done]. specialize (Hg _ Hx). lia.
Qed.

(** A key after all others goes to the end. *)
Lemma emplace_last k v m : Forall (λ f, f.1 < k) m → emplace k v m = m ++ [(k, v)].
Proof.
  induction 1 as [|[k' v'] m Hk _ IH]; [done|]. cbn [emplace fst app] in *.
  rewrite (proj2 (Z.eqb_neq _ _)), (proj2 (Z.ltb_ge _ _)), IH by lia. done.
Qed.

Lemma has_file_elem k m : has_file k m = true ↔ ∃ v, (k, v) ∈ m.
Proof.
  unfold has_file. rewrite existsb_exists. split.
  - intros ([k' v] & Hin & Hk). apply Z.eqb_eq in Hk. cbn [fst] in Hk. subst. exists v. by apply list_elem_of_In.
  - intros [v Hv]. exists (k, v). split; [by apply list_elem_of_In|]. apply Z.eqb_refl.
Qed.

(** ** The files of a running log *)
Section canonical.
Variable max : Z.
Hypothesis max_pos : 0 < max.

(** The first [n] files. *)
Definition first_lsn (i : nat) : Z := Z.of_nat i * max.
Definition log_files (n : nat) : list (Z * string) :=
  (λ i, (first_lsn i, log_file_name (first_lsn i))) <$> seq 0 n.

Lemma log_files_S n : log_files (S n) = log_files n ++ [(first_lsn n, log_file_name (first_lsn n))].
Proof. unfold log_files. by rewrite seq_S, fmap_app. Qed.

Lemma log_files_elem n k v : (k, v) ∈ log_files n ↔ ∃ i, (i < n)%nat ∧ k = first_lsn i ∧ v = log_file_name (first_lsn i).
Proof.
  unfold log_files. rewrite list_elem_of_fmap. split.
  - intros (i & [= -> ->] & Hi%elem_of_seq). exists i. split; [lia|done].
  - intros (i & Hi & -> & ->). exists i. split; [done|]. apply elem_of_seq. lia.
Qed.

Lemma log_files_ordered n : ordered (log_files n).
Proof using max_pos.
  induction n as [|n IH]; [constructor|]. rewrite log_files_S. unfold ordered in *.
  apply StronglySorted_app. split_and!; [|done|constructor; [constructor|apply Forall_nil_2]].
  intros [k v] g Hk%log_files_elem Hg%list_elem_of_singleton. subst g. destruct Hk as (i & Hi & -> & _).
  cbn [fst]. unfold first_lsn. nia.
Qed.

Lemma next_file_canonical n w d :
  next_file (mkManager max (log_files n)) w d =
    (let '(rc, w, d) := writer_open (writer_close w).2 d (log_file_name (first_lsn n)) (first_lsn n + max - 1) in
     (rc, mkManager max (log_files (S n)), w, d)).
Proof using max_pos.
  unfold next_file. destruct (writer_close w) as [rc1 w1]. cbn [log_files_ max_entry_number_per_file_ snd].
  assert (Hlast : match last (log_files n) with Some (l, _) => l + max | None => 0 end = first_lsn n).
  { destruct n as [|n]; [done|]. rewrite log_files_S, last_snoc. unfold first_lsn. lia. }
  rewrite Hlast, emplace_last, <- log_files_S; [done|].
  rewrite Forall_forall. intros [k v] Hk%log_files_elem. destruct Hk as (i & Hi & -> & _). cbn [fst]. unfold first_lsn. nia.
Qed.

(** The manager finds its files again, in whatever order the directory lists them and whatever
    other files it holds. *)
Lemma manager_init_canonical n names create :
  first_lsn n < 2 ^ 63 → NoDup names →
  (∀ i, (i < n)%nat → log_file_name (first_lsn i) ∈ names) →
  (∀ name l, name ∈ names → get_lsn_from_filename name = (RC_SUCCESS, Some l) →
     ∃ i, (i < n)%nat ∧ name = log_file_name (first_lsn i)) →
  manager_init (Some names) create max = (RC_SUCCESS, mkManager max (log_files n)).
Proof using max_pos.
  intros Hn Hnd Hall Honly. unfold manager_init. do 2 f_equal.
  set (step := λ m filename, match get_lsn_from_filename filename with
    | (RC_SUCCESS, Some lsn) => if has_file lsn m then m else emplace lsn filename m | _ => m end).
  assert (Hget : ∀ i, (i < n)%nat → get_lsn_from_filename (log_file_name (first_lsn i)) = (RC_SUCCESS, Some (first_lsn i))).
  { intros i Hi. apply get_lsn_log_file_name. unfold first_lsn in *. nia. }
  assert (Hgen : ∀ todo m, ordered m → NoDup todo → (∀ name, name ∈ todo → name ∈ names) →
    (∀ k v, (k, v) ∈ m → ∃ i, (i < n)%nat ∧ k = first_lsn i ∧ v = log_file_name (first_lsn i) ∧ v ∉ todo) →
    ordered (foldl step m todo) ∧
    ∀ k v, (k, v) ∈ foldl step m todo ↔ (k, v) ∈ m ∨ ∃ i, (i < n)%nat ∧ k = first_lsn i ∧ v = log_file_name (first_lsn i) ∧ v ∈ todo).
  { induction todo as [|name todo IH]; intros m Hm Hd Hin Hk; cbn [foldl].
    { split; [done|]. intros k v. split; [by left|]. intros [?|(i & _ & _ & _ & []%not_elem_of_nil)]; done. }
    apply NoDup_cons in Hd as [Hnin Hd].
    assert (Hcase : (step m name = m ∧ ∀ i, (i < n)%nat → name ≠ log_file_name (first_lsn i)) ∨
      ∃ i, (i < n)%nat ∧ name = log_file_name (first_lsn i) ∧ has_file (first_lsn i) m = false ∧
           step m name = emplace (first_lsn i) name m).
    { unfold step. destruct (get_lsn_from_filename name) as [rc o] eqn:E.
      destruct (decide (rc = RC_SUCCESS ∧ is_Some o)) as [[-> [l ->]]|Hno].
      - right. destruct (Honly name l) as (i & Hi & ->); [apply Hin, list_elem_of_here|done|].
        rewrite Hget in E by done. injection E as <-. exists i.
        assert (Hf : has_file (first_lsn i) m = false).
        { apply not_true_iff_false. rewrite has_file_elem. intros [v Hv]. destruct (Hk _ _ Hv) as (j & Hj & Hij & -> & Hnj).
          rewrite <- Hij in Hnj. apply Hnj, list_elem_of_here. }
        by rewrite Hf.
      - left. split.
        + destruct rc, o; try done. exfalso. apply Hno. eauto.
        + intros i Hi ->. rewrite Hget in E by done. injection E as <- <-. apply Hno. eauto. }
    destruct Hcase as [[-> Hne]|(i & Hi & -> & Hf & ->)].
    - destruct (IH m) as [Ho He]; try done.
      { intros x Hx. apply Hin. by apply list_elem_of_further. }
      { intros k v Hv. destruct (Hk k v Hv) as (j & ? & ? & ? & Hnj). exists j. split_and!; try done.
        intros ?. apply Hnj. by apply list_elem_of_further. }
      split; [done|]. intros k v. rewrite He. split; (intros [?|(j & ? & ? & Hv & Hvin)]; [by left|right]).
      + exists j. split_and!; try done. by apply list_elem_of_further.
      + exists j. split_and!; try done. apply elem_of_cons in Hvin as [->|?]; [|done]. by destruct (Hne j).
    - destruct (IH (emplace (first_lsn i) (log_file_name (first_lsn i)) m)) as [Ho He]; try done.
      { by apply emplace_ordered. }
      { intros x Hx. apply Hin. by apply list_elem_of_further. }
      { intros k v [[= -> ->]|Hv]%(emplace_elem _ _ _ _ Hf); [by exists i|].
        destruct (Hk k v Hv) as (j & ? & ? & ? & Hnj). exists j. split_and!; try done.
        intros ?. apply Hnj. by apply list_elem_of_further. }
      split; [done|]. intros k v. rewrite He, (emplace_elem _ _ _ _ Hf). split.
      + intros [[[= -> ->]|?]|(j & ? & ? & ? & ?)]; [right|by left|right].
        * exists i. split_and!; try done. apply list_elem_of_here.
        * exists j. split_and!; try done. by apply list_elem_of_further.
      + intros [?|(j & ? & -> & -> & Hvin)]; [by left; right|].
        apply elem_of_cons in Hvin as [Hv|?]; [|right; by exists j]. left. left. f_equal; [|done].
        apply (f_equal get_lsn_from_filename) in Hv. rewrite !Hget in Hv by done. by injection Hv. }
  destruct (Hgen names [] ltac:(constructor) Hnd ltac:(done)) as [Ho He].
  { by intros k v []%not_elem_of_nil. }
  apply ordered_unique; [done|apply log_files_ordered|]. intros [k v]. rewrite He, log_files_elem. split.
  - intros [[]%not_elem_of_nil|(i & ? & ? & ? & _)]; by exists i.
  - intros (i & Hi & -> & ->). right. exists i. split_and!; try done. by apply Hall.
Qed.
End canonical.
