(* ===== verification/LogHandler.v ===== *)
(** * The log buffer and the log handler ([storage/clog/log_buffer.*, disk_log_handler.*])

    Clients append entries to a buffer in memory; a thread of the handler takes them out and
    writes them to the log files.  The operations are functions; the interleavings of the
    clients and the thread are a step relation.  [None] is a failed [ASSERT]. *)
From stdpp Require Import sorting.
From S2P Require Import Prelude Rc Serializer LogFile LogManager.

(** ** The buffer *)

(** [src/src/observer/storage/clog/log_buffer.h:70-79] [LogEntryBuffer] the members *)
Record LogEntryBuffer := mkBuffer {
  entries_ : list LogEntry;
  bytes_ : Z;
  current_lsn_ : Z;
  flushed_lsn_ : Z;
  max_bytes_ : Z;
}.
Definition new_buffer : LogEntryBuffer := mkBuffer [] 0 0 0 (4 * 1024 * 1024).

(** [src/src/observer/storage/clog/log_buffer.cpp:21-30] [LogEntryBuffer::init] *)
Definition buffer_init (b : LogEntryBuffer) (lsn max_bytes : Z) : LogEntryBuffer :=
  mkBuffer (entries_ b) (bytes_ b) lsn lsn (if 0 <? max_bytes then max_bytes else max_bytes_ b).

(** [src/src/observer/storage/clog/log_buffer.cpp:37-44] [LogEntryBuffer::append] the caller sleeps
    while this holds *)
Definition append_waits (b : LogEntryBuffer) : bool := max_bytes_ b <=? bytes_ b.

(** [src/src/observer/storage/clog/log_buffer.cpp:37-60] [LogEntryBuffer::append] after the wait; the
    number is written only on success *)
Definition buffer_append (b : LogEntryBuffer) (module_id : Z) (data : list Z) : RC * LogEntryBuffer * option Z :=
  let '(rc, entry) := entry_init 0 module_id data in
  if OB_FAIL rc then (rc, b, None)
  else
    let l := current_lsn_ b + 1 in
    let entry := set_lsn entry l in
    (RC_SUCCESS, mkBuffer (entries_ b ++ [entry]) (bytes_ b + total_size entry) l (flushed_lsn_ b) (max_bytes_ b), Some l).

(** One turn of the loop of [flush]: the first entry is taken out, and put back when it cannot be
    written.  The lock is held only while the deque changes. *)
Definition flush_one (b : LogEntryBuffer) (w : LogFileWriter) (d : Disk) :
    option (RC * LogEntryBuffer * LogFileWriter * Disk) :=
  match entries_ b with
  | [] => Some (RC_SUCCESS, b, w, d)
  | entry :: rest =>
      if (0 <? lsn entry) && (0 <? payload_size entry) then
        let b := mkBuffer rest (bytes_ b - total_size entry) (current_lsn_ b) (flushed_lsn_ b) (max_bytes_ b) in
        let '(rc, w, d) := writer_write w d entry in
        if OB_FAIL rc then
          Some (rc, mkBuffer (entry :: entries_ b) (bytes_ b) (current_lsn_ b) (flushed_lsn_ b) (max_bytes_ b), w, d)
        else Some (rc, mkBuffer (entries_ b) (bytes_ b) (current_lsn_ b) (lsn entry) (max_bytes_ b), w, d)
      else None
  end.

(** An entry that could not be written is put back, but its size is not added again. *)
Lemma flush_failure_drops_bytes b w d e rest rc b' w' d' :
  entries_ b = e :: rest → flush_one b w d = Some (rc, b', w', d') → rc ≠ RC_SUCCESS →
  entries_ b' = entries_ b ∧ bytes_ b' = bytes_ b - total_size e.
Proof.
  intros He. unfold flush_one. rewrite He. destruct (_ && _); [|done].
  destruct (writer_write w d e) as [[rc0 w0] d0]. destruct (OB_FAIL rc0) eqn:E.
  - by intros [= <- <- <- <-].
  - intros [= <- <- <- <-] Hrc. unfold OB_FAIL in E. by apply bool_decide_eq_false in E.
Qed.

(** [src/src/observer/storage/clog/log_buffer.cpp:62-96] [LogEntryBuffer::flush] [n] is the number of
    entries in the buffer, when nobody appends meanwhile; the last result is the count *)
Fixpoint flush (n : nat) (b : LogEntryBuffer) (w : LogFileWriter) (d : Disk) (count : Z) :
    option (RC * LogEntryBuffer * LogFileWriter * Disk * Z) :=
  match n with
  | O => Some (RC_SUCCESS, b, w, d, count)
  | S n =>
      '(rc, b, w, d) ← flush_one b w d;
      if OB_FAIL rc then Some (rc, b, w, d, count) else flush n b w d (count + 1)
  end.

(** [src/src/observer/storage/clog/log_buffer.cpp:103-106] [LogEntryBuffer::entry_number] *)
Definition entry_number (b : LogEntryBuffer) : Z := Z.of_nat (length (entries_ b)).

(** ** The handler *)

(** [src/src/observer/storage/clog/disk_log_handler.h:121-128] [DiskLogHandler] the members *)
Record DiskLogHandler := mkHandler {
  thread_ : bool;        (* the thread exists *)
  running_ : bool;
  file_manager_ : LogFileManager;
  entry_buffer_ : LogEntryBuffer;
}.

Definition with_buffer (h : DiskLogHandler) b : DiskLogHandler := mkHandler (thread_ h) (running_ h) (file_manager_ h) b.
Definition with_manager (h : DiskLogHandler) m : DiskLogHandler := mkHandler (thread_ h) (running_ h) m (entry_buffer_ h).

(** [src/src/observer/storage/clog/disk_log_handler.cpp:26-30] [DiskLogHandler::init] *)
Definition handler_init (names : option (list string)) (create_directories : bool) : RC * DiskLogHandler :=
  let '(rc, m) := manager_init names create_directories 1000 in
  (rc, mkHandler false false m new_buffer).

(** [src/src/observer/storage/clog/disk_log_handler.cpp:32-43] [DiskLogHandler::start] *)
Definition handler_start (h : DiskLogHandler) : RC * DiskLogHandler :=
  if thread_ h then (RC_INTERNAL, h)
  else (RC_SUCCESS, mkHandler true true (file_manager_ h) (entry_buffer_ h)).

(** [src/src/observer/storage/clog/disk_log_handler.cpp:45-56] [DiskLogHandler::stop] *)
Definition handler_stop (h : DiskLogHandler) : RC * DiskLogHandler :=
  if thread_ h then (RC_SUCCESS, mkHandler (thread_ h) false (file_manager_ h) (entry_buffer_ h))
  else (RC_INTERNAL, h).

(** [src/src/observer/storage/clog/disk_log_handler.cpp:58-74] [DiskLogHandler::await_termination] once
    the thread has ended *)
Definition await_termination (h : DiskLogHandler) : RC * DiskLogHandler :=
  if negb (thread_ h) then (RC_INTERNAL, h)
  else if running_ h then (RC_INTERNAL, h)
  else (RC_SUCCESS, mkHandler false (running_ h) (file_manager_ h) (entry_buffer_ h)).

(** [src/src/observer/storage/clog/disk_log_handler.cpp:136-148] [DiskLogHandler::_append] *)
Definition handler_append (h : DiskLogHandler) (module_id : Z) (data : list Z) : option (RC * DiskLogHandler * option Z) :=
  if running_ h then
    let '(rc, b, l) := buffer_append (entry_buffer_ h) module_id data in
    Some (rc, with_buffer h b, l)
  else None.

(** [src/src/observer/storage/clog/disk_log_handler.cpp:150-162] [DiskLogHandler::wait_lsn] [None] is a
    caller that still waits *)
Definition wait_lsn (h : DiskLogHandler) (l : Z) : option RC :=
  if running_ h && (flushed_lsn_ (entry_buffer_ h) <? l) then None
  else Some (if l <=? flushed_lsn_ (entry_buffer_ h) then RC_SUCCESS else RC_INTERNAL).

Section replay.
Context {S : Type} (consumer : S → LogEntry → S * RC).

Fixpoint iterate_files (names : list string) (sys : list SysResult) (d : Disk) (start_lsn : Z) (s : S) : option (RC * S) :=
  match names with
  | [] => Some (RC_SUCCESS, s)
  | name :: names =>
      match files d !! name with
      | None => Some (RC_FILE_OPEN, s)
      | Some file =>
          '(rc, s) ← iterate consumer sys (Some file) start_lsn s;
          if OB_FAIL rc then Some (rc, s) else iterate_files names sys d start_lsn s
      end
  end.

(** [src/src/observer/storage/clog/disk_log_handler.cpp:102-134] [DiskLogHandler::iterate]; [sys] are
    the outcomes of the reads of every file *)
Definition handler_iterate (h : DiskLogHandler) (sys : list SysResult) (d : Disk) (start_lsn : Z) (s : S) : option (RC * S) :=
  iterate_files (list_files (file_manager_ h) start_lsn) sys d start_lsn s.
End replay.

(** [src/src/observer/storage/clog/disk_log_handler.cpp:76-100] [DiskLogHandler::replay] *)
Definition handler_replay {S} (replayer : S → LogEntry → S * RC) (h : DiskLogHandler) (sys : list SysResult)
    (d : Disk) (start_lsn : Z) (s : S) : option (RC * DiskLogHandler * S) :=
  let replay_callback '(max_lsn, s) entry :=
    let max_lsn := if max_lsn <? lsn entry then lsn entry else max_lsn in
    let '(s, rc) := replayer s entry in ((max_lsn, s), rc) in
  '(rc, (max_lsn, s)) ← handler_iterate replay_callback h sys d start_lsn (0, s);
  if OB_FAIL rc then Some (rc, h, s)
  else Some (RC_SUCCESS, with_buffer h (buffer_init (entry_buffer_ h) max_lsn 0), s).

(** ** The thread *)

(** Where the thread is: before the test of its loop, with the file it writes and the last
    result; in [flush] with the number of entries flushed; or ended. *)
Inductive Thread :=
  | AtLoop (file_writer : LogFileWriter) (rc : RC)
  | InFlush (file_writer : LogFileWriter) (flush_count : Z)
  | Ended.

Record World := mkWorld { w_handler : DiskLogHandler; w_thread : Thread; w_disk : Disk }.

(** [src/src/observer/storage/clog/disk_log_handler.cpp:164-208] [DiskLogHandler::thread_func] one step
    of the thread; between two steps others can take the lock of the buffer *)
Definition thread_step (x : World) : option World :=
  let '(mkWorld h t d) := x in
  match t with
  | Ended => Some x
  | AtLoop file_writer rc =>
      if running_ h || (0 <? entry_number (entry_buffer_ h)) then
        if negb (writer_valid file_writer) || bool_decide (rc = RC_LOG_FILE_FULL) then
          let '(rc, m, file_writer, d) :=
            (if decide (rc = RC_LOG_FILE_FULL) then next_file (file_manager_ h) file_writer d
             else last_file (file_manager_ h) file_writer d) in
          let h := with_manager h m in
          Some (mkWorld h (if OB_FAIL rc then AtLoop file_writer rc else InFlush file_writer 0) d)
        else Some (mkWorld h (InFlush file_writer 0) d)
      else Some (mkWorld h Ended d)
  | InFlush file_writer flush_count =>
      match entries_ (entry_buffer_ h) with
      | [] => Some (mkWorld h (AtLoop file_writer RC_SUCCESS) d)
      | _ =>
          '(rc, b, file_writer, d) ← flush_one (entry_buffer_ h) file_writer d;
          Some (mkWorld (with_buffer h b)
                  (if OB_FAIL rc then AtLoop file_writer rc else InFlush file_writer (flush_count + 1)) d)
      end
  end.

(** The directory listing a new process sees. *)
Definition listing (d : Disk) (names : list string) : Prop :=
  NoDup names ∧ ∀ name, name ∈ names ↔ name ∈ dom (files d).

(** The histories of a log: the state of the program and the entries [append] has accepted in
    the history, of which a crash keeps those that were flushed.  A client never appends an empty
    record or one of 2 GiB; system calls may transfer less than asked and opening a file may fail,
    but no write reports an error, and a process that is followed by another one in the history died between the writes of two
    entries ([LogRecovery.death] is the last death, which may cut an entry).  Numbers stay below the limit of the [int]s that
    [LogFileWriter] keeps them in. *)
Inductive history : list LogEntry → World → Prop :=
  | h_first (sys : list SysResult) (opens : list bool) h h' :
      Forall no_error sys →
      handler_init None true = (RC_SUCCESS, h) → handler_start h = (RC_SUCCESS, h') →
      history [] (mkWorld h' (AtLoop new_writer RC_SUCCESS) (mkDisk ∅ sys opens))
  | h_append all h t d module_id data h' l :
      history all (mkWorld h t d) →
      append_waits (entry_buffer_ h) = false → data ≠ [] → Z.of_nat (length data) ≤ INT32_MAX → is_int32 module_id →
      handler_append h module_id data = Some (RC_SUCCESS, h', Some l) → l + 1001 ≤ INT32_MAX →
      history (all ++ [mkLogEntry (mkLogHeader l (Z.of_nat (length data)) module_id) data]) (mkWorld h' t d)
  | h_stop all h t d rc h' :
      history all (mkWorld h t d) → handler_stop h = (rc, h') → history all (mkWorld h' t d)
  | h_thread all x x' : history all x → thread_step x = Some x' → history all x'
  | h_crash all h t d names sys opens {S} (replayer : S → LogEntry → S * RC) s start_lsn h1 h2 s' h3 :
      history all (mkWorld h t d) → listing d names → Forall no_error sys →
      start_lsn ≤ flushed_lsn_ (entry_buffer_ h) →
      handler_init (Some names) true = (RC_SUCCESS, h1) →
      handler_replay replayer h1 sys d start_lsn s = Some (RC_SUCCESS, h2, s') →
      handler_start h2 = (RC_SUCCESS, h3) →
      history (take (Z.to_nat (flushed_lsn_ (entry_buffer_ h))) all)
        (mkWorld h3 (AtLoop new_writer RC_SUCCESS) (mkDisk (files d) sys opens)).
