(* ===== verification/LogRecovery.v ===== *)
(** * What the log keeps: an invariant of the running handler, and recovery

    [world_ok all f x]: the entries appended so far are [all], numbered from 1; the first [f] of
    them are in the files, each in the file its number belongs to, and the others are in the
    buffer.  Every interleaving of clients and thread keeps it, and a restart reads back exactly
    the first [f] entries. *)
From stdpp Require Import sorting pretty.
From S2P Require Import Prelude Rc Serializer LogFile LogManager LogHandler.

Definition per_file : Z := 1000.
#[local] Abbreviation name i := (log_file_name (first_lsn per_file i)).
#[local] Abbreviation first := (first_lsn per_file).

(** The entries have the numbers 1, 2, ... and are written as they are. *)
Definition numbered (all : list LogEntry) : Prop :=
  ∀ i e, all !! i = Some e → lsn e = Z.of_nat i + 1 ∧ entry_ok e ∧ 0 < payload_size e.

(** The entries of file [i]. *)
Definition group (i : nat) (es : list LogEntry) : list LogEntry :=
  List.filter (λ e, (first i <=? lsn e) && (lsn e <? first (S i))) es.

Record disk_ok (durable : list LogEntry) (k : nat) (d : Disk) : Prop := {
  dk_files : ∀ i, (i < k)%nat → files d !! name i = Some (file_of (group i durable));
  dk_none : ∀ i, (k ≤ i)%nat → files d !! name i = None;
  dk_only : ∀ nm l, nm ∈ dom (files d) → get_lsn_from_filename nm = (RC_SUCCESS, Some l) → ∃ i, nm = name i;
  dk_sys : Forall no_error (sys d);
  dk_count : Z.of_nat (length durable) < first k ∨ k = 0%nat ∧ durable = [];
}.

(** What the thread knows: [n] files are known to the manager. *)
Definition writer_ok (n k f : nat) (w : LogFileWriter) : Prop :=
  0 ≤ last_lsn_ w ≤ Z.of_nat f ∧
  (fd_ w = true → (0 < n)%nat ∧ k = n ∧ filename_ w = name (n - 1) ∧ end_lsn_ w = first n - 1).

Definition thread_ok (n k f : nat) (t : Thread) : Prop :=
  match t with
  | AtLoop w rc => writer_ok n k f w ∧ (rc = RC_LOG_FILE_FULL → fd_ w = true ∧ Z.of_nat f + 1 = first n)
  | InFlush w _ => writer_ok n k f w ∧ fd_ w = true
  | Ended => True
  end.

Record world_ok (all : list LogEntry) (f : nat) (x : World) : Prop := {
  wo_numbered : numbered all;
  wo_flushed : (f ≤ length all)%nat;
  wo_buffer : entries_ (entry_buffer_ (w_handler x)) = drop f all;
  wo_current : current_lsn_ (entry_buffer_ (w_handler x)) = Z.of_nat (length all);
  wo_flushed_lsn : flushed_lsn_ (entry_buffer_ (w_handler x)) = Z.of_nat f;
  wo_disk : ∃ n k, file_manager_ (w_handler x) = mkManager per_file (log_files per_file n) ∧
    disk_ok (take f all) k (w_disk x) ∧ (k = n ∨ S k = n) ∧
    (n = 0%nat ∨ first (n - 1) ≤ Z.of_nat f + 1) ∧ thread_ok n k f (w_thread x);
  wo_ended : w_thread x = Ended → running_ (w_handler x) = false ∧ f = length all;
}.

(** ** Groups *)
Lemma numbered_take all f : numbered all → numbered (take f all).
Proof. intros Hn i e Hi. apply lookup_take_Some in Hi as [Hi _]. by apply Hn. Qed.

Lemma numbered_snoc all e : numbered all → lsn e = Z.of_nat (length all) + 1 → entry_ok e → 0 < payload_size e →
  numbered (all ++ [e]).
Proof.
  intros Hn Hl Ho Hp i e' [Hi|[Hi He]]%lookup_app_Some; [by apply Hn|].
  apply list_lookup_singleton_Some in He as [? <-]. split_and!; try done. lia.
Qed.

Lemma numbered_ok all : numbered all → Forall entry_ok all.
Proof. intros Hn. apply Forall_lookup. intros i e Hi. by apply (Hn i e Hi). Qed.

Lemma group_snoc i es e :
  group i (es ++ [e]) = group i es ++ (if (first i <=? lsn e) && (lsn e <? first (S i)) then [e] else []).
Proof. unfold group. rewrite List.filter_app. simpl. by destruct (_ && _). Qed.

Lemma file_of_snoc es e : file_of (es ++ [e]) = file_of es ++ entry_bytes e.
Proof. unfold file_of. rewrite map_app, concat_app. simpl. by rewrite app_nil_r. Qed.

Lemma name_inj i j : name i = name j → i = j.
Proof.
  unfold log_file_name. intros E.
  apply (f_equal (λ s, String.substring (String.length file_prefix_)
    (String.length s - String.length file_suffix_ - String.length file_prefix_) s)) in E.
  rewrite !substring_middle in E. apply (inj pretty) in E. unfold first_lsn, per_file in E. lia.
Qed.

(** ** The steps *)
Definition same_files (d d' : Disk) : Prop := files d' = files d ∧ Forall no_error (sys d').

Lemma disk_ok_same es k d d' : disk_ok es k d → same_files d d' → disk_ok es k d'.
Proof. intros [H1 H2 H5 H3 H4] [Hf Hs]. constructor; rewrite ?Hf; done. Qed.

Lemma group_empty es i : numbered es → Z.of_nat (length es) < first i → group i es = [].
Proof.
  intros Hn Hl. unfold group. apply elem_of_nil_inv. intros e He.
  apply list_elem_of_In, filter_In in He as [He Hb]. apply list_elem_of_In, list_elem_of_lookup in He as [j Hj].
  apply andb_true_iff in Hb as [Hb _]. zify_bool.
  destruct (Hn j e Hj) as (Hlsn & _). apply lookup_lt_Some in Hj. lia.
Qed.

(** Opening file [n] makes it exist. *)
Lemma disk_ok_open es n k d o :
  numbered es → disk_ok es k d → k = S n ∨ k = n → Z.of_nat (length es) < first (S n) →
  disk_ok es (S n) (mkDisk (<[name n := default [] (files d !! name n)]> (files d)) (sys d) o).
Proof.
  intros Hn [H1 H2 H5 H3 H4] Hk Hc. destruct Hk as [-> | ->].
  - rewrite (H1 n) by lia. cbn [default from_option id]. rewrite insert_id by (apply H1; lia). by constructor.
  - rewrite (H2 n) by lia. cbn [default from_option id].
    assert (Hg : group n es = []).
    { destruct H4 as [H4|[Hk0 ->]]; [|done]. by apply group_empty. }
    constructor; cbn [files sys].
    + intros i Hi. destruct (decide (i = n)) as [->|Hne].
      * by rewrite lookup_insert_eq, Hg.
      * rewrite lookup_insert_ne by (intros ?%name_inj; congruence). apply H1. lia.
    + intros i Hi. rewrite lookup_insert_ne by (intros ?%name_inj; lia). apply H2. lia.
    + intros nm l. rewrite dom_insert_L, elem_of_union, elem_of_singleton. intros [->|Hnm]; [by exists n|eauto].
    + done.
    + by left.
Qed.

(** Writing the next entry to the last file. *)
Lemma disk_ok_write es n d e s o :
  numbered (es ++ [e]) → disk_ok es (S n) d → first n ≤ lsn e < first (S n) → Forall no_error s →
  disk_ok (es ++ [e]) (S n) (mkDisk (<[name n := default [] (files d !! name n) ++ entry_bytes e]> (files d)) s o).
Proof.
  intros Hn [H1 H2 H5 H3 H4] He Hs.
  assert (Hl : lsn e = Z.of_nat (length es) + 1) by (by apply (Hn (length es)), list_lookup_middle).
  rewrite (H1 n) by lia. cbn [default from_option id].
  constructor; cbn [files sys].
  - intros i Hi. rewrite group_snoc. destruct (decide (i = n)) as [->|Hne].
    + rewrite lookup_insert_eq, (proj2 (Z.leb_le _ _)), (proj2 (Z.ltb_lt _ _)) by lia. cbn [andb].
      by rewrite file_of_snoc.
    + rewrite lookup_insert_ne by (intros ?%name_inj; congruence).
      assert (Hi' : (i < n)%nat) by lia. rewrite (proj2 (Z.ltb_ge (lsn e) (first (S i)))).
      * by rewrite andb_false_r, app_nil_r, H1.
      * unfold first_lsn in *. unfold per_file in *. lia.
  - intros i Hi. rewrite lookup_insert_ne by (intros ?%name_inj; lia). by apply H2.
  - intros nm l. rewrite dom_insert_L, elem_of_union, elem_of_singleton. intros [->|Hnm]; [by exists n|eauto].
  - done.
  - left. rewrite length_app. cbn [length]. lia.
Qed.

(** A client's append. *)
Lemma append_ok all f h t d module_id data rc h' l :
  world_ok all f (mkWorld h t d) → data ≠ [] → Z.of_nat (length data) ≤ INT32_MAX → is_int32 module_id → Z.of_nat (length all) < INT32_MAX →
  handler_append h module_id data = Some (rc, h', l) →
  (rc = RC_INVALID_ARGUMENT ∧ h' = h ∧ l = None ∧ max_payload_size < to_int32 (Z.of_nat (length data))) ∨
  (rc = RC_SUCCESS ∧ ∃ e, l = Some (lsn e) ∧ data_ e = data ∧ lh_module_id (header_ e) = module_id ∧
     world_ok (all ++ [e]) f (mkWorld h' t d)).
Proof.
  intros [Hn Hf Hb Hc Hfl Hd He0] Hdata Hlen Hm Hmax. cbn [w_handler w_thread w_disk] in *. unfold handler_append.
  destruct (running_ h) eqn:Hrun; [|done]. unfold buffer_append, entry_init.
  rewrite to_int32_small by (unfold is_int32, INT32_MIN; lia).
  destruct (max_payload_size <? _) eqn:Hsz; zify_bool.
  - intros [= <- <- <-]. left. split_and!; try done. by destruct h.
  - change (OB_FAIL RC_SUCCESS) with false. cbv beta iota zeta. intros [= <- <- <-].
    right. split; [done|].
    set (e := mkLogEntry (mkLogHeader (current_lsn_ (entry_buffer_ h) + 1) (Z.of_nat (length data)) module_id) data).
    exists e. split_and!; [done..|].
    assert (He : entry_ok e ∧ 0 < payload_size e).
    { split; [|destruct data; [done|]; unfold payload_size, e; simpl; lia].
      constructor; unfold lsn, payload_size, e; cbn [header_ lh_lsn lh_module_id lh_size data_]; [|done|done|done].
      unfold is_int64, INT32_MAX in *. lia. }
    constructor; cbn [w_handler w_thread w_disk entry_buffer_ with_buffer entries_ current_lsn_ flushed_lsn_ file_manager_].
    + apply numbered_snoc; [done| |by apply He..]. unfold lsn. cbn. lia.
    + rewrite length_app. lia.
    + rewrite Hb, drop_app_le by lia. done.
    + rewrite length_app, Hc. cbn [length]. lia.
    + done.
    + by rewrite take_app_le by lia.
    + intros [? _]%He0. cbn [running_ with_buffer]. congruence.
Qed.

(** The thread opens a file. *)
Lemma open_next_ok es n k f w d :
  numbered es → length es = f → disk_ok es k d → writer_ok n k f w → Z.of_nat f + 1001 ≤ INT32_MAX →
  (k = n ∧ (n = 0%nat ∨ Z.of_nat f + 1 = first n)) →
  ∃ rc w' d', next_file (mkManager per_file (log_files per_file n)) w d =
      (rc, mkManager per_file (log_files per_file (S n)), w', d') ∧
    (rc = RC_SUCCESS ∧ fd_ w' = true ∧ writer_ok (S n) (S n) f w' ∧ disk_ok es (S n) d' ∨
     rc = RC_FILE_OPEN ∧ writer_ok (S n) n f w' ∧ disk_ok es n d').
Proof.
  intros Hn Hlen Hd [Hlast Hw] Hmax [-> Hcase]. rewrite next_file_canonical by (unfold per_file; lia).
  set (w1 := (writer_close w).2).
  assert (Hw1 : fd_ w1 = false ∧ last_lsn_ w1 = last_lsn_ w).
  { unfold w1, writer_close. by destruct (fd_ w) eqn:E. }
  destruct Hw1 as [Hfd Hl1]. unfold writer_open. rewrite Hfd.
  assert (Hfirst : first n ≤ Z.of_nat f + 1).
  { destruct Hcase as [-> | <-]; [unfold first_lsn; lia|lia]. }
  assert (Hcount : Z.of_nat (length es) < first (S n)).
  { unfold first_lsn, per_file in *. destruct (dk_count _ _ _ Hd) as [Hc|[_ ->]]; [|simpl; lia].
    unfold first_lsn, per_file in Hc. lia. }
  assert (Hend : to_int32 (first n + per_file - 1) = first (S n) - 1).
  { unfold first_lsn, per_file in *. rewrite to_int32_small; [lia|]. unfold is_int32, INT32_MIN, INT32_MAX in *. lia. }
  rewrite Hend. destruct (opens d) as [|[] o] eqn:Ho; cbv beta iota zeta; (eexists _, _, _; split; [done|]).
  - left. split_and!; try done; [split; cbn [last_lsn_ fd_ filename_ end_lsn_]; [lia|]|].
    + intros _. split_and!; [lia|done|by rewrite Nat.sub_succ, Nat.sub_0_r|done].
    + apply (disk_ok_open es n n); [done|done|by right|done].
  - left. split_and!; try done; [split; cbn [last_lsn_ fd_ filename_ end_lsn_]; [lia|]|].
    + intros _. split_and!; [lia|done|by rewrite Nat.sub_succ, Nat.sub_0_r|done].
    + apply (disk_ok_open es n n); [done|done|by right|done].
  - right. split_and!; [done| |apply (disk_ok_same _ _ d); [done|split; [done|apply Hd]]]. split; cbn [last_lsn_ fd_]; [lia|done].
Qed.

Lemma open_last_ok es n k f w d :
  numbered es → length es = f → disk_ok es k d → writer_ok n k f w → Z.of_nat f + 1001 ≤ INT32_MAX →
  k = n ∨ S k = n → (n = 0%nat ∨ first (n - 1) ≤ Z.of_nat f + 1) → Z.of_nat f < first n ∨ n = 0%nat →
  (n = 0%nat → f = 0%nat) →
  ∃ rc n' k' w' d', last_file (mkManager per_file (log_files per_file n)) w d =
      (rc, mkManager per_file (log_files per_file n'), w', d') ∧
    (k' = n' ∨ S k' = n') ∧ (0 < n')%nat ∧ first (n' - 1) ≤ Z.of_nat f + 1 ∧
    writer_ok n' k' f w' ∧ disk_ok es k' d' ∧ (rc = RC_SUCCESS ∧ fd_ w' = true ∨ rc = RC_FILE_OPEN).
Proof.
  intros Hn Hlen Hd Hw Hmax Hk Hfn Hlt H0. unfold last_file. cbn [log_files_]. destruct n as [|n].
  - assert (k = 0%nat) as -> by lia. 
    destruct (open_next_ok es 0 0 f w d Hn Hlen Hd Hw Hmax) as (rc & w' & d' & E & Hcase); [by auto|].
    change (log_files per_file 0) with (@nil (Z * string)) in E |- *. cbn [last]. rewrite E.
    destruct Hcase as [(-> & Hfd & Hw' & Hd')|(-> & Hw' & Hd')]; eexists _, 1%nat, _, w', d';
      split; try done; split_and!; try done; try (by auto); unfold first_lsn; simpl; lia.
  - rewrite log_files_S, last_snoc. set (w1 := (writer_close w).2).
    assert (Hw1 : fd_ w1 = false ∧ last_lsn_ w1 = last_lsn_ w).
    { unfold w1, writer_close. by destruct (fd_ w) eqn:E. }
    assert (Ec : writer_close w = ((writer_close w).1, w1)) by (by destruct (writer_close w)).
    rewrite Ec. destruct Hw1 as [Hfd Hl1]. unfold writer_open. rewrite Hfd. cbn [max_entry_number_per_file_].
    rewrite Nat.sub_succ, Nat.sub_0_r in Hfn. destruct Hw as [Hlast _].
    assert (Hend : to_int32 (first n + per_file - 1) = first (S n) - 1).
    { unfold first_lsn, per_file in *. rewrite to_int32_small; [lia|]. unfold is_int32, INT32_MIN, INT32_MAX in *. lia. }
    rewrite Hend, <- log_files_S.
    destruct (opens d) as [|[] o] eqn:Ho; cbv beta iota zeta; eexists _, (S n), _, _, _; (split; [done|]).
    + split_and!; [by left|lia|rewrite Nat.sub_succ, Nat.sub_0_r; lia| | |by left].
      * split; cbn [last_lsn_ fd_ filename_ end_lsn_]; [lia|]. intros _. rewrite Nat.sub_succ, Nat.sub_0_r. split_and!; [lia|done..].
      * apply (disk_ok_open es n k); [done|done|lia|]. lia.
    + split_and!; [by left|lia|rewrite Nat.sub_succ, Nat.sub_0_r; lia| | |by left].
      * split; cbn [last_lsn_ fd_ filename_ end_lsn_]; [lia|]. intros _. rewrite Nat.sub_succ, Nat.sub_0_r. split_and!; [lia|done..].
      * apply (disk_ok_open es n k); [done|done|lia|]. lia.
    + split_and!; [exact Hk|lia|rewrite Nat.sub_succ, Nat.sub_0_r; lia| |apply (disk_ok_same _ _ d); [done|split; [done|apply Hd]]|by right].
      split; cbn [last_lsn_ fd_]; [lia|done].
Qed.

(** Writing the first entry of the buffer. *)
Lemma flush_one_ok all f b w d n k :
  numbered all → entries_ b = drop f all → (f < length all)%nat → Z.of_nat (length all) ≤ INT32_MAX →
  disk_ok (take f all) k d → writer_ok n k f w → fd_ w = true → first (n - 1) ≤ Z.of_nat f + 1 →
  ∃ rc b' w' d', flush_one b w d = Some (rc, b', w', d') ∧ current_lsn_ b' = current_lsn_ b ∧
    (rc = RC_SUCCESS ∧ entries_ b' = drop (S f) all ∧ flushed_lsn_ b' = Z.of_nat (S f) ∧
       disk_ok (take (S f) all) k d' ∧ writer_ok n k (S f) w' ∧ fd_ w' = true ∧ Z.of_nat f + 1 < first n ∨
     rc = RC_LOG_FILE_FULL ∧ entries_ b' = drop f all ∧ flushed_lsn_ b' = flushed_lsn_ b ∧ d' = d ∧ w' = w ∧
       Z.of_nat f + 1 = first n).
Proof.
  intros Hn Hb Hf Hmax Hd [Hlast Hw] Hfd Hfirst. destruct (Hw Hfd) as (Hn0 & -> & Hfn & Hend).
  destruct (lookup_lt_is_Some_2 all f Hf) as [e He]. destruct (Hn f e He) as (Hlsn & Hok & Hpay).
  unfold flush_one. rewrite Hb, (drop_S all e f He), Hlsn, (proj2 (Z.ltb_lt _ _)), (proj2 (Z.ltb_lt _ _)) by lia.
  cbn [andb]. destruct (Z.lt_ge_cases (end_lsn_ w) (lsn e)) as [Hfull|Hroom].
  - unfold writer_write. rewrite (proj2 (Z.ltb_lt _ _) Hfull). change (OB_FAIL RC_LOG_FILE_FULL) with true.
    cbv beta iota zeta. eexists _, _, w, d. split; [done|]. split; [done|]. right. cbn [entries_ flushed_lsn_].
    split_and!; try done. destruct (dk_count _ _ _ Hd) as [Hc|[? _]]; [|lia].
    rewrite length_take, Nat.min_l in Hc by lia. lia.
  - destruct (writer_write_good w d e) as (s & Hs & ->); [apply Hd|done|lia|unfold is_int32, INT32_MIN; lia|].
    change (OB_FAIL RC_SUCCESS) with false. cbv beta iota zeta. eexists _, _, _, _. split; [done|]. split; [done|].
    left. cbn [entries_ flushed_lsn_]. assert (Htake : take (S f) all = take f all ++ [e]) by (by apply take_S_r).
    destruct n as [|n]; [lia|]. rewrite Nat.sub_succ, Nat.sub_0_r in *.
    split_and!; try done; [lia| | |lia].
    + rewrite Htake, Hfn. apply disk_ok_write; [rewrite <- Htake; by apply numbered_take|done|lia|done].
    + split; cbn [last_lsn_ fd_ filename_ end_lsn_]; [lia|]. intros _. rewrite Nat.sub_succ, Nat.sub_0_r. split_and!; [lia|done..].
Qed.

Lemma thread_step_ok all f x :
  world_ok all f x → Z.of_nat (length all) + 1001 ≤ INT32_MAX →
  ∃ x' f', thread_step x = Some x' ∧ world_ok all f' x' ∧ (f ≤ f')%nat.
Proof.
  destruct x as [h t d]. intros [Hn Hf Hb Hc Hfl (n & k & Hm & Hd & Hk & Hfirst & Ht) He0] Hmax.
  cbn [w_handler w_thread w_disk] in *. unfold thread_step. pose proof (numbered_take all f Hn) as Hnt.
  assert (Hlen : length (take f all) = f) by (rewrite length_take; lia).
  assert (Hkeep : ∀ t' d' n' k' m', m' = mkManager per_file (log_files per_file n') → disk_ok (take f all) k' d' →
     (k' = n' ∨ S k' = n') → (n' = 0%nat ∨ first (n' - 1) ≤ Z.of_nat f + 1) → thread_ok n' k' f t' →
     (t' = Ended → running_ h = false ∧ f = length all) →
     world_ok all f (mkWorld (with_manager h m') t' d')).
  { intros t' d' n' k' m' -> ?????. constructor; try done. by exists n', k'. }
  assert (Hsame : with_manager h (mkManager per_file (log_files per_file n)) = h) by (rewrite <- Hm; by destruct h).
  destruct t as [w rc|w count|].
  - destruct Ht as [Hw Hfull]. destruct (running_ h || _) eqn:Hidle.
    + destruct (negb (writer_valid w) || _) eqn:Hopen.
      * rewrite Hm. case_decide as Hrc.
        -- destruct (Hfull Hrc) as [Hfd Hfn]. pose proof Hw as [_ Hw2]. destruct (Hw2 Hfd) as (Hn0 & -> & _).
           destruct (open_next_ok (take f all) n n f w d Hnt Hlen Hd Hw ltac:(lia)) as (rc' & w' & d' & -> & Hcase); [auto|].
           eexists _, f. split; [done|]. split; [|done].
           destruct Hcase as [(-> & Hfd' & Hw' & Hd')|(-> & Hw' & Hd')].
           ++ apply (Hkeep _ _ (S n) (S n)); [done|done|by left|right; rewrite Nat.sub_succ, Nat.sub_0_r; lia|done|done].
           ++ apply (Hkeep _ _ (S n) n); [done|done|by right|right; rewrite Nat.sub_succ, Nat.sub_0_r; lia|done|done].
        -- assert (Hlt : Z.of_nat f < first n ∨ n = 0%nat).
           { destruct (dk_count _ _ _ Hd) as [Hcn|[-> Hnil]]; rewrite ?Hlen in *.
             - left. unfold first_lsn, per_file in *. lia.
             - apply (f_equal length) in Hnil. rewrite Hlen in Hnil. simpl in Hnil. unfold first_lsn, per_file. lia. }
           assert (H0 : n = 0%nat → f = 0%nat).
           { intros ->. destruct (dk_count _ _ _ Hd) as [Hcn|[_ Hnil]]; [unfold first_lsn in Hcn; lia|].
             apply (f_equal length) in Hnil. rewrite Hlen in Hnil. done. }
           destruct (open_last_ok (take f all) n k f w d Hnt Hlen Hd Hw ltac:(lia) Hk Hfirst Hlt H0)
             as (rc' & n' & k' & w' & d' & -> & Hk' & Hn0 & Hfirst' & Hw' & Hd' & Hcase).
           eexists _, f. split; [done|]. split; [|done].
           destruct Hcase as [[-> Hfd']| ->]; (apply (Hkeep _ _ n' k'); [done|done|done|by right|done|done]).
      * eexists _, f. split; [done|]. split; [|done]. rewrite <- Hsame. apply (Hkeep _ _ n k); try done.
        split; [done|]. apply orb_false_iff in Hopen as [Hv _]. by apply negb_false_iff in Hv.
    + eexists _, f. split; [done|]. split; [|done]. rewrite <- Hsame. apply (Hkeep _ _ n k); try done. intros _.
      apply orb_false_iff in Hidle as [Hr Hnum]. split; [done|]. unfold entry_number in Hnum. rewrite Hb, length_drop in Hnum. zify_bool. lia.
  - destruct Ht as [Hw Hfd]. pose proof Hw as [_ Hw2]. destruct (Hw2 Hfd) as (Hn0 & -> & _).
    assert (Hfirst' : first (n - 1) ≤ Z.of_nat f + 1) by lia.
    destruct (entries_ (entry_buffer_ h)) as [|e rest] eqn:He.
    + eexists _, f. split; [done|]. split; [|done]. rewrite <- Hsame. by apply (Hkeep _ _ n n); auto.
    + assert (Hlt : (f < length all)%nat).
      { apply (f_equal length) in Hb. rewrite length_drop in Hb. simpl in Hb. lia. }
      destruct (flush_one_ok all f (entry_buffer_ h) w d n n) as (rc & b & w' & d' & -> & Hcur & Hcase); try done; [by rewrite He|lia|].
      cbn [mbind option_bind].
      destruct Hcase as [(-> & Hb' & Hfl' & Hd' & Hw' & Hfd' & Hlt')|(-> & Hb' & Hfl' & -> & -> & Hfn)].
      * eexists _, (S f). split; [done|]. split; [|lia]. constructor; cbn [w_handler w_thread w_disk with_buffer entry_buffer_ file_manager_]; try done; [congruence|].
        exists n, n. split_and!; try done; first [by left|right; lia].
      * eexists _, f. split; [done|]. split; [|done]. constructor; cbn [w_handler w_thread w_disk with_buffer entry_buffer_ file_manager_]; try done; [congruence|congruence|].
        exists n, n. split_and!; try done; by left.
  - eexists _, f. split; [done|]. split; [|done]. constructor; try done. by exists n, k.
Qed.

(** ** Reading the log back *)
Lemma feed_app {S} (cb : S → LogEntry → S * RC) s es1 es2 :
  feed cb s (es1 ++ es2) = (let '(rc, s) := feed cb s es1 in if OB_FAIL rc then (rc, s) else feed cb s es2).
Proof.
  revert s. induction es1 as [|e es1 IH]; intros s; [done|]. cbn [app feed].
  destruct (cb s e) as [s1 rc]. destruct (OB_FAIL rc) eqn:E; [by rewrite E|]. apply IH.
Qed.

Lemma ascending_weaken lo lo' hi es : lo' ≤ lo → ascending lo hi es → ascending lo' hi es.
Proof. destruct es as [|e es]; [done|]. cbn [ascending]. intros ? [? ?]. split; [lia|done]. Qed.

Lemma ascending_filter lo hi es P : ascending lo hi es → ascending lo hi (List.filter P es).
Proof.
  revert lo. induction es as [|e es IH]; intros lo; [done|]. cbn [ascending List.filter]. intros [He Hes].
  destruct (P e); [split; [done|by apply IH]|]. apply (ascending_weaken (lsn e)); [lia|by apply IH].
Qed.

Lemma ascending_Forall lo hi es : ascending lo hi es → Forall (λ e, lo < lsn e ≤ hi) es.
Proof.
  revert lo. induction es as [|e es IH]; intros lo; [constructor|]. cbn [ascending]. intros [He Hes].
  constructor; [done|]. eapply Forall_impl; [by apply IH|]. simpl. lia.
Qed.

Lemma numbered_ascending es : numbered es → ascending 0 (Z.of_nat (length es)) es.
Proof.
  intros Hn. assert (Hgen : ∀ suf c, (∀ i e, suf !! i = Some e → lsn e = c + Z.of_nat i + 1) →
    ascending c (c + Z.of_nat (length suf)) suf).
  { induction suf as [|e suf IH]; intros c Hc; [done|]. pose proof (Hc 0%nat e eq_refl). cbn [ascending length].
    split; [lia|]. replace (c + Z.of_nat (S (length suf))) with (lsn e + Z.of_nat (length suf)) by lia.
    apply IH. intros i e' Hi. rewrite (Hc (S i) e' Hi). lia. }
  specialize (Hgen es 0). apply Hgen. intros i e Hi. destruct (Hn i e Hi). lia.
Qed.

(** The entries below a bound and the entries between two bounds. *)
Lemma ascending_split lo hi es c c' : ascending lo hi es → c ≤ c' →
  List.filter (λ e, lsn e <? c') es =
  List.filter (λ e, lsn e <? c) es ++ List.filter (λ e, (c <=? lsn e) && (lsn e <? c')) es.
Proof.
  intros Hasc Hc. revert lo Hasc. induction es as [|e es IH]; intros lo; [done|]. cbn [ascending List.filter].
  intros [He Hes]. pose proof (ascending_Forall _ _ _ Hes) as Hall. specialize (IH _ Hes).
  destruct (Z.ltb_spec (lsn e) c) as [H1|H1].
  - rewrite (proj2 (Z.ltb_lt _ _)), (proj2 (Z.leb_gt _ _)) by lia. cbn [andb]. by rewrite IH.
  - assert (Hnil : List.filter (λ e, lsn e <? c) es = []).
    { clear IH. induction Hall as [|e' es' He' _ IHl]; [done|]. cbn [List.filter ascending] in *.
      rewrite (proj2 (Z.ltb_ge _ _)) by lia. apply IHl. destruct Hes as [? Hes]. apply (ascending_weaken (lsn e')); [lia|done]. }
    rewrite Hnil in IH |- *. cbn [app] in *. rewrite (proj2 (Z.leb_le _ _)) by done. cbn [andb]. by rewrite IH.
Qed.

Lemma groups_all es k : numbered es →
  concat (map (λ i, group i es) (seq 0 k)) = List.filter (λ e, lsn e <? first k) es.
Proof.
  intros Hn. pose proof (numbered_ascending es Hn) as Hasc. induction k as [|k IH].
  - symmetry. apply elem_of_nil_inv. intros e [He Hlt]%list_elem_of_In%filter_In.
    pose proof (ascending_Forall _ _ _ Hasc) as Hall. rewrite Forall_forall in Hall.
    apply list_elem_of_In, Hall in He. unfold first_lsn in Hlt. zify_bool. lia.
  - rewrite seq_S, map_app, concat_app, IH. cbn [map concat Nat.add]. rewrite app_nil_r.
    rewrite (ascending_split 0 _ es (first k) (first (S k)) Hasc); [done|]. unfold first_lsn, per_file. lia.
Qed.

Lemma filter_concat {T} (P : T → bool) ls : List.filter P (concat ls) = concat (map (List.filter P) ls).
Proof. induction ls as [|l ls IH]; [done|]. cbn [concat map]. by rewrite List.filter_app, IH. Qed.

Lemma filter_andb {T} (P Q : T → bool) l : List.filter P (List.filter Q l) = List.filter (λ x, Q x && P x) l.
Proof. induction l as [|x l IH]; [done|]. cbn [List.filter]. destruct (Q x); cbn [List.filter andb]; by rewrite IH. Qed.

(** Files that end before the start hold nothing to read. *)
Lemma groups_from es k start : numbered es → Z.of_nat (length es) < first k ∨ es = [] →
  concat (map (λ i, List.filter (λ e, start <=? lsn e) (group i es))
            (List.filter (λ i, start <=? first i + per_file - 1) (seq 0 k))) =
  List.filter (λ e, start <=? lsn e) es.
Proof.
  intros Hn Hlen.
  assert (Hes : concat (map (λ i, group i es) (seq 0 k)) = es).
  { rewrite groups_all by done. destruct Hlen as [Hlen| ->]; [|done]. apply filter_all.
    eapply Forall_impl; [apply ascending_Forall, numbered_ascending, Hn|]. intros e He. simpl in He. apply Z.ltb_lt. lia. }
  transitivity (List.filter (λ e, start <=? lsn e) (concat (map (λ i, group i es) (seq 0 k)))); [|by rewrite Hes].
  rewrite filter_concat, map_map. generalize (seq 0 k) as idx. clear Hes Hlen.
  induction idx as [|i idx IH]; [done|]. cbn [List.filter map concat]. rewrite <- IH.
  destruct (start <=? first i + per_file - 1) eqn:E; [done|]. zify_bool.
  assert (Hnil : List.filter (λ e, start <=? lsn e) (group i es) = []); [|by rewrite Hnil].
  unfold group. rewrite filter_andb. apply filter_none, Forall_true. intros e.
  apply not_true_iff_false. intros [[H1 H2]%andb_true_iff H3]%andb_true_iff. zify_bool.
  unfold first_lsn, per_file in *. lia.
Qed.

Section iterate.
Context {S : Type} (consumer : S → LogEntry → S * RC).

(** Reading the files that may hold entries from [start]. *)
Lemma iterate_files_spec es k d sys start idx : ∀ s,
  numbered es → disk_ok es k d → Forall no_error sys → Forall (λ i, (i < k)%nat) idx →
  iterate_files consumer (map (λ i, name i) idx) sys d start s =
    Some (feed consumer s (concat (map (λ i, List.filter (λ e, start <=? lsn e) (group i es)) idx))).
Proof.
  intros s Hn Hd Hs His. revert s. induction His as [|i idx Hi _ IH]; intros s; [done|].
  cbn [map iterate_files concat]. rewrite (dk_files _ _ _ Hd i Hi).
  rewrite <- (app_nil_r (file_of (group i es))).
  rewrite (iterate_spec consumer sys (group i es) [] (mkLogEntry (mkLogHeader 0 0 0) []));
    [|done| |entry_ok|by split; [vm_compute; lia|]|left; simpl; lia].
  - cbn [mbind option_bind].
    rewrite (ascending_from_lsn 0 (Z.of_nat (length es))) by (apply ascending_filter, numbered_ascending, Hn).
    rewrite feed_app. destruct (feed consumer s _) as [rc s1]. unfold tail_code. cbn [length].
    destruct (OB_FAIL rc) eqn:E; [by rewrite E|]. change (OB_FAIL RC_SUCCESS) with false. apply IH.
  - unfold group. pose proof (numbered_ok es Hn) as Hok. clear -Hok. induction Hok as [|e es He _ IH]; [constructor|].
    cbn [List.filter]. destruct (_ && _); [by constructor|done].
Qed.

Lemma handler_iterate_spec es k d sys start s h :
  numbered es → disk_ok es k d → Forall no_error sys → file_manager_ h = mkManager per_file (log_files per_file k) →
  handler_iterate consumer h sys d start s = Some (feed consumer s (List.filter (λ e, start <=? lsn e) es)).
Proof.
  intros Hn Hd Hs Hm. unfold handler_iterate, list_files. rewrite Hm. cbn [log_files_ max_entry_number_per_file_].
  assert (E : (List.filter (λ f, start <=? f.1 + per_file - 1) (log_files per_file k)).*2 =
    map (λ i, name i) (List.filter (λ i, start <=? first i + per_file - 1) (seq 0 k))).
  { unfold log_files. generalize (seq 0 k) as idx. induction idx as [|i idx IH]; [done|].
    cbn [fmap list_fmap List.filter fst snd]. destruct (start <=? _); cbn [fmap list_fmap map snd]; by rewrite IH. }
  rewrite E, (iterate_files_spec es k) by (try done; apply Forall_forall; intros i [Hi _]%list_elem_of_In%filter_In; apply in_seq in Hi; lia).
  rewrite groups_from; [done|done|]. destruct (dk_count _ _ _ Hd) as [?|[_ ?]]; auto.
Qed.

(** *** A file with half an entry at its end *)
Lemma iterate_files_app names1 names2 sys d start : ∀ s,
  iterate_files consumer (names1 ++ names2) sys d start s =
    '(rc, s) ← iterate_files consumer names1 sys d start s;
    if OB_FAIL rc then Some (rc, s) else iterate_files consumer names2 sys d start s.
Proof.
  induction names1 as [|nm names1 IH]; intros s; [done|]. cbn [app iterate_files].
  destruct (files d !! nm) as [file|]; [|done]. destruct (iterate _ _ _ _ _) as [[rc s1]|]; [|done]. cbn [mbind option_bind].
  destruct (OB_FAIL rc) eqn:E; [cbn [mbind option_bind]; by rewrite E|]. apply IH.
Qed.

Lemma iterate_files_ext names sys d d' start : Forall (λ nm, files d' !! nm = files d !! nm) names → ∀ s,
  iterate_files consumer names sys d' start s = iterate_files consumer names sys d start s.
Proof.
  induction 1 as [|nm names Hnm _ IH]; intros s; [done|]. cbn [iterate_files]. rewrite Hnm.
  destruct (files d !! nm) as [file|]; [|done]. destruct (iterate _ _ _ _ _) as [[rc s1]|]; [|done]. cbn [mbind option_bind]. by rewrite IH.
Qed.

(** The disk when the process dies after [j] bytes of the entry [e] have reached file [n]. *)
Definition half_written (d : Disk) (filename : string) (j : nat) (e : LogEntry) : Disk :=
  mkDisk (<[filename := default [] (files d !! filename) ++ take j (entry_bytes e)]> (files d)) (sys d) (opens d).

Lemma group_ok es i : numbered es → Forall entry_ok (group i es).
Proof.
  intros Hn. apply Forall_forall. intros e [He _]%list_elem_of_In%filter_In. pose proof (numbered_ok es Hn) as Hok.
  rewrite Forall_forall in Hok. by apply Hok, list_elem_of_In.
Qed.

Lemma handler_iterate_torn es n d sys start s h j e :
  numbered (es ++ [e]) → disk_ok es (Datatypes.S n) d → Forall no_error sys →
  file_manager_ h = mkManager per_file (log_files per_file (Datatypes.S n)) →
  start ≤ Z.of_nat (length es) → first n ≤ lsn e < first (Datatypes.S n) → (j < length (entry_bytes e))%nat →
  handler_iterate consumer h sys (half_written d (name n) j e) start s =
    Some (let '(rc, s) := feed consumer s (List.filter (λ e, start <=? lsn e) es) in
          (if OB_FAIL rc then rc else if (j <? 16)%nat then RC_SUCCESS else RC_IOERR_READ, s)).
Proof.
  intros Hna Hd Hs Hm Hstart Hfile Hj.
  assert (Hn : numbered es) by (rewrite <- (take_app_length es [e]); by apply numbered_take).
  destruct (Hna (length es) e) as (Hl & He & _); [by apply list_lookup_middle|].
  unfold handler_iterate, list_files. rewrite Hm. cbn [log_files_ max_entry_number_per_file_].
  set (idx := List.filter (λ i, start <=? first i + per_file - 1) (seq 0 n)).
  assert (E : (List.filter (λ f, start <=? f.1 + per_file - 1) (log_files per_file (Datatypes.S n))).*2 = map (λ i, name i) idx ++ [name n]).
  { unfold log_files. rewrite seq_S, fmap_app, List.filter_app, fmap_app. f_equal.
    - unfold idx. generalize (seq 0 n) as ids. induction ids as [|i ids IH]; [done|].
      cbn [fmap list_fmap List.filter fst snd]. destruct (start <=? _); cbn [fmap list_fmap map snd]; by rewrite IH.
    - cbn [fmap list_fmap List.filter fst snd Nat.add]. rewrite (proj2 (Z.leb_le _ _)); [done|]. unfold first_lsn, per_file in *. lia. }
  rewrite E, iterate_files_app.
  assert (Hidx : Forall (λ i, (i < n)%nat) idx).
  { apply Forall_forall. intros i [Hi _]%list_elem_of_In%filter_In. apply in_seq in Hi. lia. }
  rewrite (iterate_files_ext _ _ d).
  2:{ apply Forall_map. eapply Forall_impl; [exact Hidx|]. intros i Hi. cbn in Hi |- *. apply lookup_insert_ne. intros ?%name_inj. lia. }
  rewrite (iterate_files_spec es (Datatypes.S n)) by (first [done|eapply Forall_impl; [exact Hidx|]; intros i Hi; cbn in Hi |- *; lia]).
  cbn [mbind option_bind].
  assert (Hall : List.filter (λ e, start <=? lsn e) es =
    concat (map (λ i, List.filter (λ e, start <=? lsn e) (group i es)) idx) ++ List.filter (λ e, start <=? lsn e) (group n es)).
  { rewrite <- (groups_from es (Datatypes.S n) start Hn) by (destruct (dk_count _ _ _ Hd) as [?|[_ ?]]; auto).
    rewrite seq_S, List.filter_app, map_app, concat_app. fold idx. cbn [List.filter Nat.add].
    rewrite (proj2 (Z.leb_le start _)) by (unfold first_lsn, per_file in *; lia). cbn [map concat]. by rewrite app_nil_r. }
  rewrite Hall, feed_app. destruct (feed consumer s (concat _)) as [rc s1].
  destruct (OB_FAIL rc) eqn:Erc; [by rewrite Erc|]. cbn [iterate_files half_written files]. rewrite lookup_insert_eq.
  rewrite (dk_files _ _ _ Hd n) by lia. cbn [default from_option id].
  rewrite (iterate_spec consumer sys (group n es) _ e); [|done|by apply group_ok|done| |right; lia].
  - cbn [mbind option_bind]. rewrite (ascending_from_lsn 0 (Z.of_nat (length es))) by (apply ascending_filter, numbered_ascending, Hn).
    destruct (feed consumer s1 _) as [rc2 s2]. unfold tail_code. rewrite length_take, Nat.min_l by lia.
    destruct (OB_FAIL rc2) eqn:E2; [by rewrite E2|]. by destruct (j <? 16)%nat.
  - unfold torn. by rewrite length_take, Nat.min_l by lia.
Qed.

(** [replay] also finds the greatest number. *)
Definition replay_callback : Z * S → LogEntry → (Z * S) * RC := λ '(max_lsn, s) entry,
  let max_lsn := if max_lsn <? lsn entry then lsn entry else max_lsn in
  let '(s, rc) := consumer s entry in ((max_lsn, s), rc).

Lemma feed_replay es lo hi : ∀ m s, ascending lo hi es → m ≤ lo →
  ∃ m', feed replay_callback (m, s) es = ((feed consumer s es).1, (m', (feed consumer s es).2)) ∧
    ((feed consumer s es).1 = RC_SUCCESS → m' = match last es with Some e => lsn e | None => m end).
Proof.
  revert lo. induction es as [|e es IH]; intros lo m s Hasc Hm; [by exists m|].
  destruct Hasc as [He Hes]. cbn [feed replay_callback]. rewrite (proj2 (Z.ltb_lt m (lsn e))) by lia.
  destruct (consumer s e) as [s1 rc] eqn:Ec. destruct (OB_FAIL rc) eqn:E.
  - exists (lsn e). split; [done|]. cbn [fst]. intros ->. done.
  - destruct (IH (lsn e) (lsn e) s1 Hes ltac:(lia)) as (m' & -> & Hm'). exists m'. split; [done|].
    intros Hrc. rewrite (Hm' Hrc). rewrite last_cons. by destruct (last es).
Qed.
End iterate.

(** ** Restart *)
Lemma last_filter {T} (P : T → bool) l x : last l = Some x → P x = true → last (List.filter P l) = Some x.
Proof.
  intros Hl Hp. apply last_Some in Hl as [l' ->]. rewrite List.filter_app. cbn [List.filter]. rewrite Hp.
  by rewrite last_snoc.
Qed.

Lemma restart_manager es k d names h1 :
  disk_ok es k d → first k < 2 ^ 63 → listing d names →
  handler_init (Some names) true = (RC_SUCCESS, h1) →
  h1 = mkHandler false false (mkManager per_file (log_files per_file k)) new_buffer.
Proof.
  intros Hd Hk [Hnd Hnames]. unfold handler_init. change 1000 with per_file.
  rewrite (manager_init_canonical per_file ltac:(unfold per_file; lia) k names true Hk Hnd); [by intros [= <-]| |].
  - intros i Hi. apply Hnames, elem_of_dom. rewrite (dk_files _ _ _ Hd i Hi). eauto.
  - intros nm l Hnm Hl. apply Hnames in Hnm. destruct (dk_only _ _ _ Hd nm l Hnm Hl) as [i ->].
    exists i. split; [|done]. destruct (decide (i < k)%nat) as [?|Hge]; [done|].
    apply elem_of_dom in Hnm as [? Hsome]. rewrite (dk_none _ _ _ Hd i) in Hsome by lia. done.
Qed.

Section restart.
Context {S : Type} (replayer : S → LogEntry → S * RC).

(** What a restart replays. *)
Lemma replay_spec es k d sys start s h :
  numbered es → disk_ok es k d → Forall no_error sys → file_manager_ h = mkManager per_file (log_files per_file k) →
  start ≤ Z.of_nat (length es) →
  handler_replay replayer h sys d start s =
    (let '(rc, s') := feed replayer s (List.filter (λ e, start <=? lsn e) es) in
     Some (if OB_FAIL rc then (rc, h, s')
           else (RC_SUCCESS, with_buffer h (buffer_init (entry_buffer_ h) (Z.of_nat (length es)) 0), s'))).
Proof.
  intros Hn Hd Hs Hm Hstart. unfold handler_replay.
  change (handler_iterate _ h sys d start (0, s)) with (handler_iterate (replay_callback replayer) h sys d start (0, s)).
  rewrite (handler_iterate_spec (replay_callback replayer) es k) by done. cbn [mbind option_bind].
  pose proof (ascending_filter 0 (Z.of_nat (length es)) es (λ e, start <=? lsn e) (numbered_ascending es Hn)) as Hasc.
  destruct (feed_replay replayer _ 0 _ 0 s Hasc ltac:(lia)) as (m' & -> & Hm').
  destruct (feed replayer s _) as [rc s'] eqn:E. cbn [fst snd] in *. destruct (OB_FAIL rc) eqn:Hrc; [done|].
  assert (Hmax : m' = Z.of_nat (length es)); [|by subst m'].
  rewrite Hm' by (unfold OB_FAIL in Hrc; by apply bool_decide_eq_false, dec_stable in Hrc).
  destruct (last es) as [e|] eqn:El.
  - assert (He : es !! (length es - 1)%nat = Some e) by (rewrite last_lookup in El; by rewrite Nat.sub_1_r).
    destruct (Hn _ _ He) as (Hl & _). apply lookup_lt_Some in He.
    rewrite (last_filter _ es e El) by (apply Z.leb_le; lia). lia.
  - apply last_None in El. by subst es.
Qed.

(** What a restart replays when the last file ends with [j] bytes of the next entry. *)
Lemma replay_torn_spec es n d sys start s h j e :
  numbered (es ++ [e]) → disk_ok es (Datatypes.S n) d → Forall no_error sys →
  file_manager_ h = mkManager per_file (log_files per_file (Datatypes.S n)) →
  start ≤ Z.of_nat (length es) → first n ≤ lsn e < first (Datatypes.S n) → (j < length (entry_bytes e))%nat →
  handler_replay replayer h sys (half_written d (name n) j e) start s =
    (let '(rc, s') := feed replayer s (List.filter (λ e, start <=? lsn e) es) in
     Some (if OB_FAIL rc then (rc, h, s') else if (j <? 16)%nat
           then (RC_SUCCESS, with_buffer h (buffer_init (entry_buffer_ h) (Z.of_nat (length es)) 0), s')
           else (RC_IOERR_READ, h, s'))).
Proof.
  intros Hna Hd Hs Hm Hstart Hfile Hj. pose proof (dk_sys _ _ _ Hd).
  assert (Hn : numbered es) by (rewrite <- (take_app_length es [e]); by apply numbered_take).
  pose proof (replay_spec es (Datatypes.S n) d sys start s h Hn Hd Hs Hm Hstart) as Hgood.
  unfold handler_replay in *.
  change (handler_iterate _ h sys ?x start (0, s)) with (handler_iterate (replay_callback replayer) h sys x start (0, s)) in *.
  rewrite (handler_iterate_spec (replay_callback replayer) es (Datatypes.S n)) in Hgood by done.
  rewrite (handler_iterate_torn (replay_callback replayer) es n) by done. cbn [mbind option_bind] in *.
  destruct (feed (replay_callback replayer) (0, s) _) as [rc1 [m s1]]. destruct (feed replayer s _) as [rc s'].
  destruct (OB_FAIL rc1) eqn:E1.
  { rewrite E1, Hgood. destruct (OB_FAIL rc) eqn:E; [done|]. injection Hgood as Hrc _ _. rewrite Hrc in E1. by vm_compute in E1. }
  destruct (OB_FAIL rc) eqn:E.
  { injection Hgood as <- _ _. done. }
  destruct (j <? 16)%nat; [exact Hgood|]. change (OB_FAIL RC_IOERR_READ) with true. cbv iota.
  assert (Hs' : s1 = s') by congruence. by rewrite Hs'.
Qed.

Lemma restart_ok all f h t d names sys opens s start h1 h2 s' h3 :
  world_ok all f (mkWorld h t d) → Z.of_nat (length all) + 1001 ≤ INT32_MAX → listing d names → Forall no_error sys →
  start ≤ Z.of_nat f → handler_init (Some names) true = (RC_SUCCESS, h1) →
  handler_replay replayer h1 sys d start s = Some (RC_SUCCESS, h2, s') → handler_start h2 = (RC_SUCCESS, h3) →
  world_ok (take f all) f (mkWorld h3 (AtLoop new_writer RC_SUCCESS) (mkDisk (files d) sys opens)).
Proof.
  intros [Hn Hf Hb Hc Hfl (n & k & Hm & Hd & Hk & Hfirst & Ht) _] Hmax Hlist Hs Hstart Hinit Hrep Hst.
  cbn [w_disk] in Hd. assert (Hlen : length (take f all) = f) by (rewrite length_take; lia).
  assert (Hk1 : k = 0%nat ∨ first (k - 1) ≤ Z.of_nat f + 1).
  { unfold first_lsn, per_file in *. lia. }
  rewrite (restart_manager _ _ _ _ _ Hd) in Hrep by (try done; unfold first_lsn, per_file, INT32_MAX in *; lia).
  rewrite (replay_spec (take f all) k) in Hrep by (first [done|by apply numbered_take|by rewrite Hlen]).
  destruct (feed replayer s _) as [rc s1]. destruct (OB_FAIL rc) eqn:Hrc.
  { injection Hrep as -> _ _. done. }
  injection Hrep as <- _. cbn in Hst. injection Hst as <-.
  constructor; cbn [w_handler w_thread w_disk entry_buffer_ entries_ current_lsn_ flushed_lsn_ file_manager_ with_buffer buffer_init];
    rewrite ?Hlen; try done.
  - by apply numbered_take.
  - by rewrite drop_ge by lia.
  - exists k, k. split_and!; try done; [rewrite take_take, Nat.min_id; destruct Hd; by constructor|by left|].
    split; [|done]. split; [|done]. cbn. lia.
Qed.
End restart.

Lemma history_ok all x : history all x → Z.of_nat (length all) + 1001 ≤ INT32_MAX ∧ ∃ f, world_ok all f x.
Proof.
  induction 1 as [sys opens h h' Hs Hi Hst|all h t d module_id data h' l _ [Hb [f Hw]] Hwait Hdata Hlen Hm Ha Hl
    |all h t d rc h' _ [Hb [f Hw]] Hst|all x x' _ [Hb [f Hw]] Hth
    |all h t d names sys opens S replayer s start h1 h2 s' h3 _ [Hb [f Hw]] Hlist Hs Hstart Hi Hr Hst].
  - split; [done|]. exists 0%nat. cbn in Hi. injection Hi as <-. cbn in Hst. injection Hst as <-.
    constructor; try done. exists 0%nat, 0%nat. split_and!; try done; [|by left|by left].
    constructor; try done; [by intros i Hi%Nat.nlt_0_r|by right].
  - destruct (append_ok all f h t d module_id data RC_SUCCESS h' (Some l) Hw Hdata Hlen Hm ltac:(unfold INT32_MAX in *; lia) Ha)
      as [[? _]|(_ & e & [= ->] & He & Hmod & Hw')]; [done|].
    assert (Hall : mkLogEntry (mkLogHeader (lsn e) (Z.of_nat (length data)) module_id) data = e).
    { pose proof (wo_numbered _ _ _ Hw') as Hn. destruct (Hn (length all) e) as (_ & Hok & _); [by apply list_lookup_middle|].
      destruct Hok as [_ _ Hsz _]. unfold payload_size, lsn in *. destruct e as [[? ? ?] ?]; simpl in *. subst. done. }
    rewrite Hall. split; [|by exists f]. rewrite length_app.
    pose proof (wo_numbered _ _ _ Hw') as Hn. destruct (Hn (length all) e) as (He1 & _); [by apply list_lookup_middle|].
    simpl. lia.
  - split; [done|]. exists f. unfold handler_stop in Hst. destruct Hw as [? ? ? ? ? ? Hend].
    destruct (thread_ h); injection Hst as <- <-; constructor; try done. intros [? ?]%Hend. done.
  - split; [done|]. destruct (thread_step_ok all f x Hw Hb) as (x1 & f' & E & Hw' & _). rewrite Hth in E.
    injection E as <-. by exists f'.
  - pose proof (wo_flushed_lsn _ _ _ Hw) as Hfl. cbn [w_handler] in Hfl. rewrite Hfl, Nat2Z.id in *.
    split; [rewrite length_take; lia|]. exists f. by eapply restart_ok.
Qed.

(** ** The thread finishes *)
Definition rank (x : World) : nat :=
  match w_thread x with
  | AtLoop _ rc => if decide (rc = RC_LOG_FILE_FULL) then 2 else 4
  | InFlush w _ =>
      match entries_ (entry_buffer_ (w_handler x)) with
      | [] => 5
      | _ => if (end_lsn_ w <? flushed_lsn_ (entry_buffer_ (w_handler x)) + 1)%Z then 3 else 1
      end
  | Ended => 0
  end%nat.
Definition work (x : World) : nat := (8 * length (entries_ (entry_buffer_ (w_handler x))) + rank x)%nat.

Fixpoint thread_steps (m : nat) (x : World) : option World :=
  match m with O => Some x | S m => x' ← thread_step x; thread_steps m x' end.

Lemma writer_open_succeeds w d nm l : opens d = [] → fd_ w = false →
  ∃ w' d', writer_open w d nm l = (RC_SUCCESS, w', d') ∧ opens d' = [] ∧ end_lsn_ w' = to_int32 l.
Proof. intros Ho Hfd. unfold writer_open. rewrite Hfd, Ho. by eexists _, _. Qed.

Lemma writer_close_closed w : fd_ (writer_close w).2 = false.
Proof. unfold writer_close. by destruct (fd_ w) eqn:E. Qed.

Lemma next_file_succeeds m w d : opens d = [] →
  ∃ m' w' d', next_file m w d = (RC_SUCCESS, m', w', d') ∧ opens d' = [] ∧
    end_lsn_ w' = to_int32 (match last (log_files_ m) with Some (l, _) => l + max_entry_number_per_file_ m | None => 0 end +
                            max_entry_number_per_file_ m - 1).
Proof.
  intros Ho. unfold next_file. pose proof (writer_close_closed w). destruct (writer_close w) as [rc0 w0]. cbn [snd] in *.
  edestruct writer_open_succeeds as (w' & d' & -> & ? & ?); [done|done|]. by eexists _, w', d'.
Qed.

Lemma last_file_succeeds m w d : opens d = [] →
  ∃ m' w' d', last_file m w d = (RC_SUCCESS, m', w', d') ∧ opens d' = [].
Proof.
  intros Ho. unfold last_file. destruct (last (log_files_ m)) as [[l nm]|].
  - pose proof (writer_close_closed w). destruct (writer_close w) as [rc0 w0]. cbn [snd] in *.
    edestruct writer_open_succeeds as (w' & d' & -> & ? & ?); [done|done|]. by eexists _, w', d'.
  - destruct (next_file_succeeds m w d Ho) as (m' & w' & d' & -> & ? & _). by eexists m', w', d'.
Qed.

Lemma writer_write_opens w d e rc w' d' : writer_write w d e = (rc, w', d') → opens d' = opens d.
Proof.
  unfold writer_write. repeat case_match; intros [= _ _ <-]; done.
Qed.

Lemma flush_one_opens b w d rc b' w' d' : flush_one b w d = Some (rc, b', w', d') → opens d' = opens d.
Proof.
  unfold flush_one. destruct (entries_ b) as [|e rest]; [by intros [= _ _ _ <-]|]. destruct (_ && _); [|done].
  destruct (writer_write w d e) as [[rc0 w0] d0] eqn:E. apply writer_write_opens in E. rewrite <- E.
  destruct (OB_FAIL rc0); by intros [= _ _ _ <-].
Qed.

(** Every step of a stopped thread has less to do. *)
Lemma thread_works all f x :
  world_ok all f x → Z.of_nat (length all) + 1001 ≤ INT32_MAX → opens (w_disk x) = [] →
  running_ (w_handler x) = false → w_thread x ≠ Ended →
  ∃ x', thread_step x = Some x' ∧ opens (w_disk x') = [] ∧ running_ (w_handler x') = false ∧ (work x' < work x)%nat.
Proof.
  destruct x as [h t d]. intros Hw Hmax Ho Hr Ht.
  pose proof Hw as [Hn Hf Hb Hc Hfl (n & k & Hm & Hd & Hk & Hfirst & Hth) _].
  cbn [w_handler w_thread w_disk] in *. unfold thread_step. rewrite Hr. cbn [orb].
  destruct t as [w rc|w count|]; [| |done].
  - destruct (0 <? entry_number (entry_buffer_ h)) eqn:Hnum.
    2:{ eexists. split; [done|]. split_and!; [done..|]. unfold work, rank. cbn [w_handler w_thread]. case_decide; lia. }
    assert (Hne : ∃ e rest, entries_ (entry_buffer_ h) = e :: rest).
    { unfold entry_number in Hnum. zify_bool. destruct (entries_ (entry_buffer_ h)); [simpl in Hnum; lia|eauto]. }
    destruct Hne as (e & rest & He).
    destruct (negb (writer_valid w) || _) eqn:Hopen.
    + destruct (decide (rc = RC_LOG_FILE_FULL)) as [Hrc|Hrc].
      * destruct Hth as [_ Hfull]. destruct (Hfull Hrc) as [_ Hfn].
        destruct (next_file_succeeds (file_manager_ h) w d Ho) as (m' & w' & d' & -> & Ho' & Hend).
        eexists. split; [done|]. split_and!; [done..|]. unfold work, rank. cbn [w_handler w_thread with_manager entry_buffer_].
        change (OB_FAIL RC_SUCCESS) with false. cbv iota. rewrite He, decide_True by done. rewrite (proj2 (Z.ltb_ge _ _)); [lia|].
        rewrite Hend, Hm, Hfl. cbn [log_files_ max_entry_number_per_file_].
        assert (E : match last (log_files per_file n) with Some (l, _) => l + per_file | None => 0 end = first n).
        { destruct n as [|n]; [done|]. rewrite log_files_S, last_snoc. unfold first_lsn. lia. }
        rewrite E, <- Hfn, to_int32_small; unfold per_file, is_int32, INT32_MIN, INT32_MAX in *; lia.
      * destruct (last_file_succeeds (file_manager_ h) w d Ho) as (m' & w' & d' & -> & Ho').
        eexists. split; [done|]. split_and!; [done..|]. unfold work, rank. cbn [w_handler w_thread with_manager entry_buffer_].
        change (OB_FAIL RC_SUCCESS) with false. cbv iota. rewrite He, decide_False by done. case_match; lia.
    + eexists. split; [done|]. split_and!; [done..|]. unfold work, rank. cbn [w_handler w_thread].
      apply orb_false_iff in Hopen as [_ Hrc]. apply bool_decide_eq_false in Hrc. rewrite He, decide_False by done.
      case_match; lia.
  - destruct (entries_ (entry_buffer_ h)) as [|e rest] eqn:He.
    + eexists. split; [done|]. split_and!; [done..|]. unfold work, rank. cbn [w_handler w_thread]. rewrite He. simpl. lia.
    + destruct Hth as [Hwr Hfd]. pose proof Hwr as [_ Hw2]. destruct (Hw2 Hfd) as (Hn0 & -> & _ & Hend).
      assert (Hlt : (f < length all)%nat).
      { apply (f_equal length) in Hb. rewrite length_drop in Hb. simpl in Hb. lia. }
      destruct (flush_one_ok all f (entry_buffer_ h) w d n n) as (rc & b & w' & d' & E & Hcur & Hcase); try done; [by rewrite He|lia|lia|].
      pose proof (flush_one_opens _ _ _ _ _ _ _ E) as Ho'. rewrite E. cbn [mbind option_bind].
      eexists. split; [done|]. split_and!; [cbn [w_disk]; congruence|done|]. unfold work, rank. cbn [w_handler w_thread with_buffer entry_buffer_].
      destruct Hcase as [(-> & Hb' & _)|(-> & Hb' & _ & _ & _ & Hfn)].
      * rewrite Hb', He, Hb, !length_drop. change (OB_FAIL RC_SUCCESS) with false. cbv iota.
        assert (Hr5 : ∀ l : list LogEntry, (match l with [] => 5 | _ => if (end_lsn_ w' <? flushed_lsn_ b + 1)%Z then 3 else 1 end ≤ 5)%nat).
        { intros l. repeat case_match; lia. }
        pose proof (Hr5 (drop (S f) all)). repeat case_match; lia.
      * rewrite Hb', He, Hb. change (OB_FAIL RC_LOG_FILE_FULL) with true. cbv iota. rewrite decide_True by done.
        rewrite (proj2 (Z.ltb_lt _ _)) by lia. lia.
Qed.

(** ** Theorems *)

(** The disk when the process dies: between two writes ([k] = 0), or while the thread writes the next entry, of which
    then the first [k] bytes are in the file ([LogFileWriter::write] writes the header and then the payload, and each
    of these writes may stop anywhere). *)
Definition death (x : World) (k : nat) (d' : Disk) : Prop :=
  k = 0%nat ∧ d' = w_disk x ∨
  ∃ w count e, w_thread x = InFlush w count ∧ head (entries_ (entry_buffer_ (w_handler x))) = Some e ∧
    lsn e ≤ end_lsn_ w ∧ (k < length (entry_bytes e))%nat ∧ d' = half_written (w_disk x) (filename_ w) k e.

(** A death leaves a disk whose replay gives the flushed entries. *)
Lemma replay_after_death all f x k d' names sys start h1 {S} (replayer : S → LogEntry → S * RC) s :
  world_ok all f x → Z.of_nat (length all) + 1001 ≤ INT32_MAX → death x k d' → listing d' names → Forall no_error sys →
  start ≤ Z.of_nat f → handler_init (Some names) true = (RC_SUCCESS, h1) →
  handler_replay replayer h1 sys d' start s =
    (let '(rc, s') := feed replayer s (List.filter (λ e, start <=? lsn e) (take f all)) in
     Some (if OB_FAIL rc then (rc, h1, s') else if (k <? 16)%nat
           then (RC_SUCCESS, with_buffer h1 (buffer_init (entry_buffer_ h1) (Z.of_nat f) 0), s')
           else (RC_IOERR_READ, h1, s'))).
Proof.
  intros [Hn Hf Hb Hc Hfl (n & m & Hm & Hd & Hk & Hfirst & Ht) _] Hmax Hdeath Hlist Hs Hstart Hinit.
  assert (Hk1 : m = 0%nat ∨ first (m - 1) ≤ Z.of_nat f + 1) by (unfold first_lsn, per_file in *; lia).
  assert (Hsmall : first m < 2 ^ 63) by (unfold first_lsn, per_file, INT32_MAX in *; lia).
  assert (Hlen : length (take f all) = f) by (rewrite length_take; lia).
  destruct Hdeath as [[-> ->]|(w & count & e & Et & He & Hend & Hlt & ->)].
  - pose proof (restart_manager _ _ _ _ _ Hd Hsmall Hlist Hinit) as ->.
    rewrite (replay_spec replayer (take f all) m); rewrite ?Hlen; try done. by apply numbered_take.
  - rewrite Et in Ht. destruct Ht as [[_ Hw] Hfd]. destruct (Hw Hfd) as (Hn0 & -> & Hfn & Hwend).
    destruct n as [|n]; [lia|]. rewrite Nat.sub_succ, Nat.sub_0_r in *.
    assert (Hef : all !! f = Some e) by (rewrite Hb, head_lookup, lookup_drop, Nat.add_0_r in He; done).
    assert (Htake : take f all ++ [e] = take (Datatypes.S f) all) by (symmetry; by apply take_S_r).
    destruct (Hn f e Hef) as (Hlsn & _).
    assert (Hlist' : listing (w_disk x) names).
    { destruct Hlist as [Hnd Hnames]. split; [done|]. intros nm. rewrite Hnames. cbn [half_written files]. rewrite dom_insert_L, Hfn.
      assert (Hin : name n ∈ dom (files (w_disk x))) by (apply elem_of_dom; rewrite (dk_files _ _ _ Hd n) by lia; eauto). set_solver. }
    pose proof (restart_manager _ _ _ _ _ Hd Hsmall Hlist' Hinit) as ->. rewrite Hfn.
    rewrite (replay_torn_spec replayer (take f all) n); rewrite ?Hlen; try done.
    + rewrite Htake. by apply numbered_take.
    + unfold first_lsn, per_file in *. lia.
Qed.

(** C4: a log record whose number [wait_lsn] has confirmed survives a crash.  Consider any history of appends, thread
    steps, shutdowns, crashes between the writes of two entries and restarts, in which no system call reports an error
    of writing or reading (transfers may be short, and files may fail to open).  The thread never trips an [ASSERT].
    When [wait_lsn l] returns [RC_SUCCESS] and then the process dies, between two writes or with the first [k] bytes of
    the next entry in the file, a new process finds the log files whatever the order of the directory listing,
    and [replay] hands to the replayer exactly the accepted records from [start_lsn <= l] on up to the last flushed one, whose number is not below
    [l], in order and unchanged, or stops at the replayer's first error.  It takes that number as the current one and
    succeeds if less than a header of the next entry was written; but with the header in the file it ends with
    [RC_IOERR_READ], although all these records have been replayed. *)
Theorem confirmed_log_survives_crash all h t d l k d' names sys start_lsn rc h1 {S} (replayer : S → LogEntry → S * RC) s :
  history all (mkWorld h t d) → wait_lsn h l = Some RC_SUCCESS →
  death (mkWorld h t d) k d' → listing d' names → Forall no_error sys → start_lsn ≤ l →
  handler_init (Some names) true = (rc, h1) →
  thread_step (mkWorld h t d) ≠ None ∧ rc = RC_SUCCESS ∧
  ∃ f, (Z.of_nat f = flushed_lsn_ (entry_buffer_ h) ∧ l ≤ Z.of_nat f ∧ (f ≤ length all)%nat) ∧
    handler_replay replayer h1 sys d' start_lsn s =
      (let '(rc, s') := feed replayer s (List.filter (λ e, start_lsn <=? lsn e) (take f all)) in
       Some (if OB_FAIL rc then (rc, h1, s') else if (k <? 16)%nat
             then (RC_SUCCESS, with_buffer h1 (buffer_init (entry_buffer_ h1) (Z.of_nat f) 0), s')
             else (RC_IOERR_READ, h1, s'))).
Proof.
  intros Hh Hwait Hdeath Hlist Hs Hstart Hinit. destruct (history_ok _ _ Hh) as [Hmax [f Hw]].
  split; [destruct (thread_step_ok _ _ _ Hw Hmax) as (x' & ? & -> & _); done|].
  assert (Hrc : rc = RC_SUCCESS) by (unfold handler_init, manager_init in Hinit; by injection Hinit). subst rc. split; [done|].
  assert (Hle : l ≤ Z.of_nat f).
  { unfold wait_lsn in Hwait. pose proof (wo_flushed_lsn _ _ _ Hw) as Hfl. cbn [w_handler] in Hfl.
    destruct (running_ h && _); [done|]. rewrite Hfl in Hwait. destruct (l <=? Z.of_nat f) eqn:E; zify_bool; [done|by injection Hwait]. }
  exists f. split; [split; [symmetry; apply (wo_flushed_lsn _ _ _ Hw)|split; [done|apply (wo_flushed _ _ _ Hw)]]|]. eapply replay_after_death; [done..|lia|done].
Qed.

(** C5: a shutdown flushes the log: in every history in which no write reports an error, once [stop] has been called and files can be
    opened, the thread runs to its end in finitely many steps, by itself, and then every record that was
    accepted is in the files: its number is confirmed by [wait_lsn]. *)
Theorem shutdown_flushes_log all h t d :
  history all (mkWorld h t d) → running_ h = false → opens d = [] →
  ∃ m x', thread_steps m (mkWorld h t d) = Some x' ∧ w_thread x' = Ended ∧
    entries_ (entry_buffer_ (w_handler x')) = [] ∧
    ∀ e, e ∈ all → wait_lsn (w_handler x') (lsn e) = Some RC_SUCCESS.
Proof.
  remember (mkWorld h t d) as x eqn:Hx. intros Hh Hr Ho.
  assert (Hrun : running_ (w_handler x) = false ∧ opens (w_disk x) = []) by (by subst x).
  clear Hx Hr Ho h t d. destruct Hrun as [Hr Ho].
  remember (work x) as k eqn:Hk. revert x Hh Hr Ho Hk.
  induction (lt_wf k) as [k _ IH]. intros x Hh Hr Ho Hk.
  destruct (history_ok _ _ Hh) as [Hmax [f Hw]]. 
  assert (Hcase : w_thread x = Ended ∨ w_thread x ≠ Ended) by (destruct (w_thread x); auto).
  destruct Hcase as [He|Hne].
  - exists 0%nat, x. destruct (wo_ended _ _ _ Hw He) as [_ ->]. split_and!; [done|done| |].
    + rewrite (wo_buffer _ _ _ Hw). by apply drop_ge.
    + intros e [i Hi]%list_elem_of_lookup. unfold wait_lsn. rewrite Hr, (wo_flushed_lsn _ _ _ Hw). cbn [andb].
      destruct (wo_numbered _ _ _ Hw i e Hi) as (-> & _). apply lookup_lt_Some in Hi.
      by rewrite (proj2 (Z.leb_le _ _)) by lia.
  - destruct (thread_works _ _ _ Hw Hmax Ho Hr Hne) as (x1 & E & Ho1 & Hr1 & Hlt).
    destruct (IH (work x1) ltac:(lia) x1 ltac:(by eapply h_thread) Hr1 Ho1 eq_refl) as (m & x' & E' & Hx').
    exists (S m), x'. split; [|done]. cbn [thread_steps]. by rewrite E.
Qed.

(** *** A concrete history: two records are appended and the thread runs. *)
Definition ex_handler : DiskLogHandler := mkHandler true true (mkManager per_file []) new_buffer.
Definition ex_start : World := mkWorld ex_handler (AtLoop new_writer RC_SUCCESS) (mkDisk ∅ [SysShort 3] []).

Definition ex_append (x : World) (data : list Z) : World :=
  match handler_append (w_handler x) 0 data with
  | Some (_, h, _) => mkWorld h (w_thread x) (w_disk x)
  | None => x
  end.
Definition ex_appended : World := ex_append (ex_append ex_start [7]) [8; 9].
Definition ex_all : list LogEntry := [ex_entry 1 [7]; ex_entry 2 [8; 9]].

Lemma ex_appended_history : history ex_all ex_appended.
Proof.
  assert (H0 : history [] ex_start) by (eapply h_first; [by repeat constructor|done|done]).
  assert (H1 : history [ex_entry 1 [7]] (ex_append ex_start [7])).
  { by apply (h_append [] (w_handler ex_start) (w_thread ex_start) (w_disk ex_start) 0 [7] _ 1). }
  by apply (h_append [ex_entry 1 [7]] (w_handler (ex_append ex_start [7])) (w_thread ex_start) (w_disk ex_start) 0 [8; 9] _ 2).
Qed.

Definition ex_flushed : World := default ex_start (thread_steps 3 ex_appended).

Lemma history_steps all m : ∀ x x', history all x → thread_steps m x = Some x' → history all x'.
Proof.
  induction m as [|m IH]; intros x x' Hh; cbn [thread_steps]; [by intros [= <-]|].
  destruct (thread_step x) as [x1|] eqn:E; [|done]. apply IH. by eapply h_thread.
Qed.

Lemma ex_flushed_history : history ex_all ex_flushed.
Proof. apply (history_steps ex_all 3 _ _ ex_appended_history). vm_compute. reflexivity. Qed.

(** The first record is flushed and confirmed; the process dies when the header and a byte of the second are written. *)
Definition ex_half : World := default ex_start (thread_steps 2 ex_appended).
Lemma ex_half_history : history ex_all ex_half.
Proof. apply (history_steps ex_all 2 _ _ ex_appended_history). vm_compute. reflexivity. Qed.

Lemma confirmed_log_survives_crash_witness :
  (∃ h1, handler_replay (λ l e, (l ++ [data_ e], RC_SUCCESS)) h1 [SysRetry] (w_disk ex_flushed) 1 [] =
    Some (RC_SUCCESS, with_buffer h1 (buffer_init (entry_buffer_ h1) 2 0), [[7]; [8; 9]])) ∧
  ∃ h1, handler_replay (λ l e, (l ++ [data_ e], RC_SUCCESS)) h1 [SysRetry]
      (half_written (w_disk ex_half) "clog_0.log" 17 (ex_entry 2 [8; 9])) 1 [] = Some (RC_IOERR_READ, h1, [[7]]).
Proof.
  destruct (handler_init (Some ["clog_0.log"]) true) as [rc h1] eqn:E. split; exists h1.
  - destruct (confirmed_log_survives_crash ex_all (w_handler ex_flushed) (w_thread ex_flushed) (w_disk ex_flushed) 2 0 (w_disk ex_flushed)
      ["clog_0.log"] [SysRetry] 1 rc h1 (λ l e, (l ++ [data_ e], RC_SUCCESS)) []) as (_ & _ & f & (Hf0 & Hf1 & Hf2) & Hrep);
      [apply ex_flushed_history|by vm_compute|by left| |by repeat constructor|done|done|].
    + split; [by apply NoDup_singleton|]. intros nm.
      assert (Hdom : dom (files (w_disk ex_flushed)) = {["clog_0.log"]}) by (by vm_compute).
      rewrite Hdom. set_solver.
    + assert (f = 2%nat) as -> by (change (length ex_all) with 2%nat in Hf2; lia). exact Hrep.
  - set (d' := half_written (w_disk ex_half) "clog_0.log" 17 (ex_entry 2 [8; 9])).
    destruct (confirmed_log_survives_crash ex_all (w_handler ex_half) (w_thread ex_half) (w_disk ex_half) 1 17 d'
      ["clog_0.log"] [SysRetry] 1 rc h1 (λ l e, (l ++ [data_ e], RC_SUCCESS)) []) as (_ & _ & f & (Hf0 & Hf1 & Hf2) & Hrep);
      [apply ex_half_history|by vm_compute| | |by repeat constructor|done|done|].
    + right. do 2 eexists. exists (ex_entry 2 [8; 9]). split; [by vm_compute|]. split; [by vm_compute|].
      split; [by vm_compute|]. split; [vm_compute; lia|]. by vm_compute.
    + split; [by apply NoDup_singleton|]. intros nm.
      assert (Hdom : dom (files d') = {["clog_0.log"]}) by (by vm_compute). rewrite Hdom. set_solver.
    + assert (Hfl : flushed_lsn_ (entry_buffer_ (w_handler ex_half)) = 1) by (by vm_compute).
      assert (f = 1%nat) as -> by lia. exact Hrep.
Defined.

Definition ex_stopped : World :=
  mkWorld (handler_stop (w_handler ex_appended)).2 (w_thread ex_appended) (w_disk ex_appended).

Lemma shutdown_flushes_log_witness :
  ∃ m x', thread_steps m ex_stopped = Some x' ∧ w_thread x' = Ended ∧
    wait_lsn (w_handler x') 2 = Some RC_SUCCESS.
Proof.
  destruct (shutdown_flushes_log ex_all (w_handler ex_stopped) (w_thread ex_stopped) (w_disk ex_stopped))
    as (m & x' & E & He & _ & Hall); [|done|done|].
  - eapply h_stop; [apply ex_appended_history|reflexivity].
  - exists m, x'. split_and!; [exact E|exact He|]. apply (Hall (ex_entry 2 [8; 9])). right. left.
Defined.
