(* ===== verification/LogSink.v ===== *)
(** * What the log promises to the modules that write it ([LogHandler], [storage/clog/log_handler.h])

    The virtual interface [LogHandler::append]: a record either gets a number greater than all
    earlier ones and is added to the log, or the log does not change.  The buffer of the
    disk log handler and [VacuousLogHandler] implement it. *)
From S2P Require Import Prelude Rc Serializer LogFile LogManager LogHandler.

Class LogSink (L : Type) := {
  sink_log : L → list LogEntry;      (* the entries accepted so far *)
  sink_lsn : L → Z;                  (* the last number given out *)
  sink_append : L → Z → list Z → L * RC * Z;
  sink_append_spec : ∀ l m data l' rc n,
    0 ≤ sink_lsn l → Z.of_nat (length data) ≤ INT32_MAX → sink_append l m data = (l', rc, n) →
    (rc = RC_SUCCESS ∧ sink_lsn l < n ∧ sink_lsn l' = n ∧
       sink_log l' = sink_log l ++ [mkLogEntry (mkLogHeader n (Z.of_nat (length data)) m) data]) ∨
    (n = 0 ∧ sink_log l' = sink_log l ∧ sink_lsn l' = sink_lsn l);
}.

(** The caller's [lsn] is 0 before the call and is written only on success. *)
Definition buffer_sink_append (b : LogEntryBuffer) (m : Z) (data : list Z) : LogEntryBuffer * RC * Z :=
  let '(rc, b, n) := buffer_append b m data in (b, rc, default 0 n).

#[export] Program Instance buffer_sink : LogSink LogEntryBuffer := {|
  sink_log := entries_;
  sink_lsn := current_lsn_;
  sink_append := buffer_sink_append;
|}.
Next Obligation.
  intros b m data b' rc n Hl Hd. unfold buffer_sink_append, buffer_append, entry_init.
  rewrite to_int32_small by (unfold is_int32, INT32_MIN; lia).
  destruct (max_payload_size <? _).
  - intros [= <- <- <-]. by right.
  - intros [= <- <- <-]. left. cbn. split_and!; [done|lia|done|done].
Qed.

(** [src/src/observer/storage/clog/vacuous_log_handler.h:42-46] [VacuousLogHandler::_append] the
    handler keeps nothing *)
Definition vacuous_append (l : unit) (m : Z) (data : list Z) : unit * RC * Z := (tt, RC_SUCCESS, 0).

#[export] Program Instance vacuous_sink : LogSink unit := {|
  sink_log _ := [];
  sink_lsn _ := 0;
  sink_append := vacuous_append;
|}.
Next Obligation. intros [] m data [] rc n _ _ [= <- <-]. by right. Qed.

(** ** What a log promises to those who wait for it *)

(** [LogHandler::wait_lsn] of a log that is running returns when the number is durable. *)
Class LogWaiter (L : Type) `{LogSink L} := {
  log_wait : L → Z → L * RC;
  log_running : L → Prop;
  log_durable : L → Z → Prop;
  log_wait_spec : ∀ l n, log_running l → log_running (log_wait l n).1 ∧ log_durable (log_wait l n).1 n ∧
    ∀ m, log_durable l m → log_durable (log_wait l n).1 m;
  log_append_spec : ∀ l m data, log_running l → log_running (sink_append l m data).1.1 ∧
    ∀ n, log_durable l n → log_durable (sink_append l m data).1.1 n;
}.

(** [src/src/observer/storage/clog/vacuous_log_handler.h:37-37] [VacuousLogHandler::wait_lsn] *)
Definition vacuous_wait_lsn (l : unit) (n : Z) : unit * RC := (l, RC_SUCCESS).

#[export] Program Instance vacuous_waiter : LogWaiter unit := {|
  log_wait := vacuous_wait_lsn;
  log_running _ := True;
  log_durable _ _ := True;
|}.
Next Obligation. done. Qed.
Next Obligation. done. Qed.

(** A log as its buffer and the number up to which it is durable: the wait lasts until the log
    thread has flushed that far. *)
Record FlushedLog := mkFlushed { fl_buffer : LogEntryBuffer; fl_durable : Z }.
#[export] Program Instance flushed_sink : LogSink FlushedLog := {|
  sink_log l := sink_log (fl_buffer l);
  sink_lsn l := sink_lsn (fl_buffer l);
  sink_append l m data := let '(b, rc, n) := sink_append (fl_buffer l) m data in (mkFlushed b (fl_durable l), rc, n);
|}.
Next Obligation.
  intros [b d] m data l' rc n Hl Hd. cbn [fl_buffer fl_durable]. destruct (sink_append b m data) as [[b' rc'] n'] eqn:E.
  intros [= <- <- <-]. apply (sink_append_spec b m data b' rc' n' Hl Hd E).
Qed.
#[export] Program Instance flushed_waiter : LogWaiter FlushedLog := {|
  log_wait l n := (mkFlushed (fl_buffer l) (Z.max (fl_durable l) n), RC_SUCCESS);
  log_running _ := True;
  log_durable l n := n ≤ fl_durable l;
|}.
Next Obligation. intros [b d] n _. cbn [fst fl_durable]. split_and!; [done|apply Z.le_max_r|]. intros m ?. by apply Z.max_le_iff; left. Qed.
Next Obligation.
  intros [b d] m data _. cbn [sink_append flushed_sink fl_buffer fl_durable].
  destruct (sink_append b m data) as [[b' rc'] n']. by split.
Qed.
