(* ===== verification/RecordPage.v ===== *)
(** * Record pages ([storage/record/record_manager.*, record_log.*])

    A page of a table: a header, a bitmap of the used slots, the column index (PAX format) and the
    records.  The parts are modelled apart; [page_layout] shows that they do not overlap.  The
    operations of [RowRecordPageHandler] write a log record first; [RecordLogReplayer] redoes
    it.  [None] is a failed [ASSERT] or an access outside an array. *)
From S2P Require Import Prelude Rc Bitmap Serializer LogFile LogHandler LogSink BplusKey.

(** ** Layout *)

(** [src/src/observer/storage/record/record_manager.h:66-77] [PageHeader] *)
Record PageHeader := mkPageHeader {
  record_num : Z;
  column_num : Z;
  record_real_size : Z;
  record_size : Z;
  record_capacity : Z;
  col_idx_offset : Z;
  data_offset : Z;
}.
(** [src/src/observer/storage/record/record_manager.cpp:22-22] [PAGE_HEADER_SIZE] seven int32 *)
Definition PAGE_HEADER_SIZE : Z := 28.

Definition set_record_num (h : PageHeader) n : PageHeader :=
  mkPageHeader n (column_num h) (record_real_size h) (record_size h) (record_capacity h) (col_idx_offset h) (data_offset h).
Definition set_capacity (h : PageHeader) n : PageHeader :=
  mkPageHeader (record_num h) (column_num h) (record_real_size h) (record_size h) n (col_idx_offset h) (data_offset h).

(** [src/src/observer/storage/record/record_manager.cpp:37-37] [align8] *)
Definition align8 (size : Z) : Z := Z.land (size + 7) (Z.lnot 7).

(** [src/src/observer/storage/record/record_manager.cpp:47-52] [page_record_capacity] the quotient by
    [record_size + 0.125] is exact enough in double precision: both sides are below 2^24, so it
    cannot round up to an integer *)
Definition page_record_capacity (page_size record_size fixed_size : Z) : Z :=
  Z.quot (8 * (page_size - PAGE_HEADER_SIZE - fixed_size - 1)) (8 * record_size + 1).

(** [src/src/observer/storage/record/record_manager.cpp:60-60] [page_bitmap_size] *)
Definition page_bitmap_size (record_capacity : Z) : Z := Z.quot (record_capacity + 7) 8.

(** [src/src/observer/storage/record/record_manager.h:238-245] [RecordPageHandler::fix_record_capacity]
    [fuel] bounds the turns of the loop; the result is the capacity *)
Fixpoint fix_loop (fuel : nat) (capacity size last_record_offset : Z) : option Z :=
  if last_record_offset <=? BP_PAGE_DATA_SIZE then Some capacity
  else match fuel with
       | O => None
       | S fuel => fix_loop fuel (capacity - 1) size (last_record_offset - size)
       end.
Definition fix_record_capacity (h : PageHeader) : option PageHeader :=
  c ← fix_loop 2 (record_capacity h) (record_size h) (data_offset h + record_capacity h * record_size h);
  Some (set_capacity h c).

(** The header [init_empty_page] computes. *)
Definition empty_header (size columns : Z) : option PageHeader :=
  let aligned := align8 size in
  let capacity := page_record_capacity BP_PAGE_DATA_SIZE aligned (columns * 4) in
  let offset := align8 (PAGE_HEADER_SIZE + page_bitmap_size capacity) in
  h ← fix_record_capacity (mkPageHeader 0 columns size aligned capacity offset (offset + columns * 4));
  if data_offset h + record_capacity h * record_size h <=? BP_PAGE_DATA_SIZE then Some h else None.

Lemma align8_spec n : 0 ≤ n → align8 n mod 8 = 0 ∧ n ≤ align8 n < n + 8.
Proof.
  intros Hn. unfold align8.
  assert (E : Z.land (n + 7) (Z.lnot 7) = 8 * ((n + 7) / 8)).
  { change (Z.lnot 7) with (Z.lnot (Z.ones 3)). rewrite <- Z.ldiff_land, Z.ldiff_ones_r by lia.
    rewrite Z.shiftl_mul_pow2, Z.shiftr_div_pow2 by lia. change (2 ^ 3) with 8. lia. }
  rewrite E. pose proof (Z.div_mod (n + 7) 8 ltac:(lia)). pose proof (Z.mod_pos_bound (n + 7) 8 ltac:(lia)).
  split; [|lia]. rewrite Z.mul_comm. by apply Z.mod_mul.
Qed.

(** How a page is laid out: the header, the bitmap, the column index and the records do not overlap
    and end inside the page; the bitmap has a bit for every record. *)
Record page_layout (h : PageHeader) : Prop := {
  pl_num : 0 ≤ record_num h;
  pl_capacity : 0 ≤ record_capacity h;
  pl_real : 0 < record_real_size h ≤ record_size h;
  pl_bitmap : PAGE_HEADER_SIZE + page_bitmap_size (record_capacity h) ≤ col_idx_offset h;
  pl_column : col_idx_offset h + column_num h * 4 ≤ data_offset h;
  pl_records : data_offset h + record_capacity h * record_size h ≤ BP_PAGE_DATA_SIZE;
  pl_columns : 0 ≤ column_num h;
}.

Lemma page_bitmap_size_bound c : 0 ≤ c → c ≤ 8 * page_bitmap_size c < c + 8.
Proof.
  intros Hc. unfold page_bitmap_size. rewrite Z.quot_div_nonneg by lia.
  pose proof (Z.div_mod (c + 7) 8 ltac:(lia)). pose proof (Z.mod_pos_bound (c + 7) 8 ltac:(lia)). lia.
Qed.

Lemma page_bitmap_size_mono a b : 0 ≤ a ≤ b → page_bitmap_size a ≤ page_bitmap_size b.
Proof. intros H. unfold page_bitmap_size. rewrite !Z.quot_div_nonneg by lia. apply Z.div_le_mono; lia. Qed.

(** The header of an empty page always fits. *)
Lemma empty_header_ok size columns :
  0 < size ≤ INT32_MAX - 7 → 0 ≤ columns → PAGE_HEADER_SIZE + columns * 4 < BP_PAGE_DATA_SIZE →
  ∃ h, empty_header size columns = Some h ∧ page_layout h ∧ record_num h = 0 ∧
    record_real_size h = size ∧ column_num h = columns.
Proof.
  intros Hsize Hcol Hfit. unfold empty_header, fix_record_capacity. cbv zeta.
  destruct (align8_spec size ltac:(lia)) as [Hmod Hal]. set (al := align8 size) in *.
  assert (H8 : 8 ≤ al).
  { pose proof (Z.div_mod al 8 ltac:(lia)). assert (0 < al / 8) by lia. lia. }
  set (cap := page_record_capacity BP_PAGE_DATA_SIZE al (columns * 4)).
  unfold PAGE_HEADER_SIZE, BP_PAGE_DATA_SIZE, BP_PAGE_SIZE in *.
  assert (Hcap : 0 ≤ cap ∧ cap * (8 * al + 1) ≤ 8 * (1024 * 8 * 8 * 8 - 4 - 8 - 4 - 28 - columns * 4 - 1)).
  { unfold cap, page_record_capacity, PAGE_HEADER_SIZE, BP_PAGE_DATA_SIZE, BP_PAGE_SIZE.
    rewrite Z.quot_div_nonneg by lia. split; [apply Z.div_pos; lia|]. rewrite Z.mul_comm. apply Z.mul_div_le. lia. }
  destruct Hcap as [Hcap0 Hcap]. rewrite Z.mul_add_distr_l, Z.mul_1_r in Hcap.
  pose proof (page_bitmap_size_bound cap Hcap0) as Hb. set (B := page_bitmap_size cap) in *.
  destruct (align8_spec (28 + B) ltac:(lia)) as [Hom Ho]. set (off := align8 (28 + B)) in *.
  pose proof (Z.div_mod off 8 ltac:(lia)) as Hoff. rewrite Hom in Hoff.
  cbn [record_capacity record_size data_offset]. set (X := cap * al) in *.
  assert (HX : cap * (8 * al) = 8 * X) by (unfold X; lia). rewrite HX in Hcap.
  assert (H0 : cap = 0 → X = 0) by (unfold X; intros ->; lia).
  cbn [fix_loop]. unfold BP_PAGE_DATA_SIZE, BP_PAGE_SIZE.
  destruct (off + columns * 4 + X <=? _) eqn:E1; zify_bool.
  - cbn [mbind option_bind set_capacity data_offset record_capacity record_size]. fold X.
    rewrite (proj2 (Z.leb_le _ _)) by lia. eexists. split; [done|]. split; [|done].
    constructor; cbn; unfold PAGE_HEADER_SIZE, BP_PAGE_DATA_SIZE, BP_PAGE_SIZE; fold X B; lia.
  - assert (Hc1 : 1 ≤ cap).
    { destruct (decide (cap = 0)) as [E0|]; [|lia]. specialize (H0 E0). lia. } rewrite (proj2 (Z.leb_le _ _)) by lia.
    cbn [mbind option_bind set_capacity data_offset record_capacity record_size].
    assert (HX' : (cap - 1) * al = X - al) by (unfold X; lia). rewrite HX', (proj2 (Z.leb_le _ _)) by lia.
    eexists. split; [done|]. split; [|done].
    pose proof (page_bitmap_size_mono (cap - 1) cap ltac:(lia)). fold B in H.
    constructor; cbn; unfold PAGE_HEADER_SIZE, BP_PAGE_DATA_SIZE, BP_PAGE_SIZE; rewrite ?HX'; lia.
Qed.

(** ** Pages and their log records *)

Record RecordPage := mkRecordPage {
  page_header_ : PageHeader;
  bits_ : list Z;                    (* the bytes of the bitmap *)
  column_index_ : list Z;
  records_ : gmap Z (list Z);        (* the bytes at [get_record_data(slot)] *)
}.

(** The frame of the page. *)
Record PageFrame := mkPageFrame { pf_lsn : Z; pf_dirty : bool; pf_page : RecordPage }.

Definition with_lsn (f : PageFrame) n : PageFrame := mkPageFrame n (pf_dirty f) (pf_page f).
Definition dirtied (f : PageFrame) p : PageFrame := mkPageFrame (pf_lsn f) true p.

(** [src/src/observer/storage/record/record_log.h:36-58] [RecordOperation::Type] *)
Inductive RecordOperation := INIT_PAGE | INSERT | DELETE | UPDATE.
Definition operation_id (t : RecordOperation) : Z :=
  match t with INIT_PAGE => 0 | INSERT => 1 | DELETE => 2 | UPDATE => 3 end.
Definition operation_of (z : Z) : option RecordOperation :=
  match z with 0 => Some INIT_PAGE | 1 => Some INSERT | 2 => Some DELETE | 3 => Some UPDATE | _ => None end.

(** [src/src/observer/storage/record/record_log.h:61-79] [RecordLogHeader] the last field is the slot
    or the size of the records *)
Record RecordLogHeader := mkRecordLogHeader {
  buffer_pool_id : Z;
  operation_type : Z;
  page_num : Z;
  storage_format : Z;
  log_column_num : Z;
  slot_or_size : Z;
}.
Definition RecordLogHeader_SIZE : nat := 24.
Definition log_header_bytes (h : RecordLogHeader) : list Z :=
  le_encode 4 (buffer_pool_id h) ++ le_encode 4 (operation_type h) ++ le_encode 4 (page_num h) ++
  le_encode 4 (storage_format h) ++ le_encode 4 (log_column_num h) ++ le_encode 4 (slot_or_size h).

(** The header at the start of a payload and the bytes after it. *)
Definition read_log_header (payload : list Z) : option (RecordLogHeader * list Z) :=
  let d := mkDeserializer payload 0 in
  '(b, d) ← read_int32 d; '(o, d) ← read_int32 d; '(p, d) ← read_int32 d;
  '(s, d) ← read_int32 d; '(c, d) ← read_int32 d; '(z, d) ← read_int32 d;
  Some (mkRecordLogHeader b o p s c z, drop RecordLogHeader_SIZE payload).

Record log_header_ok (h : RecordLogHeader) : Prop := {
  lho_pool : is_int32 (buffer_pool_id h);
  lho_op : is_int32 (operation_type h);
  lho_page : is_int32 (page_num h);
  lho_format : is_int32 (storage_format h);
  lho_columns : is_int32 (log_column_num h);
  lho_slot : is_int32 (slot_or_size h);
}.

Lemma log_header_roundtrip h data :
  log_header_ok h → read_log_header (log_header_bytes h ++ data) = Some (h, data).
Proof.
  intros [H1 H2 H3 H4 H5 H6]. unfold read_log_header, log_header_bytes. cbv zeta.
  set (l := (_ ++ _) ++ data).
  assert (Hf : feeds (mkDeserializer l 0) (le_encode 4 (buffer_pool_id h) ++ le_encode 4 (operation_type h) ++
    le_encode 4 (page_num h) ++ le_encode 4 (storage_format h) ++ le_encode 4 (log_column_num h) ++ le_encode 4 (slot_or_size h))
    (mkDeserializer l 24)) by (by exists [], data).
  apply feeds_app in Hf as (d1 & Hx & Hf). rewrite (wire_read (Wire := wire_int32) _ _ _ H1 Hx). cbn [mbind option_bind]. clear Hx.
  apply feeds_app in Hf as (d2 & Hx & Hf). rewrite (wire_read (Wire := wire_int32) _ _ _ H2 Hx). cbn [mbind option_bind]. clear Hx.
  apply feeds_app in Hf as (d3 & Hx & Hf). rewrite (wire_read (Wire := wire_int32) _ _ _ H3 Hx). cbn [mbind option_bind]. clear Hx.
  apply feeds_app in Hf as (d4 & Hx & Hf). rewrite (wire_read (Wire := wire_int32) _ _ _ H4 Hx). cbn [mbind option_bind]. clear Hx.
  apply feeds_app in Hf as (d5 & Hx & Hf). rewrite (wire_read (Wire := wire_int32) _ _ _ H5 Hx). cbn [mbind option_bind]. clear Hx.
  rewrite (wire_read (Wire := wire_int32) _ _ _ H6 Hf). cbn [mbind option_bind].
  assert (Hd : drop RecordLogHeader_SIZE l = data).
  { unfold l. change RecordLogHeader_SIZE with (length (log_header_bytes h)). apply drop_app_length. }
  rewrite Hd. by destruct h.
Qed.

(** ** Operations *)

(** [src/src/observer/storage/record/record_manager.h:257-264] [RecordPageHandler] the members and those of
    its [RecordLogHandler] *)
Record RecordPageHandler := mkPageHandler {
  rw_mode_ : ReadWriteMode;
  rph_page_num : Z;
  buffer_pool_id_ : Z;
  record_size_ : Z;
  storage_format_ : Z;       (* ROW_FORMAT is 1, PAX_FORMAT 2 *)
}.

(** [src/src/observer/storage/record/record_manager.cpp:98-132] [RecordPageHandler::init] on the frame
    of the page; [Z] is the buffer pool *)
Definition page_init (mode : ReadWriteMode) (pool page format : Z) (f : PageFrame) : RecordPageHandler :=
  mkPageHandler mode page pool (record_real_size (page_header_ (pf_page f))) format.

Section operations.
Context {L : Type} `{LogSink L}.
(** The field of a local [RecordLogHeader] that [delete_record] does not write. *)
Variable uninitialized : Z.
Implicit Types (h : RecordPageHandler) (l : L) (f : PageFrame) (data : list Z).

(** The part the four functions of [RecordLogHandler] share. *)
Definition append_record_log l f (payload : list Z) : L * PageFrame * RC :=
  let '(l, rc, lsn) := sink_append l (module_index RECORD_MANAGER) payload in
  (l, if OB_SUCC rc && (0 <? lsn) then with_lsn f lsn else f, rc).

(** [src/src/observer/storage/record/record_log.cpp:89-110] [RecordLogHandler::init_new_page] *)
Definition log_init_new_page h l f (column_index : list Z) : L * PageFrame * RC :=
  append_record_log l f
    (log_header_bytes (mkRecordLogHeader (buffer_pool_id_ h) (operation_id INIT_PAGE) (rph_page_num h) (storage_format_ h)
                         (Z.of_nat (length column_index)) (record_size_ h)) ++
     concat (map (le_encode 4) column_index)).

(** [src/src/observer/storage/record/record_log.cpp:112-130] [RecordLogHandler::insert_record] *)
Definition log_insert_record h l f (rid : RID) (record : list Z) : L * PageFrame * RC :=
  append_record_log l f
    (log_header_bytes (mkRecordLogHeader (buffer_pool_id_ h) (operation_id INSERT) (rid_page_num rid) (storage_format_ h)
                         0 (rid_slot_num rid)) ++ take (Z.to_nat (record_size_ h)) record).

(** [src/src/observer/storage/record/record_log.cpp:132-150] [RecordLogHandler::update_record] *)
Definition log_update_record h l f (rid : RID) (record : list Z) : L * PageFrame * RC :=
  append_record_log l f
    (log_header_bytes (mkRecordLogHeader (buffer_pool_id_ h) (operation_id UPDATE) (rid_page_num rid) (storage_format_ h)
                         0 (rid_slot_num rid)) ++ take (Z.to_nat (record_size_ h)) record).

(** [src/src/observer/storage/record/record_log.cpp:152-169] [RecordLogHandler::delete_record] *)
Definition log_delete_record h l f (rid : RID) : L * PageFrame * RC :=
  append_record_log l f
    (log_header_bytes (mkRecordLogHeader (buffer_pool_id_ h) (operation_id DELETE) (rid_page_num rid) (storage_format_ h)
                         uninitialized (rid_slot_num rid))).

Definition page_bitmap f : Bitmap :=
  mkBitmap (bits_ (pf_page f)) (record_capacity (page_header_ (pf_page f))).

Definition update_page f (hd : PageHeader) (b : Bitmap) (rs : gmap Z (list Z)) : PageFrame :=
  mkPageFrame (pf_lsn f) (pf_dirty f) (mkRecordPage hd (bitmap_ b) (column_index_ (pf_page f)) rs).

(** [memcpy] of a record: shorter memory is read past its end. *)
Definition copy_record f data : option (list Z) :=
  if record_real_size (page_header_ (pf_page f)) <=? Z.of_nat (length data)
  then Some (take (Z.to_nat (record_real_size (page_header_ (pf_page f)))) data) else None.

(** [src/src/observer/storage/record/record_manager.cpp:269-304] [RowRecordPageHandler::insert_record] *)
Definition insert_record h l f data : option (RC * L * PageFrame * option RID) :=
  if decide (rw_mode_ h = READ_ONLY) then None
  else
    let hd := page_header_ (pf_page f) in
    if record_num hd =? record_capacity hd then Some (RC_RECORD_NOMEM, l, f, None)
    else
      index ← next_unsetted_bit (page_bitmap f) 0;
      b ← set_bit (page_bitmap f) index;
      let f := update_page f (set_record_num hd (record_num hd + 1)) b (records_ (pf_page f)) in
      let rid := mkRID (rph_page_num h) index in
      let '(l, f, rc) := log_insert_record h l f rid data in
      record ← copy_record f data;
      let f := mkPageFrame (pf_lsn f) true
        (mkRecordPage (page_header_ (pf_page f)) (bits_ (pf_page f)) (column_index_ (pf_page f))
           (<[index := record]> (records_ (pf_page f)))) in
      Some (RC_SUCCESS, l, f, Some rid).

(** [src/src/observer/storage/record/record_manager.cpp:306-327] [RowRecordPageHandler::recover_insert_record] *)
Definition recover_insert_record h f data (rid : RID) : option (RC * PageFrame) :=
  let hd := page_header_ (pf_page f) in
  if record_capacity hd <=? rid_slot_num rid then Some (RC_RECORD_INVALID_RID, f)
  else
    used ← get_bit (page_bitmap f) (rid_slot_num rid);
    f ← (if used : bool then Some f
         else b ← set_bit (page_bitmap f) (rid_slot_num rid);
              Some (update_page f (set_record_num hd (record_num hd + 1)) b (records_ (pf_page f))));
    record ← copy_record f data;
    Some (RC_SUCCESS, mkPageFrame (pf_lsn f) true
      (mkRecordPage (page_header_ (pf_page f)) (bits_ (pf_page f)) (column_index_ (pf_page f))
         (<[rid_slot_num rid := record]> (records_ (pf_page f))))).

(** [src/src/observer/storage/record/record_manager.cpp:329-351] [RowRecordPageHandler::delete_record] the
    same code is [PaxRecordPageHandler::delete_record] *)
Definition delete_record h l f (rid : RID) : option (RC * L * PageFrame) :=
  if decide (rw_mode_ h = READ_ONLY) then None
  else
    let hd := page_header_ (pf_page f) in
    used ← get_bit (page_bitmap f) (rid_slot_num rid);
    if used : bool then
      b ← clear_bit (page_bitmap f) (rid_slot_num rid);
      let f := dirtied f (pf_page (update_page f (set_record_num hd (record_num hd - 1)) b (records_ (pf_page f)))) in
      let '(l, f, rc) := log_delete_record h l f rid in
      Some (RC_SUCCESS, l, f)
    else Some (RC_RECORD_NOT_EXIST, l, f).

(** [src/src/observer/storage/record/record_manager.cpp:353-386] [RowRecordPageHandler::update_record];
    without [data] the caller has changed the record in place *)
Definition update_record h l f (rid : RID) (data : option (list Z)) : option (RC * L * PageFrame) :=
  if decide (rw_mode_ h = READ_ONLY) then None
  else
    let hd := page_header_ (pf_page f) in
    if record_capacity hd <=? rid_slot_num rid then Some (RC_INVALID_ARGUMENT, l, f)
    else
      used ← get_bit (page_bitmap f) (rid_slot_num rid);
      if used : bool then
        let data := default (default [] (records_ (pf_page f) !! rid_slot_num rid)) data in
        record ← copy_record f data;
        let f := dirtied f (mkRecordPage hd (bits_ (pf_page f)) (column_index_ (pf_page f))
                              (<[rid_slot_num rid := record]> (records_ (pf_page f)))) in
        let '(l, f, rc) := log_update_record h l f rid data in
        Some (RC_SUCCESS, l, f)
      else Some (RC_RECORD_NOT_EXIST, l, f).

(** [src/src/observer/storage/record/record_manager.cpp:388-405] [RowRecordPageHandler::get_record] the bytes
    of the record *)
Definition get_record f (rid : RID) : option (RC * option (list Z)) :=
  if record_capacity (page_header_ (pf_page f)) <=? rid_slot_num rid then Some (RC_RECORD_INVALID_RID, None)
  else
    used ← get_bit (page_bitmap f) (rid_slot_num rid);
    if used : bool then Some (RC_SUCCESS, Some (default [] (records_ (pf_page f) !! rid_slot_num rid)))
    else Some (RC_RECORD_NOT_EXIST, None).

(** [src/src/observer/storage/record/record_manager.cpp:415-415] [RecordPageHandler::is_full] *)
Definition is_full f : bool := record_capacity (page_header_ (pf_page f)) <=? record_num (page_header_ (pf_page f)).

(** The ends of the columns: [column_index[i]]. *)
Fixpoint column_ends (lens : list Z) (capacity before : Z) : list Z :=
  match lens with
  | [] => []
  | len :: lens => let e := len * capacity + before in e :: column_ends lens capacity e
  end.

(** [src/src/observer/storage/record/record_manager.cpp:161-212] [RecordPageHandler::init_empty_page]
    [lens] are the lengths of the fields of the table, for a page in PAX format *)
Definition init_empty_page h l f (size : Z) (lens : list Z) : option (RC * L * PageFrame) :=
  let h := mkPageHandler (rw_mode_ h) (rph_page_num h) (buffer_pool_id_ h) size (storage_format_ h) in
  let lens := if storage_format_ h =? 2 then lens else [] in
  hd ← empty_header size (Z.of_nat (length lens));
  let column_index := column_ends lens (record_capacity hd) 0 in
  let f := mkPageFrame (pf_lsn f) (pf_dirty f)
    (mkRecordPage hd (replicate (Z.to_nat (page_bitmap_size (record_capacity hd))) 0) column_index (records_ (pf_page f))) in
  let '(l, f, rc) := log_init_new_page h l f column_index in
  Some (rc, l, f).

(** [n] ints of an array. *)
Fixpoint read_ints (n : nat) (d : Deserializer) : option (list Z) :=
  match n with
  | O => Some []
  | S n => '(z, d) ← read_int32 d; zs ← read_ints n d; Some (z :: zs)
  end.

(** [src/src/observer/storage/record/record_manager.cpp:214-252] [RecordPageHandler::init_empty_page] as the
    redo of [INIT_PAGE] calls it *)
Definition init_empty_page_recover f (size columns : Z) (col_idx_data : list Z) : option (RC * PageFrame) :=
  hd ← empty_header size columns;
  ints ← read_ints (Z.to_nat columns) (mkDeserializer col_idx_data 0);
  Some (RC_SUCCESS, mkPageFrame (pf_lsn f) (pf_dirty f)
    (mkRecordPage hd (replicate (Z.to_nat (page_bitmap_size (record_capacity hd))) 0) ints (records_ (pf_page f)))).
End operations.

(** ** The page as a map from slots to records *)

(** The records the bitmap marks as used. *)
Definition page_slots (f : PageFrame) : gmap Z (list Z) :=
  filter (λ kv, 0 ≤ kv.1 < record_capacity (page_header_ (pf_page f)) ∧ bit (bits_ (pf_page f)) kv.1 = true)
    (records_ (pf_page f)).

(** The invariant of a record page. *)
Record page_ok (f : PageFrame) : Prop := {
  po_layout : page_layout (page_header_ (pf_page f));
  po_wf : wf (page_bitmap f);
  po_length : Z.of_nat (length (bits_ (pf_page f))) = page_bitmap_size (record_capacity (page_header_ (pf_page f)));
  po_padding : ∀ i, record_capacity (page_header_ (pf_page f)) ≤ i < 8 * Z.of_nat (length (bits_ (pf_page f))) →
    bit (bits_ (pf_page f)) i = false;
  po_num : record_num (page_header_ (pf_page f)) = Z.of_nat (size (page_slots f));
  po_records : ∀ i, 0 ≤ i < record_capacity (page_header_ (pf_page f)) → bit (bits_ (pf_page f)) i = true →
    ∃ d, records_ (pf_page f) !! i = Some d ∧ Z.of_nat (length d) = record_real_size (page_header_ (pf_page f));
}.

Lemma page_slots_lookup f i d :
  page_slots f !! i = Some d ↔
  records_ (pf_page f) !! i = Some d ∧ 0 ≤ i < record_capacity (page_header_ (pf_page f)) ∧ bit (bits_ (pf_page f)) i = true.
Proof. unfold page_slots. by rewrite map_lookup_filter_Some. Qed.

(** A slot is in the map when its bit is set. *)
Lemma page_slots_bit f i :
  page_ok f → 0 ≤ i < record_capacity (page_header_ (pf_page f)) →
  is_Some (page_slots f !! i) ↔ bit (bits_ (pf_page f)) i = true.
Proof.
  intros Hok Hi. split.
  - intros [d Hd]. by apply page_slots_lookup in Hd as (_ & _ & ?).
  - intros Hb. destruct (po_records f Hok i Hi Hb) as (d & Hd & _). exists d. by apply page_slots_lookup.
Qed.

Lemma page_slots_none f i :
  page_ok f → 0 ≤ i < record_capacity (page_header_ (pf_page f)) →
  page_slots f !! i = None ↔ bit (bits_ (pf_page f)) i = false.
Proof.
  intros Hok Hi. rewrite eq_None_not_Some, page_slots_bit, not_true_iff_false by done. done.
Qed.

Lemma page_bits_range f i :
  page_ok f → 0 ≤ i < record_capacity (page_header_ (pf_page f)) → 0 ≤ i < 8 * Z.of_nat (length (bitmap_ (page_bitmap f))).
Proof. intros Hok Hi. destruct (po_wf f Hok) as [_ H]. cbn in *. lia. Qed.

Lemma get_bit_slot f i :
  page_ok f → 0 ≤ i < record_capacity (page_header_ (pf_page f)) →
  get_bit (page_bitmap f) i = Some (bool_decide (is_Some (page_slots f !! i))).
Proof.
  intros Hok Hi. rewrite get_bit_spec by (by apply page_bits_range). f_equal. cbn.
  pose proof (page_slots_bit f i Hok Hi). case_bool_decide; destruct (bit _ _); naive_solver.
Qed.

Definition slot_range (cap : Z) : gset Z := list_to_set (seqZ 0 cap).

Lemma slot_range_size cap : 0 ≤ cap → Z.of_nat (size (slot_range cap)) = cap.
Proof. intros. unfold slot_range. rewrite size_list_to_set by apply NoDup_seqZ. rewrite length_seqZ. lia. Qed.

Lemma slot_range_elem cap i : i ∈ slot_range cap ↔ 0 ≤ i < cap.
Proof. unfold slot_range. rewrite elem_of_list_to_set, elem_of_seqZ. lia. Qed.

Lemma page_slots_dom f : dom (page_slots f) ⊆ slot_range (record_capacity (page_header_ (pf_page f))).
Proof.
  intros i [d Hd]%elem_of_dom. apply page_slots_lookup in Hd as (_ & Hr & _). by apply slot_range_elem.
Qed.

(** A page that is not full has a free slot, and a full page has none. *)
Lemma page_slots_full f :
  page_ok f → record_num (page_header_ (pf_page f)) = record_capacity (page_header_ (pf_page f)) ↔
  ∀ i, 0 ≤ i < record_capacity (page_header_ (pf_page f)) → is_Some (page_slots f !! i).
Proof.
  intros Hok. pose proof (page_slots_dom f) as Hd. pose proof (po_num f Hok) as Hn.
  pose proof (slot_range_size _ (pl_capacity _ (po_layout f Hok))) as Hs.
  rewrite <- size_dom in Hn. split.
  - intros Hfull i Hi. apply elem_of_dom. destruct (decide (i ∈ dom (page_slots f))) as [|Hni]; [done|].
    assert (dom (page_slots f) ⊂ slot_range (record_capacity (page_header_ (pf_page f)))) as Hlt%subset_size.
    { split; [done|]. intros Hb. apply Hni, Hb, slot_range_elem. done. }
    lia.
  - intros Hall. assert (dom (page_slots f) = slot_range (record_capacity (page_header_ (pf_page f)))) as E.
    { apply set_eq. intros i. split; [apply Hd|]. intros Hi%slot_range_elem. by apply elem_of_dom, Hall. }
    rewrite E in Hn. lia.
Qed.

Lemma page_num_le f : page_ok f → record_num (page_header_ (pf_page f)) ≤ record_capacity (page_header_ (pf_page f)).
Proof.
  intros Hok. pose proof (subseteq_size _ _ (page_slots_dom f)). rewrite size_dom in H.
  pose proof (po_num f Hok). pose proof (slot_range_size _ (pl_capacity _ (po_layout f Hok))). lia.
Qed.

(** The invariant and the map after the bit and the bytes of one slot have changed. *)
Lemma page_change f f' i (v : option (list Z)) b' :
  page_ok f → 0 ≤ i < record_capacity (page_header_ (pf_page f)) →
  updates_bit (page_bitmap f) i (bool_decide (is_Some v)) b' →
  (∀ d, v = Some d → Z.of_nat (length d) = record_real_size (page_header_ (pf_page f))) →
  bits_ (pf_page f') = bitmap_ b' →
  page_header_ (pf_page f') = set_record_num (page_header_ (pf_page f))
    (Z.of_nat (size (partial_alter (λ _, v) i (page_slots f)))) →
  records_ (pf_page f') = match v with Some d => <[i := d]> (records_ (pf_page f)) | None => records_ (pf_page f) end →
  page_ok f' ∧ page_slots f' = partial_alter (λ _, v) i (page_slots f).
Proof.
  intros Hok Hi (Hsz & Hlen & Hwf & Hbit) Hv Hb Hh Hr. cbn in Hlen, Hbit.
  assert (Es : page_slots f' = partial_alter (λ _, v) i (page_slots f)).
  { apply map_eq. intros j. apply option_eq. intros d. rewrite page_slots_lookup, Hb, Hh, Hr. cbn.
    destruct (decide (i = j)) as [<-|Hne].
    - rewrite lookup_partial_alter_eq, Hbit, decide_True by (done || lia). destruct v as [d0|]; cbn.
      + rewrite lookup_insert_eq. naive_solver.
      + naive_solver.
    - rewrite lookup_partial_alter_ne, page_slots_lookup by done.
      assert (match v with Some d => <[i:=d]> (records_ (pf_page f)) | None => records_ (pf_page f) end !! j =
              records_ (pf_page f) !! j) as -> by (destruct v; [by rewrite lookup_insert_ne|done]).
      split; intros (H1 & H2 & H3); (split_and!; try done || lia); rewrite Hbit, decide_False in * by (done || lia); done. }
  split; [|done]. destruct Hok as [Hlay Hw Hl Hpad Hn Hrec]. constructor.
  - rewrite Hh. destruct Hlay. constructor; cbn; try done. lia.
  - destruct Hwf as [Hw1 Hw2]. unfold page_bitmap. rewrite Hb, Hh. split; [done|]. cbn in *. by rewrite <- Hsz.
  - by rewrite Hb, Hh, Hlen.
  - rewrite Hb, Hh, Hlen. cbn. intros j Hj. rewrite Hbit, decide_False by lia. by apply Hpad.
  - rewrite Es, Hh. done.
  - rewrite Hb, Hh, Hr. cbn. intros j Hj. rewrite Hbit by lia. case_decide as D.
    + subst j. intros [d Hd]%bool_decide_eq_true. subst v. exists d. rewrite lookup_insert_eq. split; [done|]. by apply Hv.
    + intros Hbj. destruct (Hrec j Hj Hbj) as (d & Hd & Hdl). exists d. split; [|done].
      destruct v; [by rewrite lookup_insert_ne|done].
Qed.

(** *** The specification *)

Inductive SlotOp :=
  | SInsert (data : list Z)
  | SDelete (slot : Z)
  | SUpdate (slot : Z) (data : option (list Z))   (* without data: the record was changed in place *)
  | SGet (slot : Z).

(** A result: the code, the slot of an insertion, the bytes of a record. *)
Definition SlotResult : Type := RC * option Z * option (list Z).

Definition first_free (cap : Z) (m : gmap Z (list Z)) : option Z :=
  head (filter (λ i, m !! i = None) (seqZ 0 cap)).

(** What the operations do to a map of at most [cap] records of [real] bytes. *)
Definition slots_op (cap real : Z) (m : gmap Z (list Z)) (op : SlotOp) : SlotResult * gmap Z (list Z) :=
  match op with
  | SInsert data =>
      match first_free cap m with
      | Some i => ((RC_SUCCESS, Some i, None), <[i := take (Z.to_nat real) data]> m)
      | None => ((RC_RECORD_NOMEM, None, None), m)
      end
  | SDelete i =>
      match m !! i with
      | Some _ => ((RC_SUCCESS, None, None), delete i m)
      | None => ((RC_RECORD_NOT_EXIST, None, None), m)
      end
  | SUpdate i data =>
      if cap <=? i then ((RC_INVALID_ARGUMENT, None, None), m)
      else match m !! i with
           | Some old => ((RC_SUCCESS, None, None), <[i := take (Z.to_nat real) (default old data)]> m)
           | None => ((RC_RECORD_NOT_EXIST, None, None), m)
           end
  | SGet i =>
      if cap <=? i then ((RC_RECORD_INVALID_RID, None, None), m)
      else match m !! i with
           | Some d => ((RC_SUCCESS, None, Some d), m)
           | None => ((RC_RECORD_NOT_EXIST, None, None), m)
           end
  end.

Lemma first_free_spec cap m i :
  0 ≤ i < cap → m !! i = None → (∀ j, 0 ≤ j < i → is_Some (m !! j)) → first_free cap m = Some i.
Proof.
  intros Hi Hn Hall. unfold first_free.
  assert (seqZ 0 cap = seqZ 0 i ++ seqZ i (cap - i)) as ->.
  { replace cap with (i + (cap - i)) at 1 by lia. rewrite seqZ_app by lia. done. }
  rewrite filter_app.
  assert (filter (λ i, m !! i = None) (seqZ 0 i) = []) as ->.
  { apply elem_of_nil_inv. intros j Hj. apply list_elem_of_filter in Hj as [Hj Hr%elem_of_seqZ].
    destruct (Hall j ltac:(lia)) as [d Hd]. congruence. }
  cbn [app]. rewrite seqZ_cons by lia. by rewrite filter_cons_True.
Qed.

Lemma first_free_none cap m : (∀ i, 0 ≤ i < cap → is_Some (m !! i)) → first_free cap m = None.
Proof.
  intros Hall. unfold first_free.
  assert (filter (λ i, m !! i = None) (seqZ 0 cap) = []) as ->; [|done].
  apply elem_of_nil_inv. intros j Hj. apply list_elem_of_filter in Hj as [Hj Hr%elem_of_seqZ].
  destruct (Hall j ltac:(lia)) as [d Hd]. congruence.
Qed.

(** *** The operations implement the specification *)

Section refinement.
Context {L : Type} `{LogSink L}.
Variable uninitialized : Z.
Implicit Types (h : RecordPageHandler) (l : L) (f : PageFrame).

(** An operation on slots, as the page handler runs it. *)
Definition page_op h l f (op : SlotOp) : option (SlotResult * L * PageFrame) :=
  match op with
  | SInsert data =>
      '(rc, l, f, rid) ← insert_record h l f data; Some ((rc, option_map rid_slot_num rid, None), l, f)
  | SDelete i =>
      '(rc, l, f) ← delete_record uninitialized h l f (mkRID (rph_page_num h) i); Some ((rc, None, None), l, f)
  | SUpdate i data =>
      '(rc, l, f) ← update_record h l f (mkRID (rph_page_num h) i) data; Some ((rc, None, None), l, f)
  | SGet i =>
      '(rc, d) ← get_record f (mkRID (rph_page_num h) i); Some ((rc, None, d), l, f)
  end.

Fixpoint page_ops h l f (ops : list SlotOp) : option (list SlotResult * L * PageFrame) :=
  match ops with
  | [] => Some ([], l, f)
  | op :: ops =>
      '(r, l, f) ← page_op h l f op;
      '(rs, l, f) ← page_ops h l f ops;
      Some (r :: rs, l, f)
  end.

Fixpoint slots_ops (cap real : Z) (m : gmap Z (list Z)) (ops : list SlotOp) : list SlotResult * gmap Z (list Z) :=
  match ops with
  | [] => ([], m)
  | op :: ops => let '(r, m) := slots_op cap real m op in let '(rs, m) := slots_ops cap real m ops in (r :: rs, m)
  end.

(** What a caller has to respect: the bytes of a record are there, slots are not negative, and a
    deleted slot lies in the bitmap, which [delete_record] does not check. *)
Definition op_ok (hd : PageHeader) (op : SlotOp) : Prop :=
  match op with
  | SInsert data => record_real_size hd ≤ Z.of_nat (length data)
  | SDelete i => 0 ≤ i < 8 * page_bitmap_size (record_capacity hd)
  | SUpdate i data => 0 ≤ i ∧ match data with Some d => record_real_size hd ≤ Z.of_nat (length d) | None => True end
  | SGet i => 0 ≤ i
  end.

Lemma append_record_log_page l f payload : pf_page (append_record_log l f payload).1.2 = pf_page f.
Proof. unfold append_record_log. destruct (sink_append _ _ _) as [[l' rc] n]. cbn. by destruct (_ && _). Qed.

Lemma copy_record_ok f data :
  0 < record_real_size (page_header_ (pf_page f)) → record_real_size (page_header_ (pf_page f)) ≤ Z.of_nat (length data) →
  copy_record f data = Some (take (Z.to_nat (record_real_size (page_header_ (pf_page f)))) data) ∧
  Z.of_nat (length (take (Z.to_nat (record_real_size (page_header_ (pf_page f)))) data)) = record_real_size (page_header_ (pf_page f)).
Proof.
  intros H0 Hl. unfold copy_record. rewrite (proj2 (Z.leb_le _ _)) by done. split; [done|]. rewrite length_take. lia.
Qed.

Lemma copy_record_page f g data : pf_page f = pf_page g → copy_record f data = copy_record g data.
Proof. unfold copy_record. by intros ->. Qed.

(** The slot [next_unsetted_bit] finds. *)
Lemma next_free_slot f :
  page_ok f → record_num (page_header_ (pf_page f)) ≠ record_capacity (page_header_ (pf_page f)) →
  ∃ i, next_unsetted_bit (page_bitmap f) 0 = Some i ∧ 0 ≤ i < record_capacity (page_header_ (pf_page f)) ∧
    page_slots f !! i = None ∧ first_free (record_capacity (page_header_ (pf_page f))) (page_slots f) = Some i.
Proof.
  intros Hok Hn. destruct (next_unsetted_bit_first (page_bitmap f) 0 (po_wf f Hok) ltac:(lia)) as (i & Hi & Hf).
  exists i. split; [done|]. destruct Hf as [[-> Hall]|(Hr & Hb & Hall)]; cbn in *.
  { destruct Hn. apply page_slots_full; [done|]. intros j Hj. apply page_slots_bit; [done..|]. by apply Hall. }
  assert (page_slots f !! i = None) by (by apply page_slots_none). split_and!; [lia..|done|].
  apply first_free_spec; [done..|]. intros j Hj. apply page_slots_bit; [done|lia|]. by apply Hall.
Qed.

Lemma insert_refines h l f data :
  page_ok f → rw_mode_ h = READ_WRITE → op_ok (page_header_ (pf_page f)) (SInsert data) →
  ∃ r l' f' n, page_op h l f (SInsert data) = Some (r, l', f') ∧ page_ok f' ∧
    (r, page_slots f') = slots_op (record_capacity (page_header_ (pf_page f))) (record_real_size (page_header_ (pf_page f)))
                           (page_slots f) (SInsert data) ∧
    page_header_ (pf_page f') = set_record_num (page_header_ (pf_page f)) n.
Proof.
  intros Hok Hm Hd. cbn [page_op slots_op]. unfold insert_record. rewrite Hm, decide_False by done. cbv zeta.
  destruct (_ =? _) eqn:E; zify_bool.
  { rewrite first_free_none by (by apply page_slots_full). do 3 eexists. exists (record_num (page_header_ (pf_page f))).
    split_and!; try done. by destruct (page_header_ (pf_page f)). }
  destruct (next_free_slot f Hok E) as (i & -> & Hi & Hnone & ->). cbn [mbind option_bind].
  destruct (set_bit_updates (page_bitmap f) i (po_wf f Hok) (page_bits_range f i Hok Hi)) as (b & -> & Hb). cbn [mbind option_bind].
  set (f1 := update_page _ _ _ _). unfold log_insert_record.
  pose proof (append_record_log_page l f1 (log_header_bytes
    (mkRecordLogHeader (buffer_pool_id_ h) (operation_id INSERT) (rid_page_num (mkRID (rph_page_num h) i)) (storage_format_ h) 0
       (rid_slot_num (mkRID (rph_page_num h) i))) ++ take (Z.to_nat (record_size_ h)) data)) as Hp.
  destruct (append_record_log _ _ _) as [[l' f2] rc]. cbn in Hp.
  destruct (copy_record_ok f data) as [Hc Hlen]; [apply (pl_real _ (po_layout f Hok))|done|].
  assert (copy_record f2 data = copy_record f data) as ->.
  { unfold copy_record. by rewrite Hp. }
  rewrite Hc. cbn [mbind option_bind fmap option_fmap option_map]. do 3 eexists. eexists. split; [done|].
  set (f' := mkPageFrame _ _ _). set (rec := take _ data) in *.
  destruct (page_change f f' i (Some rec) b Hok Hi) as [Hok' Hs']; [done|by intros d [= <-]|by subst f'; cbn; rewrite Hp| |by subst f'; cbn; rewrite Hp|].
  { subst f'. cbn. rewrite Hp. cbn. f_equal. change (partial_alter (λ _, Some rec) i (page_slots f)) with (<[i:=rec]> (page_slots f)).
    rewrite map_size_insert_None by done.
    rewrite (po_num f Hok). lia. }
  split_and!; [done|by rewrite Hs'|]. subst f'. cbn. rewrite Hp. done.
Qed.

(** Used slots hold records of the right size. *)
Lemma page_slots_real f i d :
  page_ok f → page_slots f !! i = Some d → Z.of_nat (length d) = record_real_size (page_header_ (pf_page f)).
Proof.
  intros Hok Hd. pose proof Hd as (H1 & H2 & H3)%page_slots_lookup.
  destruct (po_records f Hok i H2 H3) as (d' & Hd' & ?). congruence.
Qed.

Lemma delete_refines h l f i :
  page_ok f → rw_mode_ h = READ_WRITE → op_ok (page_header_ (pf_page f)) (SDelete i) →
  ∃ r l' f' n, page_op h l f (SDelete i) = Some (r, l', f') ∧ page_ok f' ∧
    (r, page_slots f') = slots_op (record_capacity (page_header_ (pf_page f))) (record_real_size (page_header_ (pf_page f)))
                           (page_slots f) (SDelete i) ∧
    page_header_ (pf_page f') = set_record_num (page_header_ (pf_page f)) n.
Proof.
  intros Hok Hm Hd. cbn [page_op slots_op op_ok] in *. unfold delete_record. rewrite Hm, decide_False by done. cbv zeta.
  cbn [rid_slot_num]. rewrite <- (po_length f Hok) in Hd. rewrite get_bit_spec by done. cbn [mbind option_bind].
  destruct (bit (bitmap_ (page_bitmap f)) i) eqn:Hb.
  - assert (Hi : 0 ≤ i < record_capacity (page_header_ (pf_page f))).
    { split; [lia|]. apply Z.lt_nge. intros Hge. cbn in Hb. rewrite (po_padding f Hok) in Hb; [done|lia]. }
    destruct (proj2 (page_slots_bit f i Hok Hi) Hb) as [d Hs]. rewrite Hs.
    destruct (clear_bit_updates (page_bitmap f) i (po_wf f Hok) ltac:(done)) as (b & -> & Hu). cbn [mbind option_bind].
    set (f1 := dirtied _ _). unfold log_delete_record. set (hb := log_header_bytes _).
    pose proof (append_record_log_page l f1 hb) as Hp. destruct (append_record_log _ _ _) as [[l' f'] rc].
    cbn [fst snd] in Hp. do 3 eexists. eexists. split; [done|].
    destruct (page_change f f' i None b Hok Hi) as [Hok' Hs']; [done..|by rewrite Hp| |by rewrite Hp|].
    { rewrite Hp. cbn. f_equal. change (partial_alter (λ _, None) i (page_slots f)) with (delete i (page_slots f)).
      rewrite map_size_delete_Some by done. pose proof (map_size_non_empty_iff (page_slots f)) as Hz.
      assert (size (page_slots f) ≠ 0%nat) by (apply Hz; intros E; by rewrite E in Hs).
      rewrite (po_num f Hok). lia. }
    split_and!; [done|by rewrite Hs'|]. rewrite Hp. done.
  - assert (page_slots f !! i = None) as ->.
    { apply eq_None_not_Some. intros [d (_ & _ & Hx)%page_slots_lookup]. cbn in Hb. congruence. }
    do 3 eexists. exists (record_num (page_header_ (pf_page f))). split_and!; try done. by destruct (page_header_ (pf_page f)).
Qed.

Lemma update_refines h l f i data :
  page_ok f → rw_mode_ h = READ_WRITE → op_ok (page_header_ (pf_page f)) (SUpdate i data) →
  ∃ r l' f' n, page_op h l f (SUpdate i data) = Some (r, l', f') ∧ page_ok f' ∧
    (r, page_slots f') = slots_op (record_capacity (page_header_ (pf_page f))) (record_real_size (page_header_ (pf_page f)))
                           (page_slots f) (SUpdate i data) ∧
    page_header_ (pf_page f') = set_record_num (page_header_ (pf_page f)) n.
Proof.
  intros Hok Hm [Hi0 Hd]. cbn [page_op slots_op op_ok] in *. unfold update_record. rewrite Hm, decide_False by done. cbv zeta.
  cbn [rid_slot_num].
  assert (Hsame : page_header_ (pf_page f) = set_record_num (page_header_ (pf_page f)) (record_num (page_header_ (pf_page f))))
    by (by destruct (page_header_ (pf_page f))).
  destruct (_ <=? i) eqn:Ec; zify_bool; [by do 4 eexists|].
  rewrite get_bit_slot by done. cbn [mbind option_bind]. case_bool_decide as Hs; cycle 1.
  { apply eq_None_not_Some in Hs as ->. by do 4 eexists. }
  destruct Hs as [old Hs]. rewrite Hs. pose proof Hs as (Hr & Hi & Hb)%page_slots_lookup. rewrite Hr. cbn [default from_option id].
  pose proof (page_slots_real f i old Hok Hs) as Hold.
  destruct (copy_record_ok f (default old data)) as [Hc Hlen].
  { apply (pl_real _ (po_layout f Hok)). } { destruct data; cbn; [done|lia]. }
  rewrite Hc. cbn [mbind option_bind]. set (rec := take _ _) in *. set (f1 := dirtied _ _). unfold log_update_record.
  set (hb := _ ++ _). pose proof (append_record_log_page l f1 hb) as Hp. destruct (append_record_log _ _ _) as [[l' f'] rc].
  cbn [fst snd] in Hp. do 3 eexists. eexists. split; [done|].
  destruct (page_change f f' i (Some rec) (page_bitmap f) Hok Hi) as [Hok' Hs'];
    [|by intros d [= <-]|by rewrite Hp| |by rewrite Hp|].
  { split_and!; [done..|apply (po_wf f Hok)|]. intros j Hj. case_decide as D; [|done]. by subst j. }
  { rewrite Hp. cbn. change (partial_alter (λ _, Some rec) i (page_slots f)) with (<[i:=rec]> (page_slots f)).
    rewrite map_size_insert_Some by done. rewrite <- (po_num f Hok). done. }
  split_and!; [done|by rewrite Hs'|]. rewrite Hp. done.
Qed.

Lemma get_refines h l f i :
  page_ok f → op_ok (page_header_ (pf_page f)) (SGet i) →
  ∃ r, page_op h l f (SGet i) = Some (r, l, f) ∧
    (r, page_slots f) = slots_op (record_capacity (page_header_ (pf_page f))) (record_real_size (page_header_ (pf_page f)))
                          (page_slots f) (SGet i).
Proof.
  intros Hok Hi. cbn [page_op slots_op op_ok] in *. unfold get_record. cbn [rid_slot_num].
  destruct (_ <=? i) eqn:Ec; zify_bool; [by eexists|].
  rewrite get_bit_slot by done. cbn [mbind option_bind]. case_bool_decide as Hs; cycle 1.
  { apply eq_None_not_Some in Hs as ->. by eexists. }
  destruct Hs as [d Hs]. rewrite Hs. pose proof Hs as (Hr & _ & _)%page_slots_lookup. rewrite Hr. by eexists.
Qed.

Lemma page_op_refines h l f op :
  page_ok f → rw_mode_ h = READ_WRITE → op_ok (page_header_ (pf_page f)) op →
  ∃ r l' f' n, page_op h l f op = Some (r, l', f') ∧ page_ok f' ∧
    (r, page_slots f') = slots_op (record_capacity (page_header_ (pf_page f))) (record_real_size (page_header_ (pf_page f)))
                           (page_slots f) op ∧
    page_header_ (pf_page f') = set_record_num (page_header_ (pf_page f)) n.
Proof.
  intros Hok Hm Hop. destruct op; [by apply insert_refines|by apply delete_refines|by apply update_refines|].
  destruct (get_refines h l f slot Hok Hop) as (r & ? & ?). exists r, l, f, (record_num (page_header_ (pf_page f))).
  split_and!; try done. by destruct (page_header_ (pf_page f)).
Qed.

(** C10: for every sequence of insertions, deletions, updates and reads on a well-formed record page, whether or not the log records can be
    written, the page handler returns the result of the same operation on a map from slots to records and leaves a well-formed
    page that stores the final map: an insertion takes the lowest free slot, or reports RECORD_NOMEM exactly when every slot is
    used; deletion, update and reading report a free slot, update and reading also one beyond the capacity.  Slots are not
    negative, the records have their bytes, and deleted slots lie inside the bitmap (a byte-wise rounded-up capacity): beyond it [delete_record]
    would read behind the bitmap. *)
Theorem record_page_refines_map h l f ops :
  page_ok f → rw_mode_ h = READ_WRITE → Forall (op_ok (page_header_ (pf_page f))) ops →
  ∃ rs l' f', page_ops h l f ops = Some (rs, l', f') ∧ page_ok f' ∧
    (rs, page_slots f') = slots_ops (record_capacity (page_header_ (pf_page f)))
                            (record_real_size (page_header_ (pf_page f))) (page_slots f) ops.
Proof.
  intros Hok Hm Hops. revert l f Hok Hops. induction ops as [|op ops IH]; intros l f Hok Hops; [by do 3 eexists|].
  apply Forall_cons in Hops as [Hop Hops]. destruct (page_op_refines h l f op Hok Hm Hop) as (r & l1 & f1 & n & E & Hok1 & Er & Eh).
  cbn [page_ops slots_ops]. rewrite E. cbn [mbind option_bind].
  destruct (IH l1 f1 Hok1) as (rs & l2 & f2 & E2 & Hok2 & Er2).
  { rewrite Eh. eapply Forall_impl; [exact Hops|]. by intros []. }
  rewrite E2. cbn [mbind option_bind]. do 3 eexists. split; [done|]. split; [done|].
  rewrite Eh in Er2. cbn in Er2. rewrite <- Er. cbn. by rewrite <- Er2.
Qed.
End refinement.

(** *** A new page *)

(** [src/src/observer/storage/record/record_manager.h:252-255] [RecordPageHandler::get_record_data] the
    offset in the page *)
Definition get_record_data (hd : PageHeader) (slot_num : Z) : Z := data_offset hd + record_size hd * slot_num.

Lemma bit_zeroes n i : 0 ≤ i < 8 * Z.of_nat n → bit (replicate n 0) i = false.
Proof.
  intros Hi. unfold bit. rewrite lookup_total_replicate_2; [apply Z.testbit_0_l|].
  assert (i / 8 < Z.of_nat n) by (apply Z.div_lt_upper_bound; lia). assert (0 ≤ i / 8) by (apply Z.div_pos; lia). lia.
Qed.

(** Zeroing the bitmap makes any page with a sound header a well-formed empty page. *)
Lemma empty_page_ok f :
  page_layout (page_header_ (pf_page f)) → record_num (page_header_ (pf_page f)) = 0 →
  bits_ (pf_page f) = replicate (Z.to_nat (page_bitmap_size (record_capacity (page_header_ (pf_page f))))) 0 →
  page_ok f ∧ page_slots f = ∅.
Proof.
  intros Hlay Hn Hb. pose proof (page_bitmap_size_bound _ (pl_capacity _ Hlay)). pose proof (pl_capacity _ Hlay).
  assert (Hz : ∀ i, 0 ≤ i < 8 * page_bitmap_size (record_capacity (page_header_ (pf_page f))) → bit (bits_ (pf_page f)) i = false).
  { intros i Hi. rewrite Hb. apply bit_zeroes. lia. }
  assert (Hs : page_slots f = ∅).
  { apply map_empty. intros i. apply eq_None_not_Some. intros [d (_ & Hi & Hx)%page_slots_lookup].
    rewrite Hz in Hx; [done|lia]. }
  split; [|done]. constructor; try done.
  - unfold page_bitmap. rewrite Hb. split; cbn; [|rewrite length_replicate; lia]. by apply Forall_replicate.
  - rewrite Hb, length_replicate. lia.
  - intros i Hi. apply Hz. rewrite Hb, length_replicate in Hi. lia.
  - by rewrite Hs, Hn.
  - intros i Hi. rewrite Hz; [done|lia].
Qed.

(** C37: for every record size and every table whose column index fits into the page, [init_empty_page]
    passes its assertion and produces a well-formed page without records, in which header, bitmap,
    column index and the bytes of every record slot lie one after the other inside the page, without
    overlap, and the bitmap has a bit for every slot. *)
Theorem init_empty_page_fits {L} `{LogSink L} h (l : L) f size lens :
  0 < size ≤ INT32_MAX - 7 → PAGE_HEADER_SIZE + Z.of_nat (length lens) * 4 < BP_PAGE_DATA_SIZE →
  ∃ rc l' f', init_empty_page h l f size lens = Some (rc, l', f') ∧ page_ok f' ∧ page_slots f' = ∅ ∧
    let hd := page_header_ (pf_page f') in
    record_real_size hd = size ∧
    PAGE_HEADER_SIZE + Z.of_nat (length (bits_ (pf_page f'))) ≤ col_idx_offset hd ∧
    record_capacity hd ≤ 8 * Z.of_nat (length (bits_ (pf_page f'))) ∧
    (∀ i, 0 ≤ i < record_capacity hd →
       col_idx_offset hd + column_num hd * 4 ≤ get_record_data hd i ∧ get_record_data hd i + size ≤ BP_PAGE_DATA_SIZE) ∧
    (∀ i j, 0 ≤ i < j → get_record_data hd i + size ≤ get_record_data hd j).
Proof.
  intros Hsize Hfit. unfold init_empty_page. cbv zeta. cbn [storage_format_]. set (cols := if storage_format_ h =? 2 then lens else []).
  assert (Hc : PAGE_HEADER_SIZE + Z.of_nat (length cols) * 4 < BP_PAGE_DATA_SIZE) by (subst cols; case_match; [done|by vm_compute]).
  destruct (empty_header_ok size (Z.of_nat (length cols)) Hsize ltac:(lia) Hc) as (hd & -> & Hlay & Hn & Hr & Hcol).
  cbn [mbind option_bind]. unfold log_init_new_page. set (f1 := mkPageFrame _ _ _). set (pl := _ ++ _).
  pose proof (append_record_log_page l f1 pl) as Hp. destruct (append_record_log _ _ _) as [[l' f'] rc]. cbn [fst snd] in Hp.
  destruct (empty_page_ok f') as [Hok Hs]; [by rewrite Hp..|].
  do 3 eexists. split; [done|]. split; [done|]. split; [done|]. pose proof (po_length _ Hok) as Hl. rewrite Hp in Hl |- *. cbn [pf_page f1 bits_ page_header_] in *. cbv zeta.
  rewrite Hl. destruct Hlay as [_ Hcap Hreal Hbm Hco Hrec Hcn]. pose proof (page_bitmap_size_bound _ Hcap).
  unfold get_record_data. split_and!; [done|lia|lia| |].
  - intros i Hi. split; [nia|].
    assert (record_size hd * i + record_size hd ≤ record_capacity hd * record_size hd) by nia. lia.
  - intros i j Hij. assert (record_size hd * i + record_size hd ≤ record_size hd * j) by nia. lia.
Qed.

Lemma init_empty_page_fits_witness :
  ∃ rc l' f', init_empty_page (mkPageHandler READ_WRITE 1 7 4 1) new_buffer (mkPageFrame 0 false (mkRecordPage (mkPageHeader 0 0 0 0 0 0 0) [] [] ∅)) 100 [] = Some (rc, l', f') ∧ page_slots f' = ∅.
Proof.
  destruct (init_empty_page_fits (mkPageHandler READ_WRITE 1 7 4 1) new_buffer
    (mkPageFrame 0 false (mkRecordPage (mkPageHeader 0 0 0 0 0 0 0) [] [] ∅)) 100 []) as (rc & l' & f' & E & _ & Hs & _);
    [by vm_compute..|].
  exists rc, l', f'. by split.
Defined.

Definition ex_header : PageHeader := mkPageHeader 0 0 3 8 2 32 32.
Definition ex_frame : PageFrame := mkPageFrame 0 false (mkRecordPage ex_header [0] [] ∅).

Lemma ex_frame_ok : page_ok ex_frame ∧ page_slots ex_frame = ∅.
Proof. apply empty_page_ok; [|done..]. constructor; by vm_compute. Qed.

Lemma record_page_refines_map_witness :
  ∃ rs l' f', page_ops 0 (mkPageHandler READ_WRITE 1 7 3 1) new_buffer ex_frame
      [SInsert [1; 2; 3]; SInsert [4; 5; 6]; SInsert [7; 8; 9]; SDelete 0; SUpdate 1 (Some [6; 6; 6]); SGet 1; SGet 0] = Some (rs, l', f') ∧
    page_ok f' ∧
    rs = [(RC_SUCCESS, Some 0, None); (RC_SUCCESS, Some 1, None); (RC_RECORD_NOMEM, None, None); (RC_SUCCESS, None, None);
          (RC_SUCCESS, None, None); (RC_SUCCESS, None, Some [6; 6; 6]); (RC_RECORD_NOT_EXIST, None, None)].
Proof.
  destruct (record_page_refines_map 0 (mkPageHandler READ_WRITE 1 7 3 1) new_buffer ex_frame
      [SInsert [1; 2; 3]; SInsert [4; 5; 6]; SInsert [7; 8; 9]; SDelete 0; SUpdate 1 (Some [6; 6; 6]); SGet 1; SGet 0]) as (rs & l' & f' & E & Hok & Er).
  - apply ex_frame_ok.
  - done.
  - repeat constructor; by vm_compute.
  - exists rs, l', f'. split; [exact E|]. split; [exact Hok|]. rewrite (proj2 ex_frame_ok) in Er. apply (f_equal fst) in Er. exact Er.
Defined.
