(* ===== verification/RecordLog.v ===== *)
(** * Redo of the record log ([storage/record/record_log.*])

    [RecordLogReplayer] redoes the records that the page handlers write.  The store is the pages
    of the open buffer pools.  The main theorem: whatever versions of the pages were on disk
    at a crash, redoing the log gives the pages the run ended with. *)
From S2P Require Import Prelude Rc Bitmap Serializer LogFile LogHandler LogSink BplusKey RecordPage.

(** ** The replayer *)

(** The pages of the buffer pools that are open. *)
Record PagePools := mkPools { open_pools : gset Z; frames_ : gmap (Z * Z) PageFrame }.

Definition with_frame (ps : PagePools) (p : Z * Z) (f : PageFrame) : PagePools :=
  mkPools (open_pools ps) (<[p := f]> (frames_ ps)).

(** [get_buffer_pool], then [get_this_page]; a page beyond the end of the file cannot be read. *)
Definition fetch_page (ps : PagePools) (pool page : Z) : PageFrame + RC :=
  if decide (pool ∈ open_pools ps) then
    match frames_ ps !! (pool, page) with Some f => inl f | None => inr RC_IOERR_READ end
  else inr RC_INTERNAL.

(** The handler that [create] and [init] make for a log record. *)
Definition replay_handler (hd : RecordLogHeader) (f : PageFrame) : RecordPageHandler :=
  page_init READ_WRITE (buffer_pool_id hd) (page_num hd) (storage_format hd) f.
Definition is_row (hd : RecordLogHeader) : bool := storage_format hd =? 1.

(** [src/src/observer/storage/record/record_log.cpp:244-262] [RecordLogReplayer::replay_init_page] *)
Definition replay_init_page (hd : RecordLogHeader) (data : list Z) (f : PageFrame) : option (RC * PageFrame) :=
  init_empty_page_recover f (slot_or_size hd) (log_column_num hd) data.

(** [src/src/observer/storage/record/record_log.cpp:264-286] [RecordLogReplayer::replay_insert] the page
    chooses the slot; a page in PAX format ends the process *)
Definition replay_insert (hd : RecordLogHeader) (data : list Z) (f : PageFrame) : option (RC * PageFrame) :=
  if is_row hd then '(rc, _, f, _) ← insert_record (replay_handler hd f) tt f data; Some (rc, f) else None.

(** [src/src/observer/storage/record/record_log.cpp:288-309] [RecordLogReplayer::replay_delete] *)
Definition replay_delete (hd : RecordLogHeader) (f : PageFrame) : option (RC * PageFrame) :=
  '(rc, _, f) ← delete_record 0 (replay_handler hd f) tt f (mkRID (page_num hd) (slot_or_size hd)); Some (rc, f).

(** [src/src/observer/storage/record/record_log.cpp:311-331] [RecordLogReplayer::replay_update] *)
Definition replay_update (hd : RecordLogHeader) (data : list Z) (f : PageFrame) : option (RC * PageFrame) :=
  if is_row hd then
    '(rc, _, f) ← update_record (replay_handler hd f) tt f (mkRID (page_num hd) (slot_or_size hd)) (Some data); Some (rc, f)
  else Some (RC_UNIMPLEMENTED, f).

(** The [switch] of [replay]. *)
Definition redo (hd : RecordLogHeader) (data : list Z) (f : PageFrame) : option (RC * PageFrame) :=
  match operation_of (operation_type hd) with
  | Some INIT_PAGE => replay_init_page hd data f
  | Some INSERT => replay_insert hd data f
  | Some DELETE => replay_delete hd f
  | Some UPDATE => replay_update hd data f
  | None => Some (RC_INVALID_ARGUMENT, f)
  end.

(** [src/src/observer/storage/record/record_log.cpp:176-242] [RecordLogReplayer::replay] *)
Definition replay (ps : PagePools) (entry : LogEntry) : option (RC * PagePools) :=
  if negb (lh_module_id (header_ entry) =? module_index RECORD_MANAGER) then Some (RC_INVALID_ARGUMENT, ps)
  else if payload_size entry <? Z.of_nat RecordLogHeader_SIZE then Some (RC_INVALID_ARGUMENT, ps)
  else
    '(hd, data) ← read_log_header (data_ entry);
    match fetch_page ps (buffer_pool_id hd) (page_num hd) with
    | inr rc => Some (rc, ps)
    | inl f =>
        if lsn entry <=? pf_lsn f then Some (RC_SUCCESS, ps)
        else
          '(rc, f) ← redo hd data f;
          if OB_FAIL rc then Some (rc, with_frame ps (buffer_pool_id hd, page_num hd) f)
          else Some (RC_SUCCESS, with_frame ps (buffer_pool_id hd, page_num hd) (with_lsn f (lsn entry)))
    end.

Fixpoint replay_all (ps : PagePools) (es : list LogEntry) : option (RC * PagePools) :=
  match es with
  | [] => Some (RC_SUCCESS, ps)
  | e :: es => '(rc, ps) ← replay ps e; if OB_FAIL rc then Some (rc, ps) else replay_all ps es
  end.

(** ** Pages that agree in everything the disk keeps *)

#[export] Instance frame_equiv : Equiv PageFrame := λ f g, pf_lsn f = pf_lsn g ∧ pf_page f = pf_page g.
#[export] Instance frame_equivalence : Equivalence (≡@{PageFrame}).
Proof.
  split.
  - by intros f.
  - by intros f g [H1 H2].
  - intros f g k [H1 H2] [H3 H4]. split; congruence.
Qed.

#[export] Instance with_lsn_proper : Proper ((≡) ==> (=) ==> (≡)) with_lsn.
Proof. by intros f g [H1 H2] n ? <-. Qed.

(** *** Redoing an operation changes the page the same way *)

Section redo_page.
Context {L : Type} `{LogSink L}.
Variable uninitialized : Z.
Implicit Types (h : RecordPageHandler) (l : L) (f g : PageFrame).

Lemma take_copy f data record :
  copy_record f data = Some record → record = take (Z.to_nat (record_real_size (page_header_ (pf_page f)))) data ∧
  record_real_size (page_header_ (pf_page f)) ≤ Z.of_nat (length data).
Proof. unfold copy_record. case_bool; [|done]. by intros [= <-]. Qed.

(** The bytes of a record in the log are enough for its redo. *)
Lemma copy_taken f g data record :
  pf_page g = pf_page f → copy_record f data = Some record →
  copy_record g (take (Z.to_nat (record_real_size (page_header_ (pf_page f)))) data) = Some record.
Proof.
  intros Hp Hc. pose proof (take_copy f data record Hc) as [-> Hl]. unfold copy_record. rewrite Hp.
  rewrite (proj2 (Z.leb_le _ _)) by (rewrite length_take; lia). by rewrite take_take, Nat.min_id.
Qed.

Lemma append_tt f payload : append_record_log tt f payload = (tt, f, RC_SUCCESS).
Proof. done. Qed.

Lemma insert_redo h h2 l f g data rc l' f' rid :
  insert_record h l f data = Some (rc, l', f', rid) → rc = RC_SUCCESS →
  rw_mode_ h2 = READ_WRITE → pf_page g = pf_page f →
  ∃ g' rid2, insert_record h2 tt g (take (Z.to_nat (record_real_size (page_header_ (pf_page f)))) data) =
               Some (RC_SUCCESS, tt, g', rid2) ∧ pf_page g' = pf_page f' ∧ pf_lsn g' = pf_lsn g.
Proof.
  intros Hi Hrc Hm2 Hp. unfold insert_record in *. rewrite Hm2, decide_False by done. unfold page_bitmap in *. rewrite Hp.
  destruct (decide (rw_mode_ h = READ_ONLY)); [done|]. cbv zeta in *. destruct (_ =? _); [by injection Hi as <- <- <- <-|].
  destruct (next_unsetted_bit _ 0) as [i|]; [|done]. cbn [mbind option_bind] in *.
  destruct (set_bit _ i) as [b|]; [|done]. cbn [mbind option_bind] in *. unfold log_insert_record in *. rewrite append_tt.
  match type of Hi with context [append_record_log l ?x ?y] => set (f1 := x) in *; pose proof (append_record_log_page l f1 y) as Hq;
    destruct (append_record_log l f1 y) as [[l2 f2] rc2] end.
  cbn [fst snd] in Hq. destruct (copy_record f2 data) as [record|] eqn:Hc; [|done]. cbn [mbind option_bind] in *.
  injection Hi as <- <- <- <-.
  assert (Hc' : copy_record f data = Some record) by (rewrite <- Hc; unfold copy_record; by rewrite Hq).
  set (g1 := update_page g _ _ _).
  assert (copy_record g1 (take (Z.to_nat (record_real_size (page_header_ (pf_page f)))) data) = Some record) as ->.
  { rewrite <- (copy_taken f g data record Hp Hc'). unfold copy_record. subst g1. cbn. by rewrite Hp. }
  cbn [mbind option_bind]. do 2 eexists. split; [done|]. cbn. rewrite Hq. subst f1. cbn. by rewrite Hp.
Qed.

Lemma delete_redo h h2 l f g rid rid2 rc l' f' :
  delete_record uninitialized h l f rid = Some (rc, l', f') → rc = RC_SUCCESS →
  rw_mode_ h2 = READ_WRITE → pf_page g = pf_page f → rid_slot_num rid2 = rid_slot_num rid →
  ∃ g', delete_record 0 h2 tt g rid2 = Some (RC_SUCCESS, tt, g') ∧ pf_page g' = pf_page f' ∧ pf_lsn g' = pf_lsn g.
Proof.
  intros Hi Hrc Hm2 Hp Hs. unfold delete_record in *. rewrite Hm2, decide_False by done. unfold page_bitmap in *. rewrite Hp, Hs.
  destruct (decide (rw_mode_ h = READ_ONLY)); [done|]. cbv zeta in *.
  destruct (get_bit _ _) as [[]|]; cbn [mbind option_bind] in *; [|by injection Hi as <- <- <-|done].
  destruct (clear_bit _ _) as [b|]; [|done]. cbn [mbind option_bind] in *. unfold log_delete_record in *. rewrite append_tt.
  match type of Hi with context [append_record_log l ?x ?y] => pose proof (append_record_log_page l x y) as Hq;
    destruct (append_record_log l x y) as [[l2 f2] rc2] end.
  cbn [fst snd] in Hq. injection Hi as <- <- <-. eexists. split; [done|]. cbn. rewrite Hq. cbn. by rewrite ?Hp.
Qed.

Lemma update_redo h h2 l f g rid rid2 data rc l' f' :
  update_record h l f rid data = Some (rc, l', f') → rc = RC_SUCCESS →
  rw_mode_ h2 = READ_WRITE → pf_page g = pf_page f → rid_slot_num rid2 = rid_slot_num rid →
  ∃ g', update_record h2 tt g rid2 (Some (take (Z.to_nat (record_real_size (page_header_ (pf_page f))))
                                      (default (default [] (records_ (pf_page f) !! rid_slot_num rid)) data))) =
          Some (RC_SUCCESS, tt, g') ∧ pf_page g' = pf_page f' ∧ pf_lsn g' = pf_lsn g.
Proof.
  intros Hi Hrc Hm2 Hp Hs. unfold update_record in *. rewrite Hm2, decide_False by done. unfold page_bitmap in *. rewrite Hp, Hs.
  destruct (decide (rw_mode_ h = READ_ONLY)); [done|]. cbv zeta in *. destruct (_ <=? _); [by injection Hi as <- <- <-|].
  destruct (get_bit _ _) as [[]|]; cbn [mbind option_bind] in *; [|by injection Hi as <- <- <-|done].
  destruct (copy_record f _) as [record|] eqn:Hc; [|done]. cbn [mbind option_bind] in *.
  cbn [default from_option id]. rewrite (copy_taken f g _ record Hp Hc). cbn [mbind option_bind].
  unfold log_update_record in *. rewrite append_tt.
  match type of Hi with context [append_record_log l ?x ?y] => pose proof (append_record_log_page l x y) as Hq;
    destruct (append_record_log l x y) as [[l2 f2] rc2] end.
  cbn [fst snd] in Hq. injection Hi as <- <- <-. eexists. split; [done|]. cbn. rewrite Hq. cbn. by rewrite ?Hp.
Qed.
End redo_page.

(** ** Runs of page operations that write the log *)

Inductive RecordOp :=
  | OpInit (format size : Z) (lens : list Z)
  | OpSlot (op : SlotOp).            (* on a page in row format *)

Section run.
Context {L : Type} `{LogSink L}.
Variable uninitialized : Z.
Implicit Types (l : L) (f : PageFrame) (ps : PagePools).

(** One operation on the frame of a page. *)
Definition run_frame l (p : Z * Z) f (op : RecordOp) : option (L * PageFrame) :=
  match op with
  | OpInit format size lens =>
      '(_, l, f) ← init_empty_page (page_init READ_WRITE p.1 p.2 format f) l f size lens; Some (l, f)
  | OpSlot op => '(_, l, f) ← page_op uninitialized (page_init READ_WRITE p.1 p.2 1 f) l f op; Some (l, f)
  end.

Definition run_op l ps (p : Z * Z) (op : RecordOp) : option (L * PagePools) :=
  f ← frames_ ps !! p; '(l, f) ← run_frame l p f op; Some (l, with_frame ps p f).

Fixpoint run l ps (ops : list ((Z * Z) * RecordOp)) : option (L * PagePools) :=
  match ops with
  | [] => Some (l, ps)
  | (p, op) :: ops => '(l, ps) ← run_op l ps p op; run l ps ops
  end.

(** Every operation was either refused, or wrote one record with this payload and then changed the
    page; the frame's number is the one [append] gave. *)
Definition logged l f (payload : list Z) l' f' : Prop :=
  ∃ f0 f1 rc, append_record_log l f0 payload = (l', f1, rc) ∧ pf_lsn f0 = pf_lsn f ∧ pf_lsn f' = pf_lsn f1.

(** The sizes a page is created with do not change. *)
Definition same_shape f f' : Prop :=
  record_capacity (page_header_ (pf_page f')) = record_capacity (page_header_ (pf_page f)) ∧
  record_real_size (page_header_ (pf_page f')) = record_real_size (page_header_ (pf_page f)).

Lemma next_bit_loop_ge skip find bm n : ∀ iter start r,
  0 ≤ iter → next_bit_loop skip find bm iter n start = Some r → -1 ≤ r.
Proof.
  induction n as [|n IH]; intros iter start r Hi; cbn [next_bit_loop]; [by intros [= <-]|].
  destruct (at_z bm iter) as [byte|]; [|done]. cbn [mbind option_bind]. cbv zeta. destruct (0 <=? _) eqn:E; zify_bool.
  - intros [= <-]. lia.
  - apply IH. lia.
Qed.

Lemma next_unsetted_bit_range b i : next_unsetted_bit b 0 = Some i → -1 ≤ i ∧ i ≤ Z.max (-1) (size_ b).
Proof.
  unfold next_unsetted_bit. destruct (next_bit_loop _ _ _ _ _ _) as [r|] eqn:E; [|done]. cbn [mbind option_bind].
  apply next_bit_loop_ge in E; [|done]. case_bool; intros [= <-]; lia.
Qed.

Ltac split_append H :=
  match type of H with context [append_record_log ?l ?x ?y] =>
    let Hq := fresh "Hq" in let Ha := fresh "Ha" in
    pose proof (append_record_log_page l x y) as Hq;
    destruct (append_record_log l x y) as [[? ?] ?] eqn:Ha; cbn [fst snd] in Hq
  end.

Lemma insert_logged h l f data rc l' f' rid :
  insert_record h l f data = Some (rc, l', f', rid) →
  (rc ≠ RC_SUCCESS ∧ l' = l ∧ f' = f) ∨
  (rc = RC_SUCCESS ∧ same_shape f f' ∧
   ∃ i, -1 ≤ i ≤ Z.max (-1) (record_capacity (page_header_ (pf_page f))) ∧
     logged l f (log_header_bytes (mkRecordLogHeader (buffer_pool_id_ h) (operation_id INSERT) (rph_page_num h)
                                     (storage_format_ h) 0 i) ++ take (Z.to_nat (record_size_ h)) data) l' f').
Proof.
  unfold insert_record. destruct (decide (rw_mode_ h = READ_ONLY)); [done|]. cbv zeta. destruct (_ =? _).
  { intros [= <- <- <- <-]. by left. }
  destruct (next_unsetted_bit _ 0) as [i|] eqn:Hn; [|done]. cbn [mbind option_bind].
  destruct (set_bit _ i) as [b|]; [|done]. cbn [mbind option_bind]. unfold log_insert_record. intros Hi. split_append Hi.
  destruct (copy_record _ data); [|done]. cbn [mbind option_bind] in Hi. injection Hi as <- <- <- <-.
  right. split; [done|]. split; [unfold same_shape; cbn; by rewrite Hq|]. exists i.
  split; [by apply next_unsetted_bit_range in Hn|]. do 3 eexists. split; [exact Ha|done].
Qed.

Lemma delete_logged h l f rid rc l' f' :
  delete_record uninitialized h l f rid = Some (rc, l', f') →
  (rc ≠ RC_SUCCESS ∧ l' = l ∧ f' = f) ∨
  (rc = RC_SUCCESS ∧ same_shape f f' ∧
   logged l f (log_header_bytes (mkRecordLogHeader (buffer_pool_id_ h) (operation_id DELETE) (rid_page_num rid)
                                   (storage_format_ h) uninitialized (rid_slot_num rid))) l' f').
Proof.
  unfold delete_record. destruct (decide (rw_mode_ h = READ_ONLY)); [done|]. cbv zeta.
  destruct (get_bit _ _) as [[]|]; cbn [mbind option_bind]; [|by intros [= <- <- <-]; left|done].
  destruct (clear_bit _ _) as [b|]; [|done]. cbn [mbind option_bind]. unfold log_delete_record. intros Hi. split_append Hi.
  injection Hi as <- <- <-. right. split; [done|]. split; [unfold same_shape; by rewrite Hq|].
  do 3 eexists. split; [exact Ha|done].
Qed.

Lemma update_logged h l f rid data rc l' f' :
  update_record h l f rid data = Some (rc, l', f') →
  (rc ≠ RC_SUCCESS ∧ l' = l ∧ f' = f) ∨
  (rc = RC_SUCCESS ∧ same_shape f f' ∧
   logged l f (log_header_bytes (mkRecordLogHeader (buffer_pool_id_ h) (operation_id UPDATE) (rid_page_num rid)
                                   (storage_format_ h) 0 (rid_slot_num rid)) ++
               take (Z.to_nat (record_size_ h)) (default (default [] (records_ (pf_page f) !! rid_slot_num rid)) data)) l' f').
Proof.
  unfold update_record. destruct (decide (rw_mode_ h = READ_ONLY)); [done|]. cbv zeta.
  destruct (_ <=? _); [by intros [= <- <- <-]; left|].
  destruct (get_bit _ _) as [[]|]; cbn [mbind option_bind]; [|by intros [= <- <- <-]; left|done].
  destruct (copy_record _ _) as [b|]; [|done]. cbn [mbind option_bind]. unfold log_update_record. intros Hi. split_append Hi.
  injection Hi as <- <- <-. right. split; [done|]. split; [unfold same_shape; by rewrite Hq|].
  do 3 eexists. split; [exact Ha|done].
Qed.

Lemma init_logged h l f size lens rc l' f' :
  init_empty_page h l f size lens = Some (rc, l', f') →
  let cols := if storage_format_ h =? 2 then lens else [] in
  ∃ hd, empty_header size (Z.of_nat (length cols)) = Some hd ∧ page_header_ (pf_page f') = hd ∧
    pf_page f' = mkRecordPage hd (replicate (Z.to_nat (page_bitmap_size (record_capacity hd))) 0)
                   (column_ends cols (record_capacity hd) 0) (records_ (pf_page f)) ∧
    logged l f (log_header_bytes (mkRecordLogHeader (buffer_pool_id_ h) (operation_id INIT_PAGE) (rph_page_num h)
                 (storage_format_ h) (Z.of_nat (length (column_ends cols (record_capacity hd) 0))) size) ++
                concat (map (le_encode 4) (column_ends cols (record_capacity hd) 0))) l' f'.
Proof.
  unfold init_empty_page. cbv zeta. cbn [storage_format_]. destruct (empty_header _ _) as [hd|]; [|done]. cbn [mbind option_bind].
  unfold log_init_new_page. intros Hi. split_append Hi. injection Hi as <- <- <-. exists hd.
  split_and!; [done|by rewrite Hq..|]. do 3 eexists. split; [exact Ha|done].
Qed.
End run.

(** ** Column indexes *)

Lemma column_ends_length lens cap before : length (column_ends lens cap before) = length lens.
Proof. revert before. induction lens as [|len lens IH]; intros before; [done|]. cbn. by rewrite IH. Qed.

Lemma column_ends_bounds lens cap before :
  0 ≤ cap → Forall (λ len, 0 ≤ len) lens →
  Forall (λ e, before ≤ e ≤ before + cap * foldr Z.add 0 lens) (column_ends lens cap before).
Proof.
  intros Hc Hl. revert before. induction Hl as [|len lens Hlen Hl IH]; intros before; [by constructor|]. cbn.
  assert (0 ≤ foldr Z.add 0 lens) by (clear -Hl; induction Hl; cbn; lia). constructor; [nia|].
  eapply Forall_impl; [apply IH|]. cbn. nia.
Qed.

Lemma read_ints_feeds zs : ∀ d d',
  Forall is_int32 zs → feeds d (concat (map (le_encode 4) zs)) d' → read_ints (length zs) d = Some zs.
Proof.
  induction zs as [|z zs IH]; intros d d' Hz Hd; [done|]. apply Forall_cons in Hz as [Hz Hzs].
  cbn [map concat] in Hd. apply feeds_app in Hd as (d1 & H1 & H2). cbn [length read_ints].
  rewrite (wire_read (Wire := wire_int32) z d d1 Hz H1). cbn [mbind option_bind]. by rewrite (IH d1 d').
Qed.

Lemma read_ints_all zs : Forall is_int32 zs → read_ints (length zs) (mkDeserializer (concat (map (le_encode 4) zs)) 0) = Some zs.
Proof. intros Hz. eapply read_ints_feeds; [done|apply feeds_all]. Qed.

(** ** Recovery *)

Section recovery.
Variable uninitialized : Z.
Hypothesis uninitialized_int : is_int32 uninitialized.
Implicit Types (b : LogEntryBuffer) (f g : PageFrame) (ps : PagePools).

(** The sizes of a page in memory: an int32, and a record that fits into a log record. *)
Definition frame_typed f : Prop :=
  record_capacity (page_header_ (pf_page f)) ≤ INT32_MAX ∧
  record_real_size (page_header_ (pf_page f)) ≤ BP_PAGE_SIZE.

Definition op_valid (op : RecordOp) : Prop :=
  match op with
  | OpInit format size lens =>
      is_int32 format ∧ 0 < size ≤ BP_PAGE_DATA_SIZE ∧ PAGE_HEADER_SIZE + Z.of_nat (length lens) * 4 < BP_PAGE_DATA_SIZE ∧
      Forall (λ len, 0 ≤ len) lens ∧ foldr Z.add 0 lens ≤ size
  | OpSlot (SDelete i) | OpSlot (SUpdate i _) => is_int32 i
  | OpSlot _ => True
  end.

Definition page_valid (p : Z * Z) : Prop := is_int32 p.1 ∧ is_int32 p.2.

(** What the log record of an operation on page [p] carries: its redo on any frame with the page the
    operation found gives the page it left. *)
Definition redo_of b (p : Z * Z) f b' f' (e : LogEntry) : Prop :=
  entries_ b' = entries_ b ++ [e] ∧ current_lsn_ b' = current_lsn_ b + 1 ∧ lsn e = current_lsn_ b + 1 ∧ pf_lsn f' = lsn e ∧
  lh_module_id (header_ e) = module_index RECORD_MANAGER ∧ Z.of_nat RecordLogHeader_SIZE ≤ payload_size e ∧
  ∃ hd data, read_log_header (data_ e) = Some (hd, data) ∧ buffer_pool_id hd = p.1 ∧ page_num hd = p.2 ∧
    ∀ g, pf_page g = pf_page f → ∃ g', redo hd data g = Some (RC_SUCCESS, g') ∧ pf_page g' = pf_page f'.

Lemma logged_entry b f hd data b' f' p :
  logged b f (log_header_bytes hd ++ data) b' f' → 0 ≤ current_lsn_ b → log_header_ok hd →
  Z.of_nat (length data) ≤ 4 * BP_PAGE_SIZE → buffer_pool_id hd = p.1 → page_num hd = p.2 →
  (∀ g, pf_page g = pf_page f → ∃ g', redo hd data g = Some (RC_SUCCESS, g') ∧ pf_page g' = pf_page f') →
  ∃ e, redo_of b p f b' f' e.
Proof.
  intros (f0 & f1 & rc & Ha & H0 & H1) Hl Hh Hd Hp1 Hp2 Hredo.
  assert (Hlen : Z.of_nat (length (log_header_bytes hd ++ data)) = 24 + Z.of_nat (length data)).
  { rewrite length_app. unfold log_header_bytes. rewrite !length_app, !le_encode_length. lia. }
  unfold append_record_log in Ha. cbn [sink_append buffer_sink] in Ha. unfold buffer_sink_append, buffer_append in Ha.
  rewrite entry_init_ok in Ha by (rewrite Hlen; unfold max_payload_size, LogHeader_SIZE, BP_PAGE_SIZE in *; lia).
  change (OB_FAIL RC_SUCCESS) with false in Ha. cbn [default from_option id] in Ha. change (OB_SUCC RC_SUCCESS) with true in Ha.
  rewrite (proj2 (Z.ltb_lt 0 _)) in Ha by lia. cbn [andb] in Ha. injection Ha as <- <- <-.
  eexists. split; [done|]. split; [done|]. split; [done|]. split; [by rewrite H1|]. split; [done|].
  split; [change (24 ≤ Z.of_nat (length (log_header_bytes hd ++ data))); lia|].
  exists hd, data. split; [by apply log_header_roundtrip|done].
Qed.

Ltac header_ok := constructor; cbn; try done; unfold is_int32, INT32_MIN, INT32_MAX, BP_PAGE_DATA_SIZE, BP_PAGE_SIZE, PAGE_HEADER_SIZE in *; lia.

Lemma typed_record_size f (p : Z * Z) format (data : list Z) :
  frame_typed f →
  Z.of_nat (length (take (Z.to_nat (record_size_ (page_init READ_WRITE p.1 p.2 format f))) data)) ≤ 4 * BP_PAGE_SIZE.
Proof. intros [_ H]. rewrite length_take. cbn. unfold BP_PAGE_SIZE in *. lia. Qed.

Lemma same_shape_typed f f' : same_shape f f' → frame_typed f → frame_typed f'.
Proof. unfold same_shape, frame_typed. intros [-> ->]. done. Qed.

Lemma redo_slot b p f op b' f' :
  run_frame uninitialized b p f (OpSlot op) = Some (b', f') →
  op_valid (OpSlot op) → page_valid p → frame_typed f → 0 ≤ current_lsn_ b →
  frame_typed f' ∧ ((b' = b ∧ f' = f) ∨ ∃ e, redo_of b p f b' f' e).
Proof.
  cbn [run_frame]. set (h := page_init _ _ _ _ _). intros Hr Hv [Hp1 Hp2] Ht Hl. pose proof Ht as [Hcap Hreal].
  destruct op as [data|i|i data|i]; cbn [page_op op_valid] in *.
  - destruct (insert_record h b f data) as [[[[rc b1] f1] rid]|] eqn:E; [|done]. cbn in Hr. injection Hr as <- <-.
    destruct (insert_logged h b f data rc b1 f1 rid E) as [(_ & -> & ->)|(Hrc & Hs & i & Hi & Hlog)]; [split; [done|by left]|].
    split; [by eapply same_shape_typed|right]. eapply logged_entry; [exact Hlog|done| |by apply typed_record_size|done..|].
    { header_ok. }
    intros g Hg. destruct (insert_redo h (replay_handler (mkRecordLogHeader p.1 1 p.2 1 0 i) g) b f g data rc b1 f1 rid E Hrc eq_refl Hg)
      as (g' & rid2 & Eg & Hpg & _).
    exists g'. split; [|done]. unfold redo. cbn [operation_of operation_type operation_id]. unfold replay_insert. cbn [is_row storage_format].
    change (record_size_ h) with (record_real_size (page_header_ (pf_page f))).
    change (is_row _) with true. cbv iota. change (storage_format_ h) with 1. change (rph_page_num h) with p.2.
    change (buffer_pool_id_ h) with p.1. change (operation_id INSERT) with 1. by rewrite Eg.
  - destruct (delete_record uninitialized h b f _) as [[[rc b1] f1]|] eqn:E; [|done]. cbn in Hr. injection Hr as <- <-.
    destruct (delete_logged uninitialized h b f _ rc b1 f1 E) as [(_ & -> & ->)|(Hrc & Hs & Hlog)]; [split; [done|by left]|].
    split; [by eapply same_shape_typed|right]. rewrite <- (app_nil_r (log_header_bytes _)) in Hlog.
    eapply logged_entry; [exact Hlog|done| |done..|]. { header_ok. }
    intros g Hg. cbn [rid_page_num rid_slot_num].
    destruct (delete_redo uninitialized h (replay_handler (mkRecordLogHeader p.1 2 p.2 1 uninitialized i) g) b f g (mkRID p.2 i) (mkRID p.2 i) rc b1 f1 E Hrc eq_refl Hg eq_refl)
      as (g' & Eg & Hpg & _).
    exists g'. split; [|done]. unfold redo. cbn [operation_of operation_type operation_id]. unfold replay_delete.
    cbn [page_num slot_or_size]. change (rph_page_num h) with p.2. change (buffer_pool_id_ h) with p.1. change (storage_format_ h) with 1.
    change (operation_id DELETE) with 2. by rewrite Eg.
  - destruct (update_record h b f _ data) as [[[rc b1] f1]|] eqn:E; [|done]. cbn in Hr. injection Hr as <- <-.
    destruct (update_logged h b f _ data rc b1 f1 E) as [(_ & -> & ->)|(Hrc & Hs & Hlog)]; [split; [done|by left]|].
    split; [by eapply same_shape_typed|right]. eapply logged_entry; [exact Hlog|done| |by apply typed_record_size|done..|].
    { header_ok. }
    intros g Hg. cbn [rid_page_num rid_slot_num].
    destruct (update_redo h (replay_handler (mkRecordLogHeader p.1 3 p.2 1 0 i) g) b f g (mkRID p.2 i) (mkRID p.2 i) data rc b1 f1 E Hrc eq_refl Hg eq_refl)
      as (g' & Eg & Hpg & _).
    exists g'. split; [|done]. unfold redo. cbn [operation_of operation_type operation_id]. unfold replay_update.
    cbn [page_num slot_or_size]. change (rph_page_num h) with p.2. change (buffer_pool_id_ h) with p.1. change (storage_format_ h) with 1.
    change (operation_id UPDATE) with 3. change (is_row _) with true. cbv iota.
    change (record_size_ h) with (record_real_size (page_header_ (pf_page f))). cbn [rid_slot_num] in Eg. by rewrite Eg.
  - destruct (get_record f _) as [[rc d]|] eqn:E; [|done]. cbn in Hr. injection Hr as <- <-. split; [done|by left].
Qed.

Lemma redo_init b p f format size lens b' f' :
  run_frame uninitialized b p f (OpInit format size lens) = Some (b', f') →
  op_valid (OpInit format size lens) → page_valid p → 0 ≤ current_lsn_ b →
  frame_typed f' ∧ ∃ e, redo_of b p f b' f' e.
Proof.
  cbn [run_frame]. set (h := page_init _ _ _ _ _). intros Hr (Hf & Hsize & Hfit & Hlens & Hsum) [Hp1 Hp2] Hl.
  destruct (init_empty_page h b f size lens) as [[[rc b1] f1]|] eqn:E; [|done]. cbn in Hr. injection Hr as <- <-.
  apply init_logged in E. cbv zeta in E. set (cols := if storage_format_ h =? 2 then lens else []) in *.
  destruct E as (hd & Hhd & Hh1 & Hpg & Hlog).
  assert (Hc : Z.of_nat (length cols) ≤ Z.of_nat (length lens) ∧ Forall (λ len, 0 ≤ len) cols ∧ foldr Z.add 0 cols ≤ size).
  { subst cols. destruct (_ =? 2); [done|]. cbn. split_and!; [lia|by constructor|lia]. }
  destruct Hc as (Hc1 & Hc2 & Hc3).
  destruct (empty_header_ok size (Z.of_nat (length cols))) as (hd2 & E2 & Hlay & Hnum & Hreal & Hcol).
  { unfold INT32_MAX, BP_PAGE_DATA_SIZE, BP_PAGE_SIZE in *. lia. } { lia. } { unfold PAGE_HEADER_SIZE in *. lia. }
  assert (hd2 = hd) as -> by congruence. clear E2. destruct Hlay as [_ Hcap [Hr0 Hr1] Hbm Hco Hrec Hcn].
  assert (Hcs : record_capacity hd * size ≤ BP_PAGE_DATA_SIZE).
  { pose proof (page_bitmap_size_bound _ Hcap). unfold PAGE_HEADER_SIZE in *. nia. }
  set (ends := column_ends cols (record_capacity hd) 0) in *.
  assert (Hends : Forall is_int32 ends).
  { eapply Forall_impl; [by apply column_ends_bounds|]. cbn. intros z Hz. unfold is_int32, INT32_MIN, INT32_MAX, BP_PAGE_DATA_SIZE, BP_PAGE_SIZE in *. nia. }
  assert (Hlends : length ends = length cols) by apply column_ends_length.
  split; [unfold frame_typed; rewrite Hh1; unfold INT32_MAX, BP_PAGE_DATA_SIZE, BP_PAGE_SIZE in *; nia|].
  eapply logged_entry; [exact Hlog|done| | |done..|].
  { constructor; cbn; try done; try rewrite Hlends; unfold is_int32, INT32_MIN, INT32_MAX, BP_PAGE_DATA_SIZE, BP_PAGE_SIZE, PAGE_HEADER_SIZE in *; lia. }
  { assert (length (concat (map (le_encode 4) ends)) = (4 * length ends)%nat) as ->.
    { clear. induction ends as [|z zs IH]; [done|]. cbn [map concat]. rewrite length_app, IH, le_encode_length. cbn. lia. }
    unfold BP_PAGE_DATA_SIZE, BP_PAGE_SIZE, PAGE_HEADER_SIZE in *. lia. }
  intros g Hg. unfold redo. cbn [operation_of operation_type operation_id]. unfold replay_init_page, init_empty_page_recover.
  cbn [slot_or_size log_column_num]. rewrite Hlends, Hhd. cbn [mbind option_bind]. rewrite Nat2Z.id, <- Hlends, (read_ints_all _ Hends).
  cbn [mbind option_bind]. eexists. split; [done|]. cbn. rewrite Hpg. by rewrite Hg.
Qed.

(** Every operation: nothing happened, or its record redoes it. *)
Lemma redo_frame b p f op b' f' :
  run_frame uninitialized b p f op = Some (b', f') → op_valid op → page_valid p → frame_typed f → 0 ≤ current_lsn_ b →
  frame_typed f' ∧ ((b' = b ∧ f' = f) ∨ ∃ e, redo_of b p f b' f' e).
Proof.
  intros Hr Hv Hp Ht Hl. destruct op as [format size lens|op]; [|by eapply redo_slot].
  destruct (redo_init b p f format size lens b' f' Hr Hv Hp Hl). auto.
Qed.

(** *** Runs *)

(** The pages and the log fit together: the pools are open, no page is ahead of the log. *)
Record run_ok b ps : Prop := {
  ro_lsn : 0 ≤ current_lsn_ b;
  ro_open : ∀ p f, frames_ ps !! p = Some f → p.1 ∈ open_pools ps;
  ro_frames : ∀ p f, frames_ ps !! p = Some f → page_valid p ∧ frame_typed f ∧ pf_lsn f ≤ current_lsn_ b;
}.

Lemma with_frame_lookup ps p f q : frames_ (with_frame ps p f) !! q = if decide (p = q) then Some f else frames_ ps !! q.
Proof. cbn. case_decide; [subst; apply lookup_insert_eq|by apply lookup_insert_ne]. Qed.

(** One operation of a run. *)
Lemma run_op_redo b ps p op b1 ps1 :
  run_ok b ps → op_valid op → run_op uninitialized b ps p op = Some (b1, ps1) →
  run_ok b1 ps1 ∧ ∃ f f1, frames_ ps !! p = Some f ∧ ps1 = with_frame ps p f1 ∧ pf_lsn f ≤ pf_lsn f1 ∧
    ((b1 = b ∧ f1 = f) ∨ ∃ e, redo_of b p f b1 f1 e).
Proof.
  intros [Hl Ho Hf] Hv. unfold run_op. destruct (frames_ ps !! p) as [f|] eqn:Ef; [|done]. cbn [mbind option_bind].
  destruct (run_frame _ b p f op) as [[b' f1]|] eqn:Er; [|done]. cbn [mbind option_bind]. intros [= <- <-].
  destruct (Hf p f Ef) as (Hpv & Ht & Hle).
  destruct (redo_frame b p f op b' f1 Er Hv Hpv Ht Hl) as [Ht1 Hcase].
  assert (Hcl : current_lsn_ b ≤ current_lsn_ b' ∧ pf_lsn f1 ≤ current_lsn_ b' ∧ pf_lsn f ≤ pf_lsn f1).
  { destruct Hcase as [[-> ->]|(e & _ & H1 & H2 & H3 & _)]; lia. }
  split; [|exists f, f1; split_and!; done || lia]. constructor; [lia| |].
  - intros q g. rewrite with_frame_lookup. case_decide; [subst; intros _; by eapply Ho|apply Ho].
  - intros q g. rewrite with_frame_lookup. case_decide as D.
    + subst q. intros [= <-]. split_and!; done || lia.
    + intros Hg. destruct (Hf q g Hg) as (? & ? & ?). split_and!; done || lia.
Qed.

Definition ops_valid (ops : list ((Z * Z) * RecordOp)) : Prop := Forall (λ x, op_valid x.2) ops.

(** A run only adds to the log, keeps every page and never lowers its number. *)
Lemma run_grows ops : ∀ b ps b' ps',
  run_ok b ps → ops_valid ops → run uninitialized b ps ops = Some (b', ps') →
  (∃ es, entries_ b' = entries_ b ++ es) ∧ open_pools ps' = open_pools ps ∧
  ∀ p, match frames_ ps !! p with
       | Some f => ∃ f', frames_ ps' !! p = Some f' ∧ pf_lsn f ≤ pf_lsn f'
       | None => frames_ ps' !! p = None
       end.
Proof.
  induction ops as [|[p op] ops IH]; intros b ps b' ps' Hok Hv; cbn [run].
  { intros [= <- <-]. split; [exists []; by rewrite app_nil_r|]. split; [done|]. intros p. destruct (_ !! p) as [f|]; [|done]. by exists f. }
  apply Forall_cons in Hv as [Hv Hvs]. destruct (run_op _ b ps p op) as [[b1 ps1]|] eqn:E; [|done]. cbn [mbind option_bind]. intros Hr.
  destruct (run_op_redo b ps p op b1 ps1 Hok Hv E) as (Hok1 & f & f1 & Hf & -> & Hle & Hcase).
  destruct (IH _ _ _ _ Hok1 Hvs Hr) as ((es & He) & Hop & Hall). split; [|split; [done|]].
  - destruct Hcase as [[-> _]|(e & He1 & _)]; [by exists es|]. exists (e :: es). by rewrite He, He1, <- app_assoc.
  - intros q. specialize (Hall q). rewrite with_frame_lookup in Hall. case_decide as D; [|done].
    subst q. rewrite Hf. destruct Hall as (f' & ? & ?). exists f'. split; [done|lia].
Qed.

(** *** Crashes *)

(** [fc] is a version page [p] has had at some moment of the run. *)
Definition is_version b ps (ops : list ((Z * Z) * RecordOp)) (p : Z * Z) (fc : PageFrame) : Prop :=
  ∃ ops1 ops2 b1 ps1 f1, ops = ops1 ++ ops2 ∧ run uninitialized b ps ops1 = Some (b1, ps1) ∧
    frames_ ps1 !! p = Some f1 ∧ fc ≡ f1.

(** What a crash can leave: of every page any version, whichever were flushed last. *)
Record crash_state b ps ops (c : PagePools) : Prop := {
  cs_open : open_pools c = open_pools ps;
  cs_pages : ∀ p, match frames_ c !! p with
                  | Some fc => is_version b ps ops p fc
                  | None => frames_ ps !! p = None
                  end;
}.

Lemma version_now b ps ops p f fc : frames_ ps !! p = Some f → fc ≡ f → is_version b ps ops p fc.
Proof. intros Hf He. exists [], ops, b, ps, f. done. Qed.

Lemma version_cons b ps p op ops q fc b1 ps1 :
  run_op uninitialized b ps p op = Some (b1, ps1) → is_version b ps ((p, op) :: ops) q fc →
  (∃ f, frames_ ps !! q = Some f ∧ fc ≡ f) ∨ is_version b1 ps1 ops q fc.
Proof.
  intros Hr (ops1 & ops2 & b2 & ps2 & f2 & Ho & Hrun & Hf & He). destruct ops1 as [|x ops1]; cbn in *.
  - injection Hrun as <- <-. left. by exists f2.
  - injection Ho as <- ->. right. rewrite Hr in Hrun. cbn [mbind option_bind] in Hrun. by exists ops1, ops2, b2, ps2, f2.
Qed.

Lemma version_lsn b ps ops p fc f :
  run_ok b ps → ops_valid ops → is_version b ps ops p fc → frames_ ps !! p = Some f → pf_lsn f ≤ pf_lsn fc.
Proof.
  intros Hok Hv (ops1 & ops2 & b2 & ps2 & f2 & -> & Hrun & Hf & [He _]) Hp.
  apply Forall_app in Hv as [Hv _]. destruct (run_grows ops1 b ps b2 ps2 Hok Hv Hrun) as (_ & _ & Hall).
  specialize (Hall p). rewrite Hp in Hall. destruct Hall as (f' & Hf' & ?). assert (f' = f2) as -> by congruence. lia.
Qed.

(** The version of a page at the crash, seen from after the first operation. *)
Lemma crash_later b ps p op ops b1 f f1 c q :
  run_op uninitialized b ps p op = Some (b1, with_frame ps p f1) → frames_ ps !! p = Some f →
  crash_state b ps ((p, op) :: ops) c → q ≠ p →
  match frames_ c !! q with
  | Some fc => is_version b1 (with_frame ps p f1) ops q fc
  | None => frames_ (with_frame ps p f1) !! q = None
  end.
Proof.
  intros Hr Hf Hc Hne. pose proof (cs_pages _ _ _ _ Hc q) as Hq. destruct (frames_ c !! q) as [fc|].
  - destruct (version_cons _ _ _ _ _ _ _ _ _ Hr Hq) as [(g & Hg & He)|]; [|done].
    apply (version_now _ _ _ _ g); [|done]. by rewrite with_frame_lookup, decide_False.
  - by rewrite with_frame_lookup, decide_False.
Qed.

(** Replaying the record of an operation leads to a state the crash after it could have left. *)
Lemma replay_step b ps p op ops b1 f f1 e c :
  run_ok b ps → op_valid op → ops_valid ops → run_op uninitialized b ps p op = Some (b1, with_frame ps p f1) →
  run_ok b1 (with_frame ps p f1) → frames_ ps !! p = Some f → redo_of b p f b1 f1 e →
  crash_state b ps ((p, op) :: ops) c →
  ∃ c1, replay c e = Some (RC_SUCCESS, c1) ∧ crash_state b1 (with_frame ps p f1) ops c1.
Proof.
  intros Hok Hv Hvs Hr Hok1 Hf (_ & _ & Hlsn & Hlf & Hmod & Hsz & hd & data & Hhd & Hpool & Hpage & Hredo) Hc.
  pose proof (λ q, crash_later _ _ _ _ _ _ _ _ _ q Hr Hf Hc) as Hlater. pose proof (cs_pages _ _ _ _ Hc p) as Hp.
  destruct (frames_ c !! p) as [fc|] eqn:Hfc; [|congruence].
  unfold replay. rewrite Hmod, Z.eqb_refl. cbn [negb]. rewrite (proj2 (Z.ltb_ge _ _)) by lia. rewrite Hhd. cbn [mbind option_bind].
  unfold fetch_page. rewrite Hpool, Hpage, <- surjective_pairing, Hfc.
  rewrite decide_True by (rewrite (cs_open _ _ _ _ Hc); by apply (ro_open _ _ Hok p f)).
  destruct (version_cons _ _ _ _ _ _ _ _ _ Hr Hp) as [(g & Hg & Hl & Hpg)|Hver].
  - assert (g = f) as -> by congruence. destruct (ro_frames _ _ Hok p f Hf) as (_ & _ & ?).
    rewrite (proj2 (Z.leb_gt _ _)) by lia. destruct (Hredo fc Hpg) as (g' & -> & Hg'). cbn [mbind option_bind].
    eexists. split; [done|]. constructor; [apply (cs_open _ _ _ _ Hc)|]. intros q.
    rewrite with_frame_lookup. case_decide as D; [|by apply Hlater]. subst q.
    apply (version_now _ _ _ _ f1); [by rewrite with_frame_lookup, decide_True|]. by split.
  - pose proof (version_lsn _ _ _ _ _ f1 Hok1 Hvs Hver) as Hle. rewrite with_frame_lookup, decide_True in Hle by done.
    rewrite (proj2 (Z.leb_le _ _)) by (specialize (Hle eq_refl); lia). eexists. split; [done|].
    constructor; [apply (cs_open _ _ _ _ Hc)|]. intros q. destruct (decide (q = p)) as [->|Hne]; [by rewrite Hfc|by apply Hlater].
Qed.

(** C7: recovery of record pages.  A run of operations (creations of pages, insertions, deletions,
    updates) on the pages of any number of buffer pools writes its log; a crash leaves on disk, for
    every page independently, any version that page has had during the run.  Then redoing the whole
    log of the run succeeds and gives, for every page, exactly the bytes and the sequence number it
    had at the end of the run. *)
Theorem record_recovery b ps ops b' ps' c es :
  run_ok b ps → ops_valid ops → run uninitialized b ps ops = Some (b', ps') → entries_ b' = entries_ b ++ es →
  crash_state b ps ops c →
  ∃ c', replay_all c es = Some (RC_SUCCESS, c') ∧ open_pools c' = open_pools ps' ∧ frames_ c' ≡ frames_ ps'.
Proof using uninitialized_int.
  revert b ps c es. induction ops as [|[p op] ops IH]; intros b ps c es Hok Hv Hrun Hes Hc.
  - injection Hrun as <- <-. assert (es = []) as -> by (apply (app_inv_head (entries_ b)); by rewrite app_nil_r).
    exists c. split; [done|]. split; [apply (cs_open _ _ _ _ Hc)|]. intros p. pose proof (cs_pages _ _ _ _ Hc p) as Hp.
    destruct (frames_ c !! p) as [fc|]; [|by rewrite Hp].
    destruct Hp as (ops1 & ops2 & b1 & ps1 & f1 & Ho & Hr & Hf & He). symmetry in Ho. apply app_nil in Ho as [-> ->].
    injection Hr as <- <-. rewrite Hf. by constructor.
  - apply Forall_cons in Hv as [Hv Hvs]. cbn [run] in Hrun. destruct (run_op _ b ps p op) as [[b1 ps1]|] eqn:E; [|done].
    cbn [mbind option_bind] in Hrun. cbn [snd] in Hv.
    destruct (run_op_redo b ps p op b1 ps1 Hok Hv E) as (Hok1 & f & f1 & Hf & -> & Hle & Hcase).
    destruct Hcase as [[-> ->]|(e & He)].
    + apply (IH b (with_frame ps p f) c es Hok1 Hvs Hrun Hes). constructor; [apply (cs_open _ _ _ _ Hc)|]. intros q.
      destruct (decide (q = p)) as [->|Hne]; [|by eapply crash_later].
      pose proof (cs_pages _ _ _ _ Hc p) as Hp. destruct (frames_ c !! p) as [fc|]; [|congruence].
      destruct (version_cons _ _ _ _ _ _ _ _ _ E Hp) as [(g & Hg & Heq)|]; [|done].
      apply (version_now _ _ _ _ g); [|done]. rewrite with_frame_lookup, decide_True by done. congruence.
    + destruct (replay_step b ps p op ops b1 f f1 e c Hok Hv Hvs E Hok1 Hf He Hc) as (c1 & Hre & Hc1).
      destruct (run_grows ops _ _ _ _ Hok1 Hvs Hrun) as ((es1 & Hes1) & _).
      assert (es = e :: es1) as ->.
      { destruct He as (He & _). rewrite Hes1, He, <- app_assoc in Hes. by apply app_inv_head in Hes. }
      destruct (IH b1 _ c1 es1 Hok1 Hvs Hrun Hes1 Hc1) as (c' & H1 & H2 & H3).
      exists c'. split; [|done]. cbn [replay_all]. rewrite Hre. cbn [mbind option_bind]. done.
Qed.
End recovery.

(** *** An example: two pages, one of them flushed after the first operation *)

Definition ex_pools : PagePools := mkPools {[7]} (<[(7, 1) := ex_frame]> {[(7, 2) := ex_frame]}).
Definition ex_ops : list ((Z * Z) * RecordOp) :=
  [((7, 1), OpSlot (SInsert [1; 2; 3])); ((7, 2), OpInit 1 100000 []); ((7, 1), OpSlot (SDelete 0))].
Definition ex_crash : option PagePools := snd <$> run 0 new_buffer ex_pools (take 1 ex_ops).

Lemma ex_run_ok : run_ok new_buffer ex_pools.
Proof.
  assert (H : ∀ p f, frames_ ex_pools !! p = Some f → (p = (7, 1) ∨ p = (7, 2)) ∧ f = ex_frame).
  { intros p f. cbn. intros [[<- <-]|[_ [<- <-]%lookup_singleton_Some]]%lookup_insert_Some; auto. }
  constructor; [done| |].
  - intros p f Hp%H. destruct Hp as [[-> | ->] _]; by_compute.
  - intros p f Hp%H. destruct Hp as [[-> | ->] ->]; split_and!; by vm_compute.
Qed.

Lemma ex_crash_ok c : ex_crash = Some c → crash_state 0 new_buffer ex_pools ex_ops c.
Proof.
  unfold ex_crash. destruct (run 0 new_buffer ex_pools (take 1 ex_ops)) as [[b1 ps1]|] eqn:E; [|done]. intros [= <-].
  assert (Hg := run_grows 0 ltac:(by vm_compute) (take 1 ex_ops) _ _ _ _ ex_run_ok ltac:(repeat constructor) E).
  destruct Hg as (_ & Ho & Hall). constructor; [done|]. intros p. specialize (Hall p). cbn [snd fmap option_fmap option_map] in *.
  destruct (frames_ ps1 !! p) as [fc|] eqn:Ef.
  - exists (take 1 ex_ops), (drop 1 ex_ops), b1, ps1, fc. done.
  - destruct (frames_ ex_pools !! p); [|done]. destruct Hall as (? & ? & _). congruence.
Qed.

Lemma record_recovery_witness :
  ∃ b' ps' c c', run 0 new_buffer ex_pools ex_ops = Some (b', ps') ∧ ex_crash = Some c ∧ length (entries_ b') = 3%nat ∧
    replay_all c (entries_ b') = Some (RC_SUCCESS, c') ∧ frames_ c' ≡ frames_ ps'.
Proof.
  destruct (run 0 new_buffer ex_pools ex_ops) as [[b' ps']|] eqn:E; [|exfalso; revert E; by vm_compute].
  destruct ex_crash as [c|] eqn:Ec; [|exfalso; revert Ec; by vm_compute].
  destruct (record_recovery 0 ltac:(by vm_compute) new_buffer ex_pools ex_ops b' ps' c (entries_ b')) as (c' & H1 & _ & H2).
  - apply ex_run_ok.
  - repeat constructor; by vm_compute.
  - exact E.
  - done.
  - by apply ex_crash_ok.
  - exists b', ps', c, c'. split_and!; try done.
    apply (f_equal (λ r, length (entries_ (fst (default (new_buffer, ex_pools) r))))) in E. vm_compute in E. symmetry. exact E.
Defined.
