(* ===== verification/BufferPoolFile.v ===== *)
(** * The header of a page file ([storage/buffer/disk_buffer_pool.*, buffer_pool_log.*])

    The first page of a file holds the bitmap of the allocated pages and two counters.
    [allocate_page] and [dispose_page] log what they do; [BufferPoolLogReplayer] redoes it.  The
    file implements the interface [PageAllocator] the B+ tree is verified against.  [None] is
    an access outside the bitmap. *)
From S2P Require Import Prelude Rc Bitmap Serializer LogFile LogHandler LogSink PageAlloc.

(** ** Data *)

(** [src/src/observer/storage/buffer/page.h:27-27] [BP_PAGE_DATA_SIZE] *)
Definition BP_DATA_SIZE : Z := 1024 * 8 * 8 * 8 - 4 - 8 - 4.

(** [src/src/observer/storage/buffer/disk_buffer_pool.h:64-77] [BPFileHeader] *)
Record BPFileHeader := mkFileHeader {
  fh_buffer_pool_id : Z;
  page_count : Z;
  allocated_pages : Z;
  bitmap : list Z;
}.
(** [src/src/observer/storage/buffer/disk_buffer_pool.h:74-74] [BPFileHeader::MAX_PAGE_NUM] the
    field [buffer_pool_id] is not subtracted *)
Definition MAX_PAGE_NUM : Z := (BP_DATA_SIZE - 4 - 4) * 8.
(** The bytes that are left in the page for the bitmap. *)
Definition BITMAP_BYTES : Z := BP_DATA_SIZE - 12.

(** The frame of the header page. *)
Record BPFile := mkFile { hdr_lsn : Z; hdr_dirty : bool; file_header_ : BPFileHeader }.

Definition with_bits (h : BPFileHeader) (count allocated : Z) (b : Bitmap) : BPFileHeader :=
  mkFileHeader (fh_buffer_pool_id h) count allocated (bitmap_ b).
Definition header_bitmap (h : BPFileHeader) : Bitmap := mkBitmap (bitmap h) (page_count h).

(** [src/src/observer/storage/buffer/disk_buffer_pool.cpp:815-824] [BufferPoolManager::create_file] the
    first page of a new file *)
Definition new_header (id : Z) : BPFileHeader :=
  mkFileHeader id 1 1 (1 :: replicate (Z.to_nat (BITMAP_BYTES - 1)) 0).

(** [src/src/observer/storage/buffer/buffer_pool_log.h:34-42] [BufferPoolOperation] *)
Inductive BufferPoolOperation := ALLOCATE | DEALLOCATE.
Definition bp_operation_id (t : BufferPoolOperation) : Z := match t with ALLOCATE => 0 | DEALLOCATE => 1 end.

(** [src/src/observer/storage/buffer/buffer_pool_log.h:66-73] [BufferPoolLogEntry] *)
Definition bp_log_bytes (buffer_pool_id operation page_num : Z) : list Z :=
  le_encode 4 buffer_pool_id ++ le_encode 4 operation ++ le_encode 4 page_num.
Definition read_bp_log (l : list Z) : option (Z * Z * Z) :=
  let d := mkDeserializer l 0 in
  '(b, d) ← read_int32 d; '(o, d) ← read_int32 d; '(p, d) ← read_int32 d; Some (b, o, p).

(** ** Operations *)

Section operations.
Context {L : Type} `{LogSink L}.
Implicit Types (l : L) (f : BPFile).

(** [src/src/observer/storage/buffer/buffer_pool_log.cpp:48-56] [BufferPoolLogHandler::append_log] the
    caller's [lsn] is 0 before *)
Definition append_log l f (type : BufferPoolOperation) (page_num : Z) : L * RC * Z :=
  sink_append l (module_index BUFFER_POOL) (bp_log_bytes (fh_buffer_pool_id (file_header_ f)) (bp_operation_id type) page_num).

(** The loop that looks for a free page below [page_count]. *)
Fixpoint find_free (bm : list Z) (i : Z) (n : nat) : option (option Z) :=
  match n with
  | O => Some None
  | S n => used ← get_bit (mkBitmap bm 0) i; if used : bool then find_free bm (i + 1) n else Some (Some i)
  end.

(** How a page number was found. *)
Inductive Allocation := Reused (page_num : Z) | Extended (page_num : Z) | NoPage (rc : RC).

(** [src/src/observer/storage/buffer/disk_buffer_pool.cpp:361-418] [DiskBufferPool::allocate_page] what it
    does to the header; a failed [append] is ignored and leaves 0 in [lsn] *)
Definition allocate_header l f : option (L * BPFile * Allocation) :=
  let h := file_header_ f in
  free ← (if allocated_pages h <? page_count h then find_free (bitmap h) 0 (Z.to_nat (page_count h)) else Some None);
  match free with
  | Some i =>
      b ← set_bit (header_bitmap h) i;
      let '(l, _, lsn) := append_log l f ALLOCATE i in
      Some (l, mkFile lsn true (with_bits h (page_count h) (allocated_pages h + 1) b), Reused i)
  | None =>
      if MAX_PAGE_NUM <=? page_count h then Some (l, f, NoPage RC_BUFFERPOOL_NOBUF)
      else
        let '(l, _, lsn) := append_log l f ALLOCATE (page_count h) in
        b ← set_bit (header_bitmap h) (page_count h);
        Some (l, mkFile lsn true (with_bits h (page_count h + 1) (allocated_pages h + 1) b), Extended (page_count h))
  end.

(** [src/src/observer/storage/buffer/disk_buffer_pool.cpp:454-467] [DiskBufferPool::dispose_page] what it
    does to the header *)
Definition dispose_header l f (page_num : Z) : option (L * BPFile * RC) :=
  let h := file_header_ f in
  if page_num =? 0 then Some (l, f, RC_INTERNAL)
  else
    let '(l, _, lsn) := append_log l f DEALLOCATE page_num in
    b ← clear_bit (header_bitmap h) page_num;
    Some (l, mkFile lsn true (with_bits h (page_count h) (allocated_pages h - 1) b), RC_SUCCESS).
End operations.

(** [src/src/observer/storage/buffer/disk_buffer_pool.cpp:584-598] [DiskBufferPool::recover_page] *)
Definition recover_page (f : BPFile) (page_num : Z) : option BPFile :=
  let h := file_header_ f in
  used ← get_bit (header_bitmap h) page_num;
  if used : bool then Some f
  else
    b ← set_bit (header_bitmap h) page_num;
    Some (mkFile (hdr_lsn f) true (with_bits h (page_count h + 1) (allocated_pages h + 1) b)).

(** [src/src/observer/storage/buffer/disk_buffer_pool.cpp:723-734] [DiskBufferPool::check_page_num] *)
Definition check_page_num (f : BPFile) (page_num : Z) : option RC :=
  let h := file_header_ f in
  if page_count h <=? page_num then Some RC_BUFFERPOOL_INVALID_PAGE_NUM
  else
    used ← get_bit (header_bitmap h) page_num;
    Some (if used : bool then RC_SUCCESS else RC_BUFFERPOOL_INVALID_PAGE_NUM).

(** [src/src/observer/storage/buffer/disk_buffer_pool.cpp:618-662] [DiskBufferPool::redo_allocate_page] a
    page that is reused leaves the number of the header as it is *)
Definition redo_allocate_page (f : BPFile) (lsn page_num : Z) : option (RC * BPFile) :=
  let h := file_header_ f in
  if lsn <=? hdr_lsn f then Some (RC_SUCCESS, f)
  else if page_num <? page_count h then
    used ← get_bit (header_bitmap h) page_num;
    if used : bool then Some (RC_SUCCESS, f)
    else
      b ← set_bit (header_bitmap h) page_num;
      Some (RC_SUCCESS, mkFile (hdr_lsn f) true (with_bits h (page_count h) (allocated_pages h + 1) b))
  else if page_count h <? page_num then Some (RC_INTERNAL, f)
  else if MAX_PAGE_NUM <=? page_count h then Some (RC_INTERNAL, f)
  else
    b ← set_bit (header_bitmap h) page_num;
    Some (RC_SUCCESS, mkFile lsn true (with_bits h (page_count h + 1) (allocated_pages h + 1) b)).

(** [src/src/observer/storage/buffer/disk_buffer_pool.cpp:664-687] [DiskBufferPool::redo_deallocate_page] *)
Definition redo_deallocate_page (f : BPFile) (lsn page_num : Z) : option (RC * BPFile) :=
  let h := file_header_ f in
  if lsn <=? hdr_lsn f then Some (RC_SUCCESS, f)
  else if page_count h <=? page_num then Some (RC_INTERNAL, f)
  else
    used ← get_bit (header_bitmap h) page_num;
    if used : bool then
      b ← clear_bit (header_bitmap h) page_num;
      Some (RC_SUCCESS, mkFile lsn true (with_bits h (page_count h) (allocated_pages h - 1) b))
    else Some (RC_INTERNAL, f).

(** The [switch] of [replay]. *)
Definition bp_redo (f : BPFile) (lsn operation_type page_num : Z) : option (RC * BPFile) :=
  if operation_type =? bp_operation_id ALLOCATE then redo_allocate_page f lsn page_num
  else if operation_type =? bp_operation_id DEALLOCATE then redo_deallocate_page f lsn page_num
  else Some (RC_INTERNAL, f).

(** [src/src/observer/storage/buffer/buffer_pool_log.cpp:63-96] [BufferPoolLogReplayer::replay] [pools] are
    the open files *)
Definition bp_replay (pools : gmap Z BPFile) (entry : LogEntry) : option (RC * gmap Z BPFile) :=
  if negb (payload_size entry =? 12) then Some (RC_INVALID_ARGUMENT, pools)
  else
    '(buffer_pool_id, operation_type, page_num) ← read_bp_log (data_ entry);
    match pools !! buffer_pool_id with
    | None => Some (RC_INTERNAL, pools)
    | Some f => '(rc, f) ← bp_redo f (lsn entry) operation_type page_num; Some (rc, <[buffer_pool_id := f]> pools)
    end.

(** [src/src/observer/storage/buffer/disk_buffer_pool.h:166-180] [BufferPoolIterator] the bitmap is
    the one of the file *)
Record BufferPoolIterator := mkIterator { it_bitmap_ : Bitmap; current_page_num_ : Z }.

(** [src/src/observer/storage/buffer/disk_buffer_pool.cpp:188-197] [BufferPoolIterator::init] *)
Definition iterator_init (f : BPFile) (start_page : Z) : BufferPoolIterator :=
  mkIterator (header_bitmap (file_header_ f)) (if start_page <=? 0 then -1 else start_page - 1).

(** [src/src/observer/storage/buffer/disk_buffer_pool.cpp:199-199] [BufferPoolIterator::has_next] *)
Definition has_next (it : BufferPoolIterator) : option bool :=
  n ← next_setted_bit (it_bitmap_ it) (current_page_num_ it + 1); Some (negb (n =? -1)).

(** [src/src/observer/storage/buffer/disk_buffer_pool.cpp:201-208] [BufferPoolIterator::next] *)
Definition iterator_next (it : BufferPoolIterator) : option (Z * BufferPoolIterator) :=
  n ← next_setted_bit (it_bitmap_ it) (current_page_num_ it + 1);
  Some (n, if negb (n =? -1) then mkIterator (it_bitmap_ it) n else it).

(** ** The invariant of the header *)

Definition all_pages (f : BPFile) : gset Z := set_bits (bitmap (file_header_ f)) (page_count (file_header_ f)).
(** The pages that can be given out: all but the header. *)
Definition file_pages (f : BPFile) : gset Z := all_pages f ∖ {[0]}.
(** The bits of the bitmap. *)
Definition capacity (f : BPFile) : Z := 8 * Z.of_nat (length (bitmap (file_header_ f))).

Record file_ok (f : BPFile) : Prop := {
  fo_wf : wf (header_bitmap (file_header_ f));
  fo_capacity : capacity f ≤ 8 * BITMAP_BYTES;
  fo_count : 1 ≤ page_count (file_header_ f);
  fo_header : bit (bitmap (file_header_ f)) 0 = true;
  fo_padding : ∀ i, page_count (file_header_ f) ≤ i < capacity f → bit (bitmap (file_header_ f)) i = false;
  fo_allocated : allocated_pages (file_header_ f) = Z.of_nat (size (all_pages f));
}.

Lemma fo_count_capacity f : file_ok f → page_count (file_header_ f) ≤ capacity f.
Proof. intros Hok. destruct (fo_wf f Hok) as [_ H]. unfold capacity. cbn in H. lia. Qed.

Lemma all_pages_range f p : p ∈ all_pages f → 0 ≤ p < page_count (file_header_ f).
Proof. by intros [? _]%elem_of_set_bits. Qed.

Lemma file_get_bit f p : file_ok f → 0 ≤ p < capacity f →
  get_bit (header_bitmap (file_header_ f)) p = Some (bool_decide (p ∈ all_pages f)).
Proof.
  intros Hok Hp. rewrite get_bit_spec by done. f_equal. cbn.
  pose proof (elem_of_set_bits (bitmap (file_header_ f)) (page_count (file_header_ f)) p) as He. fold (all_pages f) in He.
  destruct (decide (p < page_count (file_header_ f))).
  - case_bool_decide; destruct (bit _ p) eqn:E; naive_solver lia.
  - rewrite (fo_padding f Hok) by lia. case_bool_decide; [|done]. naive_solver lia.
Qed.

Lemma lookup_total_cons_S (x : Z) l n : (x :: l) !!! S n = l !!! n.
Proof. done. Qed.

(** The bitmap of a new file: the bit of the header. *)
Lemma bit_first n i : 0 ≤ i < 8 * (Z.of_nat n + 1) → bit (1 :: replicate n 0) i = bool_decide (i = 0).
Proof.
  intros Hi. unfold bit. pose proof (Z.div_mod i 8 ltac:(lia)). pose proof (Z.mod_pos_bound i 8 ltac:(lia)).
  destruct (decide (i / 8 = 0)) as [E|E].
  - rewrite E. change (Z.to_nat 0) with 0%nat. cbn. assert (0 ≤ i < 8) as Hi8 by lia. rewrite Z.mod_small by lia.
    assert (i = 0 ∨ i = 1 ∨ i = 2 ∨ i = 3 ∨ i = 4 ∨ i = 5 ∨ i = 6 ∨ i = 7) as Hc by lia.
    by destruct Hc as [-> |[-> |[-> |[-> |[-> |[-> |[-> | ->]]]]]]].
  - assert (0 < i / 8) by (assert (0 ≤ i / 8) by (apply Z.div_pos; lia); lia).
    assert (i / 8 < Z.of_nat n + 1) by (apply Z.div_lt_upper_bound; lia).
    replace (Z.to_nat (i / 8)) with (S (Z.to_nat (i / 8 - 1))) by lia.
    rewrite lookup_total_cons_S, lookup_total_replicate_2 by lia. rewrite Z.testbit_0_l.
    symmetry. apply bool_decide_eq_false. lia.
Qed.

Lemma first_header_ok id n f :
  Z.of_nat n + 1 ≤ BITMAP_BYTES → file_header_ f = mkFileHeader id 1 1 (1 :: replicate n 0) → file_ok f ∧ file_pages f = ∅.
Proof.
  intros Hn Hf.
  assert (Ha : all_pages f = {[0]}).
  { apply set_eq. intros i. unfold all_pages. rewrite elem_of_set_bits, elem_of_singleton, Hf. cbn [page_count bitmap].
    split; [lia|]. intros ->. split; [lia|]. rewrite bit_first by lia. done. }
  split; [|unfold file_pages; rewrite Ha; set_solver].
  constructor; unfold capacity, header_bitmap; rewrite ?Hf; cbn [page_count allocated_pages bitmap length]; rewrite ?length_replicate; try lia.
  - split; cbn [bitmap_ size_ length]; [|rewrite length_replicate; lia]. constructor; [done|]. by apply Forall_replicate.
  - rewrite bit_first by lia. done.
  - intros i Hi. rewrite bit_first by lia. apply bool_decide_eq_false. lia.
  - rewrite Ha, size_singleton. done.
Qed.

(** A new file. *)
Lemma new_header_ok id f : file_header_ f = new_header id → file_ok f ∧ file_pages f = ∅.
Proof. apply first_header_ok. unfold BITMAP_BYTES, BP_DATA_SIZE. lia. Qed.

(** ** Allocation *)

Section correctness.
Context {L : Type} `{LogSink L}.
Implicit Types (l : L) (f : BPFile).

Lemma find_free_spec f n : ∀ i,
  file_ok f → 0 ≤ i → i + Z.of_nat n = page_count (file_header_ f) →
  (∀ j, 0 ≤ j < i → j ∈ all_pages f) →
  ∃ r, find_free (bitmap (file_header_ f)) i n = Some r ∧
    match r with
    | Some p => 0 ≤ p < page_count (file_header_ f) ∧ p ∉ all_pages f ∧ ∀ j, 0 ≤ j < p → j ∈ all_pages f
    | None => ∀ j, 0 ≤ j < page_count (file_header_ f) → j ∈ all_pages f
    end.
Proof.
  induction n as [|n IH]; intros i Hok Hi Hn Hall; cbn [find_free].
  - eexists. split; [done|]. intros j Hj. apply Hall. lia.
  - pose proof (fo_count_capacity f Hok). pose proof (file_get_bit f i Hok ltac:(lia)) as Hg.
    change (get_bit (mkBitmap (bitmap (file_header_ f)) 0) i) with (get_bit (header_bitmap (file_header_ f)) i).
    rewrite Hg. cbn [mbind option_bind]. case_bool_decide as Hp.
    + apply IH; [done|lia|lia|]. intros j Hj. destruct (decide (j = i)) as [->|]; [done|apply Hall; lia].
    + eexists. split; [done|]. split_and!; [lia|lia|done..].
Qed.

(** The header after one bit has changed. *)
Lemma file_change f f' i (v : bool) b' count :
  file_ok f → updates_bit (header_bitmap (file_header_ f)) i v b' → page_count (file_header_ f) ≤ count ≤ capacity f →
  (∀ j, page_count (file_header_ f) ≤ j < count → j = i) → 0 < i < count →
  file_header_ f' = with_bits (file_header_ f) count
    (Z.of_nat (size (if v then {[i]} ∪ all_pages f else all_pages f ∖ {[i]}))) b' →
  file_ok f' ∧ all_pages f' = (if v then {[i]} ∪ all_pages f else all_pages f ∖ {[i]}) ∧ capacity f' = capacity f.
Proof.
  intros Hok Hu Hc Hnew Hi Hf. pose proof Hu as (Hsz & Hlen & [Hw1 Hw2] & Hb). cbn in Hlen, Hw2, Hb.
  assert (Hcap : capacity f' = capacity f) by (unfold capacity; rewrite Hf; cbn; by rewrite Hlen).
  assert (Ha : all_pages f' = if v then {[i]} ∪ all_pages f else all_pages f ∖ {[i]}).
  { assert (Hs : set_bits (bitmap (file_header_ f)) count = all_pages f).
    { apply set_eq. intros j. unfold all_pages. rewrite !elem_of_set_bits. split; [|naive_solver lia].
      intros [Hj Hbj]. split; [|done]. destruct (decide (j < page_count (file_header_ f))); [lia|].
      rewrite (fo_padding f Hok) in Hbj; [done|lia]. }
    unfold all_pages at 1. rewrite Hf. cbn [with_bits page_count bitmap]. destruct v.
    - rewrite (set_bits_set _ i b' count Hu) by lia. cbn [header_bitmap bitmap_]. by rewrite Hs.
    - rewrite (set_bits_clear _ i b' count Hu) by lia. cbn [header_bitmap bitmap_]. by rewrite Hs. }
  split; [|done]. destruct Hok as [[Hwf1 Hwf2] Hcp Hct Hh Hpad Hal]. constructor.
  - split; rewrite Hf; cbn; [done|]. rewrite Hlen. unfold capacity in Hc. lia.
  - by rewrite Hcap.
  - rewrite Hf. cbn. lia.
  - rewrite Hf. cbn. rewrite Hb, decide_False by lia. done.
  - rewrite Hf, Hcap. cbn. intros j Hj. rewrite Hb, decide_False by lia. apply Hpad. lia.
  - by rewrite Ha, Hf.
Qed.

Lemma set_bit_file f p : file_ok f → 0 ≤ p < capacity f →
  ∃ b, set_bit (header_bitmap (file_header_ f)) p = Some b ∧ updates_bit (header_bitmap (file_header_ f)) p true b.
Proof. intros Hok Hp. apply set_bit_updates; [apply (fo_wf f Hok)|done]. Qed.

Lemma clear_bit_file f p : file_ok f → 0 ≤ p < capacity f →
  ∃ b, clear_bit (header_bitmap (file_header_ f)) p = Some b ∧ updates_bit (header_bitmap (file_header_ f)) p false b.
Proof. intros Hok Hp. apply clear_bit_updates; [apply (fo_wf f Hok)|done]. Qed.

Lemma header_page f : file_ok f → 0 ∈ all_pages f.
Proof. intros Hok. pose proof (fo_count f Hok). apply elem_of_set_bits. split; [lia|]. apply (fo_header f Hok). Qed.

Lemma size_add (s : gset Z) p : p ∉ s → Z.of_nat (size ({[p]} ∪ s)) = Z.of_nat (size s) + 1.
Proof. intros Hp. rewrite size_union by set_solver. rewrite size_singleton. lia. Qed.

Lemma size_remove (s : gset Z) p : p ∈ s → Z.of_nat (size (s ∖ {[p]})) = Z.of_nat (size s) - 1.
Proof.
  intros Hp. assert (s = {[p]} ∪ s ∖ {[p]}) as E by (apply union_difference_L; set_solver).
  rewrite E at 2. rewrite size_add by set_solver. lia.
Qed.

Definition allocated_page (r : Allocation) : option Z :=
  match r with Reused p | Extended p => Some p | NoPage _ => None end.

(** [allocate_page]: while a bit is free, the lowest free page is taken. *)
Lemma allocate_header_ok l f :
  file_ok f → allocated_pages (file_header_ f) < capacity f →
  ∃ l' f' r p, allocate_header l f = Some (l', f', r) ∧ allocated_page r = Some p ∧ file_ok f' ∧
    0 < p ∧ p ∉ all_pages f ∧ (∀ j, 0 ≤ j < p → j ∈ all_pages f) ∧
    all_pages f' = {[p]} ∪ all_pages f ∧ capacity f' = capacity f ∧
    (l', hdr_lsn f') = (let '(l', _, n) := append_log l f ALLOCATE p in (l', n)) ∧
    ∃ bm, set_bit (header_bitmap (file_header_ f)) p = Some bm ∧
      file_header_ f' = with_bits (file_header_ f) (Z.max (page_count (file_header_ f)) (p + 1))
                          (allocated_pages (file_header_ f) + 1) bm.
Proof.
  intros Hok Hroom. pose proof (fo_count_capacity f Hok) as Hcc. pose proof (fo_count f Hok) as Hct.
  pose proof (fo_allocated f Hok) as Hal. pose proof (header_page f Hok) as H0.
  pose proof (set_bits_full (bitmap (file_header_ f)) (page_count (file_header_ f)) ltac:(lia)) as [Hle Hfull]. fold (all_pages f) in Hle, Hfull.
  unfold allocate_header. destruct (find_free_spec f (Z.to_nat (page_count (file_header_ f))) 0 Hok ltac:(lia) ltac:(lia) ltac:(lia)) as (r & Hr & Hspec).
  assert (Hif : (if allocated_pages (file_header_ f) <? page_count (file_header_ f)
                 then find_free (bitmap (file_header_ f)) 0 (Z.to_nat (page_count (file_header_ f))) else Some None) = Some r).
  { destruct (_ <? _) eqn:E; zify_bool; [done|]. destruct r as [p|]; [|done]. exfalso. destruct Hspec as (Hp & Hn & _). apply Hn.
    apply elem_of_set_bits. split; [done|]. apply Hfull; [lia|done]. }
  rewrite Hif. cbn [mbind option_bind]. destruct r as [p|].
  - destruct Hspec as (Hp & Hn & Hlow). assert (0 < p) by (destruct (decide (p = 0)) as [->|]; [done|lia]).
    destruct (set_bit_file f p Hok ltac:(lia)) as (b & Hset & Hu). rewrite Hset. cbn [mbind option_bind].
    destruct (append_log l f ALLOCATE p) as [[l' rc] n] eqn:Ea.
    destruct (file_change f (mkFile n true (with_bits (file_header_ f) (page_count (file_header_ f)) (allocated_pages (file_header_ f) + 1) b))
                p true b (page_count (file_header_ f)) Hok Hu) as (Hok' & Hall & Hcap); [lia|lia|lia| |].
    { cbn. rewrite size_add by done. by rewrite Hal. }
    do 3 eexists. exists p. split_and!; try done; [by rewrite Ea|]. exists b. split; [done|]. cbn. f_equal. lia.
  - assert (Hc : page_count (file_header_ f) < capacity f).
    { assert (Z.of_nat (size (all_pages f)) = page_count (file_header_ f)); [|lia]. apply Hfull. intros i Hi.
      by apply (elem_of_set_bits _ (page_count (file_header_ f))), Hspec. }
    pose proof (fo_capacity f Hok). rewrite (proj2 (Z.leb_gt _ _)) by (unfold MAX_PAGE_NUM, BITMAP_BYTES in *; lia).
    destruct (append_log l f ALLOCATE (page_count (file_header_ f))) as [[l' rc] n] eqn:Ea.
    destruct (set_bit_file f (page_count (file_header_ f)) Hok ltac:(lia)) as (b & Hset & Hu). rewrite Hset. cbn [mbind option_bind].
    assert (Hn : page_count (file_header_ f) ∉ all_pages f) by (intros Hx%all_pages_range; lia).
    destruct (file_change f (mkFile n true (with_bits (file_header_ f) (page_count (file_header_ f) + 1) (allocated_pages (file_header_ f) + 1) b))
                (page_count (file_header_ f)) true b (page_count (file_header_ f) + 1) Hok Hu) as (Hok' & Hall & Hcap); [lia|lia|lia| |].
    { cbn. rewrite size_add by done. by rewrite Hal. }
    do 3 eexists. exists (page_count (file_header_ f)). split_and!; try done; [lia|by rewrite Ea|].
    exists b. split; [done|]. cbn. f_equal. lia.
Qed.

(** Which pages [allocate_page] reuses and which it adds. *)
Lemma allocate_header_facts (log log' : L) b b' r :
  file_ok b → allocate_header log b = Some (log', b', r) → is_Some (allocated_page r) →
  hdr_dirty b' = true ∧ fh_buffer_pool_id (file_header_ b') = fh_buffer_pool_id (file_header_ b) ∧
  match r with
  | Reused p => p < page_count (file_header_ b)
  | Extended p => p = page_count (file_header_ b)
  | NoPage _ => False
  end.
Proof.
  intros Hok E Hr. unfold allocate_header in E. pose proof (fo_count b Hok).
  destruct (find_free_spec b (Z.to_nat (page_count (file_header_ b))) 0 Hok ltac:(lia) ltac:(lia) ltac:(lia)) as (q & Hq & Hspec).
  assert (Hif : ∃ q', (if allocated_pages (file_header_ b) <? page_count (file_header_ b)
                 then find_free (bitmap (file_header_ b)) 0 (Z.to_nat (page_count (file_header_ b))) else Some None) = Some q' ∧
                 match q' with Some p => p < page_count (file_header_ b) | None => True end).
  { destruct (_ <? _); [|by exists None]. exists q. split; [done|]. destruct q; [lia|done]. }
  destruct Hif as (q' & Hif & Hlt). rewrite Hif in E. cbn [mbind option_bind] in E. destruct q' as [i|].
  - destruct (set_bit _ i); [|done]. cbn [mbind option_bind] in E. destruct (append_log log b ALLOCATE i) as [[l1 ?] ?].
    by injection E as <- <- <-.
  - destruct (MAX_PAGE_NUM <=? _); [injection E as <- <- <-; by destruct Hr|].
    destruct (append_log log b ALLOCATE _) as [[l1 ?] ?]. destruct (set_bit _ _); [|done]. cbn [mbind option_bind] in E.
    by injection E as <- <- <-.
Qed.

(** [dispose_page] of a page that is allocated. *)
Lemma dispose_header_ok l f p :
  file_ok f → p ∈ file_pages f →
  ∃ l' f', dispose_header l f p = Some (l', f', RC_SUCCESS) ∧ file_ok f' ∧ all_pages f' = all_pages f ∖ {[p]} ∧
    capacity f' = capacity f ∧ (l', hdr_lsn f') = (let '(l', _, n) := append_log l f DEALLOCATE p in (l', n)) ∧
    ∃ bm, clear_bit (header_bitmap (file_header_ f)) p = Some bm ∧
      file_header_ f' = with_bits (file_header_ f) (page_count (file_header_ f)) (allocated_pages (file_header_ f) - 1) bm.
Proof.
  intros Hok [Hp Hp0%not_elem_of_singleton]%elem_of_difference. pose proof (all_pages_range f p Hp) as Hr.
  pose proof (fo_count_capacity f Hok) as Hcc. unfold dispose_header. rewrite (proj2 (Z.eqb_neq _ _)) by done.
  destruct (append_log l f DEALLOCATE p) as [[l' rc] n] eqn:Ea.
  destruct (clear_bit_file f p Hok ltac:(lia)) as (b & Hset & Hu). rewrite Hset. cbn [mbind option_bind].
  destruct (file_change f (mkFile n true (with_bits (file_header_ f) (page_count (file_header_ f)) (allocated_pages (file_header_ f) - 1) b))
              p false b (page_count (file_header_ f)) Hok Hu) as (Hok' & Hall & Hcap); [lia|lia|lia| |].
  { cbn. rewrite size_remove by done. by rewrite (fo_allocated f Hok). }
  do 2 eexists. split_and!; try done. by exists b.
Qed.

Lemma allocated_bounds f : file_ok f → 1 ≤ allocated_pages (file_header_ f) ≤ page_count (file_header_ f).
Proof.
  intros Hok. pose proof (fo_count f Hok). rewrite (fo_allocated f Hok).
  destruct (set_bits_full (bitmap (file_header_ f)) (page_count (file_header_ f))) as [Hle _]; [lia|]. fold (all_pages f) in Hle.
  assert (size (all_pages f) ≠ 0%nat); [|lia]. intros E%size_empty_inv. pose proof (header_page f Hok). set_solver.
Qed.

(** When every bit of the bitmap is used the file is not yet full by [MAX_PAGE_NUM], which counts 32
    bits too many: the bit of the new page lies beyond the end of the page. *)
Lemma allocate_header_overrun l f :
  file_ok f → allocated_pages (file_header_ f) = capacity f → allocate_header l f = None.
Proof.
  intros Hok Hfull. pose proof (fo_count_capacity f Hok). pose proof (allocated_bounds f Hok). pose proof (fo_capacity f Hok).
  unfold allocate_header. rewrite (proj2 (Z.ltb_ge _ _)) by lia. cbn [mbind option_bind].
  rewrite (proj2 (Z.leb_gt _ _)) by (unfold MAX_PAGE_NUM, BITMAP_BYTES in *; lia).
  destruct (append_log l f ALLOCATE (page_count (file_header_ f))) as [[l' rc] n].
  assert (set_bit (header_bitmap (file_header_ f)) (page_count (file_header_ f)) = None) as ->; [|done].
  assert (page_count (file_header_ f) = capacity f) as -> by lia. unfold set_bit.
  unfold capacity. rewrite Z.mul_comm, Z.quot_mul by lia.
  assert (at_z (bitmap_ (header_bitmap (file_header_ f))) (Z.of_nat (length (bitmap (file_header_ f)))) = None) as ->; [|done].
  apply eq_None_not_Some. rewrite at_z_is_Some. cbn. lia.
Qed.

(** ** The file as a page allocator *)

Record PageFile := mkPageFile { pf_log : L; pf_file : BPFile; pf_ok : file_ok pf_file }.

Lemma allocate_header_keeps l f l' f' r : file_ok f → allocate_header l f = Some (l', f', r) → file_ok f'.
Proof.
  intros Hok E. pose proof (fo_count_capacity f Hok). pose proof (allocated_bounds f Hok).
  destruct (decide (allocated_pages (file_header_ f) < capacity f)).
  - destruct (allocate_header_ok l f Hok) as (? & ? & ? & ? & E2 & _ & ? & _); [done|]. congruence.
  - rewrite allocate_header_overrun in E by (done || lia). done.
Qed.

Lemma dispose_header_keeps l f p l' f' rc : p ∈ file_pages f → file_ok f → dispose_header l f p = Some (l', f', rc) → file_ok f'.
Proof. intros Hp Hok E. destruct (dispose_header_ok l f p Hok Hp) as (? & ? & E2 & ? & _). congruence. Qed.

(** Beyond the bits of the bitmap the code has no defined behaviour; there, and only there, the
    allocator stands still. *)
Definition page_file_allocate (b : PageFile) : PageFile * (Z + RC) :=
  match allocate_header (pf_log b) (pf_file b) as o return (allocate_header (pf_log b) (pf_file b) = o → PageFile * (Z + RC)) with
  | Some (l, f, r) => λ E,
      (mkPageFile l f (allocate_header_keeps _ _ _ _ _ (pf_ok b) E),
       match allocated_page r with Some p => inl p | None => inr RC_BUFFERPOOL_NOBUF end)
  | None => λ _, (b, inr RC_BUFFERPOOL_NOBUF)
  end eq_refl.

Definition page_file_dispose (b : PageFile) (p : Z) : PageFile :=
  match decide (p ∈ file_pages (pf_file b)) with
  | left Hp =>
      match dispose_header (pf_log b) (pf_file b) p as o return (dispose_header (pf_log b) (pf_file b) p = o → PageFile) with
      | Some (l, f, rc) => λ E, mkPageFile l f (dispose_header_keeps _ _ _ _ _ rc Hp (pf_ok b) E)
      | None => λ _, b
      end eq_refl
  | right _ => b
  end.

Lemma page_file_allocate_spec b :
  match allocate_header (pf_log b) (pf_file b) with
  | Some (l, f, r) => pf_log (page_file_allocate b).1 = l ∧ pf_file (page_file_allocate b).1 = f ∧
      (page_file_allocate b).2 = match allocated_page r with Some p => inl p | None => inr RC_BUFFERPOOL_NOBUF end
  | None => page_file_allocate b = (b, inr RC_BUFFERPOOL_NOBUF)
  end.
Proof.
  unfold page_file_allocate.
  generalize (allocate_header_keeps (pf_log b) (pf_file b)).
  destruct (allocate_header (pf_log b) (pf_file b)) as [[[l f] r]|]; done.
Qed.

Lemma page_file_dispose_spec b p :
  p ∈ file_pages (pf_file b) →
  file_pages (pf_file (page_file_dispose b p)) = file_pages (pf_file b) ∖ {[p]} ∧
  capacity (pf_file (page_file_dispose b p)) = capacity (pf_file b) ∧
  all_pages (pf_file (page_file_dispose b p)) = all_pages (pf_file b) ∖ {[p]}.
Proof.
  intros Hp. destruct (dispose_header_ok (pf_log b) (pf_file b) p (pf_ok b) Hp) as (l' & f' & E & _ & Ha & Hc & _).
  unfold page_file_dispose. rewrite decide_True_pi with (HP := Hp).
  generalize (dispose_header_keeps (pf_log b) (pf_file b) p). rewrite E. intros k. cbn. split_and!; try done.
  unfold file_pages. rewrite Ha. set_solver.
Qed.

#[export] Program Instance page_file_allocator : PageAllocator PageFile := {|
  bp_pages b := file_pages (pf_file b);
  bp_free b := Z.to_nat (capacity (pf_file b) - allocated_pages (file_header_ (pf_file b)));
  bp_allocate := page_file_allocate;
  bp_dispose := page_file_dispose;
|}.
Next Obligation.
  intros b b' p E. pose proof (page_file_allocate_spec b) as Hs. rewrite E in Hs.
  pose proof (allocated_bounds _ (pf_ok b)). pose proof (fo_count_capacity _ (pf_ok b)).
  destruct (decide (allocated_pages (file_header_ (pf_file b)) < capacity (pf_file b))) as [Hroom|Hfull].
  - destruct (allocate_header_ok (pf_log b) _ (pf_ok b) Hroom) as (l' & f' & r & q & Ea & Er & Hok' & Hq & Hn & _ & Ha & Hc & _).
    rewrite Ea, Er in Hs. cbn [fst snd] in Hs. destruct Hs as (_ & <- & [= <-]). cbn. unfold file_pages. rewrite Ha, Hc.
    rewrite (fo_allocated _ (pf_ok b)) in *. rewrite (fo_allocated _ Hok'), Ha, size_add by done.
    split_and!; [lia|set_solver|set_solver by lia|lia].
  - rewrite allocate_header_overrun in Hs by (apply pf_ok || lia). by injection Hs.
Qed.
Next Obligation.
  intros b b' rc E. pose proof (page_file_allocate_spec b) as Hs. rewrite E in Hs.
  pose proof (allocated_bounds _ (pf_ok b)). pose proof (fo_count_capacity _ (pf_ok b)).
  destruct (decide (allocated_pages (file_header_ (pf_file b)) < capacity (pf_file b))) as [Hroom|Hfull].
  - destruct (allocate_header_ok (pf_log b) _ (pf_ok b) Hroom) as (l' & f' & r & q & Ea & Er & _). rewrite Ea, Er in Hs.
    by destruct Hs as (_ & _ & [=]).
  - rewrite allocate_header_overrun in Hs by (apply pf_ok || lia). injection Hs as -> ->. split_and!; [done..|lia].
Qed.
Next Obligation.
  intros b p Hp. destruct (page_file_dispose_spec b p Hp) as (H1 & H2 & H3). split; [done|].
  rewrite (fo_allocated _ (pf_ok (page_file_dispose b p))), (fo_allocated _ (pf_ok b)), H2, H3.
  apply elem_of_difference in Hp as [Hp _]. rewrite size_remove by done. lia.
Qed.
End correctness.

(** ** Recovery of the header *)

Lemma bp_log_roundtrip b o p : is_int32 b → is_int32 o → is_int32 p → read_bp_log (bp_log_bytes b o p) = Some (b, o, p).
Proof.
  intros Hb Ho Hp. unfold read_bp_log, bp_log_bytes. cbv zeta. set (l := _ ++ _).
  pose proof (feeds_all l) as Hf. unfold l at 2 in Hf.
  apply feeds_app in Hf as (d1 & Hx & Hf). rewrite (wire_read (Wire := wire_int32) _ _ _ Hb Hx). cbn [mbind option_bind].
  apply feeds_app in Hf as (d2 & Hy & Hf). rewrite (wire_read (Wire := wire_int32) _ _ _ Ho Hy). cbn [mbind option_bind].
  by rewrite (wire_read (Wire := wire_int32) _ _ _ Hp Hf).
Qed.

Section recovery.
Variable id : Z.
Hypothesis id_int : is_int32 id.
Implicit Types (b : LogEntryBuffer) (f : BPFile).

(** The records of this file in the log. *)
Definition is_mine (e : LogEntry) : bool :=
  (lh_module_id (header_ e) =? module_index BUFFER_POOL) &&
  match read_bp_log (data_ e) with Some (b, _, _) => b =? id | None => false end.

(** One step of a running system: a page of the file is allocated or disposed, or somebody else
    writes the log. *)
Inductive file_step : LogEntryBuffer * BPFile → LogEntryBuffer * BPFile → Prop :=
  | step_allocate b f b' f' r :
      allocated_pages (file_header_ f) < capacity f →
      allocate_header b f = Some (b', f', r) → file_step (b, f) (b', f')
  | step_dispose b f p b' f' :
      p ∈ file_pages f → dispose_header b f p = Some (b', f', RC_SUCCESS) → file_step (b, f) (b', f')
  | step_other b f b' e :
      entries_ b' = entries_ b ++ [e] → current_lsn_ b' = current_lsn_ b + 1 → lsn e = current_lsn_ b + 1 →
      is_mine e = false → file_step (b, f) (b', f).

(** The redo of the log, restricted to this file. *)
Definition redo_one (pools : gmap Z BPFile) (e : LogEntry) : option (RC * gmap Z BPFile) :=
  if is_mine e then bp_replay pools e else Some (RC_SUCCESS, pools).

Fixpoint redo_file (pools : gmap Z BPFile) (es : list LogEntry) : option (RC * gmap Z BPFile) :=
  match es with
  | [] => Some (RC_SUCCESS, pools)
  | e :: es =>
      '(rc, pools) ← redo_one pools e;
      if OB_FAIL rc then Some (rc, pools) else redo_file pools es
  end.

Record system_ok b f : Prop := {
  so_lsn : 0 ≤ current_lsn_ b;
  so_header : hdr_lsn f ≤ current_lsn_ b;
  so_file : file_ok f;
  so_id : fh_buffer_pool_id (file_header_ f) = id;
}.

(** The redo of this record is the redo of one operation on one page. *)
Definition record_of (e : LogEntry) (type : BufferPoolOperation) p : Prop :=
  is_mine e = true ∧ 0 ≤ p ≤ INT32_MAX ∧
  ∀ fc, bp_replay {[id := fc]} e = ('(rc, fc) ← bp_redo fc (lsn e) (bp_operation_id type) p; Some (rc, {[id := fc]})).

Definition logs b b' (e : LogEntry) : Prop :=
  entries_ b' = entries_ b ++ [e] ∧ current_lsn_ b' = current_lsn_ b + 1 ∧ lsn e = current_lsn_ b + 1.

Lemma append_log_ok b f type p :
  system_ok b f → 0 ≤ p ≤ INT32_MAX →
  ∃ b' e, append_log b f type p = (b', RC_SUCCESS, current_lsn_ b + 1) ∧ logs b b' e ∧ record_of e type p.
Proof using id_int.
  intros [Hl _ _ Hid] Hp. unfold append_log. rewrite Hid. set (data := bp_log_bytes _ _ _).
  assert (Hd : length data = 12%nat) by (unfold data, bp_log_bytes; by rewrite !length_app, !le_encode_length).
  assert (Hrt : read_bp_log data = Some (id, bp_operation_id type, p)).
  { apply bp_log_roundtrip; [done|by destruct type|]. unfold is_int32, INT32_MIN. lia. }
  cbn [sink_append buffer_sink]. unfold buffer_sink_append, buffer_append.
  rewrite entry_init_ok by (rewrite Hd; by vm_compute). change (OB_FAIL RC_SUCCESS) with false. cbn [default from_option Datatypes.id].
  eexists. eexists. split; [done|]. split; [done|]. split; [|split; [done|]].
  - unfold is_mine. cbn [header_ lh_module_id set_lsn data_]. by rewrite Hrt, !Z.eqb_refl.
  - intros fc. unfold bp_replay. unfold payload_size. cbn [header_ lh_size set_lsn data_]. rewrite Hd.
    cbn [negb Z.of_nat Z.eqb Pos.eqb Pos.of_succ_nat Pos.succ].
    rewrite Hrt. cbn [mbind option_bind]. rewrite lookup_singleton_eq. destruct (bp_redo _ _ _ _) as [[rc f']|]; [|done]. cbn.
    by rewrite insert_singleton_eq.
Qed.

(** Redoing the record on this header changes nothing. *)
Definition settled f (e : LogEntry) : Prop :=
  is_mine e = false ∨ ∃ t p, record_of e t p ∧ (lsn e ≤ hdr_lsn f ∨ t = ALLOCATE ∧ p ∈ all_pages f).

Lemma settled_later fc fc' e :
  settled fc e → (lsn e ≤ hdr_lsn fc' ∨ hdr_lsn fc = hdr_lsn fc' ∧ all_pages fc ⊆ all_pages fc') → settled fc' e.
Proof.
  intros [?|(t & p & Hr & Hs)] Hc; [by left|right]. exists t, p. split; [done|].
  destruct Hc as [|[<- Hsub]]; [by left|]. destruct Hs as [|[-> Hp]]; [by left|right]. split; [done|]. by apply Hsub.
Qed.

Lemma page_range f p : file_ok f → p ∈ all_pages f → 0 ≤ p ≤ INT32_MAX ∧ p < page_count (file_header_ f) ∧ p < capacity f.
Proof.
  intros Hok Hp%all_pages_range. pose proof (fo_count_capacity f Hok). pose proof (fo_capacity f Hok).
  unfold BITMAP_BYTES, BP_DATA_SIZE, INT32_MAX in *. lia.
Qed.

Lemma settled_noop f e : file_ok f → settled f e → redo_one {[id := f]} e = Some (RC_SUCCESS, {[id := f]}).
Proof.
  intros Hok Hs. unfold redo_one. destruct Hs as [->|(t & p & (-> & _ & Hr) & Hs)]; [done|]. rewrite Hr.
  unfold bp_redo, redo_allocate_page, redo_deallocate_page. destruct Hs as [Hle|[-> Hp]].
  - rewrite (proj2 (Z.leb_le _ _)) by done. by destruct t.
  - destruct (page_range f p Hok Hp) as (H0 & H1 & H2). cbn. destruct (_ <=? _); [done|].
    rewrite (proj2 (Z.ltb_lt _ _)) by lia. rewrite file_get_bit by (done || lia). by rewrite bool_decide_true.
Qed.

(** A header with the bits and counters of [f] on which all records so far are settled. *)
Record caught_up b f (fc : BPFile) (es : list LogEntry) : Prop := {
  cu_header : file_header_ fc = file_header_ f;
  cu_lsn : hdr_lsn fc ≤ current_lsn_ b;
  cu_settled : Forall (λ e, settled fc e ∧ lsn e ≤ current_lsn_ b) es;
}.

Lemma same_header_ok f fc : file_header_ fc = file_header_ f → file_ok f → file_ok fc.
Proof.
  intros E [? ? ? ? ? ?]. unfold all_pages, capacity in *. constructor; unfold capacity, all_pages; by rewrite E.
Qed.

Lemma settled_all fc fc' es n :
  Forall (λ e, settled fc e ∧ lsn e ≤ n) es →
  (∀ e, settled fc e → lsn e ≤ n → settled fc' e) → Forall (λ e, settled fc' e ∧ lsn e ≤ n + 1) es.
Proof. intros Hes Hall. eapply Forall_impl; [exact Hes|]. intros e [Hs Hl]. split; [by apply Hall|lia]. Qed.

(** Redoing the record of an allocation. *)
Lemma redo_allocate b f b' f' r fc es :
  system_ok b f → allocated_pages (file_header_ f) < capacity f → allocate_header b f = Some (b', f', r) → caught_up b f fc es →
  ∃ e fc', logs b b' e ∧ system_ok b' f' ∧ hdr_lsn f' = lsn e ∧ is_mine e = true ∧
    redo_one {[id := fc]} e = Some (RC_SUCCESS, {[id := fc']}) ∧ caught_up b' f' fc' (es ++ [e]).
Proof using id_int.
  intros Hs Hroom E [Hh Hl Hes]. pose proof Hs as [H0 Hhl Hok Hid].
  destruct (allocate_header_ok b f Hok Hroom) as (b1 & f1 & r1 & p & E1 & Er & Hok1 & Hp & Hnew & Hlow & Ha & Hc & Hlog & bm & Hset & Hf1).
  assert (b1 = b' ∧ f1 = f') as [-> ->] by (split; congruence). clear E1.
  assert (Hpr : p ∈ all_pages f') by (rewrite Ha; set_solver). destruct (page_range f' p Hok1 Hpr) as (Hpi & Hpc & _).
  destruct (append_log_ok b f ALLOCATE p Hs Hpi) as (b2 & e & Eap & Hlogs & Hrec). rewrite Eap in Hlog. injection Hlog as <- Hlsn.
  pose proof Hlogs as (_ & Hcur & Hle). pose proof Hrec as (Hm & _ & Hre).
  exists e. assert (Hsys : system_ok b' f') by (constructor; [lia|lia|done|by rewrite Hf1]).
  assert (Hsame : page_count (file_header_ fc) = page_count (file_header_ f) ∧ header_bitmap (file_header_ fc) = header_bitmap (file_header_ f)) by (by rewrite Hh).
  destruct Hsame as [Hpcf Hbm]. unfold redo_one. rewrite Hm.
  setoid_rewrite Hre. cbn [bp_redo bp_operation_id Z.eqb]. unfold redo_allocate_page. rewrite (proj2 (Z.leb_gt _ _)) by lia. rewrite Hpcf, Hbm.
  assert (Hcap : p < capacity f). { pose proof (page_range f' p Hok1 Hpr). lia. }
  destruct (decide (p < page_count (file_header_ f))) as [Hlt|Hge].
  - rewrite (proj2 (Z.ltb_lt _ _)) by done. rewrite file_get_bit by (done || lia). rewrite bool_decide_false by done.
    cbn [mbind option_bind]. rewrite Hset. cbn [mbind option_bind]. eexists. split_and!; [done..|lia|done|done|].
    assert (Hf : with_bits (file_header_ fc) (page_count (file_header_ f)) (allocated_pages (file_header_ fc) + 1) bm = file_header_ f')
      by (rewrite Hf1, Hh; f_equal; lia). rewrite Hf.
    constructor; [done|cbn; lia|]. apply Forall_app. split; [|constructor; [|constructor]].
    + rewrite Hcur. eapply settled_all; [exact Hes|]. intros e0 Hs0 Hl0. eapply settled_later; [exact Hs0|]. right. split; [done|].
      unfold all_pages. rewrite Hh. cbn [file_header_]. fold (all_pages f) (all_pages f'). rewrite Ha. set_solver.
    + split; [|lia]. right. exists ALLOCATE, p. split; [done|]. right. split; [done|exact Hpr].
  - assert (Hpeq : p = page_count (file_header_ f)).
    { destruct (decide (p = page_count (file_header_ f))); [done|]. pose proof (fo_count f Hok).
      pose proof (all_pages_range f _ (Hlow (page_count (file_header_ f)) ltac:(lia))). lia. }
    rewrite (proj2 (Z.ltb_ge _ _)) by lia. rewrite (proj2 (Z.ltb_ge _ _)) by lia.
    pose proof (fo_capacity f Hok). rewrite (proj2 (Z.leb_gt _ _)) by (unfold MAX_PAGE_NUM, BITMAP_BYTES in *; lia).
    rewrite Hset. cbn [mbind option_bind]. eexists. split_and!; [done..|lia|done|done|].
    assert (Hf : with_bits (file_header_ fc) (page_count (file_header_ f) + 1) (allocated_pages (file_header_ fc) + 1) bm = file_header_ f')
      by (rewrite Hf1, Hh; f_equal; lia). rewrite Hf.
    constructor; [done|cbn; lia|]. apply Forall_app. split; [|constructor; [|constructor]].
    + rewrite Hcur. eapply settled_all; [exact Hes|]. intros e0 Hs0 Hl0. eapply settled_later; [exact Hs0|]. left. cbn. lia.
    + split; [|lia]. right. exists ALLOCATE, p. split; [done|]. left. cbn. lia.
Qed.

(** Redoing the record of a disposal. *)
Lemma redo_dispose b f p b' f' fc es :
  system_ok b f → p ∈ file_pages f → dispose_header b f p = Some (b', f', RC_SUCCESS) → caught_up b f fc es →
  ∃ e fc', logs b b' e ∧ system_ok b' f' ∧ hdr_lsn f' = lsn e ∧ is_mine e = true ∧
    redo_one {[id := fc]} e = Some (RC_SUCCESS, {[id := fc']}) ∧ caught_up b' f' fc' (es ++ [e]).
Proof using id_int.
  intros Hs Hp E [Hh Hl Hes]. pose proof Hs as [H0 Hhl Hok Hid].
  destruct (dispose_header_ok b f p Hok Hp) as (b1 & f1 & E1 & Hok1 & Ha & Hc & Hlog & bm & Hset & Hf1).
  assert (b1 = b' ∧ f1 = f') as [-> ->] by (split; congruence). clear E1.
  apply elem_of_difference in Hp as [Hp _]. destruct (page_range f p Hok Hp) as (Hpi & Hpc & Hcap).
  destruct (append_log_ok b f DEALLOCATE p Hs Hpi) as (b2 & e & Eap & Hlogs & Hrec). rewrite Eap in Hlog. injection Hlog as <- Hlsn.
  pose proof Hlogs as (_ & Hcur & Hle). pose proof Hrec as (Hm & _ & Hre).
  exists e. assert (Hsys : system_ok b' f') by (constructor; [lia|lia|done|by rewrite Hf1]).
  unfold redo_one. rewrite Hm. setoid_rewrite Hre. cbn [bp_redo bp_operation_id Z.eqb]. unfold redo_deallocate_page.
  rewrite (proj2 (Z.leb_gt _ _)) by lia. rewrite Hh. rewrite (proj2 (Z.leb_gt _ _)) by lia.
  rewrite file_get_bit by (done || lia). rewrite bool_decide_true by done. cbn [mbind option_bind]. rewrite Hset. cbn [mbind option_bind].
  eexists. split_and!; [done..|lia|done|done|]. rewrite <- Hf1.
  constructor; [done|cbn; lia|]. apply Forall_app. split; [|constructor; [|constructor]].
  - rewrite Hcur. eapply settled_all; [exact Hes|]. intros e0 Hs0 Hl0. eapply settled_later; [exact Hs0|]. left. cbn. lia.
  - split; [|lia]. right. exists DEALLOCATE, p. split; [done|]. left. cbn. lia.
Qed.

(** Every step writes one record, and its redo follows the step. *)
Lemma step_catch_up b f b' f' fc es :
  system_ok b f → file_step (b, f) (b', f') → caught_up b f fc es →
  ∃ e fc', logs b b' e ∧ system_ok b' f' ∧ (is_mine e = false ∧ f' = f ∨ is_mine e = true ∧ hdr_lsn f' = lsn e) ∧
    redo_one {[id := fc]} e = Some (RC_SUCCESS, {[id := fc']}) ∧ caught_up b' f' fc' (es ++ [e]).
Proof using id_int.
  intros Hs Hstep Hc. inversion Hstep as [? ? ? ? r Hroom E|? ? p ? ? Hp E|? ? ? e He Hcur Hle Hm]; subst.
  - destruct (redo_allocate b f b' f' r fc es Hs Hroom E Hc) as (e & fc' & ? & ? & ? & ? & ? & ?). exists e, fc'. naive_solver.
  - destruct (redo_dispose b f p b' f' fc es Hs Hp E Hc) as (e & fc' & ? & ? & ? & ? & ? & ?). exists e, fc'. naive_solver.
  - destruct Hs as [H0 Hh Hok Hid]. destruct Hc as [Hch Hcl Hes]. exists e, fc. split; [done|].
    split; [constructor; done || lia|]. split; [by left|]. split; [unfold redo_one; by rewrite Hm|].
    constructor; [done|lia|]. apply Forall_app. split; [|constructor; [split; [by left|lia]|constructor]].
    rewrite Hcur. eapply settled_all; [exact Hes|]. done.
Qed.

(** On a running system's own header every record is settled. *)
Lemma step_self b f b' f' es e :
  system_ok b f → file_step (b, f) (b', f') → caught_up b f f es → logs b b' e → caught_up b' f' f' (es ++ [e]).
Proof using id_int.
  intros Hs Hstep Hc (He & _ & _). destruct (step_catch_up b f b' f' f es Hs Hstep Hc) as (e2 & fc' & (He2 & Hcur & Hle) & Hs' & Hcase & _ & Hc').
  assert (e2 = e) as -> by (rewrite He in He2; apply app_inv_head in He2; congruence).
  destruct Hc as [_ _ Hes]. destruct Hc' as [_ _ Hes']. apply Forall_app in Hes' as [_ [[Hse _] _]%Forall_cons].
  constructor; [done|apply (so_header _ _ Hs')|]. apply Forall_app. split.
  - rewrite Hcur. eapply settled_all; [exact Hes|]. intros e0 H0 Hl0. destruct Hcase as [[_ ->]|[_ Hh]]; [done|].
    eapply settled_later; [exact H0|]. left. lia.
  - constructor; [|constructor]. split; [|lia]. destruct Hcase as [[Hm _]|[Hm Hh]]; [by left|].
    destruct Hse as [Hm'|(t & p & Hr & _)]; [congruence|]. right. exists t, p. split; [done|]. left. lia.
Qed.

Lemma redo_file_app pools es1 es2 pools1 :
  redo_file pools es1 = Some (RC_SUCCESS, pools1) → redo_file pools (es1 ++ es2) = redo_file pools1 es2.
Proof.
  revert pools. induction es1 as [|e es1 IH]; intros pools; cbn [redo_file app]; [by intros [= <-]|].
  destruct (redo_one pools e) as [[rc pools2]|]; [|done]. cbn [mbind option_bind].
  destruct (OB_FAIL rc) eqn:E; [|apply IH]. intros [= -> <-]. done.
Qed.

Lemma settled_redo f es n : file_ok f → Forall (λ e, settled f e ∧ lsn e ≤ n) es → redo_file {[id := f]} es = Some (RC_SUCCESS, {[id := f]}).
Proof.
  intros Hok Hes. induction Hes as [|e es [He _] Hes IH]; [done|]. cbn [redo_file]. by rewrite settled_noop.
Qed.

Lemma run_self s0 s1 :
  rtc file_step s0 s1 → ∀ es, system_ok s0.1 s0.2 → caught_up s0.1 s0.2 s0.2 es →
  ∃ es', entries_ s1.1 = entries_ s0.1 ++ es' ∧ system_ok s1.1 s1.2 ∧ caught_up s1.1 s1.2 s1.2 (es ++ es').
Proof using id_int.
  induction 1 as [[b f]|[b f] [b' f'] s1 Hstep Hrun IH]; intros es Hs Hc.
  - exists []. by rewrite !app_nil_r.
  - destruct (step_catch_up b f b' f' f es Hs Hstep Hc) as (e & _ & Hl & Hs' & _).
    destruct (IH (es ++ [e]) Hs' (step_self b f b' f' es e Hs Hstep Hc Hl)) as (es' & H1 & H2 & H3).
    exists (e :: es'). destruct Hl as [Hl _]. cbn in *. rewrite H1, Hl, <- app_assoc. split_and!; [done..|]. by rewrite <- app_assoc in H3.
Qed.

Lemma run_catch_up s0 s1 :
  rtc file_step s0 s1 → ∀ fc es, system_ok s0.1 s0.2 → caught_up s0.1 s0.2 fc es →
  ∃ es' fc', entries_ s1.1 = entries_ s0.1 ++ es' ∧ system_ok s1.1 s1.2 ∧
    redo_file {[id := fc]} es' = Some (RC_SUCCESS, {[id := fc']}) ∧ caught_up s1.1 s1.2 fc' (es ++ es').
Proof using id_int.
  induction 1 as [[b f]|[b f] [b' f'] s1 Hstep Hrun IH]; intros fc es Hs Hc.
  - exists [], fc. by rewrite !app_nil_r.
  - destruct (step_catch_up b f b' f' fc es Hs Hstep Hc) as (e & fc1 & Hl & Hs' & _ & Hr & Hc').
    destruct (IH fc1 (es ++ [e]) Hs' Hc') as (es' & fc' & H1 & H2 & H3 & H4).
    exists (e :: es'), fc'. destruct Hl as [Hl _]. cbn in *. rewrite H1, Hl, <- app_assoc. split_and!; [done..| |].
    + rewrite Hr. cbn [mbind option_bind]. exact H3.
    + by rewrite <- app_assoc in H4.
Qed.

(** C8: recovery of the allocation of pages.  While the system runs, pages of a file are allocated and
    disposed and other modules and files write the same log; a crash leaves the header of the file
    as it was at any moment of the run.  Redoing the whole log of the run then succeeds and restores
    the bitmap and both counters as they were at the end; redoing it once more (after another crash)
    changes nothing. *)
Theorem header_recovery b0 f0 bc fc b1 f1 es :
  system_ok b0 f0 → rtc file_step (b0, f0) (bc, fc) → rtc file_step (bc, fc) (b1, f1) →
  entries_ b1 = entries_ b0 ++ es →
  ∃ f', redo_file {[id := fc]} es = Some (RC_SUCCESS, {[id := f']}) ∧ file_header_ f' = file_header_ f1 ∧
        redo_file {[id := f']} es = Some (RC_SUCCESS, {[id := f']}).
Proof using id_int.
  intros Hs0 H1 H2 Hes.
  assert (Hc0 : caught_up b0 f0 f0 []) by (constructor; [done|apply (so_header _ _ Hs0)|constructor]).
  destruct (run_self _ _ H1 [] Hs0 Hc0) as (es1 & He1 & Hsc & Hcc). cbn in *.
  destruct (run_catch_up _ _ H2 fc es1 Hsc Hcc) as (es2 & f' & He2 & Hs1 & Hr & Hc1). cbn in *.
  assert (es = es1 ++ es2) as -> by (rewrite He2, He1, <- app_assoc in Hes; by apply app_inv_head in Hes).
  exists f'. split; [|split; [apply (cu_header _ _ _ _ Hc1)|]].
  - rewrite (redo_file_app _ es1 es2 {[id := fc]}); [done|]. eapply settled_redo; [apply (so_file _ _ Hsc)|apply (cu_settled _ _ _ _ Hcc)].
  - eapply settled_redo; [|apply (cu_settled _ _ _ _ Hc1)]. eapply same_header_ok; [apply (cu_header _ _ _ _ Hc1)|apply (so_file _ _ Hs1)].
Qed.
End recovery.

(** ** Properties *)

Lemma check_page_num_ok f p : file_ok f → 0 ≤ p →
  check_page_num f p = Some (if decide (p ∈ all_pages f) then RC_SUCCESS else RC_BUFFERPOOL_INVALID_PAGE_NUM).
Proof.
  intros Hok Hp. pose proof (fo_count_capacity f Hok). unfold check_page_num. destruct (_ <=? p) eqn:E; zify_bool.
  - rewrite decide_False; [done|]. intros Hx%all_pages_range. lia.
  - rewrite file_get_bit by (done || lia). cbn [mbind option_bind]. case_bool_decide; case_decide; done.
Qed.

(** while a bit of the bitmap is free, [allocate_page] marks the lowest free page, never the
    header, and no other page; the page then passes [check_page_num]; [dispose_page] gives it back:
    the allocated pages are the earlier ones and the page no longer passes the check.  Whether the
    log records can be written makes no difference. *)
Theorem page_allocation_correct {L} `{LogSink L} (l : L) f :
  file_ok f → allocated_pages (file_header_ f) < capacity f →
  ∃ l1 f1 r p, allocate_header l f = Some (l1, f1, r) ∧ allocated_page r = Some p ∧ file_ok f1 ∧
    0 < p ∧ p ∉ all_pages f ∧ (∀ j, 0 ≤ j < p → j ∈ all_pages f) ∧ all_pages f1 = {[p]} ∪ all_pages f ∧
    check_page_num f1 p = Some RC_SUCCESS ∧
    ∃ l2 f2, dispose_header l1 f1 p = Some (l2, f2, RC_SUCCESS) ∧ file_ok f2 ∧ all_pages f2 = all_pages f ∧
      check_page_num f2 p = Some RC_BUFFERPOOL_INVALID_PAGE_NUM.
Proof.
  intros Hok Hroom.
  destruct (allocate_header_ok l f Hok Hroom) as (l1 & f1 & r & p & E1 & Er & Hok1 & Hp & Hn & Hlow & Ha & _).
  exists l1, f1, r, p. split_and!; try done.
  { rewrite check_page_num_ok, decide_True; [done|rewrite Ha; set_solver|done|lia]. }
  destruct (dispose_header_ok l1 f1 p Hok1) as (l2 & f2 & E2 & Hok2 & Ha2 & _).
  { apply elem_of_difference. rewrite Ha. split; [set_solver|]. apply not_elem_of_singleton. lia. }
  assert (Hall : all_pages f2 = all_pages f) by (rewrite Ha2, Ha; set_solver).
  exists l2, f2. split_and!; try done. rewrite check_page_num_ok, decide_False; [done|by rewrite Hall|done|lia].
Qed.

(** The iterator returns the next allocated page, or -1 at the end. *)
Lemma iterator_next_spec f it :
  file_ok f → it_bitmap_ it = header_bitmap (file_header_ f) → -1 ≤ current_page_num_ it →
  ∃ n it', iterator_next it = Some (n, it') ∧ has_next it = Some (negb (n =? -1)) ∧
    ((n = -1 ∧ it' = it ∧ ∀ p, p ∈ all_pages f → p ≤ current_page_num_ it) ∨
     (current_page_num_ it < n ∧ n ∈ all_pages f ∧ it' = mkIterator (it_bitmap_ it) n ∧
      ∀ p, p ∈ all_pages f → current_page_num_ it < p → n ≤ p)).
Proof.
  intros Hok Hb Hc. unfold iterator_next, has_next. rewrite Hb.
  destruct (next_setted_bit_first (header_bitmap (file_header_ f)) (current_page_num_ it + 1) (fo_wf f Hok) ltac:(lia)) as (n & -> & Hn).
  cbn [mbind option_bind]. do 2 eexists. split; [done|]. split; [done|]. unfold first_bit in Hn. cbn in Hn. destruct Hn as [[-> Hall]|(Hr & Hbit & Hall)].
  - left. split_and!; [done..|]. intros p [Hp Hx]%elem_of_set_bits. destruct (decide (p ≤ current_page_num_ it)); [done|].
    rewrite Hall in Hx; [done|cbn; lia].
  - right. rewrite (proj2 (Z.eqb_neq n (-1))) by lia. split_and!; [lia| |done|].
    + apply elem_of_set_bits. split; [lia|done].
    + intros p [Hp Hx]%elem_of_set_bits Hlt. destruct (decide (n ≤ p)); [done|]. rewrite Hall in Hx; [done|lia].
Qed.

(** *** Examples *)

Definition ex_file : BPFile := mkFile 0 false (mkFileHeader 7 1 1 [1]).

Lemma ex_file_ok : file_ok ex_file.
Proof. apply (first_header_ok 7 0 ex_file); [by vm_compute|done]. Qed.

Lemma page_allocation_correct_witness :
  ∃ l1 f1 r p, allocate_header new_buffer ex_file = Some (l1, f1, r) ∧ allocated_page r = Some p ∧ p = 1 ∧
    check_page_num f1 p = Some RC_SUCCESS.
Proof.
  destruct (page_allocation_correct new_buffer ex_file ex_file_ok ltac:(done)) as (l1 & f1 & r & p & E & Er & _ & _ & _ & _ & _ & Hc & _).
  exists l1, f1, r, p. split_and!; try done. vm_compute in E. injection E as _ _ <-. vm_compute in Er. congruence.
Defined.

Definition ex_state (n : nat) : LogEntryBuffer * BPFile :=
  let alloc (s : LogEntryBuffer * BPFile) :=
    match allocate_header s.1 s.2 with Some (b, f, _) => (b, f) | None => s end in
  let dispose p (s : LogEntryBuffer * BPFile) :=
    match dispose_header s.1 s.2 p with Some (b, f, _) => (b, f) | None => s end in
  match n with
  | O => (new_buffer, ex_file)
  | 1%nat => alloc (new_buffer, ex_file)
  | 2%nat => alloc (alloc (new_buffer, ex_file))
  | 3%nat => dispose 1 (alloc (alloc (new_buffer, ex_file)))
  | _ => alloc (dispose 1 (alloc (alloc (new_buffer, ex_file))))
  end.

Lemma header_recovery_witness :
  ∃ f', redo_file 7 {[7 := (ex_state 2).2]} (entries_ (ex_state 4).1) = Some (RC_SUCCESS, {[7 := f']}) ∧
    file_header_ f' = file_header_ (ex_state 4).2.
Proof.
  destruct (header_recovery 7 ltac:(by vm_compute) (ex_state 0).1 (ex_state 0).2 (ex_state 2).1 (ex_state 2).2
              (ex_state 4).1 (ex_state 4).2 (entries_ (ex_state 4).1)) as (f' & H1 & H2 & _).
  - constructor; [by vm_compute..|apply ex_file_ok|done].
  - eapply rtc_l; [|eapply rtc_l; [|apply rtc_refl]].
    + eapply (step_allocate 7 _ _ (ex_state 1).1 (ex_state 1).2); [done|by vm_compute].
    + eapply (step_allocate 7); [done|by vm_compute].
  - eapply rtc_l; [|eapply rtc_l; [|apply rtc_refl]].
    + eapply (step_dispose 7 _ _ 1 (ex_state 3).1 (ex_state 3).2); [by_compute|by vm_compute].
    + eapply (step_allocate 7); [done|by vm_compute].
  - done.
  - exists f'. split; [exact H1|exact H2].
Defined.
