(* ===== verification/Crc.v ===== *)
(** * The checksum of pages ([deps/common/math/crc.cpp])

    A table-driven CRC-32 without the final complement.  It is compared with the bit-by-bit
    definition; from that follows which damage it is certain to detect. *)
From S2P Require Import Prelude.

(** [src/deps/common/math/crc.cpp:15-270] [crc_table] *)
Definition crc_table : list Z :=
  [0; 1996959894; 3993919788; 2567524794; 124634137; 1886057615; 3915621685; 2657392035;
   249268274; 2044508324; 3772115230; 2547177864; 162941995; 2125561021; 3887607047; 2428444049;
   498536548; 1789927666; 4089016648; 2227061214; 450548861; 1843258603; 4107580753; 2211677639;
   325883990; 1684777152; 4251122042; 2321926636; 335633487; 1661365465; 4195302755; 2366115317;
   997073096; 1281953886; 3579855332; 2724688242; 1006888145; 1258607687; 3524101629; 2768942443;
   901097722; 1119000684; 3686517206; 2898065728; 853044451; 1172266101; 3705015759; 2882616665;
   651767980; 1373503546; 3369554304; 3218104598; 565507253; 1454621731; 3485111705; 3099436303;
   671266974; 1594198024; 3322730930; 2970347812; 795835527; 1483230225; 3244367275; 3060149565;
   1994146192; 31158534; 2563907772; 4023717930; 1907459465; 112637215; 2680153253; 3904427059;
   2013776290; 251722036; 2517215374; 3775830040; 2137656763; 141376813; 2439277719; 3865271297;
   1802195444; 476864866; 2238001368; 4066508878; 1812370925; 453092731; 2181625025; 4111451223;
   1706088902; 314042704; 2344532202; 4240017532; 1658658271; 366619977; 2362670323; 4224994405;
   1303535960; 984961486; 2747007092; 3569037538; 1256170817; 1037604311; 2765210733; 3554079995;
   1131014506; 879679996; 2909243462; 3663771856; 1141124467; 855842277; 2852801631; 3708648649;
   1342533948; 654459306; 3188396048; 3373015174; 1466479909; 544179635; 3110523913; 3462522015;
   1591671054; 702138776; 2966460450; 3352799412; 1504918807; 783551873; 3082640443; 3233442989;
   3988292384; 2596254646; 62317068; 1957810842; 3939845945; 2647816111; 81470997; 1943803523;
   3814918930; 2489596804; 225274430; 2053790376; 3826175755; 2466906013; 167816743; 2097651377;
   4027552580; 2265490386; 503444072; 1762050814; 4150417245; 2154129355; 426522225; 1852507879;
   4275313526; 2312317920; 282753626; 1742555852; 4189708143; 2394877945; 397917763; 1622183637;
   3604390888; 2714866558; 953729732; 1340076626; 3518719985; 2797360999; 1068828381; 1219638859;
   3624741850; 2936675148; 906185462; 1090812512; 3747672003; 2825379669; 829329135; 1181335161;
   3412177804; 3160834842; 628085408; 1382605366; 3423369109; 3138078467; 570562233; 1426400815;
   3317316542; 2998733608; 733239954; 1555261956; 3268935591; 3050360625; 752459403; 1541320221;
   2607071920; 3965973030; 1969922972; 40735498; 2617837225; 3943577151; 1913087877; 83908371;
   2512341634; 3803740692; 2075208622; 213261112; 2463272603; 3855990285; 2094854071; 198958881;
   2262029012; 4057260610; 1759359992; 534414190; 2176718541; 4139329115; 1873836001; 414664567;
   2282248934; 4279200368; 1711684554; 285281116; 2405801727; 4167216745; 1634467795; 376229701;
   2685067896; 3608007406; 1308918612; 956543938; 2808555105; 3495958263; 1231636301; 1047427035;
   2932959818; 3654703836; 1088359270; 936918000; 2847714899; 3736837829; 1202900863; 817233897;
   3183342108; 3401237130; 1404277552; 615818150; 3134207493; 3453421203; 1423857449; 601450431;
   3009837614; 3294710456; 1567103746; 711928724; 3020668471; 3272380065; 1510334235; 755167117].

(** The loop of [crc32]; the bytes are signed chars. *)
Fixpoint crc_loop (crc : Z) (buffer : list Z) : option Z :=
  match buffer with
  | [] => Some crc
  | b :: buffer =>
      t ← at_z crc_table (Z.land (Z.lxor crc b) 255);
      crc_loop (Z.lxor t (Z.shiftr crc 8)) buffer
  end.

(** [src/deps/common/math/crc.cpp:272-279] [crc32] *)
Definition crc32 (buffer : list Z) : option Z := crc_loop 4294967295 buffer.

(** ** The reference: one bit at a time *)

Definition poly : Z := 3988292384.   (* 0xEDB88320 *)
Definition crc_step (s : Z) : Z := Z.lxor (Z.shiftr s 1) (if Z.testbit s 0 then poly else 0).
Fixpoint crc_steps (n : nat) (s : Z) : Z :=
  match n with O => s | S n => crc_step (crc_steps n s) end.
Definition crc_byte (s b : Z) : Z := crc_steps 8 (Z.lxor s (b mod 256)).
Definition crc_reference (buffer : list Z) : Z := foldl crc_byte 4294967295 buffer.

(** ** The step is linear and invertible *)

Lemma crc_step_lxor a b : crc_step (Z.lxor a b) = Z.lxor (crc_step a) (crc_step b).
Proof.
  unfold crc_step. rewrite Z.shiftr_lxor, Z.lxor_spec.
  destruct (Z.testbit a 0), (Z.testbit b 0); cbn [xorb]; rewrite ?Z.lxor_0_r; try done.
  - rewrite <- !Z.lxor_assoc, (Z.lxor_comm (Z.lxor (Z.shiftr a 1) poly) (Z.shiftr b 1)), <- Z.lxor_assoc, Z.lxor_assoc, Z.lxor_nilpotent, Z.lxor_0_r.
    apply Z.lxor_comm.
  - rewrite !Z.lxor_assoc. f_equal. apply Z.lxor_comm.
  - by rewrite Z.lxor_assoc.
Qed.

Lemma crc_steps_lxor n a b : crc_steps n (Z.lxor a b) = Z.lxor (crc_steps n a) (crc_steps n b).
Proof. induction n as [|n IH]; [done|]. cbn [crc_steps]. by rewrite IH, crc_step_lxor. Qed.

Lemma crc_step_shift x : crc_step (Z.shiftl x 1) = x.
Proof.
  unfold crc_step. rewrite Z.shiftl_spec_low by lia. rewrite Z.lxor_0_r, Z.shiftr_shiftl_l by lia. apply Z.shiftl_0_r.
Qed.

Lemma crc_steps_succ n s : crc_steps (S n) s = crc_steps n (crc_step s).
Proof. induction n as [|n IH]; [done|]. cbn [crc_steps] in *. by rewrite IH. Qed.

Lemma crc_steps_add n m s : crc_steps (n + m) s = crc_steps n (crc_steps m s).
Proof. induction n as [|n IH]; [done|]. cbn [crc_steps Nat.add]. by rewrite IH. Qed.

Lemma crc_steps_shift n x : crc_steps n (Z.shiftl x (Z.of_nat n)) = x.
Proof.
  induction n as [|n IH]; [apply Z.shiftl_0_r|]. rewrite crc_steps_succ.
  replace (Z.of_nat (S n)) with (Z.of_nat n + 1) by lia. rewrite <- Z.shiftl_shiftl by lia. by rewrite crc_step_shift.
Qed.

Definition is_word (s : Z) : Prop := 0 ≤ s < 2 ^ 32.

Lemma word_lxor a b : is_word a → is_word b → is_word (Z.lxor a b).
Proof.
  intros Ha Hb. unfold is_word in *. assert (Hn : 0 ≤ Z.lxor a b) by (apply Z.lxor_nonneg; lia). split; [done|].
  destruct (decide (Z.lxor a b = 0)) as [->|]; [done|]. apply Z.log2_lt_pow2; [lia|].
  pose proof (Z.log2_lxor a b ltac:(lia) ltac:(lia)).
  assert (Hl : ∀ x, 0 ≤ x < 2 ^ 32 → Z.log2 x < 32).
  { intros x Hx. destruct (decide (x = 0)) as [->|]; [done|]. apply Z.log2_lt_pow2; lia. }
  pose proof (Hl a Ha). pose proof (Hl b Hb). lia.
Qed.

Lemma word_step s : is_word s → is_word (crc_step s).
Proof.
  intros Hs. unfold crc_step. apply word_lxor.
  - unfold is_word in *. rewrite Z.shiftr_div_pow2 by lia. split; [apply Z.div_pos; lia|apply Z.div_lt_upper_bound; lia].
  - destruct (Z.testbit s 0); by vm_compute.
Qed.

Lemma word_steps n s : is_word s → is_word (crc_steps n s).
Proof. induction n as [|n IH]; [done|]. intros Hs. cbn [crc_steps]. by apply word_step, IH. Qed.

(** The top bit of the polynomial keeps the bit that is shifted out. *)
Lemma crc_step_inj a b : is_word a → is_word b → crc_step a = crc_step b → a = b.
Proof.
  intros Ha Hb E.
  assert (Htop : ∀ x, is_word x → Z.testbit (crc_step x) 31 = Z.testbit x 0).
  { intros x Hx. unfold crc_step. rewrite Z.lxor_spec, Z.shiftr_spec by lia. change (31 + 1) with 32.
    rewrite (small_bits_above x 32 32) by (unfold is_word in Hx; lia). by destruct (Z.testbit x 0). }
  assert (H0 : Z.testbit a 0 = Z.testbit b 0) by (rewrite <- !Htop by done; by rewrite E).
  unfold crc_step in E. rewrite H0 in E. apply (f_equal (λ x, Z.lxor x (if Z.testbit b 0 then poly else 0))) in E.
  rewrite !Z.lxor_assoc, !Z.lxor_nilpotent, !Z.lxor_0_r in E.
  apply Z.bits_inj'. intros n Hn. destruct (decide (n = 0)) as [->|]; [done|].
  apply (f_equal (λ x, Z.testbit x (n - 1))) in E. rewrite !Z.shiftr_spec in E by lia. by replace (n - 1 + 1) with n in E by lia.
Qed.

Lemma crc_steps_inj n a b : is_word a → is_word b → crc_steps n a = crc_steps n b → a = b.
Proof.
  intros Ha Hb. induction n as [|n IH]; [done|]. cbn [crc_steps]. intros E. apply IH, crc_step_inj; [by apply word_steps..|done].
Qed.

(** ** The table *)

Lemma crc_table_ok i : 0 ≤ i < 256 → at_z crc_table i = Some (crc_steps 8 i).
Proof.
  intros Hi.
  assert (H : forallb (λ i, bool_decide (at_z crc_table i = Some (crc_steps 8 i))) (seqZ 0 256) = true) by by vm_compute.
  rewrite forallb_forall in H. specialize (H i). apply bool_decide_eq_true in H; [done|].
  apply list_elem_of_In, elem_of_seqZ. lia.
Qed.

Lemma byte_split s : Z.lxor (s mod 256) (Z.shiftl (Z.shiftr s 8) 8) = s.
Proof.
  apply Z.bits_inj'. intros n Hn. rewrite Z.lxor_spec. change 256 with (2 ^ 8). destruct (decide (n < 8)).
  - rewrite Z.mod_pow2_bits_low by lia. rewrite Z.shiftl_spec_low by lia. apply xorb_false_r.
  - rewrite Z.mod_pow2_bits_high by lia. rewrite Z.shiftl_spec, Z.shiftr_spec by lia. cbn. f_equal. lia.
Qed.

Lemma lxor_mod a b : (Z.lxor a b) mod 256 = Z.lxor (a mod 256) (b mod 256).
Proof.
  change 256 with (2 ^ 8). apply Z.bits_inj'. intros n Hn. rewrite Z.lxor_spec. destruct (decide (n < 8)).
  - by rewrite !Z.mod_pow2_bits_low, Z.lxor_spec by lia.
  - by rewrite !Z.mod_pow2_bits_high by lia.
Qed.

(** One turn of the loop is eight steps. *)
Lemma crc_turn s b :
  at_z crc_table (Z.land (Z.lxor s b) 255) = Some (crc_steps 8 ((Z.lxor s b) mod 256)) ∧
  Z.lxor (crc_steps 8 ((Z.lxor s b) mod 256)) (Z.shiftr s 8) = crc_byte s b.
Proof.
  assert (E : Z.land (Z.lxor s b) 255 = (Z.lxor s b) mod 256) by (change 255 with (Z.ones 8); by rewrite Z.land_ones by lia).
  split; [rewrite E; apply crc_table_ok, Z.mod_pos_bound; lia|]. unfold crc_byte.
  rewrite <- (crc_steps_shift 8 (Z.shiftr s 8)), <- crc_steps_lxor. f_equal. change (Z.of_nat 8) with 8.
  rewrite lxor_mod, Z.lxor_assoc, (Z.lxor_comm (b mod 256)), <- Z.lxor_assoc. by rewrite byte_split.
Qed.

Lemma crc_loop_fold buffer : ∀ s, crc_loop s buffer = Some (foldl crc_byte s buffer).
Proof.
  induction buffer as [|b buffer IH]; intros s; [done|]. cbn [crc_loop foldl]. destruct (crc_turn s b) as [-> E].
  cbn [mbind option_bind]. by rewrite E.
Qed.

(** ** Detection *)

Lemma word_byte s b : is_word s → is_word (crc_byte s b).
Proof.
  intros Hs. apply word_steps, word_lxor; [done|]. unfold is_word. pose proof (Z.mod_pos_bound b 256). lia.
Qed.

Lemma word_fold l : ∀ s, is_word s → is_word (foldl crc_byte s l).
Proof. induction l as [|b l IH]; intros s Hs; [done|]. cbn. by apply IH, word_byte. Qed.

Lemma crc_byte_inj s1 s2 b : is_word s1 → is_word s2 → crc_byte s1 b = crc_byte s2 b → s1 = s2.
Proof.
  intros H1 H2 E. assert (Hb : is_word (b mod 256)) by (unfold is_word; pose proof (Z.mod_pos_bound b 256); lia).
  apply crc_steps_inj in E; [|by apply word_lxor..]. apply (f_equal (λ x, Z.lxor x (b mod 256))) in E.
  by rewrite !Z.lxor_assoc, !Z.lxor_nilpotent, !Z.lxor_0_r in E.
Qed.

Lemma crc_fold_inj l : ∀ s1 s2, is_word s1 → is_word s2 → foldl crc_byte s1 l = foldl crc_byte s2 l → s1 = s2.
Proof.
  induction l as [|b l IH]; intros s1 s2 H1 H2; [done|]. cbn. intros E. apply (crc_byte_inj s1 s2 b); [done..|].
  apply IH; [by apply word_byte..|done].
Qed.

(** The bytes as one number, first byte lowest. *)
Fixpoint word_of (l : list Z) : Z :=
  match l with [] => 0 | b :: l => Z.lxor (b mod 256) (Z.shiftl (word_of l) 8) end.

(** The bytes can be added to the state before all the steps. *)
Lemma crc_fold_word l : ∀ s, foldl crc_byte s l = crc_steps (8 * length l) (Z.lxor s (word_of l)).
Proof.
  induction l as [|b l IH]; intros s; [cbn; by rewrite Z.lxor_0_r|]. cbn [foldl word_of length].
  rewrite IH. replace (8 * S (length l))%nat with (8 * length l + 8)%nat by lia. rewrite crc_steps_add. f_equal.
  rewrite <- Z.lxor_assoc, crc_steps_lxor. unfold crc_byte. f_equal. by rewrite (crc_steps_shift 8).
Qed.

Lemma word_of_bound l : 0 ≤ word_of l < 2 ^ (8 * Z.of_nat (length l)).
Proof.
  induction l as [|b l IH]; [done|]. cbn [word_of length].
  assert (E : Z.lxor (b mod 256) (Z.shiftl (word_of l) 8) = b mod 256 + 256 * word_of l).
  { rewrite <- Z.add_nocarry_lxor.
    - rewrite Z.shiftl_mul_pow2 by lia. lia.
    - apply Z.bits_inj'. intros n Hn. rewrite Z.land_spec, Z.bits_0. change 256 with (2 ^ 8). destruct (decide (n < 8)).
      + rewrite (Z.shiftl_spec_low (word_of l)) by lia. apply andb_false_r.
      + by rewrite Z.mod_pow2_bits_high by lia. }
  rewrite E. pose proof (Z.mod_pos_bound b 256 ltac:(lia)).
  replace (8 * Z.of_nat (S (length l))) with (8 + 8 * Z.of_nat (length l)) by lia. rewrite Z.pow_add_r by lia. change (2 ^ 8) with 256. lia.
Qed.

Lemma word_of_inj l1 : ∀ l2, length l1 = length l2 → Forall is_char l1 → Forall is_char l2 → word_of l1 = word_of l2 → l1 = l2.
Proof.
  induction l1 as [|b1 l1 IH]; intros [|b2 l2] Hl H1 H2 E; try done.
  apply Forall_cons in H1 as [Hb1 H1]. apply Forall_cons in H2 as [Hb2 H2]. cbn [word_of] in E.
  assert (Hlow : ∀ b w, (Z.lxor (b mod 256) (Z.shiftl w 8)) mod 256 = b mod 256 ∧ Z.shiftr (Z.lxor (b mod 256) (Z.shiftl w 8)) 8 = w).
  { intros b w. split.
    - rewrite lxor_mod, Z.mod_mod, Z.shiftl_mul_pow2, Z.mod_mul, Z.lxor_0_r by lia. done.
    - rewrite Z.shiftr_lxor, Z.shiftr_shiftl_l, Z.shiftl_0_r by lia. rewrite Z.shiftr_div_pow2, Z.div_small by (lia || apply Z.mod_pos_bound; lia).
      apply Z.lxor_0_l. }
  destruct (Hlow b1 (word_of l1)) as [L1 R1]. destruct (Hlow b2 (word_of l2)) as [L2 R2]. rewrite E in L1, R1.
  f_equal; [|apply IH; [by injection Hl|done..|congruence]].
  rewrite L2 in L1. unfold is_char in *. pose proof (Z.div_mod b1 256 ltac:(lia)). pose proof (Z.div_mod b2 256 ltac:(lia)). lia.
Qed.

(** C38: the table-driven [crc32] never reads outside its table, equals the bit-by-bit CRC with the
    reflected polynomial 0xEDB88320 on every buffer, and detects every damage within four
    consecutive bytes: two buffers that differ there, and only there, have different checksums. *)
Theorem crc32_correct pre mid1 mid2 post :
  Forall is_char mid1 → Forall is_char mid2 → length mid1 = length mid2 → (length mid1 ≤ 4)%nat →
  crc32 (pre ++ mid1 ++ post) = Some (crc_reference (pre ++ mid1 ++ post)) ∧
  (crc32 (pre ++ mid1 ++ post) = crc32 (pre ++ mid2 ++ post) → mid1 = mid2).
Proof.
  intros H1 H2 Hl H4. unfold crc32. rewrite !crc_loop_fold. split; [done|]. intros [= E].
  rewrite !foldl_app in E. set (s := foldl crc_byte 4294967295 pre) in *.
  assert (Hs : is_word s) by (apply word_fold; by vm_compute).
  apply crc_fold_inj in E; [|by apply word_fold..]. rewrite !crc_fold_word, <- Hl in E.
  assert (Hw : ∀ l, (length l ≤ 4)%nat → is_word (word_of l)).
  { intros l Hlen. pose proof (word_of_bound l). unfold is_word. assert (2 ^ (8 * Z.of_nat (length l)) ≤ 2 ^ 32) by (apply Z.pow_le_mono_r; lia). lia. }
  apply crc_steps_inj in E; [|apply word_lxor; [done|apply Hw; lia]..].
  apply word_of_inj; [done..|]. apply (f_equal (Z.lxor s)) in E.
  by rewrite <- !Z.lxor_assoc, Z.lxor_nilpotent, !Z.lxor_0_l in E.
Qed.

Lemma crc32_correct_witness :
  crc32 ([49; 50] ++ [51; 52; 53; -54] ++ [55]) = Some (crc_reference ([49; 50] ++ [51; 52; 53; -54] ++ [55])) ∧
  (crc32 ([49; 50] ++ [51; 52; 53; -54] ++ [55]) = crc32 ([49; 50] ++ [51; 52; 53; 54] ++ [55]) → [51; 52; 53; -54] = [51; 52; 53; 54]).
Proof. apply crc32_correct; [repeat constructor; by_compute..|done|done]. Defined.
