(* ===== verification/DoubleWrite.v ===== *)
(** * The double write buffer ([storage/buffer/double_write_buffer.*])

    A page is first written to a slot of a shared file and only later, when the buffer is flushed, to
    its own file, so that a write that a crash tears can be repaired.  The operations return the
    sequence of writes they make; a crash cuts that sequence anywhere and may tear the write it
    hits.  Pages carry the checksum [flush_page_internal] gives them. *)
From S2P Require Import Prelude Rc Crc FrameManager.

(** ** Data *)

Abbreviation PageKey := (Z * Z)%type.          (* buffer pool, page number *)
Definition PageImage : Type := Page (list Z).

(** [src/src/observer/storage/buffer/double_write_buffer.cpp:27-39] [DoubleWritePage] *)
Record DoubleWritePage := mkDW {
  dw_key : PageKey;
  page_index : Z;
  dw_valid : bool;
  dw_page : PageImage;
}.

(** [src/src/observer/storage/buffer/double_write_buffer.h:143-150] [DiskDoubleWriteBuffer] the members *)
Record DoubleWriteBuffer := mkDWB {
  max_pages_ : Z;
  header_page_cnt : Z;
  dblwr_pages_ : gmap PageKey DoubleWritePage;
}.

(** What is on disk: the shared file (its header and its slots) and the pages of the other files. *)
Record DWDisk := mkDisk { disk_cnt : Z; slots : list DoubleWritePage; main_pages : gmap PageKey PageImage }.

Inductive Write :=
  | WHeader (page_cnt : Z)
  | WSlot (dp : DoubleWritePage)
  | WMain (key : PageKey) (page : PageImage).

Definition put_slot (d : DWDisk) (i : Z) (dp : DoubleWritePage) : DWDisk :=
  mkDisk (disk_cnt d) (if Z.to_nat i <? length (slots d) then <[Z.to_nat i := dp]> (slots d) else slots d ++ [dp])%nat (main_pages d).
Definition put_main (d : DWDisk) k p : DWDisk := mkDisk (disk_cnt d) (slots d) (<[k := p]> (main_pages d)).

Definition apply_write (d : DWDisk) (w : Write) : DWDisk :=
  match w with
  | WHeader n => mkDisk n (slots d) (main_pages d)
  | WSlot dp => put_slot d (page_index dp) dp
  | WMain k p => put_main d k p
  end.
Definition apply_writes (d : DWDisk) (ws : list Write) : DWDisk := foldl apply_write d ws.

(** The test of [load_pages]. *)
Definition checksum_ok (p : PageImage) : bool := bool_decide (crc32 (data p) = Some (check_sum p)).

(** ** Operations *)

Section operations.
(** The order in which the unordered map is traversed. *)
Variable iteration : gmap PageKey DoubleWritePage → list DoubleWritePage.
Implicit Types (s : DoubleWriteBuffer) (d : DWDisk).

(** [src/src/observer/storage/buffer/double_write_buffer.cpp:147-162] [DiskDoubleWriteBuffer::write_page_internal] *)
Definition write_page_internal (dp : DoubleWritePage) : list Write := [WSlot dp].

(** [src/src/observer/storage/buffer/double_write_buffer.cpp:164-180] [DiskDoubleWriteBuffer::write_page] *)
Definition write_page (dp : DoubleWritePage) : list Write :=
  if dw_valid dp then [WMain (dw_key dp) (dw_page dp)] else [].

Definition invalidate (dp : DoubleWritePage) : DoubleWritePage := mkDW (dw_key dp) (page_index dp) false (dw_page dp).

(** [src/src/observer/storage/buffer/double_write_buffer.cpp:78-96] [DiskDoubleWriteBuffer::flush_page] *)
Definition dw_flush_page s : DoubleWriteBuffer * list Write :=
  (mkDWB (max_pages_ s) 0 ∅,
   concat (map (λ dp, write_page dp ++ write_page_internal (invalidate dp)) (iteration (dblwr_pages_ s)))).

(** [src/src/observer/storage/buffer/double_write_buffer.cpp:98-145] [DiskDoubleWriteBuffer::add_page] *)
Definition add_page s (key : PageKey) (page : PageImage) : DoubleWriteBuffer * list Write :=
  match dblwr_pages_ s !! key with
  | Some dp =>
      let dp := mkDW (dw_key dp) (page_index dp) (dw_valid dp) page in
      (mkDWB (max_pages_ s) (header_page_cnt s) (<[key := dp]> (dblwr_pages_ s)), write_page_internal dp)
  | None =>
      let page_cnt := Z.of_nat (size (dblwr_pages_ s)) in
      let dp := mkDW key page_cnt true page in
      let s := mkDWB (max_pages_ s) (header_page_cnt s) (<[key := dp]> (dblwr_pages_ s)) in
      let '(s, header) :=
        (if header_page_cnt s <? page_cnt + 1
         then (mkDWB (max_pages_ s) (page_cnt + 1) (dblwr_pages_ s), [WHeader (page_cnt + 1)]) else (s, [])) in
      let '(s, flush) := (if max_pages_ s <=? Z.of_nat (size (dblwr_pages_ s)) then dw_flush_page s else (s, [])) in
      (s, write_page_internal dp ++ header ++ flush)
  end.

(** [src/src/observer/storage/buffer/double_write_buffer.cpp:182-194] [DiskDoubleWriteBuffer::read_page] *)
Definition read_page s (key : PageKey) : RC * option PageImage :=
  match dblwr_pages_ s !! key with
  | Some dp => (RC_SUCCESS, Some (dw_page dp))
  | None => (RC_BUFFERPOOL_INVALID_PAGE_NUM, None)
  end.

(** [src/src/observer/storage/buffer/double_write_buffer.cpp:196-236] [DiskDoubleWriteBuffer::clear_pages]
    [sorted] are the pages of the pool in the order of their numbers *)
Definition clear_pages s (pool : Z) (sorted : gmap PageKey DoubleWritePage → list DoubleWritePage) : DoubleWriteBuffer * list Write :=
  let mine := filter (λ kv : PageKey * DoubleWritePage, kv.1.1 = pool) (dblwr_pages_ s) in
  (mkDWB (max_pages_ s) (header_page_cnt s) (filter (λ kv : PageKey * DoubleWritePage, kv.1.1 ≠ pool) (dblwr_pages_ s)),
   concat (map (λ dp, WMain (dw_key dp) (dw_page dp) :: write_page_internal (invalidate dp)) (sorted mine))).

Definition load_slot (m : gmap PageKey DoubleWritePage) (dp : DoubleWritePage) : gmap PageKey DoubleWritePage :=
  if checksum_ok (dw_page dp) then
    match m !! dw_key dp with Some _ => m | None => <[dw_key dp := dp]> m end
  else m.

(** [src/src/observer/storage/buffer/double_write_buffer.cpp:238-292] [DiskDoubleWriteBuffer::load_pages] *)
Definition load_pages (max_pages : Z) d : RC * DoubleWriteBuffer :=
  (if (Z.to_nat (disk_cnt d) <=? length (slots d))%nat then RC_SUCCESS else RC_IOERR_READ,
   mkDWB max_pages (disk_cnt d) (foldl load_slot ∅ (take (Z.to_nat (disk_cnt d)) (slots d)))).

(** [src/src/observer/storage/buffer/double_write_buffer.cpp:294-297] [DiskDoubleWriteBuffer::recover] after
    the file has been opened *)
Definition restart (max_pages : Z) d : DoubleWriteBuffer * list Write := dw_flush_page (load_pages max_pages d).2.
End operations.

(** [src/src/observer/storage/buffer/double_write_buffer.cpp:300-303] [VacuousDoubleWriteBuffer::add_page] *)
Definition vacuous_add_page (key : PageKey) (page : PageImage) : list Write := [WMain key page].

(** ** Crashes *)

(** A torn write leaves a slot whose checksum is wrong, or any image of the page; the four bytes of the
    header are written at once.  The checksum covers the data of the page only: that a tear which keeps the data complete
    keeps also the key and the flag of the slot is an assumption. *)
Inductive torn (d : DWDisk) : Write → DWDisk → Prop :=
  | torn_slot dp bad : checksum_ok (dw_page bad) = false → torn d (WSlot dp) (put_slot d (page_index dp) bad)
  | torn_main k p p' : torn d (WMain k p) (put_main d k p').

(** The disk after a crash in a sequence of writes. *)
Inductive crash : DWDisk → list Write → DWDisk → Prop :=
  | crash_now d ws : crash d ws d
  | crash_torn d w ws d' : torn d w d' → crash d (w :: ws) d'
  | crash_later d w ws d' : crash (apply_write d w) ws d' → crash d (w :: ws) d'.

(** The image of a page that a reader of the running system gets. *)
Definition page_view (s : DoubleWriteBuffer) (d : DWDisk) (k : PageKey) : option PageImage :=
  match dblwr_pages_ s !! k with Some dp => Some (dw_page dp) | None => main_pages d !! k end.

(** ** Invariant *)

Definition slot (d : DWDisk) (i : Z) : option DoubleWritePage := if 0 <=? i then slots d !! Z.to_nat i else None.

(** [P] are the pages whose newest image is in the shared file only. *)
Record disk_ok (P : gmap PageKey DoubleWritePage) (d : DWDisk) : Prop := {
  dk_cnt : 0 ≤ disk_cnt d ≤ Z.of_nat (length (slots d));
  dk_index : ∀ i dp, slot d i = Some dp → checksum_ok (dw_page dp) = true → page_index dp = i;
  dk_pending : ∀ k dp, P !! k = Some dp → dw_key dp = k ∧ dw_valid dp = true ∧ checksum_ok (dw_page dp) = true ∧
    page_index dp < disk_cnt d ∧ slot d (page_index dp) = Some dp;
  dk_valid : ∀ i dp, i < disk_cnt d → slot d i = Some dp → checksum_ok (dw_page dp) = true → dw_valid dp = true →
    P !! dw_key dp = Some dp;
  dk_first : ∀ k dp i dp', P !! k = Some dp → i < page_index dp → slot d i = Some dp' →
    checksum_ok (dw_page dp') = true → dw_key dp' ≠ k;
}.

(** The invariant of the running buffer. *)
Record dwb_ok (s : DoubleWriteBuffer) (d : DWDisk) : Prop := {
  do_disk : disk_ok (dblwr_pages_ s) d;
  do_header : header_page_cnt s ≤ disk_cnt d;
  do_index : ∀ k dp, dblwr_pages_ s !! k = Some dp → page_index dp < Z.of_nat (size (dblwr_pages_ s));
  do_slots : ∀ i, 0 ≤ i < Z.of_nat (size (dblwr_pages_ s)) → ∃ dp, slot d i = Some dp ∧ dblwr_pages_ s !! dw_key dp = Some dp;
}.

(** What the disk and the pending pages say about a page. *)
Definition disk_view (P : gmap PageKey DoubleWritePage) (d : DWDisk) (k : PageKey) : option PageImage :=
  match P !! k with Some dp => Some (dw_page dp) | None => main_pages d !! k end.

(** ** Lemmas on slots *)

Lemma slot_range d i dp : slot d i = Some dp → 0 ≤ i < Z.of_nat (length (slots d)).
Proof. unfold slot. case_bool; [|done]. intros Hl%lookup_lt_Some. lia. Qed.

Lemma slot_put d i x j :
  0 ≤ i ≤ Z.of_nat (length (slots d)) → slot (put_slot d i x) j = if decide (i = j) then Some x else slot d j.
Proof.
  intros Hi. unfold slot, put_slot. cbn [slots]. destruct (0 <=? j) eqn:Ej; zify_bool; cycle 1.
  { rewrite decide_False by lia. done. }
  destruct (_ <? _)%nat eqn:E.
  - apply Nat.ltb_lt in E. case_decide as D; [subst; by apply list_lookup_insert_eq|]. apply list_lookup_insert_ne. lia.
  - apply Nat.ltb_ge in E. case_decide as D.
    + subst j. rewrite lookup_app_r by lia. by replace (Z.to_nat i - length (slots d))%nat with 0%nat by lia.
    + destruct (decide (Z.to_nat j < length (slots d))%nat).
      * by rewrite lookup_app_l.
      * rewrite lookup_app_r by lia. rewrite (lookup_ge_None_2 (slots d)) by lia.
        apply lookup_ge_None_2. cbn. lia.
Qed.

Lemma put_slot_length d i x :
  Z.of_nat (length (slots (put_slot d i x))) = Z.max (Z.of_nat (length (slots d))) (Z.of_nat (Z.to_nat i) + 1)
  ∨ Z.of_nat (length (slots d)) < Z.of_nat (Z.to_nat i).
Proof.
  unfold put_slot. cbn [slots]. destruct (_ <? _)%nat eqn:E.
  - apply Nat.ltb_lt in E. rewrite length_insert. lia.
  - apply Nat.ltb_ge in E. rewrite length_app. cbn. lia.
Qed.

Lemma put_slot_grows d i x : Z.of_nat (length (slots d)) ≤ Z.of_nat (length (slots (put_slot d i x))).
Proof.
  unfold put_slot. cbn [slots]. case_match; [by rewrite length_insert|]. rewrite length_app. lia.
Qed.

(** ** Reading the shared file *)

Fixpoint first_good (l : list DoubleWritePage) (k : PageKey) : option DoubleWritePage :=
  match l with
  | [] => None
  | dp :: l => if checksum_ok (dw_page dp) && bool_decide (dw_key dp = k) then Some dp else first_good l k
  end.

Lemma load_lookup l : ∀ m k, foldl load_slot m l !! k = match m !! k with Some dp => Some dp | None => first_good l k end.
Proof.
  induction l as [|dp l IH]; intros m k; cbn [foldl first_good]; [by destruct (m !! k)|].
  rewrite IH. unfold load_slot. destruct (checksum_ok (dw_page dp)); [|done]. cbn [andb].
  destruct (m !! dw_key dp) as [x|] eqn:E.
  - destruct (m !! k) as [y|] eqn:Ek; [done|]. rewrite bool_decide_false; [done|]. intros <-. congruence.
  - destruct (decide (dw_key dp = k)) as [<-|Hne].
    + by rewrite lookup_insert_eq, E, bool_decide_true.
    + rewrite lookup_insert_ne by done. by rewrite bool_decide_false.
Qed.

Lemma first_good_spec l k :
  match first_good l k with
  | Some dp => ∃ i, l !! i = Some dp ∧ checksum_ok (dw_page dp) = true ∧ dw_key dp = k ∧
      ∀ j dp', (j < i)%nat → l !! j = Some dp' → checksum_ok (dw_page dp') = true → dw_key dp' ≠ k
  | None => ∀ j dp', l !! j = Some dp' → checksum_ok (dw_page dp') = true → dw_key dp' ≠ k
  end.
Proof.
  induction l as [|dp l IH]; cbn [first_good]; [done|].
  destruct (checksum_ok (dw_page dp) && bool_decide (dw_key dp = k)) eqn:E.
  - apply andb_true_iff in E as [E1 E2%bool_decide_eq_true]. exists 0%nat. split_and!; try done. lia.
  - assert (Hdp : checksum_ok (dw_page dp) = true → dw_key dp ≠ k).
    { intros Hg Hk. rewrite Hg, bool_decide_true in E by done. done. }
    destruct (first_good l k) as [x|].
    + destruct IH as (i & H1 & H2 & H3 & H4). exists (S i). split_and!; try done.
      intros [|j] dp' Hj; cbn; [by intros [= <-]|]. apply H4. lia.
    + intros [|j] dp'; cbn; [by intros [= <-]|]. apply IH.
Qed.

(** The pages [load_pages] finds: every pending page, and otherwise only invalid ones. *)
Lemma loaded_page P d k :
  disk_ok P d →
  match first_good (take (Z.to_nat (disk_cnt d)) (slots d)) k with
  | Some dp => slot d (page_index dp) = Some dp ∧ checksum_ok (dw_page dp) = true ∧ dw_key dp = k ∧ (dw_valid dp = true → P !! k = Some dp)
  | None => True
  end ∧ (∀ dp, P !! k = Some dp → first_good (take (Z.to_nat (disk_cnt d)) (slots d)) k = Some dp).
Proof.
  intros Hok. pose proof (first_good_spec (take (Z.to_nat (disk_cnt d)) (slots d)) k) as Hs.
  pose proof (dk_cnt P d Hok) as Hcnt.
  assert (Hslot : ∀ j dp, take (Z.to_nat (disk_cnt d)) (slots d) !! j = Some dp → slot d (Z.of_nat j) = Some dp ∧ Z.of_nat j < disk_cnt d).
  { intros j dp [Hj Hlt]%lookup_take_Some. unfold slot. rewrite (proj2 (Z.leb_le _ _)), Nat2Z.id by lia. split; [done|lia]. }
  destruct (first_good _ k) as [dp|] eqn:E.
  - destruct Hs as (i & Hi & Hg & Hk & Hfirst). destruct (Hslot i dp Hi) as [Hsl Hlt].
    pose proof (dk_index P d Hok _ dp Hsl Hg) as Hidx. split.
    + rewrite Hidx. split_and!; try done. intros Hv. rewrite <- Hk. by apply (dk_valid P d Hok (Z.of_nat i)).
    + intros dp2 Hp. f_equal. destruct (dk_pending P d Hok k dp2 Hp) as (Hk2 & Hv2 & Hg2 & Hc2 & Hs2).
      pose proof (slot_range _ _ _ Hs2) as Hr2.
      destruct (Z.lt_trichotomy (Z.of_nat i) (page_index dp2)) as [Hl|[He|Hl]].
      * by destruct (dk_first P d Hok k dp2 (Z.of_nat i) dp Hp Hl Hsl Hg).
      * rewrite He in Hsl. congruence.
      * exfalso. apply (Hfirst (Z.to_nat (page_index dp2)) dp2); [lia| |done|done].
        apply lookup_take_Some. unfold slot in Hs2. rewrite (proj2 (Z.leb_le _ _)) in Hs2 by lia. split; [done|lia].
  - split; [done|]. intros dp2 Hp. destruct (dk_pending P d Hok k dp2 Hp) as (Hk2 & Hv2 & Hg2 & Hc2 & Hs2).
    pose proof (slot_range _ _ _ Hs2) as Hr2. exfalso. apply (Hs (Z.to_nat (page_index dp2)) dp2); [|done|done].
    apply lookup_take_Some. unfold slot in Hs2. rewrite (proj2 (Z.leb_le _ _)) in Hs2 by lia. split; [done|lia].
Qed.

(** ** Flushing *)

(** A page that is not pending any more. *)
Definition retire (P : gmap PageKey DoubleWritePage) (dp : DoubleWritePage) : gmap PageKey DoubleWritePage :=
  if dw_valid dp then delete (dw_key dp) P else P.

Lemma main_write P d k p : disk_ok P d → disk_ok P (put_main d k p).
Proof. intros [? ? ? ? ?]. by constructor. Qed.

(** The slot of a page is overwritten by an invalid copy, or torn. *)
Lemma slot_retired P d dp x :
  disk_ok P d → slot d (page_index dp) = Some dp → checksum_ok (dw_page dp) = true →
  (dw_valid dp = true → P !! dw_key dp = Some dp) →
  checksum_ok (dw_page x) = false ∨ x = invalidate dp →
  disk_ok (retire P dp) (put_slot d (page_index dp) x).
Proof.
  intros Hok Hs Hg Hv Hx. pose proof (slot_range _ _ _ Hs) as Hr.
  assert (Hsub : ∀ k dp', retire P dp !! k = Some dp' → P !! k = Some dp' ∧ (dw_valid dp = true → dw_key dp ≠ k)).
  { unfold retire. intros k dp'. destruct (dw_valid dp); [|done]. rewrite lookup_delete_Some. naive_solver. }
  assert (Hput : ∀ j, slot (put_slot d (page_index dp) x) j = if decide (page_index dp = j) then Some x else slot d j)
    by (intros j; apply slot_put; lia).
  pose proof (put_slot_grows d (page_index dp) x) as Hgr. destruct Hok as [Hc Hi Hp Hva Hf].
  constructor; cbn [disk_cnt put_slot] in *; fold (put_slot d (page_index dp) x) in *.
  - lia.
  - intros i y. rewrite Hput. case_decide as D; [|apply Hi]. intros [= <-] Hgx. subst i. destruct Hx as [Hx|Hx]; [congruence|by rewrite Hx].
  - intros k dp' [Hk Hne]%Hsub. destruct (Hp k dp' Hk) as (H1 & H2 & H3 & H4 & H5). split_and!; try done.
    rewrite Hput. case_decide as D; [|done]. exfalso. rewrite <- D, Hs in H5. injection H5 as <-. by apply Hne.
  - intros i y Hic. rewrite Hput. case_decide as D.
    + intros [= <-] Hgx Hvx. destruct Hx as [Hx|Hx]; [congruence|by rewrite Hx in Hvx].
    + intros Hy Hgy Hvy. pose proof (Hva i y Hic Hy Hgy Hvy) as Hpy. unfold retire. destruct (dw_valid dp) eqn:Ev; [|done].
      apply lookup_delete_Some. split; [|done]. intros Heq. rewrite <- Heq, Hv in Hpy by done. injection Hpy as <-.
      apply D. symmetry. rewrite <- (Hi i dp Hy Hg). done.
  - intros k dp' i y [Hk Hne]%Hsub Hlt. rewrite Hput. case_decide as D; [|by apply (Hf k dp' i y)].
    intros [= <-] Hgx. destruct Hx as [Hx|Hx]; [congruence|]. rewrite Hx. cbn. destruct (dw_valid dp) eqn:Ev; [by apply Hne|].
    apply (Hf k dp' i dp); [done|done|by rewrite <- D|done].
Qed.

Definition flush_writes (l : list DoubleWritePage) : list Write :=
  concat (map (λ dp, write_page dp ++ write_page_internal (invalidate dp)) l).

(** The pages a flush works on: those of the shared file, each once. *)
Definition flushable (P : gmap PageKey DoubleWritePage) d (l : list DoubleWritePage) : Prop :=
  NoDup (map dw_key l) ∧
  ∀ dp, dp ∈ l → slot d (page_index dp) = Some dp ∧ checksum_ok (dw_page dp) = true ∧
    (dw_valid dp = true → P !! dw_key dp = Some dp).

Lemma flushable_step P d dp l x :
  flushable P d (dp :: l) → disk_ok P d →
  flushable (retire P dp) (put_slot d (page_index dp) x) l.
Proof.
  intros [[Hni Hnd]%NoDup_cons Hall] Hok. split; [done|]. intros dp' Hin.
  destruct (Hall dp) as (Hs & Hg & Hv); [apply list_elem_of_here|]. destruct (Hall dp') as (Hs' & Hg' & Hv'); [by apply list_elem_of_further|].
  assert (Hne : dw_key dp ≠ dw_key dp').
  { intros E. apply Hni. rewrite E. by apply (list_elem_of_fmap_2 dw_key). }
  pose proof (slot_range _ _ _ Hs). split; [|split; [done|]].
  - rewrite slot_put by lia. case_decide as D; [|done]. rewrite <- D, Hs in Hs'. congruence.
  - intros Hv0. unfold retire. destruct (dw_valid dp); [|by apply Hv']. rewrite lookup_delete_ne by done. by apply Hv'.
Qed.

(** Retiring a page whose image has been written to its file. *)
Lemma retire_view P d dp x k :
  (dw_valid dp = true → P !! dw_key dp = Some dp ∧ main_pages d !! dw_key dp = Some (dw_page dp)) →
  disk_view (retire P dp) (put_slot d (page_index dp) x) k = disk_view P d k.
Proof.
  intros Hv. unfold disk_view, retire. cbn [main_pages put_slot]. destruct (dw_valid dp); [|done].
  destruct Hv as [Hp Hm]; [done|]. destruct (decide (dw_key dp = k)) as [<-|Hne].
  - by rewrite lookup_delete_eq, Hp, Hm.
  - by rewrite lookup_delete_ne.
Qed.

Lemma put_main_view P d k p dp k' :
  P !! k = Some dp → disk_view P (put_main d k p) k' = disk_view P d k'.
Proof.
  intros Hp. unfold disk_view. cbn [main_pages put_main]. destruct (decide (k = k')) as [<-|Hne]; [by rewrite Hp|].
  by rewrite lookup_insert_ne.
Qed.

(** The writes of one page of a flush. *)
Lemma flush_one_crash P d dp ws dc :
  disk_ok P d → slot d (page_index dp) = Some dp → checksum_ok (dw_page dp) = true →
  (dw_valid dp = true → P !! dw_key dp = Some dp) →
  crash d (write_page dp ++ write_page_internal (invalidate dp) ++ ws) dc →
  (∃ P', disk_ok P' dc ∧ ∀ k, disk_view P' dc k = disk_view P d k) ∨
  crash (apply_writes d (write_page dp ++ write_page_internal (invalidate dp))) ws dc.
Proof.
  intros Hok Hs Hg Hv. unfold write_page. destruct (dw_valid dp) eqn:Ev.
  - specialize (Hv eq_refl). cbn [app write_page_internal]. intros Hc.
    inversion Hc as [|? ? ? ? Ht|? ? ? ? Hc1]; subst; [by left; exists P| |].
    + left. exists P. inversion Ht; subst. split; [by apply main_write|]. intros k. by eapply put_main_view.
    + inversion Hc1 as [|? ? ? ? Ht|? ? ? ? Hc2]; subst; [| |by right].
      * left. exists P. split; [by apply main_write|]. intros k. cbn. by eapply put_main_view.
      * left. inversion Ht as [? bad Hbad|]; subst. cbn [invalidate page_index apply_write].
        exists (retire P dp). split; [apply slot_retired; [by apply main_write|done..|by left]|].
        intros k. rewrite retire_view; [by eapply put_main_view|]. intros _. split; [done|]. apply lookup_insert_eq.
  - cbn [app write_page_internal]. intros Hc. inversion Hc as [|? ? ? ? Ht|? ? ? ? Hc2]; subst; [by left; exists P| |by right].
    left. inversion Ht as [? bad Hbad|]; subst. cbn [invalidate page_index].
    exists (retire P dp). split; [apply slot_retired; [done..|by rewrite Ev|by left]|].
    intros k. apply retire_view. congruence.
Qed.

Lemma flush_one_done P d dp :
  disk_ok P d → slot d (page_index dp) = Some dp → checksum_ok (dw_page dp) = true →
  (dw_valid dp = true → P !! dw_key dp = Some dp) →
  let d' := apply_writes d (write_page dp ++ write_page_internal (invalidate dp)) in
  disk_ok (retire P dp) d' ∧ (∀ k, disk_view (retire P dp) d' k = disk_view P d k) ∧
  ∃ d1, d' = put_slot d1 (page_index dp) (invalidate dp) ∧ slots d1 = slots d ∧ disk_cnt d1 = disk_cnt d.
Proof.
  intros Hok Hs Hg Hv. unfold write_page. destruct (dw_valid dp) eqn:Ev; cbn [app write_page_internal apply_writes foldl apply_write invalidate page_index].
  - specialize (Hv eq_refl). split_and!.
    + apply slot_retired; [by apply main_write|done..|by right].
    + intros k. rewrite retire_view; [by eapply put_main_view|]. intros _. split; [done|]. apply lookup_insert_eq.
    + by eexists.
  - split_and!.
    + apply slot_retired; [done..|by rewrite Ev|by right].
    + intros k. apply retire_view. congruence.
    + by eexists.
Qed.

(** A flush: a crash anywhere in it loses nothing, and its end leaves nothing pending. *)
Lemma flush_writes_ok l : ∀ P d,
  disk_ok P d → flushable P d l →
  (∀ dc, crash d (flush_writes l) dc → ∃ P', disk_ok P' dc ∧ ∀ k, disk_view P' dc k = disk_view P d k) ∧
  ∃ P', disk_ok P' (apply_writes d (flush_writes l)) ∧ disk_cnt (apply_writes d (flush_writes l)) = disk_cnt d ∧
    (∀ k, disk_view P' (apply_writes d (flush_writes l)) k = disk_view P d k) ∧
    (∀ k dp, P' !! k = Some dp → P !! k = Some dp ∧ dp ∉ l) ∧
    ∀ k dp, P !! k = Some dp → k ∉ map dw_key l → P' !! k = Some dp.
Proof.
  induction l as [|dp l IH]; intros P d Hok Hfl.
  { split.
    - intros dc Hc. inversion Hc; subst. by exists P.
    - exists P. split_and!; try done. intros k dp Hp. split; [done|apply not_elem_of_nil]. }
  pose proof Hfl as [_ Hall]. destruct (Hall dp) as (Hs & Hg & Hv); [apply list_elem_of_here|].
  destruct (flush_one_done P d dp Hok Hs Hg Hv) as (Hok1 & Hview1 & d1 & Hd1 & Hsl & Hcnt1).
  set (d' := apply_writes d (write_page dp ++ write_page_internal (invalidate dp))) in *.
  assert (Hfl1 : flushable (retire P dp) d' l).
  { rewrite Hd1. destruct (flushable_step P d dp l (invalidate dp) Hfl Hok) as [Hnd Hall1]. split; [done|].
    intros dp' Hin. destruct (Hall1 dp' Hin) as (H1 & H2 & H3). split_and!; try done. rewrite <- H1.
    unfold slot, put_slot. cbn [slots]. by rewrite Hsl. }
  destruct (IH (retire P dp) d' Hok1 Hfl1) as [Hcrash Hdone].
  change (flush_writes (dp :: l)) with ((write_page dp ++ write_page_internal (invalidate dp)) ++ flush_writes l).
  split.
  - intros dc Hc. rewrite <- app_assoc in Hc. destruct (flush_one_crash P d dp _ dc Hok Hs Hg Hv Hc) as [?|Hc']; [done|].
    destruct (Hcrash dc Hc') as (P' & ? & Hv'). exists P'. split; [done|]. intros k. by rewrite Hv', Hview1.
  - unfold apply_writes. rewrite foldl_app. fold (apply_writes d (write_page dp ++ write_page_internal (invalidate dp))). fold d'.
    destruct Hdone as (P' & H1 & H2 & H3 & H4 & H5). exists P'. split_and!; [done| | | |].
    + unfold apply_writes in H2. rewrite H2, Hd1. cbn. done.
    + intros k. unfold apply_writes in H3. by rewrite H3, Hview1.
    + intros k dp' Hp. destruct (H4 k dp' Hp) as [Hr Hn]. unfold retire in Hr. destruct (dw_valid dp) eqn:Ev.
      * apply lookup_delete_Some in Hr as [Hne Hr]. split; [done|]. rewrite not_elem_of_cons. split; [|done].
        intros ->. apply Hne. by destruct (dk_pending P d Hok k dp Hr).
      * split; [done|]. rewrite not_elem_of_cons. split; [|done]. intros ->. destruct (dk_pending P d Hok k dp Hr) as (_ & ? & _). congruence.
    + intros k dp' Hp [Hne Hn]%not_elem_of_cons. apply H5; [|done]. unfold retire. case_match; [|done]. by rewrite lookup_delete_ne.
Qed.

Lemma crash_end d ws : crash d ws (apply_writes d ws).
Proof. revert d. induction ws as [|w ws IH]; intros d; [constructor|]. apply crash_later, IH. Qed.

Section protection.
Variable iteration : gmap PageKey DoubleWritePage → list DoubleWritePage.
Hypothesis iteration_perm : ∀ m, iteration m ≡ₚ (map_to_list m).*2.
Implicit Types (s : DoubleWriteBuffer) (d : DWDisk).

Lemma iteration_elem m dp : dp ∈ iteration m ↔ ∃ k, m !! k = Some dp.
Proof using iteration_perm.
  rewrite iteration_perm, list_elem_of_fmap. split.
  - intros ([k x] & -> & Hx%elem_of_map_to_list). by exists k.
  - intros [k Hk]. exists (k, dp). split; [done|]. by apply elem_of_map_to_list.
Qed.

(** A map whose entries are in the shared file can be flushed. *)
Lemma flushable_map P d m :
  (∀ k dp, m !! k = Some dp → dw_key dp = k ∧ slot d (page_index dp) = Some dp ∧ checksum_ok (dw_page dp) = true ∧
     (dw_valid dp = true → P !! k = Some dp)) →
  flushable P d (iteration m).
Proof using iteration_perm.
  intros Hm. split.
  - rewrite (fmap_Permutation dw_key _ _ (iteration_perm m)).
    assert (dw_key <$> (map_to_list m).*2 = (map_to_list m).*1) as ->; [|apply NoDup_fst_map_to_list].
    rewrite <- list_fmap_compose. apply list_fmap_ext. intros i [k dp] Hi. cbn.
    apply list_elem_of_lookup_2, elem_of_map_to_list in Hi. by destruct (Hm k dp Hi).
  - intros dp [k Hk]%iteration_elem. destruct (Hm k dp Hk) as (<- & ? & ? & ?). done.
Qed.

Lemma empty_dwb_ok mx P d :
  disk_ok P d → (∀ k, P !! k = None) → dwb_ok (mkDWB mx 0 ∅) d.
Proof.
  intros Hok HP. assert (P = ∅) as -> by (by apply map_empty). constructor; cbn.
  - done.
  - destruct (dk_cnt _ _ Hok). lia.
  - intros k dp. by rewrite lookup_empty.
  - intros i Hi. rewrite map_size_empty in Hi. lia.
Qed.

(** Reopening the shared file after a crash and flushing it. *)
Lemma dw_restart_ok mx P d s' ws :
  disk_ok P d → restart iteration mx d = (s', ws) →
  (load_pages mx d).1 = RC_SUCCESS ∧ dwb_ok s' (apply_writes d ws) ∧
  (∀ k, main_pages (apply_writes d ws) !! k = disk_view P d k) ∧
  (∀ k, page_view s' (apply_writes d ws) k = disk_view P d k) ∧
  ∀ dc, crash d ws dc → ∃ P', disk_ok P' dc ∧ ∀ k, disk_view P' dc k = disk_view P d k.
Proof using iteration_perm.
  intros Hok. unfold restart, dw_flush_page, load_pages. cbn [snd fst dblwr_pages_ max_pages_]. intros [= <- <-].
  set (m := foldl load_slot ∅ _). pose proof (dk_cnt P d Hok).
  assert (Hm : ∀ k, m !! k = first_good (take (Z.to_nat (disk_cnt d)) (slots d)) k) by (intros k; unfold m; by rewrite load_lookup, lookup_empty).
  assert (Hfl : flushable P d (iteration m)).
  { apply flushable_map. intros k dp. rewrite Hm. intros Hk. destruct (loaded_page P d k Hok) as [Hl _]. rewrite Hk in Hl. naive_solver. }
  destruct (flush_writes_ok (iteration m) P d Hok Hfl) as (Hcrash & P' & Hok' & Hcnt' & Hview & Hrest & _).
  fold (flush_writes (iteration m)).
  assert (HP' : ∀ k, P' !! k = None).
  { intros k. apply eq_None_not_Some. intros [dp Hp]. destruct (Hrest k dp Hp) as [Hpk Hn]. apply Hn, iteration_elem. exists k.
    rewrite Hm. by apply (loaded_page P d k Hok). }
  split_and!.
  - by rewrite (proj2 (Nat.leb_le _ _)) by lia.
  - by eapply empty_dwb_ok.
  - intros k. rewrite <- Hview. unfold disk_view. by rewrite HP'.
  - intros k. unfold page_view. cbn. rewrite lookup_empty, <- Hview. unfold disk_view. by rewrite HP'.
  - exact Hcrash.
Qed.

(** Flushing the running buffer. *)
Lemma flush_ok s d s' ws :
  dwb_ok s d → dw_flush_page iteration s = (s', ws) →
  dwb_ok s' (apply_writes d ws) ∧ (∀ k, page_view s' (apply_writes d ws) k = page_view s d k) ∧
  ∀ dc, crash d ws dc → ∃ P', disk_ok P' dc ∧ ∀ k, disk_view P' dc k = page_view s d k.
Proof using iteration_perm.
  intros [Hok Hh Hi Hs] [= <- <-]. fold (flush_writes (iteration (dblwr_pages_ s))).
  assert (Hfl : flushable (dblwr_pages_ s) d (iteration (dblwr_pages_ s))).
  { apply flushable_map. intros k dp Hk. destruct (dk_pending _ d Hok k dp Hk) as (? & ? & ? & ? & ?). done. }
  destruct (flush_writes_ok _ _ d Hok Hfl) as (Hcrash & P' & Hok' & Hcnt' & Hview & Hrest & _).
  assert (HP' : ∀ k, P' !! k = None).
  { intros k. apply eq_None_not_Some. intros [dp Hp]. destruct (Hrest k dp Hp) as [Hpk Hn]. apply Hn, iteration_elem. by exists k. }
  split_and!; [by eapply empty_dwb_ok| |exact Hcrash].
  intros k. unfold page_view at 1. cbn. rewrite lookup_empty. pose proof (Hview k) as Hv. unfold disk_view at 1 in Hv. rewrite HP' in Hv. done.
Qed.

(** A valid page is written to a slot no other pending page uses; the count may grow over that slot. *)
Lemma slot_written P d key i dp c :
  disk_ok P d → dw_key dp = key → dw_valid dp = true → checksum_ok (dw_page dp) = true → page_index dp = i →
  0 ≤ i ≤ Z.of_nat (length (slots d)) → i < c ≤ Z.of_nat (length (slots (put_slot d i dp))) →
  (∀ j, disk_cnt d ≤ j < c → j = i) → (∀ k dq, P !! k = Some dq → page_index dq < c) →
  (∀ k dq, P !! k = Some dq → page_index dq = i ↔ k = key) →
  (∀ j dq, j < i → slot d j = Some dq → checksum_ok (dw_page dq) = true → dw_key dq ≠ key) →
  disk_ok (<[key := dp]> P) (mkDisk c (slots (put_slot d i dp)) (main_pages d)).
Proof.
  intros Hok Hkey Hv Hg Hidx Hi Hcnt Hnew Hold Huse Hfirst. set (d' := mkDisk c _ _).
  assert (Hput : ∀ j, slot d' j = if decide (i = j) then Some dp else slot d j).
  { intros j. change (slot d' j) with (slot (put_slot d i dp) j). by apply slot_put. }
  destruct Hok as [H1 H2 H3 H4 H5]. constructor; cbn [disk_cnt d'].
  - cbn [slots d']. lia.
  - intros j y. rewrite Hput. case_decide as D; [intros [= <-]; congruence|apply H2].
  - intros k y [[<- <-]|[Hne Hy]]%lookup_insert_Some.
    + split_and!; try done; [by rewrite Hidx; lia|]. rewrite Hput, Hidx. by rewrite decide_True.
    + destruct (H3 k y Hy) as (? & ? & ? & ? & ?). split_and!; try done; [by apply (Hold k)|]. rewrite Hput, decide_False; [done|].
      intros E. apply Hne. symmetry. by apply (Huse k y Hy).
  - intros j y Hjc. rewrite Hput. case_decide as D.
    + intros [= <-] _ _. rewrite Hkey. apply lookup_insert_eq.
    + intros Hy Hgy Hvy. assert (Hjd : j < disk_cnt d) by (destruct (decide (j < disk_cnt d)); [done|destruct D; symmetry; apply Hnew; lia]).
      pose proof (H4 j y Hjd Hy Hgy Hvy) as Hpy. rewrite lookup_insert_ne; [done|].
      intros Heq. apply D. rewrite <- (H2 j y Hy Hgy). symmetry. by apply (Huse (dw_key y) y Hpy).
  - intros k y j z [[<- <-]|[Hne Hy]]%lookup_insert_Some Hlt; rewrite Hput.
    + rewrite decide_False by lia. apply Hfirst. lia.
    + case_decide as D; [|by apply (H5 k y j z)]. intros [= <-] _. congruence.
Qed.

(** A slot no pending page uses is torn, or written beyond the count. *)
Lemma slot_unused P d i x :
  disk_ok P d → 0 ≤ i ≤ Z.of_nat (length (slots d)) → (∀ k dq, P !! k = Some dq → page_index dq ≠ i) →
  checksum_ok (dw_page x) = false ∨ (disk_cnt d ≤ i ∧ page_index x = i) → disk_ok P (put_slot d i x).
Proof.
  intros Hok Hi Huse Hx.
  assert (Hput : ∀ j, slot (put_slot d i x) j = if decide (i = j) then Some x else slot d j) by (intros j; by apply slot_put).
  pose proof (put_slot_grows d i x). destruct Hok as [H1 H2 H3 H4 H5].
  constructor; cbn [disk_cnt put_slot] in *; fold (put_slot d i x) in *.
  - lia.
  - intros j y. rewrite Hput. case_decide as D; [|apply H2]. intros [= <-] Hg. subst j. destruct Hx as [Hx|[_ Hx]]; [congruence|done].
  - intros k y Hy. destruct (H3 k y Hy) as (? & ? & ? & ? & ?). split_and!; try done. rewrite Hput, decide_False; [done|].
    intros E. by apply (Huse k y Hy).
  - intros j y Hjc. rewrite Hput. case_decide as D; [|by apply H4]. intros [= <-] Hg. destruct Hx as [Hx|[Hx _]]; [congruence|lia].
  - intros k y j z Hy Hlt. rewrite Hput. case_decide as D; [|by apply (H5 k y j z)]. intros [= <-] Hg.
    destruct Hx as [Hx|[Hx _]]; [congruence|]. destruct (H3 k y Hy) as (_ & _ & _ & ? & _). lia.
Qed.

(** A crash leaves every page but [key] as it was last accepted, and [key] as it was, as it was to
    become, or as it is in its own file. *)
Definition survives s d (key : PageKey) (page : PageImage) dc : Prop :=
  ∃ P', disk_ok P' dc ∧ (∀ k, k ≠ key → disk_view P' dc k = page_view s d k) ∧
    (disk_view P' dc key = page_view s d key ∨ disk_view P' dc key = Some page ∨ disk_view P' dc key = main_pages d !! key).

(** The state and the crashes when [page] has reached its slot. *)
Definition accepted s d (key : PageKey) (page : PageImage) s' d' : Prop :=
  dwb_ok s' d' ∧ ∀ k, page_view s' d' k = if decide (k = key) then Some page else page_view s d k.

(** The slots of different pending pages differ. *)
Lemma pending_index P d key dp k dq :
  disk_ok P d → P !! key = Some dp → P !! k = Some dq → page_index dq = page_index dp ↔ k = key.
Proof.
  intros Hok Hp Hq. destruct (dk_pending P d Hok key dp Hp) as (<- & _ & _ & _ & Hs).
  destruct (dk_pending P d Hok k dq Hq) as (<- & _ & _ & _ & Hsq). split; [|congruence].
  intros E. rewrite E, Hs in Hsq. congruence.
Qed.

(** The page is in the buffer already: its slot is overwritten. *)
Lemma add_hit_ok s d key page dp s' ws :
  dwb_ok s d → checksum_ok page = true → dblwr_pages_ s !! key = Some dp → add_page iteration s key page = (s', ws) →
  accepted s d key page s' (apply_writes d ws) ∧ ∀ dc, crash d ws dc → survives s d key page dc.
Proof.
  intros [Hok Hh Hi Hs] Hgood Hk. unfold add_page. rewrite Hk. intros [= <- <-].
  destruct (dk_pending _ d Hok key dp Hk) as (Hkey & Hv & Hg & Hc & Hsl). pose proof (slot_range _ _ _ Hsl) as Hr.
  set (dp' := mkDW (dw_key dp) (page_index dp) (dw_valid dp) page). set (P' := <[key := dp']> (dblwr_pages_ s)).
  change (write_page_internal dp') with [WSlot dp']. change (apply_writes d [WSlot dp']) with (put_slot d (page_index dp) dp').
  assert (Hok' : disk_ok P' (put_slot d (page_index dp) dp')).
  { pose proof (dk_cnt _ d Hok). pose proof (put_slot_grows d (page_index dp) dp').
    apply (slot_written _ d key (page_index dp) dp' (disk_cnt d)); try done; [lia..| | |].
    - intros k dq Hq. by destruct (dk_pending _ d Hok k dq Hq) as (_ & _ & _ & ? & _).
    - intros k dq Hq. by eapply pending_index.
    - intros j dq. by apply (dk_first _ d Hok key dp). }
  assert (Hsize : size P' = size (dblwr_pages_ s)) by (by apply map_size_insert_Some).
  split; [split|].
  - constructor; cbn [dblwr_pages_ header_page_cnt]; rewrite ?Hsize; [done|done| |].
    + intros k y. unfold P'. intros [[<- <-]|[_ Hy]]%lookup_insert_Some; [by apply (Hi key dp)|by apply (Hi k)].
    + intros i Hir. destruct (Hs i Hir) as (y & Hy & Hpy). rewrite slot_put by lia. case_decide as D.
      * exists dp'. split; [done|]. cbn [dw_key dp']. rewrite Hkey. apply lookup_insert_eq.
      * exists y. split; [done|]. unfold P'. rewrite lookup_insert_ne; [done|]. intros Heq. apply D.
        destruct (dk_pending _ d Hok _ y Hpy) as (_ & _ & Hgy & _). rewrite <- (dk_index _ d Hok i y Hy Hgy).
        symmetry. by apply (pending_index _ d key dp (dw_key y) y Hok Hk Hpy).
  - intros k. unfold page_view. cbn [dblwr_pages_]. unfold P'. case_decide as D; [subst k; by rewrite lookup_insert_eq|]. by rewrite lookup_insert_ne.
  - intros dc Hcr. inversion Hcr as [|? ? ? ? Ht|? ? ? ? Hc2].
    + subst dc. exists (dblwr_pages_ s). split_and!; [done|done|by left].
    + inversion Ht as [? bad Hbad Hd1 Hd2|]. subst dc. exists (retire (dblwr_pages_ s) dp). change (page_index dp') with (page_index dp).
      split_and!; [apply slot_retired; [done..|by rewrite Hkey|by left]| |].
      * intros k Hne. unfold disk_view, retire, page_view. by rewrite Hv, Hkey, lookup_delete_ne.
      * right; right. unfold disk_view, retire. by rewrite Hv, Hkey, lookup_delete_eq.
    + inversion Hc2. subst dc. exists P'. split_and!; [done| |].
      * intros k Hne. unfold disk_view, page_view, P'. by rewrite lookup_insert_ne.
      * right; left. unfold disk_view, P'. by rewrite lookup_insert_eq.
Qed.

(** The slots below the number of pending pages are theirs. *)
Lemma dwb_slots_length s d : dwb_ok s d → Z.of_nat (size (dblwr_pages_ s)) ≤ disk_cnt d ≤ Z.of_nat (length (slots d)).
Proof.
  intros [Hok _ _ Hs]. pose proof (dk_cnt _ d Hok). split; [|lia].
  destruct (decide (size (dblwr_pages_ s) = 0%nat)); [lia|].
  assert (Hr : 0 ≤ Z.of_nat (size (dblwr_pages_ s)) - 1 < Z.of_nat (size (dblwr_pages_ s))) by lia.
  destruct (Hs _ Hr) as (dp & Hsl & Hp).
  destruct (dk_pending _ d Hok _ dp Hp) as (_ & _ & Hg & Hc & _). rewrite (dk_index _ d Hok _ dp Hsl Hg) in Hc. lia.
Qed.

(** The state after a new page has reached its slot and the count covers it. *)
Lemma new_page_ok s d key page h c :
  dwb_ok s d → checksum_ok page = true → dblwr_pages_ s !! key = None →
  let n := Z.of_nat (size (dblwr_pages_ s)) in let dp := mkDW key n true page in
  n < c → c = disk_cnt d ∨ c = n + 1 → h ≤ c →
  let s' := mkDWB (max_pages_ s) h (<[key := dp]> (dblwr_pages_ s)) in
  let d' := mkDisk c (slots (put_slot d n dp)) (main_pages d) in
  disk_ok (dblwr_pages_ s') d' ∧ accepted s d key page s' d'.
Proof.
  intros Hdw Hgood Hk n. assert (En : n = Z.of_nat (size (dblwr_pages_ s))) by done. clearbody n. intros dp Hn Hc Hh s' d'. pose proof (dwb_slots_length s d Hdw) as [Hl1 Hl2]. destruct Hdw as [Hok Hhd Hi Hs].
  rewrite <- En in Hl1. pose proof (put_slot_grows d n dp) as Hgr.
  assert (H0n : 0 ≤ n ≤ Z.of_nat (length (slots d))) by lia.
  assert (Hlen : c ≤ Z.of_nat (length (slots (put_slot d n dp)))).
  { destruct (put_slot_length d n dp) as [E|E]; [|lia]. rewrite E. lia. }
  assert (Hput : ∀ j, slot d' j = if decide (n = j) then Some dp else slot d j).
  { intros j. change (slot d' j) with (slot (put_slot d n dp) j). apply slot_put. lia. }
  assert (Hok' : disk_ok (dblwr_pages_ s') d').
  { apply (slot_written (dblwr_pages_ s) d key n dp c); try done; [intros j Hj; lia| | |].
    - intros k dq Hq. pose proof (Hi k dq Hq). lia.
    - intros k dq Hq. split; [|congruence]. pose proof (Hi k dq Hq). lia.
    - intros j dq Hj Hsj Hgj Hkey. destruct (Hs j) as (y & Hy & Hpy).
      { split; [|lia]. apply (slot_range _ _ _ Hsj). } congruence. }
  assert (Hsize : size (dblwr_pages_ s') = S (size (dblwr_pages_ s))) by (by apply map_size_insert_None).
  split; [done|]. split.
  - constructor; [done|cbn; lia| |]; rewrite Hsize.
    + intros k y. cbn. intros [[<- <-]|[_ Hy]]%lookup_insert_Some; [cbn; lia|]. pose proof (Hi k y Hy). lia.
    + intros i Hir. rewrite Hput. case_decide as D; [exists dp; split; [done|apply lookup_insert_eq]|].
      destruct (Hs i ltac:(lia)) as (y & Hy & Hpy). exists y. split; [done|]. cbn. rewrite lookup_insert_ne; [done|congruence].
  - intros k. unfold page_view. cbn. case_decide as D; [subst k; by rewrite lookup_insert_eq|]. by rewrite lookup_insert_ne.
Qed.

Lemma crash_app_or d ws1 ws2 dc : crash d (ws1 ++ ws2) dc → crash d ws1 dc ∨ crash (apply_writes d ws1) ws2 dc.
Proof.
  revert d. induction ws1 as [|w ws1 IH]; intros d Hc; [by right|]. cbn [app] in Hc.
  inversion Hc as [|? ? ? ? Ht|? ? ? ? Hc2]; subst; [left; constructor|left; by apply crash_torn|].
  destruct (IH _ Hc2); [left; by apply crash_later|by right].
Qed.

(** A survivor of the accepted state. *)
Lemma accepted_survives s d key page s' d' P dc :
  accepted s d key page s' d' → disk_ok P dc → (∀ k, disk_view P dc k = page_view s' d' k) → survives s d key page dc.
Proof.
  intros [_ Hv] Hok Hd. exists P. split; [done|]. split.
  - intros k Hne. by rewrite Hd, Hv, decide_False.
  - right; left. by rewrite Hd, Hv, decide_True.
Qed.

(** The optional flush at the end of [add_page]. *)
Lemma then_flush_ok s d key page s1 d1 s2 ws :
  accepted s d key page s1 d1 →
  (s2, ws) = (if max_pages_ s1 <=? Z.of_nat (size (dblwr_pages_ s1)) then dw_flush_page iteration s1 else (s1, [])) →
  accepted s d key page s2 (apply_writes d1 ws) ∧ ∀ dc, crash d1 ws dc → survives s d key page dc.
Proof using iteration_perm.
  intros Hacc. pose proof Hacc as [Hok Hview]. destruct (_ <=? _).
  - intros E. symmetry in E. destruct (flush_ok s1 d1 s2 ws Hok E) as (Hok2 & Hv2 & Hc2). split.
    + split; [done|]. intros k. by rewrite Hv2.
    + intros dc Hc. destruct (Hc2 dc Hc) as (P & HP & Hd). by eapply accepted_survives.
  - intros [= -> ->]. split; [done|]. intros dc Hc. inversion Hc; subst. eapply accepted_survives; [done|apply (do_disk _ _ Hok)|done].
Qed.

(** The page is new in the buffer. *)
Lemma add_miss_ok s d key page s' ws :
  dwb_ok s d → checksum_ok page = true → dblwr_pages_ s !! key = None → add_page iteration s key page = (s', ws) →
  accepted s d key page s' (apply_writes d ws) ∧ ∀ dc, crash d ws dc → survives s d key page dc.
Proof using iteration_perm.
  intros Hdw Hgood Hk. pose proof (dwb_slots_length s d Hdw) as [Hl1 Hl2]. pose proof (do_header _ _ Hdw) as Hh.
  unfold add_page. rewrite Hk. cbv zeta. cbn [header_page_cnt max_pages_ dblwr_pages_].
  pose proof (λ h c, new_page_ok s d key page h c Hdw Hgood Hk) as Hnew. cbv zeta in Hnew.
  set (n := Z.of_nat (size (dblwr_pages_ s))) in *. assert (H0 : 0 ≤ n) by lia. set (dp := mkDW key n true page) in *.
  assert (Hsame : ∀ P, disk_ok P (put_slot d n dp) → P = dblwr_pages_ s ∨ P = <[key := dp]> (dblwr_pages_ s) → survives s d key page (put_slot d n dp)).
  { intros P HP [-> | ->]; eexists; (split; [exact HP|]); split.
    - done. - by left.
    - intros k Hne. unfold disk_view, page_view. by rewrite lookup_insert_ne.
    - right; left. unfold disk_view. by rewrite lookup_insert_eq. }
  assert (Hfree : ∀ k dq, dblwr_pages_ s !! k = Some dq → page_index dq ≠ n) by (intros k dq Hq; pose proof (do_index _ _ Hdw k dq Hq); lia).
  assert (Hslot : survives s d key page (put_slot d n dp)).
  { destruct (decide (n < disk_cnt d)) as [Hlt|Hge].
    - destruct (Hnew (disk_cnt d) (disk_cnt d) Hlt (or_introl eq_refl) ltac:(lia)) as [HP _]. eapply Hsame; [exact HP|by right].
    - eapply Hsame; [apply slot_unused; [apply (do_disk _ _ Hdw)|lia|exact Hfree|right; split; [lia|done]]|by left]. }
  assert (Hone : ∀ dc, crash d [WSlot dp] dc → survives s d key page dc).
  { intros dc Hc. inversion Hc as [|? ? ? ? Ht|? ? ? ? Hc2].
    - subst dc. exists (dblwr_pages_ s). split_and!; [apply (do_disk _ _ Hdw)|done|by left].
    - inversion Ht as [? bad Hbad|]. subst dc. exists (dblwr_pages_ s). split_and!; [|done|by left].
      apply slot_unused; [apply (do_disk _ _ Hdw)|cbn; lia|exact Hfree|by left].
    - inversion Hc2. subst dc. exact Hslot. }
  destruct (header_page_cnt s <? n + 1) eqn:Eh; zify_bool; cbn [max_pages_ dblwr_pages_].
  - destruct (Hnew (n + 1) (n + 1) ltac:(lia) (or_intror eq_refl) ltac:(lia)) as [_ Hacc]. set (s1 := mkDWB _ _ _) in *.
    destruct (if _ <=? _ then _ else _) as [s2 wf] eqn:Ef. intros [= <- <-].
    destruct (then_flush_ok s d key page s1 _ s2 wf Hacc (eq_sym Ef)) as [Hacc2 Hcr]. split; [exact Hacc2|].
    intros dc Hc. change (crash d ([WSlot dp; WHeader (n + 1)] ++ wf) dc) in Hc. apply crash_app_or in Hc as [Hc|Hc]; [|by apply Hcr].
    apply (crash_app_or d [WSlot dp] [WHeader (n + 1)]) in Hc as [Hc|Hc]; [by apply Hone|].
    inversion Hc as [|? ? ? ? Ht|? ? ? ? Hc2]; [subst dc; exact Hslot|inversion Ht|].
    inversion Hc2. subst dc. eapply accepted_survives; [exact Hacc|apply (do_disk _ _ (proj1 Hacc))|done].
  - destruct (Hnew (header_page_cnt s) (disk_cnt d) ltac:(lia) (or_introl eq_refl) ltac:(lia)) as [_ Hacc]. set (s1 := mkDWB _ _ _) in *.
    destruct (if _ <=? _ then _ else _) as [s2 wf] eqn:Ef. intros [= <- <-].
    destruct (then_flush_ok s d key page s1 _ s2 wf Hacc (eq_sym Ef)) as [Hacc2 Hcr]. split; [exact Hacc2|].
    intros dc Hc. change (crash d ([WSlot dp] ++ wf) dc) in Hc. apply crash_app_or in Hc as [Hc|Hc]; [by apply Hone|by apply Hcr].
Qed.

Lemma add_page_ok s d key page s' ws :
  dwb_ok s d → checksum_ok page = true → add_page iteration s key page = (s', ws) →
  accepted s d key page s' (apply_writes d ws) ∧ ∀ dc, crash d ws dc → survives s d key page dc.
Proof using iteration_perm.
  intros Hdw Hgood E. destruct (dblwr_pages_ s !! key) as [dp|] eqn:Hk; [by eapply add_hit_ok|by apply add_miss_ok].
Qed.

(** C9: no crash corrupts a page file, as long as the buffer is well formed (the end of a [clear_pages] may leave it otherwise,
    [clear_pages_exact]) and no write reports an error.  [add_page] accepts a page with a correct checksum: the page is then what every reader of the
    buffer gets, and all other pages are unchanged.  If instead the process dies anywhere in the writes of [add_page],
    or of the flush it may end with, and the write it dies in is torn - a page in its file then is any image, a slot is one
    whose checksum is wrong; the checksum does not cover the key and the flag of a slot -, then reopening the shared
    file succeeds and its recovery leaves in the page files, for every page but the one being added, the newest accepted
    image, and for that page a complete image: the newest, the new one, or the one its file already had.  Another crash
    during the recovery, torn write included, changes nothing of this. *)
Theorem torn_writes_repaired s d key page s' ws :
  dwb_ok s d → checksum_ok page = true → add_page iteration s key page = (s', ws) →
  (dwb_ok s' (apply_writes d ws) ∧ ∀ k, page_view s' (apply_writes d ws) k = if decide (k = key) then Some page else page_view s d k) ∧
  ∀ dc mx, crash d ws dc →
    ∀ dr sr wr, (dr = dc ∨ ∃ s1 w1, restart iteration mx dc = (s1, w1) ∧ crash dc w1 dr) → restart iteration mx dr = (sr, wr) →
    (load_pages mx dr).1 = RC_SUCCESS ∧ dwb_ok sr (apply_writes dr wr) ∧
    (∀ k, k ≠ key → main_pages (apply_writes dr wr) !! k = page_view s d k) ∧
    (main_pages (apply_writes dr wr) !! key = page_view s d key ∨ main_pages (apply_writes dr wr) !! key = Some page ∨
     main_pages (apply_writes dr wr) !! key = main_pages d !! key).
Proof using iteration_perm.
  intros Hdw Hgood E.
  assert (H : accepted s d key page s' (apply_writes d ws) ∧ ∀ dc, crash d ws dc → survives s d key page dc).
  { by apply add_page_ok. }
  destruct H as [Hacc Hcr]. split; [exact Hacc|]. intros dc mx Hc dr sr wr Hdr Hre.
  destruct (Hcr dc Hc) as (P & HP & Hother & Hkey).
  assert (Hr : ∃ P', disk_ok P' dr ∧ ∀ k, disk_view P' dr k = disk_view P dc k).
  { destruct Hdr as [-> |(s1 & w1 & E1 & Hc1)]; [by exists P|].
    destruct (dw_restart_ok mx P dc s1 w1 HP E1) as (_ & _ & _ & _ & Hcrash). by apply Hcrash. }
  destruct Hr as (P' & HP' & Hview). destruct (dw_restart_ok mx P' dr sr wr HP' Hre) as (Hl & Hok & Hmain & _).
  split_and!; [done..| |].
  - intros k Hne. rewrite Hmain, Hview. by apply Hother.
  - by rewrite Hmain, Hview.
Qed.
(** *** Clearing the pages of a file *)

(** As many pages as indexes below their number: every index is used. *)
Lemma indexes_filled P d :
  disk_ok P d → (∀ k dp, P !! k = Some dp → page_index dp < Z.of_nat (size P)) →
  ∀ i, 0 ≤ i < Z.of_nat (size P) → ∃ dp, slot d i = Some dp ∧ P !! dw_key dp = Some dp.
Proof.
  intros Hok Hlt i Hi. set (l := (λ kv : PageKey * DoubleWritePage, Z.to_nat (page_index kv.2)) <$> map_to_list P).
  assert (Hpos : ∀ k dp, P !! k = Some dp → 0 ≤ page_index dp).
  { intros k dp Hp. destruct (dk_pending P d Hok k dp Hp) as (_ & _ & _ & _ & Hs). pose proof (slot_range _ _ _ Hs). lia. }
  assert (Hnd : NoDup l).
  { apply NoDup_fmap_2_strong, NoDup_map_to_list. intros [k dp] [k' dp'] Hk%elem_of_map_to_list Hk'%elem_of_map_to_list E. cbn in E.
    pose proof (Hpos _ _ Hk). pose proof (Hpos _ _ Hk'). assert (k' = k) as -> by (apply (pending_index P d k dp k' dp' Hok Hk Hk'); lia).
    congruence. }
  assert (Hincl : l ⊆ seq 0 (size P)).
  { intros x ([k dp] & -> & Hk%elem_of_map_to_list)%list_elem_of_fmap. rewrite elem_of_seq. pose proof (Hlt _ _ Hk). pose proof (Hpos _ _ Hk). cbn. lia. }
  assert (Hperm : l ≡ₚ seq 0 (size P)).
  { apply submseteq_length_Permutation; [by apply NoDup_submseteq|]. unfold l. rewrite length_fmap, length_seq, length_map_to_list. lia. }
  assert (Hin : Z.to_nat i ∈ l) by (rewrite Hperm, elem_of_seq; lia).
  apply list_elem_of_fmap in Hin as ([k dp] & Ei & Hk%elem_of_map_to_list). cbn in Ei. pose proof (Hpos _ _ Hk).
  assert (Ei' : page_index dp = i) by lia. destruct (dk_pending P d Hok k dp Hk) as (<- & _ & _ & _ & Hs). exists dp. by rewrite <- Ei'.
Qed.

(** The pages of a pool, as a map. *)
Definition pages_of (pool : Z) (m : gmap PageKey DoubleWritePage) : gmap PageKey DoubleWritePage :=
  filter (λ kv : PageKey * DoubleWritePage, kv.1.1 = pool) m.

Lemma pages_of_lookup pool m k dp : pages_of pool m !! k = Some dp ↔ m !! k = Some dp ∧ k.1 = pool.
Proof. apply map_lookup_filter_Some. Qed.

(** [clear_pages] makes the writes of a flush of these pages, since pending pages are valid. *)
Lemma clear_writes s d pool :
  dwb_ok s d → (clear_pages s pool iteration).2 = flush_writes (iteration (pages_of pool (dblwr_pages_ s))).
Proof using iteration_perm.
  intros Hok. unfold clear_pages, flush_writes. cbn [snd]. f_equal. fold (pages_of pool (dblwr_pages_ s)). apply map_ext_in.
  intros dp [k [Hk _]%pages_of_lookup]%list_elem_of_In%iteration_elem.
  destruct (dk_pending _ d (do_disk _ _ Hok) k dp Hk) as (_ & Hv & _). unfold write_page. by rewrite Hv.
Qed.

Lemma clear_pages_ok s d pool s' ws :
  dwb_ok s d → clear_pages s pool iteration = (s', ws) →
  (∀ dc, crash d ws dc → ∃ P, disk_ok P dc ∧ ∀ k, disk_view P dc k = page_view s d k) ∧
  disk_ok (dblwr_pages_ s') (apply_writes d ws) ∧ disk_cnt (apply_writes d ws) = disk_cnt d ∧
  ∀ k, page_view s' (apply_writes d ws) k = page_view s d k.
Proof using iteration_perm.
  intros Hdw E. assert (Ew : ws = (clear_pages s pool iteration).2) by (by rewrite E). rewrite (clear_writes s d) in Ew by done.
  assert (Es : dblwr_pages_ s' = filter (λ kv : PageKey * DoubleWritePage, kv.1.1 ≠ pool) (dblwr_pages_ s)) by (unfold clear_pages in E; by injection E as <- _).
  clear E. subst ws. set (mine := pages_of pool (dblwr_pages_ s)). pose proof (do_disk _ _ Hdw) as Hok.
  assert (Hfl : flushable (dblwr_pages_ s) d (iteration mine)).
  { apply flushable_map. intros k dp [Hk _]%pages_of_lookup. destruct (dk_pending _ d Hok k dp Hk) as (? & ? & ? & ? & ?). done. }
  destruct (flush_writes_ok _ _ d Hok Hfl) as (Hcrash & P' & Hok' & Hcnt' & Hview & Hrest & Hkeep).
  assert (HP' : P' = dblwr_pages_ s').
  { apply map_eq. intros k. apply option_eq. intros dp. rewrite Es, map_lookup_filter_Some. cbn. split.
    - intros [Hk Hn]%Hrest. split; [done|]. intros Hpool. apply Hn, iteration_elem. exists k. by apply pages_of_lookup.
    - intros [Hk Hne]. apply Hkeep; [done|]. intros (y & Ey & Hy)%list_elem_of_fmap. apply iteration_elem in Hy as [k' [Hk' Hp]%pages_of_lookup].
      destruct (dk_pending _ d Hok k' y Hk') as (Ek & _). congruence. }
  subst P'. split_and!; [exact Hcrash|exact Hok'|exact Hcnt'|exact Hview].
Qed.

(** The slot of a pending page is torn by the write of another page: the page is lost. *)
Lemma stolen_slot s d k dp key page :
  disk_ok (dblwr_pages_ s) d → dblwr_pages_ s !! k = Some dp → dblwr_pages_ s !! key = None →
  page_index dp = Z.of_nat (size (dblwr_pages_ s)) →
  ∃ dc, crash d (add_page iteration s key page).2 dc ∧ main_pages dc = main_pages d ∧ disk_ok (delete k (dblwr_pages_ s)) dc.
Proof.
  intros Hok Hk Hnew Hidx. set (bad := mkDW key 0 true (mkPage 0 (-1) [])).
  assert (Hbad : checksum_ok (dw_page bad) = false) by by_compute. destruct (dk_pending _ d Hok k dp Hk) as (Hkey & Hv & Hg & _ & Hs).
  exists (put_slot d (page_index dp) bad). split; [|split; [done|]].
  - unfold add_page. rewrite Hnew. cbv zeta. destruct (if _ <? _ then _ else _) as [s1 header].
    destruct (if _ <=? _ then _ else _) as [s2 wf]. cbn [snd app write_page_internal]. apply crash_torn. rewrite Hidx. by apply torn_slot.
  - replace (delete k (dblwr_pages_ s)) with (retire (dblwr_pages_ s) dp) by (unfold retire; by rewrite Hv, Hkey).
    apply slot_retired; [done..|by rewrite Hkey|by left].
Qed.

(** C39: closing a file and the double write buffer.  [clear_pages] changes nothing that a reader sees, removes the pages of
    the closed file from the buffer and stores their newest images in the file; the process may die anywhere in its
    writes, with a torn write, and the recovery still leaves the newest image of every page.  But the slots of the
    remaining pages keep their numbers, while [add_page] numbers the slot of a new page by the number of pages in
    the buffer: the invariant of [torn_writes_repaired] holds again exactly if all remaining pages have slots below
    their number.  If one of them has the slot with that number, then a death in [add_page] of a new page can tear
    this slot, and the recovery leaves in the file of the remaining page the old image. *)
Theorem clear_pages_exact s d pool s' ws :
  dwb_ok s d → clear_pages s pool iteration = (s', ws) →
  let d' := apply_writes d ws in
  (∀ k, page_view s' d' k = page_view s d k) ∧
  (∀ k, k.1 = pool → dblwr_pages_ s' !! k = None ∧ main_pages d' !! k = page_view s d k) ∧
  (∀ dc mx sr wr, crash d ws dc → restart iteration mx dc = (sr, wr) → ∀ k, main_pages (apply_writes dc wr) !! k = page_view s d k) ∧
  (dwb_ok s' d' ↔ ∀ k dp, dblwr_pages_ s' !! k = Some dp → page_index dp < Z.of_nat (size (dblwr_pages_ s'))) ∧
  (∀ k dp key page mx, dblwr_pages_ s' !! k = Some dp → page_index dp = Z.of_nat (size (dblwr_pages_ s')) →
     dblwr_pages_ s' !! key = None →
     ∃ dc, crash d' (add_page iteration s' key page).2 dc ∧
       main_pages (apply_writes dc (restart iteration mx dc).2) !! k = main_pages d' !! k).
Proof using iteration_perm.
  intros Hdw E d'. destruct (clear_pages_ok s d pool s' ws Hdw E) as (Hcrash & Hok & Hcnt & Hview). fold d' in Hok, Hcnt, Hview.
  assert (Es : dblwr_pages_ s' = filter (λ kv : PageKey * DoubleWritePage, kv.1.1 ≠ pool) (dblwr_pages_ s) ∧ header_page_cnt s' = header_page_cnt s)
    by (unfold clear_pages in E; by injection E as <- _).
  destruct Es as [Es Eh]. split_and!.
  - done.
  - intros k Hk. assert (Hn : dblwr_pages_ s' !! k = None) by (rewrite Es; apply map_lookup_filter_None; right; naive_solver).
    split; [done|]. rewrite <- Hview. unfold page_view. by rewrite Hn.
  - intros dc mx sr wr Hc Hre k. destruct (Hcrash dc Hc) as (P & HP & HPv). destruct (dw_restart_ok mx P dc sr wr HP Hre) as (_ & _ & Hm & _).
    by rewrite Hm.
  - split; [intros Hd; apply (do_index _ _ Hd)|]. intros Hlt. constructor; [done| |done|by apply indexes_filled].
    rewrite Eh, Hcnt. apply (do_header _ _ Hdw).
  - intros k dp key page mx Hk Hidx Hnew. destruct (stolen_slot s' d' k dp key page Hok Hk Hnew Hidx) as (dc & Hc & Hm & HP).
    exists dc. split; [done|]. destruct (restart iteration mx dc) as [sr wr] eqn:Er.
    destruct (dw_restart_ok mx _ dc sr wr HP Er) as (_ & _ & Hmain & _). cbn [snd]. rewrite Hmain. unfold disk_view. by rewrite lookup_delete_eq, Hm.
Qed.
End protection.

(** ** Examples *)

Definition ex_iteration (m : gmap PageKey DoubleWritePage) : list DoubleWritePage := (map_to_list m).*2.
Definition ex_image (l : Z) (bytes : list Z) : PageImage := mkPage l (default 0 (crc32 bytes)) bytes.
Definition ex_dwb : DoubleWriteBuffer := mkDWB 1 0 ∅.
Definition ex_disk : DWDisk := mkDisk 0 [] {[(1, 1) := ex_image 1 [1; 2; 3]]}.

Lemma ex_dwb_ok : dwb_ok ex_dwb ex_disk.
Proof.
  apply (empty_dwb_ok 1 ∅); [|done]. constructor; cbn.
  - done.
  - intros i dp. unfold slot. by case_match.
  - intros k dp. by rewrite lookup_empty.
  - intros i dp Hi. unfold slot. by case_match.
  - intros k dp i dp'. by rewrite lookup_empty.
Qed.

(** A full buffer is flushed, and the write of the page to its file is torn. *)
Lemma torn_writes_repaired_witness :
  ∃ s' ws dc sr wr, add_page ex_iteration ex_dwb (1, 1) (ex_image 2 [4; 5; 6]) = (s', ws) ∧ crash ex_disk ws dc ∧
    main_pages dc !! (1, 1) = Some (ex_image 2 [4; 2; 3]) ∧ restart ex_iteration 1 dc = (sr, wr) ∧
    (main_pages (apply_writes dc wr) !! (1, 1) = Some (ex_image 1 [1; 2; 3]) ∨
     main_pages (apply_writes dc wr) !! (1, 1) = Some (ex_image 2 [4; 5; 6]) ∨
     main_pages (apply_writes dc wr) !! (1, 1) = Some (ex_image 1 [1; 2; 3])).
Proof.
  destruct (add_page ex_iteration ex_dwb (1, 1) (ex_image 2 [4; 5; 6])) as [s' ws] eqn:E.
  set (dp := mkDW (1, 1) 0 true (ex_image 2 [4; 5; 6])).
  set (dc := put_main (apply_writes ex_disk [WSlot dp; WHeader 1]) (1, 1) (ex_image 2 [4; 2; 3])).
  destruct (restart ex_iteration 1 dc) as [sr wr] eqn:Er.
  assert (Hc : crash ex_disk ws dc).
  { assert (Hws : ws = [WSlot dp; WHeader 1; WMain (1, 1) (ex_image 2 [4; 5; 6]); WSlot (invalidate dp)]).
    { apply (f_equal snd) in E. vm_compute in E. rewrite <- E. by vm_compute. }
    rewrite Hws. apply crash_later, crash_later, crash_torn, torn_main. }
  destruct (torn_writes_repaired ex_iteration (λ m, Permutation_refl _) ex_dwb ex_disk (1, 1) (ex_image 2 [4; 5; 6]) s' ws ex_dwb_ok ltac:(by vm_compute) E) as [_ H].
  destruct (H dc 1 Hc dc sr wr (or_introl eq_refl) Er) as (_ & _ & _ & Hk).
  exists s', ws, dc, sr, wr. split_and!; [done|exact Hc|by vm_compute|exact Er|exact Hk].
Defined.

(** *** [clear_pages] *)

(** Two pages of different pools are in the buffer. *)
Definition ex_two : DoubleWriteBuffer * DWDisk :=
  let '(s1, w1) := add_page ex_iteration (mkDWB 16 0 ∅) (1, 1) (ex_image 1 [1]) in
  let '(s2, w2) := add_page ex_iteration s1 (2, 1) (ex_image 2 [2]) in
  (s2, apply_writes (mkDisk 0 [] {[(2, 1) := ex_image 0 [0]]}) (w1 ++ w2)).

Lemma ex_two_ok : dwb_ok ex_two.1 ex_two.2.
Proof.
  assert (G1 : checksum_ok (ex_image 1 [1]) = true) by (by vm_compute).
  assert (G2 : checksum_ok (ex_image 2 [2]) = true) by (by vm_compute).
  unfold ex_two. destruct (add_page ex_iteration (mkDWB 16 0 ∅) _ _) as [s1 w1] eqn:E1.
  destruct (add_page ex_iteration s1 _ _) as [s2 w2] eqn:E2. cbn [fst snd]. unfold apply_writes. rewrite foldl_app.
  assert (H0 : dwb_ok (mkDWB 16 0 ∅) (mkDisk 0 [] {[(2, 1) := ex_image 0 [0]]})).
  { apply (empty_dwb_ok 16 ∅); [|done]. constructor; cbn; [done|intros i dp; unfold slot; by case_match|intros k dp; by rewrite lookup_empty|
      intros i dp _; unfold slot; by case_match|intros k dp i dp'; by rewrite lookup_empty]. }
  destruct (add_page_ok ex_iteration (λ m, Permutation_refl _) _ _ _ _ _ _ H0 G1 E1) as [[H1 _] _].
  destruct (add_page_ok ex_iteration (λ m, Permutation_refl _) _ _ _ _ _ _ H1 G2 E2) as [[H2 _] _]. exact H2.
Qed.

(** The pool of the first is closed; the next page gets the slot of the second, whose newest image is lost. *)
Lemma clear_pages_exact_witness :
  let '(s, ws) := clear_pages ex_two.1 1 ex_iteration in
  let d := apply_writes ex_two.2 ws in
  page_view s d (2, 1) = Some (ex_image 2 [2]) ∧ main_pages d !! (1, 1) = Some (ex_image 1 [1]) ∧
  ∃ dc, crash d (add_page ex_iteration s (2, 2) (ex_image 3 [3])).2 dc ∧
    main_pages (apply_writes dc (restart ex_iteration 16 dc).2) !! (2, 1) = Some (ex_image 0 [0]).
Proof.
  destruct (clear_pages ex_two.1 1 ex_iteration) as [s ws] eqn:E.
  destruct (clear_pages_exact ex_iteration (λ m, Permutation_refl _) ex_two.1 ex_two.2 1 s ws ex_two_ok E)
    as (Hview & Hmine & _ & _ & Hlost).
  assert (Es : s = (clear_pages ex_two.1 1 ex_iteration).1) by (by rewrite E).
  assert (Ew : ws = (clear_pages ex_two.1 1 ex_iteration).2) by (by rewrite E).
  split; [|split].
  - rewrite Hview. by vm_compute.
  - rewrite (proj2 (Hmine (1, 1) eq_refl)). by vm_compute.
  - destruct (Hlost (2, 1) (mkDW (2, 1) 1 true (ex_image 2 [2])) (2, 2) (ex_image 3 [3]) 16) as (dc & Hc & Hm);
      [subst s; by vm_compute|subst s; by vm_compute|subst s; by vm_compute|].
    exists dc. split; [exact Hc|]. rewrite Hm. subst ws. by vm_compute.
Defined.
