(* ===== verification/DiskBufferPool.v ===== *)
(** * The buffer pool ([storage/buffer/disk_buffer_pool.*])

    The operations of [DiskBufferPool] on the frame table ([FrameManager]), the double write buffer
    ([DoubleWrite]), the header page ([BufferPoolFile]) and the log.  All pools of a process share
    one frame table and one double write buffer, so an allocation in one pool may write back and
    evict a page of another.  [None] is a failed [ASSERT] or a loop that has run out of fuel; the
    writes of pages succeed. *)
From S2P Require Import Prelude Rc LruCache MemPool Bitmap Serializer LogFile LogHandler LogSink PageAlloc BufferPoolFile Crc FrameManager DoubleWrite.

(** ** State *)

(** Everything but the frame table. *)
Record Shared {L : Type} := mkShared {
  sh_dw : DoubleWriteBuffer;
  sh_disk : DWDisk;
  sh_log : L;
  sh_open : gmap Z positive;       (* the open pools and the frames of their headers *)
}.
#[global] Arguments Shared : clear implicits.
#[global] Arguments mkShared {L}.

(** The header page as bytes. *)
Definition header_bytes (h : BPFileHeader) : list Z :=
  le_encode 4 (fh_buffer_pool_id h) ++ le_encode 4 (page_count h) ++ le_encode 4 (allocated_pages h) ++ bitmap h.
Definition read_header (l : list Z) : option BPFileHeader :=
  let d := mkDeserializer l 0 in
  '(id, d) ← read_int32 d; '(count, d) ← read_int32 d; '(allocated, d) ← read_int32 d;
  Some (mkFileHeader id count allocated (drop 12 l)).

(** [file_header_] points into the frame of the header. *)
Definition load_header (f : Frame (list Z)) : option BPFile :=
  h ← read_header (data (page_ f)); Some (mkFile (lsn (page_ f)) (dirty_ f) h).
Definition store_header (f : Frame (list Z)) (b : BPFile) : Frame (list Z) :=
  set_dirty (set_page f (mkPage (hdr_lsn b) (check_sum (page_ f)) (header_bytes (file_header_ b)))) (hdr_dirty b).

Definition key_of (id : FrameId) : PageKey := (fid_buffer_pool_id id, fid_page_num id).
Definition id_of (k : PageKey) : FrameId := mkFrameId k.1 k.2.

(** ** Operations *)

Section operations.
Context {C L : Type} `{LruSpec C FrameId positive} `{LogWaiter L}.
(** The order in which the map of the double write buffer is traversed. *)
Variable iteration : gmap PageKey DoubleWritePage → list DoubleWritePage.
Abbreviation FM := (BPFrameManager (list Z) C).
Implicit Types (fm : FM) (s : Shared L) (a : positive) (id page_num : Z).

Definition set_frame fm a f : FM := with_store fm (<[a := f]> (store fm)).

(** [src/src/observer/storage/buffer/disk_buffer_pool.cpp:546-568] [DiskBufferPool::flush_page_internal]
    the pool's log handler waits for the number of the page; its error is ignored *)
Definition flush_page_internal id fm s a : option (FM * Shared L * RC) :=
  f ← store fm !! a;
  let '(log, _) := log_wait (sh_log s) (lsn (page_ f)) in
  sum ← crc32 (data (page_ f));
  let page := mkPage (lsn (page_ f)) sum (data (page_ f)) in
  let '(dw, writes) := add_page iteration (sh_dw s) (id, fid_page_num (frame_id_ f)) page in
  Some (set_frame fm a (set_dirty (set_page f page) false),
        mkShared dw (apply_writes (sh_disk s) writes) log (sh_open s), RC_SUCCESS).

(** [src/src/observer/storage/buffer/disk_buffer_pool.cpp:901-914] [BufferPoolManager::flush_page] *)
Definition manager_flush_page fm s a : option (FM * Shared L * RC) :=
  f ← store fm !! a;
  let buffer_pool_id := fid_buffer_pool_id (frame_id_ f) in
  match sh_open s !! buffer_pool_id with
  | None => Some (fm, s, RC_INTERNAL)
  | Some _ => flush_page_internal buffer_pool_id fm s a
  end.

(** [src/src/observer/storage/buffer/disk_buffer_pool.cpp:691-708] [purger] the lambda of [allocate_frame] *)
Definition purger id fm s a : option (FM * Shared L * RC) :=
  f ← store fm !! a;
  if negb (dirty_ f) then Some (fm, s, RC_SUCCESS)
  else if fid_buffer_pool_id (frame_id_ f) =? id then flush_page_internal id fm s a
  else manager_flush_page fm s a.

(** [src/src/observer/storage/buffer/disk_buffer_pool.cpp:689-721] [DiskBufferPool::allocate_frame] *)
Fixpoint allocate_frame (fuel : nat) id page_num fm s : option (FM * Shared L * positive) :=
  match fuel with
  | O => None
  | S fuel =>
      '(fm, frame) ← fm_alloc fm id page_num;
      match frame with
      | Some a => Some (fm, s, a)
      | None =>
          '(fm, s, _) ← purge_frames fm 1 (purger id) s;
          allocate_frame fuel id page_num fm s
      end
  end.

(** [src/src/observer/storage/buffer/disk_buffer_pool.cpp:736-764] [DiskBufferPool::load_page] a page that is
    in neither place lies beyond the end of the file *)
Definition load_page id page_num fm s a : option (FM * RC) :=
  f ← store fm !! a;
  match read_page (sh_dw s) (id, page_num) with
  | (_, Some page) => Some (set_frame fm a (set_page f page), RC_SUCCESS)
  | (_, None) =>
      match main_pages (sh_disk s) !! (id, page_num) with
      | Some page => Some (set_frame fm a (set_page_num (set_page f page) page_num), RC_SUCCESS)
      | None => Some (fm, RC_IOERR_READ)
      end
  end.

(** [src/src/observer/storage/buffer/disk_buffer_pool.cpp:475-494] [DiskBufferPool::purge_frame] *)
Definition purge_frame id page_num fm s a : option (FM * Shared L * RC) :=
  f ← store fm !! a;
  if negb (pin_count_ f =? 1) then Some (fm, s, RC_LOCKED_UNLOCK)
  else
    '(fm, s, rc) ← (if dirty_ f then flush_page_internal id fm s a else Some (fm, s, RC_SUCCESS));
    if OB_FAIL rc then Some (fm, s, rc)
    else fm ← fm_free fm id page_num a; Some (fm, s, RC_SUCCESS).

(** [src/src/observer/storage/buffer/disk_buffer_pool.cpp:317-352] [DiskBufferPool::get_this_page] *)
Definition get_this_page (fuel : nat) id page_num fm s : option (FM * Shared L * (positive + RC)) :=
  '(fm, used_match_frame) ← fm_get fm id page_num;
  match used_match_frame with
  | Some a => Some (fm, s, inl a)
  | None =>
      '(fm, s, a) ← allocate_frame fuel id page_num fm s;
      f ← store fm !! a;
      let fm := set_frame fm a (set_buffer_pool_id f id) in
      '(fm, rc) ← load_page id page_num fm s a;
      if OB_FAIL rc then '(fm, s, _) ← purge_frame id page_num fm s a; Some (fm, s, inr rc)
      else Some (fm, s, inl a)
  end.

(** [src/src/observer/storage/buffer/disk_buffer_pool.cpp:354-436] [DiskBufferPool::allocate_page] the header
    part is [allocate_header]; its frame is pinned and does not take part in [allocate_frame] *)
Definition allocate_page (fuel : nat) id fm s : option (FM * Shared L * (positive + RC)) :=
  hdr ← sh_open s !! id;
  f ← store fm !! hdr;
  h ← load_header f;
  '(log, h, r) ← allocate_header (sh_log s) h;
  let fm := set_frame fm hdr (store_header f h) in
  let s := mkShared (sh_dw s) (sh_disk s) log (sh_open s) in
  match r with
  | Reused i => get_this_page fuel id i fm s
  | NoPage rc => Some (fm, s, inr rc)
  | Extended page_num =>
      '(fm, s, a) ← allocate_frame fuel id page_num fm s;
      f ← store fm !! a;
      let zeros := mkPage 0 0 (replicate (length (data (page_ f))) 0) in
      let f := FrameManager.set_page_num (set_page (set_buffer_pool_id f id) zeros) page_num in
      '(fm, s, _) ← flush_page_internal id (set_frame fm a f) s a;
      Some (fm, s, inl a)
  end.

(** [src/src/observer/storage/buffer/disk_buffer_pool.cpp:438-467] [DiskBufferPool::dispose_page] *)
Definition dispose_page id page_num fm s : option (FM * Shared L * RC) :=
  if page_num =? 0 then Some (fm, s, RC_INTERNAL)
  else
    '(fm, used_frame) ← fm_get fm id page_num;
    fm ← match used_frame with Some a => fm_free fm id page_num a | None => Some fm end;
    hdr ← sh_open s !! id;
    f ← store fm !! hdr;
    h ← load_header f;
    '(log, h, rc) ← dispose_header (sh_log s) h page_num;
    Some (set_frame fm hdr (store_header f h), mkShared (sh_dw s) (sh_disk s) log (sh_open s), rc).

(** [src/src/observer/storage/buffer/disk_buffer_pool.cpp:469-473] [DiskBufferPool::unpin_page] *)
Definition unpin_page fm a : option (FM * RC) :=
  st ← unpin (store fm) a; Some (with_store fm st, RC_SUCCESS).

(** [src/src/observer/storage/buffer/disk_buffer_pool.cpp:496-506] [DiskBufferPool::purge_page] *)
Definition purge_page id page_num fm s : option (FM * Shared L * RC) :=
  '(fm, used_frame) ← fm_get fm id page_num;
  match used_frame with
  | Some a => purge_frame id page_num fm s a
  | None => Some (fm, s, RC_SUCCESS)
  end.

Fixpoint purge_list id (used : list positive) fm s : option (FM * Shared L) :=
  match used with
  | [] => Some (fm, s)
  | a :: used =>
      f ← store fm !! a;
      '(fm, s, _) ← purge_frame id (fid_page_num (frame_id_ f)) fm s a;
      purge_list id used fm s
  end.

(** [src/src/observer/storage/buffer/disk_buffer_pool.cpp:508-519] [DiskBufferPool::purge_all_pages] the
    result of [purge_frame] is ignored *)
Definition purge_all_pages id fm s : option (FM * Shared L * RC) :=
  '(fm, used) ← find_list fm id;
  '(fm, s) ← purge_list id used fm s;
  Some (fm, s, RC_SUCCESS).

Fixpoint unpin_list (frames : list positive) fm : option FM :=
  match frames with
  | [] => Some fm
  | a :: frames => st ← unpin (store fm) a; unpin_list frames (with_store fm st)
  end.

(** [src/src/observer/storage/buffer/disk_buffer_pool.cpp:521-538] [DiskBufferPool::check_all_pages_unpinned]
    the warnings are left out *)
Definition check_all_pages_unpinned id fm : option (FM * RC) :=
  '(fm, frames) ← find_list fm id;
  fm ← unpin_list frames fm;
  Some (fm, RC_SUCCESS).

Fixpoint flush_list id (used : list positive) fm s : option (FM * Shared L * RC) :=
  match used with
  | [] => Some (fm, s, RC_SUCCESS)
  | a :: used =>
      '(fm, s, rc) ← flush_page_internal id fm s a;
      st ← unpin (store fm) a;
      if OB_FAIL rc then Some (with_store fm st, s, rc) else flush_list id used (with_store fm st) s
  end.

(** [src/src/observer/storage/buffer/disk_buffer_pool.cpp:570-582] [DiskBufferPool::flush_all_pages] *)
Definition flush_all_pages id fm s : option (FM * Shared L * RC) :=
  '(fm, used) ← find_list fm id;
  flush_list id used fm s.

(** [src/src/observer/storage/buffer/disk_buffer_pool.cpp:228-276] [DiskBufferPool::open_file] a file is
    identified with the [buffer_pool_id] that its first page records; the manager then enters the pool into
    its tables *)
Definition open_file (fuel : nat) id fm s : option (FM * Shared L * RC) :=
  match sh_open s !! id, main_pages (sh_disk s) !! (id, 0) with
  | Some _, _ => Some (fm, s, RC_BUFFERPOOL_OPEN)
  | None, None => Some (fm, s, RC_IOERR_READ)
  | None, Some _ =>
      '(fm, s, a) ← allocate_frame fuel id 0 fm s;
      f ← store fm !! a;
      '(fm, rc) ← load_page id 0 (set_frame fm a (set_buffer_pool_id f id)) s a;
      if OB_FAIL rc then '(fm, s, _) ← purge_frame id 0 fm s a; Some (fm, s, rc)
      else Some (fm, mkShared (sh_dw s) (sh_disk s) (sh_log s) (<[id := a]> (sh_open s)), RC_SUCCESS)
  end.
End operations.

(** ** The invariant *)

Section coherence.
Context {C L : Type} `{LruSpec C FrameId positive} `{LogWaiter L}.
Variable iteration : gmap PageKey DoubleWritePage → list DoubleWritePage.
Hypothesis iteration_perm : ∀ m, iteration m ≡ₚ (map_to_list m).*2.
Abbreviation FM := (BPFrameManager (list Z) C).
Implicit Types (fm : FM) (s : Shared L) (a : positive) (id : FrameId) (l : list (FrameId * positive)) (k : PageKey).

Definition storage_view s k : option PageImage := page_view (sh_dw s) (sh_disk s) k.
Definition content (p : PageImage) : Z * list Z := (lsn p, data p).
(** What a client sees of page [k]: the frame that maps it, and otherwise what is stored. *)
Definition view fm l s k : option (Z * list Z) :=
  match spec_lookup l (id_of k) with
  | Some a => content ∘ page_ <$> store fm !! a
  | None => content <$> storage_view s k
  end.

(** No image is stored before the log that describes it is durable. *)
Record shared_ok s : Prop := {
  so_dw : dwb_ok (sh_dw s) (sh_disk s);
  so_run : log_running (sh_log s);
  so_wal : ∀ k p, storage_view s k = Some p → log_durable (sh_log s) (lsn p);
}.
Record frame_ok s id (f : Frame (list Z)) : Prop := {
  fr_open : is_Some (sh_open s !! fid_buffer_pool_id id);
  fr_clean : dirty_ f = false → storage_view s (key_of id) = Some (page_ f);
}.
Record pool_ok fm l s : Prop := {
  po_fm : fm_wf fm l;
  po_shared : shared_ok s;
  po_frames : ∀ id a f, (id, a) ∈ l → store fm !! a = Some f → frame_ok s id f;
}.

(** Frames in use stay where they are and keep their contents. *)
Definition stays fm l fm' l' : Prop := ∀ id a f,
  (id, a) ∈ l → store fm !! a = Some f → 0 < pin_count_ f →
  (id, a) ∈ l' ∧ ∃ f', store fm' !! a = Some f' ∧ pin_count_ f ≤ pin_count_ f' ∧ content (page_ f') = content (page_ f).

(** There is a frame that can be used. *)
Definition has_room fm l : Prop :=
  frees (allocator_ fm) ≠ [] ∨ ∃ id a f, (id, a) ∈ l ∧ store fm !! a = Some f ∧ pin_count_ f = 0.

Lemma key_of_id_of k : key_of (id_of k) = k.
Proof. by destruct k. Qed.
Lemma id_of_key_of id : id_of (key_of id) = id.
Proof. by destruct id. Qed.

Lemma pool_keys fm l s : pool_ok fm l s → NoDup l.*1.
Proof. intros [[_ He] _ _]. apply (ent_keys _ _ _ He). Qed.

Lemma pool_frame fm l s id a : pool_ok fm l s → (id, a) ∈ l →
  ∃ f, store fm !! a = Some f ∧ frame_id_ f = id ∧ 0 ≤ pin_count_ f ∧ frame_ok s id f.
Proof.
  intros [[_ He] _ Hf] Hin. destruct (ent_live _ _ _ He _ _ Hin) as (f & Hs & Hid & Hp). exists f. split_and!; try done.
  by eapply Hf.
Qed.

Lemma pool_unique fm l s id id' a : pool_ok fm l s → (id, a) ∈ l → (id', a) ∈ l → id = id'.
Proof.
  intros Hok G1 G2. destruct (pool_frame _ _ _ _ _ Hok G1) as (f & Hf & <- & _).
  destruct (pool_frame _ _ _ _ _ Hok G2) as (f' & Hf' & <- & _). congruence.
Qed.

Lemma pool_addr fm l s id a a' : pool_ok fm l s → (id, a) ∈ l → (id, a') ∈ l → a = a'.
Proof.
  intros Hok G1 G2. pose proof (pool_keys _ _ _ Hok) as Hk.
  apply (spec_lookup_elem l id a Hk) in G1. apply (spec_lookup_elem l id a' Hk) in G2. congruence.
Qed.

Lemma stays_refl fm l : stays fm l fm l.
Proof. intros id a f Hin Hf Hp. split; [done|]. by exists f. Qed.
Lemma stays_trans fm1 l1 fm2 l2 fm3 l3 : stays fm1 l1 fm2 l2 → stays fm2 l2 fm3 l3 → stays fm1 l1 fm3 l3.
Proof.
  intros G1 G2 id a f Hin Hf Hp. destruct (G1 id a f Hin Hf Hp) as (Hin2 & f2 & Hf2 & Hp2 & Hc2).
  destruct (G2 id a f2 Hin2 Hf2 ltac:(lia)) as (Hin3 & f3 & Hf3 & Hp3 & Hc3).
  split; [done|]. exists f3. split_and!; [done|lia|congruence].
Qed.

(** *** Changing one frame *)

Lemma set_frame_ok fm l s id a f f' :
  pool_ok fm l s → (id, a) ∈ l → store fm !! a = Some f → frame_id_ f' = frame_id_ f → 0 ≤ pin_count_ f' →
  frame_ok s id f' → pool_ok (set_frame fm a f') l s.
Proof.
  intros Hok Hin Hf Hid Hp Hfr. constructor.
  - destruct (po_fm _ _ _ Hok) as [Ha He]. split; [done|]. by eapply entries_update.
  - apply (po_shared _ _ _ Hok).
  - intros id' b g Hin'. cbn [set_frame with_store store]. destruct (decide (a = b)) as [<-|Hne].
    + rewrite lookup_insert_eq. intros [= <-]. by rewrite <- (pool_unique _ _ _ _ _ _ Hok Hin Hin').
    + rewrite lookup_insert_ne by done. by apply (po_frames _ _ _ Hok).
Qed.

Lemma view_set_frame fm l s id a f' k :
  pool_ok fm l s → (id, a) ∈ l →
  view (set_frame fm a f') l s k = if decide (k = key_of id) then Some (content (page_ f')) else view fm l s k.
Proof.
  intros Hok Hin. pose proof (pool_keys _ _ _ Hok) as Hk. unfold view. case_decide as D.
  - subst k. rewrite id_of_key_of, (proj2 (spec_lookup_elem l id a Hk) Hin). cbn [set_frame with_store store].
    by rewrite lookup_insert_eq.
  - destruct (spec_lookup l (id_of k)) as [b|] eqn:E; [|done]. cbn [set_frame with_store store].
    rewrite lookup_insert_ne; [done|]. intros <-. apply (spec_lookup_elem l _ a Hk) in E. apply D.
    by rewrite (pool_unique _ _ _ _ _ _ Hok Hin E), key_of_id_of.
Qed.

Lemma view_hit fm l s id a f : pool_ok fm l s → (id, a) ∈ l → store fm !! a = Some f →
  view fm l s (key_of id) = Some (content (page_ f)).
Proof.
  intros Hok Hin Hf. unfold view. rewrite id_of_key_of, (proj2 (spec_lookup_elem l id a (pool_keys _ _ _ Hok)) Hin).
  by rewrite Hf.
Qed.

Lemma view_perm fm l l' s k : NoDup l.*1 → l ≡ₚ l' → view fm l s k = view fm l' s k.
Proof. intros Hnd Hp. unfold view, spec_lookup. by rewrite (list_to_map_proper l l'). Qed.

Lemma stays_set_frame fm l s id a f f' :
  pool_ok fm l s → (id, a) ∈ l → store fm !! a = Some f → pin_count_ f ≤ pin_count_ f' →
  content (page_ f') = content (page_ f) → stays fm l (set_frame fm a f') l.
Proof.
  intros Hok Hin Hf Hp Hc id' b g Hin' Hg Hpg. split; [done|]. cbn [set_frame with_store store].
  destruct (decide (a = b)) as [<-|Hne].
  - rewrite lookup_insert_eq. exists f'. split; [done|]. assert (g = f) as -> by congruence. done.
  - rewrite lookup_insert_ne by done. by exists g.
Qed.

(** ** Writing back *)

(** [flush_page_internal]: the log is waited for, the image is stored with its checksum, the frame is
    clean, and no client sees a difference. *)
Lemma flush_internal_ok fm l s id a f :
  pool_ok fm l s → (id, a) ∈ l → store fm !! a = Some f →
  ∃ s' sum, let f' := set_dirty (set_page f (mkPage (lsn (page_ f)) sum (data (page_ f)))) false in
    flush_page_internal iteration (fid_buffer_pool_id id) fm s a = Some (set_frame fm a f', s', RC_SUCCESS) ∧
    pool_ok (set_frame fm a f') l s' ∧ sh_open s' = sh_open s ∧
    (∀ k, view (set_frame fm a f') l s' k = view fm l s k) ∧
    (∀ k, storage_view s' k = if decide (k = key_of id) then Some (page_ f') else storage_view s k).
Proof using iteration_perm.
  intros Hok Hin Hf. destruct (pool_frame _ _ _ _ _ Hok Hin) as (f0 & Hf0 & Hid & Hp & Hfr).
  assert (f0 = f) as -> by congruence. clear Hf0. destruct (po_shared _ _ _ Hok) as [Hdw Hrun Hwal].
  unfold flush_page_internal. rewrite Hf. cbn [mbind option_bind].
  destruct (log_wait_spec (sh_log s) (lsn (page_ f)) Hrun) as (Hrun' & Hdur & Hmono).
  destruct (log_wait (sh_log s) (lsn (page_ f))) as [log rc]. cbn [fst] in *.
  set (sum := default 0 (crc32 (data (page_ f)))).
  assert (Hsum : crc32 (data (page_ f)) = Some sum) by (unfold sum, crc32; by rewrite crc_loop_fold).
  rewrite Hsum. cbn [mbind option_bind]. rewrite Hid.
  set (page := mkPage (lsn (page_ f)) sum (data (page_ f))).
  destruct (add_page iteration (sh_dw s) (fid_buffer_pool_id id, fid_page_num id) page) as [dw ws] eqn:E.
  assert (Hgood : checksum_ok page = true) by (by apply bool_decide_true).
  destruct (add_page_ok iteration iteration_perm _ _ _ _ _ _ Hdw Hgood E) as [[Hdw' Hview] _].
  set (s' := mkShared dw (apply_writes (sh_disk s) ws) log (sh_open s)).
  set (f' := set_dirty (set_page f page) false).
  assert (Hst : ∀ k, storage_view s' k = if decide (k = key_of id) then Some page else storage_view s k) by exact Hview.
  assert (Hok1 : pool_ok fm l s → pool_ok (set_frame fm a f') l s').
  { intros _. constructor.
    - destruct (po_fm _ _ _ Hok) as [Ha He]. split; [done|]. by eapply entries_update.
    - constructor; [done|done|]. intros k p. rewrite Hst. case_decide; [by intros [= <-]|]. intros Hk. by eapply Hmono, Hwal.
    - intros id' b g Hin'. cbn [set_frame with_store store]. destruct (decide (a = b)) as [<-|Hne].
      + rewrite lookup_insert_eq. intros [= <-]. rewrite <- (pool_unique _ _ _ _ _ _ Hok Hin Hin').
        constructor; [apply (fr_open _ _ _ Hfr)|]. intros _. rewrite Hst, decide_True by done. done.
      + rewrite lookup_insert_ne by done. intros Hg. destruct (po_frames _ _ _ Hok id' b g Hin' Hg) as [Ho Hc].
        constructor; [done|]. intros Hd. rewrite Hst, decide_False; [by apply Hc|].
        intros Heq. apply Hne. apply (f_equal id_of) in Heq. rewrite !id_of_key_of in Heq. subst id'.
        by eapply pool_addr. }
  exists s', sum. split_and!; [done|by apply Hok1|done| |done].
  intros k. change (view (set_frame fm a f') l s' k = view fm l s k). destruct (decide (k = key_of id)) as [->|Hne].
  - rewrite (view_hit _ _ _ id a f Hok Hin Hf). apply (view_hit _ _ _ id a f' (Hok1 Hok) Hin), lookup_insert_eq.
  - assert (E1 : view (set_frame fm a f') l s' k = view (set_frame fm a f') l s k).
    { unfold view. case_match; [done|]. by rewrite Hst, decide_False. }
    by rewrite E1, (view_set_frame _ _ _ id), decide_False.
Qed.

(** ** Eviction *)

Lemma pin_frame_ok fm l s id a f n :
  pool_ok fm l s → (id, a) ∈ l → store fm !! a = Some f → 0 ≤ n →
  pool_ok (set_frame fm a (set_pin f n)) l s ∧ ∀ k, view (set_frame fm a (set_pin f n)) l s k = view fm l s k.
Proof.
  intros Hok Hin Hf Hn. destruct (pool_frame _ _ _ _ _ Hok Hin) as (f0 & Hf0 & Hid & Hp & Hfr).
  assert (f0 = f) as -> by congruence. split.
  - eapply set_frame_ok; eauto. destruct Hfr as [Ho Hc]. by constructor.
  - intros k. rewrite (view_set_frame _ _ _ id) by done. case_decide as D; [|done]. subst k. by rewrite (view_hit _ _ _ id a f).
Qed.

(** The write-back of an eviction: afterwards the frame is clean. *)
Lemma purger_clean pool fm l s id a f :
  pool_ok fm l s → (id, a) ∈ l → store fm !! a = Some f →
  ∃ s' f', purger iteration pool fm s a = Some (set_frame fm a f', s', RC_SUCCESS) ∧
    pool_ok (set_frame fm a f') l s' ∧ sh_open s' = sh_open s ∧ dirty_ f' = false ∧ pin_count_ f' = pin_count_ f ∧
    frame_id_ f' = frame_id_ f ∧ ∀ k, view (set_frame fm a f') l s' k = view fm l s k.
Proof using iteration_perm.
  intros Hok Hin Hf. destruct (pool_frame _ _ _ _ _ Hok Hin) as (f0 & Hf0 & Hid & Hp & Hfr).
  assert (f0 = f) as -> by congruence. clear Hf0. unfold purger. rewrite Hf. cbn [mbind option_bind].
  destruct (dirty_ f) eqn:Ed; cbn [negb]; cycle 1.
  { assert (set_frame fm a f = fm) as Hsame by (destruct fm; unfold set_frame, with_store; cbn in *; by rewrite insert_id).
    exists s, f. by rewrite Hsame. }
  destruct (flush_internal_ok fm l s id a f Hok Hin Hf) as (s' & sum & Hfl & Hok' & Hopen & Hview & _).
  exists s'. eexists. split; [|split_and!; [exact Hok'|exact Hopen|done..|exact Hview]].
  rewrite Hid. destruct (_ =? _) eqn:E; zify_bool; [by rewrite <- E|].
  unfold manager_flush_page. rewrite Hf. cbn [mbind option_bind]. rewrite Hid.
  destruct (fr_open _ _ _ Hfr) as [hdr ->]. exact Hfl.
Qed.

(** A frame that only the caller has pinned is freed when it is clean: its page is then read from
    storage. *)
Lemma free_clean fm l s id a f :
  pool_ok fm l s → (id, a) ∈ l → store fm !! a = Some f → pin_count_ f = 1 →
  ∃ fm', free_internal fm id a = Some fm' ∧ pool_ok fm' (spec_rest l id) s ∧ frees (allocator_ fm') ≠ [] ∧
    (∀ b, b ≠ a → store fm' !! b = store fm !! b) ∧
    (∀ k, view fm' (spec_rest l id) s k = if decide (k = key_of id) then content <$> storage_view s k else view fm l s k).
Proof.
  intros Hok Hin Hf Hp. destruct (free_internal_ok fm l id a f (po_fm _ _ _ Hok) Hin Hf Hp) as (fm' & Hfree & Hwf & Hst & Hal).
  exists fm'. split; [done|]. unfold spec_remove in Hwf.
  assert (Hother : ∀ b, b ≠ a → store fm' !! b = store fm !! b) by (intros b Hb; rewrite Hst; by apply lookup_insert_ne).
  assert (Hne : ∀ id' b, (id', b) ∈ spec_rest l id → b ≠ a).
  { intros id' b [Hb Hk]%spec_rest_elem E. subst b. cbn in Hk. by rewrite (pool_unique _ _ _ _ _ _ Hok Hin Hb) in Hk. }
  split_and!; [|rewrite Hal|done|].
  - constructor; [done|apply (po_shared _ _ _ Hok)|]. intros id' b g Hb. rewrite Hother by eauto.
    apply spec_rest_elem in Hb as [Hb _]. by apply (po_frames _ _ _ Hok).
  - assert (a ∈ used (allocator_ fm)) as Hu.
    { destruct (po_fm _ _ _ Hok) as [_ He]. apply (ent_used _ _ _ He). by apply (list_elem_of_fmap_2' snd _ (id, a)). }
    unfold MemPool.free. rewrite decide_True by done. cbn. by destruct (frees _).
  - intros k. unfold view. pose proof (pool_keys _ _ _ Hok) as Hk.
    pose proof (spec_rest_NoDup l id Hk) as Hk'. case_decide as D.
    + subst k. rewrite id_of_key_of. assert (spec_lookup (spec_rest l id) id = None) as ->; [|done].
      apply spec_lookup_None. rewrite spec_rest_fst. tauto.
    + assert (Hl : spec_lookup (spec_rest l id) (id_of k) = spec_lookup l (id_of k)).
      { apply option_eq. intros b. rewrite !spec_lookup_elem, spec_rest_elem by done. cbn. split; [tauto|].
        intros Hb. split; [done|]. intros E. apply D. by rewrite <- E, key_of_id_of. }
      rewrite Hl. destruct (spec_lookup l (id_of k)) as [b|] eqn:E; [|done]. rewrite Hother; [done|].
      apply (Hne (id_of k)). rewrite <- spec_lookup_elem by done. congruence.
Qed.

(** [purge_frames] for one frame: when a frame is not in use, one is given back to the pool, after its
    page has been stored if it was dirty. *)
Lemma purge_one_ok pool fm l s :
  pool_ok fm l s → (∃ id a f, (id, a) ∈ l ∧ store fm !! a = Some f ∧ pin_count_ f = 0) →
  ∃ fm' s' n id, purge_frames fm 1 (purger iteration pool) s = Some (fm', s', n) ∧
    pool_ok fm' (spec_rest l id) s' ∧ sh_open s' = sh_open s ∧ frees (allocator_ fm') ≠ [] ∧
    (∀ k, view fm' (spec_rest l id) s' k = view fm l s k) ∧ stays fm l fm' (spec_rest l id).
Proof using iteration_perm.
  intros Hok (id1 & a1 & f1 & Hin1 & Hf1 & Hp1). rewrite (purge_frames_eq _ l) by apply (po_fm _ _ _ Hok).
  change (Z.to_nat (Z.max 1 1)) with 1%nat.
  assert (Hc : ∃ x, candidates (store fm) l 1 = [x]).
  { apply (candidates_one _ _ (id1, a1) Hin1). unfold unpinned. cbn. by rewrite Hf1. }
  destruct Hc as [[id a] Hc]. assert (Hin : (id, a) ∈ candidates (store fm) l 1) by (rewrite Hc; apply list_elem_of_here).
  apply candidates_sub in Hin as [Hin Hun]. rewrite Hc. cbn [fmap list_fmap snd pin_all foldr].
  unfold unpinned in Hun. cbn [snd] in Hun. destruct (store fm !! a) as [f|] eqn:Hf; [|done].
  set (fm0 := set_frame fm a (set_pin f 1)).
  assert (Hfm0 : with_store fm (alter (λ f, set_pin f (pin_count_ f + 1)) a (store fm)) = fm0).
  { unfold fm0, set_frame. f_equal. apply map_eq. intros b. destruct (decide (a = b)) as [<-|Hne].
    - rewrite lookup_alter_eq, lookup_insert_eq, Hf. cbn. by rewrite Hun.
    - by rewrite lookup_alter_ne, lookup_insert_ne. }
  rewrite Hfm0. destruct (pin_frame_ok fm l s id a f 1 Hok Hin Hf ltac:(lia)) as [Hok0 Hview0]. fold fm0 in Hok0, Hview0.
  assert (Hf0 : store fm0 !! a = Some (set_pin f 1)) by apply lookup_insert_eq.
  cbn [purge_each]. destruct (purger_clean pool fm0 l s id a _ Hok0 Hin Hf0) as (s' & f' & -> & Hok' & Hopen & Hd & Hp & Hid & Hview).
  cbn [mbind option_bind]. rewrite decide_True by done.
  assert (Hf' : store (set_frame fm0 a f') !! a = Some f') by apply lookup_insert_eq. rewrite Hf'. cbn [mbind option_bind].
  destruct (pool_frame _ _ _ _ _ Hok' Hin) as (f2 & Hf2 & Hid2 & _ & Hfr). rewrite Hf' in Hf2. injection Hf2 as <-. rewrite Hid2.
  destruct (free_clean _ l s' id a f' Hok' Hin Hf' Hp) as (fm' & -> & Hok2 & Hfree & Hother & Hview2).
  cbn [mbind option_bind]. exists fm', s', (0 + 1), id. split_and!; [done..| |].
  - intros k. rewrite Hview2, <- Hview0, <- Hview. case_decide as D; [|done]. subst k.
    by rewrite (view_hit _ _ _ id a f' Hok' Hin Hf'), (fr_clean _ _ _ Hfr Hd).
  - intros id' b g Hin' Hg Hpg. assert (b ≠ a) by (intros ->; assert (g = f) as -> by congruence; lia). split.
    + apply spec_rest_elem. split; [done|]. cbn. intros ->. by rewrite (pool_addr _ _ _ _ _ _ Hok Hin Hin') in *.
    + exists g. rewrite Hother by done. cbn [set_frame with_store store fm0]. by rewrite !lookup_insert_ne.
Qed.

(** ** Getting a frame *)

(** The frame that [allocate_frame] returns is new to the table and pinned once; nothing else has
    changed for the clients. *)
Record fresh_frame fm l s id fm' s' a fm1 l1 : Prop := {
  ff_ok : pool_ok fm1 l1 s';
  ff_wf : fm_wf fm' ((id, a) :: l1);
  ff_open : sh_open s' = sh_open s;
  ff_view : ∀ k, view fm1 l1 s' k = view fm l s k;
  ff_stays : stays fm l fm1 l1;
  ff_sub : ∀ x, x ∈ l1 → x ∈ l;
  ff_new : id ∉ l1.*1 ∧ a ∉ l1.*2;
  ff_frame : ∃ f, store fm' = <[a := set_pin f 1]> (store fm1) ∧ frame_id_ f = id;
}.

Lemma alloc_free_ok fm l s id :
  pool_ok fm l s → spec_lookup l id = None → frees (allocator_ fm) ≠ [] →
  ∃ fm' a, fm_alloc fm (fid_buffer_pool_id id) (fid_page_num id) = Some (fm', Some a) ∧ fresh_frame fm l s id fm' s a fm l.
Proof.
  intros Hok Hnone Hfree. pose proof (po_fm _ _ _ Hok) as [_ He].
  destruct (MemPool.alloc (allocator_ fm)) as [pool' [a|]] eqn:Hal; cycle 1.
  { by apply MemPool.alloc_None in Hal as [_ ?]; [|apply (ent_fixed _ _ _ He)]. }
  destruct id as [bp pn]. cbn [fid_buffer_pool_id fid_page_num].
  destruct (fm_alloc_fresh fm l bp pn a pool' (po_fm _ _ _ Hok) Hnone Hal) as (fm' & f & -> & Hf & Hst & Hpool & Hwf).
  exists fm', a. split; [done|]. constructor; try done.
  - apply stays_refl.
  - destruct Hwf as [_ He']. pose proof (ent_keys _ _ _ He') as Hk. pose proof (ent_addrs _ _ _ He') as Ha.
    rewrite fmap_cons in Hk. rewrite fmap_cons in Ha. apply NoDup_cons in Hk as [? _]. by apply NoDup_cons in Ha as [? _].
  - rewrite Hst. by eexists (set_page_num (set_buffer_pool_id f bp) pn).
Qed.

(** While a frame is free or not in use, the loop of [allocate_frame] ends in its second round at the
    latest. *)
Lemma allocate_frame_ok fuel fm l s id :
  pool_ok fm l s → spec_lookup l id = None → has_room fm l → (2 ≤ fuel)%nat →
  ∃ fm' s' a fm1 l1, allocate_frame iteration fuel (fid_buffer_pool_id id) (fid_page_num id) fm s = Some (fm', s', a) ∧
    fresh_frame fm l s id fm' s' a fm1 l1.
Proof using iteration_perm.
  intros Hok Hnone Hroom Hfuel. destruct fuel as [|[|fuel]]; [lia..|].
  destruct (decide (frees (allocator_ fm) = [])) as [Hfull|Hfree]; cycle 1.
  { destruct (alloc_free_ok fm l s id Hok Hnone Hfree) as (fm' & a & Hal & Hff).
    exists fm', s, a, fm, l. split; [|done]. cbn [allocate_frame]. by rewrite Hal. }
  destruct Hroom as [?|Hroom]; [done|].
  assert (Hstep : ∃ fm0, fm_alloc fm (fid_buffer_pool_id id) (fid_page_num id) = Some (fm0, None) ∧ pool_ok fm0 l s ∧ store fm0 = store fm).
  { unfold fm_alloc. destruct id as [bp pn]. cbn [fid_buffer_pool_id fid_page_num].
    destruct (get_internal_ok fm l (mkFrameId bp pn) (po_fm _ _ _ Hok)) as (fm0 & -> & Hwf & Hpool & Hst).
    unfold spec_get in Hwf. rewrite Hnone in Hwf, Hst |- *. cbn [mbind option_bind fst] in *. rewrite Hpool.
    unfold MemPool.alloc. rewrite Hfull. destruct (po_fm _ _ _ Hok) as [_ He]. rewrite (ent_fixed _ _ _ He). cbn [negb].
    eexists. split; [done|]. cbn [store]. split; [|done]. rewrite <- Hpool. destruct fm0 as [c p st]. cbn in *. constructor; [done|apply (po_shared _ _ _ Hok)|].
    intros id' b g Hin. rewrite Hst. by apply (po_frames _ _ _ Hok). }
  destruct Hstep as (fm0 & Hal & Hok0 & Hst0). cbn [allocate_frame]. rewrite Hal. cbn [mbind option_bind].
  rewrite <- Hst0 in Hroom.
  destruct (purge_one_ok (fid_buffer_pool_id id) fm0 l s Hok0 Hroom) as (fm1 & s1 & n & id1 & -> & Hok1 & Hopen & Hfree & Hview & Hstay).
  cbn [mbind option_bind].
  assert (Hnone1 : spec_lookup (spec_rest l id1) id = None).
  { apply spec_lookup_None. rewrite spec_rest_fst. apply spec_lookup_None in Hnone. tauto. }
  destruct (alloc_free_ok fm1 _ s1 id Hok1 Hnone1 Hfree) as (fm' & a & Hal1 & Hff). rewrite Hal1. cbn [mbind option_bind].
  exists fm', s1, a, fm1, (spec_rest l id1). split; [done|]. destruct Hff as [F1 F2 F3 F4 F5 F6 F7 F8]. constructor; try done.
  - intros k. rewrite Hview. unfold view. by rewrite Hst0.
  - intros id' b g. rewrite <- Hst0. apply Hstay.
  - by intros x [Hx _]%spec_rest_elem.
Qed.

(** Putting a page into the new frame. *)
Lemma install_ok fm l s id fm' s' a fm1 l1 f :
  fresh_frame fm l s id fm' s' a fm1 l1 → frame_id_ f = id → 0 ≤ pin_count_ f → frame_ok s' id f →
  let l' := (id, a) :: l1 in let fm2 := set_frame fm' a f in
  pool_ok fm2 l' s' ∧ stays fm l fm2 l' ∧ store fm2 !! a = Some f ∧
  ∀ k, view fm2 l' s' k = if decide (k = key_of id) then Some (content (page_ f)) else view fm l s k.
Proof.
  intros [Hok [Ha He] Hopen Hview Hstay _ [Hn1 Hn2] (f0 & Hst & Hid0)] Hid Hp Hfr l' fm2.
  assert (Hf2 : store fm2 !! a = Some f) by apply lookup_insert_eq.
  assert (Hother : ∀ b, b ≠ a → store fm2 !! b = store fm1 !! b).
  { intros b Hb. unfold fm2. cbn [set_frame with_store store]. by rewrite Hst, !lookup_insert_ne. }
  assert (Hne : ∀ id' b, (id', b) ∈ l1 → b ≠ a) by (intros id' b Hb ->; apply Hn2; by apply (list_elem_of_fmap_2' snd _ (id', a))).
  assert (Hnid : ∀ id' b, (id', b) ∈ l1 → id' ≠ id) by (intros id' b Hb ->; apply Hn1; by apply (list_elem_of_fmap_2' fst _ (id, b))).
  assert (Hok2 : pool_ok fm2 l' s').
  { constructor.
    - split; [done|]. cbn. eapply (entries_update _ (store fm') l' id a (set_pin f0 1)); [done|apply list_elem_of_here| |by rewrite Hid|done].
      rewrite Hst. apply lookup_insert_eq.
    - apply (po_shared _ _ _ Hok).
    - intros id' b g [[= -> ->]|Hin]%elem_of_cons.
      + rewrite Hf2. by intros [= <-].
      + rewrite Hother by eauto. by apply (po_frames _ _ _ Hok). }
  split_and!; [done| |done|].
  - intros id' b g Hin Hg Hpg. destruct (Hstay id' b g Hin Hg Hpg) as (Hin1 & g1 & Hg1 & Hp1 & Hc1).
    split; [by apply list_elem_of_further|]. exists g1. rewrite Hother by eauto. done.
  - intros k. case_decide as D.
    + subst k. apply (view_hit _ _ _ id a f Hok2); [apply list_elem_of_here|done].
    + rewrite <- Hview. unfold view. assert (Hl : spec_lookup l' (id_of k) = spec_lookup l1 (id_of k)).
      { unfold spec_lookup, l'. cbn [list_to_map foldr fst snd]. rewrite lookup_insert_ne; [done|].
        intros E. apply D. by rewrite E, key_of_id_of. }
      rewrite Hl. destruct (spec_lookup l1 (id_of k)) as [b|] eqn:E; [|done]. rewrite Hother; [done|].
      apply (Hne (id_of k)). apply spec_lookup_elem; [apply (pool_keys _ _ _ Hok)|done].
Qed.

(** ** The operations on one page *)

Lemma with_store_id fm : with_store fm (store fm) = fm.
Proof. by destruct fm. Qed.

Lemma fm_get_ok fm l s id :
  pool_ok fm l s →
  ∃ fm' l', fm_get fm (fid_buffer_pool_id id) (fid_page_num id) = Some (fm', spec_lookup l id) ∧ l' ≡ₚ l ∧
    pool_ok fm' l' s ∧ (∀ k, view fm' l' s k = view fm l s k) ∧ stays fm l fm' l' ∧ allocator_ fm' = allocator_ fm ∧
    store fm' = match spec_lookup l id with
                | Some a => alter (λ f, set_pin f (pin_count_ f + 1)) a (store fm)
                | None => store fm
                end.
Proof using.
  intros Hok. unfold fm_get. replace (mkFrameId (fid_buffer_pool_id id) (fid_page_num id)) with id by by destruct id.
  destruct (get_internal_ok fm l id (po_fm _ _ _ Hok)) as (fm' & -> & Hwf & Hal & Hst).
  pose proof (pool_keys _ _ _ Hok) as Hk. pose proof (spec_get_perm l id Hk) as Hp.
  exists fm', (spec_get l id).1. split; [done|]. split; [done|].
  assert (Hsame : ∃ fm1, pool_ok fm1 l s ∧ store fm1 = store fm' ∧ stays fm l fm1 l ∧ ∀ k, view fm1 l s k = view fm l s k).
  { destruct (spec_lookup l id) as [a|] eqn:E; cycle 1.
    { exists fm. split_and!; try done. apply stays_refl. }
    apply spec_lookup_elem in E as Hin; [|done]. destruct (pool_frame _ _ _ _ _ Hok Hin) as (f & Hf & _ & Hpin & _).
    destruct (pin_frame_ok fm l s id a f (pin_count_ f + 1) Hok Hin Hf ltac:(lia)) as [Hok1 Hv1].
    eexists. split; [exact Hok1|]. split; [|split; [|exact Hv1]].
    - rewrite Hst. cbn. apply map_eq. intros b. destruct (decide (a = b)) as [<-|?].
      + by rewrite lookup_alter_eq, lookup_insert_eq, Hf.
      + by rewrite lookup_alter_ne, lookup_insert_ne.
    - eapply stays_set_frame; eauto. cbn. lia. }
  destruct Hsame as (fm1 & Hok1 & Hst1 & Hstay & Hv). split_and!; [| | |done|done].
  - constructor; [done|apply (po_shared _ _ _ Hok)|]. intros id' b g. rewrite Hp, <- Hst1. apply (po_frames _ _ _ Hok1).
  - intros k. rewrite <- (view_perm fm' l _ s k Hk) by done. rewrite <- Hv. unfold view. by rewrite Hst1.
  - intros id' b g. rewrite Hp, <- Hst1. apply Hstay.
Qed.

(** [load_page] fills the frame with the stored image, if there is one. *)
Lemma load_page_ok fm s id a f :
  store fm !! a = Some f → frame_id_ f = id →
  load_page (fid_buffer_pool_id id) (fid_page_num id) fm s a =
    match storage_view s (key_of id) with
    | Some p => Some (set_frame fm a (set_page f p), RC_SUCCESS)
    | None => Some (fm, RC_IOERR_READ)
    end.
Proof using.
  intros Hf Hid. unfold load_page, read_page, storage_view, page_view. rewrite Hf. cbn [mbind option_bind].
  change (key_of id) with (fid_buffer_pool_id id, fid_page_num id).
  destruct (dblwr_pages_ (sh_dw s) !! _); [done|]. destruct (main_pages (sh_disk s) !! _); [|done].
  subst id. by destruct f as [? ? [? ?] ?].
Qed.

Definition got fm l s id fm' l' s' a : Prop :=
  pool_ok fm' l' s' ∧ sh_open s' = sh_open s ∧ (∀ k, view fm' l' s' k = view fm l s k) ∧ stays fm l fm' l' ∧
  (∀ x, x ∈ l' → x.1 = id ∨ x ∈ l) ∧ (id, a) ∈ l' ∧ ∃ f, store fm' !! a = Some f ∧ 0 < pin_count_ f ∧ view fm l s (key_of id) = Some (content (page_ f)).

(** [get_this_page] of a page that exists: a pinned frame with the newest contents. *)
Lemma get_this_page_ok fuel fm l s id :
  pool_ok fm l s → is_Some (sh_open s !! fid_buffer_pool_id id) → view fm l s (key_of id) ≠ None →
  has_room fm l ∨ is_Some (spec_lookup l id) → (2 ≤ fuel)%nat →
  ∃ fm' s' l' a, get_this_page iteration fuel (fid_buffer_pool_id id) (fid_page_num id) fm s = Some (fm', s', inl a) ∧
    got fm l s id fm' l' s' a.
Proof using iteration_perm.
  intros Hok Hopen Hex Hroom Hfuel. unfold get_this_page.
  destruct (fm_get_ok fm l s id Hok) as (fm1 & l1 & -> & Hp1 & Hok1 & Hv1 & Hst1 & Hal1 & Hs1). cbn [mbind option_bind].
  destruct (spec_lookup l id) as [a|] eqn:E.
  - exists fm1, s, l1, a. split; [done|]. apply spec_lookup_elem in E as Hin; [|by eapply pool_keys].
    destruct (pool_frame _ _ _ _ _ Hok Hin) as (f & Hf & _ & Hpin & _).
    split_and!; try done; [intros x; rewrite Hp1; by right|by rewrite Hp1|]. eexists. rewrite Hs1, lookup_alter_eq, Hf. split; [done|]. cbn. split; [lia|].
    by rewrite (view_hit _ _ _ id a f).
  - assert (Hroom1 : has_room fm1 l1).
    { destruct Hroom as [[Hr|(id0 & a0 & f0 & Hr)]|[? ?]]; [left; by rewrite Hal1| |done].
      right. exists id0, a0, f0. by rewrite Hp1, Hs1. }
    assert (E1 : spec_lookup l1 id = None) by (apply spec_lookup_None; rewrite Hp1; by apply spec_lookup_None).
    destruct (allocate_frame_ok fuel fm1 l1 s id Hok1 E1 Hroom1 Hfuel) as (fm2 & s2 & a & fm3 & l3 & -> & Hff).
    cbn [mbind option_bind]. pose proof Hff as [F1 F2 F3 F4 F5 F5' F6 (f & Hst & Hid)].
    assert (Hf : store fm2 !! a = Some (set_pin f 1)) by (rewrite Hst; apply lookup_insert_eq). rewrite Hf. cbn [mbind option_bind].
    assert (Hbp : set_buffer_pool_id (set_pin f 1) (fid_buffer_pool_id id) = set_pin f 1).
    { subst id. by destruct f as [? ? [? ?] ?]. }
    rewrite Hbp. assert (Hsame : set_frame fm2 a (set_pin f 1) = fm2).
    { unfold set_frame. rewrite insert_id by done. apply with_store_id. }
    rewrite Hsame, (load_page_ok fm2 s2 id a (set_pin f 1)) by done.
    assert (Hsv : storage_view s2 (key_of id) = None → view fm l s (key_of id) = None).
    { intros Hn. rewrite <- Hv1, <- F4. unfold view. rewrite id_of_key_of, (proj2 (spec_lookup_None l3 id)) by tauto. by rewrite Hn. }
    destruct (storage_view s2 (key_of id)) as [p|] eqn:Ep; [|by destruct Hex; apply Hsv]. clear Hsv.
    cbn [mbind option_bind]. change (OB_FAIL RC_SUCCESS) with false. cbv iota.
    destruct (install_ok fm1 l1 s id fm2 s2 a fm3 l3 (set_page (set_pin f 1) p) Hff Hid ltac:(cbn; lia)) as (G1 & G2 & G3 & G4).
    { constructor; [by rewrite F3|done]. }
    assert (Hnew : view fm l s (key_of id) = Some (content p)).
    { rewrite <- Hv1, <- F4. unfold view. rewrite id_of_key_of, (proj2 (spec_lookup_None l3 id)) by tauto. by rewrite Ep. }
    do 2 eexists. exists ((id, a) :: l3), a. split; [done|]. split_and!; [done|done| | | |apply list_elem_of_here|].
    + intros k. rewrite G4, Hv1. case_decide; [by subst|done].
    + by eapply stays_trans.
    + intros x [->|Hx]%elem_of_cons; [by left|]. right. apply F5' in Hx. by rewrite Hp1 in Hx.
    + eexists. split; [exact G3|]. done.
Qed.

(** [purge_frame] of a frame that only the caller has pinned. *)
Lemma purge_frame_ok fm l s id a f :
  pool_ok fm l s → (id, a) ∈ l → store fm !! a = Some f →
  ∃ fm' s' rc, purge_frame iteration (fid_buffer_pool_id id) (fid_page_num id) fm s a = Some (fm', s', rc) ∧
    sh_open s' = sh_open s ∧
    if decide (pin_count_ f = 1)
    then rc = RC_SUCCESS ∧ pool_ok fm' (spec_rest l id) s' ∧ (∀ b, b ≠ a → store fm' !! b = store fm !! b) ∧
         (∀ k, view fm' (spec_rest l id) s' k = view fm l s k)
    else rc = RC_LOCKED_UNLOCK ∧ fm' = fm ∧ s' = s.
Proof using iteration_perm.
  intros Hok Hin Hf. unfold purge_frame. rewrite Hf. cbn [mbind option_bind]. case_decide as Hp; cycle 1.
  { rewrite (proj2 (Z.eqb_neq _ _)) by done. cbn [negb]. by eexists _, _, _. }
  rewrite Hp. cbn [negb Z.eqb Pos.eqb].
  destruct (pool_frame _ _ _ _ _ Hok Hin) as (f0 & Hf0 & Hid & _ & Hfr). assert (f0 = f) as -> by congruence. clear Hf0.
  assert (Hflush : ∃ s1 f1, (if dirty_ f then flush_page_internal iteration (fid_buffer_pool_id id) fm s a else Some (fm, s, RC_SUCCESS))
      = Some (set_frame fm a f1, s1, RC_SUCCESS) ∧ pool_ok (set_frame fm a f1) l s1 ∧ sh_open s1 = sh_open s ∧
      dirty_ f1 = false ∧ pin_count_ f1 = 1 ∧ ∀ k, view (set_frame fm a f1) l s1 k = view fm l s k).
  { destruct (dirty_ f) eqn:Ed.
    - destruct (flush_internal_ok fm l s id a f Hok Hin Hf) as (s1 & sum & Hfl & Hok1 & Ho & Hv & _).
      exists s1. eexists. split; [exact Hfl|]. done.
    - exists s, f. unfold set_frame. rewrite insert_id, with_store_id by done. done. }
  destruct Hflush as (s1 & f1 & -> & Hok1 & Ho & Hd & Hp1 & Hv). cbn [mbind option_bind].
  change (OB_FAIL RC_SUCCESS) with false. cbv iota.
  assert (Hf1 : store (set_frame fm a f1) !! a = Some f1) by apply lookup_insert_eq.
  destruct (free_clean _ l s1 id a f1 Hok1 Hin Hf1 Hp1) as (fm' & Hfree & Hok2 & _ & Hother & Hv2).
  unfold fm_free. replace (mkFrameId (fid_buffer_pool_id id) (fid_page_num id)) with id by by destruct id.
  rewrite Hfree. cbn [mbind option_bind]. eexists _, _, _. split; [done|]. split; [done|]. split_and!; [done..| |].
  - intros b Hb. rewrite Hother by done. cbn. by apply lookup_insert_ne.
  - intros k. rewrite Hv2, <- Hv. case_decide as D; [|done]. subst k.
    rewrite (view_hit _ _ _ id a f1 Hok1 Hin Hf1). destruct (po_frames _ _ _ Hok1 id a f1 Hin Hf1) as [_ Hc]. by rewrite (Hc Hd).
Qed.

(** [get_this_page] of a page that does not exist fails.  The frame that was taken for it can still be
    marked dirty by its previous page ([dispose_page] frees dirty frames): then what it holds is stored
    as the page; no other page changes. *)
Lemma get_missing_ok fuel fm l s id :
  pool_ok fm l s → is_Some (sh_open s !! fid_buffer_pool_id id) → view fm l s (key_of id) = None →
  has_room fm l → (2 ≤ fuel)%nat →
  ∃ fm' s' l', get_this_page iteration fuel (fid_buffer_pool_id id) (fid_page_num id) fm s = Some (fm', s', inr RC_IOERR_READ) ∧
    pool_ok fm' l' s' ∧ sh_open s' = sh_open s ∧ stays fm l fm' l' ∧ ∀ k, k ≠ key_of id → view fm' l' s' k = view fm l s k.
Proof using iteration_perm.
  intros Hok Hopen Hmiss Hroom Hfuel. unfold get_this_page.
  destruct (fm_get_ok fm l s id Hok) as (fm1 & l1 & -> & Hp1 & Hok1 & Hv1 & Hst1 & Hal1 & Hs1). cbn [mbind option_bind].
  destruct (spec_lookup l id) as [a|] eqn:E.
  { apply spec_lookup_elem in E as Hin; [|by eapply pool_keys]. destruct (pool_frame _ _ _ _ _ Hok Hin) as (f & Hf & _).
    by rewrite (view_hit _ _ _ id a f Hok Hin Hf) in Hmiss. }
  assert (Hroom1 : has_room fm1 l1).
  { destruct Hroom as [Hr|(id0 & a0 & f0 & Hr)]; [left; by rewrite Hal1|]. right. exists id0, a0, f0. by rewrite Hp1, Hs1. }
  assert (E1 : spec_lookup l1 id = None) by (apply spec_lookup_None; rewrite Hp1; by apply spec_lookup_None).
  destruct (allocate_frame_ok fuel fm1 l1 s id Hok1 E1 Hroom1 Hfuel) as (fm2 & s2 & a & fm3 & l3 & -> & Hff).
  cbn [mbind option_bind]. pose proof Hff as [F1 F2 F3 F4 F5 F5' F6 (f & Hst & Hid)].
  assert (Hf : store fm2 !! a = Some (set_pin f 1)) by (rewrite Hst; apply lookup_insert_eq). rewrite Hf. cbn [mbind option_bind].
  assert (Hbp : set_buffer_pool_id (set_pin f 1) (fid_buffer_pool_id id) = set_pin f 1).
  { subst id. by destruct f as [? ? [? ?] ?]. }
  rewrite Hbp. assert (Hsame : set_frame fm2 a (set_pin f 1) = fm2).
  { unfold set_frame. rewrite insert_id by done. apply with_store_id. }
  rewrite Hsame, (load_page_ok fm2 s2 id a (set_pin f 1)) by done.
  assert (Hsv : content <$> storage_view s2 (key_of id) = view fm l s (key_of id)).
  { rewrite <- Hv1, <- F4. unfold view. by rewrite id_of_key_of, (proj2 (spec_lookup_None l3 id)) by tauto. }
  rewrite Hmiss in Hsv. destruct (storage_view s2 (key_of id)) as [p|] eqn:Ep; [done|]. clear Hsv.
  cbn [mbind option_bind]. change (OB_FAIL RC_IOERR_READ) with true. cbv iota.
  assert (Hrest : spec_rest ((id, a) :: l3) id = l3).
  { unfold spec_rest. rewrite filter_cons_False by (cbn; tauto). apply spec_rest_notin. tauto. }
  destruct (dirty_ f) eqn:Ed.
  - destruct (install_ok fm1 l1 s id fm2 s2 a fm3 l3 (set_pin f 1) Hff Hid ltac:(cbn; lia)) as (G1 & G2 & G3 & G4).
    { constructor; [by rewrite F3|]. cbn. by rewrite Ed. }
    rewrite Hsame in G1, G2, G3, G4.
    destruct (purge_frame_ok fm2 ((id, a) :: l3) s2 id a (set_pin f 1) G1 (list_elem_of_here _ _) G3) as (fm' & s' & rc & -> & Ho & Hres).
    rewrite decide_True in Hres by done. destruct Hres as (-> & Hok' & Hoth & Hv'). rewrite Hrest in Hok', Hv'. cbn [mbind option_bind].
    exists fm', s', l3. split; [done|]. split_and!; [done|congruence| |].
    + apply (stays_trans _ _ fm1 l1); [done|]. apply (stays_trans _ _ fm3 l3); [done|]. intros id' b g Hin Hg Hpg. split; [done|].
      exists g. assert (b ≠ a) by (intros ->; apply F6; by apply (list_elem_of_fmap_2' snd _ (id', a))).
      rewrite Hoth, Hst, lookup_insert_ne by done. done.
    + intros k Hk. by rewrite Hv', G4, decide_False, Hv1.
  - unfold purge_frame. rewrite Hf. cbn [mbind option_bind dirty_ set_pin pin_count_]. rewrite Ed. cbn [negb Z.eqb Pos.eqb mbind option_bind].
    change (OB_FAIL RC_SUCCESS) with false. cbv iota. unfold fm_free.
    replace (mkFrameId (fid_buffer_pool_id id) (fid_page_num id)) with id by by destruct id.
    destruct (free_internal_ok fm2 _ id a (set_pin f 1) F2 (list_elem_of_here _ _) Hf eq_refl) as (fm' & -> & Hwf' & Hst' & _).
    cbn [mbind option_bind]. unfold spec_remove in Hwf'. rewrite Hrest in Hwf'.
    assert (Hother : ∀ id' b, (id', b) ∈ l3 → store fm' !! b = store fm3 !! b).
    { intros id' b Hin. assert (b ≠ a) by (intros ->; apply F6; by apply (list_elem_of_fmap_2' snd _ (id', a))).
      by rewrite Hst', Hst, !lookup_insert_ne. }
    exists fm', s2, l3. split; [done|]. split_and!; [|done| |].
    + constructor; [done|apply (po_shared _ _ _ F1)|]. intros id' b g Hin. rewrite (Hother id') by done. by apply (po_frames _ _ _ F1).
    + apply (stays_trans _ _ fm1 l1); [done|]. apply (stays_trans _ _ fm3 l3); [done|]. intros id' b g Hin Hg Hpg. split; [done|].
      exists g. by rewrite (Hother id').
    + intros k Hk. rewrite <- Hv1, <- F4. unfold view. destruct (spec_lookup l3 (id_of k)) as [b|] eqn:Eb; [|done].
      rewrite (Hother (id_of k)); [done|]. apply spec_lookup_elem; [by eapply pool_keys|done].
Qed.

(** ** The operations on all pages of a pool *)

(** The frames of a pool, in the order of the table. *)
Definition frames_of (pool : Z) l : list (FrameId * positive) := filter (λ x, fid_buffer_pool_id x.1 = pool) l.

Lemma fetcher_spec pool (st : gmap positive (Frame (list Z))) r : ∀ found,
  (∀ id a, (id, a) ∈ r → is_Some (st !! a)) → NoDup (found ++ r.*2) →
  spec_foreach (fetcher pool) r (Some (pin_all st found, found)) =
    Some (pin_all st (found ++ (frames_of pool r).*2), found ++ (frames_of pool r).*2).
Proof using.
  induction r as [|[id a] r IH]; intros found Hlive Hnd.
  { cbn [spec_foreach]. unfold frames_of. by rewrite filter_nil, app_nil_r. }
  rewrite fmap_cons in Hnd. cbn [snd] in Hnd. apply NoDup_middle in Hnd as Hsplit. destruct Hsplit as (Ha1 & Ha2 & Hf & Hr & Hdis).
  destruct (Hlive id a (list_elem_of_here _ _)) as [f Ef].
  assert (Hlive' : ∀ id a, (id, a) ∈ r → is_Some (st !! a)) by (intros; eapply Hlive; by apply list_elem_of_further).
  cbn [spec_foreach]. unfold fetcher at 1, frames_of. destruct (pool =? fid_buffer_pool_id id) eqn:E; zify_bool.
  - rewrite filter_cons_True by (cbn; done). unfold pin. rewrite pin_all_lookup, decide_False, Ef by done. cbn [mbind option_bind].
    assert (NoDup (found ++ [a])) as Hn.
    { apply NoDup_app. split; [done|]. split; [|apply NoDup_singleton]. by intros x Hx ->%list_elem_of_singleton. }
    pose proof (pin_all_snoc st found a f Hn Ef) as Hst.
    rewrite Hst, IH by (try done; by rewrite <- app_assoc). by rewrite <- app_assoc.
  - rewrite filter_cons_False by (cbn; congruence). apply IH; [done|].
    apply NoDup_app. split_and!; [done| |done]. intros x Hx Hx2. by apply (Hdis x).
Qed.

Lemma frames_of_NoDup pool l : NoDup l.*2 → NoDup (frames_of pool l).*2.
Proof using. apply NoDup_filter_snd. Qed.

(** Pinning several mapped frames. *)
Lemma pin_list_ok l s cs : ∀ fm,
  pool_ok fm l s → (∀ x, x ∈ cs → x ∈ l) → NoDup cs.*2 →
  let fm' := with_store fm (pin_all (store fm) cs.*2) in
  pool_ok fm' l s ∧ (∀ k, view fm' l s k = view fm l s k) ∧ stays fm l fm' l.
Proof using.
  intros fm Hok Hin Hnd fm'.
  assert (Hlook : ∀ b, store fm' !! b = if decide (b ∈ cs.*2) then (λ f, set_pin f (pin_count_ f + 1)) <$> store fm !! b else store fm !! b).
  { intros b. by apply pin_all_lookup. }
  split_and!.
  - constructor; [|apply (po_shared _ _ _ Hok)|].
    + destruct (po_fm _ _ _ Hok) as [Ha He]. split; [done|]. destruct He as [Hw Hfx Hk Had Hu Hl Hi]. constructor; try done.
      * intros id a Hx. rewrite Hlook. destruct (Hl _ _ Hx) as (f & -> & Hid & Hp). case_decide; [|by exists f].
        eexists. split; [done|]. cbn. split; [done|lia].
      * intros a Hx. rewrite Hlook, decide_False; [by apply Hi|]. intros ([id b] & -> & Hc)%list_elem_of_fmap.
        apply (MemPool.wf_disj _ Hw _ Hx), Hu. apply (list_elem_of_fmap_2' snd _ (id, b)); [by apply Hin|done].
    + intros id a f Hx. rewrite Hlook. intros Hf. case_decide; [|by apply (po_frames _ _ _ Hok id a)].
      apply fmap_Some in Hf as (g & Hg & ->). destruct (po_frames _ _ _ Hok id a g Hx Hg). by constructor.
  - intros k. unfold view. destruct (spec_lookup l (id_of k)) as [a|]; [|done]. rewrite Hlook. case_decide; [|done]. cbn.
    by destruct (store fm !! a).
  - intros id a f Hx Hf Hp. split; [done|]. rewrite Hlook, Hf. case_decide; [|by exists f].
    eexists. split; [done|]. cbn. split; [lia|done].
Qed.

(** [find_list]: the frames of the pool, pinned. *)
Lemma find_list_ok pool fm l s :
  pool_ok fm l s →
  let cs := frames_of pool l in let fm' := with_store fm (pin_all (store fm) cs.*2) in
  find_list fm pool = Some (fm', cs.*2) ∧ pool_ok fm' l s ∧ (∀ k, view fm' l s k = view fm l s k) ∧ stays fm l fm' l ∧
  (∀ x, x ∈ cs → x ∈ l ∧ fid_buffer_pool_id x.1 = pool) ∧ NoDup cs.*2 ∧
  ∀ id a, (id, a) ∈ cs → ∃ f, store fm !! a = Some f ∧ store fm' !! a = Some (set_pin f (pin_count_ f + 1)).
Proof using.
  intros Hok cs fm'. pose proof (po_fm _ _ _ Hok) as [Ha He]. pose proof (frames_of_NoDup pool l (ent_addrs _ _ _ He)) as Hnd.
  assert (Hin : ∀ x, x ∈ cs → x ∈ l ∧ fid_buffer_pool_id x.1 = pool) by (intros x [? ?]%list_elem_of_filter; done).
  destruct (pin_list_ok l s cs fm Hok) as (Hok' & Hv & Hs); [intros; by apply Hin|done|].
  split_and!; [|done..|].
  - unfold find_list. rewrite (lru_foreach_ok _ _ _ _ Ha).
    assert (E : spec_foreach (fetcher pool) l (Some (store fm, [])) = Some (pin_all (store fm) cs.*2, cs.*2)); [|by rewrite E].
    apply (fetcher_spec pool (store fm) l []); [|apply (ent_addrs _ _ _ He)].
    intros id a Hx. destruct (ent_live _ _ _ He _ _ Hx) as (f & -> & _). eauto.
  - intros id a Hx. apply Hin in Hx as Hl. destruct Hl as [Hl _]. destruct (pool_frame _ _ _ _ _ Hok Hl) as (f & Hf & _).
    exists f. split; [done|]. cbn [with_store store fm']. rewrite pin_all_lookup, Hf, decide_True by (first [done | by apply (list_elem_of_fmap_2' snd _ (id, a))]).
    done.
Qed.

(** What the loops below keep of the frames they have not come to. *)
Lemma unpin_frame_ok fm l s id a f :
  pool_ok fm l s → (id, a) ∈ l → store fm !! a = Some f → 0 < pin_count_ f →
  unpin (store fm) a = Some (<[a := set_pin f (pin_count_ f - 1)]> (store fm)) ∧
  pool_ok (set_frame fm a (set_pin f (pin_count_ f - 1))) l s ∧
  ∀ k, view (set_frame fm a (set_pin f (pin_count_ f - 1))) l s k = view fm l s k.
Proof using.
  intros Hok Hin Hf Hp. split; [|by apply (pin_frame_ok _ _ _ id); try done; lia].
  unfold unpin. rewrite Hf. cbn [mbind option_bind]. by rewrite (proj2 (Z.ltb_lt _ _)).
Qed.

Lemma flush_list_ok pool cs : ∀ fm l s,
  pool_ok fm l s → (∀ x, x ∈ cs → x ∈ l ∧ fid_buffer_pool_id x.1 = pool) → NoDup cs.*2 →
  (∀ id a, (id, a) ∈ cs → ∃ f, store fm !! a = Some f ∧ 0 < pin_count_ f) →
  ∃ fm' s', flush_list iteration pool cs.*2 fm s = Some (fm', s', RC_SUCCESS) ∧ pool_ok fm' l s' ∧ sh_open s' = sh_open s ∧
    (∀ k, view fm' l s' k = view fm l s k) ∧
    (∀ b, b ∉ cs.*2 → store fm' !! b = store fm !! b) ∧
    (∀ id a, (id, a) ∈ cs → ∃ f f', store fm !! a = Some f ∧ store fm' !! a = Some f' ∧ pin_count_ f' = pin_count_ f - 1 ∧
       content (page_ f') = content (page_ f) ∧ storage_view s' (key_of id) = Some (page_ f')).
Proof using iteration_perm.
  induction cs as [|[id a] cs IH]; intros fm l s Hok Hcs Hnd Hpin; cbn [fmap list_fmap flush_list].
  { exists fm, s. split_and!; try done. intros id a Hx. by apply elem_of_nil in Hx. }
  rewrite fmap_cons in Hnd. apply NoDup_cons in Hnd as [Hna Hnd]. cbn [snd] in *.
  destruct (Hcs (id, a) (list_elem_of_here _ _)) as [Hin Hpool]. cbn [fst] in Hpool. subst pool.
  destruct (Hpin id a (list_elem_of_here _ _)) as (f & Hf & Hp).
  destruct (flush_internal_ok fm l s id a f Hok Hin Hf) as (s1 & sum & -> & Hok1 & Ho1 & Hv1 & Hst1). cbn [mbind option_bind].
  set (f1 := set_dirty _ false) in *.
  assert (Hf1 : store (set_frame fm a f1) !! a = Some f1) by apply lookup_insert_eq.
  destruct (unpin_frame_ok _ l s1 id a f1 Hok1 Hin Hf1 Hp) as (-> & Hok2 & Hv2). cbn [mbind option_bind].
  change (OB_FAIL RC_SUCCESS) with false. cbv iota.
  set (fm2 := set_frame (set_frame fm a f1) a (set_pin f1 (pin_count_ f1 - 1))) in *.
  change (with_store _ _) with fm2.
  assert (Hne : ∀ id' b, (id', b) ∈ cs → b ≠ a) by (intros id' b Hb ->; apply Hna; by apply (list_elem_of_fmap_2' snd _ (id', a))).
  assert (Hoth : ∀ b, b ≠ a → store fm2 !! b = store fm !! b) by (intros b Hb; cbn; by rewrite !lookup_insert_ne).
  destruct (IH fm2 l s1 Hok2) as (fm' & s' & -> & Hok' & Ho' & Hv' & Hoth' & Hcs').
  { intros x Hx. apply Hcs. by apply list_elem_of_further. }
  { done. }
  { intros id' b Hb. rewrite Hoth by eauto. apply (Hpin id'). by apply list_elem_of_further. }
  exists fm', s'. split; [done|]. split_and!; [done|congruence| | |].
  - intros k. by rewrite Hv', Hv2, Hv1.
  - intros b Hb. rewrite not_elem_of_cons in Hb. rewrite Hoth', Hoth by tauto. done.
  - intros id' b [[= -> ->]|Hb]%elem_of_cons.
    + exists f, (set_pin f1 (pin_count_ f1 - 1)). rewrite Hoth' by done. split; [done|]. split; [apply lookup_insert_eq|].
      split_and!; [done..|]. assert (Hin' : (id, a) ∈ l) by done.
      destruct (po_frames _ _ _ Hok' id a (set_pin f1 (pin_count_ f1 - 1)) Hin') as [_ Hc]; [|by apply Hc].
      rewrite Hoth' by done. apply lookup_insert_eq.
    + destruct (Hcs' id' b Hb) as (g & g' & Hg & Hrest). rewrite Hoth in Hg by eauto. by exists g, g'.
Qed.

(** [flush_all_pages]: every mapped page of the pool is stored as its clients see it. *)
Lemma flush_all_ok pool fm l s :
  pool_ok fm l s →
  ∃ fm' s', flush_all_pages iteration pool fm s = Some (fm', s', RC_SUCCESS) ∧ pool_ok fm' l s' ∧ sh_open s' = sh_open s ∧
    (∀ k, view fm' l s' k = view fm l s k) ∧ stays fm l fm' l ∧
    ∀ k, k.1 = pool → view fm l s k = content <$> storage_view s' k.
Proof using iteration_perm.
  intros Hok. destruct (find_list_ok pool fm l s Hok) as (Hfind & Hok1 & Hv1 & Hs1 & Hcs & Hnd & Hpin).
  unfold flush_all_pages. rewrite Hfind. cbn [mbind option_bind]. set (cs := frames_of pool l) in *.
  destruct (flush_list_ok pool cs _ l s Hok1 Hcs Hnd) as (fm' & s' & -> & Hok' & Ho' & Hv' & Hoth & Hcs').
  { intros id a Hx. destruct (Hpin id a Hx) as (f & Hf & Hf'). eexists. split; [exact Hf'|]. cbn.
    destruct (Hcs _ Hx) as [Hl _]. destruct (pool_frame _ _ _ _ _ Hok Hl) as (f0 & Hf0 & _ & Hp & _). assert (f0 = f) as -> by congruence. lia. }
  exists fm', s'. split_and!; try done.
  - intros k. by rewrite Hv', Hv1.
  - intros id a f Hin Hf Hp. split; [done|]. destruct (decide (a ∈ cs.*2)) as [Hx|Hx].
    + apply list_elem_of_fmap in Hx as ([id' b] & -> & Hx). destruct (Hcs' id' b Hx) as (g & g' & Hg & Hg' & Hpg & Hcg & _).
      destruct (Hpin id' b Hx) as (f0 & Hf0 & Hf0'). cbn [snd] in *. rewrite Hf0' in Hg. injection Hg as <-.
      assert (f0 = f) as -> by congruence. exists g'. split; [done|]. split; [cbn in Hpg; lia|done].
    + exists f. rewrite Hoth by done. split; [|done]. cbn [with_store store].
      rewrite pin_all_lookup by done. by rewrite decide_False.
  - intros k Hk. rewrite <- Hv1, <- Hv'. unfold view. destruct (spec_lookup l (id_of k)) as [a|] eqn:E; [|done].
    apply spec_lookup_elem in E; [|by eapply pool_keys].
    assert (Hx : (id_of k, a) ∈ cs) by (apply list_elem_of_filter; done).
    destruct (Hcs' _ _ Hx) as (f & f' & Hf & Hf' & _ & _ & Hst). rewrite key_of_id_of in Hst. by rewrite Hst, Hf'.
Qed.

Lemma purge_list_ok pool cs : ∀ fm l s,
  pool_ok fm l s → (∀ x, x ∈ cs → x ∈ l ∧ fid_buffer_pool_id x.1 = pool) → NoDup cs.*2 →
  ∃ fm' s' l', purge_list iteration pool cs.*2 fm s = Some (fm', s') ∧ pool_ok fm' l' s' ∧ sh_open s' = sh_open s ∧
    (∀ k, view fm' l' s' k = view fm l s k) ∧
    (∀ id a, (id, a) ∈ l' ↔ (id, a) ∈ l ∧ ((id, a) ∈ cs → pin_count_ <$> store fm !! a ≠ Some 1)) ∧
    (∀ id a, (id, a) ∈ l' → store fm' !! a = store fm !! a).
Proof using iteration_perm.
  induction cs as [|[id a] cs IH]; intros fm l s Hok Hcs Hnd; cbn [fmap list_fmap purge_list].
  { exists fm, s, l. split_and!; try done. intros id a. rewrite elem_of_nil. tauto. }
  rewrite fmap_cons in Hnd. apply NoDup_cons in Hnd as [Hna Hnd]. cbn [snd] in *.
  destruct (Hcs (id, a) (list_elem_of_here _ _)) as [Hin Hpool]. cbn [fst] in Hpool. subst pool.
  destruct (pool_frame _ _ _ _ _ Hok Hin) as (f & Hf & Hid & Hp & _). rewrite Hf. cbn [mbind option_bind]. rewrite Hid.
  destruct (purge_frame_ok fm l s id a f Hok Hin Hf) as (fm1 & s1 & rc & -> & Ho1 & Hres). cbn [mbind option_bind].
  assert (Hne : ∀ id' b, (id', b) ∈ cs → b ≠ a) by (intros id' b Hb ->; apply Hna; by apply (list_elem_of_fmap_2' snd _ (id', a))).
  assert (Hcons : ∀ id' b, (id', b) ∈ (id, a) :: cs ↔ (id', b) = (id, a) ∨ (id', b) ∈ cs) by (intros; apply elem_of_cons).
  assert (Hsame : ∀ id', (id', a) ∈ l → id' = id) by (intros id' Hx; symmetry; by eapply pool_unique).
  case_decide as Hpin.
  - destruct Hres as (-> & Hok1 & Hoth & Hv1).
    destruct (IH fm1 (spec_rest l id) s1 Hok1) as (fm' & s' & l' & -> & Hok' & Ho' & Hv' & Hl' & Hst'); [|done|].
    { intros [id' b] Hb. destruct (Hcs (id', b)) as [Hl Hbp]; [by apply list_elem_of_further|]. split; [|done].
      apply spec_rest_elem. split; [done|]. cbn. intros ->. apply (Hne _ _ Hb). exact (pool_addr _ _ _ _ _ _ Hok Hl Hin). }
    assert (Hb : ∀ id' b, (id', b) ∈ spec_rest l id → b ≠ a).
    { intros id' b [Hb Hk]%spec_rest_elem E. subst b. cbn in Hk. by apply Hk, Hsame. }
    exists fm', s', l'. split; [done|]. split_and!; [done|congruence| | |].
    + intros k. by rewrite Hv', Hv1.
    + intros id' b. rewrite Hl', Hcons, spec_rest_elem. cbn [fst]. split.
      * intros [[Hx Hk] Hc]. split; [done|]. rewrite <- Hoth; [|apply (Hb id'); by apply spec_rest_elem].
        intros [[= -> ->]|Hx']; [done|by apply Hc].
      * intros [Hx Hc]. assert (Hk : id' ≠ id).
        { intros ->. assert (b = a) as -> by exact (pool_addr _ _ _ _ _ _ Hok Hx Hin). apply Hc; [by left|]. rewrite Hf. cbn. by rewrite Hpin. }
        split; [done|]. intros Hx'. rewrite Hoth by eauto. apply Hc. by right.
    + intros id' b Hx. rewrite (Hst' id') by done. apply Hl' in Hx as [Hx _]. apply Hoth. by eapply Hb.
  - destruct Hres as (-> & -> & ->).
    destruct (IH fm l s Hok) as (fm' & s' & l' & -> & Hok' & Ho' & Hv' & Hl' & Hst'); [|done|].
    { intros x Hx. apply Hcs. by apply list_elem_of_further. }
    exists fm', s', l'. split_and!; try done. intros id' b. rewrite Hl', Hcons. split.
    + intros [Hx Hc]. split; [done|]. intros [[= -> ->]|Hx']; [|by apply Hc]. rewrite Hf. cbn. congruence.
    + intros [Hx Hc]. split; [done|]. intros Hx'. apply Hc. by right.
Qed.

(** [purge_all_pages]: the pages of the pool that nobody uses leave the table. *)
Lemma purge_all_ok pool fm l s :
  pool_ok fm l s →
  ∃ fm' s' l', purge_all_pages iteration pool fm s = Some (fm', s', RC_SUCCESS) ∧ pool_ok fm' l' s' ∧ sh_open s' = sh_open s ∧
    (∀ k, view fm' l' s' k = view fm l s k) ∧ stays fm l fm' l' ∧
    ∀ id a, (id, a) ∈ l' → fid_buffer_pool_id id = pool → (id, a) ∈ l ∧ ∃ f, store fm !! a = Some f ∧ 0 < pin_count_ f.
Proof using iteration_perm.
  intros Hok. destruct (find_list_ok pool fm l s Hok) as (Hfind & Hok1 & Hv1 & Hs1 & Hcs & Hnd & Hpin).
  unfold purge_all_pages. rewrite Hfind. cbn [mbind option_bind]. set (cs := frames_of pool l) in *.
  destruct (purge_list_ok pool cs _ l s Hok1 Hcs Hnd) as (fm' & s' & l' & -> & Hok' & Ho' & Hv' & Hl' & Hst'). cbn [mbind option_bind].
  set (fm1 := with_store fm (pin_all (store fm) cs.*2)) in *.
  exists fm', s', l'. split_and!; try done.
  - intros k. by rewrite Hv', Hv1.
  - intros id a f Hin Hf Hp. destruct (Hs1 id a f Hin Hf Hp) as (_ & f1 & Hf1 & Hp1 & Hc1).
    assert (Hin' : (id, a) ∈ l').
    { apply Hl'. split; [done|]. intros Hx. destruct (Hpin id a Hx) as (f0 & Hf0 & Hf0'). rewrite Hf0'. cbn. intros [= E].
      assert (f0 = f) as -> by congruence. lia. }
    split; [done|]. exists f1. by rewrite (Hst' id).
  - intros id a [Hin Hc]%Hl' Hpool. split; [done|].
    assert (Hx : (id, a) ∈ cs) by (apply list_elem_of_filter; done). specialize (Hc Hx).
    destruct (Hpin id a Hx) as (f & Hf & Hf'). destruct (pool_frame _ _ _ _ _ Hok Hin) as (f0 & Hf0 & _ & Hp & _).
    exists f. split; [done|]. assert (f0 = f) as -> by congruence. rewrite Hf' in Hc. cbn in Hc.
    destruct (decide (pin_count_ f = 0)) as [E|]; [by rewrite E in Hc|lia].
Qed.

Lemma unpin_list_ok cs : ∀ fm l s,
  pool_ok fm l s → (∀ x, x ∈ cs → x ∈ l) → NoDup cs.*2 →
  (∀ id a, (id, a) ∈ cs → ∃ f, store fm !! a = Some f ∧ 0 < pin_count_ f) →
  ∃ fm', unpin_list cs.*2 fm = Some fm' ∧ pool_ok fm' l s ∧ (∀ k, view fm' l s k = view fm l s k) ∧
    ∀ b, store fm' !! b = if decide (b ∈ cs.*2) then (λ f, set_pin f (pin_count_ f - 1)) <$> store fm !! b else store fm !! b.
Proof using.
  induction cs as [|[id a] cs IH]; intros fm l s Hok Hcs Hnd Hpin; cbn [fmap list_fmap unpin_list].
  { by exists fm. }
  rewrite fmap_cons in Hnd. apply NoDup_cons in Hnd as [Hna Hnd]. cbn [snd] in *.
  pose proof (Hcs (id, a) (list_elem_of_here _ _)) as Hin. destruct (Hpin id a (list_elem_of_here _ _)) as (f & Hf & Hp).
  destruct (unpin_frame_ok fm l s id a f Hok Hin Hf Hp) as (-> & Hok1 & Hv1). cbn [mbind option_bind].
  change (with_store fm _) with (set_frame fm a (set_pin f (pin_count_ f - 1))). set (fm1 := set_frame fm a _) in *.
  assert (Hne : ∀ id' b, (id', b) ∈ cs → b ≠ a) by (intros id' b Hb ->; apply Hna; by apply (list_elem_of_fmap_2' snd _ (id', a))).
  assert (Hoth : ∀ b, b ≠ a → store fm1 !! b = store fm !! b) by (intros b Hb; cbn; by apply lookup_insert_ne).
  destruct (IH fm1 l s Hok1) as (fm' & -> & Hok' & Hv' & Hst').
  { intros x Hx. apply Hcs. by apply list_elem_of_further. }
  { done. }
  { intros id' b Hb. rewrite Hoth by eauto. apply (Hpin id'). by apply list_elem_of_further. }
  exists fm'. split; [done|]. split_and!; [done| |].
  - intros k. by rewrite Hv', Hv1.
  - intros b. rewrite Hst'. destruct (decide (b = a)) as [->|Hb].
    + rewrite decide_False by done. rewrite decide_True by apply list_elem_of_here. rewrite Hf. apply lookup_insert_eq.
    + rewrite Hoth by done. apply decide_ext. rewrite elem_of_cons. tauto.
Qed.

(** [check_all_pages_unpinned] leaves everything as it is. *)
Lemma check_all_ok pool fm l s :
  pool_ok fm l s →
  ∃ fm', check_all_pages_unpinned pool fm = Some (fm', RC_SUCCESS) ∧ pool_ok fm' l s ∧ store fm' = store fm ∧
    ∀ k, view fm' l s k = view fm l s k.
Proof using.
  intros Hok. destruct (find_list_ok pool fm l s Hok) as (Hfind & Hok1 & Hv1 & Hs1 & Hcs & Hnd & Hpin).
  unfold check_all_pages_unpinned. rewrite Hfind. cbn [mbind option_bind]. set (cs := frames_of pool l) in *.
  destruct (unpin_list_ok cs _ l s Hok1) as (fm' & -> & Hok' & Hv' & Hst'); [intros; by apply Hcs|done| |].
  { intros id a Hx. destruct (Hpin id a Hx) as (f & Hf & Hf'). eexists. split; [exact Hf'|]. cbn.
    destruct (Hcs _ Hx) as [Hl _]. destruct (pool_frame _ _ _ _ _ Hok Hl) as (f0 & Hf0 & _ & Hp & _). assert (f0 = f) as -> by congruence. lia. }
  cbn [mbind option_bind]. exists fm'. split_and!; [done|done| |intros k; by rewrite Hv', Hv1].
  apply map_eq. intros b. rewrite Hst'. cbn [with_store store]. rewrite pin_all_lookup by done.
  case_decide; [|done]. destruct (store fm !! b) as [[? n ? ?]|]; [|done]. cbn. do 3 f_equal. unfold set_pin. cbn. f_equal. lia.
Qed.

(** ** The pool as a map of pages *)

(** The calls of the clients; [CWrite] is what a client does to a frame it holds: it changes the data
    and the number of the page and marks the frame. *)
Inductive PoolCall :=
  | CGet (k : PageKey) | CUnpin (a : positive) | CWrite (a : positive) (n : Z) (bytes : list Z)
  | CFlush (k : PageKey) (a : positive) | CFlushAll (pool : Z) | CPurge (k : PageKey) | CPurgeAll (pool : Z) | CCheck (pool : Z).

Definition pool_call (fuel : nat) (c : PoolCall) fm s : option (FM * Shared L * (positive + RC)) :=
  match c with
  | CGet k => get_this_page iteration fuel k.1 k.2 fm s
  | CUnpin a => '(fm, rc) ← unpin_page fm a; Some (fm, s, inr rc)
  | CWrite a n bytes =>
      f ← store fm !! a;
      Some (set_frame fm a (set_dirty (set_page f (mkPage n (check_sum (page_ f)) bytes)) true), s, inr RC_SUCCESS)
  | CFlush k a => '(fm, s, rc) ← flush_page_internal iteration k.1 fm s a; Some (fm, s, inr rc)
  | CFlushAll pool => '(fm, s, rc) ← flush_all_pages iteration pool fm s; Some (fm, s, inr rc)
  | CPurge k => '(fm, s, rc) ← purge_page iteration k.1 k.2 fm s; Some (fm, s, inr rc)
  | CPurgeAll pool => '(fm, s, rc) ← purge_all_pages iteration pool fm s; Some (fm, s, inr rc)
  | CCheck pool => '(fm, rc) ← check_all_pages_unpinned pool fm; Some (fm, s, inr rc)
  end.

Definition held fm l (k : PageKey) a : Prop := (id_of k, a) ∈ l ∧ ∃ f, store fm !! a = Some f ∧ 0 < pin_count_ f.

(** What a client may call: it works on frames it holds, and gets pages of open pools while a frame can
    be had for them. *)
Definition call_ok (c : PoolCall) fm l s : Prop :=
  match c with
  | CGet k => is_Some (sh_open s !! k.1) ∧ (has_room fm l ∨ is_Some (spec_lookup l (id_of k)))
  | CUnpin a | CWrite a _ _ => ∃ k, held fm l k a
  | CFlush k a => held fm l k a
  | _ => True
  end.

(** The call on the map of pages. *)
Definition call_view (c : PoolCall) fm l (v : PageKey → option (Z * list Z)) : PageKey → option (Z * list Z) :=
  match c with
  | CWrite a n bytes => λ k, if decide (spec_lookup l (id_of k) = Some a) then Some (n, bytes) else v k
  | _ => v
  end.

(** What the caller gets. *)
Definition call_answer (c : PoolCall) fm l s (r : positive + RC) fm' l' s' : Prop :=
  match c with
  | CGet k =>
      match view fm l s k with
      | Some v => ∃ a f, r = inl a ∧ held fm' l' k a ∧ store fm' !! a = Some f ∧ content (page_ f) = v
      | None => r = inr RC_IOERR_READ
      end
  | CFlush k _ => r = inr RC_SUCCESS ∧ content <$> storage_view s' k = view fm l s k
  | CFlushAll pool => r = inr RC_SUCCESS ∧ ∀ k, k.1 = pool → content <$> storage_view s' k = view fm l s k
  | CPurge k => (r = inr RC_SUCCESS ∧ spec_lookup l' (id_of k) = None) ∨ (r = inr RC_LOCKED_UNLOCK ∧ ∃ a, held fm l k a)
  | CPurgeAll pool => r = inr RC_SUCCESS ∧ ∀ k a, k.1 = pool → (id_of k, a) ∈ l' → held fm l k a
  | _ => r = inr RC_SUCCESS
  end.

Definition untouched (c : PoolCall) fm l fm' l' : Prop :=
  match c with
  | CUnpin a | CWrite a _ _ => l' = l ∧ ∀ b, b ≠ a → store fm' !! b = store fm !! b
  | _ => stays fm l fm' l'
  end.

Lemma purge_page_ok fm l s id :
  pool_ok fm l s →
  ∃ fm' s' l' rc, purge_page iteration (fid_buffer_pool_id id) (fid_page_num id) fm s = Some (fm', s', rc) ∧
    pool_ok fm' l' s' ∧ sh_open s' = sh_open s ∧ (∀ k, view fm' l' s' k = view fm l s k) ∧ stays fm l fm' l' ∧
    ((rc = RC_SUCCESS ∧ spec_lookup l' id = None) ∨ (rc = RC_LOCKED_UNLOCK ∧ ∃ a, (id, a) ∈ l ∧ ∃ f, store fm !! a = Some f ∧ 0 < pin_count_ f)).
Proof using iteration_perm.
  intros Hok. unfold purge_page. destruct (fm_get_ok fm l s id Hok) as (fm1 & l1 & -> & Hp1 & Hok1 & Hv1 & Hst1 & Hal1 & Hs1).
  cbn [mbind option_bind]. destruct (spec_lookup l id) as [a|] eqn:E; cycle 1.
  { exists fm1, s, l1, RC_SUCCESS. split_and!; try done. left. split; [done|]. apply spec_lookup_None. rewrite Hp1. by apply spec_lookup_None. }
  apply spec_lookup_elem in E as Hin; [|by eapply pool_keys]. destruct (pool_frame _ _ _ _ _ Hok Hin) as (f & Hf & _ & Hpin & _).
  assert (Hin1 : (id, a) ∈ l1) by by rewrite Hp1.
  assert (Hf1 : store fm1 !! a = Some (set_pin f (pin_count_ f + 1))) by (by rewrite Hs1, lookup_alter_eq, Hf).
  destruct (purge_frame_ok fm1 l1 s id a _ Hok1 Hin1 Hf1) as (fm' & s' & rc & -> & Ho & Hres). cbn [pin_count_ set_pin] in Hres.
  case_decide as Hp.
  - destruct Hres as (-> & Hok' & Hoth & Hv'). exists fm', s', (spec_rest l1 id), RC_SUCCESS. split_and!; try done.
    + intros k. by rewrite Hv', Hv1.
    + intros id' b g Hx Hg Hpg. assert (Hne : b ≠ a) by (intros ->; assert (g = f) as -> by congruence; lia). split.
      * apply spec_rest_elem. rewrite Hp1. split; [done|]. cbn. intros ->. apply Hne. exact (pool_addr _ _ _ _ _ _ Hok Hx Hin).
      * exists g. by rewrite Hoth, Hs1, lookup_alter_ne by done.
    + left. split; [done|]. apply spec_lookup_None. rewrite spec_rest_fst. tauto.
  - destruct Hres as (-> & -> & ->). exists fm1, s, l1, RC_LOCKED_UNLOCK. split_and!; try done. right. split; [done|].
    exists a. split; [done|]. exists f. split; [done|lia].
Qed.

Lemma unpin_call_ok fm l s k a :
  pool_ok fm l s → held fm l k a →
  ∃ fm', unpin_page fm a = Some (fm', RC_SUCCESS) ∧ pool_ok fm' l s ∧ (∀ k, view fm' l s k = view fm l s k) ∧
    ∀ b, b ≠ a → store fm' !! b = store fm !! b.
Proof using.
  intros Hok (Hin & f & Hf & Hp). destruct (unpin_frame_ok fm l s (id_of k) a f Hok Hin Hf Hp) as (Hun & Hok' & Hv').
  unfold unpin_page. rewrite Hun. cbn [mbind option_bind]. eexists. split_and!; [done|exact Hok'|exact Hv'|].
  intros b Hb. by apply lookup_insert_ne.
Qed.

(** What a client may do to the contents of a frame it holds. *)
Lemma write_call_ok fm l s k a n bytes f :
  pool_ok fm l s → (id_of k, a) ∈ l → store fm !! a = Some f →
  let fm' := set_frame fm a (set_dirty (set_page f (mkPage n (check_sum (page_ f)) bytes)) true) in
  pool_ok fm' l s ∧ ∀ k, view fm' l s k = call_view (CWrite a n bytes) fm l (view fm l s) k.
Proof using.
  intros Hok Hin Hf fm'. destruct (pool_frame _ _ _ _ _ Hok Hin) as (f0 & Hf0 & _ & Hp & Hfr).
  assert (f0 = f) as -> by congruence. split.
  - eapply set_frame_ok; eauto. constructor; [apply (fr_open _ _ _ Hfr)|done].
  - intros k'. unfold fm'. rewrite (view_set_frame _ _ _ (id_of k)), key_of_id_of by done. cbn [call_view].
    pose proof (pool_keys _ _ _ Hok) as Hk. destruct (decide (k' = k)) as [->|Hne].
    + rewrite decide_True; [done|]. by apply spec_lookup_elem.
    + rewrite decide_False; [done|]. intros E. apply spec_lookup_elem in E; [|done]. apply Hne.
      rewrite <- (key_of_id_of k'), <- (key_of_id_of k). f_equal. exact (pool_unique _ _ _ _ _ _ Hok E Hin).
Qed.

(** C6: the buffer pool behaves as one map from pages to contents, whatever it caches, writes back or evicts.  A client calls it with frames it
    holds, and gets a page of an open pool only if the page is in a frame, a frame is free or some frame is not
    pinned (with all frames pinned [allocate_frame] would loop for ever).  Then every call returns.  A page that is got is
    a pinned frame with the newest contents, at the cost of at most one eviction; a write changes that page only;
    flushing stores exactly what the clients see; purging removes only pages nobody uses; getting a page that does not
    exist fails.  No call moves or changes a frame that is in use, or changes what is seen of any page (but a page that
    does not exist and is asked for may come into being).  The invariant is kept: the frame table and the double write
    buffer are well formed, a frame that is not dirty equals its stored image, and no image is stored before the log is durable
    up to its number.  Reads and writes of the files succeed. *)
Theorem buffer_pool_coherent fuel c fm l s :
  pool_ok fm l s → call_ok c fm l s → (2 ≤ fuel)%nat →
  ∃ fm' s' l' r, pool_call fuel c fm s = Some (fm', s', r) ∧ pool_ok fm' l' s' ∧ sh_open s' = sh_open s ∧
    call_answer c fm l s r fm' l' s' ∧ untouched c fm l fm' l' ∧
    ∀ k, c ≠ CGet k ∨ view fm l s k ≠ None → view fm' l' s' k = call_view c fm l (view fm l s) k.
Proof using iteration_perm.
  intros Hok Hc Hfuel. destruct c as [k|a|a n bytes|k a|pool|k|pool|pool]; cbn [pool_call call_ok call_answer untouched] in *.
  - destruct Hc as [Ho Hr]. pose proof (key_of_id_of k) as Ek. destruct (view fm l s k) as [v|] eqn:Ev.
    + destruct (get_this_page_ok fuel fm l s (id_of k) Hok) as (fm' & s' & l' & a & Hget & Hok' & Ho' & Hv' & Hst & _ & Hin & f & Hf & Hp & Hcf); try done.
      { by rewrite Ek, Ev. }
      exists fm', s', l', (inl a). rewrite Ek, Ev in Hcf. split_and!; try done.
      exists a, f. split_and!; [done|by split; [|exists f]|done|congruence].
    + destruct Hr as [Hr | [a Ha]]; cycle 1.
      { apply spec_lookup_elem in Ha as Hin; [|by eapply pool_keys]. destruct (pool_frame _ _ _ _ _ Hok Hin) as (f & Hf & _).
        pose proof (view_hit _ _ _ _ a f Hok Hin Hf) as Hv. by rewrite Ek, Ev in Hv. }
      destruct (get_missing_ok fuel fm l s (id_of k) Hok) as (fm' & s' & l' & Hget & Hok' & Ho' & Hst & Hv'); try done.
      exists fm', s', l', (inr RC_IOERR_READ). split_and!; try done. intros k' Hk'. apply Hv'. rewrite Ek. intros ->. naive_solver.
  - destruct Hc as [k Hh]. destruct (unpin_call_ok fm l s k a Hok Hh) as (fm' & -> & Hok' & Hv' & Hoth).
    exists fm', s, l, (inr RC_SUCCESS). split_and!; done.
  - destruct Hc as (k & Hin & f & Hf & Hp). rewrite Hf. destruct (write_call_ok fm l s k a n bytes f Hok Hin Hf) as [Hok' Hv'].
    do 2 eexists. exists l, (inr RC_SUCCESS). split; [done|]. split_and!; try done.
    intros b Hb. by apply lookup_insert_ne.
  - destruct Hc as (Hin & f & Hf & Hp). destruct (flush_internal_ok fm l s (id_of k) a f Hok Hin Hf) as (s' & sum & Hfl & Hok' & Ho' & Hv' & Hst).
    cbn [id_of fid_buffer_pool_id] in Hfl. rewrite Hfl. cbn [mbind option_bind]. do 2 eexists. exists l, (inr RC_SUCCESS). split; [done|].
    split_and!; try done.
    + rewrite Hst, key_of_id_of, decide_True by done. cbn. pose proof (view_hit _ _ _ _ a f Hok Hin Hf) as Hv. by rewrite key_of_id_of in Hv.
    + eapply stays_set_frame; eauto. done.
  - destruct (flush_all_ok pool fm l s Hok) as (fm' & s' & -> & Hok' & Ho' & Hv' & Hst & Hall).
    exists fm', s', l, (inr RC_SUCCESS). split_and!; try done. intros k Hk. by rewrite Hall.
  - destruct (purge_page_ok fm l s (id_of k) Hok) as (fm' & s' & l' & rc & Hpu & Hok' & Ho' & Hv' & Hst & Hans).
    cbn [id_of fid_buffer_pool_id fid_page_num] in Hpu. rewrite Hpu. cbn [mbind option_bind]. exists fm', s', l', (inr rc). split_and!; try done.
    destruct Hans as [[-> ?]|(-> & a & Hin & Hf)]; [by left|]. right. split; [done|]. by exists a.
  - destruct (purge_all_ok pool fm l s Hok) as (fm' & s' & l' & -> & Hok' & Ho' & Hv' & Hst & Hans).
    exists fm', s', l', (inr RC_SUCCESS). split_and!; try done. intros k a Hk Hin.
    by apply Hans.
  - destruct (check_all_ok pool fm l s Hok) as (fm' & -> & Hok' & Hst & Hv').
    exists fm', s, l, (inr RC_SUCCESS). split_and!; try done.
    intros id a f Hin Hf Hp. split; [done|]. exists f. by rewrite Hst.
Qed.

(** ** Allocating and disposing pages *)

Lemma read_header_bytes h :
  is_int32 (fh_buffer_pool_id h) → is_int32 (page_count h) → is_int32 (allocated_pages h) → read_header (header_bytes h) = Some h.
Proof using.
  intros Hi Hc Ha. unfold read_header. set (l := header_bytes h). pose proof (feeds_all l) as Hf. unfold l at 2, header_bytes in Hf.
  apply feeds_app in Hf as (d1 & Hx & Hf). rewrite (wire_read (Wire := wire_int32) _ _ _ Hi Hx). cbn [mbind option_bind].
  apply feeds_app in Hf as (d2 & Hy & Hf). rewrite (wire_read (Wire := wire_int32) _ _ _ Hc Hy). cbn [mbind option_bind].
  apply feeds_app in Hf as (d3 & Hz & Hf). rewrite (wire_read (Wire := wire_int32) _ _ _ Ha Hz). cbn [mbind option_bind].
  f_equal. unfold l, header_bytes. rewrite !app_assoc, drop_app_length' by (by rewrite !length_app, !le_encode_length).
  by destruct h.
Qed.

Lemma load_store_header f b :
  is_int32 (fh_buffer_pool_id (file_header_ b)) → is_int32 (page_count (file_header_ b)) → is_int32 (allocated_pages (file_header_ b)) →
  load_header (store_header f b) = Some b.
Proof using. intros Hi Hc Ha. unfold load_header, store_header. cbn [data page_ set_dirty set_page]. rewrite read_header_bytes by done. by destruct b. Qed.

Lemma counters_int32 b : file_ok b → is_int32 (page_count (file_header_ b)) ∧ is_int32 (allocated_pages (file_header_ b)).
Proof using.
  intros Hok. pose proof (allocated_bounds b Hok). pose proof (fo_count_capacity b Hok). pose proof (fo_capacity b Hok).
  unfold is_int32, INT32_MIN, INT32_MAX, BITMAP_BYTES, BP_DATA_SIZE in *. lia.
Qed.

(** The header of an open pool: its frame is held by the pool. *)
Record header_at fm l s pool hdr b : Prop := {
  ha_open : sh_open s !! pool = Some hdr;
  ha_held : held fm l (pool, 0) hdr;
  ha_view : ∃ bytes, view fm l s (pool, 0) = Some (hdr_lsn b, bytes) ∧ read_header bytes = Some (file_header_ b);
  ha_ok : file_ok b;
  ha_id : is_int32 (fh_buffer_pool_id (file_header_ b));
}.

Lemma header_stays fm l s fm' l' s' pool hdr b :
  header_at fm l s pool hdr b → sh_open s' = sh_open s → stays fm l fm' l' → view fm' l' s' (pool, 0) = view fm l s (pool, 0) →
  header_at fm' l' s' pool hdr b.
Proof using.
  intros [Ho (Hin & g & Hg & Hp) Hv Hok Hid] Ho' Hst Hv'. destruct (Hst _ _ g Hin Hg Hp) as (Hin' & g' & Hg' & Hp' & _).
  constructor; [congruence| |by rewrite Hv'|done|done]. split; [done|]. exists g'. split; [done|lia].
Qed.

(** What the code finds in the frame. *)
Lemma header_load fm l s pool hdr b :
  pool_ok fm l s → header_at fm l s pool hdr b →
  ∃ f, store fm !! hdr = Some f ∧ load_header f = Some (mkFile (hdr_lsn b) (dirty_ f) (file_header_ b)) ∧ 0 < pin_count_ f.
Proof using.
  intros Hok [Ho (Hin & f & Hf & Hp) (bytes & Hv & Hr) _ _]. exists f. split_and!; [done| |done].
  pose proof (view_hit _ _ _ _ hdr f Hok Hin Hf) as E. rewrite key_of_id_of, Hv in E. injection E as -> ->.
  unfold load_header. by rewrite Hr.
Qed.

Lemma file_ok_same b n d : file_ok b → file_ok (mkFile n d (file_header_ b)).
Proof using. intros []. by constructor. Qed.

(** The change of a header page, with a record in the log. *)
Lemma header_update_ok fm l s pool hdr b b' m bytes f :
  pool_ok fm l s → header_at fm l s pool hdr b → store fm !! hdr = Some f → hdr_dirty b' = true → file_ok b' →
  fh_buffer_pool_id (file_header_ b') = fh_buffer_pool_id (file_header_ b) →
  let fm' := set_frame fm hdr (store_header f b') in
  let s' := mkShared (sh_dw s) (sh_disk s) (sink_append (sh_log s) m bytes).1.1 (sh_open s) in
  pool_ok fm' l s' ∧ header_at fm' l s' pool hdr b' ∧ (∀ k, k ≠ (pool, 0) → view fm' l s' k = view fm l s k) ∧
  (∀ a, a ≠ hdr → store fm' !! a = store fm !! a) ∧ pin_count_ (store_header f b') = pin_count_ f.
Proof using.
  intros Hok Hha Hf Hd Hfo Hid fm' s'. destruct (ha_held _ _ _ _ _ _ Hha) as (Hin & g & Hg & Hp). assert (g = f) as -> by congruence.
  destruct (po_shared _ _ _ Hok) as [Hdw Hrun Hwal]. destruct (log_append_spec (sh_log s) m bytes Hrun) as [Hrun' Hmono].
  assert (Hok' : pool_ok fm l s').
  { destruct Hok as [Hfm _ Hfr]. constructor; [done| |].
    - constructor; [done|done|]. intros k p Hk. by apply Hmono, (Hwal k).
    - intros id a h Hx Hh. destruct (Hfr id a h Hx Hh) as [Ho Hc]. by constructor. }
  destruct (pool_frame _ _ _ _ _ Hok' Hin) as (f0 & Hf0 & _ & _ & Hfr). assert (f0 = f) as -> by congruence.
  assert (Hok2 : pool_ok fm' l s').
  { apply (set_frame_ok fm l s' (id_of (pool, 0)) hdr f); try done; [cbn; lia|]. constructor; [apply (fr_open _ _ _ Hfr)|]. cbn. by rewrite Hd. }
  split_and!; [done| | | |done].
  - constructor; [apply (ha_open _ _ _ _ _ _ Hha)| | |done|by rewrite Hid; apply (ha_id _ _ _ _ _ _ Hha)].
    + split; [done|]. eexists. split; [apply lookup_insert_eq|done].
    + exists (header_bytes (file_header_ b')). split.
      * unfold fm'. by rewrite (view_set_frame _ _ _ (id_of (pool, 0))), key_of_id_of, decide_True by done.
      * destruct (counters_int32 b' Hfo). apply read_header_bytes; try done. rewrite Hid. apply (ha_id _ _ _ _ _ _ Hha).
  - intros k Hk. unfold fm'. rewrite (view_set_frame _ _ _ (id_of (pool, 0))), key_of_id_of, decide_False by done. done.
  - intros a Ha. by apply lookup_insert_ne.
Qed.

(** The pages below the count exist, those behind it are not mapped. *)
Definition pages_exist fm l s pool b : Prop :=
  ∀ p, 0 ≤ p → if decide (p < page_count (file_header_ b)) then view fm l s (pool, p) ≠ None else spec_lookup l (id_of (pool, p)) = None.

Lemma has_room_set_frame fm l s id a f f' :
  pool_ok fm l s → (id, a) ∈ l → store fm !! a = Some f → pin_count_ f' = pin_count_ f → has_room fm l → has_room (set_frame fm a f') l.
Proof using.
  intros Hok Hin Hf Hp [?|(id0 & a0 & f0 & Hin0 & Hf0 & Hp0)]; [by left|]. right. cbn [set_frame with_store store].
  destruct (decide (a0 = a)) as [->|Hne].
  - exists id0, a, f'. rewrite lookup_insert_eq. assert (f0 = f) as -> by congruence. split_and!; [done..|congruence].
  - exists id0, a0, f0. by rewrite lookup_insert_ne.
Qed.

(** The state after an allocation: page [p] is marked in the header and is in frame [a], which the caller
    holds. *)
Record allocated_to fm l s pool hdr b fm' l' s' b' p a : Prop := {
  al_ok : pool_ok fm' l' s';
  al_header : header_at fm' l' s' pool hdr b';
  al_exist : pages_exist fm' l' s' pool b';
  al_held : held fm' l' (pool, p) a;
  al_view : ∀ k, k ≠ (pool, 0) → k ≠ (pool, p) → view fm' l' s' k = view fm l s k;
  al_page : if decide (p < page_count (file_header_ b)) then view fm' l' s' (pool, p) = view fm l s (pool, p)
            else ∃ n, view fm' l' s' (pool, p) = Some (0, replicate n 0) ∧ content <$> storage_view s' (pool, p) = Some (0, replicate n 0);
  al_stays : ∀ id a f, (id, a) ∈ l → a ≠ hdr → store fm !! a = Some f → 0 < pin_count_ f →
    (id, a) ∈ l' ∧ ∃ f', store fm' !! a = Some f' ∧ pin_count_ f ≤ pin_count_ f' ∧ content (page_ f') = content (page_ f);
}.

Lemma pages_exist_grow fm l s fm' l' s' pool b b' p :
  pages_exist fm l s pool b → page_count (file_header_ b') = Z.max (page_count (file_header_ b)) (p + 1) →
  p ≤ page_count (file_header_ b) →
  (∀ k, k ≠ (pool, 0) → k ≠ (pool, p) → view fm' l' s' k = view fm l s k) → view fm' l' s' (pool, 0) ≠ None →
  view fm' l' s' (pool, p) ≠ None → (∀ x, x ∈ l' → x.1 = id_of (pool, p) ∨ x ∈ l) →
  pages_exist fm' l' s' pool b'.
Proof using.
  intros Hex Hc Hp Hv H0v Hpv Hsub q Hq. specialize (Hex q Hq). destruct (decide (q < page_count (file_header_ b'))) as [D|D].
  - destruct (decide (q = 0)) as [->|]; [exact H0v|]. destruct (decide (q = p)) as [->|]; [exact Hpv|].
    rewrite Hv by congruence. by rewrite decide_True in Hex by lia.
  - rewrite decide_False in Hex by lia. apply spec_lookup_None in Hex. apply spec_lookup_None. intros Hin.
    apply list_elem_of_fmap in Hin as (x & Ex & Hx). destruct (Hsub x Hx) as [E|Hx'].
    + rewrite E in Ex. injection Ex as ->. lia.
    + apply Hex. rewrite Ex. by apply list_elem_of_fmap_2.
Qed.

Lemma held_view fm l s k a : pool_ok fm l s → held fm l k a → view fm l s k ≠ None.
Proof using.
  intros Hok (Hin & f & Hf & _). pose proof (view_hit _ _ _ _ a f Hok Hin Hf) as E. rewrite key_of_id_of in E. by rewrite E.
Qed.

(** The page was allocated before. *)
Lemma allocate_reused fuel fm l s pool hdr b fm1 s1 b1 p :
  pool_ok fm1 l s1 → header_at fm1 l s1 pool hdr b1 → pages_exist fm l s pool b →
  (∀ k, k ≠ (pool, 0) → view fm1 l s1 k = view fm l s k) → (∀ a, a ≠ hdr → store fm1 !! a = store fm !! a) →
  has_room fm1 l → (2 ≤ fuel)%nat → 0 < p < page_count (file_header_ b) → page_count (file_header_ b1) = Z.max (page_count (file_header_ b)) (p + 1) →
  ∃ fm' s' l' a, get_this_page iteration fuel pool p fm1 s1 = Some (fm', s', inl a) ∧ allocated_to fm l s pool hdr b fm' l' s' b1 p a.
Proof using iteration_perm.
  intros Hok Hha Hex Hv Hst Hroom Hfuel Hp Hc. pose proof (Hex p ltac:(lia)) as Hvp. rewrite decide_True in Hvp by lia.
  destruct (get_this_page_ok fuel fm1 l s1 (id_of (pool, p)) Hok) as (fm' & s' & l' & a & Hget & Hok' & Ho & Hv' & Hstay & Hsub & Hin & f & Hf & Hpin & _).
  { cbn. by rewrite (ha_open _ _ _ _ _ _ Hha). }
  { rewrite key_of_id_of, Hv by (intros [=]; lia). done. }
  { by left. }
  { done. }
  exists fm', s', l', a. split; [exact Hget|].
  assert (Hha' : header_at fm' l' s' pool hdr b1) by (eapply header_stays; eauto).
  assert (Hheld : held fm' l' (pool, p) a) by (split; [done|by exists f]).
  constructor; try done.
  - eapply (pages_exist_grow fm l s); try done; [lia| | |by eapply held_view].
    + intros k Hk _. by rewrite Hv', Hv.
    + eapply held_view; [done|]. apply (ha_held _ _ _ _ _ _ Hha').
  - intros k Hk _. by rewrite Hv', Hv.
  - rewrite decide_True by lia. rewrite Hv', Hv; [done|]. intros E. injection E. lia.
  - intros id b0 g Hx Hne Hg Hpg. rewrite <- (Hst b0) in Hg by done. by apply Hstay.
Qed.

(** Whether the frame was dirty does not matter for writing it back. *)
Lemma flush_any_dirty pool fm s a f d :
  flush_page_internal iteration pool (set_frame fm a f) s a = flush_page_internal iteration pool (set_frame fm a (set_dirty f d)) s a.
Proof using.
  unfold flush_page_internal, set_frame. cbn [with_store store]. rewrite !lookup_insert_eq. cbn [mbind option_bind].
  destruct (log_wait _ _) as [log rc]. cbn [set_dirty page_ frame_id_]. destruct (crc32 _) as [sum|]; [|done]. cbn [mbind option_bind].
  destruct (add_page _ _ _ _) as [dw ws]. unfold with_store. cbn [store frames_ allocator_]. by rewrite !insert_insert_eq.
Qed.

(** The page is new. *)
Lemma allocate_extended fuel fm l s pool hdr b fm1 s1 b1 :
  pool_ok fm1 l s1 → header_at fm1 l s1 pool hdr b1 → pages_exist fm l s pool b →
  (∀ k, k ≠ (pool, 0) → view fm1 l s1 k = view fm l s k) → (∀ a, a ≠ hdr → store fm1 !! a = store fm !! a) →
  has_room fm1 l → (2 ≤ fuel)%nat → let p := page_count (file_header_ b) in 0 < p → page_count (file_header_ b1) = Z.max p (p + 1) →
  ∃ fm' s' l' a, ('(fm, s, a) ← allocate_frame iteration fuel pool p fm1 s1;
      f ← store fm !! a;
      let zeros := mkPage 0 0 (replicate (length (data (page_ f))) 0) in
      let f := FrameManager.set_page_num (set_page (set_buffer_pool_id f pool) zeros) p in
      '(fm, s, _) ← flush_page_internal iteration pool (set_frame fm a f) s a;
      Some (fm, s, inl a)) = Some (fm', s', inl a : positive + RC) ∧ allocated_to fm l s pool hdr b fm' l' s' b1 p a.
Proof using iteration_perm.
  intros Hok Hha Hex Hv Hst Hroom Hfuel p Hp Hc. pose proof (Hex p ltac:(lia)) as Hn. rewrite decide_False in Hn by (unfold p; lia).
  destruct (allocate_frame_ok fuel fm1 l s1 (id_of (pool, p)) Hok Hn Hroom Hfuel) as (fm2 & s2 & a & fm3 & l3 & Hal & Hff).
  cbn [id_of fid_buffer_pool_id fid_page_num fst snd] in Hal. rewrite Hal. cbn [mbind option_bind].
  pose proof Hff as [F1 F2 F3 F4 F5 F6 F7 (f & Hst2 & Hid)].
  assert (Hf : store fm2 !! a = Some (set_pin f 1)) by (rewrite Hst2; apply lookup_insert_eq). rewrite Hf. cbn [mbind option_bind].
  set (n := length (data (page_ (set_pin f 1)))). set (g := FrameManager.set_page_num _ p).
  rewrite (flush_any_dirty _ _ _ _ _ true). set (g1 := set_dirty g true).
  destruct (install_ok fm1 l s1 (id_of (pool, p)) fm2 s2 a fm3 l3 g1 Hff) as (G1 & G2 & G3 & G4); [done|cbn; lia| |].
  { constructor; [|done]. cbn. by rewrite F3, (ha_open _ _ _ _ _ _ Hha). }
  set (l' := (id_of (pool, p), a) :: l3) in *.
  destruct (flush_internal_ok _ l' s2 (id_of (pool, p)) a g1 G1 (list_elem_of_here _ _) G3) as (s' & sum & Hfl & Hok' & Ho' & Hv' & Hsv).
  cbn [id_of fid_buffer_pool_id fst] in Hfl. rewrite Hfl. cbn [mbind option_bind].
  match type of Hok' with pool_ok ?F _ _ => set (fm' := F) in * end.
  exists fm', s', l', a. split; [done|].
  assert (Hview : ∀ k, view fm' l' s' k = if decide (k = (pool, p)) then Some (content (page_ g1)) else view fm1 l s1 k).
  { intros k. rewrite Hv', G4, key_of_id_of. done. }
  assert (Hst' : stays fm1 l fm' l').
  { eapply stays_trans; [exact G2|]. eapply (stays_set_frame _ l' s2 _ a g1); [exact G1|apply list_elem_of_here|exact G3|cbn; lia|done]. }
  assert (Hheld : held fm' l' (pool, p) a).
  { split; [apply list_elem_of_here|]. eexists. split; [apply lookup_insert_eq|cbn; lia]. }
  assert (Hha' : header_at fm' l' s' pool hdr b1).
  { apply (header_stays fm1 l s1); [done|congruence|done|]. rewrite Hview, decide_False; [done|]. intros E. injection E. lia. }
  assert (Hoth : ∀ k, k ≠ (pool, 0) → k ≠ (pool, p) → view fm' l' s' k = view fm l s k).
  { intros k Hk Hkp. by rewrite Hview, decide_False, Hv. }
  constructor; try done.
  - eapply (pages_exist_grow fm l s); [done|done|unfold p; lia|done| |by eapply held_view|].
    + eapply held_view; [done|]. apply (ha_held _ _ _ _ _ _ Hha').
    + intros x [->|Hx]%elem_of_cons; [by left|]. right. by apply F6.
  - rewrite decide_False by (unfold p; lia). exists n. rewrite Hview, decide_True by done. split; [done|].
    rewrite Hsv, key_of_id_of, decide_True by done. done.
  - intros id b0 h Hx Hne Hh Hph. rewrite <- (Hst b0) in Hh by done. by apply Hst'.
Qed.

(** [allocate_page] while the bitmap has room. *)
Lemma allocate_page_ok fuel fm l s pool hdr b :
  pool_ok fm l s → header_at fm l s pool hdr b → pages_exist fm l s pool b →
  allocated_pages (file_header_ b) < capacity b → has_room fm l → (2 ≤ fuel)%nat →
  ∃ fm' s' l' b' p a, allocate_page iteration fuel pool fm s = Some (fm', s', inl a) ∧
    allocated_to fm l s pool hdr b fm' l' s' b' p a ∧
    0 < p ∧ p ∉ all_pages b ∧ (∀ j, 0 ≤ j < p → j ∈ all_pages b) ∧ all_pages b' = {[p]} ∪ all_pages b ∧ capacity b' = capacity b.
Proof using iteration_perm.
  intros Hok Hha Hex Hroom Hfree Hfuel. destruct (header_load _ _ _ _ _ _ Hok Hha) as (f & Hf & Hload & Hpin).
  set (b0 := mkFile (hdr_lsn b) (dirty_ f) (file_header_ b)) in *. assert (Hok0 : file_ok b0) by apply file_ok_same, (ha_ok _ _ _ _ _ _ Hha).
  destruct (allocate_header_ok (sh_log s) b0 Hok0 Hroom) as (log' & b' & r & p & Eal & Er & Hok' & Hp0 & Hp & Hlow & Hall & Hcap & Hlog & bm & _ & Hhdr).
  destruct (allocate_header_facts _ _ _ _ _ Hok0 Eal (ltac:(by rewrite Er))) as (Hd & Hid & Hr).
  unfold allocate_page. rewrite (ha_open _ _ _ _ _ _ Hha). cbn [mbind option_bind]. rewrite Hf. cbn [mbind option_bind].
  rewrite Hload. cbn [mbind option_bind]. rewrite Eal. cbn [mbind option_bind].
  assert (Elog : log' = (sink_append (sh_log s) (module_index BUFFER_POOL) (bp_log_bytes (fh_buffer_pool_id (file_header_ b0)) (bp_operation_id ALLOCATE) p)).1.1).
  { unfold append_log in Hlog. destruct (sink_append _ _ _) as [[x y] z]. by injection Hlog. }
  rewrite Elog. destruct (header_update_ok fm l s pool hdr b b' (module_index BUFFER_POOL) (bp_log_bytes (fh_buffer_pool_id (file_header_ b0)) (bp_operation_id ALLOCATE) p) f Hok Hha Hf Hd Hok' Hid)
    as (Hok1 & Hha1 & Hv1 & Hst1 & Hpin1).
  set (fm1 := set_frame fm hdr (store_header f b')) in *. set (s1 := mkShared _ _ _ _) in *.
  assert (Hfree1 : has_room fm1 l) by (eapply has_room_set_frame; eauto; apply (ha_held _ _ _ _ _ _ Hha)).
  assert (Hcount : page_count (file_header_ b') = Z.max (page_count (file_header_ b)) (p + 1)) by (rewrite Hhdr; done).
  destruct r as [q|q|rc]; cbn in Er; [| |done]; injection Er as ->.
  - destruct (allocate_reused fuel fm l s pool hdr b fm1 s1 b' p) as (fm' & s' & l' & a & Hget & Hto); try done.
    rewrite Hget. by exists fm', s', l', b', p, a.
  - cbn [file_header_ b0] in Hr. subst p.
    destruct (allocate_extended fuel fm l s pool hdr b fm1 s1 b') as (fm' & s' & l' & a & Hget & Hto); try done.
    cbv zeta in Hget. rewrite Hget. by eexists fm', s', l', b', _, a.
Qed.

(** [dispose_page] of a page that nobody uses: it is unmarked in the header and leaves the table without
    being written back. *)
Lemma dispose_page_ok fm l s pool hdr b p :
  pool_ok fm l s → header_at fm l s pool hdr b → p ∈ file_pages b → (∀ a, ¬ held fm l (pool, p) a) →
  ∃ fm' s' l' b', dispose_page pool p fm s = Some (fm', s', RC_SUCCESS) ∧
    pool_ok fm' l' s' ∧ header_at fm' l' s' pool hdr b' ∧ all_pages b' = all_pages b ∖ {[p]} ∧ capacity b' = capacity b ∧
    (∀ k, k ≠ (pool, 0) → k ≠ (pool, p) → view fm' l' s' k = view fm l s k) ∧
    view fm' l' s' (pool, p) = content <$> storage_view s (pool, p) ∧ spec_lookup l' (id_of (pool, p)) = None.
Proof using.
  intros Hok Hha Hp Hfree. pose proof Hp as [_ Hp0%not_elem_of_singleton]%elem_of_difference.
  unfold dispose_page. rewrite (proj2 (Z.eqb_neq _ _)) by done.
  destruct (fm_get_ok fm l s (id_of (pool, p)) Hok) as (fm1 & l1 & Hget & Hp1 & Hok1 & Hv1 & Hst1 & _ & Hs1).
  cbn [id_of fid_buffer_pool_id fid_page_num fst snd] in Hget. rewrite Hget. cbn [mbind option_bind].
  (* the frame of the page leaves the table *)
  assert (Hfreed : ∃ fm2 l2, (match spec_lookup l (id_of (pool, p)) with Some a => fm_free fm1 pool p a | None => Some fm1 end) = Some fm2 ∧
    pool_ok fm2 l2 s ∧ (∀ k, view fm2 l2 s k = if decide (k = (pool, p)) then content <$> storage_view s k else view fm l s k) ∧
    stays fm l fm2 l2 ∧ spec_lookup l2 (id_of (pool, p)) = None).
  { destruct (spec_lookup l (id_of (pool, p))) as [a|] eqn:E; cycle 1.
    { exists fm1, l1. assert (E1 : spec_lookup l1 (id_of (pool, p)) = None) by (apply spec_lookup_None; rewrite Hp1; by apply spec_lookup_None).
      split_and!; try done. intros k. case_decide as D; [|done]. subst k. unfold view. by rewrite E1. }
    apply spec_lookup_elem in E as Hin; [|by eapply pool_keys]. destruct (pool_frame _ _ _ _ _ Hok Hin) as (f & Hf & _ & Hpin & _).
    assert (pin_count_ f = 0) as Hz.
    { destruct (decide (0 < pin_count_ f)); [|lia]. destruct (Hfree a). split; [done|]. by exists f. }
    assert (Hf1 : store fm1 !! a = Some (set_pin f 1)) by (by rewrite Hs1, lookup_alter_eq, Hf; cbn; rewrite Hz).
    assert (Hin1 : (id_of (pool, p), a) ∈ l1) by by rewrite Hp1.
    destruct (free_clean fm1 l1 s (id_of (pool, p)) a _ Hok1 Hin1 Hf1 eq_refl) as (fm2 & Hfr & Hok2 & _ & Hoth & Hv2).
    exists fm2, (spec_rest l1 (id_of (pool, p))). split; [exact Hfr|]. split_and!; [done| | |].
    - intros k. rewrite Hv2, key_of_id_of. case_decide; [done|apply Hv1].
    - intros id' c g Hx Hg Hpg. assert (Hne : c ≠ a) by (intros ->; assert (g = f) as -> by congruence; lia). split.
      + apply spec_rest_elem. rewrite Hp1. split; [done|]. cbn. intros ->. apply Hne. exact (pool_addr _ _ _ _ _ _ Hok Hx Hin).
      + exists g. by rewrite Hoth, Hs1, lookup_alter_ne by done.
    - apply spec_lookup_None. rewrite spec_rest_fst. tauto. }
  destruct Hfreed as (fm2 & l2 & -> & Hok2 & Hv2 & Hst2 & Hgone). cbn [mbind option_bind].
  assert (Hha2 : header_at fm2 l2 s pool hdr b).
  { eapply header_stays; eauto. rewrite Hv2, decide_False; [done|]. intros E. injection E. lia. }
  destruct (header_load _ _ _ _ _ _ Hok2 Hha2) as (f & Hf & Hload & Hpin).
  rewrite (ha_open _ _ _ _ _ _ Hha2). cbn [mbind option_bind]. rewrite Hf. cbn [mbind option_bind]. rewrite Hload. cbn [mbind option_bind].
  set (b0 := mkFile (hdr_lsn b) (dirty_ f) (file_header_ b)) in *. assert (Hok0 : file_ok b0) by apply file_ok_same, (ha_ok _ _ _ _ _ _ Hha).
  destruct (dispose_header_ok (sh_log s) b0 p Hok0 Hp) as (log' & b' & Edis & Hok' & Hall & Hcap & Hlog & bm & _ & Hhdr).
  rewrite Edis. cbn [mbind option_bind].
  set (bytes := bp_log_bytes (fh_buffer_pool_id (file_header_ b0)) (bp_operation_id DEALLOCATE) p).
  assert (Elog : log' = (sink_append (sh_log s) (module_index BUFFER_POOL) bytes).1.1).
  { unfold append_log in Hlog. fold bytes in Hlog. destruct (sink_append _ _ _) as [[x y] z]. by injection Hlog. }
  assert (Hd : hdr_dirty b' = true).
  { unfold dispose_header in Edis. rewrite (proj2 (Z.eqb_neq _ _)) in Edis by done. destruct (append_log _ _ _ _) as [[x y] z].
    destruct (clear_bit _ _); [|done]. by injection Edis as <- <-. }
  destruct (header_update_ok fm2 l2 s pool hdr b b' (module_index BUFFER_POOL) bytes f Hok2 Hha2 Hf Hd Hok') as (Hok3 & Hha3 & Hv3 & _); [by rewrite Hhdr|].
  rewrite Elog. do 2 eexists. exists l2, b'. split; [done|]. split_and!; [done..| | |done].
  - intros k Hk Hkp. by rewrite Hv3, Hv2, decide_False.
  - rewrite Hv3, Hv2, decide_True; [done..|]. intros E. injection E. lia.
Qed.

(** [open_file]: the header is in a frame that stays pinned. *)
Lemma open_file_ok fuel fm l s pool b bytes :
  pool_ok fm l s → sh_open s !! pool = None → spec_lookup l (id_of (pool, 0)) = None → has_room fm l → (2 ≤ fuel)%nat →
  is_Some (main_pages (sh_disk s) !! (pool, 0)) → content <$> storage_view s (pool, 0) = Some (hdr_lsn b, bytes) →
  read_header bytes = Some (file_header_ b) → file_ok b → is_int32 (fh_buffer_pool_id (file_header_ b)) →
  ∃ fm' s' l' hdr, open_file iteration fuel pool fm s = Some (fm', s', RC_SUCCESS) ∧ pool_ok fm' l' s' ∧
    header_at fm' l' s' pool hdr b ∧ sh_open s' = <[pool := hdr]> (sh_open s) ∧ (∀ k, view fm' l' s' k = view fm l s k) ∧
    stays fm l fm' l' ∧ (∀ x, x ∈ l' → x.1 = id_of (pool, 0) ∨ x ∈ l).
Proof using iteration_perm.
  intros Hok Hclosed Hnone Hroom Hfuel [p0 Hmain] Hpage Hread Hfo Hid. unfold open_file. rewrite Hclosed, Hmain.
  destruct (allocate_frame_ok fuel fm l s (id_of (pool, 0)) Hok Hnone Hroom Hfuel) as (fm2 & s2 & a & fm3 & l3 & Hal & [F1 F2 F3 F4 F5 F6 F7 (f & Hst & Hfid)]).
  cbn [id_of fid_buffer_pool_id fid_page_num fst snd] in Hal. rewrite Hal. cbn [mbind option_bind].
  assert (Hf : store fm2 !! a = Some (set_pin f 1)) by (rewrite Hst; apply lookup_insert_eq). rewrite Hf. cbn [mbind option_bind].
  assert (Hbp : set_buffer_pool_id (set_pin f 1) pool = set_pin f 1).
  { destruct f as [? ? [? ?] ?]. cbn in *. injection Hfid as -> ->. done. }
  rewrite Hbp. assert (Hsame : set_frame fm2 a (set_pin f 1) = fm2) by (unfold set_frame; rewrite insert_id by done; apply with_store_id).
  rewrite Hsame. pose proof (load_page_ok fm2 s2 (id_of (pool, 0)) a (set_pin f 1) Hf Hfid) as Hl.
  assert (Hsv : content <$> storage_view s2 (pool, 0) = Some (hdr_lsn b, bytes)).
  { assert (view fm3 l3 s2 (pool, 0) = view fm l s (pool, 0)) as E by apply F4. revert E. unfold view.
    rewrite Hnone, (proj2 (spec_lookup_None l3 _)) by tauto. congruence. }
  change (load_page pool 0 fm2 s2 a = match storage_view s2 (pool, 0) with Some p => Some (set_frame fm2 a (set_page (set_pin f 1) p), RC_SUCCESS) | None => Some (fm2, RC_IOERR_READ) end) in Hl.
  rewrite Hl. clear Hl. destruct (storage_view s2 (pool, 0)) as [p|] eqn:Ep; [|done]. injection Hsv as Hn Hb. cbn [mbind option_bind].
  change (OB_FAIL RC_SUCCESS) with false. cbv iota.
  set (s3 := mkShared (sh_dw s2) (sh_disk s2) (sh_log s2) (<[pool := a]> (sh_open s2))).
  assert (Hok3 : pool_ok fm3 l3 s3).
  { destruct F1 as [G1 [? ? ?] G3]. constructor; [done|by constructor|]. intros id' c g Hx Hg. destruct (G3 id' c g Hx Hg) as [Ho Hc].
    constructor; [|done]. cbn. destruct (decide (pool = fid_buffer_pool_id id')) as [<-|]; [by rewrite lookup_insert_eq|by rewrite lookup_insert_ne]. }
  assert (Hff : fresh_frame fm3 l3 s3 (id_of (pool, 0)) fm2 s3 a fm3 l3).
  { constructor; try done; [apply stays_refl|by exists f]. }
  destruct (install_ok fm3 l3 s3 (id_of (pool, 0)) fm2 s3 a fm3 l3 (set_page (set_pin f 1) p) Hff Hfid) as (G1 & G2 & G3 & G4).
  { cbn. lia. }
  { constructor; [cbn; by rewrite lookup_insert_eq|]. intros _. exact Ep. }
  set (fm' := set_frame fm2 a (set_page (set_pin f 1) p)) in *. set (l' := (id_of (pool, 0), a) :: l3) in *.
  assert (Hview : ∀ k, view fm' l' s3 k = view fm l s k).
  { intros k. rewrite G4, key_of_id_of. change (view fm3 l3 s3 k) with (view fm3 l3 s2 k). rewrite F4. case_decide as D; [|done]. subst k.
    unfold view. rewrite Hnone, Hpage. cbn. unfold content. by rewrite Hn, Hb. }
  exists fm', s3, l', a. split; [done|]. split_and!; [done| | |done| |].
  - constructor; [apply lookup_insert_eq| | |done|done].
    + split; [apply list_elem_of_here|]. eexists. split; [exact G3|cbn; lia].
    + exists bytes. split; [|done]. rewrite Hview. unfold view. by rewrite Hnone.
  - cbn. by rewrite F3.
  - eapply stays_trans; [exact F5|exact G2].
  - intros x [->|Hx]%elem_of_cons; [by left|right; by apply F6].
Qed.

(** Allocation and disposal of pages.  While the bitmap has a free bit and a frame can be had,
    [allocate_page] returns: the lowest page that was not allocated is now allocated, its frame is held by
    the caller, a page that was in use before has its old contents and a new page is zero and already
    stored, and every other page but the header, and every frame in use but that of the header, is as
    before.  [dispose_page] of an allocated page that nobody uses unmarks it and takes it out of the
    frame table, and changes no other page but the header.  The header in its frame again decodes to a
    well-formed header, and the invariant of the pool is kept. *)
Theorem buffer_pool_allocates fuel fm l s pool hdr b :
  pool_ok fm l s → header_at fm l s pool hdr b → (2 ≤ fuel)%nat →
  (pages_exist fm l s pool b → allocated_pages (file_header_ b) < capacity b → has_room fm l →
   ∃ fm' s' l' b' p a, allocate_page iteration fuel pool fm s = Some (fm', s', inl a) ∧
     allocated_to fm l s pool hdr b fm' l' s' b' p a ∧
     0 < p ∧ p ∉ all_pages b ∧ (∀ j, 0 ≤ j < p → j ∈ all_pages b) ∧ all_pages b' = {[p]} ∪ all_pages b ∧ capacity b' = capacity b) ∧
  (∀ p, p ∈ file_pages b → (∀ a, ¬ held fm l (pool, p) a) →
   ∃ fm' s' l' b', dispose_page pool p fm s = Some (fm', s', RC_SUCCESS) ∧
     pool_ok fm' l' s' ∧ header_at fm' l' s' pool hdr b' ∧ all_pages b' = all_pages b ∖ {[p]} ∧ capacity b' = capacity b ∧
     (∀ k, k ≠ (pool, 0) → k ≠ (pool, p) → view fm' l' s' k = view fm l s k) ∧
     view fm' l' s' (pool, p) = content <$> storage_view s (pool, p) ∧ spec_lookup l' (id_of (pool, p)) = None).
Proof using iteration_perm.
  intros Hok Hha Hfuel. split; [intros; by apply allocate_page_ok|intros; by apply dispose_page_ok].
Qed.
End coherence.

(** ** Examples *)

(** A file with a header page and one page in use, and a table of frames that are all free. *)
Definition ex_file : BPFile := mkFile 0 false (mkFileHeader 1 2 2 [3]).
Definition ex_pages : gmap PageKey PageImage :=
  <[(1, 0) := ex_image 0 (header_bytes (file_header_ ex_file))]> {[(1, 1) := ex_image 5 [7; 8; 9]]}.
Definition ex_shared : Shared unit := mkShared (mkDWB 16 0 ∅) (mkDisk 0 [] ex_pages) tt ∅.
Definition ex_frames : BPFrameManager (list Z) (LruCache FrameId positive) :=
  (fm_init 1 (mkFrame false 0 (mkFrameId (-1) (-1)) (mkPage 0 0 []))).1.
Definition ex_order (m : gmap PageKey DoubleWritePage) : list DoubleWritePage := (map_to_list m).*2.

Lemma ex_pool_file_ok : file_ok ex_file.
Proof.
  constructor; try by vm_compute.
  - split; [by repeat constructor|by vm_compute].
  - intros i Hi. unfold capacity in Hi. cbn in Hi.
    assert (i = 2 ∨ i = 3 ∨ i = 4 ∨ i = 5 ∨ i = 6 ∨ i = 7) as Hc by lia. by destruct Hc as [-> |[-> |[-> |[-> |[-> | ->]]]]].
Qed.

Lemma ex_pool_ok open : pool_ok ex_frames [] (mkShared (sh_dw ex_shared) (sh_disk ex_shared) tt open).
Proof.
  constructor.
  - apply fm_init_wf; done.
  - constructor; [|done|done]. apply (empty_dwb_ok 16 ∅); [|done]. constructor; cbn.
    + done.
    + intros i dp. unfold slot. by case_match.
    + intros k dp. by rewrite lookup_empty.
    + intros i dp Hi. unfold slot. by case_match.
    + intros k dp i dp'. by rewrite lookup_empty.
  - intros id a f Hin. by apply elem_of_nil in Hin.
Qed.

Lemma ex_has_room : has_room ex_frames [].
Proof. left. by vm_compute. Qed.

Lemma buffer_pool_coherent_witness :
  ∃ fm' s' l' a f, pool_call ex_order 2 (CGet (1, 1)) ex_frames (mkShared (sh_dw ex_shared) (sh_disk ex_shared) tt {[1 := 1%positive]}) = Some (fm', s', inl a) ∧
    held fm' l' (1, 1) a ∧ store fm' !! a = Some f ∧ content (page_ f) = (5, [7; 8; 9]).
Proof.
  destruct (buffer_pool_coherent ex_order (λ m, Permutation_refl _) 2 (CGet (1, 1)) ex_frames []
              (mkShared (sh_dw ex_shared) (sh_disk ex_shared) tt {[1 := 1%positive]}))
    as (fm' & s' & l' & r & Hcall & _ & _ & Hans & _ & _).
  { apply ex_pool_ok. }
  { split; [by eexists|]. left. apply ex_has_room. }
  { lia. }
  unfold call_answer in Hans. assert (Hv : view ex_frames [] (mkShared (sh_dw ex_shared) (sh_disk ex_shared) tt {[1 := 1%positive]}) (1, 1) = Some (5, [7; 8; 9])) by by vm_compute.
  rewrite Hv in Hans. destruct Hans as (a & f & -> & Hh & Hf & Hc). by exists fm', s', l', a, f.
Defined.

Lemma buffer_pool_allocates_witness :
  ∃ (fm : BPFrameManager (list Z) (LruCache FrameId positive)) l (s : Shared unit) hdr
    (fm' : BPFrameManager (list Z) (LruCache FrameId positive)) (s' : Shared unit) l' b' p a,
    pool_ok fm l s ∧ header_at fm l s 1 hdr ex_file ∧
    allocate_page ex_order 2 1 fm s = Some (fm', s', inl a) ∧ allocated_to fm l s 1 hdr ex_file fm' l' s' b' p a ∧
    p ∉ all_pages ex_file ∧ all_pages b' = {[p]} ∪ all_pages ex_file.
Proof.
  destruct (open_file_ok ex_order (λ m, Permutation_refl _) 2 ex_frames [] ex_shared 1 ex_file (header_bytes (file_header_ ex_file)))
    as (fm & s & l & hdr & E & Hok & Hha & _ & Hview & _ & Hsub).
  { apply (ex_pool_ok ∅). }
  { done. }
  { done. }
  { apply ex_has_room. }
  { lia. }
  { by eexists. }
  { by vm_compute. }
  { by vm_compute. }
  { apply ex_pool_file_ok. }
  { by vm_compute. }
  destruct (buffer_pool_allocates ex_order (λ m, Permutation_refl _) 2 fm l s 1 hdr ex_file Hok Hha ltac:(lia)) as [Hal _].
  destruct Hal as (fm' & s' & l' & b' & p & a & Eal & Hto & _ & Hp & _ & Hall & _).
  - intros q Hq. case_decide as D.
    + rewrite Hview. cbn in D. assert (q = 0 ∨ q = 1) as [-> | ->] by lia; by vm_compute.
    + apply spec_lookup_None. intros (x & Ex & Hx)%list_elem_of_fmap. destruct (Hsub x Hx) as [Ey|Hy]; [|by apply elem_of_nil in Hy].
      rewrite Ey in Ex. injection Ex as ->. by apply D.
  - by vm_compute.
  - left. assert (Efm : fm = default ex_frames ((λ r, r.1.1) <$> open_file ex_order 2 1 ex_frames ex_shared)) by by rewrite E.
    rewrite Efm. by vm_compute.
  - by exists fm, l, s, hdr, fm', s', l', b', p, a.
Defined.
