(* ===== verification/RecordFile.v ===== *)
(** * Record files ([storage/record/record_manager.*])

    [RecordFileHandler] keeps the set of the pages that may have room and finds the page for an
    operation; [RecordFileScanner] visits all records.  The pages are those the buffer pool shows its
    clients ([DiskBufferPool.buffer_pool_coherent]): a map from page numbers to frames, beside the
    header of the file, which says which pages are allocated.  A file is verified to be a map from
    record positions to records.  Pages are in row format.  [None] is a failed [ASSERT] or an access
    outside an array. *)
From stdpp Require Import sorting.
From S2P Require Import Prelude Rc Bitmap Serializer LogFile LogHandler LogSink BplusKey BufferPoolFile RecordPage.

(** ** Data *)

(** A file as its users see it through the buffer pool, and the log. *)
Record FileState {L : Type} := mkFileState {
  fs_log : L;
  fs_header : BPFile;
  fs_frames : gmap Z PageFrame;
}.
#[global] Arguments FileState : clear implicits.
#[global] Arguments mkFileState {L}.

(** [src/src/observer/storage/record/record_manager.h:411-418] [RecordFileHandler] the members, with what
    it reads of the table's meta data: the lengths of the fields *)
Record RecordFileHandler := mkFileHandler {
  free_pages_ : gset Z;
  rfh_storage_format : Z;
  rfh_field_lens : list Z;
}.

Definition with_free (h : RecordFileHandler) fs : RecordFileHandler := mkFileHandler fs (rfh_storage_format h) (rfh_field_lens h).

(** A page of zeros, as [allocate_page] returns it. *)
Definition zero_page : RecordPage := mkRecordPage (mkPageHeader 0 0 0 0 0 0 0) [] [] ∅.

(** A record in memory: its position and its bytes. *)
Definition MemRecord : Type := RID * list Z.

(** ** Operations *)

Section operations.
Context {L : Type} `{LogSink L}.
Variable uninitialized : Z.
(** The order in which [free_pages_], an unordered set, is iterated. *)
Variable iteration : gset Z → list Z.
Implicit Types (h : RecordFileHandler) (s : FileState L) (f : PageFrame) (data : list Z).

Definition put_frame s (l : L) p f : FileState L := mkFileState l (fs_header s) (<[p := f]> (fs_frames s)).

(** The handler [RecordPageHandler::init] sets up. *)
Definition handler_on h s (mode : ReadWriteMode) p f : RecordPageHandler :=
  page_init mode (fh_buffer_pool_id (file_header_ (fs_header s))) p (rfh_storage_format h) f.

(** What [DiskBufferPool::allocate_page] does for the clients: the frame of a page that was used before,
    or of a new page of zeros. *)
Definition allocate_frame s : option (FileState L * (Z * PageFrame + RC)) :=
  '(l, hd, r) ← allocate_header (fs_log s) (fs_header s);
  Some match r with
       | Reused p =>
           (mkFileState l hd (fs_frames s),
            match fs_frames s !! p with Some f => inl (p, f) | None => inr RC_IOERR_READ end)
       | Extended p =>
           let f := mkPageFrame 0 false zero_page in (mkFileState l hd (<[p := f]> (fs_frames s)), inl (p, f))
       | NoPage rc => (mkFileState l hd (fs_frames s), inr rc)
       end.

(** [src/src/observer/storage/record/record_manager.cpp:524-537] [RecordFileHandler::init_free_pages] the loop *)
Fixpoint init_free_loop (fuel : nat) s (it : BufferPoolIterator) (free : gset Z) : option (RC * gset Z) :=
  match fuel with
  | O => None
  | S fuel =>
      more ← has_next it;
      if more : bool then
        '(p, it) ← iterator_next it;
        match fs_frames s !! p with
        | Some f => init_free_loop fuel s it (if is_full f then free else {[p]} ∪ free)
        | None => Some (RC_IOERR_READ, free)
        end
      else Some (RC_SUCCESS, free)
  end.

(** [src/src/observer/storage/record/record_manager.cpp:511-540] [RecordFileHandler::init_free_pages] *)
Definition init_free_pages h s : option (RC * RecordFileHandler) :=
  '(rc, free) ← init_free_loop (S (Z.to_nat (page_count (file_header_ (fs_header s))))) s (iterator_init (fs_header s) 1) (free_pages_ h);
  Some (rc, with_free h free).

(** [src/src/observer/storage/record/record_manager.cpp:484-500] [RecordFileHandler::init] on a fresh handler;
    the code of [init_free_pages] is dropped *)
Definition file_handler_init (format : Z) (lens : list Z) s : option (RC * RecordFileHandler) :=
  '(_, h) ← init_free_pages (mkFileHandler ∅ format lens) s;
  Some (RC_SUCCESS, h).

(** [src/src/observer/storage/record/record_manager.cpp:553-570] [RecordFileHandler::insert_record] the loop
    over the free pages; full pages are dropped from the set *)
Fixpoint find_page (fuel : nat) s (free : gset Z) : option (gset Z * (option Z + RC)) :=
  match fuel with
  | O => None
  | S fuel =>
      match head (iteration free) with
      | None => Some (free, inl None)
      | Some p =>
          match fs_frames s !! p with
          | None => Some (free, inr RC_IOERR_READ)
          | Some f => if is_full f then find_page fuel s (free ∖ {[p]}) else Some (free, inl (Some p))
          end
      end
  end.

(** The insertion into the page that was found. *)
Definition insert_on_page h s p f data : option (RC * RecordFileHandler * FileState L * option RID) :=
  '(rc, l, f, rid) ← RecordPage.insert_record (handler_on h s READ_WRITE p f) (fs_log s) f data;
  Some (rc, h, put_frame s l p f, rid).

(** [src/src/observer/storage/record/record_manager.cpp:542-606] [RecordFileHandler::insert_record] *)
Definition insert_record h s data (record_size : Z) : option (RC * RecordFileHandler * FileState L * option RID) :=
  '(free, r) ← find_page (S (size (free_pages_ h))) s (free_pages_ h);
  let h := with_free h free in
  match r with
  | inr rc => Some (rc, h, s, None)
  | inl (Some p) => f ← fs_frames s !! p; insert_on_page h s p f data
  | inl None =>
      '(s, a) ← allocate_frame s;
      match a with
      | inr rc => Some (rc, h, s, None)
      | inl (p, f) =>
          '(rc, l, f) ← init_empty_page (handler_on h s READ_WRITE p f) (fs_log s) f record_size (rfh_field_lens h);
          let s := put_frame s l p f in
          if OB_FAIL rc then Some (rc, h, s, None)
          else insert_on_page (with_free h ({[p]} ∪ free)) s p f data
      end
  end.

(** [src/src/observer/storage/record/record_manager.cpp:608-621] [RecordFileHandler::recover_insert_record]
    with [RecordPageHandler::recover_init], which also marks the page as allocated *)
Definition recover_insert_record h s data (rid : RID) : option (RC * FileState L) :=
  match fs_frames s !! rid_page_num rid with
  | None => Some (RC_IOERR_READ, s)
  | Some f =>
      hd ← recover_page (fs_header s) (rid_page_num rid);
      let s := mkFileState (fs_log s) hd (fs_frames s) in
      '(rc, f) ← RecordPage.recover_insert_record (handler_on h s READ_WRITE (rid_page_num rid) f) f data rid;
      Some (rc, put_frame s (fs_log s) (rid_page_num rid) f)
  end.

(** [src/src/observer/storage/record/record_manager.cpp:623-649] [RecordFileHandler::update_record] *)
Definition update_record h s data (rid : RID) : option (RC * RecordFileHandler * FileState L) :=
  match fs_frames s !! rid_page_num rid with
  | None => Some (RC_IOERR_READ, h, s)
  | Some f =>
      '(rc, l, f) ← RecordPage.update_record (handler_on h s READ_WRITE (rid_page_num rid) f) (fs_log s) f rid (Some data);
      let s := put_frame s l (rid_page_num rid) f in
      Some (rc, if OB_SUCC rc then with_free h ({[rid_page_num rid]} ∪ free_pages_ h) else h, s)
  end.

(** [src/src/observer/storage/record/record_manager.cpp:651-677] [RecordFileHandler::delete_record] *)
Definition delete_record h s (rid : RID) : option (RC * RecordFileHandler * FileState L) :=
  match fs_frames s !! rid_page_num rid with
  | None => Some (RC_IOERR_READ, h, s)
  | Some f =>
      '(rc, l, f) ← RecordPage.delete_record uninitialized (handler_on h s READ_WRITE (rid_page_num rid) f) (fs_log s) f rid;
      let s := put_frame s l (rid_page_num rid) f in
      Some (rc, if OB_SUCC rc then with_free h ({[rid_page_num rid]} ∪ free_pages_ h) else h, s)
  end.

(** [src/src/observer/storage/record/record_manager.cpp:679-699] [RecordFileHandler::get_record] *)
Definition get_record s (rid : RID) : option (RC * option MemRecord) :=
  match fs_frames s !! rid_page_num rid with
  | None => Some (RC_IOERR_READ, None)
  | Some f =>
      '(rc, d) ← RecordPage.get_record f rid;
      Some (rc, if OB_FAIL rc then None else (λ d, (rid, d)) <$> d)
  end.

(** [src/src/observer/storage/record/record_manager.cpp:701-729] [RecordFileHandler::visit_record]
    [updater] gets a copy of the record; with a result it has changed the copy to it *)
Definition visit_record h s (rid : RID) (updater : list Z → option (list Z)) : option (RC * FileState L) :=
  match fs_frames s !! rid_page_num rid with
  | None => Some (RC_IOERR_READ, s)
  | Some f =>
      '(rc, d) ← RecordPage.get_record f rid;
      match d with
      | Some d =>
          match updater d with
          | Some d =>
              '(rc, l, f) ← RecordPage.update_record (handler_on h s READ_WRITE (rid_page_num rid) f) (fs_log s) f rid (Some d);
              Some (rc, put_frame s l (rid_page_num rid) f)
          | None => Some (rc, s)
          end
      | None => Some (rc, s)
      end
  end.
End operations.

(** ** Scanning *)

(** [src/src/observer/storage/record/record_manager.h:114-118] [RecordPageIterator] the page and the next
    slot; the bitmap is that of the page *)
Record RecordPageIterator := mkPageIterator { rpi_page_num_ : Z; next_slot_num_ : Z }.

(** [src/src/observer/storage/record/record_manager.cpp:74-80] [RecordPageIterator::init] *)
Definition page_iterator_init (f : PageFrame) (p : Z) : option RecordPageIterator :=
  n ← next_setted_bit (page_bitmap f) 0; Some (mkPageIterator p n).

(** [src/src/observer/storage/record/record_manager.cpp:82-82] [RecordPageIterator::has_next] *)
Definition page_iterator_has_next (it : RecordPageIterator) : bool := negb (next_slot_num_ it =? -1).

(** [src/src/observer/storage/record/record_manager.cpp:84-92] [RecordPageIterator::next] a record that cannot
    be read leaves the memory of the previous one *)
Definition page_iterator_next (f : PageFrame) (it : RecordPageIterator) (rec : MemRecord) :
    option (RC * RecordPageIterator * MemRecord) :=
  '(_, d) ← RecordPage.get_record f (mkRID (rpi_page_num_ it) (next_slot_num_ it));
  let rec := match d with Some d => (mkRID (rpi_page_num_ it) (next_slot_num_ it), d) | None => rec end in
  n ← (if 0 <=? next_slot_num_ it then next_setted_bit (page_bitmap f) (next_slot_num_ it + 1) else Some (next_slot_num_ it));
  Some (if negb (rid_slot_num rec.1 =? -1) then RC_SUCCESS else RC_RECORD_EOF, mkPageIterator (rpi_page_num_ it) n, rec).

(** [src/src/observer/storage/record/record_manager.h:472-481] [RecordFileScanner] the state of a scan; the
    page iterator is there once a page is open *)
Record RecordFileScanner := mkScanner {
  bp_iterator_ : BufferPoolIterator;
  record_page_iterator_ : option RecordPageIterator;
  next_record_ : MemRecord;
}.

Section scan.
Context {L : Type}.
(** [condition_filter_] and what the transaction answers for a record in the mode of the scan. *)
Variable condition_filter_ : option (MemRecord → bool).
Variable trx_ : option (MemRecord → RC).
Implicit Types (s : FileState L) (f : PageFrame) (sc : RecordFileScanner).

(** [src/src/observer/storage/record/record_manager.cpp:735-760] [RecordFileScanner::open_scan] *)
Definition open_scan s : RecordFileScanner := mkScanner (iterator_init (fs_header s) 1) None (mkRID (-1) (-1), []).

Definition no_record (rec : MemRecord) : MemRecord := (mkRID (rid_page_num rec.1) (-1), rec.2).

(** [src/src/observer/storage/record/record_manager.cpp:811-845] [RecordFileScanner::fetch_next_record_in_page] *)
Fixpoint fetch_next_record_in_page (fuel : nat) f (it : RecordPageIterator) (rec : MemRecord) :
    option (RC * RecordPageIterator * MemRecord) :=
  match fuel with
  | O => None
  | S fuel =>
      if page_iterator_has_next it then
        '(rc, it, rec) ← page_iterator_next f it rec;
        if negb (bool_decide (rc = RC_SUCCESS)) then Some (rc, it, rec)
        else if match condition_filter_ with Some c => negb (c rec) | None => false end
             then fetch_next_record_in_page fuel f it rec
             else match trx_ with
                  | None => Some (rc, it, rec)
                  | Some visit =>
                      let rc := visit rec in
                      if bool_decide (rc = RC_RECORD_INVISIBLE) then fetch_next_record_in_page fuel f it rec
                      else Some (rc, it, rec)
                  end
      else Some (RC_RECORD_EOF, it, no_record rec)
  end.

Definition fetch_in_page f (it : RecordPageIterator) (rec : MemRecord) :=
  fetch_next_record_in_page (S (Z.to_nat (record_capacity (page_header_ (pf_page f))))) f it rec.

(** [src/src/observer/storage/record/record_manager.cpp:782-805] [RecordFileScanner::fetch_next_record] the loop
    over the pages *)
Fixpoint fetch_pages (fuel : nat) s sc : option (RC * RecordFileScanner) :=
  match fuel with
  | O => None
  | S fuel =>
      more ← has_next (bp_iterator_ sc);
      if more : bool then
        '(p, bit) ← iterator_next (bp_iterator_ sc);
        match fs_frames s !! p with
        | None => Some (RC_IOERR_READ, mkScanner bit (record_page_iterator_ sc) (next_record_ sc))
        | Some f =>
            it ← page_iterator_init f p;
            '(rc, it, rec) ← fetch_in_page f it (next_record_ sc);
            let sc := mkScanner bit (Some it) rec in
            if bool_decide (rc = RC_RECORD_EOF) then fetch_pages fuel s sc else Some (rc, sc)
        end
      else Some (RC_RECORD_EOF, mkScanner (bp_iterator_ sc) (record_page_iterator_ sc) (no_record (next_record_ sc)))
  end.

(** [src/src/observer/storage/record/record_manager.cpp:768-806] [RecordFileScanner::fetch_next_record] *)
Definition fetch_next_record s sc : option (RC * RecordFileScanner) :=
  let pages := fetch_pages (S (Z.to_nat (page_count (file_header_ (fs_header s))))) s in
  match record_page_iterator_ sc with
  | Some it =>
      f ← fs_frames s !! rpi_page_num_ it;
      '(rc, it, rec) ← fetch_in_page f it (next_record_ sc);
      let sc := mkScanner (bp_iterator_ sc) (Some it) rec in
      if bool_decide (rc = RC_RECORD_EOF) then pages sc else Some (rc, sc)
  | None => pages sc
  end.

(** [src/src/observer/storage/record/record_manager.cpp:865-874] [RecordFileScanner::next] *)
Definition scanner_next s sc : option (RC * RecordFileScanner * option MemRecord) :=
  '(rc, sc) ← fetch_next_record s sc;
  Some (rc, sc, if OB_FAIL rc then None else Some (next_record_ sc)).

(** [while (OB_SUCC(rc = scanner.next(record)))], the loop of the callers: the records it sees and the
    code that ends it. *)
Fixpoint scan_loop (fuel : nat) s sc : option (list MemRecord * RC) :=
  match fuel with
  | O => None
  | S fuel =>
      '(rc, sc, rec) ← scanner_next s sc;
      match rec with
      | Some r => '(rs, rc) ← scan_loop fuel s sc; Some (r :: rs, rc)
      | None => Some ([], rc)
      end
  end.
End scan.

(** ** The file as a map from positions to records *)

(** The record at a position of an allocated page. *)
Definition file_slot {L} (s : FileState L) (rid : RID) : option (list Z) :=
  if decide (rid_page_num rid ∈ file_pages (fs_header s))
  then f ← fs_frames s !! rid_page_num rid; page_slots f !! rid_slot_num rid else None.

Definition represents {L} (s : FileState L) (m : gmap RID (list Z)) : Prop := ∀ rid, m !! rid = file_slot s rid.

(** The invariant of an open file: its pages have been initialised for records of the table, and the
    set of free pages names pages of the file. *)
Record file_state_ok {L} (template : PageHeader) (h : RecordFileHandler) (s : FileState L) : Prop := {
  fso_header : file_ok (fs_header s);
  fso_stored : ∀ p, 0 < p < page_count (file_header_ (fs_header s)) → is_Some (fs_frames s !! p);
  fso_pages : ∀ p f, p ∈ file_pages (fs_header s) → fs_frames s !! p = Some f →
    page_ok f ∧ page_header_ (pf_page f) = set_record_num template (record_num (page_header_ (pf_page f)));
  fso_free : free_pages_ h ⊆ file_pages (fs_header s);
  fso_format : rfh_storage_format h ≠ 2;
  fso_template : empty_header (record_real_size template) 0 = Some template;
  fso_size : 0 < record_real_size template ≤ INT32_MAX - 7;
  fso_capacity : 1 ≤ record_capacity template;
}.

(** Every page with room can be found again. *)
Definition space_ok {L} (h : RecordFileHandler) (s : FileState L) : Prop :=
  ∀ p f, p ∈ file_pages (fs_header s) → fs_frames s !! p = Some f → is_full f = false → p ∈ free_pages_ h.

(** All pages of a set are full. *)
Definition all_full {L} (s : FileState L) (ps : gset Z) : Prop :=
  ∀ p f, p ∈ ps → fs_frames s !! p = Some f → is_full f = true.

(** *** The specification *)

Inductive FileOp :=
  | FInsert (data : list Z)
  | FDelete (rid : RID)
  | FUpdate (rid : RID) (data : list Z)
  | FGet (rid : RID)
  | FVisit (rid : RID) (updater : list Z → option (list Z)).

(** A result: the code, the position of an insertion, the bytes of a record. *)
Definition FileResult : Type := RC * option RID * option (list Z).

(** What an operation at a position does to a map of records: [cap] slots to a page, [real] bytes to a
    record. *)
Definition map_op (cap real : Z) (m : gmap RID (list Z)) (op : FileOp) : RC * option (list Z) * gmap RID (list Z) :=
  let keep rc := (rc, None, m) in
  let at_slot rid (found : list Z → RC * option (list Z) * gmap RID (list Z)) :=
    match m !! rid with Some d => found d | None => keep RC_RECORD_NOT_EXIST end in
  let put rid d := (RC_SUCCESS, None, <[rid := take (Z.to_nat real) d]> m) in
  match op with
  | FInsert _ => keep RC_UNIMPLEMENTED
  | FDelete rid => at_slot rid (λ _, (RC_SUCCESS, None, delete rid m))
  | FUpdate rid data => if cap <=? rid_slot_num rid then keep RC_INVALID_ARGUMENT else at_slot rid (λ _, put rid data)
  | FGet rid => if cap <=? rid_slot_num rid then keep RC_RECORD_INVALID_RID else at_slot rid (λ d, (RC_SUCCESS, Some d, m))
  | FVisit rid updater =>
      if cap <=? rid_slot_num rid then keep RC_RECORD_INVALID_RID
      else at_slot rid (λ d, match updater d with Some d => put rid d | None => keep RC_SUCCESS end)
  end.

(** The answers a caller may get, [pages] being the pages of the file and [full] that none of the free
    pages has room. *)
Definition file_spec (cap real : Z) (pages : gset Z) (full : Prop) (m : gmap RID (list Z)) (op : FileOp)
    (r : FileResult) (m' : gmap RID (list Z)) : Prop :=
  match op with
  | FInsert data =>
      (∃ rid, r = (RC_SUCCESS, Some rid, None) ∧ m !! rid = None ∧ 0 ≤ rid_slot_num rid < cap ∧
         m' = <[rid := take (Z.to_nat real) data]> m) ∨
      (∃ rc, r = (rc, None, None) ∧ OB_FAIL rc = true ∧ full ∧ m' = m)
  | FDelete rid | FUpdate rid _ | FGet rid | FVisit rid _ =>
      r.1.2 = None ∧
      if decide (rid_page_num rid ∈ pages) then (r.1.1, r.2, m') = map_op cap real m op
      else r = (RC_IOERR_READ, None, None) ∧ m' = m
  end.

(** *** The operations implement the specification *)

Section refinement.
Context {L : Type} `{LogSink L}.
Variable uninitialized : Z.
Variable iteration : gset Z → list Z.
Implicit Types (h : RecordFileHandler) (s : FileState L) (f : PageFrame) (template : PageHeader).

(** An operation, as the file handler runs it. *)
Definition file_op (record_size : Z) h s (op : FileOp) : option (FileResult * RecordFileHandler * FileState L) :=
  match op with
  | FInsert data =>
      '(rc, h, s, rid) ← insert_record iteration h s data record_size; Some ((rc, rid, None), h, s)
  | FDelete rid => '(rc, h, s) ← delete_record uninitialized h s rid; Some ((rc, None, None), h, s)
  | FUpdate rid data => '(rc, h, s) ← update_record h s data rid; Some ((rc, None, None), h, s)
  | FGet rid => '(rc, r) ← get_record s rid; Some ((rc, None, option_map snd r), h, s)
  | FVisit rid updater => '(rc, s) ← visit_record h s rid updater; Some ((rc, None, None), h, s)
  end.

(** What a caller has to respect: positions name pages of the file, or pages that do not exist; records
    have their bytes; a position to delete lies in the bitmap; there is room for a new page. *)
Definition file_op_ok template h s (op : FileOp) : Prop :=
  let cap := record_capacity template in
  let on_page rid P := fs_frames s !! rid_page_num rid = None ∨ (rid_page_num rid ∈ file_pages (fs_header s) ∧ P) in
  match op with
  | FInsert data => record_real_size template ≤ Z.of_nat (length data) ∧
      allocated_pages (file_header_ (fs_header s)) < capacity (fs_header s)
  | FDelete rid => on_page rid (0 ≤ rid_slot_num rid < 8 * page_bitmap_size cap)
  | FUpdate rid data => on_page rid (0 ≤ rid_slot_num rid ∧ record_real_size template ≤ Z.of_nat (length data))
  | FGet rid => on_page rid (0 ≤ rid_slot_num rid)
  | FVisit rid updater => on_page rid (0 ≤ rid_slot_num rid ∧
      ∀ d d', file_slot s rid = Some d → updater d = Some d' → record_real_size template ≤ Z.of_nat (length d'))
  end.

Lemma page_stored template h s p : file_state_ok template h s → p ∈ file_pages (fs_header s) →
  0 < p < page_count (file_header_ (fs_header s)) ∧ ∃ f, fs_frames s !! p = Some f.
Proof.
  intros Hok [Hp Hn]%elem_of_difference. rewrite elem_of_singleton in Hn. pose proof (all_pages_range _ _ Hp) as Hr.
  assert (0 < p < page_count (file_header_ (fs_header s))) by lia. split; [done|]. exact (fso_stored _ _ _ Hok p ltac:(done)).
Qed.

(** A page of the file after an operation on it. *)
Lemma put_frame_ok template h s l p f f' n :
  file_state_ok template h s → p ∈ file_pages (fs_header s) → fs_frames s !! p = Some f → page_ok f' →
  page_header_ (pf_page f') = set_record_num (page_header_ (pf_page f)) n →
  let s' := put_frame s l p f' in
  file_state_ok template h s' ∧ fs_header s' = fs_header s ∧
  ∀ rid, file_slot s' rid = if decide (rid_page_num rid = p) then page_slots f' !! rid_slot_num rid else file_slot s rid.
Proof.
  intros Hok Hp Hf Hok' Hh s'. split; [|split; [done|]].
  - destruct Hok as [O1 O2 O3 O4 O5 O6 O7 O8]. constructor; cbn; try done.
    + intros q Hq. destruct (decide (q = p)) as [->|]; [rewrite lookup_insert_eq; by eexists|rewrite lookup_insert_ne by done; by apply O2].
    + intros q g Hq [[<- <-]|[Hne Hg]]%lookup_insert_Some; [|exact (O3 q g Hq Hg)].
      split; [done|]. destruct (O3 p f Hp Hf) as [_ E]. rewrite Hh, E. done.
  - intros rid. unfold file_slot. cbn [s' put_frame fs_header fs_frames]. case_decide as D1; case_decide as D2; subst; try done.
    + by rewrite lookup_insert_eq.
    + by rewrite lookup_insert_ne.
Qed.

(** The map after an operation on one page. *)
Lemma represents_page s s' p m m' (sl' : gmap Z (list Z)) :
  represents s m →
  (∀ rid, file_slot s' rid = if decide (rid_page_num rid = p) then sl' !! rid_slot_num rid else file_slot s rid) →
  (∀ rid, m' !! rid = if decide (rid_page_num rid = p) then sl' !! rid_slot_num rid else m !! rid) →
  represents s' m'.
Proof. intros Hr Hs Hm rid. rewrite Hs, Hm. by case_decide. Qed.

Lemma slots_of_page template h s m p f i :
  file_state_ok template h s → represents s m → p ∈ file_pages (fs_header s) → fs_frames s !! p = Some f →
  page_slots f !! i = m !! mkRID p i.
Proof. intros Hok Hr Hp Hf. rewrite Hr. unfold file_slot. cbn. rewrite decide_True by done. by rewrite Hf. Qed.

(** One operation of the page handler, seen from the file. *)
Lemma page_step template h s m p f op :
  file_state_ok template h s → represents s m → p ∈ file_pages (fs_header s) → fs_frames s !! p = Some f →
  op_ok (page_header_ (pf_page f)) op →
  ∃ r l' f' n, page_op uninitialized (handler_on h s READ_WRITE p f) (fs_log s) f op = Some (r, l', f') ∧
    page_header_ (pf_page f') = set_record_num template n ∧ n = Z.of_nat (size (page_slots f')) ∧
    (r, page_slots f') = slots_op (record_capacity template) (record_real_size template) (page_slots f) op ∧
    file_state_ok template h (put_frame s l' p f') ∧
    ∀ m', (∀ rid, m' !! rid = if decide (rid_page_num rid = p) then page_slots f' !! rid_slot_num rid else m !! rid) →
      represents (put_frame s l' p f') m'.
Proof.
  intros Hok Hr Hp Hf Hop. destruct (fso_pages _ _ _ Hok p f Hp Hf) as [Hpok Eh].
  destruct (page_op_refines uninitialized (handler_on h s READ_WRITE p f) (fs_log s) f op Hpok eq_refl Hop)
    as (r & l' & f' & n & E & Hok' & Er & Eh').
  destruct (put_frame_ok template h s l' p f f' n Hok Hp Hf Hok' Eh') as (Hs' & _ & Hslot).
  rewrite Eh in Er, Eh'. cbn in Er. exists r, l', f', n. split_and!; try done.
  - rewrite <- (po_num f' Hok'), Eh'. done.
  - intros m' Hm'. by apply (represents_page s _ p m m' (page_slots f')).
Qed.

(** A position: the result of a page operation is that of the operation on the map. *)
Lemma rid_eta rid : mkRID (rid_page_num rid) (rid_slot_num rid) = rid.
Proof. by destruct rid. Qed.

Lemma insert_at_rid (m : gmap RID (list Z)) (sl : gmap Z (list Z)) rid d :
  (∀ i, sl !! i = m !! mkRID (rid_page_num rid) i) →
  ∀ rid', (<[rid := d]> m) !! rid' =
    if decide (rid_page_num rid' = rid_page_num rid) then <[rid_slot_num rid := d]> sl !! rid_slot_num rid' else m !! rid'.
Proof.
  intros Hsl rid'. destruct (decide (rid' = rid)) as [->|Hne].
  - rewrite lookup_insert_eq, decide_True by done. by rewrite lookup_insert_eq.
  - rewrite lookup_insert_ne by done. case_decide as D; [|done]. rewrite lookup_insert_ne.
    + by rewrite Hsl, <- D, rid_eta.
    + intros E. apply Hne. destruct rid, rid'. cbn in *. congruence.
Qed.

Lemma delete_at_rid (m : gmap RID (list Z)) (sl : gmap Z (list Z)) rid :
  (∀ i, sl !! i = m !! mkRID (rid_page_num rid) i) →
  ∀ rid', delete rid m !! rid' =
    if decide (rid_page_num rid' = rid_page_num rid) then delete (rid_slot_num rid) sl !! rid_slot_num rid' else m !! rid'.
Proof.
  intros Hsl rid'. destruct (decide (rid' = rid)) as [->|Hne].
  - rewrite lookup_delete_eq, decide_True by done. by rewrite lookup_delete_eq.
  - rewrite lookup_delete_ne by done. case_decide as D; [|done]. rewrite lookup_delete_ne.
    + by rewrite Hsl, <- D, rid_eta.
    + intros E. apply Hne. destruct rid, rid'. cbn in *. congruence.
Qed.

Lemma same_at_rid (m : gmap RID (list Z)) (sl : gmap Z (list Z)) p :
  (∀ i, sl !! i = m !! mkRID p i) →
  ∀ rid', m !! rid' = if decide (rid_page_num rid' = p) then sl !! rid_slot_num rid' else m !! rid'.
Proof. intros Hsl rid'. case_decide as D; [|done]. by rewrite Hsl, <- D, rid_eta. Qed.

Lemma is_full_put template f n : page_header_ (pf_page f) = set_record_num template n → is_full f = (record_capacity template <=? n).
Proof. unfold is_full. by intros ->. Qed.

Lemma space_put h h' s l p f f' :
  space_ok h s → fs_frames s !! p = Some f → free_pages_ h ⊆ free_pages_ h' →
  (is_full f' = false → p ∈ free_pages_ h' ∨ is_full f = false) → space_ok h' (put_frame s l p f').
Proof.
  intros Hs Hf Hsub Hp q g Hq Hg Hg'. cbn in Hq, Hg. apply lookup_insert_Some in Hg as [[<- <-]|[Hne Hg]].
  - destruct (Hp Hg') as [|Hx]; [done|]. apply Hsub. by eapply Hs.
  - apply Hsub. by eapply Hs.
Qed.

Lemma free_page_ok template h s ps : file_state_ok template h s → ps ⊆ file_pages (fs_header s) → file_state_ok template (with_free h ps) s.
Proof. intros [O1 O2 O3 O4 O5 O6 O7 O8] Hp. by constructor. Qed.

(** What holds after an operation at a position. *)
Definition op_done template h s h' s' : Prop :=
  file_state_ok template h' s' ∧ fs_header s' = fs_header s ∧ (space_ok h s → space_ok h' s').

Lemma op_done_free template h s l p f f' :
  file_state_ok template h s → file_state_ok template h (put_frame s l p f') → p ∈ file_pages (fs_header s) → fs_frames s !! p = Some f →
  op_done template h s (with_free h ({[p]} ∪ free_pages_ h)) (put_frame s l p f').
Proof.
  intros Hok Hok' Hp Hf. split; [|split; [done|]].
  - apply free_page_ok; [done|]. cbn. pose proof (fso_free _ _ _ Hok). set_solver.
  - intros Hs. eapply space_put; [done|done|cbn; set_solver|]. intros _. left. cbn. set_solver.
Qed.

Lemma op_done_same template h s l p f f' :
  file_state_ok template h s → file_state_ok template h (put_frame s l p f') → p ∈ file_pages (fs_header s) → fs_frames s !! p = Some f →
  is_full f' = is_full f → op_done template h s h (put_frame s l p f').
Proof.
  intros Hok Hok' Hp Hf E. split; [done|split; [done|]].
  intros Hs. eapply space_put; [done|done|done|]. rewrite E. by right.
Qed.

(** The page an operation works on keeps its fullness if it keeps its records. *)
Lemma same_full template h s p f f' n :
  file_state_ok template h s → p ∈ file_pages (fs_header s) → fs_frames s !! p = Some f →
  page_header_ (pf_page f') = set_record_num template n → n = Z.of_nat (size (page_slots f)) → is_full f' = is_full f.
Proof.
  intros Hok Hp Hf Eh ->. destruct (fso_pages _ _ _ Hok p f Hp Hf) as [Hpok E].
  rewrite (is_full_put _ _ _ E), (is_full_put _ _ _ Eh). by rewrite (po_num f Hpok).
Qed.

Lemma file_delete_record_ok template h s m rid :
  file_state_ok template h s → represents s m → rid_page_num rid ∈ file_pages (fs_header s) →
  0 ≤ rid_slot_num rid < 8 * page_bitmap_size (record_capacity template) →
  ∃ rc m' h' s', delete_record uninitialized h s rid = Some (rc, h', s') ∧ op_done template h s h' s' ∧ represents s' m' ∧
    (rc, None, m') = map_op (record_capacity template) (record_real_size template) m (FDelete rid).
Proof.
  intros Hok Hr Hp Hi. destruct (page_stored _ _ _ _ Hok Hp) as (_ & f & Hf).
  destruct (page_step template h s m _ f (SDelete (rid_slot_num rid)) Hok Hr Hp Hf) as (r & l' & f' & n & E & Eh & En & Er & Hok' & Hrep).
  { cbn. destruct (fso_pages _ _ _ Hok _ f Hp Hf) as [_ ->]. done. }
  unfold delete_record. rewrite Hf. cbn [page_op] in E.
  change (rph_page_num (handler_on _ _ _ _ _)) with (rid_page_num rid) in E. rewrite rid_eta in E.
  destruct (RecordPage.delete_record _ _ _ _ _) as [[[rc l1] f1]|] eqn:Ed; [|done]. cbn [mbind option_bind] in E |- *.
  injection E as <- <- <-. pose proof (λ i, slots_of_page template h s m _ f i Hok Hr Hp Hf) as Hsl.
  cbn [slots_op] in Er. cbn [map_op]. rewrite (Hsl (rid_slot_num rid)), rid_eta in Er. destruct (m !! rid) as [d|] eqn:Em.
  - injection Er as -> Er. do 4 eexists. split; [done|]. split; [|split; [|done]].
    + by eapply op_done_free.
    + apply Hrep. rewrite Er. by apply delete_at_rid.
  - injection Er as -> Er. do 4 eexists. split; [done|]. split; [|split; [|done]].
    + apply (op_done_same template h s l1 _ f); try done. apply (same_full template h s (rid_page_num rid) f f1 n); try done. by rewrite <- Er.
    + apply Hrep. rewrite Er. by apply same_at_rid.
Qed.

Lemma update_on_page template h s m rid f data :
  file_state_ok template h s → represents s m → rid_page_num rid ∈ file_pages (fs_header s) → fs_frames s !! rid_page_num rid = Some f →
  0 ≤ rid_slot_num rid → record_real_size template ≤ Z.of_nat (length data) →
  ∃ rc l' f' m', RecordPage.update_record (handler_on h s READ_WRITE (rid_page_num rid) f) (fs_log s) f rid (Some data) = Some (rc, l', f') ∧
    file_state_ok template h (put_frame s l' (rid_page_num rid) f') ∧ is_full f' = is_full f ∧
    represents (put_frame s l' (rid_page_num rid) f') m' ∧
    (rc, None, m') = map_op (record_capacity template) (record_real_size template) m (FUpdate rid data).
Proof.
  intros Hok Hr Hp Hf Hi Hd. destruct (fso_pages _ _ _ Hok _ f Hp Hf) as [_ Ehf].
  destruct (page_step template h s m _ f (SUpdate (rid_slot_num rid) (Some data)) Hok Hr Hp Hf) as (r & l' & f' & n & E & Eh & En & Er & Hok' & Hrep).
  { cbn. by rewrite Ehf. }
  cbn [page_op] in E. change (rph_page_num (handler_on _ _ _ _ _)) with (rid_page_num rid) in E. rewrite rid_eta in E.
  destruct (RecordPage.update_record _ _ _ _ _) as [[[rc l1] f1]|] eqn:Ed; [|done]. cbn [mbind option_bind] in E.
  injection E as <- <- <-. pose proof (λ i, slots_of_page template h s m _ f i Hok Hr Hp Hf) as Hsl.
  cbn [slots_op map_op] in Er |- *. exists rc, l1, f1.
  assert (Hcase : page_slots f1 = page_slots f ∨ ∃ old d, page_slots f !! rid_slot_num rid = Some old ∧ page_slots f1 = <[rid_slot_num rid := d]> (page_slots f)).
  { destruct (_ <=? _); [left; congruence|]. destruct (page_slots f !! _) as [old|] eqn:Eo; [|left; congruence]. right. injection Er as _ Er. eauto. }
  assert (Hfull : is_full f1 = is_full f).
  { apply (same_full template h s (rid_page_num rid) f f1 n); try done. subst n. destruct Hcase as [-> | (old & d & Eo & ->)]; [done|].
    by rewrite map_size_insert_Some by done. }
  destruct (_ <=? _).
  { injection Er as -> Er. eexists. split_and!; try done. apply Hrep. rewrite Er. by apply same_at_rid. }
  rewrite (Hsl (rid_slot_num rid)), rid_eta in Er. destruct (m !! rid) as [d|] eqn:Em; injection Er as -> Er.
  - eexists. split_and!; try done. apply Hrep. rewrite Er. by apply insert_at_rid.
  - eexists. split_and!; try done. apply Hrep. rewrite Er. by apply same_at_rid.
Qed.

Lemma update_record_ok template h s m rid data :
  file_state_ok template h s → represents s m → rid_page_num rid ∈ file_pages (fs_header s) →
  0 ≤ rid_slot_num rid → record_real_size template ≤ Z.of_nat (length data) →
  ∃ rc m' h' s', update_record h s data rid = Some (rc, h', s') ∧ op_done template h s h' s' ∧ represents s' m' ∧
    (rc, None, m') = map_op (record_capacity template) (record_real_size template) m (FUpdate rid data).
Proof.
  intros Hok Hr Hp Hi Hd. destruct (page_stored _ _ _ _ Hok Hp) as (_ & f & Hf).
  destruct (update_on_page template h s m rid f data Hok Hr Hp Hf Hi Hd) as (rc & l' & f' & m' & E & Hok' & Hfull & Hr' & Em).
  unfold update_record. rewrite Hf, E. cbn [mbind option_bind]. exists rc, m'. do 2 eexists. split; [done|]. split; [|done].
  destruct (OB_SUCC rc); [by eapply op_done_free|by apply (op_done_same template h s l' _ f)].
Qed.

Lemma get_on_page template h s m rid f :
  file_state_ok template h s → represents s m → rid_page_num rid ∈ file_pages (fs_header s) → fs_frames s !! rid_page_num rid = Some f →
  0 ≤ rid_slot_num rid →
  ∃ rc d, RecordPage.get_record f rid = Some (rc, d) ∧ (is_Some d ↔ rc = RC_SUCCESS) ∧
    (rc, d, m) = map_op (record_capacity template) (record_real_size template) m (FGet rid).
Proof.
  intros Hok Hr Hp Hf Hi. destruct (fso_pages _ _ _ Hok _ f Hp Hf) as [Hpok Ehf].
  destruct (get_refines uninitialized (handler_on h s READ_WRITE (rid_page_num rid) f) (fs_log s) f (rid_slot_num rid) Hpok Hi) as (r & E & Er).
  cbn [page_op] in E. change (rph_page_num (handler_on _ _ _ _ _)) with (rid_page_num rid) in E. rewrite rid_eta in E.
  destruct (RecordPage.get_record f rid) as [[rc d]|]; [|done]. cbn [mbind option_bind] in E. injection E as <-.
  exists rc, d. rewrite Ehf in Er. cbn [slots_op set_record_num record_capacity] in Er. cbn [map_op].
  rewrite (slots_of_page template h s m _ f _ Hok Hr Hp Hf), rid_eta in Er.
  destruct (_ <=? _); [injection Er as -> ->|destruct (m !! rid); injection Er as -> ->]; (split; [done|]); split; try done; by split; intros []; try done.
Qed.

Lemma file_visit_record_ok template h s m rid updater :
  file_state_ok template h s → represents s m → rid_page_num rid ∈ file_pages (fs_header s) →
  0 ≤ rid_slot_num rid → (∀ d d', file_slot s rid = Some d → updater d = Some d' → record_real_size template ≤ Z.of_nat (length d')) →
  ∃ rc m' s', visit_record h s rid updater = Some (rc, s') ∧ op_done template h s h s' ∧ represents s' m' ∧
    (rc, None, m') = map_op (record_capacity template) (record_real_size template) m (FVisit rid updater).
Proof.
  intros Hok Hr Hp Hi Hd. destruct (page_stored _ _ _ _ Hok Hp) as (_ & f & Hf).
  destruct (get_on_page template h s m rid f Hok Hr Hp Hf Hi) as (rc & d & E & Hrc & Em).
  unfold visit_record. rewrite Hf, E. cbn [mbind option_bind map_op] in *.
  destruct (_ <=? _) eqn:Ec; [injection Em as -> ->; by exists RC_RECORD_INVALID_RID, m, s|].
  destruct (m !! rid) as [old|] eqn:Eo; injection Em as -> ->; [|by exists RC_RECORD_NOT_EXIST, m, s].
  destruct (updater old) as [d'|] eqn:Eu; [|by exists RC_SUCCESS, m, s].
  destruct (update_on_page template h s m rid f d' Hok Hr Hp Hf Hi) as (rc & l' & f' & m' & E' & Hok' & Hfull & Hr' & Em').
  { apply (Hd old); [|done]. by rewrite <- Hr. }
  rewrite E'. cbn [mbind option_bind map_op] in *. rewrite Ec, Eo in Em'. exists rc, m'. eexists. split; [done|].
  split; [by apply (op_done_same template h s l' _ f)|done].
Qed.

Lemma template_ok template h s : file_state_ok template h s → page_layout template ∧ record_num template = 0.
Proof.
  intros Hok. destruct (empty_header_ok (record_real_size template) 0 (fso_size _ _ _ Hok) ltac:(lia) ltac:(by vm_compute)) as (hd & E & Hl & Hn & _).
  rewrite (fso_template _ _ _ Hok) in E. injection E as <-. done.
Qed.

(** A new page is an empty page of the file. *)
Lemma init_page_ok template h s ph l f :
  file_state_ok template h s → storage_format_ ph ≠ 2 →
  ∃ rc l' f', init_empty_page ph l f (record_real_size template) (rfh_field_lens h) = Some (rc, l', f') ∧
    page_ok f' ∧ page_slots f' = ∅ ∧ page_header_ (pf_page f') = template ∧ ∃ d, rc = (sink_append l (module_index RECORD_MANAGER) d).1.2.
Proof.
  intros Hok Hfmt. destruct (template_ok template h s Hok) as [Hl Hn]. unfold init_empty_page. cbn [storage_format_].
  rewrite (proj2 (Z.eqb_neq _ _) Hfmt). cbn [length]. change (Z.of_nat 0) with 0. rewrite (fso_template _ _ _ Hok). cbn [mbind option_bind].
  unfold log_init_new_page. set (f1 := mkPageFrame _ _ _). set (pl := _ ++ _).
  pose proof (append_record_log_page l f1 pl) as Hp.
  assert (Hc : (append_record_log l f1 pl).2 = (sink_append l (module_index RECORD_MANAGER) pl).1.2) by (unfold append_record_log; by destruct (sink_append _ _ _) as [[? ?] ?]).
  destruct (append_record_log _ _ _) as [[l' f'] rc]. cbn [fst snd] in Hp, Hc.
  destruct (empty_page_ok f') as [Hpok Hs]; [by rewrite Hp..|]. exists rc, l', f'. split_and!; try done; [by rewrite Hp|by exists pl].
Qed.

(** An insertion into a page with room takes a free position of it. *)
Lemma insert_on_page_ok template h s m p f data :
  file_state_ok template h s → represents s m → p ∈ file_pages (fs_header s) → fs_frames s !! p = Some f → is_full f = false →
  record_real_size template ≤ Z.of_nat (length data) →
  ∃ s' i, insert_on_page h s p f data = Some (RC_SUCCESS, h, s', Some (mkRID p i)) ∧
    m !! mkRID p i = None ∧ 0 ≤ i < record_capacity template ∧
    file_state_ok template h s' ∧ fs_header s' = fs_header s ∧ (p ∈ free_pages_ h → space_ok h s → space_ok h s') ∧
    represents s' (<[mkRID p i := take (Z.to_nat (record_real_size template)) data]> m).
Proof.
  intros Hok Hr Hp Hf Hfull Hd. destruct (fso_pages _ _ _ Hok _ f Hp Hf) as [Hpok Ehf].
  destruct (page_step template h s m p f (SInsert data) Hok Hr Hp Hf) as (r & l' & f' & n & E & Eh & En & Er & Hok' & Hrep).
  { cbn. by rewrite Ehf. }
  destruct (next_free_slot f Hpok) as (i & _ & Hi & Hnone & Hfirst).
  { unfold is_full in Hfull. apply Z.leb_gt in Hfull. lia. }
  rewrite Ehf in Hfirst, Hi. cbn in Hfirst, Hi. cbn [slots_op] in Er. rewrite Hfirst in Er. injection Er as -> Er.
  unfold insert_on_page. cbn [page_op] in E. destruct (RecordPage.insert_record _ _ _ _) as [[[[rc l1] f1] rid]|] eqn:Ei; [|done].
  cbn [mbind option_bind] in E |- *. injection E as -> Erid <- <-. destruct rid as [rid|]; [|done]. injection Erid as Erid.
  assert (Hpage : rid = mkRID p i).
  { unfold RecordPage.insert_record in Ei. destruct (decide _); [done|]. cbv zeta in Ei. destruct (_ =? _); [done|].
    destruct (next_unsetted_bit _ _) as [j|]; [|done]. cbn [mbind option_bind] in Ei. destruct (set_bit _ _); [|done]. cbn [mbind option_bind] in Ei.
    destruct (log_insert_record _ _ _ _ _) as [[? ?] ?]. destruct (copy_record _ _); [|done]. cbn [mbind option_bind] in Ei.
    injection Ei as _ _ <-. cbn in Erid. by subst j. }
  subst rid. do 2 eexists. split; [done|]. pose proof (λ j, slots_of_page template h s m _ f j Hok Hr Hp Hf) as Hsl.
  split_and!; try done; try lia.
  - by rewrite <- Hsl.
  - intros Hfree Hs. eapply space_put; [done|done|done|]. by left.
  - apply Hrep. rewrite Er. by apply insert_at_rid.
Qed.

Section insert.
Hypothesis iteration_perm : ∀ ps, iteration ps ≡ₚ elements ps.

Lemma find_page_ok template h s fuel : file_state_ok template h s → ∀ free, free ⊆ file_pages (fs_header s) → (size free < fuel)%nat →
  ∃ free' r, find_page iteration fuel s free = Some (free', inl r) ∧ free' ⊆ free ∧ all_full s (free ∖ free') ∧
    match r with Some p => p ∈ free' ∧ ∃ f, fs_frames s !! p = Some f ∧ is_full f = false | None => free' = ∅ end.
Proof.
  intros Hok. induction fuel as [|fuel IH]; intros free Hsub Hsz; [lia|]. cbn [find_page].
  destruct (iteration free) as [|p ps] eqn:Ei; cbn [head].
  - exists ∅, None. pose proof (iteration_perm free) as Hp. rewrite Ei in Hp. apply Permutation_nil_l in Hp.
    assert (free = ∅) as -> by (apply leibniz_equiv; by apply elements_empty_inv). done.
  - assert (Hin : p ∈ free) by (apply elem_of_elements; rewrite <- (iteration_perm free), Ei; by left).
    destruct (page_stored template h s p Hok ltac:(set_solver)) as (_ & f & Hf). rewrite Hf. destruct (is_full f) eqn:Efull.
    + destruct (IH (free ∖ {[p]})) as (free' & r & E & Hsub' & Hfull & Hr); [set_solver| |].
      { rewrite size_difference by set_solver. rewrite size_singleton. assert (size free ≠ 0%nat) by (apply size_non_empty_iff; set_solver). lia. }
      exists free', r. split_and!; [done|set_solver| |done]. intros q g Hq Hg. destruct (decide (q = p)) as [->|Hne]; [congruence|].
      apply (Hfull q g); [set_solver|done].
    + exists free, (Some p). split_and!; try done; [|by exists f]. intros q g Hq. set_solver.
Qed.

Lemma file_allocate_ok template h s :
  file_state_ok template h s → allocated_pages (file_header_ (fs_header s)) < capacity (fs_header s) →
  ∃ s' p f, allocate_frame s = Some (s', inl (p, f)) ∧ 0 < p ∧ p ∉ file_pages (fs_header s) ∧ file_ok (fs_header s') ∧
    file_pages (fs_header s') = {[p]} ∪ file_pages (fs_header s) ∧
    page_count (file_header_ (fs_header s')) = Z.max (page_count (file_header_ (fs_header s))) (p + 1) ∧
    p ≤ page_count (file_header_ (fs_header s)) ∧
    fs_frames s' !! p = Some f ∧ ∀ q, q ≠ p → fs_frames s' !! q = fs_frames s !! q.
Proof.
  intros Hok Hroom. destruct (allocate_header_ok (fs_log s) (fs_header s) (fso_header _ _ _ Hok) Hroom)
    as (l' & hd & r & p & E & Er & Hok' & Hp & Hn & _ & Hall & _ & _ & bm & _ & Eh).
  destruct (allocate_header_facts (fs_log s) l' (fs_header s) hd r (fso_header _ _ _ Hok) E) as (_ & _ & Hr); [by rewrite Er|].
  unfold allocate_frame. rewrite E. cbn [mbind option_bind].
  assert (Hpages : file_pages hd = {[p]} ∪ file_pages (fs_header s)) by (unfold file_pages; rewrite Hall; set_solver by lia).
  assert (Hcnt : page_count (file_header_ hd) = Z.max (page_count (file_header_ (fs_header s))) (p + 1)) by (by rewrite Eh).
  assert (p ∉ file_pages (fs_header s)) by (unfold file_pages; set_solver).
  destruct r as [q|q|]; [| |done]; cbn in Er; injection Er as ->.
  - destruct (fso_stored _ _ _ Hok p ltac:(lia)) as [f Hf]. rewrite Hf. do 3 eexists. split; [done|]. split_and!; try done. lia.
  - do 3 eexists. split; [done|]. split_and!; try done; [lia|by apply lookup_insert_eq|]. intros q Hq. by apply lookup_insert_ne.
Qed.

(** The file with an empty page more. *)
Lemma file_add_page_ok template h s s' m p f l f' :
  file_state_ok template h s → represents s m → 0 < p → p ∉ file_pages (fs_header s) → file_ok (fs_header s') →
  file_pages (fs_header s') = {[p]} ∪ file_pages (fs_header s) →
  page_count (file_header_ (fs_header s')) = Z.max (page_count (file_header_ (fs_header s))) (p + 1) →
  p ≤ page_count (file_header_ (fs_header s)) → fs_frames s' !! p = Some f → (∀ q, q ≠ p → fs_frames s' !! q = fs_frames s !! q) →
  page_ok f' → page_slots f' = ∅ → page_header_ (pf_page f') = template →
  file_state_ok template h (put_frame s' l p f') ∧ represents (put_frame s' l p f') m ∧
  (space_ok h s → space_ok (with_free h ({[p]} ∪ free_pages_ h)) (put_frame s' l p f')).
Proof.
  intros [O1 O2 O3 O4 O5 O6 O7 O8] Hr Hp Hn Hh Hpages Hcnt Hle Hf Hoth Hpok Hsl Eh. split_and!.
  - constructor; cbn; try done.
    + intros q Hq. destruct (decide (q = p)) as [->|Hne]; [rewrite lookup_insert_eq; by eexists|].
      rewrite lookup_insert_ne, Hoth by done. apply O2. lia.
    + intros q g Hq [[<- <-]|[Hne Hg]]%lookup_insert_Some; [by rewrite Eh; destruct template|].
      rewrite Hoth in Hg by done. apply (O3 q g); [set_solver|done].
    + set_solver.
  - intros rid. rewrite Hr. unfold file_slot. cbn [put_frame fs_header fs_frames]. rewrite Hpages.
    destruct (decide (rid_page_num rid = p)) as [->|Hne].
    + rewrite (decide_False (P := p ∈ file_pages (fs_header s))) by done. rewrite decide_True by (clear; set_solver).
      rewrite lookup_insert_eq. cbn. by rewrite Hsl, lookup_empty.
    + rewrite lookup_insert_ne, Hoth by done.
      rewrite (decide_ext (rid_page_num rid ∈ {[p]} ∪ file_pages (fs_header s)) (rid_page_num rid ∈ file_pages (fs_header s))) by (clear - Hne; set_solver). done.
  - intros Hs q g Hq Hg Hfull. cbn in Hq, Hg |- *. apply lookup_insert_Some in Hg as [[<- <-]|[Hne Hg]]; [clear; set_solver|].
    rewrite Hoth in Hg by done. rewrite Hpages in Hq. assert (q ∈ free_pages_ h) by (apply (Hs q g); [clear - Hq Hne; set_solver|done|done]).
    clear - H0; set_solver.
Qed.

Lemma file_insert_record_ok template h s m data :
  file_state_ok template h s → represents s m → record_real_size template ≤ Z.of_nat (length data) →
  allocated_pages (file_header_ (fs_header s)) < capacity (fs_header s) →
  ∃ rc h' s' rid m', insert_record iteration h s data (record_real_size template) = Some (rc, h', s', rid) ∧
    file_state_ok template h' s' ∧ represents s' m' ∧
    file_spec (record_capacity template) (record_real_size template) (file_pages (fs_header s)) (all_full s (free_pages_ h)) m
      (FInsert data) (rc, rid, None) m' ∧
    (space_ok h s → rc = RC_SUCCESS → space_ok h' s') ∧
    (file_pages (fs_header s') = file_pages (fs_header s) ∨ all_full s (free_pages_ h)) ∧
    (rid = None → ∃ l d, rc = (sink_append l (module_index RECORD_MANAGER) d).1.2).
Proof.
  intros Hok Hr Hd Hroom. unfold insert_record.
  destruct (find_page_ok template h s (S (size (free_pages_ h))) Hok (free_pages_ h) (fso_free _ _ _ Hok) ltac:(lia))
    as (free & r & E & Hsub & Hfull & Hr'). rewrite E. cbn [mbind option_bind].
  pose proof (free_page_ok template h s free Hok ltac:(pose proof (fso_free _ _ _ Hok); set_solver)) as Hok1.
  assert (Hspace : space_ok h s → space_ok (with_free h free) s).
  { intros Hs q g Hq Hg Hnf. pose proof (Hs q g Hq Hg Hnf) as Hin. destruct (decide (q ∈ free)) as [|Hni]; [done|].
    rewrite (Hfull q g) in Hnf; [done|set_solver|done]. }
  destruct r as [p|].
  - destruct Hr' as (Hp & f & Hf & Hnf). rewrite Hf. cbn [mbind option_bind].
    destruct (insert_on_page_ok template (with_free h free) s m p f data Hok1 Hr) as (s' & i & Ei & Hn & Hi & Hok' & Eh & Hs' & Hrep); [|done..|].
    { pose proof (fso_free _ _ _ Hok). set_solver. }
    rewrite Ei. do 5 eexists. split; [done|]. split; [done|]. split; [exact Hrep|]. split; [left; by eexists|].
    split; [intros Hs _; apply Hs'; [done|by apply Hspace]|]. split; [left; by rewrite Eh|done].
  - assert (Hall : all_full s (free_pages_ h)) by (subst free; by rewrite difference_empty_L in Hfull).
    destruct (file_allocate_ok template h s Hok Hroom) as (s1 & p & f & Ea & Hp & Hn & Hh1 & Hpages & Hcnt & Hle & Hf & Hoth).
    rewrite Ea. cbn [mbind option_bind].
    destruct (init_page_ok template (with_free h free) s (handler_on (with_free h free) s1 READ_WRITE p f) (fs_log s1) f Hok1) as (rc & l' & f' & Ei & Hpok & Hsl & Eh & d & Ed).
    { apply (fso_format _ _ _ Hok). }
    rewrite Ei. cbn [mbind option_bind].
    destruct (file_add_page_ok template (with_free h free) s s1 m p f l' f' Hok1 Hr) as (Hok2 & Hr2 & Hs2); try done.
    destruct (OB_FAIL rc) eqn:Erc.
    + do 5 eexists. split; [done|]. split; [done|]. split; [exact Hr2|]. split; [right; by exists rc|].
      split; [|split; [by right|by eexists _, d]]. intros _ ->. done.
    + set (h3 := with_free (with_free h free) ({[p]} ∪ free)).
      destruct (insert_on_page_ok template h3 (put_frame s1 l' p f') m p f' data) as (s' & i & Ei' & Hni & Hi & Hok' & Eh' & Hs' & Hrep);
        [|done| |by apply lookup_insert_eq| |done|].
      { apply free_page_ok; [done|]. cbn. rewrite Hpages. pose proof (fso_free _ _ _ Hok1) as Hx. cbn in Hx. clear - Hx. set_solver. }
      { cbn. rewrite Hpages. clear. set_solver. }
      { unfold is_full. rewrite Eh. destruct (template_ok template h s Hok) as [_ ->]. pose proof (fso_capacity _ _ _ Hok). apply Z.leb_gt. lia. }
      rewrite Ei'. do 5 eexists. split; [done|]. split; [done|]. split; [exact Hrep|]. split; [left; by eexists|].
      split; [|split; [by right|done]]. intros Hs _. apply Hs'; [cbn; clear; set_solver|]. by apply Hs2, Hspace.
Qed.

(** C11: a file behaves as one map from positions to records.  Let the file be open and well formed; let positions name a page of the
    file or one that does not exist, with a slot that is not negative and, for a deletion, inside the bitmap; let records have
    their bytes, and let an insertion find fewer allocated pages than the file can have.  Then every insertion, deletion, update, read and visit
    returns, leaves a well-formed file and answers as the map does.  An insertion takes a position that was not in use, in a
    page of the file, and one that fails changes no record and fails only when no free page has room; the other operations report a position
    without record or a page that does not exist, and all but the deletion also a slot beyond the capacity of a page.  Pages are added only when
    the free pages are all full.  If every page with room is among the free pages, then this is so after the operation,
    unless it is an insertion that fails. *)
Theorem record_file_refines_map template h s m op :
  file_state_ok template h s → represents s m → file_op_ok template h s op →
  ∃ r h' s' m', file_op (record_real_size template) h s op = Some (r, h', s') ∧
    file_state_ok template h' s' ∧ represents s' m' ∧
    file_spec (record_capacity template) (record_real_size template) (file_pages (fs_header s)) (all_full s (free_pages_ h)) m op r m' ∧
    (file_pages (fs_header s') = file_pages (fs_header s) ∨ (∃ data, op = FInsert data) ∧ all_full s (free_pages_ h)) ∧
    (space_ok h s → (∀ data, op = FInsert data → r.1.1 = RC_SUCCESS) → space_ok h' s').
Proof using iteration_perm.
  intros Hok Hr Hop.
  assert (Hmiss : ∀ rid, fs_frames s !! rid_page_num rid = None → rid_page_num rid ∉ file_pages (fs_header s)).
  { intros rid Hf Hp. destruct (page_stored _ _ _ _ Hok Hp) as (_ & f & E). congruence. }
  destruct op as [data|rid|rid data|rid|rid updater]; cbn [file_op file_spec file_op_ok] in *.
  - destruct Hop as [Hd Hroom]. destruct (file_insert_record_ok template h s m data Hok Hr Hd Hroom) as (rc & h' & s' & rid & m' & E & Hok' & Hr' & Hsp & Hs & Hp & _).
    rewrite E. cbn [mbind option_bind]. do 4 eexists. split; [done|]. split; [done|]. split; [exact Hr'|]. split; [exact Hsp|].
    split; [destruct Hp; [by left|right; split; [by eexists|done]]|]. intros Hsp' Hrc. apply Hs; [done|]. by apply (Hrc data).
  - destruct Hop as [Hf|[Hp Hi]].
    { unfold delete_record. rewrite Hf. cbn [mbind option_bind]. do 3 eexists. exists m. rewrite decide_False by eauto. split_and!; auto. }
    destruct (file_delete_record_ok template h s m rid Hok Hr Hp Hi) as (rc & m' & h' & s' & E & (Hok' & Eh & Hs) & Hr' & Em).
    rewrite E. cbn [mbind option_bind]. do 3 eexists. exists m'. rewrite decide_True by done. split_and!; auto. by rewrite Eh; left.
  - destruct Hop as [Hf|(Hp & Hi & Hd)].
    { unfold update_record. rewrite Hf. cbn [mbind option_bind]. do 3 eexists. exists m. rewrite decide_False by eauto. split_and!; auto. }
    destruct (update_record_ok template h s m rid data Hok Hr Hp Hi Hd) as (rc & m' & h' & s' & E & (Hok' & Eh & Hs) & Hr' & Em).
    rewrite E. cbn [mbind option_bind]. do 3 eexists. exists m'. rewrite decide_True by done. split_and!; auto. by rewrite Eh; left.
  - unfold get_record. destruct Hop as [Hf|[Hp Hi]].
    { rewrite Hf. cbn [mbind option_bind]. do 3 eexists. exists m. rewrite decide_False by eauto. split_and!; auto. }
    destruct (page_stored _ _ _ _ Hok Hp) as (_ & f & Hf). rewrite Hf.
    destruct (get_on_page template h s m rid f Hok Hr Hp Hf Hi) as (rc & d & E & Hrc & Em). rewrite E. cbn [mbind option_bind].
    do 3 eexists. exists m. rewrite decide_True by done. split_and!; auto. rewrite <- Em. cbn. f_equal. f_equal.
    destruct d as [d|]; [|by destruct (OB_FAIL rc)]. rewrite (proj1 Hrc ltac:(by eexists)). done.
  - destruct Hop as [Hf|(Hp & Hi & Hd)].
    { unfold visit_record. rewrite Hf. cbn [mbind option_bind]. do 3 eexists. exists m. rewrite decide_False by eauto. split_and!; auto. }
    destruct (file_visit_record_ok template h s m rid updater Hok Hr Hp Hi Hd) as (rc & m' & s' & E & (Hok' & Eh & Hs) & Hr' & Em).
    rewrite E. cbn [mbind option_bind]. do 3 eexists. exists m'. rewrite decide_True by done. split_and!; auto. by rewrite Eh; left.
Qed.
End insert.
End refinement.

(** ** Iteration *)

(** The allocated pages behind page [c], ascending. *)
Definition pages_behind (f : BPFile) (c : Z) : list Z :=
  filter (λ p, p ∈ all_pages f) (seqZ (c + 1) (page_count (file_header_ f) - (c + 1))).

Lemma elem_of_pages_behind f c p : p ∈ pages_behind f c ↔ p ∈ all_pages f ∧ c < p.
Proof.
  unfold pages_behind. rewrite list_elem_of_filter, elem_of_seqZ. split; [intros [? ?]; split; [done|lia]|].
  intros [Hp ?]. split; [done|]. apply all_pages_range in Hp. lia.
Qed.

Lemma seqZ_split a b n : a ≤ b → b ≤ a + n → seqZ a n = seqZ a (b - a) ++ seqZ b (n - (b - a)).
Proof. intros H1 H2. replace n with ((b - a) + (n - (b - a))) at 1 by lia. rewrite seqZ_app by lia. do 2 f_equal. lia. Qed.

Lemma filter_nothing {A} (P : A → Prop) `{∀ x, Decision (P x)} l : (∀ x, x ∈ l → ¬ P x) → filter P l = [].
Proof. intros Hn. apply elem_of_nil_inv. intros x [Hp Hx]%list_elem_of_filter. by eapply Hn. Qed.

(** What the iterator does, as a walk along that list. *)
Lemma iterator_walk f it :
  file_ok f → it_bitmap_ it = header_bitmap (file_header_ f) → -1 ≤ current_page_num_ it →
  match pages_behind f (current_page_num_ it) with
  | [] => has_next it = Some false
  | p :: ps => has_next it = Some true ∧ iterator_next it = Some (p, mkIterator (it_bitmap_ it) p) ∧
      pages_behind f p = ps ∧ current_page_num_ it < p
  end.
Proof.
  intros Hok Hb Hc. destruct (iterator_next_spec f it Hok Hb Hc) as (n & it' & E & Eh & Hn).
  pose proof (fo_count f Hok). destruct Hn as [(-> & -> & Hall)|(Hlt & Hin & -> & Hleast)].
  - assert (pages_behind f (current_page_num_ it) = []) as ->; [|done].
    apply elem_of_nil_inv. intros p [Hp ?]%elem_of_pages_behind. specialize (Hall p Hp). lia.
  - pose proof (all_pages_range f n Hin).
    assert (pages_behind f (current_page_num_ it) = n :: pages_behind f n) as ->.
    { unfold pages_behind at 1. rewrite (seqZ_split _ n) by lia. rewrite filter_app, filter_nothing; cycle 1.
      { intros p Hp%elem_of_seqZ Hx. specialize (Hleast p Hx). lia. }
      rewrite seqZ_cons by lia. rewrite filter_cons_True by done. cbn. unfold pages_behind. do 3 f_equal; lia. }
    rewrite Eh, E. split_and!; try done. f_equal. apply negb_true_iff, Z.eqb_neq. lia.
Qed.

(** A list of lists in order is in order. *)
Lemma sorted_bind {A B} (R : A → A → Prop) (S : B → B → Prop) (g : A → list B) l :
  StronglySorted R l → (∀ a, a ∈ l → StronglySorted S (g a)) →
  (∀ a a' b b', R a a' → b ∈ g a → b' ∈ g a' → S b b') → StronglySorted S (l ≫= g).
Proof.
  intros Hl Hg HS. induction Hl as [|a l Hl IH Ha]; [constructor|]. cbn. apply StronglySorted_app. split_and!.
  - intros b b' Hb Hb'. apply list_elem_of_bind in Hb' as (a' & Hb' & Ha'). rewrite Forall_forall in Ha. by eapply HS; [apply Ha|..].
  - apply Hg. by left.
  - apply IH. intros a' Ha'. apply Hg. by right.
Qed.

Lemma sorted_seqZ a n : StronglySorted Z.lt (seqZ a n).
Proof.
  destruct (decide (0 ≤ n)) as [Hn|]; [|rewrite seqZ_nil by lia; constructor].
  revert a. apply (natlike_ind (λ n, ∀ a, StronglySorted Z.lt (seqZ a n))); [|intros m Hm IH a|done]; [intros a; rewrite seqZ_nil by lia; constructor|].
  rewrite seqZ_cons by lia. constructor; [by replace (Z.pred (Z.succ m)) with m by lia|].
  apply Forall_forall. intros x Hx%elem_of_seqZ. lia.
Qed.

Lemma sorted_filter {A} (R : A → A → Prop) (P : A → Prop) `{∀ x, Decision (P x)} l : StronglySorted R l → StronglySorted R (filter P l).
Proof.
  intros Hl. induction Hl as [|a l Hl IH Ha]; [constructor|]. rewrite filter_cons. case_decide; [|done].
  constructor; [done|]. apply Forall_forall. intros x [_ Hx]%list_elem_of_filter. rewrite Forall_forall in Ha. by apply Ha.
Qed.

(** The records of a page from slot [n] on. *)
Definition slot_record (p : Z) (f : PageFrame) (i : Z) : list MemRecord :=
  match page_slots f !! i with Some d => [(mkRID p i, d)] | None => [] end.
Definition page_rest (p : Z) (f : PageFrame) (n : Z) : list MemRecord :=
  seqZ n (record_capacity (page_header_ (pf_page f)) - n) ≫= slot_record p f.

Lemma elem_of_page_rest p f n rid d :
  (rid, d) ∈ page_rest p f n ↔ rid_page_num rid = p ∧ n ≤ rid_slot_num rid ∧ page_slots f !! rid_slot_num rid = Some d.
Proof.
  unfold page_rest, slot_record. rewrite list_elem_of_bind. setoid_rewrite elem_of_seqZ. split.
  - intros (i & Hin & Hi). destruct (page_slots f !! i) eqn:E; [|by apply not_elem_of_nil in Hin].
    apply list_elem_of_singleton in Hin. injection Hin as -> ->. cbn. split_and!; [done|lia|done].
  - intros (<- & Hi & E). exists (rid_slot_num rid). rewrite E, list_elem_of_singleton. split; [by destruct rid|].
    apply page_slots_lookup in E as (_ & ? & _). lia.
Qed.

(** Positions in the order of the file. *)
Definition rid_before (r1 r2 : RID) : Prop :=
  rid_page_num r1 < rid_page_num r2 ∨ (rid_page_num r1 = rid_page_num r2 ∧ rid_slot_num r1 < rid_slot_num r2).

Lemma page_rest_sorted p f n : StronglySorted (λ x y : MemRecord, rid_before x.1 y.1) (page_rest p f n).
Proof.
  unfold page_rest. eapply sorted_bind; [apply sorted_seqZ|..].
  - intros i _. unfold slot_record. destruct (page_slots f !! i); repeat constructor.
  - intros i j x y Hij. unfold slot_record. destruct (page_slots f !! i); [|by intros ?%not_elem_of_nil].
    intros Hx%list_elem_of_singleton. destruct (page_slots f !! j); [|by intros ?%not_elem_of_nil].
    intros Hy%list_elem_of_singleton. subst. right. by split.
Qed.

(** All records behind page [c], and all records. *)
Definition file_rest {L} (s : FileState L) (c : Z) : list MemRecord :=
  pages_behind (fs_header s) c ≫= λ p, match fs_frames s !! p with Some f => page_rest p f 0 | None => [] end.
Definition file_list {L} (s : FileState L) : list MemRecord := file_rest s 0.

Lemma file_list_ok {L} template h (s : FileState L) m :
  file_state_ok template h s → represents s m →
  (∀ rid d, (rid, d) ∈ file_list s ↔ m !! rid = Some d) ∧ StronglySorted (λ x y : MemRecord, rid_before x.1 y.1) (file_list s).
Proof.
  intros Hok Hr. split.
  - intros rid d. unfold file_list, file_rest. rewrite list_elem_of_bind, Hr. unfold file_slot. split.
    + intros (p & Hin & [Hp H0]%elem_of_pages_behind). destruct (fs_frames s !! p) as [f|] eqn:Ef; [|by apply not_elem_of_nil in Hin].
      apply elem_of_page_rest in Hin as (<- & _ & E). rewrite decide_True by (unfold file_pages; set_solver by lia). by rewrite Ef.
    + case_decide as Hp; [|done]. destruct (fs_frames s !! rid_page_num rid) as [f|] eqn:Ef; [|done]. cbn. intros E.
      exists (rid_page_num rid). rewrite Ef, elem_of_page_rest, elem_of_pages_behind. apply page_slots_lookup in E as Hs.
      unfold file_pages in Hp. apply elem_of_difference in Hp as [Hp Hn]. pose proof (all_pages_range _ _ Hp).
      rewrite not_elem_of_singleton in Hn. split_and!; try done; lia.
  - unfold file_list, file_rest. eapply sorted_bind; [apply sorted_filter, sorted_seqZ|..].
    + intros p _. destruct (fs_frames s !! p); [apply page_rest_sorted|constructor].
    + intros p q [r d] [r' d'] Hpq. destruct (fs_frames s !! p); [|by intros ?%not_elem_of_nil].
      intros (Ep & _ & _)%elem_of_page_rest. destruct (fs_frames s !! q); [|by intros ?%not_elem_of_nil].
      intros (Eq & _ & _)%elem_of_page_rest. left. cbn. by rewrite Ep, Eq.
Qed.

(** *** Scans *)

Section scan_correct.
Context {L : Type}.
Variable condition_filter_ : option (MemRecord → bool).
Variable trx_ : option (MemRecord → RC).
(** A transaction never answers with the code for the end of the file. *)
Hypothesis visit_not_eof : ∀ visit r, trx_ = Some visit → visit r ≠ RC_RECORD_EOF.
Implicit Types (s : FileState L) (f : PageFrame) (sc : RecordFileScanner).

Definition rejected (r : MemRecord) : bool := match condition_filter_ with Some c => negb (c r) | None => false end.
Definition visit_code (r : MemRecord) : RC := match trx_ with Some visit => visit r | None => RC_SUCCESS end.

(** The first record of a list that a scan stops at, and the rest. *)
Fixpoint pick (l : list MemRecord) : option (RC * MemRecord) * list MemRecord :=
  match l with
  | [] => (None, [])
  | r :: l => if rejected r || bool_decide (visit_code r = RC_RECORD_INVISIBLE) then pick l else (Some (visit_code r, r), l)
  end.

(** What a scan of a list of records returns: the records that pass the filter and are visible, up to
    the first one the transaction refuses. *)
Fixpoint scan_spec (l : list MemRecord) : list MemRecord * RC :=
  match l with
  | [] => ([], RC_RECORD_EOF)
  | r :: l =>
      if rejected r || bool_decide (visit_code r = RC_RECORD_INVISIBLE) then scan_spec l
      else if OB_FAIL (visit_code r) then ([], visit_code r) else let '(rs, rc) := scan_spec l in (r :: rs, rc)
  end.

Lemma pick_app l1 l2 :
  pick (l1 ++ l2) = match pick l1 with (Some x, l) => (Some x, l ++ l2) | (None, _) => pick l2 end.
Proof. induction l1 as [|r l1 IH]; [done|]. cbn. by destruct (_ || _). Qed.

Lemma scan_spec_pick l :
  scan_spec l = match pick l with
                | (None, _) => ([], RC_RECORD_EOF)
                | (Some (rc, r), l) => if OB_FAIL rc then ([], rc) else let '(rs, rc) := scan_spec l in (r :: rs, rc)
                end.
Proof. induction l as [|r l IH]; [done|]. cbn. by destruct (_ || _). Qed.

Lemma pick_length l x l' : pick l = (Some x, l') → (length l' < length l)%nat.
Proof.
  revert x l'. induction l as [|r l IH]; intros x l'; [done|]. cbn. destruct (_ || _).
  - intros E%IH. lia.
  - intros [= _ <-]. lia.
Qed.

Lemma visit_code_eof r : visit_code r ≠ RC_RECORD_EOF.
Proof using visit_not_eof. unfold visit_code. destruct trx_ eqn:E; [by eapply visit_not_eof|done]. Qed.

Lemma pick_eof l rc r l' : pick l = (Some (rc, r), l') → rc ≠ RC_RECORD_EOF.
Proof using visit_not_eof.
  induction l as [|x l IH]; [done|]. cbn. destruct (_ || _); [exact IH|]. intros [= <- _ _]. apply visit_code_eof.
Qed.

(** The page iterator stands before the records [rest] of its page. *)
Definition stands (p : Z) f (it : RecordPageIterator) (rest : list MemRecord) : Prop :=
  rpi_page_num_ it = p ∧ rest = (if next_slot_num_ it =? -1 then [] else page_rest p f (next_slot_num_ it)) ∧
  (next_slot_num_ it = -1 ∨ ∃ d, page_slots f !! next_slot_num_ it = Some d).

Lemma next_slot_ok p f n : page_ok f → 0 ≤ n →
  ∃ i, next_setted_bit (page_bitmap f) n = Some i ∧ stands p f (mkPageIterator p i) (page_rest p f n).
Proof.
  intros Hok Hn. destruct (next_setted_bit_first (page_bitmap f) n (po_wf f Hok) Hn) as (i & Hi & Hf).
  exists i. split; [done|]. split; [done|]. cbn. destruct Hf as [[-> Hall]|(Hr & Hb & Hall)]; cbn in *.
  - split; [|by left]. apply elem_of_nil_inv. intros [rid d] (_ & Hge & E)%elem_of_page_rest.
    apply page_slots_lookup in E as (_ & Hc & Hx). rewrite Hall in Hx; [done|lia].
  - rewrite (proj2 (Z.eqb_neq i (-1))) by lia. split; [|right; change (is_Some (page_slots f !! i)); apply page_slots_bit; [done|lia|done]].
    unfold page_rest. rewrite (seqZ_split n i) by lia. rewrite bind_app.
    assert (seqZ n (i - n) ≫= slot_record p f = []) as ->.
    { apply elem_of_nil_inv. intros x (j & Hx & Hj)%list_elem_of_bind. apply elem_of_seqZ in Hj. unfold slot_record in Hx.
      destruct (page_slots f !! j) as [d|] eqn:E; [|by apply not_elem_of_nil in Hx]. apply page_slots_lookup in E as (_ & Hc & Hbit).
      rewrite Hall in Hbit; [done|lia]. }
    cbn [app]. do 2 f_equal; lia.
Qed.

Lemma page_rest_cons p f i d : page_slots f !! i = Some d → page_rest p f i = (mkRID p i, d) :: page_rest p f (i + 1).
Proof.
  intros E. apply page_slots_lookup in E as Hs. destruct Hs as (_ & Hc & _). unfold page_rest. rewrite seqZ_cons by lia. cbn.
  unfold slot_record at 1. rewrite E. cbn. do 3 f_equal; lia.
Qed.

Lemma fetch_in_page_loop p f : page_ok f → ∀ fuel it rec rest, stands p f it rest → (length rest < fuel)%nat →
  match pick rest with
  | (Some (rc, r), rest') => ∃ it', fetch_next_record_in_page condition_filter_ trx_ fuel f it rec = Some (rc, it', r) ∧ stands p f it' rest'
  | (None, _) => ∃ it' rec', fetch_next_record_in_page condition_filter_ trx_ fuel f it rec = Some (RC_RECORD_EOF, it', rec') ∧ stands p f it' []
  end.
Proof.
  intros Hok fuel. induction fuel as [|fuel IH]; intros it rec rest Hst Hlen; [lia|].
  cbn [fetch_next_record_in_page]. unfold page_iterator_has_next. destruct Hst as (Hp & Hrest & Hd).
  destruct (next_slot_num_ it =? -1) eqn:E; zify_bool.
  { subst rest. cbn. do 2 eexists. split; [done|]. split; [done|]. rewrite E. by split; [|left]. }
  cbn [negb]. destruct Hd as [|[d Hd]]; [done|]. set (n := next_slot_num_ it) in *. rewrite (page_rest_cons p f n d Hd) in Hrest. subst rest.
  apply page_slots_lookup in Hd as Hs. destruct Hs as (Hrec & Hn & Hbit).
  assert (Hget : RecordPage.get_record f (mkRID p n) = Some (RC_SUCCESS, Some d)).
  { unfold RecordPage.get_record. cbn [rid_slot_num]. rewrite (proj2 (Z.leb_gt _ _)), get_bit_slot by (done || lia). cbn [mbind option_bind].
    rewrite bool_decide_true by (by eexists). by rewrite Hrec. }
  destruct (next_slot_ok p f (n + 1) Hok ltac:(lia)) as (i & Hi & Hst').
  unfold page_iterator_next. fold n. rewrite Hp, Hget. cbn [mbind option_bind]. rewrite (proj2 (Z.leb_le 0 n)), Hi by lia. cbn [mbind option_bind fst rid_slot_num].
  rewrite (proj2 (Z.eqb_neq n (-1))) by lia. cbn [negb]. rewrite bool_decide_true by done. cbn [negb pick].
  unfold rejected at 1. unfold visit_code at 1 2. cbn [length] in Hlen.
  destruct (match condition_filter_ with Some c => negb (c (mkRID p n, d)) | None => false end); cbn [orb].
  - apply (IH (mkPageIterator p i)); [done|lia].
  - unfold visit_code in *. destruct trx_ as [visit|]; [|rewrite bool_decide_false by done; by eexists]. cbv zeta. case_bool_decide as Hinv.
    + apply (IH (mkPageIterator p i)); [done|lia].
    + by eexists.
Qed.

Lemma page_rest_length p f n : 0 ≤ n → (length (page_rest p f n) ≤ Z.to_nat (record_capacity (page_header_ (pf_page f))))%nat.
Proof.
  intros Hn. unfold page_rest.
  assert (H : ∀ l, (length (l ≫= slot_record p f) ≤ length l)%nat).
  { induction l as [|i l IH]; [done|]. cbn. rewrite length_app. unfold slot_record at 1. destruct (page_slots f !! i); cbn; lia. }
  etrans; [apply H|]. rewrite length_seqZ. lia.
Qed.

Lemma fetch_in_page_ok p f it rec rest : page_ok f → stands p f it rest →
  match pick rest with
  | (Some (rc, r), rest') => ∃ it', fetch_in_page condition_filter_ trx_ f it rec = Some (rc, it', r) ∧ stands p f it' rest'
  | (None, _) => ∃ it' rec', fetch_in_page condition_filter_ trx_ f it rec = Some (RC_RECORD_EOF, it', rec') ∧ stands p f it' []
  end.
Proof.
  intros Hok Hst. apply (fetch_in_page_loop p f Hok); [done|]. destruct Hst as (_ & -> & Hd).
  destruct (_ =? _) eqn:E; zify_bool; cbn; [lia|]. destruct Hd as [|[d Hd]]; [done|]. apply page_slots_lookup in Hd as (_ & ? & _).
  pose proof (page_rest_length p f (next_slot_num_ it) ltac:(lia)). lia.
Qed.

Section on_file.
Context (template : PageHeader) (h : RecordFileHandler) (s : FileState L).
Hypothesis Hfile : file_state_ok template h s.

(** The scanner stands before the records [rest] of the file. *)
Definition scanner_at sc (rest : list MemRecord) : Prop :=
  it_bitmap_ (bp_iterator_ sc) = header_bitmap (file_header_ (fs_header s)) ∧ 0 ≤ current_page_num_ (bp_iterator_ sc) ∧
  ∃ rest1, rest = rest1 ++ file_rest s (current_page_num_ (bp_iterator_ sc)) ∧
    match record_page_iterator_ sc with
    | Some it => ∃ p f, p ∈ file_pages (fs_header s) ∧ fs_frames s !! p = Some f ∧ stands p f it rest1
    | None => rest1 = []
    end.

Lemma fetch_pages_ok fuel : ∀ sc, it_bitmap_ (bp_iterator_ sc) = header_bitmap (file_header_ (fs_header s)) →
  0 ≤ current_page_num_ (bp_iterator_ sc) → (length (pages_behind (fs_header s) (current_page_num_ (bp_iterator_ sc))) < fuel)%nat →
  match pick (file_rest s (current_page_num_ (bp_iterator_ sc))) with
  | (Some (rc, r), rest') => ∃ sc', fetch_pages condition_filter_ trx_ fuel s sc = Some (rc, sc') ∧ next_record_ sc' = r ∧ scanner_at sc' rest'
  | (None, _) => ∃ sc', fetch_pages condition_filter_ trx_ fuel s sc = Some (RC_RECORD_EOF, sc')
  end.
Proof using Hfile visit_not_eof.
  induction fuel as [|fuel IH]; intros sc Hb Hc Hlen; [lia|]. cbn [fetch_pages].
  pose proof (iterator_walk (fs_header s) (bp_iterator_ sc) (fso_header _ _ _ Hfile) Hb ltac:(lia)) as Hw. unfold file_rest.
  destruct (pages_behind (fs_header s) (current_page_num_ (bp_iterator_ sc))) as [|p ps] eqn:Ep.
  { rewrite Hw. cbn. by eexists. }
  destruct Hw as (-> & -> & Hps & Hlt). cbn [mbind option_bind list_bind]. 
  assert (Hp : p ∈ file_pages (fs_header s)).
  { assert (p ∈ pages_behind (fs_header s) (current_page_num_ (bp_iterator_ sc))) as [Hx Hy]%elem_of_pages_behind by (rewrite Ep; by left).
    unfold file_pages. set_solver by lia. }
  destruct (page_stored _ _ _ _ Hfile Hp) as (_ & f & Hf). rewrite Hf. destruct (fso_pages _ _ _ Hfile p f Hp Hf) as [Hpok _].
  destruct (next_slot_ok p f 0 Hpok ltac:(lia)) as (i & Hi & Hst). unfold page_iterator_init. rewrite Hi. cbn [mbind option_bind].
  pose proof (fetch_in_page_ok p f (mkPageIterator p i) (next_record_ sc) _ Hpok Hst) as Hfetch. rewrite pick_app.
  destruct (pick (page_rest p f 0)) as [[[rc r]|] rest'] eqn:Epick.
  - destruct Hfetch as (it' & E & Hst'). rewrite E. cbn [mbind option_bind]. rewrite bool_decide_false by (by eapply pick_eof).
    eexists. split; [done|]. split; [done|]. split_and!; cbn; [done|lia|]. exists rest'. rewrite <- Hps. split; [done|]. by exists p, f.
  - destruct Hfetch as (it' & rec' & E & Hst'). rewrite E. cbn [mbind option_bind]. rewrite bool_decide_true by done.
    specialize (IH (mkScanner (mkIterator (it_bitmap_ (bp_iterator_ sc)) p) (Some it') rec')). cbn in IH.
    unfold file_rest in IH. rewrite Hps in IH. apply IH; [done|lia|]. cbn in Hlen. lia.
Qed.

Lemma fetch_next_ok sc rest : scanner_at sc rest →
  match pick rest with
  | (Some (rc, r), rest') => ∃ sc', fetch_next_record condition_filter_ trx_ s sc = Some (rc, sc') ∧ next_record_ sc' = r ∧ scanner_at sc' rest'
  | (None, _) => ∃ sc', fetch_next_record condition_filter_ trx_ s sc = Some (RC_RECORD_EOF, sc')
  end.
Proof using Hfile visit_not_eof.
  intros (Hb & Hc & rest1 & -> & Hit). unfold fetch_next_record. cbv zeta. rewrite pick_app.
  assert (Hlen : ∀ c, 0 ≤ c → (length (pages_behind (fs_header s) c) < S (Z.to_nat (page_count (file_header_ (fs_header s)))))%nat).
  { intros c Hc0. unfold pages_behind. pose proof (length_filter (λ p, p ∈ all_pages (fs_header s)) (seqZ (c + 1) (page_count (file_header_ (fs_header s)) - (c + 1)))).
    rewrite length_seqZ in H. lia. }
  destruct (record_page_iterator_ sc) as [it|].
  - destruct Hit as (p & f & Hp & Hf & Hst). destruct (fso_pages _ _ _ Hfile p f Hp Hf) as [Hpok _].
    pose proof (fetch_in_page_ok p f it (next_record_ sc) _ Hpok Hst) as Hfetch.
    destruct Hst as (-> & _). rewrite Hf. cbn [mbind option_bind].
    destruct (pick rest1) as [[[rc r]|] rest'] eqn:Epick.
    + destruct Hfetch as (it' & E & Hst'). rewrite E. cbn [mbind option_bind]. rewrite bool_decide_false by (by eapply pick_eof).
      eexists. split; [done|]. split; [done|]. split_and!; [done|done|]. exists rest'. split; [done|]. by exists p, f.
    + destruct Hfetch as (it' & rec' & E & Hst'). rewrite E. cbn [mbind option_bind]. rewrite bool_decide_true by done.
      apply (fetch_pages_ok _ (mkScanner (bp_iterator_ sc) (Some it') rec')); [done|done|by apply Hlen].
  - subst rest1. cbn [pick]. apply fetch_pages_ok; [done|done|by apply Hlen].
Qed.

Lemma scan_loop_ok fuel : ∀ sc rest, scanner_at sc rest → (length rest < fuel)%nat →
  scan_loop condition_filter_ trx_ fuel s sc = Some (scan_spec rest).
Proof using Hfile visit_not_eof.
  induction fuel as [|fuel IH]; intros sc rest Hat Hlen; [lia|]. cbn [scan_loop]. unfold scanner_next.
  pose proof (fetch_next_ok sc rest Hat) as Hn. rewrite scan_spec_pick. destruct (pick rest) as [[[rc r]|] rest'] eqn:Epick.
  - destruct Hn as (sc' & E & Hr & Hat'). rewrite E. cbn [mbind option_bind]. destruct (OB_FAIL rc) eqn:Erc; [done|].
    rewrite (IH sc' rest' Hat') by (apply pick_length in Epick; lia). cbn [mbind option_bind]. subst r. by destruct (scan_spec rest').
  - destruct Hn as (sc' & E). rewrite E. done.
Qed.

Lemma open_scan_at : scanner_at (open_scan s) (file_list s).
Proof. split; [done|]. split; [done|]. by exists []. Qed.
End on_file.

(** C12: a scan is complete and exact.  On an open file that holds the map [m] the loop over
    [RecordFileScanner::next] returns; it sees every record of [m] that passes the filter and that the
    transaction does not declare invisible exactly once, in the order of the positions (pages, then
    slots), and ends with RECORD_EOF, or with the code of the first record the transaction refuses. *)
Theorem record_scan_complete template h s m fuel :
  file_state_ok template h s → represents s m → (size m < fuel)%nat →
  ∃ records, (∀ rid d, (rid, d) ∈ records ↔ m !! rid = Some d) ∧
    StronglySorted (λ x y : MemRecord, rid_before x.1 y.1) records ∧
    scan_loop condition_filter_ trx_ fuel s (open_scan s) = Some (scan_spec records).
Proof using visit_not_eof.
  intros Hok Hr Hfuel. destruct (file_list_ok template h s m Hok Hr) as [Hin Hsort]. exists (file_list s). split; [done|]. split; [done|].
  apply (scan_loop_ok template h s Hok); [apply open_scan_at|].
  assert (Hnd : NoDup (file_list s)).
  { clear -Hsort. induction Hsort as [|x l Hl IH Hx]; constructor; [|done]. intros Hin. rewrite Forall_forall in Hx.
    specialize (Hx x Hin). unfold rid_before in Hx. lia. }
  assert (file_list s ≡ₚ map_to_list m) as Hperm.
  { apply NoDup_Permutation; [done|apply NoDup_map_to_list|]. intros [rid d]. rewrite Hin. symmetry. apply elem_of_map_to_list. }
  apply Permutation_length in Hperm. pose proof (length_map_to_list m) as Hm. unfold MemRecord in *. lia.
Qed.
End scan_correct.

(** ** Opening a file *)

Lemma init_free_loop_ok {L} (s : FileState L) fuel :
  file_ok (fs_header s) → (∀ p, 0 < p < page_count (file_header_ (fs_header s)) → is_Some (fs_frames s !! p)) →
  ∀ it free, it_bitmap_ it = header_bitmap (file_header_ (fs_header s)) → 0 ≤ current_page_num_ it →
  (length (pages_behind (fs_header s) (current_page_num_ it)) < fuel)%nat →
  ∃ free', init_free_loop fuel s it free = Some (RC_SUCCESS, free') ∧
    ∀ p, p ∈ free' ↔ p ∈ free ∨ p ∈ pages_behind (fs_header s) (current_page_num_ it) ∧ ∃ f, fs_frames s !! p = Some f ∧ is_full f = false.
Proof.
  intros Hok Hst. induction fuel as [|fuel IH]; intros it free Hb Hc Hlen; [lia|]. cbn [init_free_loop].
  pose proof (iterator_walk (fs_header s) it Hok Hb ltac:(lia)) as Hw.
  destruct (pages_behind (fs_header s) (current_page_num_ it)) as [|p ps] eqn:Ep.
  { rewrite Hw. exists free. split; [done|]. intros p. split; [by left|]. intros [|[?%not_elem_of_nil _]]; done. }
  destruct Hw as (-> & -> & Hps & Hlt). cbn [mbind option_bind].
  assert (p ∈ pages_behind (fs_header s) (current_page_num_ it)) as [Hx Hy]%elem_of_pages_behind by (rewrite Ep; by left).
  pose proof (all_pages_range _ _ Hx). destruct (Hst p ltac:(lia)) as [f Hf]. rewrite Hf. cbn in Hlen.
  destruct (IH (mkIterator (it_bitmap_ it) p) (if is_full f then free else {[p]} ∪ free)) as (free' & E & Hfree'); [done|cbn; lia|cbn; rewrite Hps; lia|].
  exists free'. split; [done|]. intros q. rewrite Hfree'. cbn [current_page_num_]. rewrite Hps, elem_of_cons.
  assert (Hp : (∃ g, fs_frames s !! p = Some g ∧ is_full g = false) ↔ is_full f = false).
  { split; [intros (g & Hg & Hn); congruence|]. intros. by exists f. }
  destruct (is_full f) eqn:Efull; [|rewrite elem_of_union, elem_of_singleton].
  - split; [intros [|[]]; auto|]. intros [|[[->|] Hn]]; auto. apply Hp in Hn. done.
  - split; [intros [[->|]|[]]; auto|]. { right. split; [by left|]. by apply Hp. } intros [|[[->|] Hn]]; auto.
Qed.

(** C13: opening a file ([RecordFileHandler::init], [init_free_pages]) reads every page once and leaves in
    the set of free pages exactly the pages with room, so the handler satisfies the invariant and no space
    of an earlier run is lost. *)
Theorem open_finds_free_pages {L} template (s : FileState L) h0 :
  file_state_ok template (with_free h0 ∅) s →
  ∃ h, file_handler_init (rfh_storage_format h0) (rfh_field_lens h0) s = Some (RC_SUCCESS, h) ∧
    file_state_ok template h s ∧ space_ok h s ∧
    ∀ p, p ∈ free_pages_ h ↔ p ∈ file_pages (fs_header s) ∧ ∃ f, fs_frames s !! p = Some f ∧ is_full f = false.
Proof.
  intros Hok. pose proof (fso_header _ _ _ Hok) as Hhd.
  destruct (init_free_loop_ok s (S (Z.to_nat (page_count (file_header_ (fs_header s))))) Hhd (fso_stored _ _ _ Hok) (iterator_init (fs_header s) 1) ∅)
    as (free & E & Hfree); [done|done| |].
  { unfold pages_behind. eapply Nat.le_lt_trans; [apply length_filter|]. rewrite length_seqZ. cbn. lia. }
  assert (Hmem : ∀ p, p ∈ free ↔ p ∈ file_pages (fs_header s) ∧ ∃ f, fs_frames s !! p = Some f ∧ is_full f = false).
  { intros p. rewrite Hfree, elem_of_pages_behind. change (current_page_num_ (iterator_init (fs_header s) 1)) with 0. unfold file_pages.
    rewrite elem_of_difference, not_elem_of_singleton. split.
    - intros [?%not_elem_of_empty|[[Hp ?] ?]]; [done|]. split; [split; [done|lia]|done].
    - intros [[Hp ?] ?]. pose proof (all_pages_range _ _ Hp). right. split; [split; [done|lia]|done]. }
  exists (with_free (mkFileHandler ∅ (rfh_storage_format h0) (rfh_field_lens h0)) free). split_and!.
  - unfold file_handler_init, init_free_pages. cbn [free_pages_]. rewrite E. done.
  - destruct Hok as [O1 O2 O3 O4 O5 O6 O7 O8]. constructor; cbn; try done. intros p [Hp _]%Hmem. done.
  - intros p f Hp Hf Hnf. apply Hmem. split; [done|]. by exists f.
  - exact Hmem.
Qed.

(** ** Examples *)

Definition ex_template : PageHeader := default (mkPageHeader 0 0 0 0 0 0 0) (empty_header 100000 0).
Definition ex_page : PageFrame := mkPageFrame 0 false (mkRecordPage ex_template [0] [] ∅).
Definition ex_state : FileState unit := mkFileState tt (mkFile 0 false (mkFileHeader 1 2 2 [3; 0])) {[1 := ex_page]}.
Definition ex_handler : RecordFileHandler := mkFileHandler ∅ 1 [100000].
Definition ex_data : list Z := replicate (Z.to_nat 100000) 7.

Lemma ex_record_file_ok ps : ps ⊆ {[1]} → file_state_ok ex_template (with_free ex_handler ps) ex_state.
Proof.
  assert (Hpages : file_pages (fs_header ex_state) = {[1]}) by by_compute.
  assert (Hpage : page_ok ex_page) by (apply empty_page_ok; [|done..]; constructor; by vm_compute).
  intros Hps. constructor; try rewrite Hpages; cbn [with_free free_pages_]; try done; try by vm_compute.
  - constructor; try done; try by vm_compute.
    + split; [|by vm_compute]. repeat constructor; by vm_compute.
    + intros i Hi. cbn in Hi. unfold capacity in Hi. cbn in Hi. assert (H : Forall (λ i, bit [3; 0] i = false) (seqZ 2 14)) by by_compute.
      rewrite Forall_forall in H. apply H, elem_of_seqZ. lia.
  - intros p Hp. cbn in Hp. assert (p = 1) as -> by lia. by eexists.
  - intros p f ->%elem_of_singleton [= <-]. done.
Qed.

Lemma ex_represents : represents ex_state ∅.
Proof.
  intros rid. rewrite lookup_empty. unfold file_slot. case_decide as Hp; [|done].
  assert (Hpages : file_pages (fs_header ex_state) = {[1]}) by by_compute. rewrite Hpages in Hp. apply elem_of_singleton in Hp as ->. cbn.
  symmetry. apply map_lookup_filter_None. left. apply lookup_empty.
Qed.

Lemma ex_data_length : Z.of_nat (length ex_data) = 100000.
Proof. unfold ex_data. rewrite length_replicate. lia. Qed.

(** A page with room takes the record. *)
Lemma record_file_refines_map_witness :
  ∃ rid h' s', file_op 0 elements 100000 (with_free ex_handler {[1]}) ex_state (FInsert ex_data) = Some ((RC_SUCCESS, Some rid, None), h', s') ∧
    represents s' {[rid := take (Z.to_nat 100000) ex_data]}.
Proof.
  destruct (record_file_refines_map 0 elements (λ ps, reflexivity (elements ps)) ex_template (with_free ex_handler {[1]}) ex_state ∅ (FInsert ex_data))
    as (r & h' & s' & m' & E & _ & Hr & Hspec & _).
  - by apply ex_record_file_ok.
  - apply ex_represents.
  - split; [rewrite ex_data_length; by vm_compute|by vm_compute].
  - destruct Hspec as [(rid & -> & _ & _ & ->)|(rc & _ & _ & Hfull & _)].
    + exists rid, h', s'. split; [exact E|exact Hr].
    + specialize (Hfull 1 ex_page ltac:(set_solver) eq_refl). by vm_compute in Hfull.
Defined.

Lemma open_finds_free_pages_witness :
  ∃ h, file_handler_init 1 [100000] ex_state = Some (RC_SUCCESS, h) ∧ 1 ∈ free_pages_ h.
Proof.
  destruct (open_finds_free_pages ex_template ex_state ex_handler) as (h & E & _ & _ & Hm); [by apply ex_record_file_ok|].
  exists h. split; [exact E|]. apply Hm. split; [by_compute|]. exists ex_page. split; [done|by vm_compute].
Defined.

(** A file with one record, which the scan returns. *)
Lemma record_scan_complete_witness :
  ∃ (s : FileState unit) rid, scan_loop None None 2 s (open_scan s) = Some ([(rid, take (Z.to_nat 100000) ex_data)], RC_RECORD_EOF).
Proof.
  destruct (file_insert_record_ok 0 elements (λ ps, reflexivity (elements ps)) ex_template (with_free ex_handler {[1]}) ex_state ∅ ex_data)
    as (rc & h' & s' & rid & m' & _ & Hok & Hr & Hspec & _ & _).
  { by apply ex_record_file_ok. } { apply ex_represents. } { rewrite ex_data_length. by vm_compute. } { by vm_compute. }
  destruct Hspec as [(rid' & _ & _ & _ & Em)|(rc' & _ & _ & Hfull & _)].
  2: { specialize (Hfull 1 ex_page ltac:(set_solver) eq_refl). by vm_compute in Hfull. }
  destruct (record_scan_complete None None (λ v r (H : None = Some v), ltac:(discriminate H)) ex_template h' s' m' 2 Hok Hr) as (rs & Hin & Hsort & E).
  { rewrite Em, insert_empty, map_size_singleton. lia. }
  exists s', rid'. rewrite E. f_equal. set (d := take _ ex_data). change (take _ ex_data) with d in Em. rewrite Em, insert_empty in Hin. clear E.
  destruct rs as [|[r1 d1] rs].
  { assert (Hnil : (rid', d) ∈ ([] : list MemRecord)) by (apply Hin; by rewrite lookup_singleton_eq). by apply not_elem_of_nil in Hnil. }
  assert (E1 : (r1, d1) = (rid', d)).
  { pose proof (proj1 (Hin r1 d1) ltac:(by left)) as E1. apply lookup_singleton_Some in E1 as [-> ->]. done. }
  destruct rs as [|[r2 d2] rs]; [injection E1 as -> ->; done|]. exfalso.
  assert (E2 : (r2, d2) = (rid', d)).
  { pose proof (proj1 (Hin r2 d2) ltac:(by right; left)) as E2. apply lookup_singleton_Some in E2 as [-> ->]. done. }
  injection E1 as -> ->. injection E2 as -> ->. apply StronglySorted_inv in Hsort as [_ Hx]. apply Forall_inv in Hx. unfold rid_before in Hx. cbn in Hx. lia.
Defined.
