(* ===== verification/TableMeta.v ===== *)
(** * Meta data of tables ([storage/table/table_meta.*, storage/field/*, storage/index/index_meta.*])

    The fields of a table and their places in a record, the fields of a transaction in front, and the
    descriptions of the indexes; reading and writing an integer field of a record; the key of a
    record in an index.  The text format of the meta file (jsoncpp) is not modelled:
    [deserialize_fields] starts from the fields that were parsed.  A record is a list of bytes. *)
From stdpp Require Import sorting strings.
From S2P Require Import Prelude Rc Serializer.

(** ** Types *)

(** [src/src/observer/common/type/attr_type.h:18-29] [AttrType] *)
Inductive AttrType := UNDEFINED | DATES | NULLS | CHARS | INTS | FLOATS | VECTORS | BOOLEANS.

#[export] Instance AttrType_eq_dec : EqDecision AttrType.
Proof. solve_decision. Defined.

Definition all_types : list AttrType := [UNDEFINED; DATES; NULLS; CHARS; INTS; FLOATS; VECTORS; BOOLEANS].

(** [src/src/observer/common/type/attr_type.cpp:14-22] [ATTR_TYPE_NAME] the last name is there twice *)
Definition ATTR_TYPE_NAME : list string :=
  ["undefined"; "dates"; "nulls"; "chars"; "ints"; "floats"; "vectors"; "booleans"; "dates"].

(** The value of the enumeration. *)
Definition type_index (t : AttrType) : nat :=
  match t with UNDEFINED => 0 | DATES => 1 | NULLS => 2 | CHARS => 3 | INTS => 4 | FLOATS => 5 | VECTORS => 6 | BOOLEANS => 7 end.

(** [src/src/observer/common/type/attr_type.cpp:24-30] [attr_type_to_string] *)
Definition attr_type_to_string (t : AttrType) : string := default "unknown"%string (ATTR_TYPE_NAME !! type_index t).

(** [strcasecmp], on ASCII letters. *)
Definition lower (c : Ascii.ascii) : Ascii.ascii :=
  let n := Ascii.nat_of_ascii c in if (65 <=? n)%nat && (n <=? 90)%nat then Ascii.ascii_of_nat (n + 32) else c.
Fixpoint strcasecmp_eq (s1 s2 : string) : bool :=
  match s1, s2 with
  | EmptyString, EmptyString => true
  | String c1 s1, String c2 s2 => Ascii.eqb (lower c1) (lower c2) && strcasecmp_eq s1 s2
  | _, _ => false
  end.

Fixpoint find_name (s : string) (names : list string) (i : nat) : option nat :=
  match names with [] => None | n :: names => if strcasecmp_eq n s then Some i else find_name s names (S i) end.

(** [src/src/observer/common/type/attr_type.cpp:32-42] [attr_type_from_string] *)
Definition attr_type_from_string (s : string) : AttrType :=
  match find_name s ATTR_TYPE_NAME 0 with Some i => default UNDEFINED (all_types !! i) | None => UNDEFINED end.

(** The names of the types can be read back. *)
Lemma attr_type_name_roundtrip t : attr_type_from_string (attr_type_to_string t) = t.
Proof. by destruct t. Qed.

(** ** Fields *)

Definition isspace (c : Ascii.ascii) : bool := let n := Ascii.nat_of_ascii c in (n =? 32)%nat || ((9 <=? n)%nat && (n <=? 13)%nat).

(** [src/deps/common/lang/string.cpp:231-243] [is_blank] *)
Fixpoint is_blank (s : string) : bool :=
  match s with EmptyString => true | String c s => if isspace c then is_blank s else false end.

(** [src/src/observer/storage/field/field_meta.h:56-64] [FieldMeta] *)
Record FieldMeta := mkFieldMeta {
  name_ : string;
  attr_type_ : AttrType;
  attr_offset_ : Z;
  attr_len_ : Z;
  visible_ : bool;
  field_id_ : Z;
  nullable_ : bool;
}.

(** [src/src/observer/storage/field/field_meta.cpp:48-72] [FieldMeta::init] the parameters are C ints *)
Definition FieldMeta_init (name : string) (attr_type : AttrType) (attr_offset attr_len : Z) (visible : bool)
    (field_id : Z) (nullable : bool) : RC + FieldMeta :=
  let attr_offset := to_int32 attr_offset in let attr_len := to_int32 attr_len in
  if is_blank name then inl RC_INVALID_ARGUMENT
  else if bool_decide (attr_type = UNDEFINED) || (attr_offset <? 0) || (attr_len <=? 0) then inl RC_INVALID_ARGUMENT
  else inr (mkFieldMeta name attr_type attr_offset attr_len visible field_id nullable).

(** [src/src/observer/storage/field/field_meta.cpp:40-46] [FieldMeta::FieldMeta] [None] is a failed [ASSERT] *)
Definition FieldMeta_new (name : string) (attr_type : AttrType) (attr_offset attr_len : Z) (visible : bool)
    (field_id : Z) (nullable : bool) : option FieldMeta :=
  match FieldMeta_init name attr_type attr_offset attr_len visible field_id nullable with inl _ => None | inr f => Some f end.

(** [src/src/observer/sql/parser/parse_defs.h:191-197] [AttrInfoSqlNode] [length] is a [size_t] *)
Record AttrInfoSqlNode := mkAttrInfo { ai_type : AttrType; ai_name : string; ai_length : Z; ai_nullable : bool }.

(** [src/src/observer/storage/index/index_meta.h:55-59] [IndexMeta] *)
Record IndexMeta := mkIndexMeta { im_name_ : string; im_fields_ : list string; im_unique_ : bool }.

(** [src/src/observer/storage/index/index_meta.cpp:30-48] [IndexMeta::init] on a fresh object *)
Definition IndexMeta_init (name : string) (fields_meta : list FieldMeta) (unique : bool) : RC + IndexMeta :=
  if is_blank name then inl RC_INVALID_ARGUMENT
  else if existsb (λ f, is_blank (name_ f)) fields_meta then inl RC_INVALID_ARGUMENT
  else inr (mkIndexMeta name (name_ <$> fields_meta) unique).

(** ** Tables *)

(** [src/src/observer/storage/table/table_meta.h:80-89] [TableMeta] *)
Record TableMeta := mkTableMeta {
  table_id_ : Z;
  tm_name_ : string;
  trx_fields_ : list FieldMeta;
  fields_ : list FieldMeta;
  indexes_ : list IndexMeta;
  storage_format_ : Z;
  record_size_ : Z;
}.

(** [src/src/observer/storage/trx/mvcc_trx.cpp:31-54] [MvccTrxKit::init] the fields of a record for the transactions *)
Definition mvcc_trx_fields : list FieldMeta :=
  [mkFieldMeta "__trx_xid_begin" INTS 0 4 false (-1) false; mkFieldMeta "__trx_xid_end" INTS 0 4 false (-2) false].

(** The loop over the fields of the transactions: the fields and the next offset. *)
Fixpoint place_trx_fields (trx_fields : list FieldMeta) (field_offset : Z) : option (list FieldMeta * Z) :=
  match trx_fields with
  | [] => Some ([], field_offset)
  | f :: trx_fields =>
      f' ← FieldMeta_new (name_ f) (attr_type_ f) field_offset (attr_len_ f) false (field_id_ f) false;
      '(fs, e) ← place_trx_fields trx_fields (to_int32 (field_offset + attr_len_ f));
      Some (f' :: fs, e)
  end.

(** The loop over the columns. *)
Fixpoint place_columns (attributes : list AttrInfoSqlNode) (i field_offset : Z) : RC + list FieldMeta * Z :=
  match attributes with
  | [] => inr ([], field_offset)
  | a :: attributes =>
      match FieldMeta_init (ai_name a) (ai_type a) field_offset (ai_length a) true i (ai_nullable a) with
      | inl rc => inl rc
      | inr f =>
          match place_columns attributes (i + 1) (to_int32 (field_offset + ai_length a)) with
          | inl rc => inl rc
          | inr (fs, e) => inr (f :: fs, e)
          end
      end
  end.

(** [src/src/observer/storage/table/table_meta.cpp:46-111] [TableMeta::init] [None] is a failed [ASSERT] *)
Definition TableMeta_init (table_id : Z) (name : string) (trx_fields : option (list FieldMeta))
    (attributes : list AttrInfoSqlNode) (storage_format : Z) : option (RC + TableMeta) :=
  if is_blank name then Some (inl RC_INVALID_ARGUMENT)
  else match attributes with
  | [] => Some (inl RC_INVALID_ARGUMENT)
  | _ =>
      let trx_fields := default [] trx_fields in
      '(sys, field_offset) ← place_trx_fields trx_fields 0;
      match place_columns attributes 0 field_offset with
      | inl rc => Some (inl rc)
      | inr (cols, field_offset) => Some (inr (mkTableMeta table_id name trx_fields (sys ++ cols) [] storage_format field_offset))
      end
  end.

(** [src/src/observer/storage/table/table_meta.cpp:29-36] [TableMeta::TableMeta] a copy has no fields of the transactions *)
Definition TableMeta_copy (other : TableMeta) : TableMeta :=
  mkTableMeta (table_id_ other) (tm_name_ other) [] (fields_ other) (indexes_ other) (storage_format_ other) (record_size_ other).

(** [src/src/observer/storage/table/table_meta.cpp:38-44] [TableMeta::swap] this object and the other after it *)
Definition TableMeta_swap (this other : TableMeta) : TableMeta * TableMeta :=
  (mkTableMeta (table_id_ this) (tm_name_ other) (trx_fields_ this) (fields_ other) (indexes_ other) (storage_format_ this) (record_size_ other),
   mkTableMeta (table_id_ other) (tm_name_ this) (trx_fields_ other) (fields_ this) (indexes_ this) (storage_format_ other) (record_size_ this)).

(** [src/src/observer/storage/table/table_meta.cpp:113-117] [TableMeta::add_index] *)
Definition add_index (m : TableMeta) (i : IndexMeta) : TableMeta :=
  mkTableMeta (table_id_ m) (tm_name_ m) (trx_fields_ m) (fields_ m) (indexes_ m ++ [i]) (storage_format_ m) (record_size_ m).

(** [src/src/observer/storage/table/table_meta.cpp:153-156] [TableMeta::sys_field_num] *)
Definition sys_field_num (m : TableMeta) : nat := length (trx_fields_ m).

(** [src/src/observer/storage/table/table_meta.cpp:123-126] [TableMeta::trx_fields] a view of the first fields *)
Definition trx_fields (m : TableMeta) : list FieldMeta := take (sys_field_num m) (fields_ m).

(** [src/src/observer/storage/table/table_meta.cpp:129-140] [TableMeta::field] by name, the first one *)
Definition field (m : TableMeta) (name : string) : option FieldMeta := List.find (λ f, String.eqb (name_ f) name) (fields_ m).

(** How many names agree from the front. *)
Fixpoint common_prefix (l1 l2 : list string) : nat :=
  match l1, l2 with
  | x :: l1, y :: l2 => if String.eqb x y then S (common_prefix l1 l2) else O
  | _, _ => O
  end.

(** [src/src/observer/storage/table/table_meta.cpp:168-184] [TableMeta::find_index_by_field] the first index whose
    first field is the first of the names *)
Definition find_index_by_field (m : TableMeta) (fields_name : list string) : option IndexMeta :=
  List.find (λ i, (0 <? common_prefix (im_fields_ i) fields_name)%nat) (indexes_ m).

(** The order in which [deserialize] sorts the fields. *)
Definition offset_le (f1 f2 : FieldMeta) : Prop := attr_offset_ f1 ≤ attr_offset_ f2.
#[export] Instance offset_le_dec f1 f2 : Decision (offset_le f1 f2) := decide (_ ≤ _).

(** [src/src/observer/storage/table/table_meta.cpp:284-300] [TableMeta::deserialize] what it does with the fields it
    has parsed; the list is not empty *)
Definition deserialize_fields (table_id : Z) (name : string) (format : Z) (fields : list FieldMeta) : option TableMeta :=
  let fields := merge_sort offset_le fields in
  first ← head fields; back ← last fields;
  Some (mkTableMeta table_id name (filter (λ f, visible_ f = false) fields) fields [] format
          (attr_offset_ back + attr_len_ back - attr_offset_ first)).

(** ** The layout of a record *)

(** Fields one after the other from [o] to [e]. *)
Fixpoint laid_out (fs : list FieldMeta) (o e : Z) : Prop :=
  match fs with
  | [] => o = e
  | f :: fs => attr_offset_ f = o ∧ 0 < attr_len_ f ∧ laid_out fs (o + attr_len_ f) e
  end.

Definition total_length (attributes : list AttrInfoSqlNode) : Z := foldr (λ a n, ai_length a + n) 0 attributes.
Definition total_len (fs : list FieldMeta) : Z := foldr (λ f n, attr_len_ f + n) 0 fs.

(** A table that [init] has to accept. *)
Definition attribute_ok (a : AttrInfoSqlNode) : Prop :=
  is_blank (ai_name a) = false ∧ ai_type a ≠ UNDEFINED ∧ 0 < ai_length a.

#[export] Instance attribute_ok_dec a : Decision (attribute_ok a) := _.

(** A field of the transactions that its constructor accepts. *)
Definition trx_field_ok (f : FieldMeta) : Prop := is_blank (name_ f) = false ∧ attr_type_ f ≠ UNDEFINED.
#[export] Instance trx_field_ok_dec f : Decision (trx_field_ok f) := _.

Lemma laid_out_app fs1 fs2 o m e : laid_out fs1 o m → laid_out fs2 m e → laid_out (fs1 ++ fs2) o e.
Proof. revert o. induction fs1 as [|f fs1 IH]; intros o; cbn; [by intros ->|]. intros (? & ? & ?) ?. eauto. Qed.

Lemma laid_out_le fs o e : laid_out fs o e → o ≤ e.
Proof. revert o. induction fs as [|f fs IH]; cbn; intros o; [lia|]. intros (? & ? & H%IH). lia. Qed.

Lemma laid_out_in fs o e f : laid_out fs o e → f ∈ fs → o ≤ attr_offset_ f ∧ attr_offset_ f + attr_len_ f ≤ e ∧ 0 < attr_len_ f.
Proof.
  revert o. induction fs as [|g fs IH]; intros o; [by intros _ ?%not_elem_of_nil|]. intros (Ho & Hl & Hr) [->|Hf]%elem_of_cons.
  - apply laid_out_le in Hr. lia.
  - destruct (IH _ Hr Hf). lia.
Qed.

Lemma laid_out_last l b o e : laid_out (l ++ [b]) o e → attr_offset_ b + attr_len_ b = e.
Proof. revert o. induction l as [|f l IH]; intros o; cbn; [intros (? & ? & ?); lia|]. intros (_ & _ & Hr). by eapply IH. Qed.

Lemma laid_out_sorted fs o e : laid_out fs o e → StronglySorted (λ f g, attr_offset_ f + attr_len_ f ≤ attr_offset_ g) fs.
Proof.
  revert o. induction fs as [|f fs IH]; intros o; [constructor|]. intros (Ho & Hl & Hr). constructor; [by eapply IH|].
  apply Forall_forall. intros g Hg. destruct (laid_out_in _ _ _ g Hr Hg). lia.
Qed.

Lemma total_len_pos fs : Forall (λ f, 0 < attr_len_ f) fs → 0 ≤ total_len fs.
Proof. induction 1 as [|f fs Hf _ IH]; [done|]. cbn. unfold total_len in IH. lia. Qed.

Lemma total_length_pos attrs : Forall (λ a, 0 ≤ ai_length a) attrs → 0 ≤ total_length attrs.
Proof. induction 1 as [|f fs Hf _ IH]; [done|]. cbn. unfold total_length in IH. lia. Qed.

Lemma place_trx_fields_ok fs : ∀ o, 0 ≤ o → Forall (λ f, 0 < attr_len_ f) fs → o + total_len fs ≤ INT32_MAX →
  if decide (Forall trx_field_ok fs)
  then ∃ sys, place_trx_fields fs o = Some (sys, o + total_len fs) ∧ laid_out sys o (o + total_len fs) ∧
    Forall (λ f, visible_ f = false) sys ∧ length sys = length fs
  else place_trx_fields fs o = None.
Proof.
  induction fs as [|f fs IH]; intros o Ho Hl Hmax; [rewrite decide_True by done; cbn; exists []; rewrite Z.add_0_r; by repeat constructor|].
  cbn [place_trx_fields total_len foldr] in *. fold (total_len fs) in *.
  apply Forall_cons in Hl as [Hf Hl].
  assert (0 ≤ total_len fs) by (by apply total_len_pos).
  specialize (IH (o + attr_len_ f) ltac:(lia) Hl ltac:(lia)).
  unfold FieldMeta_new, FieldMeta_init. rewrite !to_int32_small by (unfold is_int32, INT32_MAX, INT32_MIN in *; lia).
  rewrite (proj2 (Z.ltb_ge o 0)), (proj2 (Z.leb_gt (attr_len_ f) 0)), !orb_false_r by lia.
  destruct (is_blank (name_ f)) eqn:Eb.
  { rewrite decide_False; [done|]. intros [[? _] _]%Forall_cons. congruence. }
  case_bool_decide as Et.
  { rewrite decide_False; [done|]. intros [[_ ?] _]%Forall_cons. congruence. }
  cbn [mbind option_bind]. destruct (decide (Forall trx_field_ok fs)) as [D|D]; cycle 1.
  { rewrite IH, decide_False; [done|]. by intros [_ ?]%Forall_cons. }
  destruct IH as (sys & -> & Hlay & Hvis & Hlen). rewrite decide_True by (by constructor). cbn [mbind option_bind]. eexists. split; [do 2 f_equal; lia|].
  split_and!; [|by constructor|by cbn; rewrite Hlen]. cbn. split_and!; [done|done|]. by rewrite Z.add_assoc.
Qed.

Lemma place_columns_ok attrs : ∀ i o, 0 ≤ o → Forall (λ a, 0 ≤ ai_length a) attrs → o + total_length attrs ≤ INT32_MAX →
  if decide (Forall attribute_ok attrs)
  then ∃ cols, place_columns attrs i o = inr (cols, o + total_length attrs) ∧ laid_out cols o (o + total_length attrs) ∧
         Forall2 (λ a f, name_ f = ai_name a ∧ attr_type_ f = ai_type a ∧ attr_len_ f = ai_length a ∧
                         nullable_ f = ai_nullable a ∧ visible_ f = true) attrs cols
  else place_columns attrs i o = inl RC_INVALID_ARGUMENT.
Proof.
  induction attrs as [|a attrs IH]; intros i o Ho Hl Hmax.
  { rewrite decide_True by constructor. cbn. exists []. rewrite Z.add_0_r. by repeat constructor. }
  apply Forall_cons in Hl as [Ha Hl]. cbn [place_columns total_length foldr] in *. fold (total_length attrs) in *.
  assert (0 ≤ total_length attrs) by (by apply total_length_pos).
  unfold FieldMeta_init. rewrite !to_int32_small by (unfold is_int32, INT32_MAX, INT32_MIN in *; lia).
  destruct (decide (attribute_ok a)) as [(Hb & Ht & Hlen)|Hna].
  - rewrite Hb, bool_decide_false by done. rewrite (proj2 (Z.ltb_ge _ _)), (proj2 (Z.leb_gt _ _)) by lia. cbn [orb].
    specialize (IH (i + 1) (o + ai_length a) ltac:(lia) Hl ltac:(lia)). destruct (decide (Forall attribute_ok attrs)) as [D|D].
    + rewrite decide_True by (by constructor). destruct IH as (cols & -> & Hlay & Hall). eexists. split; [do 2 f_equal; lia|].
      split; [cbn; by rewrite Z.add_assoc|]. by constructor.
    + rewrite decide_False by (intros [_ ?]%Forall_cons; done). by rewrite IH.
  - rewrite decide_False by (intros [? _]%Forall_cons; done). destruct (is_blank (ai_name a)) eqn:Hb; [done|].
    destruct (bool_decide (ai_type a = UNDEFINED) || (o <? 0) || (ai_length a <=? 0)) eqn:E; [done|]. destruct Hna.
    apply orb_false_iff in E as [[E1 E2]%orb_false_iff E3]. apply bool_decide_eq_false in E1. apply Z.leb_gt in E3. done.
Qed.

Lemma merge_sort_laid_out fs o e : laid_out fs o e → merge_sort offset_le fs = fs.
Proof.
  intros Hl. pose proof (laid_out_sorted _ _ _ Hl) as Hs.
  assert (Hlt : StronglySorted (λ f g, attr_offset_ f < attr_offset_ g) fs).
  { clear Hs. revert o Hl. induction fs as [|f fs IH]; intros o; [constructor|]. intros (Ho & Hl & Hr). constructor; [by eapply IH|].
    apply Forall_forall. intros g Hg. destruct (laid_out_in _ _ _ g Hr Hg). lia. }
  assert (Hm : StronglySorted offset_le (merge_sort offset_le fs)).
  { apply StronglySorted_merge_sort; [intros ????; unfold offset_le in *; lia|intros x y; unfold offset_le; lia]. }
  pose proof (merge_sort_Permutation offset_le fs) as Hp. clear Hs Hl.
  revert Hm Hp. generalize (merge_sort offset_le fs). induction Hlt as [|f fs Hlt IH Hf]; intros l Hm Hp.
  - by apply Permutation_nil_r in Hp.
  - destruct l as [|g l]; [by apply Permutation_nil_l in Hp|]. apply StronglySorted_inv in Hm as [Hm Hg]. rewrite Forall_forall in Hf, Hg.
    assert (g = f) as ->.
    { assert (Hgin : g ∈ f :: fs) by (rewrite <- Hp; by left). assert (Hfin : f ∈ g :: l) by (rewrite Hp; by left).
      apply elem_of_cons in Hgin as [|Hgin]; [done|]. apply elem_of_cons in Hfin as [|Hfin]; [done|].
      specialize (Hf g Hgin). specialize (Hg f Hfin). unfold offset_le in Hg. lia. }
    f_equal. apply IH; [done|]. by apply Permutation_cons_inv in Hp.
Qed.

(** C34: [TableMeta::init] accepts exactly a named table with named, typed columns of positive length, and
    then describes a well-formed record: the fields of the transactions and the columns lie one after the
    other from byte 0 to the record size, without gap or overlap; each column keeps name, type, length and
    nullability in order.  Restoring the meta data from the stored fields gives the same fields, record size
    and invisible fields.  Otherwise the result is INVALID_ARGUMENT; but if the table is named and has columns and a field of
    the transactions has no name or no type, the constructor of the field fails its [ASSERT].  The lengths of
    the fields of the transactions are positive, those of the columns are not negative (they are [size_t]), and the sum of all lengths fits
    into an [int]. *)
Theorem table_meta_well_formed table_id name sys attrs format :
  Forall (λ f, 0 < attr_len_ f) sys → Forall (λ a, 0 ≤ ai_length a) attrs → total_len sys + total_length attrs ≤ INT32_MAX →
  if decide (is_blank name = false ∧ attrs ≠ [] ∧ ¬ Forall trx_field_ok sys) then TableMeta_init table_id name (Some sys) attrs format = None
  else if decide (is_blank name = false ∧ attrs ≠ [] ∧ Forall attribute_ok attrs)
  then ∃ m, TableMeta_init table_id name (Some sys) attrs format = Some (inr m) ∧
    laid_out (fields_ m) 0 (record_size_ m) ∧ record_size_ m = total_len sys + total_length attrs ∧
    length (trx_fields m) = length sys ∧ Forall (λ f, visible_ f = false) (trx_fields m) ∧
    Forall2 (λ a f, name_ f = ai_name a ∧ attr_type_ f = ai_type a ∧ attr_len_ f = ai_length a ∧
                    nullable_ f = ai_nullable a ∧ visible_ f = true) attrs (drop (sys_field_num m) (fields_ m)) ∧
    ∃ m', deserialize_fields table_id name format (fields_ m) = Some m' ∧ fields_ m' = fields_ m ∧
      record_size_ m' = record_size_ m ∧ trx_fields_ m' = trx_fields m
  else TableMeta_init table_id name (Some sys) attrs format = Some (inl RC_INVALID_ARGUMENT).
Proof.
  intros Hsys Hattrs Hmax. unfold TableMeta_init. destruct (is_blank name) eqn:Hb.
  { rewrite !decide_False by (by intros []). done. }
  destruct attrs as [|a attrs]; [by rewrite !decide_False by (by intros (_ & ? & _))|]. cbn [default from_option id].
  pose proof (total_length_pos _ Hattrs). pose proof (total_len_pos _ Hsys).
  pose proof (place_trx_fields_ok sys 0 ltac:(lia) Hsys ltac:(lia)) as Hplace. destruct (decide (Forall trx_field_ok sys)) as [Dt|Dt]; cycle 1.
  { rewrite decide_True by done. by rewrite Hplace. }
  rewrite decide_False by (by intros (_ & _ & ?)). destruct Hplace as (fs & -> & Hlay & Hvis & Hlen). rewrite Z.add_0_l in Hlay |- *. cbn [mbind option_bind].
  pose proof (place_columns_ok (a :: attrs) 0 (total_len sys) ltac:(lia) Hattrs ltac:(lia)) as Hcol.
  destruct (decide (Forall attribute_ok (a :: attrs))) as [D|D]; cycle 1.
  { rewrite decide_False by tauto. by rewrite Hcol. }
  rewrite decide_True by done. destruct Hcol as (cols & -> & Hlay' & Hall). eexists. split; [done|].
  pose proof (laid_out_app _ _ _ _ _ Hlay Hlay') as Hfull. cbn [fields_ record_size_ trx_fields_] in *. unfold trx_fields, sys_field_num. cbn [trx_fields_ fields_].
  rewrite <- Hlen, take_app_length, drop_app_length. split_and!; try done.
  unfold deserialize_fields. rewrite (merge_sort_laid_out _ _ _ Hfull).
  destruct (exists_last (l := fs ++ cols)) as (l & b & El).
  { intros [_ ->]%app_nil. by apply Forall2_length in Hall. }
  assert (Hback : attr_offset_ b + attr_len_ b = total_len sys + total_length (a :: attrs)).
  { rewrite El in Hfull. by apply laid_out_last in Hfull. }
  assert (Hhead : ∃ f, head (fs ++ cols) = Some f ∧ attr_offset_ f = 0).
  { destruct (fs ++ cols) as [|f l0]; [by destruct l|]. exists f. split; [done|]. apply Hfull. }
  destruct Hhead as (f & -> & Hf0). assert (last (fs ++ cols) = Some b) as -> by (by rewrite El, last_snoc). cbn [mbind option_bind]. eexists. split; [done|]. cbn [fields_ record_size_ trx_fields_].
  split_and!; [done|lia|]. rewrite filter_app.
  assert (filter (λ f, visible_ f = false) cols = []) as ->.
  { apply elem_of_nil_inv. intros g [Hg Hin]%list_elem_of_filter. apply list_elem_of_lookup in Hin as [k Hk].
    destruct (Forall2_lookup_r _ _ _ _ _ Hall Hk) as (? & _ & (_ & _ & _ & _ & Hv)). congruence. }
  rewrite app_nil_r. clear -Hvis. induction Hvis as [|g fs Hg Hv IH]; [done|]. by rewrite filter_cons_True, IH.
Qed.

(** ** Access to the fields of a record *)

(** The bytes of a field. *)
Definition field_bytes (f : FieldMeta) (row : list Z) : list Z := take (Z.to_nat (attr_len_ f)) (drop (Z.to_nat (attr_offset_ f)) row).

(** The bytes of a record with [b] at offset [o]. *)
Definition splice (row : list Z) (o : nat) (b : list Z) : list Z := take o row ++ b ++ drop (o + length b) row.

(** [src/src/observer/storage/field/field.cpp:20-27] [Field::set_int] [None] is a failed [ASSERT] or a write behind the
    record *)
Definition set_int (f : FieldMeta) (row : list Z) (value : Z) : option (list Z) :=
  if bool_decide (attr_type_ f = INTS) && (attr_len_ f =? 4) && (attr_offset_ f + 4 <=? Z.of_nat (length row))
  then Some (splice row (Z.to_nat (attr_offset_ f)) (le_encode 4 value)) else None.

(** [src/src/observer/storage/field/field.cpp:29-33] [Field::get_int] of an integer field *)
Definition get_int (f : FieldMeta) (row : list Z) : option Z :=
  if bool_decide (attr_type_ f = INTS) && (attr_offset_ f + 4 <=? Z.of_nat (length row))
  then Some (int_bytes 4 (take 4 (drop (Z.to_nat (attr_offset_ f)) row))) else None.

(** [src/src/observer/storage/index/bplus_tree.h:581-591] [BplusTreeHandler::get_index_key_from_tuple] the bytes of
    the indexed fields, one string of bytes for each *)
Definition get_index_key_from_tuple (fields : list FieldMeta) (row : list Z) : list (list Z) := (λ f, field_bytes f row) <$> fields.

(** An integer field inside a record of [size] bytes. *)
Definition int_field (f : FieldMeta) (size : Z) : Prop :=
  attr_type_ f = INTS ∧ attr_len_ f = 4 ∧ 0 ≤ attr_offset_ f ∧ attr_offset_ f + 4 ≤ size.

(** Two fields that share no byte. *)
Definition disjoint_fields (f g : FieldMeta) : Prop :=
  attr_offset_ f + attr_len_ f ≤ attr_offset_ g ∨ attr_offset_ g + attr_len_ g ≤ attr_offset_ f.

Lemma splice_length row o b : (o + length b ≤ length row)%nat → length (splice row o b) = length row.
Proof. intros H. unfold splice. rewrite !length_app, length_take, length_drop. lia. Qed.

Lemma splice_at row o b : (o + length b ≤ length row)%nat → take (length b) (drop o (splice row o b)) = b.
Proof.
  intros H. unfold splice. rewrite drop_app_ge by (rewrite length_take; lia). rewrite length_take, Nat.min_l, Nat.sub_diag by lia.
  by rewrite drop_0, take_app_length.
Qed.

Lemma splice_other row o b o' n : (o + length b ≤ length row)%nat → (o' + n ≤ o ∨ o + length b ≤ o')%nat →
  take n (drop o' (splice row o b)) = take n (drop o' row).
Proof.
  intros H Hd. apply list_eq. intros i. destruct (decide (i < n)%nat) as [Hi|]; [|by rewrite !lookup_take_ge by lia].
  rewrite !lookup_take_lt, !lookup_drop by done. unfold splice.
  destruct Hd as [Hd|Hd]; [by rewrite lookup_app_l, lookup_take_lt by (try rewrite length_take; lia)|].
  rewrite lookup_app_r, lookup_app_r by (rewrite ?length_take; lia). rewrite lookup_drop, length_take. f_equal. lia.
Qed.

Section access.
Context (f : FieldMeta) (row : list Z).
Hypothesis Hf : int_field f (Z.of_nat (length row)).

Lemma set_int_ok v : is_int32 v → ∃ row', set_int f row v = Some row' ∧ length row' = length row ∧ get_int f row' = Some v ∧
  ∀ g, disjoint_fields f g → 0 ≤ attr_offset_ g → 0 ≤ attr_len_ g →
    field_bytes g row' = field_bytes g row ∧ (attr_len_ g = 4 → get_int g row' = get_int g row).
Proof using Hf.
  intros Hv. destruct Hf as (Ht & Hl & H0 & Hs). unfold set_int. rewrite bool_decide_true, (proj2 (Z.eqb_eq _ _)), (proj2 (Z.leb_le _ _)) by done.
  cbn [andb]. eexists. split; [done|]. pose proof (le_encode_length 4 v) as Hle.
  assert (Hlen : length (splice row (Z.to_nat (attr_offset_ f)) (le_encode 4 v)) = length row) by (apply splice_length; lia).
  split; [done|]. split.
  - unfold get_int. rewrite bool_decide_true by done. rewrite Hlen, (proj2 (Z.leb_le _ _)) by done. cbn [andb]. f_equal.
    rewrite <- Hle at 2. rewrite splice_at by lia. apply (int_bytes_encode 4); [lia|].
    unfold is_int32, INT32_MAX, INT32_MIN in Hv. simpl. lia.
  - intros g Hd Hg Hgl. assert (Hb : ∀ n, Z.of_nat n = attr_len_ g →
      take n (drop (Z.to_nat (attr_offset_ g)) (splice row (Z.to_nat (attr_offset_ f)) (le_encode 4 v))) = take n (drop (Z.to_nat (attr_offset_ g)) row)).
    { intros n Hn. apply splice_other; [lia|]. unfold disjoint_fields in Hd. lia. }
    split; [apply Hb; lia|]. intros H4. unfold get_int. rewrite Hlen, (Hb 4%nat) by lia. done.
Qed.

Lemma get_int_some : ∃ v, get_int f row = Some v.
Proof using Hf. destruct Hf as (Ht & _ & _ & Hs). unfold get_int. rewrite bool_decide_true, (proj2 (Z.leb_le _ _)) by done. by eexists. Qed.
End access.

(** *** Example: two columns behind the fields of the transactions *)

Definition ex_columns : list AttrInfoSqlNode := [mkAttrInfo INTS "id" 4 false; mkAttrInfo CHARS "name" 20 true].

Lemma table_meta_well_formed_witness :
  ∃ m, TableMeta_init 1 "t" (Some mvcc_trx_fields) ex_columns 1 = Some (inr m) ∧ record_size_ m = 32 ∧ laid_out (fields_ m) 0 32.
Proof.
  pose proof (table_meta_well_formed 1 "t" mvcc_trx_fields ex_columns 1) as H.
  rewrite decide_False, decide_True in H.
  - destruct H as (m & E & Hl & Hs & _); [by repeat constructor|by repeat constructor|by vm_compute|]. exists m. split; [exact E|]. rewrite Hs in Hl |- *. done.
  - split; [done|]. split; [done|]. repeat constructor; done.
  - intros (_ & _ & Hbad). apply Hbad. by repeat constructor.
Defined.
