(* ===== verification/Text.v ===== *)
(** * Numbers in text

    What the values use of the C library: decimal numerals are printed ([std::to_string], [operator<<],
    [setw] with [setfill('0')]) and read ([std::stol], [operator>>] on an [int], the conversion [%d] of
    [sscanf]); single precision numbers are computed with and printed ([%.2f], [%f]).  Text is a list of
    bytes. *)
From Stdlib Require Import SpecFloat.
From S2P Require Import Prelude.

(** ** Numerals *)

Definition is_space (c : Z) : bool := (c =? 32) || ((9 <=? c) && (c <=? 13)).
Definition is_digit (c : Z) : bool := (48 <=? c) && (c <=? 57).
Definition minus : Z := 45.
Definition plus : Z := 43.

Fixpoint skip_spaces (s : list Z) : list Z := match s with c :: s' => if is_space c then skip_spaces s' else s | [] => [] end.

(** The digits in front, and the rest. *)
Fixpoint span_digits (s : list Z) : list Z * list Z :=
  match s with
  | c :: s' => if is_digit c then let '(ds, r) := span_digits s' in (c :: ds, r) else ([], s)
  | [] => ([], [])
  end.

(** The value of digits. *)
Definition value_of (ds : list Z) : Z := fold_left (λ n c, 10 * n + (c - 48)) ds 0.

(** A decimal number with a sign after white space: its value and the rest; [None] if there is no digit. *)
Definition scan_decimal (s : list Z) : option (Z * list Z) :=
  let s := skip_spaces s in
  let '(neg, s) := match s with c :: s' => if c =? minus then (true, s') else if c =? plus then (false, s') else (false, s) | [] => (false, []) end in
  let '(ds, r) := span_digits s in
  match ds with [] => None | _ => Some ((if neg : bool then - value_of ds else value_of ds), r) end.

Definition is_int64 (z : Z) : Prop := - 2 ^ 63 ≤ z < 2 ^ 63.
#[export] Instance is_int64_dec z : Decision (is_int64 z) := and_dec _ _.

(** [std::stol]: [None] is an exception. *)
Definition stol (s : list Z) : option Z :=
  '(n, _) ← scan_decimal s; if bool_decide (is_int64 n) then Some n else None.

(** [>>] on an [int], and whether the end of the text is reached. *)
Definition read_int (s : list Z) : option (Z * bool) :=
  '(n, r) ← scan_decimal s; if bool_decide (is_int32 n) then Some (n, match r with [] => true | _ => false end) else None.

(** [%d]: the number is a [long] that saturates, stored in an [int]. *)
Definition scan_int (s : list Z) : option (Z * list Z) :=
  '(n, r) ← scan_decimal s; Some (to_int32 (Z.max (- 2 ^ 63) (Z.min n (2 ^ 63 - 1))), r).

(** A character of the format. *)
Definition scan_char (c : Z) (s : list Z) : option (list Z) := match s with d :: s => if d =? c then Some s else None | [] => None end.

(** The digits of a number that is not negative. *)
Fixpoint digits_of (fuel : nat) (n : Z) : list Z :=
  match fuel with
  | O => []
  | S fuel => if n <? 10 then [48 + n] else digits_of fuel (n / 10) ++ [48 + n mod 10]
  end.
Definition print_nat (n : Z) : list Z := digits_of (S (Z.to_nat (Z.log2 n))) n.
(** [std::to_string], [operator<<] *)
Definition print_int (n : Z) : list Z := if n <? 0 then minus :: print_nat (- n) else print_nat n.
(** [setw] with [setfill('0')] *)
Definition pad (w : nat) (s : list Z) : list Z := replicate (w - length s) 48 ++ s.

(** *** What is printed can be read *)

Lemma value_of_app ds1 ds2 : value_of (ds1 ++ ds2) = fold_left (λ n c, 10 * n + (c - 48)) ds2 (value_of ds1).
Proof. unfold value_of. by rewrite fold_left_app. Qed.

Lemma value_of_zeros n ds : value_of (replicate n 48 ++ ds) = value_of ds.
Proof. rewrite value_of_app. f_equal. induction n as [|n IH]; [done|]. unfold value_of in *. cbn. exact IH. Qed.

Lemma digits_of_ok fuel n : 0 ≤ n < 2 ^ Z.of_nat fuel → (0 < fuel)%nat →
  value_of (digits_of fuel n) = n ∧ Forall (λ c, is_digit c = true) (digits_of fuel n) ∧ digits_of fuel n ≠ [].
Proof.
  revert n. induction fuel as [|fuel IH]; intros n Hn Hf; [lia|]. cbn [digits_of]. case_bool.
  - split; [unfold value_of; cbn; lia|]. split; [|done]. repeat constructor. unfold is_digit. apply andb_true_iff. split; apply Z.leb_le; lia.
  - rewrite Nat2Z.inj_succ, Z.pow_succ_r in Hn by lia. pose proof (Z.div_mod n 10 ltac:(lia)) as Hdm. pose proof (Z.mod_pos_bound n 10 ltac:(lia)).
    assert (Hd : 0 ≤ n / 10 < 2 ^ Z.of_nat fuel) by (split; [apply Z.div_pos; lia|apply Z.div_lt_upper_bound; lia]).
    destruct (IH (n / 10) Hd) as (Hv & Hall & _).
    { destruct fuel; [|lia]. cbn in Hd. assert (n / 10 = 0) by lia. lia. }
    split_and!.
    + rewrite value_of_app, Hv. cbn [fold_left]. lia.
    + apply Forall_app. split; [done|]. repeat constructor. unfold is_digit. apply andb_true_iff. split; apply Z.leb_le; lia.
    + by destruct (digits_of fuel (n / 10)).
Qed.

Lemma print_nat_ok n : 0 ≤ n → value_of (print_nat n) = n ∧ Forall (λ c, is_digit c = true) (print_nat n) ∧ print_nat n ≠ [].
Proof.
  intros Hn. apply digits_of_ok; [|lia]. split; [done|]. rewrite Nat2Z.inj_succ, Z2Nat.id by apply Z.log2_nonneg.
  destruct (decide (n = 0)) as [->|]; [done|]. apply Z.log2_spec. lia.
Qed.

Lemma span_digits_app ds s : Forall (λ c, is_digit c = true) ds → match s with c :: _ => is_digit c = false | [] => True end →
  span_digits (ds ++ s) = (ds, s).
Proof.
  intros Hds Hs. induction Hds as [|c ds Hc _ IH]; cbn; [destruct s as [|c s]; [done|]; cbn; by rewrite Hs|]. by rewrite Hc, IH.
Qed.

Lemma digit_plain c : is_digit c = true → is_space c = false ∧ (c =? minus) = false ∧ (c =? plus) = false.
Proof.
  unfold is_digit, is_space, minus, plus. intros [H1 H2]%andb_true_iff. zify_bool. split_and!; [|apply Z.eqb_neq; lia..].
  apply orb_false_iff. split; [apply Z.eqb_neq; lia|]. apply andb_false_iff. right. apply Z.leb_gt. lia.
Qed.

Lemma scan_digits ds s : Forall (λ c, is_digit c = true) ds → ds ≠ [] → match s with c :: _ => is_digit c = false | [] => True end →
  scan_decimal (ds ++ s) = Some (value_of ds, s).
Proof.
  intros Hds Hn Hs. destruct ds as [|c ds]; [done|]. pose proof Hds as [Hc _]%Forall_cons. destruct (digit_plain c Hc) as (E1 & E2 & E3).
  unfold scan_decimal. cbn [app skip_spaces]. rewrite E1, E2, E3. change (c :: ds ++ s) with ((c :: ds) ++ s). by rewrite span_digits_app.
Qed.

Lemma scan_print n s : match s with c :: _ => is_digit c = false | [] => True end → scan_decimal (print_int n ++ s) = Some (n, s).
Proof.
  intros Hs. unfold print_int. case_bool.
  - destruct (print_nat_ok (- n) ltac:(lia)) as (Hv & Hall & Hne). unfold scan_decimal. cbn [app skip_spaces].
    change (is_space minus) with false. cbn iota. rewrite Z.eqb_refl. rewrite span_digits_app by done.
    destruct (print_nat (- n)) as [|c ds]; [done|]. rewrite Hv. do 2 f_equal. lia.
  - destruct (print_nat_ok n ltac:(lia)) as (Hv & Hall & Hne). by rewrite scan_digits, Hv.
Qed.

Lemma scan_pad w n s : 0 ≤ n → match s with c :: _ => is_digit c = false | [] => True end → scan_decimal (pad w (print_int n) ++ s) = Some (n, s).
Proof.
  intros Hn Hs. unfold print_int. rewrite (proj2 (Z.ltb_ge n 0)) by done. destruct (print_nat_ok n Hn) as (Hv & Hall & Hne). unfold pad.
  rewrite scan_digits; [by rewrite value_of_zeros, Hv| | |done].
  - apply Forall_app. split; [apply Forall_replicate; done|done].
  - intros E. by apply app_eq_nil in E as [_ E].
Qed.
