(* ===== verification/Float.v ===== *)
(** * Single precision numbers

    [float] as the IEEE 754 binary32 numbers of [SpecFloat], computed with to nearest even; literals
    like [0.5] and [EPSILON] are [double]s, so an operation with one is done in binary64.  Conversions
    to integers, to and from the four bytes in memory, and the printed form with a fixed number of
    digits. *)
From Stdlib Require Import SpecFloat.
From S2P Require Import Prelude Text.

Definition float32 : Type := spec_float.
Definition float64 : Type := spec_float.

Definition fadd (x y : float32) : float32 := SFadd 24 128 x y.
Definition fsub (x y : float32) : float32 := SFsub 24 128 x y.
Definition fmul (x y : float32) : float32 := SFmul 24 128 x y.
Definition fdiv (x y : float32) : float32 := SFdiv 24 128 x y.
Definition fneg (x : float32) : float32 := SFopp x.
Definition fzero : float32 := S754_zero false.

Definition float_of_int (z : Z) : float32 := binary_normalize 24 128 z 0 false.

(** The same number in binary64. *)
Definition to_double (x : float32) : float64 :=
  match x with S754_finite s m e => binary_normalize 53 1024 (if s then Zneg m else Zpos m) e s | _ => x end.

(** [src/deps/common/defs.h:56-56] [EPSILON] the [double] [1E-6] *)
Definition EPSILON : float64 := S754_finite false 4722366482869645 (-72).

(** Towards zero; [None] is a number that an [int] cannot hold, for which C++ defines no result. *)
Definition int_of_float (x : spec_float) : option Z :=
  match x with
  | S754_zero _ => Some 0
  | S754_finite s m e =>
      let n := if 0 <=? e then Zpos m * 2 ^ e else Zpos m / 2 ^ (- e) in
      let z := if s then - n else n in
      if bool_decide (is_int32 z) then Some z else None
  | _ => None
  end.

(** [src/deps/common/lang/comparator.cpp:35-47] [compare_float] *)
Definition compare_float (v1 v2 : float32) : Z :=
  let cmp := to_double (fsub v1 v2) in
  if SFltb EPSILON cmp then 1 else if SFltb cmp (SFopp EPSILON) then -1 else 0.

(** [src/deps/common/lang/comparator.cpp:22-33] [compare_int] *)
Definition compare_int (v1 v2 : Z) : Z := if v2 <? v1 then 1 else if v1 <? v2 then -1 else 0.

(** ** Bytes *)

(** The number with given bits, [0 ≤ u < 2 ^ 32]. *)
Definition float_of_bits (u : Z) : float32 :=
  let s := Z.testbit u 31 in
  let e := Z.land (Z.shiftr u 23) 255 in
  let m := Z.land u 8388607 in
  if e =? 0 then match m with Zpos p => S754_finite s p (-149) | _ => S754_zero s end
  else if e =? 255 then (if m =? 0 then S754_infinity s else S754_nan)
  else match m + 8388608 with Zpos p => S754_finite s p (e - 150) | _ => S754_nan end.

Definition bits_of_float (x : float32) : Z :=
  let sign (s : bool) : Z := if s then 2147483648 else 0 in
  match x with
  | S754_zero s => sign s
  | S754_infinity s => sign s + 255 * 8388608
  | S754_nan => 2143289344
  | S754_finite s m e => sign s + (if Zpos m <? 8388608 then Zpos m else (e + 150) * 8388608 + (Zpos m - 8388608))
  end.

(** [FLT_MAX] *)
Definition FLT_MAX : float32 := S754_finite false 16777215 104.

(** ** Printing *)

(** To nearest, ties to even. *)
Definition round_div (n d : Z) : Z :=
  let q := n / d in let r := 2 * (n mod d) in
  if (d <? r) || ((r =? d) && Z.odd q) then q + 1 else q.

(** [%.kf] *)
Definition print_fixed (k : nat) (x : spec_float) : list Z :=
  let body n := let p := pad (S k) (print_nat n) in take (length p - k) p ++ 46 :: drop (length p - k) p in
  match x with
  | S754_nan => [110; 97; 110]
  | S754_infinity s => (if s then [minus] else []) ++ [105; 110; 102]
  | S754_zero s => (if s then [minus] else []) ++ body 0
  | S754_finite s m e =>
      let n := Zpos m * 10 ^ Z.of_nat k in
      (if s then [minus] else []) ++ body (if 0 <=? e then n * 2 ^ e else round_div n (2 ^ (- e)))
  end.

(** Drops zeros from the end. *)
Definition strip_zeros (s : list Z) : list Z :=
  reverse ((fix strip l := match l with c :: l' => if c =? 48 then strip l' else l | [] => [] end) (reverse s)).

(** [src/deps/common/lang/string.cpp:270-283] [double_to_str] *)
Definition double_to_str (v : spec_float) : list Z :=
  let s := strip_zeros (print_fixed 2 v) in
  match last s with Some 46 => removelast s | _ => s end.

Example ex_print : double_to_str (fdiv (float_of_int 7) (float_of_int 3)) = [50; 46; 51; 51].
Proof. by vm_compute. Qed.
Example ex_bits : float_of_bits (bits_of_float (fdiv (float_of_int 7) (float_of_int 3))) = fdiv (float_of_int 7) (float_of_int 3).
Proof. by vm_compute. Qed.
Example ex_max : float_of_bits (bits_of_float (fneg FLT_MAX)) = fneg FLT_MAX.
Proof. by vm_compute. Qed.
