(* ===== verification/Value.v ===== *)
(** * Values and their types ([common/value.*, common/type/*])

    A value is a type tag, a length and a union; the operations are dispatched to the object of a type:
    comparison, casts, arithmetic and the text of a value.  NULL is a number out of the range
    in use, or an empty string.  The outer [None] is a failed [ASSERT], or arithmetic C++ leaves undefined
    (overflow of an [int], a [float] that does not fit).  [std::stof] and [>>] on a [float] are
    arguments. *)
From Stdlib Require Import SpecFloat.
From stdpp Require Import strings.
From S2P Require Import Prelude Rc Serializer Text Float TableMeta.

(** ** Data *)

(** The union: four bytes as an [int], a string, a vector. *)
Inductive Val := Word (z : Z) | Chars (p : option (list Z)) | Vector (p : list float32).

(** [src/src/observer/common/value.h:154-170] [Value] *)
Record Value := mkValue { v_type : AttrType; v_length : Z; v_value : Val; v_own : bool }.

Definition Value_new : Value := mkValue UNDEFINED 0 (Word 0) false.

(** [src/src/observer/common/value.h:26-26] [INT_NULL] also [DATE_NULL] *)
Definition INT_NULL : Z := INT32_MIN.
(** [src/src/observer/common/value.h:27-27] [FLOAT_NULL] *)
Definition FLOAT_NULL : float32 := fneg FLT_MAX.

Definition int_value (v : Value) : Z := match v_value v with Word z => z | _ => 0 end.
Definition float_value (v : Value) : float32 := float_of_bits (int_value v mod 2 ^ 32).
Definition bool_value (v : Value) : bool := negb (Z.land (int_value v) 255 =? 0).
Definition pointer_value (v : Value) : option (list Z) := match v_value v with Chars p => p | _ => None end.
Definition vector_value (v : Value) : list float32 := match v_value v with Vector p => p | _ => [] end.
Definition float_word (x : float32) : Z := to_int32 (bits_of_float x).

Definition set_type (v : Value) (t : AttrType) : Value := mkValue t (v_length v) (v_value v) (v_own v).
Definition set_word (v : Value) (z : Z) : Value := mkValue (v_type v) (v_length v) (Word z) (v_own v).

(** ** Construction *)

(** [src/src/observer/common/value.cpp:102-118] [Value::reset] *)
Definition reset (v : Value) : Value :=
  mkValue UNDEFINED 0
    (match v_type v, v_own v with (CHARS | VECTORS), true => Chars None | _, _ => v_value v end) false.

(** [src/src/observer/common/value.cpp:181-187] [Value::set_int] *)
Definition set_int (val : Z) : Value := mkValue INTS 4 (Word val) false.
(** [src/src/observer/common/value.cpp:189-195] [Value::set_float] *)
Definition set_float (val : float32) : Value := mkValue FLOATS 4 (Word (float_word val)) false.
(** [src/src/observer/common/value.cpp:196-202] [Value::set_boolean] one byte of the union is written *)
Definition set_boolean (v : Value) (val : bool) : Value :=
  mkValue BOOLEANS 1 (Word (to_int32 (Z.lor (Z.land (int_value v) (-256)) (if val then 1 else 0)))) false.

(** [strnlen] and [strlen]: the bytes before the first that is 0. *)
Fixpoint c_string (s : list Z) : list Z := match s with c :: s => if c =? 0 then [] else c :: c_string s | [] => [] end.

(** [src/src/observer/common/value.cpp:204-223] [Value::set_string] *)
Definition set_string (s : option (list Z)) (len : Z) : Value :=
  match s with
  | None => mkValue CHARS 0 (Chars None) false
  | Some s =>
      let s := c_string (if 0 <? len then take (Z.to_nat len) s else s) in
      mkValue CHARS (Z.of_nat (length s)) (Chars (Some s)) true
  end.

(** [src/src/observer/common/value.cpp:225-230] [Value::set_date] the length stays 0 *)
Definition set_date (y m d : Z) : Value := mkValue DATES 0 (Word (y * 10000 + m * 100 + d)) false.

(** [src/src/observer/common/value.cpp:232-247] [Value::set_vector] *)
Definition set_vector (s : list float32) : Value :=
  mkValue VECTORS (4 * Z.of_nat (length s)) (Vector s) (negb (Z.of_nat (length s) =? 0)).

(** The vector in memory. *)
Fixpoint floats_of_bytes (n : nat) (b : list Z) : list float32 :=
  match n with O => [] | S n => float_of_bits (le_decode (take 4 b)) :: floats_of_bytes n (drop 4 b) end.

(** [src/src/observer/common/value.cpp:150-179] [Value::set_data] *)
Definition set_data (v : Value) (data : list Z) (length : Z) : option Value :=
  let int_data := int_bytes 4 (take 4 data) in
  match v_type v with
  | CHARS => Some (set_string (Some data) length)
  | INTS | FLOATS | DATES => Some (mkValue (v_type v) length (Word int_data) (v_own v))
  | BOOLEANS => Some (mkValue BOOLEANS length (v_value (set_boolean v (negb (int_data =? 0)))) (v_own v))
  | VECTORS => if length mod 4 =? 0 then Some (set_vector (floats_of_bytes (Z.to_nat (length / 4)) data)) else None
  | _ => Some v
  end.

(** [src/src/observer/common/value.cpp:273-281] [Value::set_string_from_other] on the members that are already copied *)
Definition set_string_from_other (v other : Value) : Value :=
  match pointer_value other with
  | Some s => if v_own v && negb (v_length v =? 0) then mkValue (v_type v) (v_length v) (Chars (Some (take (Z.to_nat (v_length v)) s))) (v_own v) else v
  | None => v
  end.

(** [src/src/observer/common/value.cpp:34-51] [Value::Value] the copy, also [operator=] *)
Definition copy_value (other : Value) : Value :=
  let v := mkValue (v_type other) (v_length other) (Chars None) (v_own other) in
  match v_type other with
  | CHARS => set_string_from_other v other
  | VECTORS => set_vector (vector_value other)
  | _ => mkValue (v_type other) (v_length other) (v_value other) (v_own other)
  end.

(** [src/src/observer/common/value.h:75-84] [Value::NULL_VALUE] *)
Definition NULL_VALUE : Value := mkValue INTS 0 (Word INT_NULL) false.

(** ** Types *)

(** [src/src/observer/common/type/date_type.cpp:54-59] [DateType::check_data] *)
Definition check_date (y m d : Z) : bool :=
  let mon := [0; 31; 28; 31; 30; 31; 30; 31; 31; 30; 31; 30; 31] in
  let leap := (Z.rem y 400 =? 0) || (negb (Z.rem y 100 =? 0) && (Z.rem y 4 =? 0)) in
  (0 <? y) && (0 <? m) && (m <=? 12) && (0 <? d) &&
  (d <=? (if (m =? 2) && leap then 1 else 0) + default 0 (mon !! Z.to_nat m)).

(** [src/src/observer/common/type/date_type.cpp:61-69] [DateType::check_data] of a number *)
Definition check_date_number (date : Z) : bool :=
  let d := Z.rem date 100 in let date := Z.quot date 100 in
  let m := Z.rem date 100 in check_date (Z.quot date 100) m d.

(** The classes of [src/src/observer/common/type]: [DataType] itself is the type of the values without operations. *)
Inductive TypeObject := PlainType | DateType | IntegerType | CharType | FloatType | VectorType.

(** [src/src/observer/common/type/data_type.cpp:20-29] [DataType::type_instances_] *)
Definition type_instance (t : AttrType) : TypeObject :=
  match t with
  | UNDEFINED => PlainType | DATES => DateType | NULLS => IntegerType | CHARS => CharType
  | INTS => IntegerType | FLOATS => FloatType | VECTORS => VectorType | BOOLEANS => PlainType
  end.

(** [src/src/observer/common/value.h:73-73] [Value::is_null] the [is_null] of the types *)
Definition is_null (v : Value) : bool :=
  match type_instance (v_type v) with
  | DateType | IntegerType => int_value v =? INT_NULL
  | FloatType => SFeqb (float_value v) FLOAT_NULL
  | CharType => (v_length v =? 0) || match pointer_value v with Some (c :: _) => c =? 0 | _ => true end
  | VectorType | PlainType => false
  end.

(** [src/src/observer/common/value.cpp:120-148] [Value::resize] a NULL string gets a buffer that it does not own *)
Definition resize (v : Value) (len : Z) : RC * Value :=
  match v_type v with
  | VECTORS => ((if v_length v =? len then RC_SUCCESS else RC_INVALID_ARGUMENT), v)
  | CHARS =>
      if len <=? v_length v then (RC_SUCCESS, v)
      else if is_null v then (RC_SUCCESS, mkValue CHARS 0 (Chars (Some (replicate (Z.to_nat (len + 1)) 0))) false)
      else
        let s := c_string (default [] (pointer_value v)) in
        (RC_SUCCESS, mkValue CHARS len (Chars (Some (take (Z.to_nat len) (s ++ replicate (Z.to_nat (len + 1)) 0)))) true)
  | _ => (RC_SUCCESS, v)
  end.

Section conversions.
(** [std::strtof] *)
Variable strtof : list Z → float32.
(** [std::stof]: [None] is an exception. *)
Variable stof : list Z → option float32.
(** [>>] on a [float], and whether the end of the text is reached. *)
Variable read_float : list Z → option (float32 * bool).
Implicit Types (v left right result : Value).

(** [src/src/observer/common/value.cpp:319-345] [Value::get_int] *)
Definition get_int v : option Z :=
  match v_type v with
  | CHARS => Some (match pointer_value v with Some s => default 0 (to_int32 <$> stol s) | None => 0 end)
  | INTS => Some (int_value v)
  | FLOATS => int_of_float (float_value v)
  | BOOLEANS => Some (if bool_value v then 1 else 0)
  | _ => Some 0
  end.

(** [src/src/observer/common/value.cpp:349-375] [Value::get_float] *)
Definition get_float v : float32 :=
  match v_type v with
  | CHARS => match pointer_value v with Some s => default fzero (stof (c_string s)) | None => fzero end
  | INTS => float_of_int (int_value v)
  | FLOATS => float_value v
  | BOOLEANS => float_of_int (if bool_value v then 1 else 0)
  | _ => fzero
  end.

(** [>= EPSILON] or [<= -EPSILON] *)
Definition float_true (x : float32) : bool := SFleb EPSILON (to_double x) || SFleb (to_double x) (SFopp EPSILON).

(** [src/src/observer/common/value.cpp:379-416] [Value::get_boolean] *)
Definition get_boolean v : bool :=
  match v_type v with
  | CHARS => match pointer_value v with Some _ => true | None => false end
  | INTS => negb (int_value v =? 0)
  | FLOATS => float_true (float_value v)
  | BOOLEANS => bool_value v
  | _ => false
  end.

Definition null_str : list Z := [110; 117; 108; 108].

(** [src/src/observer/common/value.cpp:303-312] [Value::to_string] the [to_string] of the types; the text is empty where
    there is none *)
Definition to_string v : list Z :=
  match type_instance (v_type v) with
  | PlainType => []
  | VectorType =>
      match vector_value v with
      | [] => [91; 93]
      | x :: xs => 91 :: double_to_str x ++ concat (map (λ x, 44 :: double_to_str x) xs) ++ [93]
      end
  | DateType =>
      if is_null v then null_str
      else pad 4 (print_int (Z.quot (int_value v) 10000)) ++ [45] ++ pad 2 (print_int (Z.quot (Z.rem (int_value v) 10000) 100)) ++ [45] ++
           pad 2 (print_int (Z.rem (int_value v) 100))
  | IntegerType => if is_null v then null_str else print_int (int_value v)
  | FloatType => if is_null v then null_str else double_to_str (float_value v)
  | CharType => if is_null v then null_str else c_string (default [] (pointer_value v))
  end.

(** [src/src/observer/common/value.cpp:249-271] [Value::set_value] [None] is the [ASSERT] on dates and values without a type *)
Definition set_value v (value : Value) : option Value :=
  match v_type value with
  | INTS => set_int <$> get_int value
  | FLOATS => Some (set_float (get_float value))
  | CHARS => Some (set_string (Some (to_string value)) 0)
  | BOOLEANS => Some (set_boolean v (get_boolean value))
  | VECTORS => Some (set_vector (vector_value value))
  | _ => None
  end.

(** [std::to_string] of a [float] *)
Definition float_text (x : float32) : list Z := print_fixed 6 x.

(** [sscanf] with the format [%d-%d-%d]: [None] is less than three conversions. *)
Definition scan_date (s : list Z) : option (Z * Z * Z) :=
  '(y, s) ← scan_int s; s ← scan_char minus s; '(m, s) ← scan_int s; s ← scan_char minus s; '(d, _) ← scan_int s; Some (y, m, d).

(** [src/src/observer/common/type/integer_type.cpp:49-92] [IntegerType::cast_to] *)
Definition integer_cast v (t : AttrType) result : RC * Value :=
  match t with
  | INTS => (RC_SUCCESS, set_word (set_type result INTS) (if is_null v then INT_NULL else int_value v))
  | FLOATS => (RC_SUCCESS, set_word (set_type result FLOATS) (float_word (if is_null v then FLOAT_NULL else float_of_int (int_value v))))
  | DATES => if negb (is_null v) then (RC_VARIABLE_NOT_VALID, result) else (RC_SUCCESS, set_word (set_type result DATES) INT_NULL)
  | CHARS => (RC_SUCCESS, if is_null v then set_string None 0
                          else let tmp := print_int (int_value v) in set_string (Some tmp) (Z.of_nat (length tmp)))
  | _ => (RC_VARIABLE_NOT_VALID, result)
  end.

(** [src/src/observer/common/type/float_type.cpp:40-85] [FloatType::cast_to] *)
Definition float_cast v (t : AttrType) result : option (RC * Value) :=
  match t with
  | FLOATS => Some (RC_SUCCESS, set_word (set_type result FLOATS) (float_word (if is_null v then FLOAT_NULL else float_value v)))
  | INTS =>
      z ← if is_null v then Some INT_NULL else int_of_float (SFadd 53 1024 (to_double (float_value v)) (S754_finite false 4503599627370496 (-53)));
      Some (RC_SUCCESS, set_word (set_type result INTS) z)
  | DATES => Some (if negb (is_null v) then (RC_VARIABLE_NOT_VALID, result) else (RC_SUCCESS, set_word (set_type result DATES) INT_NULL))
  | CHARS => Some (RC_SUCCESS, if is_null v then set_string None 0
                               else let tmp := float_text (float_value v) in set_string (Some tmp) (Z.of_nat (length tmp)))
  | _ => Some (RC_VARIABLE_NOT_VALID, result)
  end.

(** [src/src/observer/common/type/char_type.cpp:71-128] [CharType::cast_to] *)
Definition char_cast v (t : AttrType) result : RC * Value :=
  match t with
  | DATES =>
      let result := set_type result DATES in
      if is_null v then (RC_SUCCESS, set_word result INT_NULL)
      else match scan_date (default [] (pointer_value v)) with
           | None => (RC_INVALID_ARGUMENT, result)
           | Some (y, m, d) => if negb (check_date y m d) then (RC_INVALID_ARGUMENT, result) else (RC_SUCCESS, set_date y m d)
           end
  | CHARS => (RC_SUCCESS, if is_null v then set_string None 0 else set_string (pointer_value v) (v_length v))
  | FLOATS => if negb (is_null v) then (RC_VARIABLE_NOT_VALID, result) else (RC_SUCCESS, set_word (set_type result FLOATS) (float_word FLOAT_NULL))
  | INTS => if negb (is_null v) then (RC_VARIABLE_NOT_VALID, result) else (RC_SUCCESS, set_word (set_type result INTS) INT_NULL)
  | _ => (RC_UNIMPLEMENTED, result)
  end.

(** [src/src/observer/common/value.h:111-114] [Value::cast_to] dispatches on the type of the value *)
Definition cast_to v (t : AttrType) result : option (RC * Value) :=
  match type_instance (v_type v) with
  | IntegerType => if bool_decide (v_type v = INTS) then Some (integer_cast v t result) else None
  | FloatType => float_cast v t result
  | CharType => Some (char_cast v t result)
  | _ => Some (RC_UNSUPPORTED, result)
  end.

(** [src/src/observer/common/type/char_type.cpp:130-139] [CharType::cast_cost] and [DataType::cast_cost] *)
Definition cast_cost (from t : AttrType) : Z :=
  match type_instance from with
  | CharType => match t with CHARS => 0 | DATES => 1 | _ => INT32_MAX end
  | _ => if bool_decide (t = from) then 0 else INT32_MAX
  end.

(** ** Comparison *)

(** [strncmp]: bytes are unsigned, a string ends with a 0 or with the list. *)
Fixpoint strncmp (n : nat) (s1 s2 : list Z) : Z :=
  match n with
  | O => 0
  | S n =>
      match s1, s2 with
      | [], [] => 0
      | [], _ => -1
      | _, [] => 1
      | c1 :: s1, c2 :: s2 => if c1 =? c2 then (if c1 =? 0 then 0 else strncmp n s1 s2) else c1 - c2
      end
  end.

(** [src/deps/common/lang/comparator.cpp:49-67] [compare_string] *)
Definition compare_string (s1 : list Z) (arg1_max_length : Z) (s2 : list Z) (arg2_max_length : Z) : Z :=
  let maxlen := Z.min arg1_max_length arg2_max_length in
  let result := strncmp (Z.to_nat maxlen) s1 s2 in
  if negb (result =? 0) then (if result <? 0 then -1 else 1)
  else if maxlen <? arg1_max_length then 1 else if maxlen <? arg2_max_length then -1 else 0.

(** [src/src/observer/common/type/integer_type.cpp:19-45] [IntegerType::compare] *)
Definition integer_compare left right : option Z :=
  if bool_decide (v_type left = INTS) then
    if is_null left then Some (-1)
    else if is_null right then Some 1
    else match v_type right with
         | INTS => Some (compare_int (int_value left) (int_value right))
         | FLOATS => Some (compare_float (get_float left) (get_float right))
         | CHARS => l_int ← get_int left; r_int ← get_int right; Some (compare_int l_int r_int)
         | _ => Some INT32_MAX
         end
  else None.

(** [src/src/observer/common/type/float_type.cpp:21-36] [FloatType::compare] *)
Definition float_compare left right : option Z :=
  if is_null left then Some (-1) else if is_null right then Some 1 else Some (compare_float (get_float left) (get_float right)).

(** [src/src/observer/common/type/date_type.cpp:15-35] [DateType::compare] *)
Definition date_compare left right : option Z :=
  if is_null left then Some (-1)
  else if is_null right then Some 1
  else match v_type right with
       | DATES => Some (compare_int (int_value left) (int_value right))
       | _ => '(_, cast_value) ← cast_to right DATES Value_new; Some (compare_int (int_value left) (int_value cast_value))
       end.

(** [src/src/observer/common/type/char_type.cpp:18-55] [CharType::compare] *)
Definition char_compare left right : option Z :=
  if is_null left then Some (-1)
  else if is_null right then Some 1
  else match v_type right with
       | CHARS => Some (compare_string (default [] (pointer_value left)) (v_length left) (default [] (pointer_value right)) (v_length right))
       | DATES => let '(_, date_val) := char_cast left DATES Value_new in date_compare date_val right
       | INTS => l_int ← get_int left; r_int ← get_int right; Some (compare_int l_int r_int)
       | FLOATS => Some (compare_float (get_float left) (get_float right))
       | _ => Some INT32_MAX
       end.

(** The loop of [VectorType::compare]. *)
Fixpoint vector_compare_loop (l r : list float32) : Z :=
  match l, r with
  | x :: l, y :: r => let result := compare_float x y in if negb (result =? 0) then result else vector_compare_loop l r
  | [], [] => 0
  | _ :: _, [] => 1
  | [], _ :: _ => -1
  end.

(** [src/src/observer/common/type/vector_type.cpp:66-83] [VectorType::compare] *)
Definition vector_compare left right : option Z :=
  if bool_decide (v_type right = VECTORS) then Some (vector_compare_loop (vector_value left) (vector_value right)) else None.

(** [src/src/observer/common/value.cpp:314-317] [Value::compare] dispatches on the type of the left value *)
Definition compare left right : option Z :=
  match type_instance (v_type left) with
  | PlainType => Some INT32_MAX
  | IntegerType => integer_compare left right
  | FloatType => float_compare left right
  | DateType => date_compare left right
  | CharType => char_compare left right
  | VectorType => vector_compare left right
  end.

(** ** Arithmetic *)

(** A sum, difference or product of [int]s. *)
Definition int_result (z : Z) : option (RC * Value) := if bool_decide (is_int32 z) then Some (RC_SUCCESS, set_int z) else None.

(** [src/src/observer/common/type/integer_type.cpp:94-121] [IntegerType::add], [divide], [subtract], [multiply] *)
Definition integer_add left right : option (RC * Value) := l ← get_int left; r ← get_int right; int_result (l + r).
Definition integer_subtract left right : option (RC * Value) := l ← get_int left; r ← get_int right; int_result (l - r).
Definition integer_multiply left right : option (RC * Value) := l ← get_int left; r ← get_int right; int_result (l * r).
Definition integer_divide left right : option (RC * Value) :=
  if SFeqb (get_float right) fzero then Some (RC_SUCCESS, set_int INT_NULL) else Some (RC_SUCCESS, set_float (fdiv (get_float left) (get_float right))).
(** [src/src/observer/common/type/integer_type.cpp:123-127] [IntegerType::negative] *)
Definition integer_negative v : option (RC * Value) := z ← get_int v; int_result (- z).

(** [src/src/observer/common/type/float_type.cpp:87-113] [FloatType::add], [subtract], [multiply], [divide] *)
Definition float_add left right : RC * Value := (RC_SUCCESS, set_float (fadd (get_float left) (get_float right))).
Definition float_subtract left right : RC * Value := (RC_SUCCESS, set_float (fsub (get_float left) (get_float right))).
Definition float_multiply left right : RC * Value := (RC_SUCCESS, set_float (fmul (get_float left) (get_float right))).
Definition float_divide left right : RC * Value :=
  let r := to_double (get_float right) in
  (RC_SUCCESS, set_float (if SFltb (SFopp EPSILON) r && SFltb r EPSILON then FLOAT_NULL else fdiv (get_float left) (get_float right))).
(** [src/src/observer/common/type/float_type.cpp:115-119] [FloatType::negative] *)
Definition float_negative v : RC * Value := (RC_SUCCESS, set_float (fneg (get_float v))).

(** [src/src/observer/common/type/vector_type.cpp:85-111] [VectorType::add] and [subtract], [multiply] below them *)
Definition vector_operation (f : float32 → float32 → float32) left right result : option (RC * Value) :=
  if bool_decide (v_type left = VECTORS) && bool_decide (v_type right = VECTORS) then
    if negb (v_length left =? v_length right) then Some (RC_INVALID_ARGUMENT, set_type result VECTORS)
    else Some (RC_SUCCESS, set_vector (zip_with f (vector_value left) (vector_value right)))
  else None.

(** [src/src/observer/common/value.h:86-89] [Value::add] and the others dispatch on the type the result has *)
Definition value_add left right result : option (RC * Value) :=
  match type_instance (v_type result) with
  | IntegerType => integer_add left right
  | FloatType => Some (float_add left right)
  | VectorType => vector_operation fadd left right result
  | _ => Some (RC_UNSUPPORTED, result)
  end.
Definition value_subtract left right result : option (RC * Value) :=
  match type_instance (v_type result) with
  | IntegerType => integer_subtract left right
  | FloatType => Some (float_subtract left right)
  | VectorType => vector_operation fsub left right result
  | _ => Some (RC_UNSUPPORTED, result)
  end.
Definition value_multiply left right result : option (RC * Value) :=
  match type_instance (v_type result) with
  | IntegerType => integer_multiply left right
  | FloatType => Some (float_multiply left right)
  | VectorType => vector_operation fmul left right result
  | _ => Some (RC_UNSUPPORTED, result)
  end.
Definition value_divide left right result : option (RC * Value) :=
  match type_instance (v_type result) with
  | IntegerType => integer_divide left right
  | FloatType => Some (float_divide left right)
  | _ => Some (RC_UNSUPPORTED, result)
  end.
Definition value_negative v result : option (RC * Value) :=
  match type_instance (v_type result) with
  | IntegerType => integer_negative v
  | FloatType => Some (float_negative v)
  | _ => Some (RC_UNSUPPORTED, result)
  end.

(** ** Text of vectors *)

(** [src/src/observer/common/type/vector_type.cpp:18-18] [is_vector_unit_char] *)
Definition is_vector_unit_char (c : Z) : bool := is_digit c || (c =? 46).
(** [src/src/observer/common/type/vector_type.cpp:19-19] [is_valid_char] *)
Definition is_valid_char (c : Z) : bool := is_vector_unit_char c || (c =? 44) || (c =? 91) || (c =? 93) || (c =? 32).

(** The characters of a number. *)
Fixpoint unit_chars (s : list Z) : nat := match s with c :: s => if is_vector_unit_char c then S (unit_chars s) else O | [] => O end.

(** The loop over the numbers from the position [i]; [ss.size() - 1] is unsigned.  The outer [None] reads beyond the text, or is
    the end of the fuel. *)
Fixpoint vector_loop (fuel : nat) (len : Z) (s : list Z) (i : nat) (values : list float32) : option (RC * list float32) :=
  match fuel with
  | O => None
  | S fuel =>
      if negb (Z.of_nat i <? (Z.of_nat (length s) - 1) mod 2 ^ 64) then Some (RC_SUCCESS, values)
      else if (length s <? i)%nat then None
      else
        let j := (i + unit_chars (take (Z.to_nat (len - 1) - i) (drop i s)))%nat in
        let c := default 0 (s !! j) in
        if negb (c =? 44) && negb (c =? 93) then Some (RC_INVALID_ARGUMENT, values)
        else vector_loop fuel len s (S j) (values ++ [strtof (drop i s)])
  end.

(** [src/src/observer/common/type/vector_type.cpp:24-64] [VectorType::set_from_str] the [len] bytes of the text *)
Definition set_from_str (data : list Z) result : option (RC * Value) :=
  let len := Z.of_nat (length data) in
  if len <=? 2 then Some (RC_INVALID_ARGUMENT, result)
  else if negb (forallb is_valid_char data) then Some (RC_INVALID_ARGUMENT, result)
  else
    '(rc, values) ← vector_loop (S (length data)) len (List.filter (λ c, negb (c =? 32)) data) 1 [];
    Some (if OB_FAIL rc then (rc, result) else (rc, set_vector values)).

(** [src/src/observer/common/type/integer_type.cpp:129-143] [IntegerType::set_value_from_str] and those of the other types *)
Definition set_value_from_str (t : AttrType) v (data : list Z) : RC * Value :=
  match type_instance t with
  | IntegerType => match read_int data with Some (z, true) => (RC_SUCCESS, set_int z) | _ => (RC_SCHEMA_FIELD_TYPE_MISMATCH, v) end
  | FloatType => match read_float data with Some (x, true) => (RC_SUCCESS, set_float x) | _ => (RC_SCHEMA_FIELD_TYPE_MISMATCH, v) end
  | CharType => (RC_SUCCESS, set_string (Some data) 0)
  | _ => (RC_UNSUPPORTED, v)
  end.
End conversions.
