(* ===== verification/ValueKey.v ===== *)
(** * The order of the keys of an index ([AttrComparator], [KeyComparator::init])

    The keys in the file are the bytes of the columns; the comparator turns the bytes into values and
    compares those.  For columns of integers, dates and strings this is a total order on the values that
    are not NULL, which is what the B+ tree needs; it is none on NULL. *)
From Stdlib Require Import SpecFloat.
From S2P Require Import Prelude Rc Serializer BplusKey TableMeta Text Float Value.

(** ** The comparator *)

(** [src/src/observer/storage/index/bplus_tree.h:62-66] [AttrComparator] *)
Record AttrComparator := mkAttrComparator { attr_type : AttrType; attr_length : Z }.

Section comparator.
Variable stof : list Z → option float32.
Implicit Types (c : AttrComparator) (v : list Z).

(** The bytes of a column as a value. *)
Definition attr_value c v : option Value := set_data (set_type Value_new (attr_type c)) v (attr_length c).

(** [src/src/observer/storage/index/bplus_tree.h:70-80] [AttrComparator::operator()] *)
Definition attr_compare c v1 v2 : option Z := left ← attr_value c v1; right ← attr_value c v2; compare stof left right.

Definition field_comparator (f : FieldMeta) : AttrComparator := mkAttrComparator (attr_type_ f) (attr_len_ f).

(** [src/src/observer/storage/index/bplus_tree.h:108-119] [KeyComparator::init] a failed [ASSERT] counts as equality: none
    fails on the columns of an index *)
Definition KeyComparator_init (unique : bool) (fields_meta : list FieldMeta) : KeyComparator (list Z) :=
  mkKeyComparator unique ((λ f v1 v2, default 0 (attr_compare (field_comparator f) v1 v2)) <$> fields_meta).

(** ** What a comparison means *)

(** The lexicographic order of strings. *)
Fixpoint lex_compare (s1 s2 : list Z) : Z :=
  match s1, s2 with
  | [], [] => 0
  | [], _ => -1
  | _, [] => 1
  | c1 :: s1, c2 :: s2 => if c1 =? c2 then lex_compare s1 s2 else if c1 <? c2 then -1 else 1
  end.

Lemma c_string_plain s : Forall (λ x : Z, x ≠ 0) (c_string s).
Proof. induction s as [|x s IH]; cbn; [done|]. case_bool; [done|]. by constructor. Qed.

Lemma compare_string_lex s1 s2 : Forall (λ x : Z, x ≠ 0) s1 → compare_string s1 (Z.of_nat (length s1)) s2 (Z.of_nat (length s2)) = lex_compare s1 s2.
Proof.
  intros Hs. revert s2. induction Hs as [|c1 s1 Hc _ IH]; intros [|c2 s2]; [done..|].
  cbn [lex_compare]. specialize (IH s2). unfold compare_string in *. cbn [length].
  rewrite !Nat2Z.inj_succ, <-Z.succ_min_distr, Z2Nat.inj_succ by lia. cbn [strncmp]. destruct (c1 =? c2) eqn:E.
  - rewrite <- IH. rewrite (Z.succ_min_distr (Z.of_nat (length s1)) (Z.of_nat (length s2))), (proj2 (Z.eqb_neq c1 0)) by done. repeat case_bool; lia.
  - repeat case_bool; lia.
Qed.

Lemma lex_total : TotalCompare lex_compare (λ _, True).
Proof.
  constructor.
  - intros s _. induction s as [|c s IH]; [done|]. cbn. by rewrite Z.eqb_refl.
  - intros s1 s2 _ _. revert s2. induction s1 as [|c1 s1 IH]; intros [|c2 s2]; [by cbn..|]. cbn. specialize (IH s2). repeat case_bool; lia.
  - intros s1 s2 s3 _ _ _. revert s2 s3. induction s1 as [|c1 s1 IH]; intros [|c2 s2] [|c3 s3]; try by cbn.
    cbn. specialize (IH s2 s3). repeat case_bool; lia.
Qed.

Lemma compare_int_total : TotalCompare compare_int (λ _, True).
Proof. constructor; unfold compare_int; [intros x _|intros x y _ _|intros x y z _ _ _]; repeat case_bool; lia. Qed.

(** The values of a column that are not NULL; [FLOATS] and the other types are not in this order. *)
Definition attr_ok c v : Prop :=
  match attr_type c with
  | INTS | DATES => int_bytes 4 (take 4 v) ≠ INT_NULL
  | CHARS => 0 < attr_length c ∧ head v ≠ None ∧ head v ≠ Some 0
  | _ => False
  end.

(** How two values of a column compare. *)
Definition attr_order c v1 v2 : Z :=
  match attr_type c with
  | CHARS => lex_compare (c_string (take (Z.to_nat (attr_length c)) v1)) (c_string (take (Z.to_nat (attr_length c)) v2))
  | _ => compare_int (int_bytes 4 (take 4 v1)) (int_bytes 4 (take 4 v2))
  end.

Lemma attr_compare_order c v1 v2 : attr_ok c v1 → attr_ok c v2 → attr_compare c v1 v2 = Some (attr_order c v1 v2).
Proof.
  unfold attr_ok, attr_order, attr_compare, attr_value. destruct c as [t len]. cbn [attr_type attr_length]. destruct t; try done; cbn [set_type set_data v_type mbind option_bind].
  - intros H1 H2. unfold compare, date_compare, is_null. cbn. by rewrite !(proj2 (Z.eqb_neq _ _)) by done.
  - intros (Hl & Hn1 & H1) (_ & Hn2 & H2). destruct v1 as [|c1 v1], v2 as [|c2 v2]; try done. cbn in H1, H2.
    assert (E : ∀ (x : Z) v, x ≠ 0 → c_string (take (Z.to_nat len) (x :: v)) = x :: c_string (take (Z.to_nat len - 1) v)).
    { intros x v Hc. destruct (Z.to_nat len) eqn:En; [lia|]. cbn. rewrite (proj2 (Z.eqb_neq x 0)) by done. by rewrite Nat.sub_0_r. }
    unfold set_string. rewrite (proj2 (Z.ltb_lt 0 len)) by done. rewrite !E by congruence.
    unfold compare, char_compare, is_null. cbn [v_type type_instance v_length pointer_value v_value].
    rewrite !(proj2 (Z.eqb_neq _ 0)) by (cbn [length]; lia || congruence). cbn [orb default]. rewrite compare_string_lex; [done|]. constructor; [congruence|apply c_string_plain].
  - intros H1 H2. unfold compare, integer_compare, is_null. cbn. by rewrite !(proj2 (Z.eqb_neq _ _)) by done.
Qed.

Lemma total_map {K K'} (f : K → K') (cmp : K' → K' → Z) (cmp' : K → K → Z) (ok : K → Prop) :
  TotalCompare cmp (λ _, True) → (∀ x y, ok x → ok y → cmp' x y = cmp (f x) (f y)) → TotalCompare cmp' ok.
Proof.
  intros Ht E. constructor.
  - intros x Hx. rewrite E by done. by apply (cmp_refl (TotalCompare := Ht)).
  - intros x y Hx Hy. rewrite !E by done. by apply (cmp_flip (TotalCompare := Ht)).
  - intros x y z Hx Hy Hz. rewrite !E by done. by apply (cmp_trans (TotalCompare := Ht)).
Qed.

Lemma attr_total c : TotalCompare (λ v1 v2, default 0 (attr_compare c v1 v2)) (attr_ok c).
Proof.
  assert (E : ∀ v1 v2, attr_ok c v1 → attr_ok c v2 → default 0 (attr_compare c v1 v2) = attr_order c v1 v2).
  { intros v1 v2 H1 H2. by rewrite attr_compare_order. }
  unfold attr_order in E. destruct (attr_type c) eqn:Et;
    first [eapply (total_map _ _ _ _ lex_total E)
          |exact (total_map (λ v, int_bytes 4 (take 4 v)) _ _ _ compare_int_total E)].
Qed.

(** The valid keys of an index on given columns. *)
Definition field_key_ok (fields_meta : list FieldMeta) : Key (list Z) → Prop := valid_key ((λ f, attr_ok (field_comparator f)) <$> fields_meta).

Lemma field_key_total unique fields_meta : TotalCompare (key_compare (KeyComparator_init unique fields_meta)) (field_key_ok fields_meta).
Proof. apply key_total. cbn. apply Forall2_fmap, Forall_Forall2_diag, Forall_true. intros f. apply attr_total. Qed.

(** C24: the order of the keys.  For every list of columns the comparator that [KeyComparator::init] builds is a total
    order on the keys whose values are integers, dates or strings and not NULL: it compares column by column,
    integers and dates as numbers, strings by their bytes up to the length of the column or the first 0, and
    then, unless the index is unique, the positions. *)
Theorem column_keys_ordered unique fields_meta :
  TotalCompare (key_compare (KeyComparator_init unique fields_meta)) (field_key_ok fields_meta) ∧
  ∀ k1 k2, field_key_ok fields_meta k1 → field_key_ok fields_meta k2 →
    key_compare (KeyComparator_init unique fields_meta) k1 k2 =
    let attrs := List.find (λ n, negb (n =? 0)) (zip_with (λ f '(x1, x2), attr_order (field_comparator f) x1 x2) fields_meta (zip k1.1 k2.1)) in
    match attrs with
    | Some n => n
    | None => if unique then 0 else if decide (rid_page_num k1.2 = rid_page_num k2.2) then rid_slot_num k1.2 - rid_slot_num k2.2
              else rid_page_num k1.2 - rid_page_num k2.2
    end.
Proof.
  split; [apply field_key_total|]. intros [v1 r1] [v2 r2] [H1 R1] [H2 R2]. cbn [fst snd] in *. unfold key_compare, KeyComparator_init. cbn [fst snd attrs_comparator_ unique_].
  rewrite RID_compare_valid by done.
  assert (E : default 0 (compare_attrs ((λ f v1 v2, default 0 (attr_compare (field_comparator f) v1 v2)) <$> fields_meta) v1 v2) =
    default 0 (List.find (λ n, negb (n =? 0)) (zip_with (λ f '(x1, x2), attr_order (field_comparator f) x1 x2) fields_meta (zip v1 v2))) ∧
    List.find (λ n, negb (n =? 0)) (zip_with (λ f '(x1, x2), attr_order (field_comparator f) x1 x2) fields_meta (zip v1 v2)) ≠ Some 0).
  { unfold default, id. clear R1 R2. revert v1 v2 H1 H2. induction fields_meta as [|f fs IH]; intros v1 v2 H1 H2; [done|]. cbn in H1, H2.
    apply Forall2_cons_inv_l in H1 as (x1 & w1 & Hx1 & H1 & ->). apply Forall2_cons_inv_l in H2 as (x2 & w2 & Hx2 & H2 & ->).
    cbn. rewrite attr_compare_order by done. unfold default, id. destruct (attr_order _ _ _ =? 0) eqn:E; cbn [negb]; [by apply IH|].
    split; [done|]. intros [= E']. by rewrite E' in E. }
  destruct E as [E Hne]. rewrite E. destruct (List.find _ _) as [n|]; [|done]. unfold default, id in *. destruct (n =? 0) eqn:En; cbn [negb]; [|done].
  apply Z.eqb_eq in En. destruct Hne. by rewrite En.
Qed.
End comparator.

(** Equality of [FLOATS] up to [EPSILON] is not transitive: 0 equals 0.0000006, which equals 0.0000012, but 0 is less than
    0.0000012. *)
Example float_keys_not_transitive :
  let bytes n := le_encode 4 (bits_of_float (fdiv (float_of_int n) (float_of_int 10000000))) in
  let cmp x y := attr_compare (λ _, None) (mkAttrComparator FLOATS 4) (bytes x) (bytes y) in
  cmp 0 6 = Some 0 ∧ cmp 6 12 = Some 0 ∧ cmp 0 12 = Some (-1).
Proof. vm_compute. repeat split; reflexivity. Qed.
