(* ===== verification/ValueText.v ===== *)
(** * Values and their text

    A value that is printed and read again is the same value: integers through strings, and dates
    through the form [YYYY-MM-DD]. *)
From Stdlib Require Import SpecFloat.
From S2P Require Import Prelude Rc TableMeta Text Float Value.

(** ** Printed text *)

Definition plain_text (s : list Z) : Prop := Forall (λ c, c ≠ 0) s.

Lemma c_string_id s : plain_text s → c_string s = s.
Proof. induction 1 as [|c s Hc _ IH]; cbn; [done|]. by rewrite (proj2 (Z.eqb_neq c 0)), IH. Qed.

Lemma digits_plain ds : Forall (λ c, is_digit c = true) ds → plain_text ds.
Proof. intros H. eapply Forall_impl; [exact H|]. intros c Hc ->. discriminate Hc. Qed.

Lemma print_int_plain n : plain_text (print_int n) ∧ print_int n ≠ [].
Proof.
  unfold print_int. case_bool.
  - destruct (print_nat_ok (- n) ltac:(lia)) as (_ & H & _). split; [|done]. constructor; [done|by apply digits_plain].
  - destruct (print_nat_ok n ltac:(lia)) as (_ & H & Hne). by split; [apply digits_plain|].
Qed.

Lemma pad_plain w n : plain_text (pad w (print_int n)).
Proof. unfold pad. apply Forall_app. split; [by apply Forall_replicate|apply print_int_plain]. Qed.

Lemma set_string_plain s : plain_text s → s ≠ [] → ∀ len, len = 0 ∨ len = Z.of_nat (length s) →
  set_string (Some s) len = mkValue CHARS (Z.of_nat (length s)) (Chars (Some s)) true.
Proof.
  intros Hs Hne len Hlen. unfold set_string. assert (E : (if 0 <? len then take (Z.to_nat len) s else s) = s).
  { case_bool; [|done]. apply take_ge. lia. }
  by rewrite E, c_string_id.
Qed.

Lemma text_not_null s : plain_text s → s ≠ [] → is_null (mkValue CHARS (Z.of_nat (length s)) (Chars (Some s)) true) = false.
Proof.
  intros [|c s' Hc _] Hne; [done|]. unfold is_null. cbn -[Z.of_nat]. rewrite !(proj2 (Z.eqb_neq _ 0)); [done|done|lia].
Qed.

(** ** Round trips *)

(** The number of a date. *)
Lemma date_parts y m d : 0 < y → 0 < m ≤ 12 → 0 < d ≤ 31 →
  Z.quot (y * 10000 + m * 100 + d) 10000 = y ∧ Z.quot (Z.rem (y * 10000 + m * 100 + d) 10000) 100 = m ∧ Z.rem (y * 10000 + m * 100 + d) 100 = d.
Proof.
  intros Hy Hm Hd. rewrite !Z.quot_div_nonneg, !Z.rem_mod_nonneg by (try apply Z.rem_nonneg; lia).
  assert (E : (y * 10000 + m * 100 + d) mod 10000 = m * 100 + d) by (symmetry; apply (Z.mod_unique _ _ y); lia).
  rewrite E. split_and!; symmetry; [apply (Z.div_unique _ _ _ (m * 100 + d))|apply (Z.div_unique _ _ _ d)|apply (Z.mod_unique _ _ (y * 100 + m))]; lia.
Qed.

Lemma check_date_range y m d : check_date y m d = true → 0 < y ∧ 0 < m ≤ 12 ∧ 0 < d ≤ 31.
Proof.
  unfold check_date. cbv zeta. set (leap := (_ || _)). intros H. repeat (apply andb_true_iff in H as [H ?]). zify_bool.
  split_and!; try lia. destruct (decide (m = 2)) as [->|Hm]; [change ((2 =? 2) && leap) with leap in *; change (default 0 _) with 28 in *; destruct leap; lia|].
  rewrite (proj2 (Z.eqb_neq m 2)) in * by done. cbn [andb] in *.
  assert (Hmon : ∀ i, default 0 ([0; 31; 28; 31; 30; 31; 30; 31; 31; 30; 31; 30; 31] !! i) ≤ 31).
  { intros i. destruct (_ !! i) as [n|] eqn:E; [|done]. revert n E. apply Forall_lookup. by repeat constructor. }
  specialize (Hmon (Z.to_nat m)). lia.
Qed.

Section roundtrip.
Variable strtof : list Z → float32.
Variable stof : list Z → option float32.
Variable read_float : list Z → option (float32 * bool).

Lemma date_text y m d : check_date y m d = true →
  to_string (set_date y m d) = pad 4 (print_int y) ++ minus :: pad 2 (print_int m) ++ minus :: pad 2 (print_int d).
Proof.
  intros (Hy & Hm & Hd)%check_date_range. destruct (date_parts y m d Hy Hm Hd) as (E1 & E2 & E3).
  unfold to_string, is_null. cbn [type_instance v_type set_date int_value v_value]. rewrite (proj2 (Z.eqb_neq _ _)) by (unfold INT_NULL, INT32_MIN; lia).
  by rewrite E1, E2, E3.
Qed.

Lemma scan_char_eq c s : scan_char c (c :: s) = Some s.
Proof. cbn. by rewrite Z.eqb_refl. Qed.

Lemma scan_date_text y m d s : is_int32 y → is_int32 m → is_int32 d → 0 < y → 0 < m → 0 < d → 
  match s with c :: _ => is_digit c = false | [] => True end →
  scan_date (pad 4 (print_int y) ++ minus :: pad 2 (print_int m) ++ minus :: pad 2 (print_int d) ++ s) = Some (y, m, d).
Proof.
  intros Iy Im Id Hy Hm Hd Hs. unfold scan_date, scan_int.
  assert (Hsat : ∀ z, is_int32 z → to_int32 (Z.max (- 2 ^ 63) (Z.min z (2 ^ 63 - 1))) = z).
  { intros z Hz. rewrite <- (to_int32_small z Hz) at 2. f_equal. unfold is_int32, INT32_MAX, INT32_MIN in Hz. lia. }
  rewrite scan_pad by (done || lia). cbn [mbind option_bind]. rewrite scan_char_eq. cbn [mbind option_bind].
  rewrite scan_pad by (done || lia). cbn [mbind option_bind]. rewrite scan_char_eq. cbn [mbind option_bind].
  rewrite scan_pad by (done || lia). cbn [mbind option_bind]. by rewrite !Hsat.
Qed.

(** C33: round trips of values through text.  An [int] that is not NULL, printed and parsed, as the value of a field or cast to
    a string and read from there, is the same number; a date that [check_data] accepts, printed
    and cast back from the string, is the same date. *)
Theorem value_text_roundtrip :
  (∀ z, is_int32 z → z ≠ INT_NULL →
    (∀ v, set_value_from_str read_float INTS v (to_string (set_int z)) = (RC_SUCCESS, set_int z)) ∧
    ∀ result, ∃ text, cast_to (set_int z) CHARS result = Some (RC_SUCCESS, text) ∧ get_int text = Some z ∧ to_string text = to_string (set_int z)) ∧
  (∀ y m d, check_date y m d = true → is_int32 (y * 10000 + m * 100 + d) → ∀ result,
    cast_to (set_string (Some (to_string (set_date y m d))) 0) DATES result = Some (RC_SUCCESS, set_date y m d)).
Proof.
  split.
  - intros z Hz Hn. destruct (print_int_plain z) as [Hp Hne].
    assert (Et : to_string (set_int z) = print_int z).
    { unfold to_string, is_null. cbn [type_instance v_type set_int int_value v_value]. by rewrite (proj2 (Z.eqb_neq _ _)). }
    assert (Es : scan_decimal (print_int z) = Some (z, [])) by (rewrite <- (app_nil_r (print_int z)) at 1; by apply scan_print).
    split.
    + intros v. unfold set_value_from_str, read_int. cbn [type_instance]. rewrite Et, Es. cbn [mbind option_bind]. by rewrite bool_decide_true.
    + intros result. exists (mkValue CHARS (Z.of_nat (length (print_int z))) (Chars (Some (print_int z))) true). split_and!.
      * unfold cast_to, integer_cast. cbn [type_instance v_type set_int int_value v_value]. rewrite bool_decide_true by done.
        unfold is_null. cbn [type_instance v_type int_value v_value]. rewrite (proj2 (Z.eqb_neq _ _)) by done. rewrite set_string_plain; auto.
      * unfold get_int. cbn [v_type pointer_value v_value]. unfold stol. rewrite Es. cbn [mbind option_bind].
        rewrite bool_decide_true by (unfold is_int64; unfold is_int32, INT32_MAX, INT32_MIN in Hz; lia). cbn. by rewrite to_int32_small.
      * rewrite Et. unfold to_string. cbn [type_instance v_type]. rewrite text_not_null by done. cbn. by apply c_string_id.
  - intros y m d Hc Hr result. pose proof (check_date_range y m d Hc) as (Hy & Hm & Hd). rewrite date_text by done.
    set (t := _ ++ _).
    assert (Hp : plain_text t) by (unfold t, plain_text; repeat first [apply pad_plain|apply Forall_app; split|apply Forall_cons; split; [done|]]).
    assert (Hne : t ≠ []) by (unfold t; intros [_ E]%app_eq_nil; discriminate E).
    rewrite set_string_plain by auto. unfold cast_to, char_cast. cbn [type_instance v_type]. rewrite text_not_null by done. cbn [default pointer_value v_value id].
    unfold is_int32, INT32_MAX, INT32_MIN in Hr.
    assert (E : scan_date t = Some (y, m, d)).
    { unfold t. rewrite <- (app_nil_r (pad 2 (print_int d))). apply scan_date_text; unfold is_int32, INT32_MAX, INT32_MIN; lia || done. }
    rewrite E, Hc. done.
Qed.
End roundtrip.

Example ex_date : to_string (set_date 2024 2 29) = [50; 48; 50; 52; 45; 48; 50; 45; 50; 57].
Proof. by vm_compute. Qed.
