(* ===== verification/Aggregator.v ===== *)
(** * Aggregations ([sql/expr/aggregator.*])

    The state of an aggregation is the value so far, without a type until the first row, and for averages
    the number of values.  NULL is not counted.  The outer [None] is a failed [ASSERT] or an overflow. *)
From Stdlib Require Import SpecFloat.
From S2P Require Import Prelude Rc TableMeta Text Float Value.

(** [src/src/observer/sql/expr/expression.h:524-532] [AggregateExpr::Type] the class of the aggregator *)
Inductive AggregateType := COUNT | COUNT_STAR | SUM | AVG | MAX | MIN.
#[export] Instance AggregateType_eq_dec : EqDecision AggregateType.
Proof. solve_decision. Defined.

(** [src/src/observer/sql/expr/aggregator.h:30-31] [Aggregator] and the count of [AvgAggregator] *)
Record Aggregator := mkAggregator { ag_type : AggregateType; ag_value : Value; ag_count : Z }.

(** [src/src/observer/sql/expr/expression.cpp:962-988] [AggregateExpr::create_aggregator] [make_shared] sets the count to 0 *)
Definition create_aggregator (type : AggregateType) : Aggregator := mkAggregator type Value_new 0.

(** [src/src/observer/sql/expr/aggregator.h:28-28] [Aggregator::reset] *)
Definition agg_reset (a : Aggregator) : Aggregator := mkAggregator (ag_type a) (set_type (ag_value a) UNDEFINED) (ag_count a).

Section aggregators.
Variable stof : list Z → option float32.
Implicit Types (v value : Value) (a : Aggregator).

Definition undefined v : bool := bool_decide (v_type v = UNDEFINED).
(** A value that was never set becomes NULL. *)
Definition init_null v : Value := if undefined v then NULL_VALUE else v.

(** [set_type(INTS)] and [set_data] of a number *)
Definition set_count v (x : Z) : Value := mkValue INTS 4 (Word x) (v_own v).

(** [src/src/observer/sql/expr/aggregator.cpp:22-43] [SumAggregator::accumulate] *)
Definition sum_accumulate v value : option Value :=
  let v := init_null v in
  if is_null value then Some v
  else if is_null v then Some (copy_value value)
  else if bool_decide (v_type value = v_type v) then snd <$> value_add stof value v v else None.

(** [src/src/observer/sql/expr/aggregator.cpp:54-76] [MinAggregator::accumulate] *)
Definition min_accumulate v value : option Value :=
  let v := init_null v in
  if is_null value then Some v
  else if is_null v then Some (copy_value value)
  else if bool_decide (v_type value = v_type v) then n ← compare stof value v; Some (if n <? 0 then copy_value value else v) else None.

(** [src/src/observer/sql/expr/aggregator.cpp:87-109] [MaxAggregator::accumulate] *)
Definition max_accumulate v value : option Value :=
  let v := init_null v in
  if is_null value then Some v
  else if is_null v then Some (copy_value value)
  else if bool_decide (v_type value = v_type v) then n ← compare stof value v; Some (if 0 <? n then copy_value value else v) else None.

(** [src/src/observer/sql/expr/aggregator.cpp:120-144] [CountAggregator::accumulate] *)
Definition count_accumulate v value : option Value :=
  let v := if undefined v then set_count v 0 else v in
  if is_null value then Some v
  else let v := if is_null v then set_count v 0 else v in snd <$> value_add stof v (set_count Value_new 1) v.

(** [src/src/observer/sql/expr/aggregator.cpp:157-178] [CountStarAggregator::accumulate] *)
Definition count_star_accumulate v : option Value :=
  if undefined v then Some (set_count v 1)
  else let v := if is_null v then set_count v 0 else v in snd <$> value_add stof v (set_count Value_new 1) v.

(** [src/src/observer/sql/expr/aggregator.cpp:191-214] [AvgAggregator::accumulate] the count is a C int *)
Definition avg_accumulate v (count : Z) value : option (Value * Z) :=
  let count := if undefined v then 0 else count in
  let v := init_null v in
  if is_null value then Some (v, count)
  else if count =? INT32_MAX then None
  else if is_null v then Some (copy_value value, count + 1)
  else if bool_decide (v_type value = v_type v) then '(_, v) ← value_add stof value v v; Some (v, count + 1) else None.

(** [src/src/observer/sql/expr/aggregator.h:26-26] [Aggregator::accumulate] of the classes; the code is always success *)
Definition agg_accumulate a value : option Aggregator :=
  let set r := v ← r; Some (mkAggregator (ag_type a) v (ag_count a)) in
  match ag_type a with
  | SUM => set (sum_accumulate (ag_value a) value)
  | MIN => set (min_accumulate (ag_value a) value)
  | MAX => set (max_accumulate (ag_value a) value)
  | COUNT => set (count_accumulate (ag_value a) value)
  | COUNT_STAR => set (count_star_accumulate (ag_value a))
  | AVG => '(v, n) ← avg_accumulate (ag_value a) (ag_count a) value; Some (mkAggregator AVG v n)
  end.

(** [src/src/observer/sql/expr/aggregator.cpp:45-52] [SumAggregator::evaluate] and of the other classes (78-85, 111-118, 146-155, 180-189,
    216-223); a value that was never set is set now, as it would be the next time *)
Definition agg_evaluate a (result : Value) : option (RC * Value) :=
  match ag_type a with
  | SUM | MIN | MAX => Some (RC_SUCCESS, copy_value (init_null (ag_value a)))
  | COUNT | COUNT_STAR => Some (RC_SUCCESS, copy_value (if undefined (ag_value a) then set_count (ag_value a) 0 else ag_value a))
  | AVG => value_divide stof (ag_value a) (set_count Value_new (ag_count a)) (set_type result FLOATS)
  end.

(** A group of values. *)
Fixpoint agg_run a (values : list Value) : option Aggregator :=
  match values with [] => Some a | v :: values => a ← agg_accumulate a v; agg_run a values end.

End aggregators.

(** ** Aggregations of integers *)

(** A column of integers, with the number that is NULL. *)
Definition int_values (l : list Z) : list Value := set_int <$> l.
Definition non_null (l : list Z) : list Z := List.filter (λ z, negb (z =? INT_NULL)) l.
Definition abs_sum (l : list Z) : Z := foldr (λ z n, Z.abs z + n) 0 l.

(** The value of a fold of the values that are not NULL, if there is one. *)
Definition fold_opt (f : Z → Z → Z) (l : list Z) : option Z := match l with [] => None | z :: l => Some (foldl f z l) end.
Definition opt_value (o : option Z) : Value := match o with None => NULL_VALUE | Some z => set_int z end.

(** What the aggregations of a column are. *)
Definition aggregate_spec (stof : list Z → option float32) (type : AggregateType) (l : list Z) : Value :=
  match type with
  | COUNT => set_int (Z.of_nat (length (non_null l)))
  | COUNT_STAR => set_int (Z.of_nat (length l))
  | SUM => opt_value (fold_opt Z.add (non_null l))
  | MIN => opt_value (fold_opt Z.min (non_null l))
  | MAX => opt_value (fold_opt Z.max (non_null l))
  | AVG => match fold_opt Z.add (non_null l) with
           | None => set_float FLOAT_NULL
           | Some sum => (float_divide stof (set_int sum) (set_int (Z.of_nat (length (non_null l))))).2
           end
  end.

(** The state after the values [l]. *)
Definition agg_state (stof : list Z → option float32) (type : AggregateType) (l : list Z) : Aggregator :=
  mkAggregator type
    (match l with [] => Value_new | _ => match type with AVG => aggregate_spec stof SUM l | _ => aggregate_spec stof type l end end)
    (match type with AVG => Z.of_nat (length (non_null l)) | _ => 0 end).

Lemma non_null_app l1 l2 : non_null (l1 ++ l2) = non_null l1 ++ non_null l2.
Proof. apply List.filter_app. Qed.
Lemma non_null_in l : Forall (λ z, z ≠ INT_NULL) (non_null l).
Proof. apply Forall_forall. intros z Hz%list_elem_of_In%filter_In. destruct Hz as [_ Hz%negb_true_iff%Z.eqb_neq]. done. Qed.
Lemma non_null_length l : (length (non_null l) ≤ length l)%nat.
Proof. unfold non_null. induction l as [|z l IH]; cbn; [lia|]. case_match; cbn; lia. Qed.

Lemma abs_sum_app l1 l2 : abs_sum (l1 ++ l2) = abs_sum l1 + abs_sum l2.
Proof. unfold abs_sum. induction l1 as [|z l1 IH]; cbn [app foldr]; lia. Qed.
Lemma abs_sum_pos l : 0 ≤ abs_sum l.
Proof. unfold abs_sum. induction l as [|z l IH]; cbn [foldr]; lia. Qed.

Lemma foldl_add_bound z l : Z.abs (foldl Z.add z l) ≤ Z.abs z + abs_sum l.
Proof.
  revert z. induction l as [|x l IH]; intros z; [cbn; lia|]. cbn [foldl]. specialize (IH (z + x)).
  change (abs_sum (x :: l)) with (Z.abs x + abs_sum l). lia.
Qed.

Lemma fold_opt_snoc f l z : fold_opt f (l ++ [z]) = Some (match fold_opt f l with None => z | Some m => f m z end).
Proof. destruct l as [|x l]; [done|]. cbn [fold_opt app]. by rewrite foldl_app. Qed.

Lemma fold_opt_in f l m : (∀ x y, f x y = x ∨ f x y = y) → fold_opt f l = Some m → m ∈ l.
Proof.
  intros Hf. destruct l as [|z l]; [done|]. intros [= <-]. revert z. induction l as [|x l IH]; intros z; cbn; [by left|].
  specialize (IH (f z x)). apply elem_of_cons in IH as [E|?]; [|by do 2 right]. rewrite E. destruct (Hf z x) as [->| ->]; [by left|by right; left].
Qed.

Lemma fold_opt_sum l m : abs_sum l ≤ INT32_MAX → fold_opt Z.add l = Some m → Z.abs m ≤ INT32_MAX.
Proof.
  destruct l as [|z l]; [done|]. intros Hs [= <-]. pose proof (foldl_add_bound z l). change (abs_sum (z :: l)) with (Z.abs z + abs_sum l) in Hs. lia.
Qed.

(** The state before the first value is NULL. *)
Lemma init_opt {A} (l : list A) o : (l = [] → o = None) → init_null (match l with [] => Value_new | _ => opt_value o end) = opt_value o.
Proof. intros Ho. destruct l; [by rewrite Ho|]. by destruct o. Qed.

Section integers.
Variable stof : list Z → option float32.

Lemma add_ints v x y : is_int32 (x + y) → v_type v = INTS → value_add stof (set_int x) (set_int y) v = Some (RC_SUCCESS, set_int (x + y)).
Proof. intros Hr Hv. unfold value_add. rewrite Hv. cbn. unfold int_result. by rewrite bool_decide_true. Qed.

Lemma compare_ints x y : x ≠ INT_NULL → y ≠ INT_NULL → compare stof (set_int x) (set_int y) = Some (compare_int x y).
Proof. intros Hx Hy. unfold compare, integer_compare, is_null. cbn. by rewrite !(proj2 (Z.eqb_neq _ _)). Qed.

(** One value of a sum, minimum or maximum. *)
Lemma sum_step o z : (∀ m, o = Some m → m ≠ INT_NULL ∧ is_int32 (z + m)) → z ≠ INT_NULL → ∀ v, init_null v = opt_value o →
  sum_accumulate stof v (set_int z) = Some (opt_value (Some (match o with None => z | Some m => m + z end))).
Proof.
  intros Ho Hz v Hv. unfold sum_accumulate. rewrite Hv. change (is_null (set_int z)) with (z =? INT_NULL). rewrite (proj2 (Z.eqb_neq _ _)) by done.
  destruct o as [m|]; [|done]. destruct (Ho m eq_refl) as [Hm Hr]. cbn [opt_value]. change (is_null (set_int m)) with (m =? INT_NULL).
  rewrite (proj2 (Z.eqb_neq _ _)) by done. rewrite bool_decide_true by done. rewrite add_ints by done. cbn. by rewrite Z.add_comm.
Qed.

Lemma min_step o z : (∀ m, o = Some m → m ≠ INT_NULL) → z ≠ INT_NULL → ∀ v, init_null v = opt_value o →
  min_accumulate stof v (set_int z) = Some (opt_value (Some (match o with None => z | Some m => Z.min m z end))).
Proof.
  intros Ho Hz v Hv. unfold min_accumulate. rewrite Hv. change (is_null (set_int z)) with (z =? INT_NULL). rewrite (proj2 (Z.eqb_neq _ _)) by done.
  destruct o as [m|]; [|done]. specialize (Ho m eq_refl). cbn [opt_value]. change (is_null (set_int m)) with (m =? INT_NULL).
  rewrite (proj2 (Z.eqb_neq _ _)) by done. rewrite bool_decide_true by done. rewrite compare_ints by done. cbn [mbind option_bind]. unfold compare_int.
  f_equal. destruct (Z.ltb_spec m z), (Z.ltb_spec z m); (lia || (cbn [opt_value]; first [rewrite Z.min_l by lia; done|rewrite Z.min_r by lia; done])).
Qed.

Lemma max_step o z : (∀ m, o = Some m → m ≠ INT_NULL) → z ≠ INT_NULL → ∀ v, init_null v = opt_value o →
  max_accumulate stof v (set_int z) = Some (opt_value (Some (match o with None => z | Some m => Z.max m z end))).
Proof.
  intros Ho Hz v Hv. unfold max_accumulate. rewrite Hv. change (is_null (set_int z)) with (z =? INT_NULL). rewrite (proj2 (Z.eqb_neq _ _)) by done.
  destruct o as [m|]; [|done]. specialize (Ho m eq_refl). cbn [opt_value]. change (is_null (set_int m)) with (m =? INT_NULL).
  rewrite (proj2 (Z.eqb_neq _ _)) by done. rewrite bool_decide_true by done. rewrite compare_ints by done. cbn [mbind option_bind]. unfold compare_int.
  f_equal. destruct (Z.ltb_spec m z), (Z.ltb_spec z m); (lia || (cbn [opt_value]; first [rewrite Z.max_l by lia; done|rewrite Z.max_r by lia; done])).
Qed.
End integers.

Section states.
Variable stof : list Z → option float32.

Lemma avg_count l : (if undefined (match l with [] => Value_new | _ => opt_value (fold_opt Z.add (non_null l)) end) then 0 else Z.of_nat (length (non_null l))) =
  Z.of_nat (length (non_null l)).
Proof. destruct l as [|x l]; [done|]. unfold undefined. rewrite bool_decide_false; [done|]. by destruct (fold_opt _ _). Qed.

(** An average is a sum that counts. *)
Lemma avg_sum v count value : is_null value = false → (if undefined v then 0 else count) < INT32_MAX →
  avg_accumulate stof v count value = (v' ← sum_accumulate stof v value; Some (v', (if undefined v then 0 else count) + 1)).
Proof.
  intros Hv Hc. unfold avg_accumulate, sum_accumulate. rewrite Hv, (proj2 (Z.eqb_neq _ INT32_MAX)) by lia.
  destruct (is_null (init_null v)); [done|]. case_bool_decide; [|done]. by destruct (value_add _ _ _ _) as [[? ?]|].
Qed.

Lemma accumulate_null type l z : z = INT_NULL → Z.of_nat (length (l ++ [z])) ≤ INT32_MAX →
  agg_accumulate stof (agg_state stof type l) (set_int z) = Some (agg_state stof type (l ++ [z])).
Proof.
  intros -> Hl. rewrite length_app in Hl. cbn [length] in Hl. pose proof (non_null_length l) as Hlen.
  assert (Hnil : ∀ A (x y : A), match l ++ [INT_NULL] with [] => x | _ => y end = y) by (intros; by destruct l).
  assert (Hnn : non_null (l ++ [INT_NULL]) = non_null l) by (rewrite non_null_app; cbn; by rewrite app_nil_r).
  assert (Hopt : ∀ f, init_null (match l with [] => Value_new | _ => opt_value (fold_opt f (non_null l)) end) = opt_value (fold_opt f (non_null l))).
  { intros f. apply init_opt. by intros ->. }
  unfold agg_state. rewrite Hnil. unfold agg_accumulate. cbn [ag_type ag_value ag_count].
  destruct type; cbn [aggregate_spec]; rewrite ?Hnn.
  - unfold count_accumulate. by destruct l.
  - unfold count_star_accumulate. destruct l as [|x l]; [done|]. cbn [undefined v_type set_int]. unfold undefined. rewrite bool_decide_false by done.
    change (is_null (set_int (Z.of_nat (length (x :: l))))) with (Z.of_nat (length (x :: l)) =? INT_NULL).
    rewrite (proj2 (Z.eqb_neq _ _)) by (unfold INT_NULL, INT32_MIN; lia). change (set_count Value_new 1) with (set_int 1).
    rewrite add_ints; [|unfold is_int32, INT32_MIN; lia|done]. cbn [fmap option_fmap option_map snd]. rewrite length_app, Nat2Z.inj_add. done.
  - unfold sum_accumulate. by rewrite Hopt.
  - unfold avg_accumulate. by rewrite Hopt, avg_count.
  - unfold max_accumulate. by rewrite Hopt.
  - unfold min_accumulate. by rewrite Hopt.
Qed.

Lemma accumulate_number type l z : z ≠ INT_NULL → abs_sum (non_null (l ++ [z])) ≤ INT32_MAX → Z.of_nat (length (l ++ [z])) ≤ INT32_MAX →
  agg_accumulate stof (agg_state stof type l) (set_int z) = Some (agg_state stof type (l ++ [z])).
Proof.
  intros Hz Hs Hl. rewrite length_app in Hl. cbn [length] in Hl. pose proof (non_null_length l) as Hlen. pose proof (non_null_in l) as Hin.
  assert (Hnil : ∀ A (x y : A), match l ++ [z] with [] => x | _ => y end = y) by (intros; by destruct l).
  assert (Hnn : non_null (l ++ [z]) = non_null l ++ [z]) by (rewrite non_null_app; cbn; by rewrite (proj2 (Z.eqb_neq _ _))).
  assert (Hopt : ∀ f, init_null (match l with [] => Value_new | _ => opt_value (fold_opt f (non_null l)) end) = opt_value (fold_opt f (non_null l))).
  { intros f. apply init_opt. by intros ->. }
  assert (Hmem : ∀ f m, (∀ x y, f x y = x ∨ f x y = y) → fold_opt f (non_null l) = Some m → m ≠ INT_NULL).
  { intros f m Hf E%fold_opt_in; [|done]. rewrite Forall_forall in Hin. by apply Hin. }
  rewrite Hnn, abs_sum_app in Hs. change (abs_sum [z]) with (Z.abs z + 0) in Hs.
  assert (Hsum : ∀ m, fold_opt Z.add (non_null l) = Some m → m ≠ INT_NULL ∧ is_int32 (z + m)).
  { intros m E. destruct (non_null l) as [|x l'] eqn:El; [done|]. injection E as <-. pose proof (foldl_add_bound x l').
    change (abs_sum (x :: l')) with (Z.abs x + abs_sum l') in Hs. unfold INT_NULL, is_int32, INT32_MIN, INT32_MAX in *. lia. }
  assert (Hcount : ∀ n : nat, Z.of_nat n < INT32_MAX → snd <$> value_add stof (set_int (Z.of_nat n)) (set_count Value_new 1) (set_int (Z.of_nat n)) = Some (set_int (Z.of_nat n + 1))).
  { intros n Hn. change (set_count Value_new 1) with (set_int 1). rewrite add_ints; [done|unfold is_int32, INT32_MIN; lia|done]. }
  unfold agg_state. rewrite Hnil. unfold agg_accumulate. cbn [ag_type ag_value ag_count].
  destruct type; cbn [aggregate_spec]; rewrite ?Hnn, ?fold_opt_snoc.
  - assert (E : ∀ v, v = Value_new ∧ non_null l = [] ∨ v = set_int (Z.of_nat (length (non_null l))) →
      count_accumulate stof v (set_int z) = Some (set_int (Z.of_nat (length (non_null l ++ [z]))))).
    { intros v Hv. unfold count_accumulate. change (is_null (set_int z)) with (z =? INT_NULL). rewrite (proj2 (Z.eqb_neq z _)) by done.
      rewrite length_app, Nat2Z.inj_add. destruct Hv as [[-> ->]| ->]; [done|]. unfold undefined. rewrite bool_decide_false by done.
      change (is_null (set_int (Z.of_nat (length (non_null l))))) with (Z.of_nat (length (non_null l)) =? INT_NULL).
      rewrite (proj2 (Z.eqb_neq _ _)) by (unfold INT_NULL, INT32_MIN; lia). apply Hcount. lia. }
    rewrite E; [done|]. destruct l; [by left|by right].
  - unfold count_star_accumulate. destruct l as [|x l]; [done|]. unfold undefined. rewrite bool_decide_false by done.
    change (is_null (set_int (Z.of_nat (length (x :: l))))) with (Z.of_nat (length (x :: l)) =? INT_NULL).
    rewrite (proj2 (Z.eqb_neq _ _)) by (unfold INT_NULL, INT32_MIN; lia). rewrite Hcount by lia. by rewrite length_app, Nat2Z.inj_add.
  - by rewrite (sum_step stof (fold_opt Z.add (non_null l)) z Hsum Hz) by apply Hopt.
  - rewrite avg_sum; [|by apply Z.eqb_neq|rewrite avg_count; lia]. rewrite (sum_step stof (fold_opt Z.add (non_null l)) z Hsum Hz) by apply Hopt.
    rewrite avg_count. cbn [mbind option_bind]. by rewrite length_app, Nat2Z.inj_add.
  - rewrite (max_step stof (fold_opt Z.max (non_null l)) z); [done| |done|apply Hopt]. intros m. apply Hmem. lia.
  - rewrite (min_step stof (fold_opt Z.min (non_null l)) z); [done| |done|apply Hopt]. intros m. apply Hmem. lia.
Qed.

Lemma agg_run_app a l1 l2 : agg_run stof a (l1 ++ l2) = (a ← agg_run stof a l1; agg_run stof a l2).
Proof. revert a. induction l1 as [|v l1 IH]; intros a; [done|]. cbn. destruct (agg_accumulate stof a v); [apply IH|done]. Qed.

(** The values of a column, one after the other. *)
Lemma run_state type l : abs_sum (non_null l) ≤ INT32_MAX → Z.of_nat (length l) ≤ INT32_MAX →
  agg_run stof (create_aggregator type) (int_values l) = Some (agg_state stof type l).
Proof.
  induction l as [|z l IH] using rev_ind; intros Hs Hl; [by destruct type|].
  assert (Hs' : abs_sum (non_null l) ≤ INT32_MAX).
  { rewrite non_null_app, abs_sum_app in Hs. pose proof (abs_sum_pos (non_null [z])). lia. }
  assert (Hl' : Z.of_nat (length l) ≤ INT32_MAX) by (rewrite length_app in Hl; lia).
  unfold int_values. rewrite fmap_app, agg_run_app. fold (int_values l). rewrite IH by done. cbn [mbind option_bind fmap list_fmap agg_run].
  destruct (decide (z = INT_NULL)); [rewrite accumulate_null by done|rewrite accumulate_number by done]; done.
Qed.

Lemma evaluate_state type l result : abs_sum (non_null l) ≤ INT32_MAX → Z.of_nat (length l) ≤ INT32_MAX →
  agg_evaluate stof (agg_state stof type l) result = Some (RC_SUCCESS, aggregate_spec stof type l).
Proof.
  intros Hs Hl. pose proof (non_null_length l) as Hlen. unfold agg_evaluate, agg_state. cbn [ag_type ag_value ag_count].
  assert (Hopt : ∀ f, init_null (match l with [] => Value_new | _ => opt_value (fold_opt f (non_null l)) end) = opt_value (fold_opt f (non_null l))).
  { intros f. apply init_opt. by intros ->. }
  destruct type; cbn [aggregate_spec]; rewrite ?Hopt; try (by destruct (fold_opt _ _)); try (by destruct l).
  unfold value_divide. cbn [type_instance v_type set_type].
  destruct (fold_opt Z.add (non_null l)) as [sum|] eqn:E.
  - destruct l; [discriminate E|done].
  - destruct (non_null l); [done|discriminate E].
Qed.
End states.
