(* ===== verification/Tuples.v ===== *)
(** * Tuples ([sql/expr/tuple.h, tuple_cell.*])

    What an operator hands to the operator above it: the row of a table, values with their names, or two tuples
    side by side.  Cells are found by position or by the names of table, field and alias; the cell is an out
    parameter.  The outer [None] is a failed [ASSERT] or an access outside a vector. *)
From Stdlib Require Import SpecFloat.
From stdpp Require Import strings.
From S2P Require Import Prelude Rc TableMeta Text Float Value.

(** ** Cells *)

(** [src/src/observer/sql/expr/tuple_cell.h:38-40] [TupleCellSpec] *)
Record TupleCellSpec := mkSpec { spec_table_name : string; spec_field_name : string; spec_alias : string }.

(** [src/src/observer/sql/expr/tuple_cell.cpp:20-37] [TupleCellSpec::TupleCellSpec] an empty alias is none *)
Definition TupleCellSpec_new (table_name field_name alias : string) : TupleCellSpec :=
  mkSpec table_name field_name
    (if negb (String.eqb alias "") && negb (String.eqb field_name alias) && negb (String.eqb table_name alias) then alias
     else if String.eqb table_name "" then field_name else String.append table_name (String.append "." field_name)).

(** The constructor from an alias: the names are empty. *)
Definition TupleCellSpec_alias (alias : string) : TupleCellSpec := mkSpec "" "" alias.

#[export] Instance TupleCellSpec_eq_dec : EqDecision TupleCellSpec.
Proof. solve_decision. Defined.

(** [src/src/observer/sql/expr/tuple.h:81-100] [Tuple] *)
Class Tuple (T : Type) := {
  cell_num : T → nat;
  cell_at : T → nat → Value → option (RC * Value);
  spec_at : T → nat → TupleCellSpec → option (RC * TupleCellSpec);
  find_cell : T → TupleCellSpec → Value → option (RC * Value);
}.

(** ** Rows of a table *)

(** [src/src/observer/sql/expr/tuple.h:283-286] [RowTuple] the record is its bytes *)
Record RowTuple := mkRowTuple { rt_record : list Z; rt_table : string; rt_speces : list FieldMeta; rt_alias : string }.

(** [src/src/observer/sql/expr/tuple.h:210-222] [RowTuple::cell_at] *)
Definition row_cell_at (t : RowTuple) (index : nat) (cell : Value) : option (RC * Value) :=
  match rt_speces t !! index with
  | None => Some (RC_INVALID_ARGUMENT, cell)
  | Some f => cell ← set_data (set_type cell (attr_type_ f)) (drop (Z.to_nat (attr_offset_ f)) (rt_record t)) (attr_len_ f); Some (RC_SUCCESS, cell)
  end.

(** The text before the first dot, if there is one. *)
Fixpoint before_dot (s : string) : option string :=
  match s with
  | EmptyString => None
  | String c s => if Ascii.eqb c (Ascii.ascii_of_nat 46) then Some EmptyString else String c <$> before_dot s
  end.

(** The position of the first field with a name. *)
Fixpoint find_field (name : string) (fields : list FieldMeta) : option nat :=
  match fields with [] => None | f :: fields => if String.eqb name (name_ f) then Some O else S <$> find_field name fields end.

(** [src/src/observer/sql/expr/tuple.h:236-263] [RowTuple::find_cell] *)
Definition row_find_cell (t : RowTuple) (spec : TupleCellSpec) (cell : Value) : option (RC * Value) :=
  if negb (String.eqb (spec_table_name spec) (rt_table t)) then Some (RC_NOTFOUND, cell)
  else
    let other_alias :=
      match before_dot (spec_alias spec) with
      | Some p =>
          negb (String.eqb (spec_alias spec) (String.append (spec_table_name spec) (String.append "." (spec_field_name spec)))) &&
          negb (String.eqb p (rt_alias t))
      | None => false
      end in
    if other_alias then Some (RC_NOTFOUND, cell)
    else match find_field (spec_field_name spec) (rt_speces t) with
         | Some i => row_cell_at t i cell
         | None => Some (RC_NOTFOUND, cell)
         end.

(** [src/src/observer/sql/expr/tuple.h:224-234] [RowTuple::spec_at] *)
Definition row_spec_at (t : RowTuple) (index : nat) (spec : TupleCellSpec) : option (RC * TupleCellSpec) :=
  f ← rt_speces t !! index;
  Some (RC_SUCCESS, TupleCellSpec_new (rt_table t) (name_ f)
    (if String.eqb (rt_alias t) "" then "" else String.append (rt_alias t) (String.append "." (name_ f)))).

#[export] Instance row_tuple : Tuple RowTuple :=
  {| cell_num t := length (rt_speces t); cell_at := row_cell_at; spec_at := row_spec_at; find_cell := row_find_cell |}.

(** ** The tuples of the operators *)

(** A row, values with their names ([ShellTuple], [ValueListTuple]), or two tuples side by side ([JoinedTuple]). *)
Inductive QTuple := Row (row : RowTuple) | Shell (cells : list Value) (specs : list TupleCellSpec) | Joined (left right : QTuple).

(** [src/src/observer/sql/expr/tuple.h:511-511] [JoinedTuple::cell_num] *)
Fixpoint q_cell_num (t : QTuple) : nat :=
  match t with Row r => length (rt_speces r) | Shell cells _ => length cells | Joined l r => q_cell_num l + q_cell_num r end.

(** [src/src/observer/sql/expr/tuple.h:513-525] [JoinedTuple::cell_at] also [ShellTuple] (455-463) *)
Fixpoint q_cell_at (t : QTuple) (index : nat) (cell : Value) : option (RC * Value) :=
  match t with
  | Row r => row_cell_at r index cell
  | Shell cells _ => Some (match cells !! index with Some v => (RC_SUCCESS, copy_value v) | None => (RC_NOTFOUND, cell) end)
  | Joined l r =>
      if (index <? q_cell_num l)%nat then q_cell_at l index cell
      else if (index <? q_cell_num l + q_cell_num r)%nat then q_cell_at r (index - q_cell_num l) cell
      else Some (RC_NOTFOUND, cell)
  end.

(** [src/src/observer/sql/expr/tuple.h:527-539] [JoinedTuple::spec_at] also [ShellTuple] (465-473) *)
Fixpoint q_spec_at (t : QTuple) (index : nat) (spec : TupleCellSpec) : option (RC * TupleCellSpec) :=
  match t with
  | Row r => row_spec_at r index spec
  | Shell cells specs => if (index <? length cells)%nat then s ← specs !! index; Some (RC_SUCCESS, s) else Some (RC_NOTFOUND, spec)
  | Joined l r =>
      if (index <? q_cell_num l)%nat then q_spec_at l index spec
      else if (index <? q_cell_num l + q_cell_num r)%nat then q_spec_at r (index - q_cell_num l) spec
      else Some (RC_NOTFOUND, spec)
  end.

(** The first cell with a name. *)
Fixpoint find_spec (spec : TupleCellSpec) (specs : list TupleCellSpec) : option nat :=
  match specs with [] => None | s :: specs => if bool_decide (s = spec) then Some O else S <$> find_spec spec specs end.

(** [src/src/observer/sql/expr/tuple.h:541-549] [JoinedTuple::find_cell] also [ShellTuple] (475-487) *)
Fixpoint q_find_cell (t : QTuple) (spec : TupleCellSpec) (cell : Value) : option (RC * Value) :=
  match t with
  | Row r => row_find_cell r spec cell
  | Shell cells specs =>
      if bool_decide (length cells = length specs) then
        Some (match find_spec spec specs with
              | Some i => match cells !! i with Some v => (RC_SUCCESS, copy_value v) | None => (RC_NOTFOUND, cell) end
              | None => (RC_NOTFOUND, cell)
              end)
      else None
  | Joined l r =>
      '(rc, cell) ← q_find_cell l spec cell;
      if bool_decide (rc = RC_NOTFOUND) then q_find_cell r spec cell else Some (rc, cell)
  end.
#[export] Instance q_tuple : Tuple QTuple :=
  {| cell_num := q_cell_num; cell_at := q_cell_at; spec_at := q_spec_at; find_cell := q_find_cell |}.
