(* ===== verification/MakeRecord.v ===== *)
(** * Making a record ([Table::make_record])

    The values of an INSERT are cast to the types of the columns, padded to their lengths and copied into a record; reading the
    record gives the values back. *)
From Stdlib Require Import SpecFloat.
From stdpp Require Import strings.
From S2P Require Import Prelude Rc Serializer TableMeta Text Float Value Tuples.

(** ** Operations *)

(** [src/src/observer/common/value.cpp:288-301] [Value::data] the bytes that can be read there; a string ends with a 0 *)
Definition value_data (v : Value) : option (list Z) :=
  match v_type v with
  | CHARS => (λ s, s ++ [0]) <$> pointer_value v
  | VECTORS => Some (vector_value v ≫= λ x, le_encode 4 (bits_of_float x))
  | _ => Some (le_encode 4 (int_value v))
  end.

(** [memcpy] into a record; [None] is an access outside the memory. *)
Definition copy_to (row : list Z) (offset : Z) (data : list Z) (n : Z) : option (list Z) :=
  if (0 <=? offset) && (0 <=? n) && (n <=? Z.of_nat (length data)) && (offset + n <=? Z.of_nat (length row))
  then Some (splice row (Z.to_nat offset) (take (Z.to_nat n) data)) else None.

(** [src/src/observer/storage/table/table.cpp:374-390] [Table::set_value_to_record] *)
Definition set_value_to_record (record_data : list Z) (value : Value) (field : FieldMeta) : option (list Z) :=
  let copy_len := attr_len_ field in
  if bool_decide (attr_type_ field = CHARS) && is_null value
  then copy_to record_data (attr_offset_ field) (replicate (Z.to_nat copy_len) 0) copy_len
  else
    let copy_len := if bool_decide (attr_type_ field = CHARS) && (v_length value <? copy_len) then v_length value + 1 else copy_len in
    data ← value_data value; copy_to record_data (attr_offset_ field) data copy_len.

(** [src/src/observer/storage/table/table.cpp:339-361] [Table::make_record] the value in the type of the column *)
Definition real_value (field : FieldMeta) (value : Value) : option (RC * Value) :=
  if negb (bool_decide (attr_type_ field = v_type value)) then cast_to value (attr_type_ field) Value_new else Some (RC_SUCCESS, copy_value value).

(** [src/src/observer/storage/table/table.cpp:335-362] [Table::make_record] *)
Fixpoint put_values (fields : list FieldMeta) (values : list Value) (record_data : list Z) : option (RC * list Z) :=
  match values, fields with
  | [], _ => Some (RC_SUCCESS, record_data)
  | _, [] => None
  | value :: values, field :: fields =>
      '(rc, real) ← real_value field value;
      if OB_FAIL rc then Some (rc, record_data)
      else
        let '(rc, real) := resize real (attr_len_ field) in
        if OB_FAIL rc then Some (rc, record_data)
        else record_data ← set_value_to_record record_data real field; put_values fields values record_data
  end.

(** [src/src/observer/storage/table/table.cpp:320-372] [Table::make_record] *)
Definition make_record (m : TableMeta) (values : list Value) : option (RC * option (list Z)) :=
  if negb (bool_decide (length values + sys_field_num m = length (fields_ m))%nat) then Some (RC_SCHEMA_FIELD_MISSING, None)
  else
    '(rc, record_data) ← put_values (drop (sys_field_num m) (fields_ m)) values (replicate (Z.to_nat (record_size_ m)) 0);
    Some (if OB_FAIL rc then (rc, None) else (RC_SUCCESS, Some record_data)).

(** ** What is in the record *)

(** The bytes of a string, possibly padded with zeros. *)
Definition padded (q : list Z) : Prop := ∃ s n, q = s ++ replicate n 0 ∧ Forall (λ c, c ≠ 0) s ∧ (s = [] → n = 0%nat).

(** A value that the column can hold: a number, or a string. *)
Definition storable (f : FieldMeta) (v : Value) : Prop :=
  v_type v = attr_type_ f ∧
  match attr_type_ f with
  | INTS | FLOATS | DATES => attr_len_ f = 4 ∧ ∃ z, v_value v = Word z ∧ is_int32 z
  | CHARS => ∃ p, v_value v = Chars p ∧ v_length v = Z.of_nat (length (default [] p)) ∧ padded (default [] p)
  | _ => False
  end.

(** The bytes of the column, and the value that they are read as: strings are cut off at the length of the column. *)
Definition field_data (f : FieldMeta) (v : Value) : list Z :=
  match attr_type_ f with
  | CHARS => take (Z.to_nat (attr_len_ f)) (default [] (pointer_value v) ++ replicate (Z.to_nat (attr_len_ f + 1)) 0)
  | _ => le_encode 4 (int_value v)
  end.
Definition stored_value (f : FieldMeta) (v : Value) : Value :=
  match attr_type_ f with
  | CHARS => set_string (Some (take (Z.to_nat (attr_len_ f)) (default [] (pointer_value v)))) 0
  | t => mkValue t (attr_len_ f) (v_value v) false
  end.

Lemma copy_to_fits row o data : 0 ≤ o → o + Z.of_nat (length data) ≤ Z.of_nat (length row) →
  copy_to row o data (Z.of_nat (length data)) = Some (splice row (Z.to_nat o) data).
Proof. intros Ho Hl. unfold copy_to. rewrite !(proj2 (Z.leb_le _ _)) by lia. cbn [andb]. by rewrite Nat2Z.id, firstn_all. Qed.

Lemma copy_to_prefix row o data n : 0 ≤ o → 0 ≤ n ≤ Z.of_nat (length data) → o + n ≤ Z.of_nat (length row) →
  copy_to row o data n = Some (splice row (Z.to_nat o) (take (Z.to_nat n) data)).
Proof. intros Ho Hn Hl. unfold copy_to. by rewrite !(proj2 (Z.leb_le _ _)) by lia. Qed.

Lemma c_string_nozero s n : Forall (λ c : Z, c ≠ 0) s → c_string (s ++ replicate n 0) = s.
Proof. induction 1 as [|c s Hc _ IH]; cbn; [by destruct n|]. rewrite (proj2 (Z.eqb_neq _ _)) by done. by rewrite IH. Qed.

Lemma field_data_length f v : storable f v → 0 < attr_len_ f → Z.of_nat (length (field_data f v)) = attr_len_ f.
Proof.
  intros [_ Hs] Hl. unfold field_data. destruct (attr_type_ f); try done;
    try (destruct Hs as [Hs _]; rewrite le_encode_length; lia).
  rewrite length_take, length_app, length_replicate. lia.
Qed.

Lemma padded_plain s : Forall (λ c : Z, c ≠ 0) s → padded s.
Proof. intros Hs. exists s, 0%nat. by rewrite app_nil_r. Qed.
Lemma padded_head c q : padded (c :: q) → c ≠ 0.
Proof. intros ([|c' s] & n & E & Hs & Hn); [by rewrite Hn in E by done|]. injection E as -> _. by apply Forall_inv in Hs. Qed.
Lemma padded_c_string q m k : padded q → (m ≤ k)%nat → take m (c_string q ++ replicate k 0) = take m (q ++ replicate k 0).
Proof.
  intros (s & n & -> & Hs & _) Hk. rewrite c_string_nozero by done. rewrite <- app_assoc, <- replicate_add, !take_app, !take_replicate. f_equal. f_equal. lia.
Qed.
Lemma padded_take q m k : padded q → (length q < m ≤ k)%nat → q ≠ [] → padded (take m (q ++ replicate k 0)).
Proof.
  intros (s & n & -> & Hs & Hn) Hm Hq. exists s, (m - length s)%nat. rewrite length_app, length_replicate in Hm. split.
  - rewrite <- app_assoc, <- replicate_add, take_app_ge by lia. rewrite take_replicate. f_equal. f_equal. lia.
  - split; [done|]. intros ->. by rewrite Hn in Hq.
Qed.
Lemma padded_cut q m k : padded q → c_string (take m (q ++ replicate k 0)) = c_string (take m q).
Proof.
  intros (s & n & -> & Hs & _). rewrite <- app_assoc, <- replicate_add, !take_app, !take_replicate. by rewrite !c_string_nozero by (by apply Forall_take).
Qed.

Lemma string_not_null n c q o : c ≠ 0 → 0 < n → is_null (mkValue CHARS n (Chars (Some (c :: q))) o) = false.
Proof.
  intros Hc Hn. unfold is_null. cbn [v_type type_instance v_length pointer_value v_value]. rewrite (proj2 (Z.eqb_neq _ 0)) by lia. cbn [orb].
  by apply Z.eqb_neq.
Qed.

Lemma resize_string c q o m : padded (c :: q) → Z.of_nat (length (c :: q)) < m →
  resize (mkValue CHARS (Z.of_nat (length (c :: q))) (Chars (Some (c :: q))) o) m =
    (RC_SUCCESS, mkValue CHARS m (Chars (Some (take (Z.to_nat m) ((c :: q) ++ replicate (Z.to_nat (m + 1)) 0)))) true).
Proof.
  intros Hp Hm. unfold resize. cbn [v_type v_length]. rewrite (proj2 (Z.leb_gt _ _)) by lia. rewrite string_not_null by first [by eapply padded_head | cbn [length]; lia].
  unfold pointer_value, default, id. cbn [v_value]. by rewrite padded_c_string by (done || lia).
Qed.

(** A string that owns its bytes is copied with them. *)
Definition copyable (v : Value) : Prop := v_type v = CHARS → is_null v = false → v_own v = true.

(** The value that the copy of a resized value stores. *)
Definition kept (f : FieldMeta) (w x : Value) : Prop :=
  storable f x ∧ field_data f x = field_data f w ∧ stored_value f x = stored_value f w ∧ is_null x = is_null w ∧ copy_value x = x.

(** A value of the size of the column: what its buffer begins with is what the column gets. *)
Record sized (f : FieldMeta) (w v : Value) : Prop := {
  sz_type : v_type v = attr_type_ f;
  sz_null : is_null v = is_null w;
  sz_data : ∃ data, value_data v = Some data ∧ attr_len_ f ≤ Z.of_nat (length data) ∧ take (Z.to_nat (attr_len_ f)) data = field_data f w;
  sz_length : attr_type_ f = CHARS → is_null w = false → attr_len_ f ≤ v_length v;
  sz_null_data : attr_type_ f = CHARS → is_null w = true → field_data f w = replicate (Z.to_nat (attr_len_ f)) 0;
  sz_kept : copyable w → kept f w (copy_value v);
}.

Lemma sized_null f p o : attr_type_ f = CHARS → 0 < attr_len_ f → default [] p = [] →
  ∃ v, resize (mkValue CHARS 0 (Chars p) o) (attr_len_ f) = (RC_SUCCESS, v) ∧ sized f (mkValue CHARS 0 (Chars p) o) v.
Proof.
  intros Ef Hl Hp. eexists. split; [unfold resize; cbn [v_type v_length]; rewrite (proj2 (Z.leb_gt _ _)) by lia; reflexivity|].
  assert (Hd : field_data f (mkValue CHARS 0 (Chars p) o) = replicate (Z.to_nat (attr_len_ f)) 0).
  { unfold field_data. rewrite Ef. cbn [pointer_value v_value]. rewrite Hp. cbn [app]. rewrite take_replicate. f_equal. lia. }
  split; [done|done| |done|done|].
  - eexists. split; [done|]. rewrite length_app, length_replicate. cbn [length]. split; [lia|].
    rewrite Hd, take_app_le, take_replicate by (rewrite length_replicate; lia). f_equal. lia.
  - intros _. split; [split; [done|]; rewrite Ef; exists None; split; [done|]; split; [done|]; by apply padded_plain|]. split; [|split; [|done]].
    + rewrite Hd. unfold field_data. rewrite Ef. cbn. rewrite take_replicate. f_equal. lia.
    + unfold stored_value. rewrite Ef. cbn [copy_value v_type pointer_value v_value]. by rewrite Hp.
Qed.

Lemma sized_string f c q o : attr_type_ f = CHARS → 0 < attr_len_ f → padded (c :: q) →
  let w := mkValue CHARS (Z.of_nat (length (c :: q))) (Chars (Some (c :: q))) o in
  ∃ v, resize w (attr_len_ f) = (RC_SUCCESS, v) ∧ sized f w v.
Proof.
  intros Ef Hl Hp w. set (m := attr_len_ f) in *. assert (Hw : is_null w = false) by (apply string_not_null; [by eapply padded_head|cbn [length]; lia]).
  assert (Hd : field_data f w = take (Z.to_nat m) ((c :: q) ++ replicate (Z.to_nat (m + 1)) 0)) by (unfold field_data; by rewrite Ef).
  destruct (Z.leb_spec m (Z.of_nat (length (c :: q)))) as [Hc|Hc].
  - exists w. split; [unfold resize; cbn [v_type v_length w]; by rewrite (proj2 (Z.leb_le _ _))|]. split; [done|done| |done|congruence|].
    + eexists. split; [done|]. rewrite length_app. fold m. split; [lia|]. rewrite Hd. by rewrite !take_app_le by lia.
    + intros Ho. unfold copyable in Ho. specialize (Ho eq_refl Hw). cbn in Ho. subst o.
      assert (copy_value w = w) as ->.
      { unfold copy_value, w. cbn [v_type v_length v_own v_value]. unfold set_string_from_other. cbn [pointer_value v_type v_length v_own v_value].
        rewrite (proj2 (Z.eqb_neq _ 0)) by (cbn [length]; lia). cbn [andb negb]. by rewrite Nat2Z.id, firstn_all. }
      split; [|split; [done|split; [done|split; [done|]]]].
      * split; [done|]. rewrite Ef. by exists (Some (c :: q)).
      * unfold copy_value, w. cbn [v_type v_length v_own v_value]. unfold set_string_from_other. cbn [pointer_value v_type v_length v_own v_value].
        rewrite (proj2 (Z.eqb_neq _ 0)) by (cbn [length]; lia). cbn [andb negb]. by rewrite Nat2Z.id, firstn_all.
  - remember (take (Z.to_nat m) ((c :: q) ++ replicate (Z.to_nat (m + 1)) 0)) as d eqn:Ed.
    assert (Hdl : Z.of_nat (length d) = m) by (rewrite Ed, length_take, length_app, length_replicate; cbn [length] in *; lia).
    assert (Hdp : padded d) by (rewrite Ed; apply padded_take; [done|lia|done]).
    destruct d as [|c' d']; [cbn in Hdl; lia|]. set (v := mkValue CHARS m (Chars (Some (c' :: d'))) true).
    assert (Hv : is_null v = false) by (apply string_not_null; [by eapply padded_head|lia]).
    assert (Hcp : copy_value v = v).
    { unfold copy_value, v. cbn [v_type v_length v_own v_value]. unfold set_string_from_other. cbn [pointer_value v_type v_length v_own v_value].
      rewrite (proj2 (Z.eqb_neq _ 0)) by lia. cbn [andb negb]. rewrite firstn_all2; [done|lia]. }
    exists v. split; [unfold v; rewrite Ed; by apply resize_string|]. split; [done|congruence| |done|congruence|].
    + eexists. split; [done|]. rewrite length_app. fold m. split; [lia|]. rewrite Hd. replace (Z.to_nat m) with (length (c' :: d')) by lia. apply take_app_length.
    + intros _. rewrite Hcp. assert (Hfd : field_data f v = field_data f w).
      { rewrite Hd. unfold field_data. rewrite Ef. fold m. cbn [pointer_value v v_value default]. unfold id.
        replace (Z.to_nat m) with (length (c' :: d')) by lia. apply take_app_length. }
      split; [split; [done|]; rewrite Ef; exists (Some (c' :: d')); done|]. split; [done|]. split; [|split; [congruence|done]].
      unfold stored_value. rewrite Ef. fold m. cbn [pointer_value v w v_value default]. unfold id, set_string. cbn [Z.ltb Z.compare].
      assert (c_string (take (Z.to_nat m) (c' :: d')) = c_string (take (Z.to_nat m) (c :: q))) as ->; [|done].
      rewrite (firstn_all2 (c' :: d')) by lia. rewrite <- (padded_cut (c :: q) (Z.to_nat m) (Z.to_nat (m + 1)) Hp). by rewrite <- Ed.
Qed.

Lemma sized_word f w : storable f w → attr_type_ f ≠ CHARS → resize w (attr_len_ f) = (RC_SUCCESS, w) ∧ sized f w w.
Proof.
  intros Hst Hc. pose proof Hst as [Et Hs]. destruct w as [t n x o]. cbn [v_type v_value] in Et, Hs. subst t.
  assert (∃ z, x = Word z ∧ attr_len_ f = 4 ∧ attr_type_ f ≠ VECTORS) as (z & -> & Hl & Hv) by (destruct (attr_type_ f); try done; destruct Hs as (? & z & ? & _); eauto).
  assert (Hd : field_data f (mkValue (attr_type_ f) n (Word z) o) = le_encode 4 z) by (unfold field_data; by destruct (attr_type_ f)).
  split; [unfold resize; cbn [v_type]; by destruct (attr_type_ f)|]. split; [done|done| |done|done|].
  - exists (le_encode 4 z). rewrite Hl, Hd, le_encode_length. split; [unfold value_data; cbn [v_type]; by destruct (attr_type_ f)|]. split; [done|].
    by rewrite firstn_all2 by (rewrite le_encode_length; lia).
  - intros _. assert (copy_value (mkValue (attr_type_ f) n (Word z) o) = mkValue (attr_type_ f) n (Word z) o) as Hcp by (unfold copy_value; cbn [v_type]; by destruct (attr_type_ f)).
    unfold kept. by rewrite !Hcp.
Qed.

Lemma resize_data f w : storable f w → 0 < attr_len_ f → ∃ v, resize w (attr_len_ f) = (RC_SUCCESS, v) ∧ sized f w v.
Proof.
  intros Hst Hl. destruct (decide (attr_type_ f = CHARS)) as [Ef|Ef]; [|exists w; by apply sized_word].
  destruct Hst as [Et Hs]. rewrite Ef in Et, Hs. destruct w as [t n x o]. cbn [v_type v_value v_length] in *. subst t.
  destruct Hs as ([[|c q]|] & -> & -> & Hp); [by apply sized_null|by apply sized_string|by apply sized_null].
Qed.

(** One column. *)
Lemma put_field row f w : storable f w → 0 < attr_len_ f → 0 ≤ attr_offset_ f → attr_offset_ f + attr_len_ f ≤ Z.of_nat (length row) →
  ∃ v, resize w (attr_len_ f) = (RC_SUCCESS, v) ∧ set_value_to_record row v f = Some (splice row (Z.to_nat (attr_offset_ f)) (field_data f w)).
Proof.
  intros Hst Hl Ho Hfit. destruct (resize_data f w Hst Hl) as (v & E & [Et En (data & Ed & Hlen & Etake) Hvl Hnull _]). exists v. split; [done|].
  unfold set_value_to_record. rewrite En. destruct (bool_decide_reflect (attr_type_ f = CHARS)) as [Ec|Ec]; cbn [andb].
  - destruct (is_null w) eqn:Enw.
    + rewrite (Hnull Ec eq_refl). rewrite copy_to_prefix by (rewrite ?length_replicate; lia). by rewrite firstn_all2 by (rewrite length_replicate; lia).
    + rewrite (proj2 (Z.ltb_ge _ _)) by (by apply Hvl). rewrite Ed. cbn [mbind option_bind]. rewrite copy_to_prefix by lia. by rewrite Etake.
  - rewrite Ed. cbn [mbind option_bind]. rewrite copy_to_prefix by lia. by rewrite Etake.
Qed.

(** What reading the column gives. *)
Lemma read_field row f v : storable f v → 0 < attr_len_ f → field_bytes f row = field_data f v →
  set_data (set_type Value_new (attr_type_ f)) (drop (Z.to_nat (attr_offset_ f)) row) (attr_len_ f) = Some (stored_value f v).
Proof.
  intros [Et Hs] Hl Hb. unfold field_bytes, field_data, stored_value in *. unfold set_data. cbn [set_type v_type v_own Value_new].
  destruct (attr_type_ f) eqn:Ef; try done.
  2: { destruct Hs as (p & Ep & _ & Hp). unfold pointer_value in *. rewrite Ep in *. unfold set_string. rewrite (proj2 (Z.ltb_lt _ _)) by done.
       rewrite (proj2 (Z.ltb_ge 0 0)) by lia. rewrite Hb. by rewrite padded_cut. }
  all: destruct Hs as (Hl4 & z & Ez & Hz); rewrite Hl4 in *; change (Z.to_nat 4) with 4%nat in Hb; rewrite Hb; rewrite Ez; unfold int_value; rewrite Ez;
    rewrite (int_bytes_encode 4); [done|lia|unfold is_int32, INT32_MAX, INT32_MIN in Hz; simpl; lia].
Qed.

(** The record while it is filled: [done_] bytes are there, the rest is to come. *)
Lemma put_values_ok fields : ∀ values ws o e row, laid_out fields o e → 0 ≤ o → e ≤ Z.of_nat (length row) →
  length ws = length values → length fields = length values →
  (∀ i f v w, fields !! i = Some f → values !! i = Some v → ws !! i = Some w → real_value f v = Some (RC_SUCCESS, w) ∧ storable f w) →
  ∃ row', put_values fields values row = Some (RC_SUCCESS, row') ∧ length row' = length row ∧ take (Z.to_nat o) row' = take (Z.to_nat o) row ∧
    ∀ i f w, fields !! i = Some f → ws !! i = Some w → field_bytes f row' = field_data f w.
Proof.
  induction fields as [|f fields IH]; intros values ws o e row Hlay Ho He Hvw Hlen Hall.
  { destruct values; [|done]. by exists row. }
  destruct values as [|v values]; [done|]. destruct ws as [|w ws']; [done|]. injection Hvw as Hvw. destruct Hlay as (Ef & Hl & Hlay).
  destruct (Hall 0%nat f v w eq_refl eq_refl eq_refl) as [Er Hst]. pose proof (laid_out_le _ _ _ Hlay) as Hle.
  destruct (put_field row f w Hst Hl ltac:(lia) ltac:(lia)) as (v' & Ers & Eset). pose proof (field_data_length f w Hst Hl) as Hdl.
  cbn [put_values]. rewrite Er. cbn [mbind option_bind]. change (OB_FAIL RC_SUCCESS) with false. cbv iota. rewrite Ers, Eset. change (OB_FAIL RC_SUCCESS) with false. cbn [mbind option_bind].
  set (row1 := splice row (Z.to_nat (attr_offset_ f)) (field_data f w)).
  assert (Hl1 : length row1 = length row) by (apply splice_length; lia).
  destruct (IH values ws' (o + attr_len_ f) e row1 Hlay ltac:(lia) ltac:(lia) Hvw) as (row' & E & Hl' & Ht & Hf); [by injection Hlen| |].
  { intros i g x y Hg Hx Hy. by apply (Hall (S i) g x y). }
  exists row'. split; [exact E|]. split; [lia|].
  assert (Hbytes : field_bytes f row' = field_data f w).
  { unfold field_bytes. assert (E2 : take (Z.to_nat (attr_len_ f)) (drop (Z.to_nat (attr_offset_ f)) row1) = field_data f w).
    { replace (Z.to_nat (attr_len_ f)) with (length (field_data f w)) by lia. apply splice_at. lia. }
    rewrite <- E2. rewrite !take_drop_commute. replace (Z.to_nat (attr_offset_ f) + Z.to_nat (attr_len_ f))%nat with (Z.to_nat (o + attr_len_ f)) by lia. by rewrite Ht. }
  split.
  - apply (f_equal (take (Z.to_nat o))) in Ht. rewrite !take_take, Nat.min_l in Ht by lia. rewrite Ht. unfold row1, splice. rewrite take_app_le by (rewrite length_take; lia).
    rewrite take_take. f_equal. lia.
  - intros [|i] g x Hg Hx; [by injection Hg as <-; injection Hx as <-|]. by apply (Hf i).
Qed.

Lemma laid_out_split fs k : ∀ a e, laid_out fs a e → ∃ o, laid_out (take k fs) a o ∧ laid_out (drop k fs) o e.
Proof.
  revert k. induction fs as [|f fs IH]; intros k a e Hl; [destruct k; by exists a|]. destruct k as [|k]; [by exists a|].
  destruct Hl as (Ef & Hf & Hl). destruct (IH k _ _ Hl) as (o & H1 & H2). by exists o.
Qed.

(** What is inserted is read: [make_record] makes a record of the size of the table of which every column, read as a cell of its
    tuple, is the value again; the fields of the transactions are 0. *)
Lemma make_record_ok m values ws : laid_out (fields_ m) 0 (record_size_ m) → (length values + sys_field_num m = length (fields_ m))%nat →
  Forall2 (λ f vw, real_value f vw.1 = Some (RC_SUCCESS, vw.2) ∧ storable f vw.2) (drop (sys_field_num m) (fields_ m)) (zip values ws) → length ws = length values →
  ∃ row, make_record m values = Some (RC_SUCCESS, Some row) ∧ Z.of_nat (length row) = record_size_ m ∧
    (∀ i f w table alias, fields_ m !! (sys_field_num m + i)%nat = Some f → ws !! i = Some w →
       row_cell_at (mkRowTuple row table (fields_ m) alias) (sys_field_num m + i) Value_new = Some (RC_SUCCESS, stored_value f w)) ∧
    ∀ f, f ∈ take (sys_field_num m) (fields_ m) → field_bytes f row = replicate (Z.to_nat (attr_len_ f)) 0.
Proof.
  intros Hlay Hnum Hall Hws. set (k := sys_field_num m) in *. pose proof (laid_out_le _ _ _ Hlay) as Hsize.
  assert (∃ o, laid_out (take k (fields_ m)) 0 o ∧ laid_out (drop k (fields_ m)) o (record_size_ m)) as (o & Hl1 & Hl2).
  { by apply laid_out_split. }
  pose proof (laid_out_le _ _ _ Hl1) as Ho. pose proof (laid_out_le _ _ _ Hl2) as Ho2.
  destruct (put_values_ok (drop k (fields_ m)) values ws o (record_size_ m) (replicate (Z.to_nat (record_size_ m)) 0) Hl2 Ho) as (row & E & Hlen & Htake & Hf).
  { rewrite length_replicate. lia. } { done. } { rewrite length_drop. lia. }
  { intros i f v w Hif Hiv Hiw. assert (Hz : zip values ws !! i = Some (v, w)) by (by rewrite lookup_zip_with, Hiv, Hiw).
    destruct (Forall2_lookup_lr _ _ _ _ _ _ Hall Hif Hz) as [? ?]. done. }
  exists row. unfold make_record. fold k. rewrite bool_decide_true by done. cbn [negb]. rewrite E. cbn [mbind option_bind]. change (OB_FAIL RC_SUCCESS) with false. cbv iota.
  rewrite length_replicate in Hlen. split; [done|]. split; [lia|]. split.
  - intros i f w table alias Hif Hiw. assert (Hd : drop k (fields_ m) !! i = Some f) by (by rewrite lookup_drop).
    unfold row_cell_at. cbn [rt_speces rt_record]. rewrite Hif.
    assert (Hz : ∃ v, zip values ws !! i = Some (v, w)).
    { destruct (lookup_lt_is_Some_2 values i) as [v Hv]; [apply lookup_lt_Some in Hiw; lia|]. exists v. by rewrite lookup_zip_with, Hv, Hiw. }
    destruct Hz as [v Hz]. destruct (Forall2_lookup_lr _ _ _ _ _ _ Hall Hd Hz) as [_ Hst]. cbn in Hst.
    destruct (laid_out_in _ _ _ f Hl2) as (_ & _ & Hfl); [by eapply list_elem_of_lookup_2|].
    by rewrite (read_field row f w Hst Hfl (Hf i f w Hd Hiw)).
  - intros f Hin. destruct (laid_out_in _ _ _ f Hl1 Hin) as (Hfo & Hfe & Hfl). unfold field_bytes. rewrite take_drop_commute.
    replace (Z.to_nat (attr_offset_ f) + Z.to_nat (attr_len_ f))%nat with (Nat.min (Z.to_nat (attr_offset_ f + attr_len_ f)) (Z.to_nat o)) by lia.
    rewrite <- take_take, Htake, !take_replicate, drop_replicate. f_equal. lia.
Qed.

(** *** Example: the columns [id int] and [name char(4)] behind the fields of the transactions *)

Definition ex_meta : TableMeta := match TableMeta_init 1 "t" (Some mvcc_trx_fields) [mkAttrInfo INTS "id" 4 false; mkAttrInfo CHARS "name" 4 true] 1 with
  Some (inr m) => m | _ => mkTableMeta 0 "" [] [] [] 0 0 end.
