(* ===== verification/InsertStmt.v ===== *)
(** * The check of INSERT ([sql/stmt/insert_stmt.*])

    Before an INSERT is executed its values are counted, cast to the types of the columns, padded to their lengths and checked
    for NULL.  What passes the check becomes a record in [make_record], from which the columns are read again.  Views are not modelled. *)
From Stdlib Require Import SpecFloat.
From stdpp Require Import strings.
From S2P Require Import Prelude Rc Serializer TableMeta Text Float Value Tuples MakeRecord.

(** ** Operations *)

(** [src/src/observer/sql/stmt/insert_stmt.cpp:59-69] [check_and_convert_rows] the value in the type of the column *)
Definition cast_for (field_meta : FieldMeta) (value : Value) : option (RC * Value) :=
  if negb (bool_decide (attr_type_ field_meta = v_type value)) then cast_to value (attr_type_ field_meta) (copy_value value)
  else Some (RC_SUCCESS, copy_value value).

(** [src/src/observer/sql/stmt/insert_stmt.cpp:51-77] [check_and_convert_rows] the loop over the columns of a row; [None] is a field
    number outside the row *)
Fixpoint convert_loop (fields : list FieldMeta) (value tmp_value : list Value) : option (RC * list Value) :=
  match fields, value with
  | [], _ => Some (RC_SUCCESS, tmp_value)
  | _, [] => None
  | f :: fields, v :: value =>
      if negb (nullable_ f) && is_null v then Some (RC_VARIABLE_NOT_VALID, tmp_value)
      else
        '(rc, tmp) ← cast_for f v;
        if negb (bool_decide (rc = RC_SUCCESS)) then Some (rc, tmp_value)
        else
          let '(rc, tmp) := resize tmp (attr_len_ f) in
          if negb (bool_decide (rc = RC_SUCCESS)) then Some (rc, tmp_value)
          else if (0 <=? field_id_ f) && (field_id_ f <? Z.of_nat (length tmp_value))
          then convert_loop fields value (<[Z.to_nat (field_id_ f) := copy_value tmp]> tmp_value) else None
  end.

(** [src/src/observer/sql/stmt/insert_stmt.cpp:80-87] [check_and_convert_rows] no NULL in a column that has to have a value *)
Fixpoint nulls_allowed (fields : list FieldMeta) (tmp_value : list Value) : option bool :=
  match fields, tmp_value with
  | [], _ => Some true
  | _, [] => None
  | f :: fields, v :: tmp_value => if negb (nullable_ f) && is_null v then Some false else nulls_allowed fields tmp_value
  end.

(** [src/src/observer/sql/stmt/insert_stmt.cpp:36-92] [check_and_convert_rows] the loop over the rows *)
Fixpoint check_rows (fields : list FieldMeta) (values : list (list Value)) : option (RC * list (list Value)) :=
  match values with
  | [] => Some (RC_SUCCESS, [])
  | value :: values =>
      if negb (bool_decide (length fields = length value)) then Some (RC_VARIABLE_NOT_VALID, [])
      else
        '(rc, tmp_value) ← convert_loop fields value (replicate (length fields) (copy_value NULL_VALUE));
        if negb (bool_decide (rc = RC_SUCCESS)) then Some (rc, [])
        else
          allowed ← nulls_allowed fields tmp_value;
          if negb allowed then Some (RC_VARIABLE_NOT_VALID, [])
          else '(rc, result) ← check_rows fields values; Some (rc, (copy_value <$> tmp_value) :: result)
  end.

(** [src/src/observer/sql/stmt/insert_stmt.cpp:26-93] [check_and_convert_rows] for a table *)
Definition check_and_convert_rows (table_meta : TableMeta) (values : list (list Value)) : option (RC * list (list Value)) :=
  check_rows (drop (sys_field_num table_meta) (fields_ table_meta)) values.

(** ** What passes the check *)

(** A value that is cast to [w], which the column can hold. *)
Definition cell_ok (f : FieldMeta) (v w : Value) : Prop :=
  cast_for f v = Some (RC_SUCCESS, w) ∧ storable f w ∧ copyable w ∧ 0 < attr_len_ f ∧ (nullable_ f = true ∨ is_null v = false ∧ is_null w = false).

(** The columns have the numbers of their places. *)
Definition numbered (fields : list FieldMeta) : Prop := ∀ i f, fields !! i = Some f → field_id_ f = Z.of_nat i.

Lemma convert_loop_ok fields vs ws : Forall3 cell_ok fields vs ws →
  ∀ done rest, (∀ i f, fields !! i = Some f → field_id_ f = Z.of_nat (length done + i)) → length rest = length fields →
  ∃ xs, convert_loop fields vs (done ++ rest) = Some (RC_SUCCESS, done ++ xs) ∧ Forall3 (λ f w x, kept f w x) fields ws xs.
Proof.
  induction 1 as [|f v w fields vs ws (Ec & Hst & Hcp & Hl & Hnull) _ IH]; intros done rest Hid Hlen.
  { destruct rest; [|done]. exists []. split; [done|constructor]. }
  destruct rest as [|r rest]; [done|]. injection Hlen as Hlen. pose proof (Hid 0%nat f eq_refl) as Hf.
  destruct (resize_data f w Hst Hl) as (x & Er & Hx). pose proof (sz_kept f w x Hx Hcp) as Hk.
  destruct (IH (done ++ [copy_value x]) rest) as (xs & E & Hxs); [|done|].
  { intros i g Hg. rewrite (Hid (S i) g Hg), length_app. cbn. lia. }
  exists (copy_value x :: xs). split; [|by constructor]. cbn [convert_loop].
  assert (negb (nullable_ f) && is_null v = false) as -> by (destruct Hnull as [-> |[-> _]]; [done|by rewrite andb_false_r]).
  rewrite Ec. cbn [mbind option_bind]. rewrite bool_decide_true by done. cbn [negb]. rewrite Er, bool_decide_true by done. cbn [negb].
  rewrite Hf. assert ((0 <=? Z.of_nat (length done + 0)) && (Z.of_nat (length done + 0) <? Z.of_nat (length (done ++ r :: rest))) = true) as ->.
  { rewrite length_app. cbn [length]. apply andb_true_intro. split; [apply Z.leb_le; lia|apply Z.ltb_lt; lia]. }
  rewrite Nat2Z.id, insert_app_r. cbn. rewrite <- !app_assoc in E. exact E.
Qed.

Lemma nulls_allowed_ok fields ws xs vs : Forall3 cell_ok fields vs ws → Forall3 (λ f w x, kept f w x) fields ws xs → nulls_allowed fields xs = Some true.
Proof.
  intros Hc. revert xs. induction Hc as [|f v w fields vs ws (_ & _ & _ & _ & Hnull) _ IH]; intros xs Hk; inversion Hk as [|? ? x ? ? xs' (_ & _ & _ & En & _) Hk']; subst; [done|].
  cbn [nulls_allowed]. rewrite En. assert (negb (nullable_ f) && is_null w = false) as -> by (destruct Hnull as [-> |[_ ->]]; [done|by rewrite andb_false_r]).
  by apply IH.
Qed.

Lemma kept_copies fields ws xs : Forall3 (λ f w x, kept f w x) fields ws xs → copy_value <$> xs = xs.
Proof. induction 1 as [|f w x fields ws xs (_ & _ & _ & _ & E) _ IH]; [done|]. cbn. by rewrite E, IH. Qed.

Lemma check_rows_ok fields values wss : numbered fields → Forall2 (λ vs ws, Forall3 cell_ok fields vs ws) values wss →
  ∃ result, check_rows fields values = Some (RC_SUCCESS, result) ∧ Forall2 (λ ws xs, Forall3 (λ f w x, kept f w x) fields ws xs) wss result.
Proof.
  intros Hid. induction 1 as [|vs ws values wss Hc _ IH]; [by exists []|]. destruct IH as (result & E & Hr).
  cbn [check_rows]. rewrite bool_decide_true by exact (Forall3_length_lm _ _ _ _ Hc). cbn [negb].
  destruct (convert_loop_ok fields vs ws Hc [] (replicate (length fields) (copy_value NULL_VALUE))) as (xs & Ex & Hx); [exact Hid|by rewrite length_replicate|].
  cbn [app] in Ex. rewrite Ex. cbn [mbind option_bind]. rewrite bool_decide_true by done. cbn [negb].
  rewrite (nulls_allowed_ok fields ws xs vs Hc Hx). cbn [mbind option_bind negb]. rewrite E. cbn [mbind option_bind]. rewrite (kept_copies _ _ _ Hx).
  exists (xs :: result). split; [done|]. by constructor.
Qed.

(** *** The records *)

(** The record has the values [ws] in its columns, read through its tuple, and zeros in the fields of the transactions. *)
Definition record_of (m : TableMeta) (ws : list Value) (row : list Z) : Prop :=
  Z.of_nat (length row) = record_size_ m ∧
  (∀ i f w table alias, fields_ m !! (sys_field_num m + i)%nat = Some f → ws !! i = Some w →
     row_cell_at (mkRowTuple row table (fields_ m) alias) (sys_field_num m + i) Value_new = Some (RC_SUCCESS, stored_value f w)) ∧
  ∀ f, f ∈ take (sys_field_num m) (fields_ m) → field_bytes f row = replicate (Z.to_nat (attr_len_ f)) 0.

Lemma real_value_kept f w x : kept f w x → real_value f x = Some (RC_SUCCESS, x).
Proof. intros ([Et _] & _ & _ & _ & Ec). unfold real_value. rewrite Et, bool_decide_true by done. cbn [negb]. by rewrite Ec. Qed.

Lemma checked_record m ws xs : laid_out (fields_ m) 0 (record_size_ m) → (sys_field_num m ≤ length (fields_ m))%nat →
  Forall3 (λ f w x, kept f w x) (drop (sys_field_num m) (fields_ m)) ws xs →
  ∃ row, make_record m xs = Some (RC_SUCCESS, Some row) ∧ record_of m ws row.
Proof.
  intros Hlay Hsys Hk. pose proof (Forall3_length_lr _ _ _ _ Hk) as Hl. rewrite length_drop in Hl.
  destruct (make_record_ok m xs xs Hlay) as (row & E & Hlen & Hcell & Hz); [lia| |done|].
  { clear Hl. induction Hk as [|f w x fields ws xs Hx _ IH]; constructor; [|done]. cbn. split; [by eapply real_value_kept|apply Hx]. }
  exists row. split; [done|]. split; [done|]. split; [|done]. intros i f w table alias Hf Hw.
  assert (Hd : drop (sys_field_num m) (fields_ m) !! i = Some f) by (by rewrite lookup_drop).
  destruct (Forall3_lookup_m _ _ _ _ i w Hk Hw) as (g & x & Hg & Hx & (_ & _ & Es & _)). assert (g = f) as -> by congruence.
  rewrite <- Es. by apply Hcell.
Qed.

(** C30: what is inserted is what is read.  When the values of an INSERT can be cast to the types of their columns, the columns can hold
    the results ([INTS], [FLOATS], [DATES] or [CHARS]) and no NULL is in a column that excludes it, the check passes; of every row
    it lets through [make_record] makes a record of the size of the table, of which every column, read through the
    tuple of the record, is the cast value again, strings cut off at the length of the column and NULL included. *)
Theorem insert_statement_roundtrip m values wss : laid_out (fields_ m) 0 (record_size_ m) → (sys_field_num m ≤ length (fields_ m))%nat →
  numbered (drop (sys_field_num m) (fields_ m)) → Forall2 (λ vs ws, Forall3 cell_ok (drop (sys_field_num m) (fields_ m)) vs ws) values wss →
  ∃ result, check_and_convert_rows m values = Some (RC_SUCCESS, result) ∧
    Forall2 (λ ws xs, ∃ row, make_record m xs = Some (RC_SUCCESS, Some row) ∧ record_of m ws row) wss result.
Proof.
  intros Hlay Hsys Hid Hall. destruct (check_rows_ok _ values wss Hid Hall) as (result & E & Hr). exists result. split; [exact E|].
  eapply Forall2_impl; [exact Hr|]. intros ws xs Hk. by apply checked_record.
Qed.

(** A column that has to have a value refuses NULL, and a row with the wrong number of values is refused. *)
Example null_is_refused : check_and_convert_rows ex_meta [[NULL_VALUE; set_int 1]] = Some (RC_VARIABLE_NOT_VALID, []).
Proof. by vm_compute. Qed.
Example wrong_number_is_refused : check_and_convert_rows ex_meta [[set_int 1]] = Some (RC_VARIABLE_NOT_VALID, []).
Proof. by vm_compute. Qed.

(** A number in a column of strings is cast, and the long string cut off; NULL is read as NULL. *)
Lemma insert_statement_roundtrip_witness :
  ∃ xs ys row row', check_and_convert_rows ex_meta [[set_int 42; set_int 123456]; [set_int 7; NULL_VALUE]] = Some (RC_SUCCESS, [xs; ys]) ∧
    make_record ex_meta xs = Some (RC_SUCCESS, Some row) ∧ make_record ex_meta ys = Some (RC_SUCCESS, Some row') ∧
    row_cell_at (mkRowTuple row "t" (fields_ ex_meta) "") 2 Value_new = Some (RC_SUCCESS, set_int 42) ∧
    row_cell_at (mkRowTuple row "t" (fields_ ex_meta) "") 3 Value_new = Some (RC_SUCCESS, set_string (Some [49; 50; 51; 52]) 4) ∧
    row_cell_at (mkRowTuple row' "t" (fields_ ex_meta) "") 3 Value_new = Some (RC_SUCCESS, set_string (Some []) 0).
Proof.
  assert (Ed : drop (sys_field_num ex_meta) (fields_ ex_meta) = [mkFieldMeta "id" INTS 8 4 true 0 false; mkFieldMeta "name" CHARS 12 4 true 1 true]) by by vm_compute.
  assert (Hint : ∀ z, is_int32 z → is_null (set_int z) = false → cell_ok (mkFieldMeta "id" INTS 8 4 true 0 false) (set_int z) (set_int z)).
  { intros z Hz Hn. split; [done|]. split; [split; [done|]; split; [done|]; by exists z|]. split; [done|]. split; [done|]. by right. }
  assert (Hstr : ∀ v p n o, Forall (λ c, c ≠ 0) (default [] p) → n = Z.of_nat (length (default [] p)) → (p ≠ None → o = true) →
    cast_for (mkFieldMeta "name" CHARS 12 4 true 1 true) v = Some (RC_SUCCESS, mkValue CHARS n (Chars p) o) →
    cell_ok (mkFieldMeta "name" CHARS 12 4 true 1 true) v (mkValue CHARS n (Chars p) o)).
  { intros v p n o Hp -> Ho E. split; [exact E|]. split; [split; [done|]; exists p; split; [done|]; split; [done|]; by apply padded_plain|].
    split; [|split; [done|by left]]. intros _ Hn. apply Ho. by destruct p. }
  destruct (insert_statement_roundtrip ex_meta [[set_int 42; set_int 123456]; [set_int 7; NULL_VALUE]]
    [[set_int 42; set_string (Some [49; 50; 51; 52; 53; 54]) 6]; [set_int 7; set_string None 0]]) as (result & E & Hr).
  - by vm_compute.
  - vm_compute. lia.
  - rewrite Ed. intros [|[|i]] f Hf; [by injection Hf as <-..|done].
  - rewrite Ed. constructor; [|constructor; [|constructor]]; (constructor; [apply Hint; by vm_compute|]); (constructor; [|constructor]).
    + apply Hstr; [by repeat constructor|done|done|by vm_compute].
    + apply Hstr; [constructor|done|done|by vm_compute].
  - destruct result as [|xs [|ys [|? ?]]]; [by inversion Hr|by inversion Hr as [|? ? ? ? _ Hr2]; inversion Hr2| |
      by inversion Hr as [|? ? ? ? _ Hr2]; inversion Hr2 as [|? ? ? ? _ Hr3]; inversion Hr3].
    apply Forall2_cons in Hr as [(row & E1 & _ & Hc & _) Hr]. apply Forall2_cons in Hr as [(row' & E2 & _ & Hc' & _) _].
    exists xs, ys, row, row'. split; [exact E|]. split; [exact E1|]. split; [exact E2|].
    assert (Es : sys_field_num ex_meta = 2%nat) by (by vm_compute). rewrite Es in Hc, Hc'.
    assert (E0 : fields_ ex_meta !! 2%nat = Some (mkFieldMeta "id" INTS 8 4 true 0 false)) by (by vm_compute).
    assert (E3 : fields_ ex_meta !! 3%nat = Some (mkFieldMeta "name" CHARS 12 4 true 1 true)) by (by vm_compute).
    split; [exact (Hc 0%nat _ _ "t"%string ""%string E0 eq_refl)|]. split; [exact (Hc 1%nat _ _ "t"%string ""%string E3 eq_refl)|].
    exact (Hc' 1%nat _ _ "t"%string ""%string E3 eq_refl).
Defined.
