(* ===== verification/Expression.v ===== *)
(** * Expressions ([sql/expr/expression.*])

    A bound expression is a tree that is evaluated on a tuple: columns, constants, casts, comparisons
    (with lists of values and subqueries), conjunctions and arithmetic.  The value is an out parameter,
    so evaluation takes the value there is and gives the one there will be.  The outer [None] is a failed
    [ASSERT] or undefined behaviour. *)
From Stdlib Require Import SpecFloat.
From stdpp Require Import strings.
From S2P Require Import Prelude Rc TableMeta Text Float Value Aggregator Tuples.

(** ** [LIKE] *)

Definition percent : Z := 37.
Definition underscore : Z := 95.

(** [src/src/observer/sql/expr/expression.cpp:59-65] [match_str] the inner loop: the entries after the first of the row for the character [pc]; [left] is the entry to the left. *)
Fixpoint match_row (pc : Z) (text : list Z) (prev : list bool) (left : bool) : list bool :=
  match text, prev with
  | tc :: text, diagonal :: ((above :: _) as prev) =>
      let b :=
        if (pc =? tc) || (pc =? underscore) then diagonal
        else if pc =? percent then above || left
        else false in
      b :: match_row pc text prev b
  | _, _ => []
  end.

(** [src/src/observer/sql/expr/expression.cpp:51-66] [match_str] the row for [pc] below the row [prev]. *)
Definition next_row (text : list Z) (prev : list bool) (pc : Z) : list bool :=
  let first := if pc =? percent then default false (head prev) else false in first :: match_row pc text prev first.

(** [src/src/observer/sql/expr/expression.cpp:37-69] [match_str] a row of the table needs only the row above *)
Definition match_str (pattern text : list Z) : bool :=
  default false (last (fold_left (next_row text) pattern (true :: replicate (length text) false))).

(** ** Expressions *)

(** [src/src/observer/sql/parser/parse_defs.h:60-77] [CompOp] *)
Inductive CompOp :=
  EQUAL_TO | LESS_EQUAL | NOT_EQUAL | LESS_THAN | GREAT_EQUAL | GREAT_THAN | EXISTS | NOT_EXISTS | IN | NOT_IN | IS | NOT_IS | LIKE | NOT_LIKE | NO_OP.
(** [src/src/observer/sql/expr/expression.h:392-396] [ConjunctionExpr::Type] *)
Inductive ConjunctionType := AND | OR.
(** [src/src/observer/sql/expr/expression.h:429-436] [ArithmeticExpr::Type] *)
Inductive ArithmeticType := ADD | SUB | MUL | DIV | NEGATIVE.

#[export] Instance CompOp_eq_dec : EqDecision CompOp.
Proof. solve_decision. Defined.
#[export] Instance ConjunctionType_eq_dec : EqDecision ConjunctionType.
Proof. solve_decision. Defined.
#[export] Instance ArithmeticType_eq_dec : EqDecision ArithmeticType.
Proof. solve_decision. Defined.

(** What an expression uses of the operator of its subquery, for a tuple of the outer query: the code of [open], the first
    columns of the rows that [next] gives, the code of [next] after them, the code of [close]. *)
Record SubOperator (T : Type) := mkSubOperator { so_open : T → RC; so_rows : T → list Value; so_end : T → RC; so_close : T → RC }.
#[global] Arguments mkSubOperator {T}.
#[global] Arguments so_open {T}.
#[global] Arguments so_rows {T}.
#[global] Arguments so_end {T}.
#[global] Arguments so_close {T}.

(** [src/src/observer/sql/expr/expression.h:45-61] [ExprType] and the fields of the classes; a column has the type of its field, an
    aggregation the state of its aggregator; vector functions are not in it *)
Inductive Expression (T : Type) :=
| StarExpr
| UnboundFieldExpr
| FieldExpr (table_name field_name alias : string) (field_type : AttrType)
| ValueExpr (value_ : Value)
| CastExpr (child_ : Expression T) (cast_type_ : AttrType)
| ComparisonExpr (comp_ : CompOp) (left_ : Expression T) (right_ : option (Expression T))
| ConjunctionExpr (conjunction_type_ : ConjunctionType) (children_ : list (Expression T))
| ArithmeticExpr (arithmetic_type_ : ArithmeticType) (left_ : Expression T) (right_ : option (Expression T))
| ValueList (value_list_ : list (Expression T))
| SubQuery (sub_physical_operator_ : SubOperator T)
| AggregateExpr (child_ : option (Expression T)) (aggregator_ : Aggregator).
#[global] Arguments StarExpr {T}.
#[global] Arguments UnboundFieldExpr {T}.
#[global] Arguments FieldExpr {T}.
#[global] Arguments ValueExpr {T}.
#[global] Arguments CastExpr {T}.
#[global] Arguments ComparisonExpr {T}.
#[global] Arguments ConjunctionExpr {T}.
#[global] Arguments ArithmeticExpr {T}.
#[global] Arguments ValueList {T}.
#[global] Arguments SubQuery {T}.
#[global] Arguments AggregateExpr {T}.

Section evaluation.
Variable stof : list Z → option float32.
Context {T : Type} `{Tuple T}.
Implicit Types (e left right : Expression T) (value cell : Value) (tuple : T).

(** [src/src/observer/sql/expr/expression.cpp:390-435] [ComparisonExpr::compare_value] *)
Definition compare_value (comp : CompOp) (left right : Value) (result : bool) : option (RC * bool) :=
  cmp_result ← compare stof left right;
  let has_null := is_null left || is_null right in
  Some (match comp with
  | EQUAL_TO => (RC_SUCCESS, (cmp_result =? 0) && negb has_null)
  | LESS_EQUAL => (RC_SUCCESS, (cmp_result <=? 0) && negb has_null)
  | NOT_EQUAL => (RC_SUCCESS, negb (cmp_result =? 0) && negb has_null)
  | LESS_THAN => (RC_SUCCESS, (cmp_result <? 0) && negb has_null)
  | GREAT_EQUAL => (RC_SUCCESS, (0 <=? cmp_result) && negb has_null)
  | GREAT_THAN => (RC_SUCCESS, (0 <? cmp_result) && negb has_null)
  | IS => (RC_SUCCESS, is_null left && is_null right)
  | NOT_IS => (RC_SUCCESS, negb (is_null left && is_null right))
  | LIKE => (RC_SUCCESS, match_str (to_string right) (to_string left) && negb has_null)
  | NOT_LIKE => (RC_SUCCESS, negb (match_str (to_string right) (to_string left)) && negb has_null)
  | _ => (RC_INTERNAL, false)
  end).

(** [src/src/observer/sql/expr/expression.cpp:198-207] [CastExpr::cast] *)
Definition cast (cast_type : AttrType) (value cast_value : Value) : option (RC * Value) :=
  if bool_decide (cast_type = v_type value) then Some (RC_SUCCESS, copy_value value) else cast_to value cast_type cast_value.

(** [src/src/observer/sql/expr/expression.cpp:711-728] [ArithmeticExpr::value_type] from the types of the operands *)
Definition arithmetic_value_type (type : ArithmeticType) (left : AttrType) (right : option AttrType) : AttrType :=
  match right with
  | None => left
  | Some r =>
      if bool_decide (left = INTS) && bool_decide (r = INTS) && negb (bool_decide (type = DIV)) then INTS
      else if bool_decide (left = VECTORS) && bool_decide (r = VECTORS) && negb (bool_decide (type = DIV)) then VECTORS
      else FLOATS
  end.

(** [src/src/observer/sql/expr/expression.h:120-120] [Expression::value_type] of the classes *)
Fixpoint value_type e : AttrType :=
  match e with
  | StarExpr | UnboundFieldExpr | ValueList _ | SubQuery _ => UNDEFINED
  | FieldExpr _ _ _ t => t
  | ValueExpr v => v_type v
  | CastExpr _ t => t
  | ComparisonExpr _ _ _ | ConjunctionExpr _ _ => BOOLEANS
  | AggregateExpr child a =>
      match ag_type a with
      | COUNT | COUNT_STAR => INTS
      | AVG => FLOATS
      | _ => match child with Some child => value_type child | None => UNDEFINED end
      end
  | ArithmeticExpr type l r => arithmetic_value_type type (value_type l) (match r with Some r => Some (value_type r) | None => None end)
  end.

(** [src/src/observer/sql/expr/expression.cpp:730-764] [ArithmeticExpr::calc_value] the codes of the operations are dropped *)
Definition calc_value (type : ArithmeticType) (target_type : AttrType) (left_value right_value value : Value) : option (RC * Value) :=
  let value := set_type value target_type in
  '(_, value) ←
    match type with
    | ADD => value_add stof left_value right_value value
    | SUB => value_subtract stof left_value right_value value
    | MUL => value_multiply stof left_value right_value value
    | DIV => value_divide stof left_value right_value value
    | NEGATIVE => value_negative stof left_value value
    end;
  Some (RC_SUCCESS, value).

(** *** Lists of values and subqueries *)

(** A list of values or a subquery for a tuple: what [open], the calls of [next] and [close] give. *)
Record Cursor := mkCursor { c_open : RC; c_items : list (Value → option (RC * Value)); c_end : Value → RC * Value; c_close : RC }.

(** [src/src/observer/sql/expr/expression.cpp:1070-1137] [SubQuery_ValueList_Expression::open], [close] and [get_value] of a subquery *)
Definition subquery_cursor (o : SubOperator T) tuple : Cursor :=
  mkCursor (so_open o tuple) ((λ v _, Some (RC_SUCCESS, v)) <$> so_rows o tuple)
    (λ v, (so_end o tuple, if bool_decide (so_end o tuple = RC_RECORD_EOF) then NULL_VALUE else v)) (so_close o tuple).
(** [src/src/observer/sql/expr/expression.cpp:1123-1134] [SubQuery_ValueList_Expression::get_value] of a list; a value that cannot be
    computed stays the next one, but every user stops there *)
Definition list_cursor (items : list (Value → option (RC * Value))) : Cursor := mkCursor RC_SUCCESS items (λ v, (RC_RECORD_EOF, v)) RC_SUCCESS.

(** The first call of [next] and what is left. *)
Definition cursor_next (items : list (Value → option (RC * Value))) (end_ : Value → RC * Value) value : option (RC * Value) :=
  match items with [] => Some (end_ value) | item :: _ => item value end.

(** [src/src/observer/sql/expr/expression.cpp:473-502] [ComparisonExpr::get_value] of [EXISTS] *)
Definition exists_value (comp : CompOp) (c : Cursor) value : option (RC * Value) :=
  if negb (bool_decide (c_open c = RC_SUCCESS)) then Some (c_open c, value)
  else
    '(rc, value) ← cursor_next (c_items c) (c_end c) value;
    if negb (bool_decide (rc = RC_SUCCESS)) && negb (bool_decide (rc = RC_RECORD_EOF)) then Some (rc, value)
    else
      let exists_ := negb (bool_decide (rc = RC_RECORD_EOF)) in
      if negb (bool_decide (c_close c = RC_SUCCESS)) then Some (c_close c, value)
      else Some (c_close c, set_boolean value (if bool_decide (comp = EXISTS) then exists_ else negb exists_)).

(** [src/src/observer/sql/expr/expression.cpp:522-528] [ComparisonExpr::get_value] the loop of [IN]: the last code and whether the value was found. *)
Fixpoint in_loop (left_value : Value) (items : list (Value → option (RC * Value))) (end_ : Value → RC * Value) (right_value : Value) : option (RC * bool) :=
  match items with
  | [] => Some ((end_ right_value).1, false)
  | item :: items =>
      '(rc, right_value) ← item right_value;
      if negb (bool_decide (rc = RC_SUCCESS)) then Some (rc, false)
      else
        n ← compare stof left_value right_value;
        if n =? 0 then Some (RC_SUCCESS, true) else in_loop left_value items end_ right_value
  end.

(** [src/src/observer/sql/expr/expression.cpp:504-546] [ComparisonExpr::get_value] of [IN] *)
Definition in_value (comp : CompOp) (left : Value → option (RC * Value)) (c : Cursor) value : option (RC * Value) :=
  '(rc, left_value) ← left Value_new;
  if negb (bool_decide (rc = RC_SUCCESS)) then Some (rc, value)
  else if negb (bool_decide (c_open c = RC_SUCCESS)) then Some (c_open c, value)
  else
    '(rc, in_) ← in_loop left_value (c_items c) (c_end c) Value_new;
    if negb (bool_decide (rc = RC_SUCCESS)) && negb (bool_decide (rc = RC_RECORD_EOF)) then Some (rc, value)
    else if negb (bool_decide (c_close c = RC_SUCCESS)) then Some (c_close c, value)
    else Some (c_close c, set_boolean value (if bool_decide (comp = IN) then in_ else negb in_)).

(** [src/src/observer/sql/expr/expression.cpp:548-581] [get_value_from_subquery] of a list or subquery: one value *)
Definition single_value (c : Cursor) value : option (RC * Value) :=
  if negb (bool_decide (c_open c = RC_SUCCESS)) then Some (c_open c, value)
  else
    '(rc, value) ← cursor_next (c_items c) (c_end c) value;
    if bool_decide (rc = RC_RECORD_EOF) then Some (rc, NULL_VALUE)
    else if negb (bool_decide (rc = RC_SUCCESS)) then Some (rc, value)
    else
      '(rc, _) ← cursor_next (tail (c_items c)) (c_end c) Value_new;
      Some ((if bool_decide (rc = RC_RECORD_EOF) then RC_SUCCESS else RC_INVALID_ARGUMENT), value).

(** *** Evaluation *)

(** What a node does for its parent: [get_value], and the cursor of a list or subquery, which has no value by itself before it
    is opened. *)
Record Meaning := mkMeaning { m_get : Value → option (RC * Value); m_cursor : option Cursor }.
Definition plain_meaning (get : Value → option (RC * Value)) : Meaning := mkMeaning get None.

(** A side of a comparison. *)
Definition side_value (m : Meaning) value : option (RC * Value) :=
  match m_cursor m with Some c => single_value c value | None => m_get m value end.

(** [src/src/observer/sql/expr/expression.cpp:458-604] [ComparisonExpr::get_value] *)
Definition comparison_value (comp : CompOp) (left : Meaning) (right : option Meaning) value : option (RC * Value) :=
  match comp with
  | EXISTS | NOT_EXISTS => match right, m_cursor left with None, Some c => exists_value comp c value | _, _ => None end
  | IN | NOT_IN =>
      match right with
      | Some r => match m_cursor r, m_cursor left with Some c, None => in_value comp (m_get left) c value | _, _ => None end
      | None => None
      end
  | _ =>
      r ← right;
      '(rc, left_value) ← side_value left Value_new;
      if negb (bool_decide (rc = RC_SUCCESS)) then Some (rc, value)
      else
        '(rc, right_value) ← side_value r Value_new;
        if negb (bool_decide (rc = RC_SUCCESS)) then Some (rc, value)
        else
          '(rc, b) ← compare_value comp left_value right_value false;
          Some (rc, if bool_decide (rc = RC_SUCCESS) then set_boolean value b else value)
  end.

(** [src/src/observer/sql/expr/expression.cpp:670-686] [ConjunctionExpr::get_value] the loop over the children *)
Fixpoint conjunction_loop (type : ConjunctionType) (children : list (Value → option (RC * Value))) (tmp_value value : Value) : option (RC * Value) :=
  match children with
  | [] => Some (RC_SUCCESS, set_boolean value (bool_decide (type = AND)))
  | child :: children =>
      '(rc, tmp_value) ← child tmp_value;
      if negb (bool_decide (rc = RC_SUCCESS)) then Some (rc, value)
      else
        let b := get_boolean tmp_value in
        if (bool_decide (type = AND) && negb b) || (bool_decide (type = OR) && b) then Some (RC_SUCCESS, set_boolean value b)
        else conjunction_loop type children tmp_value value
  end.

(** [src/src/observer/sql/expr/expression.cpp:662-687] [ConjunctionExpr::get_value] *)
Definition conjunction_value (type : ConjunctionType) (children : list (Value → option (RC * Value))) value : option (RC * Value) :=
  match children with [] => Some (RC_SUCCESS, set_boolean value true) | _ => conjunction_loop type children Value_new value end.

(** [src/src/observer/sql/expr/expression.cpp:834-865] [ArithmeticExpr::get_value] *)
Definition arithmetic_value (type : ArithmeticType) (target_type : AttrType) (left : Value → option (RC * Value))
    (right : option (Value → option (RC * Value))) value : option (RC * Value) :=
  '(rc, left_value) ← left Value_new;
  if negb (bool_decide (rc = RC_SUCCESS)) then Some (rc, value)
  else match type, right with
  | NEGATIVE, _ => value_negative stof left_value (set_type value (v_type left_value))
  | _, None => None
  | _, Some r =>
      '(rc, right_value) ← r Value_new;
      if negb (bool_decide (rc = RC_SUCCESS)) then Some (rc, value) else calc_value type target_type left_value right_value value
  end.

(** [src/src/observer/sql/expr/expression.cpp:209-218] [CastExpr::get_value] also [FieldExpr::get_value] (71-74) and [ValueExpr::get_value]
    (180-184); the other classes through the functions above *)
Fixpoint meaning e tuple : Meaning :=
  match e with
  | StarExpr => plain_meaning (λ value, Some (RC_UNIMPLEMENTED, value))
  | UnboundFieldExpr => plain_meaning (λ value, Some (RC_INTERNAL, value))
  | FieldExpr table field alias _ => plain_meaning (find_cell tuple (TupleCellSpec_new table field alias))
  | ValueExpr v => plain_meaning (λ _, Some (RC_SUCCESS, copy_value v))
  | CastExpr child t =>
      plain_meaning (λ result, '(rc, value) ← m_get (meaning child tuple) Value_new;
        if negb (bool_decide (rc = RC_SUCCESS)) then Some (rc, result) else cast t value result)
  | ComparisonExpr comp l r => plain_meaning (comparison_value comp (meaning l tuple) (match r with Some r => Some (meaning r tuple) | None => None end))
  | ConjunctionExpr type children => plain_meaning (conjunction_value type (map (λ c, m_get (meaning c tuple)) children))
  | ArithmeticExpr type l r =>
      plain_meaning (arithmetic_value type (value_type e) (m_get (meaning l tuple)) (match r with Some r => Some (m_get (meaning r tuple)) | None => None end))
  | ValueList es => mkMeaning (λ _, None) (Some (list_cursor (map (λ c, m_get (meaning c tuple)) es)))
  | SubQuery o => mkMeaning (λ _, None) (Some (subquery_cursor o tuple))
  | AggregateExpr _ a => plain_meaning (agg_evaluate stof a)
  end.

(** [src/src/observer/sql/expr/expression.h:93-93] [Expression::get_value] *)
Definition get_value e tuple value : option (RC * Value) := m_get (meaning e tuple) value.

(** [src/src/observer/sql/expr/expression.cpp:1015-1039] [AggregateExpr::accumulate] *)
Definition accumulate (child : option (Expression T)) (a : Aggregator) tuple : option (RC * Aggregator) :=
  match child with
  | None => '(_, tmp) ← cell_at tuple 0%nat Value_new; a ← agg_accumulate stof a tmp; Some (RC_SUCCESS, a)
  | Some child =>
      '(rc, tmp) ← get_value child tuple Value_new;
      if negb (bool_decide (rc = RC_SUCCESS)) then Some (rc, a) else a ← agg_accumulate stof a tmp; Some (RC_SUCCESS, a)
  end.

(** [src/src/observer/sql/expr/expression.cpp:437-456] [ComparisonExpr::try_get_value] *)
Definition comparison_try (comp : CompOp) left (right : option (Expression T)) cell : option (RC * Value) :=
  match left, right with
  | ValueExpr l, Some (ValueExpr r) =>
      '(rc, b) ← compare_value comp l r false; Some (rc, if bool_decide (rc = RC_SUCCESS) then set_boolean cell b else cell)
  | _, None => match left with ValueExpr _ => None | _ => Some (RC_INVALID_ARGUMENT, cell) end
  | _, _ => Some (RC_INVALID_ARGUMENT, cell)
  end.

(** [src/src/observer/sql/expr/expression.h:100-100] [Expression::try_get_value] of the classes *)
Fixpoint try_get_value e value : option (RC * Value) :=
  match e with
  | ValueExpr v => Some (RC_SUCCESS, copy_value v)
  | CastExpr child t =>
      '(rc, v) ← try_get_value child Value_new;
      if negb (bool_decide (rc = RC_SUCCESS)) then Some (rc, value) else cast t v value
  | ComparisonExpr comp l r => comparison_try comp l r value
  | ArithmeticExpr type l r =>
      '(rc, left_value) ← try_get_value l Value_new;
      if negb (bool_decide (rc = RC_SUCCESS)) then Some (rc, value)
      else
        '(rc, right_value) ← match r with Some r => try_get_value r Value_new | None => Some (RC_SUCCESS, Value_new) end;
        if negb (bool_decide (rc = RC_SUCCESS)) then Some (rc, value) else calc_value type (value_type e) left_value right_value value
  | _ => Some (RC_UNIMPLEMENTED, value)
  end.
End evaluation.
