(* ===== verification/Like.v ===== *)
(** * The meaning of [LIKE]

    The table of [match_str] against the language of a pattern: an underscore is any character, a percent
    sign any text. *)
From S2P Require Import Prelude Expression.

(** The texts of a pattern. *)
Inductive Like : list Z → list Z → Prop :=
| Like_nil : Like [] []
| Like_char c p t : c ≠ percent → c ≠ underscore → Like p t → Like (c :: p) (c :: t)
| Like_any c p t : Like p t → Like (underscore :: p) (c :: t)
| Like_many p t1 t2 : Like p t2 → Like (percent :: p) (t1 ++ t2).
#[export] Hint Constructors Like : core.

Lemma Like_app p1 t1 p2 t2 : Like p1 t1 → Like p2 t2 → Like (p1 ++ p2) (t1 ++ t2).
Proof. intros H1 H2. induction H1; cbn; [done|by constructor|by constructor|]. rewrite <- app_assoc. by constructor. Qed.

Lemma Like_one p t c d : Like p t → c = d ∨ c = underscore → Like (c :: p) (d :: t).
Proof.
  intros H Hc. destruct (decide (c = underscore)) as [->|Hu]; [by constructor|]. destruct Hc as [<-|]; [|done].
  destruct (decide (c = percent)) as [->|Hp]; [by apply (Like_many p [percent] t)|by constructor].
Qed.

Lemma Like_many_one p d t : Like p (d :: t) ∨ Like (percent :: p) t → Like (percent :: p) (d :: t).
Proof.
  intros [H|H]; [by apply (Like_many p [] (d :: t))|]. inversion H as [|c p' t' Hc|c p' t'|p' t1 t2 H'].
  - done.
  - by apply (Like_many p (d :: t1) t2).
Qed.

Lemma Like_rev p t : Like p t → Like (rev p) (rev t).
Proof.
  induction 1 as [|c p t Hp Hu _ IH|c p t _ IH|p t1 t2 _ IH]; cbn; [done| | |]; try (apply Like_app; [done|]; by repeat constructor).
  rewrite rev_app_distr. apply Like_app; [done|]. rewrite <- (app_nil_r (rev t1)). by repeat constructor.
Qed.

(** The entry of the table for the reversed beginnings of the pattern and of the text. *)
Fixpoint entry (p : list Z) : list Z → bool :=
  match p with
  | [] => λ t, match t with [] => true | _ => false end
  | c :: p =>
      fix entry_text t :=
        match t with
        | [] => if c =? percent then entry p [] else false
        | d :: t' => if (c =? d) || (c =? underscore) then entry p t' else if c =? percent then entry p t || entry_text t' else false
        end
  end.

(** A row of the table from the column of the beginning [acc] on. *)
Fixpoint table_row (p acc t : list Z) : list bool := entry p acc :: match t with [] => [] | c :: t => table_row p (c :: acc) t end.

Lemma match_row_entry pc p t acc :
  match_row pc t (table_row p acc t) (entry (pc :: p) acc) = match t with [] => [] | c :: t => table_row (pc :: p) (c :: acc) t end.
Proof.
  revert acc. induction t as [|c t IH]; intros acc; [done|]. specialize (IH (c :: acc)).
  destruct t as [|d t]; cbn -[entry] in *; [done|]. rewrite <- IH. done.
Qed.

Lemma next_row_entry pc p t : next_row t (table_row p [] t) pc = table_row (pc :: p) [] t.
Proof. unfold next_row. pose proof (match_row_entry pc p t []) as E. destruct t; cbn in *; f_equal; exact E. Qed.

Lemma table_rows pattern p t : fold_left (next_row t) pattern (table_row p [] t) = table_row (rev pattern ++ p) [] t.
Proof. revert p. induction pattern as [|c pattern IH]; intros p; cbn; [done|]. by rewrite next_row_entry, IH, <- app_assoc. Qed.

Lemma false_row c acc t : table_row [] (c :: acc) t = replicate (S (length t)) false.
Proof. revert c acc. induction t as [|d t IH]; intros c acc; [done|]. cbn. by rewrite IH. Qed.

Lemma first_row t : true :: replicate (length t) false = table_row [] [] t.
Proof. destruct t as [|d t]; [done|]. cbn. by rewrite false_row. Qed.

Lemma last_entry p acc t : last (table_row p acc t) = Some (entry p (rev t ++ acc)).
Proof. revert acc. induction t as [|c t IH]; intros acc; [done|]. specialize (IH (c :: acc)). cbn. rewrite <- app_assoc. cbn. by destruct t. Qed.

Lemma match_str_entry pattern text : match_str pattern text = entry (rev pattern) (rev text).
Proof. unfold match_str. rewrite first_row, table_rows, last_entry, !app_nil_r. done. Qed.

Lemma entry_cons c p d t : entry (c :: p) (d :: t) =
  if (c =? d) || (c =? underscore) then entry p t else if c =? percent then entry p (d :: t) || entry (c :: p) t else false.
Proof. done. Qed.

Lemma entry_percent p d t : d ≠ percent → entry (percent :: p) (d :: t) = entry p (d :: t) || entry (percent :: p) t.
Proof. intros Hd. rewrite entry_cons. rewrite (proj2 (Z.eqb_neq percent d)) by done. done. Qed.

(** An entry that is set is right; it is set whenever it should be, if no percent sign is in the text. *)
Lemma entry_sound p t : entry p t = true → Like p t.
Proof.
  revert t. induction p as [|c p IHp]; intros t; [by destruct t|]. induction t as [|d t IHt].
  - cbn. case_bool; [|done]. intros H%IHp. subst c. by apply (Like_many p [] []).
  - cbn. destruct ((c =? d) || (c =? underscore)) eqn:Ec.
    + intros H%IHp. apply Like_one; [done|]. apply orb_true_iff in Ec as [?%Z.eqb_eq|?%Z.eqb_eq]; auto.
    + case_bool; [|done]. subst c. intros [H|H]%orb_true_iff; apply Like_many_one; auto.
Qed.

Lemma entry_complete p t : percent ∉ t → Like p t → entry p t = true.
Proof.
  intros Ht H. induction H as [|c p t Hp Hu _ IH|c p t _ IH|p t1 t2 H IH].
  - done.
  - rewrite entry_cons, Z.eqb_refl. apply IH. set_solver.
  - rewrite entry_cons, Z.eqb_refl, orb_true_r. apply IH. set_solver.
  - assert (Ht2 : percent ∉ t2) by set_solver. specialize (IH Ht2). induction t1 as [|d t1 IHt].
    + destruct t2 as [|d t2]; [done|]. cbn [app]. rewrite entry_percent by set_solver. by rewrite IH.
    + cbn [app]. rewrite entry_percent by set_solver. rewrite orb_true_iff. right. apply IHt. set_solver.
Qed.

(** C32: [LIKE].  A text that [match_str] accepts is a text of the pattern; a text of the pattern is accepted if no
    percent sign is in the text.  With one it may be refused: a percent sign in the pattern that meets one in the
    text is not tried as a longer text, so [%] does not match [a%]. *)
Theorem like_matches :
  (∀ pattern text, match_str pattern text = true → Like pattern text) ∧
  (∀ pattern text, percent ∉ text → Like pattern text → match_str pattern text = true) ∧
  (Like [percent] [97; percent] ∧ match_str [percent] [97; percent] = false).
Proof.
  split_and!.
  - intros pattern text. rewrite match_str_entry. intros H%entry_sound%Like_rev. by rewrite !rev_involutive in H.
  - intros pattern text Ht H%Like_rev. rewrite match_str_entry. apply entry_complete; [|done]. by rewrite list_elem_of_In, <- in_rev, <- list_elem_of_In.
  - by apply (Like_many [] [97; percent] []).
  - done.
Qed.

Example ex_like : match_str [97; percent; underscore; 98] [97; 98; 98; 98] = true ∧ match_str [97; underscore] [97] = false.
Proof. by vm_compute. Qed.
