(* ===== verification/Operators.v ===== *)
(** * Physical operators ([sql/operator/*_physical_operator.*])

    The operators of a query pull tuples from the operators below them: scans of tables, filters, nested
    loop joins and projections.  [PhysicalOperator] is the interface; [delivers] is what an operator promises
    to the one above it, and every operator keeps the promise if the operators below it do.
    The loops run on fuel, which has to be more than the number of tuples. *)
From Stdlib Require Import SpecFloat.
From stdpp Require Import strings.
From S2P Require Import Prelude Rc TableMeta Text Float Value Aggregator Tuples Expression.

(** ** The interface *)

(** [src/src/observer/sql/operator/physical_operator.h:84-89] [PhysicalOperator] [current_tuple] is [None] for a null pointer; the
    outer [None] of the others is a failed [ASSERT], or the end of the fuel *)
Class PhysicalOperator (O X : Type) := {
  op_open : O → option (RC * O);
  op_next : O → option (RC * O);
  op_close : O → option (RC * O);
  op_current_tuple : O → option X;
}.

(** The states of an operator that gives the tuples [rows]: closed, open with the tuples that are still to come, and after
    the last. *)
Record Delivery {O X} `{PhysicalOperator O X} (rows : list X) (closed : O → Prop) (at_ : O → list X → Prop) (over : O → Prop) : Prop := {
  dl_open o : closed o → ∃ o', op_open o = Some (RC_SUCCESS, o') ∧ at_ o' rows;
  dl_row o x xs : at_ o (x :: xs) → ∃ o', op_next o = Some (RC_SUCCESS, o') ∧ op_current_tuple o' = Some x ∧ at_ o' xs;
  dl_end o : at_ o [] → ∃ o', op_next o = Some (RC_RECORD_EOF, o') ∧ over o';
  dl_close_at o xs : at_ o xs → ∃ o', op_close o = Some (RC_SUCCESS, o') ∧ closed o';
  dl_close_over o : over o → ∃ o', op_close o = Some (RC_SUCCESS, o') ∧ closed o';
}.

(** Whenever it is opened, the operator gives [rows] one after the other and then [RECORD_EOF]; it can be closed at any time, and
    opened again. *)
Definition delivers {O X} `{PhysicalOperator O X} (o : O) (rows : list X) : Prop :=
  ∃ closed at_ over, Delivery rows closed at_ over ∧ closed o.

(** The loop of a client: the tuples until [next] fails, and its code. *)
Fixpoint collect {O X} `{PhysicalOperator O X} (fuel : nat) (o : O) : option (list X * RC * O) :=
  match fuel with
  | O => None
  | S fuel =>
      '(rc, o) ← op_next o;
      if bool_decide (rc = RC_SUCCESS) then
        x ← op_current_tuple o;
        '(xs, rc, o) ← collect fuel o;
        Some (x :: xs, rc, o)
      else Some ([], rc, o)
  end.

Lemma collect_ok {O X} `{PhysicalOperator O X} rows closed at_ over fuel : Delivery rows closed at_ over →
  ∀ o xs, at_ o xs → (length xs < fuel)%nat → ∃ o', collect fuel o = Some (xs, RC_RECORD_EOF, o') ∧ over o'.
Proof.
  intros D. induction fuel as [|fuel IH]; intros o xs Hat Hf; [lia|]. cbn [collect]. destruct xs as [|x xs].
  - destruct (dl_end _ _ _ _ D o Hat) as (o' & -> & Ho). cbn [mbind option_bind]. rewrite bool_decide_false by done. by exists o'.
  - destruct (dl_row _ _ _ _ D o x xs Hat) as (o' & -> & Ec & Ho). cbn [mbind option_bind]. rewrite bool_decide_true by done. rewrite Ec.
    cbn [mbind option_bind]. cbn in Hf. destruct (IH o' xs Ho ltac:(lia)) as (o2 & -> & Ho2). by exists o2.
Qed.

(** ** Scan of a table *)

(** What the scan needs of [RecordFileScanner]: the records, with their positions. *)
Class RecordScanner (S : Type) := {
  scanner_open : S → option (RC * S);
  scanner_next : S → option (RC * S * option (list Z));
  scanner_close : S → option (RC * S);
}.

(** A scanner that gives the records [rows]. *)
Record ScannerDelivery {S} `{RecordScanner S} (rows : list (list Z)) (closed : S → Prop) (at_ : S → list (list Z) → Prop) (over : S → Prop) : Prop := {
  sd_open s : closed s → ∃ s', scanner_open s = Some (RC_SUCCESS, s') ∧ at_ s' rows;
  sd_row s x xs : at_ s (x :: xs) → ∃ s', scanner_next s = Some (RC_SUCCESS, s', Some x) ∧ at_ s' xs;
  sd_end s : at_ s [] → ∃ s', scanner_next s = Some (RC_RECORD_EOF, s', None) ∧ over s';
  sd_close_at s xs : at_ s xs → ∃ s', scanner_close s = Some (RC_SUCCESS, s') ∧ closed s';
  sd_close_over s : over s → ∃ s', scanner_close s = Some (RC_SUCCESS, s') ∧ closed s';
}.

Section operators.
Variable stof : list Z → option float32.
Variable fuel : nat.

Section table_scan.
Context {S : Type} `{RecordScanner S}.

(** [src/src/observer/sql/operator/table_scan_physical_operator.h:56-62] [TableScanPhysicalOperator] the table by its name and fields *)
Record TableScan := mkTableScan {
  ts_table : string;
  ts_fields : list FieldMeta;
  ts_alias : string;
  ts_predicates : list (Expression QTuple);
  ts_scanner : S;
  ts_record : option (list Z);
  ts_speces : list FieldMeta;
  ts_tuple_alias : string;
}.
Implicit Types (o : TableScan).

Definition ts_with o (s : S) (record : option (list Z)) : TableScan :=
  mkTableScan (ts_table o) (ts_fields o) (ts_alias o) (ts_predicates o) s record (ts_speces o) (ts_tuple_alias o).

(** [src/src/observer/sql/operator/table_scan_physical_operator.cpp:22-39] [TableScanPhysicalOperator::open] the check of a predicate always
    succeeds and replaces the code of the scanner *)
Definition table_scan_open o : option (RC * TableScan) :=
  '(rc, s) ← scanner_open (ts_scanner o);
  let o' :=
    if bool_decide (rc = RC_SUCCESS)
    then mkTableScan (ts_table o) (ts_fields o) (ts_alias o) (ts_predicates o) s (ts_record o) (ts_fields o) (ts_alias o)
    else ts_with o s (ts_record o) in
  Some (match ts_predicates o with [] => rc | _ => RC_SUCCESS end, o').

(** [src/src/observer/sql/operator/table_scan_physical_operator.cpp:68-72] [TableScanPhysicalOperator::current_tuple] *)
Definition table_scan_tuple o : option QTuple :=
  d ← ts_record o; Some (Row (mkRowTuple d (ts_table o) (ts_speces o) (ts_tuple_alias o))).

(** [src/src/observer/sql/operator/table_scan_physical_operator.cpp:81-100] [TableScanPhysicalOperator::filter] *)
Fixpoint scan_filter (predicates : list (Expression QTuple)) (tuple : QTuple) (value : Value) : option (RC * bool) :=
  match predicates with
  | [] => Some (RC_SUCCESS, true)
  | expr :: predicates =>
      '(rc, value) ← get_value stof expr tuple value;
      if negb (bool_decide (rc = RC_SUCCESS)) then Some (rc, false)
      else if negb (get_boolean value) then Some (rc, false) else scan_filter predicates tuple value
  end.

(** [src/src/observer/sql/operator/table_scan_physical_operator.cpp:41-64] [TableScanPhysicalOperator::next] *)
Fixpoint table_scan_next (fuel : nat) o : option (RC * TableScan) :=
  match fuel with
  | O => None
  | Datatypes.S fuel =>
      '(rc, s, rec) ← scanner_next (ts_scanner o);
      if negb (bool_decide (rc = RC_SUCCESS)) then Some (rc, ts_with o s (ts_record o))
      else
        let o := ts_with o s rec in
        tuple ← table_scan_tuple o;
        '(rc, filter_result) ← scan_filter (ts_predicates o) tuple Value_new;
        if negb (bool_decide (rc = RC_SUCCESS)) then Some (rc, o)
        else if filter_result : bool then Some (rc, o) else table_scan_next fuel o
  end.

(** [src/src/observer/sql/operator/table_scan_physical_operator.cpp:66-66] [TableScanPhysicalOperator::close] *)
Definition table_scan_close o : option (RC * TableScan) :=
  '(rc, s) ← scanner_close (ts_scanner o); Some (rc, ts_with o s (ts_record o)).

#[export] Instance table_scan : PhysicalOperator TableScan QTuple :=
  {| op_open := table_scan_open; op_next := table_scan_next fuel; op_close := table_scan_close; op_current_tuple := table_scan_tuple |}.

(** The tuple of a record. *)
Definition row_of o (d : list Z) : QTuple := Row (mkRowTuple d (ts_table o) (ts_fields o) (ts_alias o)).

(** A scan gives the records that satisfy the predicates. *)
Lemma table_scan_delivers o rows keep : (∃ closed at_ over, ScannerDelivery rows closed at_ over ∧ closed (ts_scanner o)) →
  (length rows < fuel)%nat →
  (∀ d, d ∈ rows → scan_filter (ts_predicates o) (row_of o d) Value_new = Some (RC_SUCCESS, keep d)) →
  delivers o (row_of o <$> List.filter keep rows).
Proof.
  intros (closed & at_ & over & D & Hc) Hf Hk.
  set (same o' := ts_table o' = ts_table o ∧ ts_fields o' = ts_fields o ∧ ts_alias o' = ts_alias o ∧ ts_predicates o' = ts_predicates o).
  set (opened o' := same o' ∧ ts_speces o' = ts_fields o ∧ ts_tuple_alias o' = ts_alias o).
  exists (λ o', same o' ∧ closed (ts_scanner o')),
    (λ o' xs, opened o' ∧ ∃ ds, ds ⊆ rows ∧ (length ds < fuel)%nat ∧ at_ (ts_scanner o') ds ∧ xs = row_of o <$> List.filter keep ds),
    (λ o', same o' ∧ over (ts_scanner o')).
  assert (Hnext : ∀ n o' ds, opened o' → ds ⊆ rows → (length ds < n)%nat → at_ (ts_scanner o') ds →
    match List.filter keep ds with
    | [] => ∃ o2, table_scan_next n o' = Some (RC_RECORD_EOF, o2) ∧ same o2 ∧ over (ts_scanner o2)
    | d :: xs => ∃ o2 ds', table_scan_next n o' = Some (RC_SUCCESS, o2) ∧ opened o2 ∧ ts_record o2 = Some d ∧ at_ (ts_scanner o2) ds' ∧ ds' ⊆ rows ∧
        (length ds' < length ds)%nat ∧ List.filter keep ds' = xs
    end).
  { induction n as [|n IH]; intros o' ds Ho Hsub Hlen Hat; [lia|]. pose proof Ho as ((Et & Ef & Ea & Ep) & Es & Eta). cbn [table_scan_next]. destruct ds as [|d ds].
    - destruct (sd_end _ _ _ _ D _ Hat) as (s' & -> & Hov). cbn. rewrite bool_decide_false by done. eexists. split; [done|]. by split.
    - destruct (sd_row _ _ _ _ D _ _ _ Hat) as (s' & -> & Hat'). cbn [mbind option_bind]. rewrite bool_decide_true by done.
      unfold table_scan_tuple. cbn [ts_record ts_with mbind option_bind ts_predicates ts_table ts_speces ts_tuple_alias negb].
      rewrite Et, Es, Eta, Ep. fold (row_of o d). rewrite Hk by set_solver. cbn [mbind option_bind]. rewrite bool_decide_true by done. cbn [negb List.filter].
      destruct (keep d) eqn:Ek.
      + eexists _, ds. split; [done|]. split_and!; try done; [set_solver|cbn; lia].
      + cbn in Hlen. specialize (IH (ts_with o' s' (Some d)) ds Ho ltac:(set_solver) ltac:(lia) Hat').
        destruct (List.filter keep ds) as [|d' xs]; [exact IH|]. destruct IH as (o2 & ds' & E & ? & ? & ? & ? & ? & ?).
        exists o2, ds'. split_and!; try done. cbn. lia. }
  split; [|by split_and!]. constructor.
  - intros o' [(Et & Ef & Ea & Ep) Hcl]. destruct (sd_open _ _ _ _ D _ Hcl) as (s' & E & Hat). cbn. unfold table_scan_open. rewrite E. cbn [mbind option_bind].
    rewrite bool_decide_true by done. replace (match ts_predicates o' with [] => RC_SUCCESS | _ => RC_SUCCESS end) with RC_SUCCESS by (by destruct (ts_predicates o')).
    eexists. split; [done|]. split; [by split_and!|]. exists rows. by split_and!.
  - intros o' x xs [Ho (ds & Hsub & Hlen & Hat & Ex)]. specialize (Hnext fuel o' ds Ho Hsub Hlen Hat). destruct (List.filter keep ds) as [|d xs']; [done|].
    injection Ex as -> ->. destruct Hnext as (o2 & ds' & E & Ho2 & Er & Hat' & Hsub' & Hlen' & E2). exists o2. split; [exact E|]. split.
    + cbn. unfold table_scan_tuple. rewrite Er. cbn [mbind option_bind]. destruct Ho2 as ((-> & _) & -> & ->). done.
    + split; [done|]. exists ds'. split_and!; try done; [lia|]. by rewrite E2.
  - intros o' [Ho (ds & Hsub & Hlen & Hat & Ex)]. specialize (Hnext fuel o' ds Ho Hsub Hlen Hat). destruct (List.filter keep ds); [|done].
    destruct Hnext as (o2 & E & ?). by exists o2.
  - intros o' xs [[(Et & Ef & Ea & Ep) _] (ds & _ & _ & Hat & _)]. destruct (sd_close_at _ _ _ _ D _ _ Hat) as (s' & E & Hcl). cbn. unfold table_scan_close. rewrite E.
    eexists. split; [done|]. by split_and!.
  - intros o' [(Et & Ef & Ea & Ep) Hov]. destruct (sd_close_over _ _ _ _ D _ Hov) as (s' & E & Hcl). cbn. unfold table_scan_close. rewrite E.
    eexists. split; [done|]. by split_and!.
Qed.
End table_scan.
#[global] Arguments TableScan : clear implicits.

(** ** Filters *)

Section predicate.
Context {C : Type} `{PhysicalOperator C QTuple}.

(** [src/src/observer/sql/operator/predicate_physical_operator.h:43-45] [PredicatePhysicalOperator] with its child, and [prev_tuple_], the tuple
    of the outer query *)
Record Predicate := mkPredicate { pr_expression : Expression QTuple; pr_child : C; pr_prev : option QTuple }.
Implicit Types (o : Predicate).

Definition pr_with o (c : C) : Predicate := mkPredicate (pr_expression o) c (pr_prev o).

(** [src/src/observer/sql/operator/predicate_physical_operator.cpp:28-47] [PredicatePhysicalOperator::open] *)
Definition predicate_open o : option (RC * Predicate) := '(rc, c) ← op_open (pr_child o); Some (rc, pr_with o c).

(** The tuple the expression sees. *)
Definition pr_tuple o (t : QTuple) : QTuple := match pr_prev o with Some p => Joined t p | None => t end.

(** [src/src/observer/sql/operator/predicate_physical_operator.cpp:49-80] [PredicatePhysicalOperator::next] *)
Fixpoint predicate_next (fuel : nat) o : option (RC * Predicate) :=
  match fuel with
  | O => None
  | S fuel =>
      '(rc, c) ← op_next (pr_child o);
      let o := pr_with o c in
      if negb (bool_decide (rc = RC_SUCCESS)) then Some (rc, o)
      else match op_current_tuple c with
      | None => Some (RC_INTERNAL, o)
      | Some t =>
          '(rc, value) ← get_value stof (pr_expression o) (pr_tuple o t) Value_new;
          if negb (bool_decide (rc = RC_SUCCESS)) then Some (rc, o)
          else if get_boolean value then Some (rc, o) else predicate_next fuel o
      end
  end.

(** [src/src/observer/sql/operator/predicate_physical_operator.cpp:82-86] [PredicatePhysicalOperator::close] *)
Definition predicate_close o : option (RC * Predicate) := '(_, c) ← op_close (pr_child o); Some (RC_SUCCESS, pr_with o c).

#[export] Instance predicate : PhysicalOperator Predicate QTuple :=
  {| op_open := predicate_open; op_next := predicate_next fuel; op_close := predicate_close; op_current_tuple o := op_current_tuple (pr_child o) |}.

(** A filter gives the tuples for which its expression is true. *)
Lemma predicate_delivers e c prev rows keep : delivers c rows → (length rows < fuel)%nat →
  (∀ t, t ∈ rows → ∃ v, get_value stof e (pr_tuple (mkPredicate e c prev) t) Value_new = Some (RC_SUCCESS, v) ∧ get_boolean v = keep t) →
  delivers (mkPredicate e c prev) (List.filter keep rows).
Proof.
  intros (closed & at_ & over & D & Hc) Hf Hk.
  set (same o := pr_expression o = e ∧ pr_prev o = prev).
  exists (λ o, same o ∧ closed (pr_child o)), (λ o xs, same o ∧ ∃ ts, ts ⊆ rows ∧ (length ts < fuel)%nat ∧ at_ (pr_child o) ts ∧ xs = List.filter keep ts),
    (λ o, same o ∧ over (pr_child o)).
  assert (Hnext : ∀ n o ts, same o → ts ⊆ rows → (length ts < n)%nat → at_ (pr_child o) ts →
    match List.filter keep ts with
    | [] => ∃ o2, predicate_next n o = Some (RC_RECORD_EOF, o2) ∧ same o2 ∧ over (pr_child o2)
    | t :: xs => ∃ o2 ts', predicate_next n o = Some (RC_SUCCESS, o2) ∧ same o2 ∧ op_current_tuple (pr_child o2) = Some t ∧ at_ (pr_child o2) ts' ∧
        ts' ⊆ rows ∧ (length ts' < length ts)%nat ∧ List.filter keep ts' = xs
    end).
  { induction n as [|n IH]; intros o ts Ho Hsub Hlen Hat; [lia|]. cbn [predicate_next]. destruct ts as [|t ts].
    - destruct (dl_end _ _ _ _ D _ Hat) as (c' & -> & Hov). cbn. rewrite bool_decide_false by done. eexists. split; [done|]. by split.
    - destruct (dl_row _ _ _ _ D _ _ _ Hat) as (c' & -> & Et & Hat'). cbn [mbind option_bind]. rewrite bool_decide_true by done. cbn [negb]. rewrite Et.
      destruct (Hk t ltac:(set_solver)) as (v & Ev & Eb). destruct Ho as [He Hp]. unfold pr_tuple in *. cbn [pr_expression pr_prev pr_with] in *. rewrite He, Hp, Ev.
      cbn [mbind option_bind]. rewrite bool_decide_true by done. cbn [negb List.filter]. rewrite Eb. destruct (keep t) eqn:Ek.
      + eexists _, ts. split; [done|]. split_and!; try done; [set_solver|cbn; lia].
      + cbn in Hlen. specialize (IH (pr_with o c') ts ltac:(by split) ltac:(set_solver) ltac:(lia) Hat').
        destruct (List.filter keep ts) as [|t' xs]; [exact IH|]. destruct IH as (o2 & ts' & E & ? & ? & ? & ? & ? & ?).
        exists o2, ts'. split_and!; try done. cbn. lia. }
  split; [|by split_and!]. constructor.
  - intros o [Ho Hcl]. destruct (dl_open _ _ _ _ D _ Hcl) as (c' & E & Hat). cbn. unfold predicate_open. rewrite E. eexists. split; [done|]. split; [done|]. exists rows. by split_and!.
  - intros o x xs [Ho (ts & Hsub & Hlen & Hat & Ex)]. specialize (Hnext fuel o ts Ho Hsub Hlen Hat). rewrite <- Ex in Hnext.
    destruct Hnext as (o2 & ts' & E & Ho2 & Et & Hat' & Hsub' & Hlen' & E2). exists o2. split; [exact E|]. split; [exact Et|]. split; [done|]. exists ts'. split_and!; try done. lia.
  - intros o [Ho (ts & Hsub & Hlen & Hat & Ex)]. specialize (Hnext fuel o ts Ho Hsub Hlen Hat). rewrite <- Ex in Hnext. destruct Hnext as (o2 & E & ?). by exists o2.
  - intros o xs [Ho (ts & _ & _ & Hat & _)]. destruct (dl_close_at _ _ _ _ D _ _ Hat) as (c' & E & Hcl). cbn. unfold predicate_close. rewrite E. eexists. split; [done|]. by split.
  - intros o [Ho Hov]. destruct (dl_close_over _ _ _ _ D _ Hov) as (c' & E & Hcl). cbn. unfold predicate_close. rewrite E. eexists. split; [done|]. by split.
Qed.

(** What an expression answers on the next tuple ends the loop, also [RECORD_EOF]. *)
Lemma predicate_next_fails o c t rc v n : op_next (pr_child o) = Some (RC_SUCCESS, c) → op_current_tuple c = Some t → rc ≠ RC_SUCCESS →
  get_value stof (pr_expression o) (pr_tuple o t) Value_new = Some (rc, v) → predicate_next (S n) o = Some (rc, pr_with o c).
Proof.
  intros En Et Hrc Ev. cbn [predicate_next]. rewrite En. cbn [mbind option_bind]. rewrite bool_decide_true by done. cbn [negb]. rewrite Et.
  change (pr_expression (pr_with o c)) with (pr_expression o). change (pr_tuple (pr_with o c) t) with (pr_tuple o t). rewrite Ev. cbn [mbind option_bind].
  by rewrite bool_decide_false.
Qed.
End predicate.
#[global] Arguments Predicate : clear implicits.

(** ** Projection *)

Section project.
Context {C : Type} `{PhysicalOperator C QTuple}.

(** [src/src/observer/sql/operator/project_physical_operator.h:48-51] [ProjectPhysicalOperator] with its child, if there is one *)
Record Project := mkProject { pj_expressions : list (Expression QTuple); pj_child : option C; pj_limit : Z; pj_count : Z }.
Implicit Types (o : Project).

(** [src/src/observer/sql/operator/project_physical_operator.cpp:27-42] [ProjectPhysicalOperator::open] *)
Definition project_open o : option (RC * Project) :=
  match pj_child o with
  | None => Some (RC_SUCCESS, o)
  | Some c => '(rc, c) ← op_open c; Some (rc, mkProject (pj_expressions o) (Some c) (pj_limit o) 0)
  end.

(** [src/src/observer/sql/operator/project_physical_operator.cpp:44-51] [ProjectPhysicalOperator::next] *)
Definition project_next o : option (RC * Project) :=
  match pj_child o with
  | None => Some (RC_RECORD_EOF, o)
  | Some c =>
      if pj_limit o <=? pj_count o then Some (RC_RECORD_EOF, o)
      else '(rc, c) ← op_next c; Some (rc, mkProject (pj_expressions o) (Some c) (pj_limit o) (pj_count o + 1))
  end.

(** [src/src/observer/sql/operator/project_physical_operator.cpp:53-60] [ProjectPhysicalOperator::close] *)
Definition project_close o : option (RC * Project) :=
  match pj_child o with
  | None => Some (RC_SUCCESS, mkProject (pj_expressions o) None (pj_limit o) 0)
  | Some c => '(_, c) ← op_close c; Some (RC_SUCCESS, mkProject (pj_expressions o) (Some c) (pj_limit o) 0)
  end.

(** [src/src/observer/sql/expr/expression_tuple.h:35-43] [ExpressionTuple::cell_at] of a tuple of the child *)
Definition expression_cell_at (expressions : list (Expression QTuple)) (t : QTuple) (index : nat) (cell : Value) : option (RC * Value) :=
  match expressions !! index with None => Some (RC_INVALID_ARGUMENT, cell) | Some e => get_value stof e t cell end.

(** The cells of a row of the result. *)
Definition project_cells (expressions : list (Expression QTuple)) (t : QTuple) : option (list (RC * Value)) :=
  mapM (λ i, expression_cell_at expressions t i Value_new) (seq 0 (length expressions)).

(** [src/src/observer/sql/operator/project_physical_operator.cpp:62-66] [ProjectPhysicalOperator::current_tuple] the tuple of the child, from
    which the cells are computed *)
Definition project_tuple o : option QTuple := c ← pj_child o; op_current_tuple c.

#[export] Instance project : PhysicalOperator Project QTuple :=
  {| op_open := project_open; op_next := project_next; op_close := project_close; op_current_tuple := project_tuple |}.

(** The limit cuts the tuples off. *)
Lemma project_delivers es c limit count rows : delivers c rows → 0 ≤ limit →
  delivers (mkProject es (Some c) limit count) (take (Z.to_nat limit) rows).
Proof.
  intros (closed & at_ & over & D & Hc) Hl.
  set (holds (P : C → Prop) o := pj_limit o = limit ∧ ∃ c, pj_child o = Some c ∧ P c).
  exists (holds closed), (λ o xs, ∃ ts, holds (λ c, at_ c ts) o ∧ 0 ≤ pj_count o ∧ xs = take (Z.to_nat (limit - pj_count o)) ts),
    (holds (λ c, over c ∨ ∃ ts, at_ c ts)).
  split; [|split; [done|by exists c]]. constructor.
  - intros o [El (c' & Ec & Hcl)]. destruct (dl_open _ _ _ _ D _ Hcl) as (c2 & E & Hat). cbn. unfold project_open. rewrite Ec, E. eexists. split; [done|].
    exists rows. split; [split; [done|by exists c2]|]. cbn. by rewrite Z.sub_0_r.
  - intros o x xs (ts & [El (c' & Ec & Hat)] & Hcount & Ex). destruct (Z.leb_spec limit (pj_count o)); [by rewrite Z2Nat.nonpos in Ex by lia|].
    destruct ts as [|t ts]; [by rewrite take_nil in Ex|]. replace (Z.to_nat (limit - pj_count o)) with (S (Z.to_nat (limit - (pj_count o + 1)))) in Ex by lia. injection Ex as -> ->.
    destruct (dl_row _ _ _ _ D _ _ _ Hat) as (c2 & E & Et & Hat'). cbn. unfold project_next. rewrite Ec, El, (proj2 (Z.leb_gt _ _)), E by lia. eexists. split; [done|].
    split; [done|]. exists ts. split; [split; [done|by exists c2]|]. cbn. split; [lia|done].
  - intros o (ts & [El (c' & Ec & Hat)] & Hcount & Ex). cbn. unfold project_next. rewrite Ec, El. destruct (Z.leb_spec limit (pj_count o)).
    + eexists. split; [done|]. split; [done|]. exists c'. split; [done|]. right. by exists ts.
    + destruct ts as [|t ts]; [|by replace (Z.to_nat (limit - pj_count o)) with (S (Z.to_nat (limit - (pj_count o + 1)))) in Ex by lia].
      destruct (dl_end _ _ _ _ D _ Hat) as (c2 & E & Hov). rewrite E. eexists. split; [done|]. split; [done|]. exists c2. split; [done|by left].
  - intros o xs (ts & [El (c' & Ec & Hat)] & _). destruct (dl_close_at _ _ _ _ D _ _ Hat) as (c2 & E & Hcl). cbn. unfold project_close. rewrite Ec, E.
    eexists. split; [done|]. split; [done|]. by exists c2.
  - intros o [El (c' & Ec & [Hov|[ts Hat]])]; [destruct (dl_close_over _ _ _ _ D _ Hov) as (c2 & E & Hcl)|destruct (dl_close_at _ _ _ _ D _ _ Hat) as (c2 & E & Hcl)];
      cbn; unfold project_close; rewrite Ec, E; (eexists; split; [done|]; split; [done|]; by exists c2).
Qed.
End project.
#[global] Arguments Project : clear implicits.
End operators.

(** ** Nested loop join *)

Section join.
Context {L R : Type} `{PhysicalOperator L QTuple, PhysicalOperator R QTuple}.

(** [src/src/observer/sql/operator/join_physical_operator.h:43-52] [NestedLoopJoinPhysicalOperator] *)
Record Join := mkJoin {
  jn_left : L;
  jn_right : R;
  jn_left_tuple : option QTuple;
  jn_right_tuple : option QTuple;
  jn_round_done : bool;
  jn_right_closed : bool;
}.
Implicit Types (o : Join).

Definition jn_set_left o (l : L) (t : option QTuple) : Join := mkJoin l (jn_right o) t (jn_right_tuple o) (jn_round_done o) (jn_right_closed o).
Definition jn_set_right o (r : R) (t : option QTuple) (round_done right_closed : bool) : Join :=
  mkJoin (jn_left o) r (jn_left_tuple o) t round_done right_closed.

(** [src/src/observer/sql/operator/join_physical_operator.cpp:19-35] [NestedLoopJoinPhysicalOperator::open] *)
Definition join_open o : option (RC * Join) :=
  '(rc, l) ← op_open (jn_left o); Some (rc, mkJoin l (jn_right o) (jn_left_tuple o) (jn_right_tuple o) true true).

(** [src/src/observer/sql/operator/join_physical_operator.cpp:87-98] [NestedLoopJoinPhysicalOperator::left_next] *)
Definition left_next o : option (RC * Join) :=
  '(rc, l) ← op_next (jn_left o);
  Some (rc, jn_set_left o l (if bool_decide (rc = RC_SUCCESS) then op_current_tuple l else jn_left_tuple o)).

(** [src/src/observer/sql/operator/join_physical_operator.cpp:103-120] [NestedLoopJoinPhysicalOperator::right_next] a new round: the right
    operator is closed and opened again *)
Definition right_start o : option (RC * Join) :=
  if jn_round_done o then
    '(rc, o) ← (if negb (jn_right_closed o) then '(rc, r) ← op_close (jn_right o); Some (rc, jn_set_right o r (jn_right_tuple o) true true)
                else Some (RC_SUCCESS, o));
    if negb (bool_decide (rc = RC_SUCCESS)) then Some (rc, o)
    else
      '(rc, r) ← op_open (jn_right o);
      if negb (bool_decide (rc = RC_SUCCESS)) then Some (rc, jn_set_right o r (jn_right_tuple o) true (jn_right_closed o))
      else Some (rc, jn_set_right o r (jn_right_tuple o) false false)
  else Some (RC_SUCCESS, o).

(** [src/src/observer/sql/operator/join_physical_operator.cpp:100-133] [NestedLoopJoinPhysicalOperator::right_next] *)
Definition right_next o : option (RC * Join) :=
  '(rc, o) ← right_start o;
  if negb (bool_decide (rc = RC_SUCCESS)) then Some (rc, o)
  else
    '(rc, r) ← op_next (jn_right o);
    if bool_decide (rc = RC_SUCCESS) then Some (rc, jn_set_right o r (op_current_tuple r) (jn_round_done o) (jn_right_closed o))
    else Some (rc, jn_set_right o r (jn_right_tuple o) (jn_round_done o || bool_decide (rc = RC_RECORD_EOF)) (jn_right_closed o)).

(** [src/src/observer/sql/operator/join_physical_operator.cpp:37-65] [NestedLoopJoinPhysicalOperator::next] *)
Definition join_next o : option (RC * Join) :=
  let step o := '(rc, o) ← left_next o; if negb (bool_decide (rc = RC_SUCCESS)) then Some (rc, o) else right_next o in
  if jn_round_done o then step o
  else
    '(rc, o) ← right_next o;
    if bool_decide (rc = RC_SUCCESS) then Some (rc, o)
    else if bool_decide (rc = RC_RECORD_EOF) then step o
    else Some (rc, o).

(** [src/src/observer/sql/operator/join_physical_operator.cpp:67-83] [NestedLoopJoinPhysicalOperator::close] *)
Definition join_close o : option (RC * Join) :=
  '(rc, l) ← op_close (jn_left o);
  let o := jn_set_left o l (jn_left_tuple o) in
  if jn_right_closed o then Some (rc, o)
  else '(rc, r) ← op_close (jn_right o); Some (rc, jn_set_right o r (jn_right_tuple o) (jn_round_done o) (bool_decide (rc = RC_SUCCESS))).

(** [src/src/observer/sql/operator/join_physical_operator.cpp:85-85] [NestedLoopJoinPhysicalOperator::current_tuple] *)
Definition join_tuple o : option QTuple := l ← jn_left_tuple o; r ← jn_right_tuple o; Some (Joined l r).

#[export] Instance join : PhysicalOperator Join QTuple :=
  {| op_open := join_open; op_next := join_next; op_close := join_close; op_current_tuple := join_tuple |}.

(** The pairs, for every left tuple all the right ones. *)
Definition product (ls rs : list QTuple) : list QTuple := flat_map (λ l, Joined l <$> rs) ls.

Lemma product_nil ls : product ls [] = [].
Proof. by induction ls. Qed.

Section delivers.
Context (ls rs : list QTuple).
Context (lclosed : L → Prop) (lat : L → list QTuple → Prop) (lover : L → Prop) (DL : Delivery ls lclosed lat lover).
Context (rclosed : R → Prop) (rat : R → list QTuple → Prop) (rover : R → Prop) (DR : Delivery rs rclosed rat rover).

(** The right operator between two rounds. *)
Definition right_idle o : Prop :=
  jn_round_done o = true ∧ if jn_right_closed o then rclosed (jn_right o) else rover (jn_right o).
Definition join_closed o : Prop := lclosed (jn_left o) ∧ rclosed (jn_right o).
Definition join_at o (xs : list QTuple) : Prop :=
  ∃ lrem, lat (jn_left o) lrem ∧
    ((right_idle o ∧ xs = product lrem rs) ∨
     (jn_round_done o = false ∧ jn_right_closed o = false ∧ ∃ l rrem, jn_left_tuple o = Some l ∧ rat (jn_right o) rrem ∧ xs = (Joined l <$> rrem) ++ product lrem rs)).
Definition join_over o : Prop :=
  (lover (jn_left o) ∨ ∃ lrem, lat (jn_left o) lrem) ∧ right_idle o.

(** The right operator in a round: the next tuple, or the end of the round. *)
Lemma right_in_round o rrem : jn_round_done o = false → jn_right_closed o = false → rat (jn_right o) rrem →
  match rrem with
  | r :: rrem => ∃ o', right_next o = Some (RC_SUCCESS, o') ∧ jn_left o' = jn_left o ∧ jn_left_tuple o' = jn_left_tuple o ∧
      jn_right_tuple o' = Some r ∧ jn_round_done o' = false ∧ jn_right_closed o' = false ∧ rat (jn_right o') rrem
  | [] => ∃ o', right_next o = Some (RC_RECORD_EOF, o') ∧ jn_left o' = jn_left o ∧ jn_left_tuple o' = jn_left_tuple o ∧ right_idle o'
  end.
Proof.
  intros Hd Hc Hat. unfold right_next, right_start. rewrite Hd. cbn [mbind option_bind]. rewrite bool_decide_true by done. cbn [negb].
  destruct rrem as [|r rrem].
  - destruct (dl_end _ _ _ _ DR _ Hat) as (r' & -> & Hov). cbn [mbind option_bind]. rewrite bool_decide_false by done. eexists. split; [done|].
    split; [done|]. split; [done|]. split; [by rewrite Hd|]. cbn. by rewrite Hc.
  - destruct (dl_row _ _ _ _ DR _ _ _ Hat) as (r' & -> & Et & Hat'). cbn [mbind option_bind]. rewrite bool_decide_true by done. eexists. split; [done|].
    rewrite Et. by split_and!.
Qed.

Lemma right_round o : right_idle o → ∃ o', right_start o = Some (RC_SUCCESS, o') ∧ jn_left o' = jn_left o ∧ jn_left_tuple o' = jn_left_tuple o ∧
  jn_round_done o' = false ∧ jn_right_closed o' = false ∧ rat (jn_right o') rs.
Proof.
  intros [Hd Hi]. unfold right_start. rewrite Hd. destruct (jn_right_closed o) eqn:Ec; cbn [negb mbind option_bind].
  - rewrite bool_decide_true by done. cbn [negb]. destruct (dl_open _ _ _ _ DR _ Hi) as (r' & -> & Hat). cbn [mbind option_bind]. rewrite bool_decide_true by done.
    cbn [negb]. eexists. split; [done|]. by split_and!.
  - destruct (dl_close_over _ _ _ _ DR _ Hi) as (r' & -> & Hcl). cbn [mbind option_bind]. rewrite bool_decide_true by done. cbn [negb jn_right jn_set_right].
    destruct (dl_open _ _ _ _ DR _ Hcl) as (r2 & -> & Hat). cbn [mbind option_bind]. rewrite bool_decide_true by done. cbn [negb]. eexists. split; [done|]. by split_and!.
Qed.

(** A step of the left operator and what follows it. *)
Lemma left_step o lrem : right_idle o → lat (jn_left o) lrem →
  let step := ('(rc, o) ← left_next o; if negb (bool_decide (rc = RC_SUCCESS)) then Some (rc, o) else right_next o) in
  match product lrem rs with
  | [] => ∃ o', step = Some (RC_RECORD_EOF, o') ∧ join_over o'
  | x :: xs => ∃ o', step = Some (RC_SUCCESS, o') ∧ join_tuple o' = Some x ∧ join_at o' xs
  end.
Proof.
  intros Hi Hat. cbv zeta. unfold left_next. destruct lrem as [|l lrem].
  - destruct (dl_end _ _ _ _ DL _ Hat) as (l' & -> & Hov). cbn [mbind option_bind product flat_map]. rewrite bool_decide_false by done. cbn [negb].
    eexists. split; [done|]. split; [by left|exact Hi].
  - destruct (dl_row _ _ _ _ DL _ _ _ Hat) as (l' & -> & Et & Hat'). cbn [mbind option_bind]. rewrite bool_decide_true by done. cbn [negb]. rewrite Et.
    destruct (right_round (jn_set_left o l' (Some l)) Hi) as (o1 & E1 & El & Elt & Hd & Hc & Hr).
    pose proof (right_in_round o1 rs Hd Hc Hr) as Hnext. unfold right_next in *. rewrite E1. unfold right_start in Hnext. rewrite Hd in Hnext. cbn [mbind option_bind] in *.
    rewrite bool_decide_true in * by done. cbn [negb] in *. cbn [product flat_map]. fold (product lrem rs). remember rs as rs' eqn:Ers in Hnext |- * at 1.
    destruct rs' as [|r rs'].
    + rewrite <- Ers, product_nil. cbn [fmap list_fmap app].
      destruct Hnext as (o' & -> & El' & _ & Hidle). exists o'. split; [done|]. split; [|done]. right. exists lrem. by rewrite El', El.
    + destruct Hnext as (o' & -> & El' & Elt' & Er' & Hd' & Hc' & Hat2). cbn [product flat_map fmap list_fmap app]. exists o'. split; [done|]. split.
      * unfold join_tuple. by rewrite Elt', Elt, Er'.
      * exists lrem. rewrite El', El. split; [done|]. right. split; [done|]. split; [done|]. exists l, rs'. rewrite Elt', Elt. by split_and!.
Qed.

Lemma join_step o xs : join_at o xs →
  match xs with
  | [] => ∃ o', join_next o = Some (RC_RECORD_EOF, o') ∧ join_over o'
  | x :: xs => ∃ o', join_next o = Some (RC_SUCCESS, o') ∧ join_tuple o' = Some x ∧ join_at o' xs
  end.
Proof.
  intros (lrem & Hat & [[Hi ->]|(Hd & Hc & l & rrem & Elt & Hr & ->)]).
  - unfold join_next. rewrite (proj1 Hi). by apply left_step.
  - unfold join_next. rewrite Hd. cbv zeta. pose proof (right_in_round o rrem Hd Hc Hr) as Hnext. destruct rrem as [|r rrem].
    + destruct Hnext as (o1 & -> & El & _ & Hi). cbn [mbind option_bind fmap list_fmap app]. rewrite bool_decide_false, bool_decide_true by done.
      apply left_step; [done|]. by rewrite El.
    + destruct Hnext as (o1 & -> & El & Elt1 & Er & Hd1 & Hc1 & Hr1). cbn [mbind option_bind fmap list_fmap app]. rewrite bool_decide_true by done.
      exists o1. split; [done|]. split; [unfold join_tuple; by rewrite Elt1, Elt, Er|]. exists lrem. rewrite El. split; [done|]. right.
      split; [done|]. split; [done|]. exists l, rrem. rewrite Elt1. by split_and!.
Qed.

Lemma join_delivery : Delivery (product ls rs) join_closed join_at join_over.
Proof.
  constructor.
  - intros o [Hl Hr]. destruct (dl_open _ _ _ _ DL _ Hl) as (l' & E & Hat). cbn. unfold join_open. rewrite E. eexists. split; [done|].
    exists ls. split; [done|]. left. by split_and!.
  - intros o x xs Hat. apply (join_step o (x :: xs) Hat).
  - intros o Hat. apply (join_step o [] Hat).
  - intros o xs (lrem & Hl & Hcase). destruct (dl_close_at _ _ _ _ DL _ _ Hl) as (l' & E & Hcl). cbn. unfold join_close. rewrite E. cbn [mbind option_bind].
    destruct Hcase as [[[_ Hi] _]|(_ & Hc & l & rrem & _ & Hr & _)]; cbn [jn_right_closed jn_set_left jn_right] in *.
    + destruct (jn_right_closed o); [by eexists|]. destruct (dl_close_over _ _ _ _ DR _ Hi) as (r' & -> & Hrc). by eexists.
    + rewrite Hc. destruct (dl_close_at _ _ _ _ DR _ _ Hr) as (r' & -> & Hrc). by eexists.
  - intros o [Hl [_ Hi]]. assert (∃ l', op_close (jn_left o) = Some (RC_SUCCESS, l') ∧ lclosed l') as (l' & E & Hcl).
    { destruct Hl as [Hl|[lrem Hl]]; [by apply (dl_close_over _ _ _ _ DL)|by apply (dl_close_at _ _ _ _ DL _ lrem)]. }
    cbn. unfold join_close. rewrite E. cbn [mbind option_bind jn_right_closed jn_set_left jn_right] in *.
    destruct (jn_right_closed o); [by eexists|]. destruct (dl_close_over _ _ _ _ DR _ Hi) as (r' & -> & Hrc). by eexists.
Qed.
End delivers.

(** A join gives all pairs. *)
Lemma join_delivers l r lt rt done_ closed_ ls rs : delivers l ls → delivers r rs → delivers (mkJoin l r lt rt done_ closed_) (product ls rs).
Proof.
  intros (lclosed & lat & lover & DL & Hl) (rclosed & rat & rover & DR & Hr). do 3 eexists. split; [by apply (join_delivery ls rs lclosed lat lover DL rclosed rat rover DR)|by split].
Qed.
End join.
#[global] Arguments Join : clear implicits.
