(* ===== verification/RowOrder.v ===== *)
(** * The order of values and rows ([Value::compare] as sorting and grouping use it)

    [ORDER BY] and [GROUP BY] first read the whole input into memory, and then compare rows column by column, a NULL
    as the least value and equal to a NULL.  [std::sort] is any function that sorts by a strict weak order. *)
From Stdlib Require Import SpecFloat Sorted.
From stdpp Require Import strings.
From S2P Require Import Prelude Rc Serializer BplusKey TableMeta Text Float Value ValueKey Aggregator Tuples Expression Operators.

(** ** Values *)

(** [src/src/observer/sql/operator/order_by_physical_operator.cpp:142-143] [OrderByPhysicalOperator::open] how a sort compares two values, also
    [GroupByKey::operator<] (49-50) *)
Definition value_order (stof : list Z → option float32) (left right : Value) : option Z :=
  n ← compare stof left right; Some (if is_null left && is_null right then 0 else n).

(** The values of a column of a type, NULL among them. *)
Definition sortable (t : AttrType) (v : Value) : Prop :=
  v_type v = t ∧
  match t with
  | INTS | DATES => ∃ z, v_value v = Word z ∧ INT_NULL ≤ z
  | CHARS => ∃ p, v_value v = Chars p ∧ let s := default [] p in v_length v = Z.of_nat (length s) ∧ Forall (λ x : Z, x ≠ 0) s ∧ (v_own v = true ∨ s = [])
  | _ => False
  end.

(** A number as one character, which makes the order of both kinds lexicographic. *)
Definition rank (v : Value) : list Z := match v_value v with Word z => [z] | Chars p => default [] p | _ => [] end.

Lemma value_order_rank stof t v1 v2 : sortable t v1 → sortable t v2 → value_order stof v1 v2 = Some (lex_compare (rank v1) (rank v2)).
Proof.
  destruct v1 as [t1 n1 w1 o1], v2 as [t2 n2 w2 o2]. intros [E1 H1] [E2 H2]. cbn in E1, E2. subst t1 t2. unfold value_order, rank.
  destruct t; try done; cbn [v_value v_length] in *.
  - destruct H1 as (z1 & -> & L1), H2 as (z2 & -> & L2). unfold compare, date_compare, is_null. cbn - [INT_NULL]. unfold compare_int.
    destruct (Z.eqb_spec z1 INT_NULL), (Z.eqb_spec z2 INT_NULL); cbn [andb]; repeat case_bool; done || lia.
  - destruct H1 as (p1 & -> & -> & P1 & _), H2 as (p2 & -> & -> & P2 & _). unfold compare, char_compare, is_null. cbn [v_type type_instance v_length pointer_value v_value].
    assert (E : ∀ p : option (list Z), match p with Some (c :: _) => c =? 0 | _ => true end = match default [] p with c :: _ => c =? 0 | _ => true end) by (by intros [[]|]).
    rewrite !E. generalize dependent (default [] p1). intros s1 P1. generalize dependent (default [] p2). intros s2 P2. clear p1 p2 E.
    destruct s1 as [|c1 s1], s2 as [|c2 s2]; try done.
    + inversion P2. cbn [length]. rewrite !(proj2 (Z.eqb_neq (Z.of_nat (S _)) 0)), !(proj2 (Z.eqb_neq c2 0)) by (done || lia). done.
    + inversion P1. cbn [length]. rewrite !(proj2 (Z.eqb_neq (Z.of_nat (S _)) 0)), !(proj2 (Z.eqb_neq c1 0)) by (done || lia). done.
    + pose proof (compare_string_lex (c1 :: s1) (c2 :: s2) P1) as E. inversion P1. inversion P2. cbn [length default id] in *. unfold id. rewrite E.
      rewrite !(proj2 (Z.eqb_neq (Z.of_nat (S _)) 0)), !(proj2 (Z.eqb_neq c1 0)), !(proj2 (Z.eqb_neq c2 0)) by (done || lia). done.
  - destruct H1 as (z1 & -> & L1), H2 as (z2 & -> & L2). unfold compare, integer_compare, is_null. cbn - [INT_NULL]. unfold compare_int.
    destruct (Z.eqb_spec z1 INT_NULL), (Z.eqb_spec z2 INT_NULL); cbn [andb]; repeat case_bool; done || lia.
Qed.

(** A copy compares as the value. *)
Lemma copy_sortable t v : sortable t v → sortable t (copy_value v) ∧ rank (copy_value v) = rank v.
Proof.
  destruct v as [t' n w o]. unfold sortable, copy_value. cbn [v_type v_value v_length v_own]. intros [-> H]. destruct t; try done.
  unfold set_string_from_other. cbn [pointer_value v_value v_type v_length v_own]. destruct H as (p & -> & -> & P & Ho).
  unfold default, id in *. destruct p as [s|]; [|split; [split; [done|]; by exists None|done]]. destruct s as [|c s].
  - cbn. rewrite andb_false_r. split; [split; [done|]; exists None; split_and!; [done..|by right]|done].
  - destruct Ho as [->|?]; [|done]. cbn [andb negb length]. rewrite (proj2 (Z.eqb_neq _ 0)) by lia. cbn [negb v_value v_length v_own v_type].
    unfold pointer_value. cbn [v_value]. rewrite Nat2Z.id. change (S (length s)) with (length (c :: s)). rewrite firstn_all. split; [split; [done|]; exists (Some (c :: s)); split_and!; [done..|by left]|done].
Qed.

(** ** Rows *)

(** The columns to compare, and whether up. *)
Definition Columns : Type := list (nat * bool).

Definition column_rank (i : nat) (row : list Value) : list Z := match row !! i with Some v => rank v | None => [] end.

(** The first columns that differ decide. *)
Fixpoint row_cmp (cols : Columns) (a b : list Value) : Z :=
  match cols with
  | [] => 0
  | (i, up) :: cols =>
      let n := lex_compare (column_rank i a) (column_rank i b) in
      if n =? 0 then row_cmp cols a b else if up : bool then n else - n
  end.

(** The columns have one type each. *)
Definition row_sortable (cols : Columns) (types : list AttrType) (row : list Value) : Prop :=
  Forall2 (λ c t, ∃ v, row !! c.1 = Some v ∧ sortable t v) cols types.

Lemma row_total cols : TotalCompare (row_cmp cols) (λ _, True).
Proof.
  assert (Ht : ∀ i, TotalCompare (λ a b, lex_compare (column_rank i a) (column_rank i b)) (λ _, True)) by (intros i; by apply (total_map (column_rank i) _ _ _ lex_total)).
  induction cols as [|[i up] cols IH]; [by constructor|]. specialize (Ht i). constructor.
  - intros a _. cbn. rewrite (cmp_refl (TotalCompare := Ht)) by done. by apply (cmp_refl (TotalCompare := IH)).
  - intros a b _ _. cbn. pose proof (cmp_flip (TotalCompare := Ht) a b I I). pose proof (cmp_flip (TotalCompare := Ht) b a I I). cbn in *.
    pose proof (cmp_flip (TotalCompare := IH) a b I I). destruct up; repeat case_bool; lia.
  - intros a b c _ _ _. cbn. pose proof (cmp_trans (TotalCompare := IH) a b c I I I).
    pose proof (cmp_trans (TotalCompare := Ht) a b c I I I). pose proof (cmp_trans (TotalCompare := Ht) c b a I I I).
    pose proof (cmp_trans (TotalCompare := Ht) b c a I I I). pose proof (cmp_trans (TotalCompare := Ht) c a b I I I).
    pose proof (cmp_trans (TotalCompare := Ht) b a c I I I). pose proof (cmp_trans (TotalCompare := Ht) a c b I I I).
    pose proof (cmp_flip (TotalCompare := Ht) a b I I). pose proof (cmp_flip (TotalCompare := Ht) b a I I).
    pose proof (cmp_flip (TotalCompare := Ht) a c I I). pose proof (cmp_flip (TotalCompare := Ht) c a I I).
    pose proof (cmp_flip (TotalCompare := Ht) b c I I). pose proof (cmp_flip (TotalCompare := Ht) c b I I). cbn in *.
    destruct up; repeat case_bool; lia.
Qed.

(** ** Sorting *)

(** What [std::sort] and [std::map] ask of a comparison. *)
Record StrictWeak {A} (P : A → Prop) (less : A → A → bool) : Prop := {
  less_irrefl x : P x → less x x = false;
  less_trans x y z : P x → P y → P z → less x y = true → less y z = true → less x z = true;
  less_incomparable x y z : P x → P y → P z → less y x = false → less z y = false → less z x = false;
}.

Lemma total_strict_weak {A} (cmp : A → A → Z) (ok P : A → Prop) : TotalCompare cmp ok → (∀ x, P x → ok x) → StrictWeak P (λ x y, cmp x y <? 0).
Proof.
  intros Ht Hok. constructor.
  - intros x Hx. by rewrite (cmp_refl (TotalCompare := Ht)) by auto.
  - intros x y z Hx Hy Hz H1%Z.ltb_lt H2%Z.ltb_lt. apply Z.ltb_lt. eapply (cmp_lt_le_trans cmp ok x y z); auto. lia.
  - intros x y z Hx Hy Hz H1%Z.ltb_ge H2%Z.ltb_ge. apply Z.ltb_ge.
    apply (cmp_le_flip cmp ok) in H1; [|by auto..]. apply (cmp_le_flip cmp ok) in H2; [|by auto..].
    apply (cmp_le_flip cmp ok); auto. eapply (cmp_trans (TotalCompare := Ht)); [..|exact H1|exact H2]; auto.
Qed.

(** What [std::sort] promises of the positions it sorts: if the comparison is a strict weak order on them, it puts them in
    order; [None] is what the comparison may answer on others. *)
Definition sort_law (sort : (nat → nat → option bool) → list nat → option (list nat)) : Prop :=
  ∀ lt less l, (∀ x y, x ∈ l → y ∈ l → lt x y = Some (less x y)) → StrictWeak (λ x, x ∈ l) less →
  ∃ l', sort lt l = Some l' ∧ l' ≡ₚ l ∧ StronglySorted (λ x y, less y x = false) l'.

(** One function that sorts. *)
Fixpoint insert_sorted (lt : nat → nat → option bool) (x : nat) (l : list nat) : option (list nat) :=
  match l with
  | [] => Some [x]
  | y :: l' => b ← lt y x; if b : bool then l'' ← insert_sorted lt x l'; Some (y :: l'') else Some (x :: l)
  end.
Fixpoint insertion_sort (lt : nat → nat → option bool) (l : list nat) : option (list nat) :=
  match l with [] => Some [] | x :: l => l' ← insertion_sort lt l; insert_sorted lt x l' end.

Lemma insert_sorted_ok lt less P x l : (∀ x y, P x → P y → lt x y = Some (less x y)) → StrictWeak P less → P x → Forall P l →
  StronglySorted (λ x y, less y x = false) l → ∃ l', insert_sorted lt x l = Some l' ∧ l' ≡ₚ x :: l ∧ StronglySorted (λ x y, less y x = false) l'.
Proof.
  intros Hlt Hw Hx Hl Hs. induction Hs as [|y l Hs IH Hy]; [exists [x]; split_and!; [done..|by repeat constructor]|].
  inversion Hl as [|? ? Py Pl]; subst. cbn. rewrite Hlt by done. cbn [mbind option_bind]. destruct (less y x) eqn:E.
  - destruct (IH Pl) as (l' & -> & Hp & Hs'). exists (y :: l'). split; [done|]. split; [rewrite Hp; apply perm_swap|]. constructor; [done|].
    rewrite Hp. constructor; [|done]. destruct (less x y) eqn:E2; [|done].
    pose proof (less_trans _ _ Hw x y x Hx Py Hx E2 E) as E3. by rewrite (less_irrefl _ _ Hw x Hx) in E3.
  - exists (x :: y :: l). split; [done|]. split; [done|]. constructor; [by constructor|]. constructor; [done|].
    rewrite Forall_forall in *. intros z Hz. apply (less_incomparable _ _ Hw x y z); auto.
Qed.

Lemma insertion_sort_ok lt less P l : (∀ x y, P x → P y → lt x y = Some (less x y)) → StrictWeak P less → Forall P l →
  ∃ l', insertion_sort lt l = Some l' ∧ l' ≡ₚ l ∧ StronglySorted (λ x y, less y x = false) l'.
Proof.
  intros Hlt Hw Hl. induction Hl as [|x l Hx Hl IH].
  - exists []. split_and!; try done. constructor.
  - destruct IH as (l1 & El & Hp & Hs). cbn. rewrite El. cbn [mbind option_bind].
    destruct (insert_sorted_ok lt less P x l1 Hlt Hw Hx ltac:(by rewrite Hp) Hs) as (l2 & -> & Hp2 & Hs2). exists l2. split; [done|]. split; [by rewrite Hp2, Hp|done].
Qed.

Lemma insertion_sort_law : sort_law insertion_sort.
Proof. intros lt less l Hlt Hw. apply (insertion_sort_ok lt less (λ x, x ∈ l)); [done..|by apply Forall_forall]. Qed.

(** ** The input in memory *)

(** [src/src/observer/sql/operator/order_by_physical_operator.cpp:94-98] [OrderByPhysicalOperator::open] the cells of a tuple (also group_by 75-84); the
    codes are ignored *)
Definition tuple_values (t : QTuple) : option (list Value) := mapM (λ i, snd <$> cell_at t i Value_new) (seq 0 (cell_num t)).
Definition tuple_specs (t : QTuple) : option (list TupleCellSpec) := mapM (λ i, snd <$> spec_at t i (mkSpec "" "" "")) (seq 0 (cell_num t)).

Section drain.
Context {C : Type} `{PhysicalOperator C QTuple}.

(** [src/src/observer/sql/operator/order_by_physical_operator.cpp:93-101] [OrderByPhysicalOperator::open] the loop that reads the tuples after the
    first (also group_by 87-95), and the code that ends it *)
Fixpoint drain (fuel : nat) (c : C) (tuples : list (list Value)) : option (RC * C * list (list Value)) :=
  match fuel with
  | O => None
  | S fuel =>
      '(rc, c) ← op_next c;
      if bool_decide (rc = RC_SUCCESS) then
        t ← op_current_tuple c; values ← tuple_values t; drain fuel c (tuples ++ [values])
      else Some (rc, c, tuples)
  end.

Lemma drain_ok rows closed at_ over fuel : Delivery rows closed at_ over → ∀ c ts vs tuples, at_ c ts → mapM tuple_values ts = Some vs → (length ts < fuel)%nat →
  ∃ c', drain fuel c tuples = Some (RC_RECORD_EOF, c', tuples ++ vs) ∧ over c'.
Proof.
  intros D. induction fuel as [|fuel IH]; intros c ts vs tuples Hat Hv Hf; [lia|]. cbn [drain]. destruct ts as [|t ts].
  - injection Hv as <-. destruct (dl_end _ _ _ _ D _ Hat) as (c' & -> & Hov). cbn [mbind option_bind]. rewrite bool_decide_false by done. rewrite app_nil_r. by exists c'.
  - destruct (dl_row _ _ _ _ D _ _ _ Hat) as (c' & -> & Et & Hat'). cbn [mbind option_bind]. rewrite bool_decide_true by done. rewrite Et. cbn [mbind option_bind].
    apply mapM_Some in Hv. apply Forall2_cons_inv_l in Hv as (v & vs' & Ev & Evs & ->). apply mapM_Some in Evs. rewrite Ev. cbn [mbind option_bind]. cbn in Hf. destruct (IH c' ts vs' (tuples ++ [v]) Hat' Evs ltac:(lia)) as (c2 & -> & Hov). exists c2. by rewrite <- app_assoc.
Qed.
End drain.
