(* ===== verification/OrderBy.v ===== *)
(** * Sorting of tuples ([sql/operator/order_by_physical_operator.*])

    The operator reads all tuples of its child when it is opened, sorts their positions with [std::sort], and gives the
    tuples in that order. *)
From Stdlib Require Import SpecFloat Sorted.
From stdpp Require Import strings.
From S2P Require Import Prelude Rc Serializer BplusKey TableMeta Text Float Value ValueKey Aggregator Tuples Expression Operators RowOrder.

(** [src/src/observer/sql/parser/parse_defs.h:28-32] [OrderByType] *)
Inductive OrderByType := ASC | DESC.
#[export] Instance OrderByType_eq_dec : EqDecision OrderByType.
Proof. solve_decision. Defined.

Section order_by.
Variable stof : list Z → option float32.
Variable fuel : nat.
(** [std::sort] of positions by a comparison. *)
Variable sort : (nat → nat → option bool) → list nat → option (list nat).
Context {C : Type} `{PhysicalOperator C QTuple}.

(** [src/src/observer/sql/operator/order_by_physical_operator.h:44-50] [OrderByPhysicalOperator] the expressions by the names they answer (table,
    field, alias): none is a vector function *)
Record OrderBy := mkOrderBy {
  ob_field_expressions : list (string * string * string);
  ob_order_by_type : list OrderByType;
  ob_child : C;
  ob_tuples : list (list Value);
  ob_tuple_cells : list TupleCellSpec;
  ob_tuples_index : list nat;
  ob_i : Z;
}.
Implicit Types (o : OrderBy).

Definition ob_set o (c : C) (tuples : list (list Value)) (cells : list TupleCellSpec) (index : list nat) (i : Z) : OrderBy :=
  mkOrderBy (ob_field_expressions o) (ob_order_by_type o) c tuples cells index i.

(** [src/src/observer/sql/operator/order_by_physical_operator.cpp:72-91] [OrderByPhysicalOperator::open] the columns of the expressions, if all are
    found *)
Definition field_index (fields : list (string * string * string)) (cells : list TupleCellSpec) : option (list nat) :=
  mapM (λ '(table, field, alias), find_spec (TupleCellSpec_new table field alias) cells) fields.

(** [src/src/observer/sql/operator/order_by_physical_operator.cpp:124-151] [OrderByPhysicalOperator::open] the comparison of two tuples *)
Fixpoint order_less (index : list nat) (types : list OrderByType) (lhs rhs : list Value) : option bool :=
  match index with
  | [] => Some false
  | i :: index =>
      left ← lhs !! i; right ← rhs !! i;
      result ← value_order stof left right;
      if result =? 0 then order_less index (tail types) lhs rhs
      else type ← head types; Some (if bool_decide (type = ASC) then result <? 0 else 0 <? result)
  end.

(** [src/src/observer/sql/operator/order_by_physical_operator.cpp:33-156] [OrderByPhysicalOperator::open] *)
Definition order_by_open o : option (RC * OrderBy) :=
  '(rc, c) ← op_open (ob_child o);
  if negb (bool_decide (rc = RC_SUCCESS)) then
    '(_, c) ← op_close c; Some (rc, ob_set o c (ob_tuples o) (ob_tuple_cells o) (ob_tuples_index o) (ob_i o))
  else
    '(rc, c) ← op_next c;
    let o := ob_set o c (ob_tuples o) (ob_tuple_cells o) (ob_tuples_index o) (ob_i o) in
    if negb (bool_decide (rc = RC_SUCCESS)) then Some (if bool_decide (rc = RC_RECORD_EOF) then RC_SUCCESS else rc, o)
    else
      t ← op_current_tuple c; values ← tuple_values t; cells ← tuple_specs t;
      let tuples := ob_tuples o ++ [values] in
      match field_index (ob_field_expressions o) cells with
      | None => '(_, c) ← op_close c; Some (RC_INVALID_ARGUMENT, ob_set o c tuples cells (ob_tuples_index o) (ob_i o))
      | Some index =>
          '(rc, c, tuples) ← drain fuel c tuples;
          if negb (bool_decide (rc = RC_RECORD_EOF)) then Some (rc, ob_set o c tuples cells (ob_tuples_index o) (ob_i o))
          else
            let cmp lhs rhs := l ← tuples !! lhs; r ← tuples !! rhs; order_less index (ob_order_by_type o) l r in
            tuples_index ← sort cmp (seq 0 (length tuples));
            Some (RC_SUCCESS, ob_set o c tuples cells tuples_index (-1))
      end.

(** [src/src/observer/sql/operator/order_by_physical_operator.cpp:158-158] [OrderByPhysicalOperator::next] *)
Definition order_by_next o : option (RC * OrderBy) :=
  let i := ob_i o + 1 in
  Some (if i =? Z.of_nat (length (ob_tuples_index o)) then RC_RECORD_EOF else RC_SUCCESS,
        ob_set o (ob_child o) (ob_tuples o) (ob_tuple_cells o) (ob_tuples_index o) i).

(** [src/src/observer/sql/operator/order_by_physical_operator.cpp:160-168] [OrderByPhysicalOperator::close] *)
Definition order_by_close o : option (RC * OrderBy) := '(_, c) ← op_close (ob_child o); Some (RC_SUCCESS, ob_set o c [] [] [] (-1)).

(** [src/src/observer/sql/operator/order_by_physical_operator.cpp:170-175] [OrderByPhysicalOperator::current_tuple] *)
Definition order_by_tuple o : option QTuple :=
  if ob_i o <? 0 then None
  else n ← ob_tuples_index o !! Z.to_nat (ob_i o); values ← ob_tuples o !! n; Some (Shell values (ob_tuple_cells o)).

#[export] Instance order_by : PhysicalOperator OrderBy QTuple :=
  {| op_open := order_by_open; op_next := order_by_next; op_close := order_by_close; op_current_tuple := order_by_tuple |}.

(** ** What it gives *)

(** The columns of the order, with the direction. *)
Definition order_columns (index : list nat) (types : list OrderByType) : Columns := zip_with (λ i t, (i, bool_decide (t = ASC))) index types.

Lemma order_less_cmp index types ts lhs rhs : length types = length index →
  row_sortable (order_columns index types) ts lhs → row_sortable (order_columns index types) ts rhs →
  order_less index types lhs rhs = Some (row_cmp (order_columns index types) lhs rhs <? 0).
Proof.
  revert types ts. induction index as [|i index IH]; intros [|type types] ts Hlen Hl Hr; try done. cbn in Hl, Hr.
  apply Forall2_cons_inv_l in Hl as (t & ts' & (v & Ev & Hv) & Hl & ->). apply Forall2_cons_inv_l in Hr as (? & ? & (w & Ew & Hw) & Hr & [= <- <-]).
  cbn in Ev, Ew. cbn. rewrite Ev, Ew. cbn [mbind option_bind]. rewrite (value_order_rank stof t) by done. cbn [mbind option_bind].
  unfold column_rank. rewrite Ev, Ew. case_bool; [by apply (IH types ts'); [injection Hlen|..]|]. cbn [head mbind option_bind]. destruct (bool_decide (type = ASC)); f_equal; repeat case_bool; lia.
Qed.

(** The tuples of the child in memory: they have the columns [cells], the values [vss], and the columns of the order can be
    compared. *)
Record Sortable (rows : list QTuple) (fields : list (string * string * string)) (types : list OrderByType) (cells : list TupleCellSpec)
    (vss : list (list Value)) (index : list nat) : Prop := {
  so_cells : Forall (λ t, tuple_specs t = Some cells) rows;
  so_values : mapM tuple_values rows = Some vss;
  so_index : field_index fields cells = Some index;
  so_types : length types = length index;
  so_order : ∃ ts, Forall (row_sortable (order_columns index types) ts) vss;
}.

Hypothesis sort_ok : sort_law sort.

(** The order the operator finds, for the positions and for the values. *)
Lemma sort_rows index types ts vss : length types = length index → Forall (row_sortable (order_columns index types) ts) vss →
  ∃ idx, sort (λ lhs rhs, l ← vss !! lhs; r ← vss !! rhs; order_less index types l r) (seq 0 (length vss)) = Some idx ∧
    idx ≡ₚ seq 0 (length vss) ∧
    ∃ out, mapM (λ n, vss !! n) idx = Some out ∧ out ≡ₚ vss ∧ StronglySorted (λ a b, row_cmp (order_columns index types) a b ≤ 0) out.
Proof.
  intros Hlen Hs. set (cmp := row_cmp (order_columns index types)). set (get n := default [] (vss !! n)).
  destruct (sort_ok (λ lhs rhs, l ← vss !! lhs; r ← vss !! rhs; order_less index types l r) (λ lhs rhs, cmp (get lhs) (get rhs) <? 0) (seq 0 (length vss)))
    as (idx & E & Hp & Hsort).
  { intros x y Hx%elem_of_seq Hy%elem_of_seq. unfold get. destruct (lookup_lt_is_Some_2 vss x ltac:(lia)) as [a Ea].
    destruct (lookup_lt_is_Some_2 vss y ltac:(lia)) as [b Eb]. rewrite Ea, Eb. cbn. rewrite Forall_forall in Hs.
    apply (order_less_cmp index types ts); [done|apply Hs; by eapply list_elem_of_lookup_2..]. }
  { pose proof (total_strict_weak cmp _ (λ _, True) (row_total _) ltac:(done)) as Hw. constructor.
    - intros x _. by apply (less_irrefl _ _ Hw).
    - intros x y z _ _ _. by apply (less_trans _ _ Hw).
    - intros x y z _ _ _. by apply (less_incomparable _ _ Hw). }
  exists idx. split; [done|]. split; [done|]. exists (get <$> idx).
  assert (Hget : ∀ l, Forall (λ n, (n < length vss)%nat) l → mapM (λ n, vss !! n) l = Some (get <$> l)).
  { intros l Hl. apply mapM_Some. induction Hl as [|n l Hn _ IH]; cbn; [done|]. constructor; [|done]. unfold get.
    by destruct (lookup_lt_is_Some_2 vss n Hn) as [a ->]. }
  split; [|split].
  - apply Hget. rewrite Hp. apply Forall_forall. intros n Hn%elem_of_seq. lia.
  - rewrite Hp. apply reflexive_eq. clear -get. subst get. induction vss as [|v vss IH]; [done|]. cbn. f_equal. rewrite <- IH at 2. by rewrite <- fmap_S_seq, <- list_fmap_compose.
  - clear -Hsort. induction Hsort as [|n l _ IH Hn]; cbn; constructor; [done|]. apply Forall_fmap. eapply Forall_impl; [done|]. intros m Hm%Z.ltb_ge.
    cbn. by apply (cmp_le_flip cmp (λ _, True) (TotalCompare0 := row_total _)).
Qed.

Section delivery.
Context (fields : list (string * string * string)) (types : list OrderByType) (cells : list TupleCellSpec).
Context (rows : list QTuple) (closed : C → Prop) (at_ : C → list QTuple → Prop) (over : C → Prop) (D : Delivery rows closed at_ over).

Definition ob_same o : Prop := ob_field_expressions o = fields ∧ ob_order_by_type o = types.
Definition ob_closed o : Prop := ob_same o ∧ closed (ob_child o) ∧ ob_tuples o = [] ∧ ob_tuples_index o = [] ∧ ob_i o = -1.
(** The input is in memory, with the order [idx] that gives [out]. *)
Definition ob_loaded (tuples out : list (list Value)) (idx : list nat) o : Prop :=
  ob_same o ∧ over (ob_child o) ∧ ob_tuples o = tuples ∧ (out = [] ∨ ob_tuple_cells o = cells) ∧ ob_tuples_index o = idx.

Lemma loaded_close tuples out idx o : ob_loaded tuples out idx o → ∃ o', order_by_close o = Some (RC_SUCCESS, o') ∧ ob_closed o'.
Proof.
  intros (Hs & Hov & _). destruct (dl_close_over _ _ _ _ D _ Hov) as (c' & E & Hcl). unfold order_by_close. rewrite E. eexists. split; [done|]. by split_and!.
Qed.

(** If opening it loads the input in the order [out], it gives [out]. *)
Lemma loaded_delivers c tuples out idx : closed c → mapM (λ n, tuples !! n) idx = Some out →
  (∀ o, ob_closed o → ∃ o', order_by_open o = Some (RC_SUCCESS, o') ∧ ob_loaded tuples out idx o' ∧ ob_i o' = -1) →
  delivers (mkOrderBy fields types c [] [] [] (-1)) ((λ values, Shell values cells) <$> out).
Proof.
  intros Hc Hout Hopen. assert (Hlen : length idx = length out) by (by apply mapM_Some, Forall2_length in Hout).
  exists ob_closed, (λ o xs, ob_loaded tuples out idx o ∧ ∃ k : nat, ob_i o = Z.of_nat k - 1 ∧ (k ≤ length out)%nat ∧ xs = (λ values, Shell values cells) <$> drop k out),
    (ob_loaded tuples out idx).
  split; [|by split_and!]. constructor.
  - intros o Ho. destruct (Hopen o Ho) as (o' & E & Hl & Ei). exists o'. split; [done|]. split; [done|]. exists 0%nat. split_and!; [lia|lia|done].
  - intros o x xs [Ho (k & Ei & Hk & Ex)]. destruct (drop k out) as [|v rest] eqn:Ed; [done|]. injection Ex as -> ->.
    assert (Ek : out !! k = Some v) by (rewrite <- (Nat.add_0_r k), <- lookup_drop; by rewrite Ed).
    assert (Hklt : (k < length out)%nat) by (by apply lookup_lt_Some in Ek).
    pose proof Ho as (Hs & Hov & Et & Ecells & Eidx). cbn. unfold order_by_next. rewrite Ei, Eidx, (proj2 (Z.eqb_neq _ _)) by lia.
    eexists. split; [done|]. split.
    + unfold order_by_tuple. cbn [ob_i ob_set ob_tuples_index ob_tuples ob_tuple_cells]. rewrite (proj2 (Z.ltb_ge _ _)) by lia.
      replace (Z.to_nat (Z.of_nat k - 1 + 1)) with k by lia. apply mapM_Some in Hout.
      destruct (Forall2_lookup_r _ _ _ _ _ Hout Ek) as (n & En & Ev). rewrite En. cbn [mbind option_bind]. rewrite Et, Ev. cbn [mbind option_bind].
      destruct Ecells as [->| ->]; [done|done].
    + split; [by split_and!|]. exists (S k). cbn. split; [lia|]. split; [lia|]. f_equal. replace (S k) with (k + 1)%nat by lia. by rewrite <- drop_drop, Ed.
  - intros o [Ho (k & Ei & Hk & Ex)]. symmetry in Ex. apply fmap_nil_inv in Ex. assert (k = length out) as ->.
    { apply (f_equal length) in Ex. rewrite length_drop in Ex. cbn in Ex. lia. }
    pose proof Ho as (Hs & Hov & Et & Ecells & Eidx). cbn. unfold order_by_next. rewrite Ei, Eidx, (proj2 (Z.eqb_eq _ _)) by lia. eexists. split; [done|]. by split_and!.
  - intros o xs [Ho _]. by apply (loaded_close tuples out idx).
  - intros o Ho. by apply (loaded_close tuples out idx).
Qed.
End delivery.

(** A sort gives the values of its child in an order. *)
Lemma order_by_delivers fields types c rows cells vss index : delivers c rows → (length rows < fuel)%nat → rows = [] ∨ Sortable rows fields types cells vss index →
  ∃ out, delivers (mkOrderBy fields types c [] [] [] (-1)) ((λ values, Shell values cells) <$> out) ∧
    match rows with [] => out = [] | _ => out ≡ₚ vss ∧ StronglySorted (λ a b, row_cmp (order_columns index types) a b ≤ 0) out end.
Proof.
  intros (closed & at_ & over & D & Hc) Hf Hrows.
  destruct rows as [|t rows].
  - exists []. split; [|done]. apply (loaded_delivers fields types cells [] closed at_ over D c [] [] []); [done..|]. intros o ((Ef & Ety) & Hcl & Et & Ex & Ei). unfold order_by_open.
    destruct (dl_open _ _ _ _ D _ Hcl) as (c1 & -> & Hat). cbn [mbind option_bind]. rewrite bool_decide_true by done. cbn [negb].
    destruct (dl_end _ _ _ _ D _ Hat) as (c2 & -> & Hov). cbn [mbind option_bind]. rewrite bool_decide_false, bool_decide_true by done. cbn [negb].
    eexists. split; [done|]. split; [|done]. split_and!; try done. by left.
  - destruct Hrows as [?|[Hcells Hv Hi Hlen [ts Hts]]]; [done|]. destruct (sort_rows index types ts vss Hlen Hts) as (idx & Es & _ & out & Eout & Hp & Hsorted).
    exists out. split; [|by split]. apply (loaded_delivers fields types cells (t :: rows) closed at_ over D c vss out idx); [done..|]. intros o ((Ef & Ety) & Hcl & Et & Ex & Ei). unfold order_by_open.
    destruct (dl_open _ _ _ _ D _ Hcl) as (c1 & -> & Hat). cbn [mbind option_bind]. rewrite bool_decide_true by done. cbn [negb].
    destruct (dl_row _ _ _ _ D _ _ _ Hat) as (c2 & -> & Ec & Hat2). cbn [mbind option_bind]. rewrite bool_decide_true by done. cbn [negb]. rewrite Ec. cbn [mbind option_bind].
    apply mapM_Some in Hv. apply Forall2_cons_inv_l in Hv as (v & vss' & Ev & Evs & ->). apply mapM_Some in Evs. rewrite Ev. cbn [mbind option_bind].
    apply Forall_cons in Hcells as [Ecells _]. rewrite Ecells. cbn [mbind option_bind ob_field_expressions ob_set ob_tuples ob_order_by_type]. rewrite Ef, Et, Hi. cbn [mbind option_bind app].
    cbn in Hf. destruct (drain_ok _ _ _ _ fuel D c2 rows vss' [v] Hat2 Evs ltac:(lia)) as (c3 & -> & Hov). cbn [mbind option_bind app].
    rewrite bool_decide_true by done. cbn [negb]. rewrite Ety, Es. cbn [mbind option_bind]. eexists. split; [done|]. split; [|done]. split_and!; try done. by right.
Qed.
End order_by.
#[global] Arguments OrderBy : clear implicits.
