(* ===== verification/GroupBy.v ===== *)
(** * Grouping and aggregation ([sql/operator/group_by_physical_operator.*])

    The operator reads all tuples of its child, puts them into a [std::map] by the values of the grouping columns, drops
    the groups for which the HAVING expression is false, and computes the aggregations of a group when its turn comes. *)
From Stdlib Require Import SpecFloat Sorted.
From stdpp Require Import strings sorting.
From S2P Require Import Prelude Rc Serializer BplusKey TableMeta Text Float Value ValueKey Aggregator Tuples Expression Operators RowOrder.

(** ** Walks over an expression *)

Section walk.
Context {T : Type} (worker : Expression T → option (Expression T)).

(** [src/src/observer/sql/expr/expression.h:352-361] [ComparisonExpr::check_or_get] and the [check_or_get] of the other classes (181-182, 203, 254,
    288, 314, 408-414, 463-472, 582-588, 640-651): the expressions directly below, then the expression; the worker gives the changed
    expression *)
Definition check_or_get (e : Expression T) : option (Expression T) :=
  let opt r := match r with Some r => Some <$> worker r | None => Some None end in
  match e with
  | ComparisonExpr comp l r => l ← worker l; r ← opt r; worker (ComparisonExpr comp l r)
  | ConjunctionExpr type cs => cs ← mapM worker cs; worker (ConjunctionExpr type cs)
  | ArithmeticExpr type l r => l ← worker l; r ← opt r; worker (ArithmeticExpr type l r)
  | AggregateExpr c a => c ← opt c; worker (AggregateExpr c a)
  | ValueList es => es ← mapM worker es; worker (ValueList es)
  | e => worker e
  end.
End walk.

Section group_by.
Variable stof : list Z → option float32.
Variable fuel : nat.
Context {C : Type} `{PhysicalOperator C QTuple}.

(** The groups in the order of their keys: the values of the first row, and the rows. *)
Definition Groups : Type := list (list Value * list (list Value)).

(** An aggregation: its argument, if it has one, and its state. *)
Definition Aggregation : Type := option (Expression QTuple) * Aggregator.

(** [src/src/observer/sql/operator/group_by_physical_operator.h:111-121] [GroupByPhysicalOperator] the aggregations of [gb_having] are objects of
    their own; the iterator is a position; [tuple_] is its cells and names *)
Record GroupBy := mkGroupBy {
  gb_aggregate_expressions : list Aggregation;
  gb_groupby_fields : list (Expression QTuple);
  gb_field_expressions : list (Expression QTuple);
  gb_schema : list TupleCellSpec;
  gb_tuples : list (list Value);
  gb_groups : Groups;
  gb_iter : nat;
  gb_having : option (Expression QTuple);
  gb_cells : list Value;
  gb_names : list TupleCellSpec;
  gb_first : bool;
  gb_child : C;
}.
Implicit Types (o : GroupBy).

Definition gb_with_child o (c : C) : GroupBy :=
  mkGroupBy (gb_aggregate_expressions o) (gb_groupby_fields o) (gb_field_expressions o) (gb_schema o) (gb_tuples o) (gb_groups o) (gb_iter o) (gb_having o)
    (gb_cells o) (gb_names o) (gb_first o) c.
Definition gb_with_input o (schema : list TupleCellSpec) (tuples : list (list Value)) (groups : Groups) : GroupBy :=
  mkGroupBy (gb_aggregate_expressions o) (gb_groupby_fields o) (gb_field_expressions o) schema tuples groups (gb_iter o) (gb_having o)
    (gb_cells o) (gb_names o) (gb_first o) (gb_child o).
Definition gb_with_groups o (groups : Groups) (having : option (Expression QTuple)) (iter : nat) (first : bool) : GroupBy :=
  mkGroupBy (gb_aggregate_expressions o) (gb_groupby_fields o) (gb_field_expressions o) (gb_schema o) (gb_tuples o) groups iter having
    (gb_cells o) (gb_names o) first (gb_child o).
Definition gb_with_row o (aggs : list Aggregation) (cells : list Value) (iter : nat) : GroupBy :=
  mkGroupBy aggs (gb_groupby_fields o) (gb_field_expressions o) (gb_schema o) (gb_tuples o) (gb_groups o) iter (gb_having o)
    cells (gb_names o) false (gb_child o).

(** [src/src/observer/sql/operator/group_by_physical_operator.h:39-57] [GroupByKey::operator<] the two values are out parameters that stay
    from one column to the next *)
Fixpoint key_less_loop (fields : list (Expression QTuple)) (left right : Value) (lhs rhs : QTuple) : option bool :=
  match fields with
  | [] => Some false
  | field :: fields =>
      '(_, left) ← get_value stof field lhs left; '(_, right) ← get_value stof field rhs right;
      result ← value_order stof left right;
      if negb (result =? 0) then Some (result <? 0) else key_less_loop fields left right lhs rhs
  end.
Definition key_less (schema : list TupleCellSpec) (fields : list (Expression QTuple)) (lhs rhs : list Value) : option bool :=
  if bool_decide (length rhs = length lhs) then key_less_loop fields Value_new Value_new (Shell lhs schema) (Shell rhs schema) else None.

(** [src/src/observer/sql/operator/group_by_physical_operator.cpp:111-111] [GroupByPhysicalOperator::group_by] [map::operator\[\]] and [push_back]: the
    row goes to the group whose key is neither less nor greater, or becomes the key of a new one *)
Fixpoint map_push (less : list Value → list Value → option bool) (row : list Value) (groups : Groups) : option Groups :=
  match groups with
  | [] => Some [(row, [row])]
  | (k, g) :: rest =>
      b ← less k row;
      if b : bool then rest ← map_push less row rest; Some ((k, g) :: rest)
      else b ← less row k; Some (if b : bool then (row, [row]) :: groups else (k, g ++ [row]) :: rest)
  end.

(** [src/src/observer/sql/operator/group_by_physical_operator.cpp:106-112] [GroupByPhysicalOperator::group_by] *)
Fixpoint group_rows (less : list Value → list Value → option bool) (rows : list (list Value)) (groups : Groups) : option Groups :=
  match rows with [] => Some groups | row :: rows => groups ← map_push less row groups; group_rows less rows groups end.

(** [src/src/observer/sql/operator/group_by_physical_operator.cpp:54-116] [GroupByPhysicalOperator::group_by] *)
Definition group_by_input o : option (RC * GroupBy) :=
  '(rc, c) ← op_open (gb_child o);
  if negb (bool_decide (rc = RC_SUCCESS)) then Some (rc, gb_with_child o c)
  else
    '(rc, c) ← op_next c;
    if negb (bool_decide (rc = RC_SUCCESS)) then Some (if bool_decide (rc = RC_RECORD_EOF) then RC_SUCCESS else rc, gb_with_child o c)
    else
      t ← op_current_tuple c; values ← tuple_values t; specs ← tuple_specs t;
      let schema := gb_schema o ++ specs in
      '(rc, c, tuples) ← drain fuel c (gb_tuples o ++ [values]);
      let o := gb_with_child o c in
      if negb (bool_decide (rc = RC_RECORD_EOF)) then Some (rc, gb_with_input o schema tuples (gb_groups o))
      else
        groups ← group_rows (key_less schema (gb_groupby_fields o)) tuples (gb_groups o);
        Some (RC_SUCCESS, gb_with_input o schema tuples groups).

(** The workers of [group_filter]: only aggregations change. *)
Definition expr_reset (e : Expression QTuple) : option (Expression QTuple) :=
  Some (match e with AggregateExpr c a => AggregateExpr c (agg_reset a) | e => e end).
Definition expr_accumulate (tuple : QTuple) (e : Expression QTuple) : option (Expression QTuple) :=
  match e with AggregateExpr c a => '(_, a) ← accumulate stof c a tuple; Some (AggregateExpr c a) | e => Some e end.

(** [src/src/observer/sql/operator/group_by_physical_operator.cpp:202-215] [GroupByPhysicalOperator::group_filter] one group; the expression is
    evaluated on the last row *)
Definition having_value (schema : list TupleCellSpec) (having : Expression QTuple) (rows : list (list Value)) : option (Expression QTuple * bool) :=
  having ← check_or_get expr_reset having;
  having ← foldl (λ h row, h ← h; check_or_get (expr_accumulate (Shell row schema)) h) (Some having) rows;
  row ← last rows;
  '(_, value) ← get_value stof having (Shell row schema) Value_new;
  Some (having, get_boolean value).

(** The loop over the groups. *)
Fixpoint filter_groups (schema : list TupleCellSpec) (having : Expression QTuple) (groups : Groups) : option (Expression QTuple * Groups) :=
  match groups with
  | [] => Some (having, [])
  | (k, g) :: groups =>
      '(having, keep) ← having_value schema having g;
      '(having, groups) ← filter_groups schema having groups;
      Some (having, if keep : bool then (k, g) :: groups else groups)
  end.

(** [src/src/observer/sql/operator/group_by_physical_operator.cpp:118-224] [GroupByPhysicalOperator::group_filter] *)
Definition group_filter o : option GroupBy :=
  match gb_having o with
  | None => Some o
  | Some having => '(having, groups) ← filter_groups (gb_schema o) having (gb_groups o); Some (gb_with_groups o groups (Some having) (gb_iter o) (gb_first o))
  end.

(** [src/src/observer/sql/operator/group_by_physical_operator.cpp:254-271] [GroupByPhysicalOperator::open] *)
Definition group_by_open o : option (RC * GroupBy) :=
  '(rc, o) ← group_by_input o;
  if negb (bool_decide (rc = RC_SUCCESS)) then Some (rc, o)
  else o ← group_filter o; Some (RC_SUCCESS, gb_with_groups o (gb_groups o) (gb_having o) 0 true).

Definition reset_all (aggs : list Aggregation) : list Aggregation := (λ '(c, a), (c, agg_reset a)) <$> aggs.

(** [src/src/observer/sql/operator/group_by_physical_operator.cpp:273-304] [GroupByPhysicalOperator::close] *)
Definition group_by_close o : option (RC * GroupBy) :=
  '(rc, c) ← op_close (gb_child o);
  let o := gb_with_child o c in
  if negb (bool_decide (rc = RC_SUCCESS)) then Some (rc, o)
  else Some (RC_SUCCESS, mkGroupBy (reset_all (gb_aggregate_expressions o)) (gb_groupby_fields o) (gb_field_expressions o) [] [] [] 0 (gb_having o)
    (gb_cells o) (gb_names o) (gb_first o) c).

Definition is_count (a : Aggregation) : bool := match ag_type a.2 with COUNT | COUNT_STAR => true | _ => false end.

(** The values of the aggregations. *)
Definition evaluate_all (aggs : list Aggregation) : option (list Value) := mapM (λ '(_, a), snd <$> agg_evaluate stof a Value_new) aggs.

(** [src/src/observer/sql/operator/group_by_physical_operator.cpp:226-252] [GroupByPhysicalOperator::deal_with_empty_table] *)
Definition deal_with_empty_table o : option (RC * GroupBy) :=
  let o' := gb_with_row o (gb_aggregate_expressions o) (gb_cells o) (gb_iter o) in
  if negb (bool_decide (length (gb_field_expressions o) = 0%nat)) then Some (RC_RECORD_EOF, o')
  else if negb (existsb is_count (gb_aggregate_expressions o)) then Some (RC_RECORD_EOF, o')
  else values ← evaluate_all (gb_aggregate_expressions o); Some (RC_SUCCESS, gb_with_row o (gb_aggregate_expressions o) (copy_value <$> values) (gb_iter o)).

(** [src/src/observer/sql/operator/group_by_physical_operator.cpp:327-331] [GroupByPhysicalOperator::next] a row of the group *)
Definition accumulate_all (aggs : list Aggregation) (tuple : QTuple) : option (list Aggregation) :=
  mapM (λ '(c, a), '(_, a) ← accumulate stof c a tuple; Some (c, a)) aggs.

(** [src/src/observer/sql/operator/group_by_physical_operator.cpp:323-347] [GroupByPhysicalOperator::next] the row of a group *)
Definition group_row o (iter : nat) : option (RC * GroupBy) :=
  '(k, g) ← gb_groups o !! iter;
  aggs ← foldl (λ aggs row, aggs ← aggs; accumulate_all aggs (Shell row (gb_schema o))) (Some (reset_all (gb_aggregate_expressions o))) g;
  fields ← mapM (λ f, snd <$> get_value stof f (Shell k (gb_schema o)) Value_new) (gb_field_expressions o);
  values ← evaluate_all aggs;
  Some (RC_SUCCESS, gb_with_row o aggs (copy_value <$> fields ++ values) iter).

(** [src/src/observer/sql/operator/group_by_physical_operator.cpp:306-348] [GroupByPhysicalOperator::next] *)
Definition group_by_next o : option (RC * GroupBy) :=
  let at_end iter := bool_decide (length (gb_groups o) ≤ iter)%nat in
  let stay := gb_with_groups o (gb_groups o) (gb_having o) (gb_iter o) false in
  if gb_first o && bool_decide (gb_groups o = []) && negb (bool_decide (length (gb_aggregate_expressions o) = 0%nat)) then deal_with_empty_table o
  else if gb_first o then if at_end (gb_iter o) then Some (RC_RECORD_EOF, stay) else group_row o (gb_iter o)
  else if at_end (gb_iter o) then Some (RC_RECORD_EOF, stay)
  else if at_end (S (gb_iter o)) then Some (RC_RECORD_EOF, gb_with_groups o (gb_groups o) (gb_having o) (S (gb_iter o)) false)
  else group_row o (S (gb_iter o)).

(** [src/src/observer/sql/operator/group_by_physical_operator.cpp:30-52] [GroupByPhysicalOperator::GroupByPhysicalOperator] the names of the fields
    (table, field) and of the aggregations *)
Definition GroupBy_new (aggs : list Aggregation) (agg_names : list string) (keys fields : list (Expression QTuple)) (field_names : list (string * string))
    (having : option (Expression QTuple)) (c : C) : GroupBy :=
  let names := ((λ '(table, field), TupleCellSpec_new table field "") <$> field_names) ++ (TupleCellSpec_alias <$> agg_names) in
  mkGroupBy aggs keys fields [] [] [] 0 having (replicate (length names) Value_new) names false c.

#[export] Instance group_by : PhysicalOperator GroupBy QTuple :=
  {| op_open := group_by_open; op_next := group_by_next; op_close := group_by_close; op_current_tuple o := Some (Shell (gb_cells o) (gb_names o)) |}.
End group_by.
#[global] Arguments GroupBy : clear implicits.

(** ** Groups *)

Section grouping.
Context (cmp : list Value → list Value → Z) `{!TotalCompare cmp (λ _, True)}.

(** The group of a key. *)
Definition same_key (k row : list Value) : bool := cmp k row =? 0.

(** [groups] are the rows by their keys, in the order of the keys; a group has its rows in the order of the input, the first
    one is the key. *)
Record Grouping (rows : list (list Value)) (groups : Groups) : Prop := {
  gr_sorted : StronglySorted (λ a b, cmp a b < 0) groups.*1;
  gr_rows : Forall (λ e, head e.2 = Some e.1 ∧ e.2 = List.filter (same_key e.1) rows) groups;
  gr_all : Forall (λ row, Exists (λ e, cmp e.1 row = 0) groups) rows;
}.

Lemma grouping_nil : Grouping [] [].
Proof. by repeat constructor. Qed.

(** Where a row goes. *)
Lemma map_push_split less row groups : StronglySorted (λ a b, cmp a b < 0) groups.*1 →
  Forall (λ e, less e.1 row = Some (cmp e.1 row <? 0) ∧ less row e.1 = Some (cmp row e.1 <? 0)) groups →
  ∃ m1 m2, Forall (λ e, cmp e.1 row < 0) m1 ∧ Forall (λ e, cmp row e.1 < 0) m2 ∧
    ((groups = m1 ++ m2 ∧ map_push less row groups = Some (m1 ++ (row, [row]) :: m2)) ∨
     ∃ k g, cmp k row = 0 ∧ groups = m1 ++ (k, g) :: m2 ∧ map_push less row groups = Some (m1 ++ (k, g ++ [row]) :: m2)).
Proof.
  induction groups as [|[k g] groups IH]; intros Hs Hl.
  - exists [], []. split; [done|]. split; [done|]. by left.
  - apply StronglySorted_inv in Hs as [Hs Hk]. apply Forall_cons in Hl as [[E1 E2] Hl]. apply Forall_fmap in Hk. specialize (IH Hs). cbn [fst snd] in *. cbn [map_push]. rewrite E1. cbn [mbind option_bind]. destruct (Z.ltb_spec (cmp k row) 0) as [Hlt|Hge].
    + destruct (IH Hl) as (m1 & m2 & H1 & H2 & [[-> ->]|(k' & g' & Ek & -> & ->)]); exists ((k, g) :: m1), m2; (split; [by constructor|]); (split; [done|]); [by left|right; by exists k', g'].
    + rewrite E2. cbn [mbind option_bind]. exists []. assert (Hrest : ∀ n, cmp row k ≤ n → n ≤ 0 → Forall (λ e, cmp row e.1 < 0) groups).
      { intros n Hn Hn0. eapply Forall_impl; [exact Hk|]. intros e He. cbn in He. apply (cmp_le_lt_trans cmp (λ _, True) row k e.1); [done..|lia|done]. }
      destruct (Z.ltb_spec (cmp row k) 0) as [Hlt|Hge2].
      * exists ((k, g) :: groups). split; [done|]. split; [constructor; [done|apply (Hrest (cmp row k)); lia]|]. by left.
      * exists groups. assert (E0 : cmp row k = 0) by (apply (cmp_le_flip cmp (λ _, True)) in Hge; [lia|done..]). split; [done|]. split; [apply (Hrest 0); lia|]. right.
        exists k, g. split; [by apply (cmp_eq_sym cmp (λ _, True))|done].
Qed.

Lemma filter_other k rows row : cmp k row ≠ 0 → List.filter (same_key k) (rows ++ [row]) = List.filter (same_key k) rows.
Proof. intros Hk. rewrite List.filter_app. cbn. unfold same_key at 2. by rewrite (proj2 (Z.eqb_neq _ _)), app_nil_r. Qed.

Lemma same_trans k r row : cmp k r = 0 → cmp row r = 0 → cmp k row = 0.
Proof.
  intros E1 E2. assert (E3 : cmp r row = 0) by (by apply (cmp_eq_sym cmp (λ _, True))). assert (E4 : cmp r k = 0) by (by apply (cmp_eq_sym cmp (λ _, True))).
  pose proof (cmp_trans (cmp := cmp) k r row I I I). pose proof (cmp_trans (cmp := cmp) row r k I I I).
  pose proof (cmp_le_flip cmp (λ _, True) row k I I). lia.
Qed.

Lemma filter_nil {A} (f : A → bool) l : List.filter f l = [] ↔ ∀ x, x ∈ l → f x = false.
Proof.
  induction l as [|x l IH]; cbn; [split; [by intros _ y ?%elem_of_nil|done]|]. destruct (f x) eqn:E; split; intros Hx; try done.
  - specialize (Hx x ltac:(by left)). congruence.
  - intros y [->|Hy]%elem_of_cons; [done|by apply IH].
  - apply IH. intros y Hy. apply Hx. by right.
Qed.

Lemma map_push_grouping less rows row groups : Grouping rows groups →
  Forall (λ e, less e.1 row = Some (cmp e.1 row <? 0) ∧ less row e.1 = Some (cmp row e.1 <? 0)) groups →
  ∃ groups', map_push less row groups = Some groups' ∧ Grouping (rows ++ [row]) groups' ∧ (∀ k, k ∈ groups'.*1 → k = row ∨ k ∈ groups.*1).
Proof.
  intros [Hs Hr Ha] Hl. destruct (map_push_split less row groups Hs Hl) as (m1 & m2 & H1 & H2 & Hcase).
  assert (Hkeep : ∀ m, Forall (λ e, cmp e.1 row ≠ 0) m → Forall (λ e, head e.2 = Some e.1 ∧ e.2 = List.filter (same_key e.1) rows) m →
    Forall (λ e, head e.2 = Some e.1 ∧ e.2 = List.filter (same_key e.1) (rows ++ [row])) m).
  { intros m Hm Hm'. rewrite Forall_forall in *. intros e He. destruct (Hm' e He) as [Eh Ef]. by rewrite filter_other by auto. }
  assert (N1 : Forall (λ e : list Value * list (list Value), cmp e.1 row ≠ 0) m1) by (eapply Forall_impl; [exact H1|intros; cbn in *; lia]).
  assert (N2 : Forall (λ e : list Value * list (list Value), cmp e.1 row ≠ 0) m2).
  { eapply Forall_impl; [exact H2|]. intros e He. cbn in *. pose proof (cmp_flip row e.1 I I). lia. }
  destruct Hcase as [[-> ->]|(k & g & Ek & -> & ->)]; (eexists; split; [done|]); rewrite !fmap_app in *; cbn [fmap list_fmap fst] in *; split.
  - apply Forall_app in Hr as [Hr1 Hr2]. apply StronglySorted_app in Hs as (Hx & Hs1 & Hs2). constructor.
    + rewrite fmap_app. cbn [fmap list_fmap fst]. apply StronglySorted_app. split; [|split; [done|]].
      * intros a b Ha1 [->|Hb]%elem_of_cons; [|by apply Hx]. apply list_elem_of_fmap in Ha1 as (e & -> & He). rewrite Forall_forall in H1. by apply H1.
      * constructor; [done|]. by apply Forall_fmap.
    + apply Forall_app. split; [by apply Hkeep|]. constructor; [|by apply Hkeep]. split; [done|]. cbn [fst snd]. rewrite List.filter_app. cbn.
      unfold same_key at 2. rewrite (cmp_refl row) by done. cbn. rewrite (proj2 (filter_nil (same_key row) rows)); [done|]. intros r Hin.
      unfold same_key. apply Z.eqb_neq. intros E. rewrite Forall_forall in Ha. specialize (Ha r Hin). apply Exists_exists in Ha as (e & He & Ee).
      pose proof (same_trans e.1 r row Ee E). rewrite Forall_forall in N1, N2. apply elem_of_app in He as [He|He]; [by apply (N1 e)|by apply (N2 e)].
    + apply Forall_app. split; [|constructor; [|done]; apply Exists_app; right; left; by apply (cmp_refl row)].
      eapply Forall_impl; [exact Ha|]. intros r. cbn. rewrite !Exists_app, Exists_cons. tauto.
  - intros k Hk. rewrite !elem_of_app, elem_of_cons in *. tauto.
  - apply Forall_app in Hr as [Hr1 Hr2]. apply Forall_cons in Hr2 as [[Eh Ef] Hr2]. cbn [fst snd] in *. constructor.
    + by rewrite fmap_app.
    + apply Forall_app. split; [by apply Hkeep|]. constructor; [|by apply Hkeep]. cbn [fst snd]. split; [by destruct g|].
      rewrite List.filter_app, <- Ef. cbn. unfold same_key. by rewrite (proj2 (Z.eqb_eq _ _)).
    + apply Forall_app. split; [|constructor; [|done]; apply Exists_app; right; by left].
      eapply Forall_impl; [exact Ha|]. intros r. cbn. rewrite !Exists_app, !Exists_cons. tauto.
  - intros k' Hk. rewrite !elem_of_app, elem_of_cons in *. tauto.
Qed.
End grouping.

(** ** Keys and aggregations of columns *)

Section columns.
Variable stof : list Z → option float32.
Variable schema : list TupleCellSpec.

(** The expression is a column of the input. *)
Definition field_at (e : Expression QTuple) (i : nat) : Prop :=
  ∃ table field alias type, e = FieldExpr table field alias type ∧ find_spec (TupleCellSpec_new table field alias) schema = Some i.

Lemma get_field e i row v value : field_at e i → length row = length schema → row !! i = Some v →
  get_value stof e (Shell row schema) value = Some (RC_SUCCESS, copy_value v).
Proof.
  intros (table & field & alias & type & -> & Ei) Hl Ev. unfold get_value. cbn. rewrite bool_decide_true by done. by rewrite Ei, Ev.
Qed.

Lemma find_spec_lt spec specs i : find_spec spec specs = Some i → (i < length specs)%nat.
Proof.
  revert i. induction specs as [|s specs IH]; intros i; cbn; [done|]. case_bool_decide; [intros [= <-]; lia|].
  destruct (find_spec spec specs) as [n|] eqn:E; cbn; [|done]. intros [= <-]. specialize (IH n eq_refl). lia.
Qed.

Definition key_columns (idx : list nat) : Columns := (λ i, (i, true)) <$> idx.

Lemma key_less_cmp fields idx ts a b : Forall2 field_at fields idx → length a = length schema → length b = length schema →
  row_sortable (key_columns idx) ts a → row_sortable (key_columns idx) ts b →
  key_less stof schema fields a b = Some (row_cmp (key_columns idx) a b <? 0).
Proof.
  intros Hf Hla Hlb. unfold key_less. rewrite bool_decide_true by congruence. generalize Value_new at 1 as left. generalize Value_new as right. revert ts.
  induction Hf as [|e i fields idx He _ IH]; intros ts right left Ha Hb; [done|]. cbn in Ha, Hb.
  apply Forall2_cons_inv_l in Ha as (t & ts' & (v & Ev & Hv) & Ha & ->). apply Forall2_cons_inv_l in Hb as (? & ? & (w & Ew & Hw) & Hb & [= <- <-]). cbn in Ev, Ew.
  cbn [key_less_loop]. rewrite (get_field e i a v), (get_field e i b w) by done. cbn [mbind option_bind].
  destruct (copy_sortable t v Hv) as [Hv' Rv], (copy_sortable t w Hw) as [Hw' Rw]. rewrite (value_order_rank stof t) by done. rewrite Rv, Rw. cbn [mbind option_bind].
  cbn [key_columns fmap list_fmap row_cmp]. unfold column_rank. rewrite Ev, Ew. fold (key_columns idx). destruct (Z.eqb_spec (lex_compare (rank v) (rank w)) 0); cbn [negb]; [|done]. by apply (IH ts').
Qed.

(** The groups of the rows. *)
Lemma group_rows_grouping fields idx ts rows : Forall2 field_at fields idx →
  Forall (λ row, length row = length schema ∧ row_sortable (key_columns idx) ts row) rows →
  ∃ m, group_rows (key_less stof schema fields) rows [] = Some m ∧ Grouping (row_cmp (key_columns idx)) rows m.
Proof.
  intros Hf. pose proof (row_total (key_columns idx)) as Ht.
  enough (∀ rows m done_, Forall (λ row, length row = length schema ∧ row_sortable (key_columns idx) ts row) rows →
    Forall (λ row, length row = length schema ∧ row_sortable (key_columns idx) ts row) m.*1 → Grouping (row_cmp (key_columns idx)) done_ m →
    ∃ m', group_rows (key_less stof schema fields) rows m = Some m' ∧ Grouping (row_cmp (key_columns idx)) (done_ ++ rows) m') as Hgo.
  { intros Hr. apply (Hgo rows [] []); [done|by constructor|apply grouping_nil]. }
  clear rows. induction rows as [|row rows IH]; intros m done_ Hr Hm Hg; [exists m; by rewrite app_nil_r|]. apply Forall_cons in Hr as [[Hlen Hrow] Hr].
  cbn [group_rows]. destruct (map_push_grouping (row_cmp (key_columns idx)) (key_less stof schema fields) done_ row m Hg) as (m' & -> & Hg' & Hin).
  { apply Forall_fmap in Hm. eapply Forall_impl; [exact Hm|]. intros e [Hl Hs]. split; by apply (key_less_cmp _ _ ts). }
  cbn [mbind option_bind]. destruct (IH m' (done_ ++ [row]) Hr) as (m2 & -> & Hg2); [|done|exists m2; by rewrite <- app_assoc in Hg2].
  apply Forall_forall. intros k Hk. destruct (Hin k Hk) as [->|Hk']; [done|]. rewrite Forall_forall in Hm. by apply Hm.
Qed.

(** An aggregation of a column, or of the rows. *)
Definition aggregation_of (arg : option (Expression QTuple)) (type : AggregateType) (j : option nat) : Prop :=
  match arg, j with
  | Some e, Some j => field_at e j
  | None, None => type = COUNT_STAR
  | _, _ => False
  end.

(** The numbers of a column; there is no number to count rows. *)
Definition column_ints (j : option nat) (rows : list (list Value)) : list Z :=
  match j with None => (λ _, 0) <$> rows | Some j => (λ row, match row !! j with Some v => int_value v | None => 0 end) <$> rows end.

(** The column has integers, and their sum is one. *)
Definition summable (j : option nat) (rows : list (list Value)) : Prop :=
  (∀ row, row ∈ rows → match j with None => True | Some j => ∃ z, row !! j = Some (set_int z) end) ∧
  abs_sum (non_null (column_ints j rows)) ≤ INT32_MAX ∧ Z.of_nat (length rows) ≤ INT32_MAX.

(** The state before the first row of a group, and after the rows [g]. *)
Definition agg_idle (type : AggregateType) (a : Aggregator) : Prop := ag_type a = type ∧ v_own (ag_value a) = false ∧ (type ≠ AVG → ag_count a = 0).
Definition agg_after (type : AggregateType) (j : option nat) (g : list (list Value)) (a : Aggregator) : Prop :=
  match g with [] => ∃ a', agg_idle type a' ∧ a = agg_reset a' | _ => a = agg_state stof type (column_ints j g) end.

Lemma state_idle type l : agg_idle type (agg_state stof type l).
Proof.
  split; [done|]. split; [|by destruct type]. unfold agg_state. cbn [ag_value].
  destruct l as [|z l]; [done|]. destruct type; cbn [aggregate_spec]; try done; by destruct (fold_opt _ _).
Qed.

Lemma reset_accumulate type a v : agg_idle type a → agg_accumulate stof (agg_reset a) v = agg_accumulate stof (create_aggregator type) v.
Proof.
  destruct a as [t [vt vl vv vo] n]. intros (E & Ho & Hn). cbn in E, Ho, Hn. subst t vo. unfold agg_accumulate, agg_reset, create_aggregator. cbn [ag_type ag_value ag_count].
  destruct type; try rewrite Hn by done; done.
Qed.

Lemma count_star_any a v w : ag_type a = COUNT_STAR → agg_accumulate stof a v = agg_accumulate stof a w.
Proof. intros E. unfold agg_accumulate. by rewrite E. Qed.

Lemma column_ints_app j g1 g2 : column_ints j (g1 ++ g2) = column_ints j g1 ++ column_ints j g2.
Proof. unfold column_ints. destruct j; by rewrite fmap_app. Qed.
Lemma column_ints_length j g : length (column_ints j g) = length g.
Proof. unfold column_ints. destruct j; by rewrite length_fmap. Qed.

Lemma abs_sum_non_null_app l1 l2 : abs_sum (non_null (l1 ++ l2)) = abs_sum (non_null l1) + abs_sum (non_null l2).
Proof. by rewrite non_null_app, abs_sum_app. Qed.

Lemma summable_app j g1 g2 : summable j (g1 ++ g2) → summable j g1.
Proof.
  intros (Hin & Hs & Hl). rewrite column_ints_app, abs_sum_non_null_app in Hs. rewrite length_app in Hl. pose proof (abs_sum_pos (non_null (column_ints j g2))).
  split; [|lia]. intros row Hr. apply Hin. set_solver.
Qed.

Lemma summable_filter j f g : summable j g → summable j (List.filter f g).
Proof.
  intros (Hin & Hs & Hl). split; [|split].
  - intros row Hr. apply Hin. by apply list_elem_of_In, filter_In, proj1, list_elem_of_In in Hr.
  - etransitivity; [|exact Hs]. clear -j. induction g as [|row g IH]; [done|]. change (row :: g) with ([row] ++ g). rewrite column_ints_app, abs_sum_non_null_app. cbn [List.filter app].
    pose proof (abs_sum_pos (non_null (column_ints j [row]))). destruct (f row); [|lia].
    change (row :: List.filter f g) with ([row] ++ List.filter f g). rewrite column_ints_app, abs_sum_non_null_app. lia.
  - pose proof (List.filter_length_le f g). lia.
Qed.

Lemma state_step type l z : abs_sum (non_null (l ++ [z])) ≤ INT32_MAX → Z.of_nat (length (l ++ [z])) ≤ INT32_MAX →
  agg_accumulate stof (agg_state stof type l) (set_int z) = Some (agg_state stof type (l ++ [z])).
Proof. intros Hs Hl. destruct (decide (z = INT_NULL)); [by apply accumulate_null|by apply accumulate_number]. Qed.

(** One row of a group. *)
Lemma accumulate_step arg type j g row a : aggregation_of arg type j → length row = length schema → summable j (g ++ [row]) → agg_after type j g a →
  ∃ a', accumulate stof arg a (Shell row schema) = Some (RC_SUCCESS, a') ∧ agg_after type j (g ++ [row]) a'.
Proof.
  intros Harg Hlen (Hin & Hs & Hl) Ha. specialize (Hin row ltac:(set_solver)).
  rewrite column_ints_app in Hs. rewrite <- (column_ints_length j), column_ints_app in Hl.
  assert (Hstep : ∀ z, column_ints j [row] = [z] → agg_accumulate stof a (set_int z) = Some (agg_state stof type (column_ints j (g ++ [row])))).
  { intros z Ez. rewrite Ez in Hs, Hl. rewrite column_ints_app, Ez. destruct g as [|r g].
    - destruct Ha as (a' & Hi & ->). rewrite (reset_accumulate type) by done. change (column_ints j []) with (column_ints j []). replace (column_ints j []) with (@nil Z) in * by (by destruct j).
      replace (create_aggregator type) with (agg_state stof type []) by (by destruct type). by apply state_step.
    - cbn in Ha. subst a. by apply state_step. }
  assert (Hnil : ∀ a', a' = agg_state stof type (column_ints j (g ++ [row])) → agg_after type j (g ++ [row]) a').
  { intros a' ->. unfold agg_after. by destruct g. }
  unfold accumulate. destruct arg as [e|], j as [j|]; try done.
  - destruct Hin as [z Ez]. rewrite (get_field e j row (set_int z)) by done. cbn [mbind option_bind]. rewrite bool_decide_true by done. cbn [negb].
    change (copy_value (set_int z)) with (set_int z). rewrite (Hstep z) by (cbn; by rewrite Ez). eexists. split; [done|]. by apply Hnil.
  - cbn in Harg. subst type. cbn [cell_at q_tuple q_cell_at].
    assert (Et : ag_type a = COUNT_STAR) by (destruct g; [by destruct Ha as (a' & (? & _) & ->)|by rewrite Ha]).
    destruct (row !! 0%nat); cbn [mbind option_bind]; rewrite (count_star_any a _ (set_int 0)), (Hstep 0) by done; (eexists; split; [done|]; by apply Hnil).
Qed.
End columns.

(** ** What the operator gives *)

Lemma copy_copy v : copy_value (copy_value v) = copy_value v.
Proof.
  destruct v as [t n w o]. unfold copy_value. cbn [v_type v_value v_length v_own]. destruct t; try done.
  - unfold set_string_from_other, pointer_value. cbn [v_value v_type v_length v_own].
    destruct w as [z|[s|]|p]; try done. cbn [v_own v_length v_type].
    destruct (o && negb (n =? 0)) eqn:E; cbn [v_value v_own v_length v_type]; [|done]. rewrite E. by rewrite take_take, Nat.min_id.
Qed.

Lemma zip_at {A B} (P : A → B → Prop) (l : list A) (l' : list B) : Forall2 P l l' → Forall (λ ab, P ab.1 ab.2) (zip l l').
Proof. induction 1; cbn; by constructor. Qed.

Section delivery.
Variable stof : list Z → option float32.
Variable fuel : nat.
Context {C : Type} `{PhysicalOperator C QTuple}.
Implicit Types (o : GroupBy C).

(** The aggregations: argument, kind, column. *)
Context (args : list (option (Expression QTuple) * AggregateType)) (js : list (option nat)).
Context (keys fields : list (Expression QTuple)) (names : list TupleCellSpec).
(** The input: its columns, its values, the columns of the keys and of the fields. *)
Context (schema : list TupleCellSpec) (rows : list (list Value)) (idx fidx : list nat) (ts : list AttrType).
Hypothesis keys_at : Forall2 (field_at schema) keys idx.
Hypothesis fields_at : Forall2 (field_at schema) fields fidx.
Hypothesis args_at : Forall2 (λ a j, aggregation_of schema a.1 a.2 j ∧ summable j rows) args js.
Hypothesis rows_ok : Forall (λ row, length row = length schema ∧ row_sortable (key_columns idx) ts row) rows.

(** The row of a group. *)
Definition group_cells (k : list Value) (g : list (list Value)) : list Value :=
  ((λ i, copy_value (default Value_new (k !! i))) <$> fidx) ++ zip_with (λ a j, aggregate_spec stof a.2 (column_ints j g)) args js.

(** The aggregations of the operator, each in a state. *)
Definition aggs_are (P : AggregateType → option nat → Aggregator → Prop) (aggs : list Aggregation) : Prop :=
  Forall2 (λ aj agg, agg.1 = aj.1.1 ∧ P aj.1.2 aj.2 agg.2) (zip args js) aggs.
Definition aggs_idle : list Aggregation → Prop := aggs_are (λ type _, agg_idle type).

Lemma spec_copy type l : copy_value (aggregate_spec stof type l) = aggregate_spec stof type l.
Proof.
  destruct type; cbn [aggregate_spec]; try done; destruct (fold_opt _ _); try done.
Qed.

(** The aggregations of the rows of a group. *)
Lemma accumulate_group g k aggs : Forall (λ row, length row = length schema) g → (∀ j, j ∈ js → summable j g) → aggs_idle aggs → head g = Some k →
  ∃ aggs', foldl (λ aggs row, aggs ← aggs; accumulate_all stof aggs (Shell row schema)) (Some (reset_all aggs)) g = Some aggs' ∧
    aggs_are (λ type j a, a = agg_state stof type (column_ints j g)) aggs'.
Proof.
  intros Hg Hsum Hidle Hhead.
  enough (∃ aggs', foldl (λ aggs row, aggs ← aggs; accumulate_all stof aggs (Shell row schema)) (Some (reset_all aggs)) g = Some aggs' ∧
    aggs_are (λ type j a, agg_after stof type j g a) aggs') as Hgo by (by destruct g). clear k Hhead.
  induction g as [|row g IH] using rev_ind.
  - eexists. split; [done|]. unfold reset_all. apply Forall2_fmap_r. eapply Forall2_impl; [exact Hidle|]. intros [a j] [c x] [E1 E2]. cbn in *. split; [done|by exists x].
  - apply Forall_app in Hg as [Hg Hrow]. apply Forall_cons in Hrow as [Hrow _].
    destruct (IH Hg) as (aggs1 & E & H1); [intros j Hj; by apply (summable_app j g [row]), Hsum|]. rewrite foldl_app. cbn [foldl]. rewrite E. cbn [mbind option_bind].
    clear E IH Hidle. unfold accumulate_all, aggs_are in *. pose proof (zip_at _ _ _ args_at) as Hargs.
    assert (Hjs : Forall (λ aj : option (Expression QTuple) * AggregateType * option nat, aj.2 ∈ js) (zip args js)).
    { apply Forall_forall. intros [a j] Hj. cbn. by apply elem_of_zip_r in Hj. }
    induction H1 as [|[[c type] j] [c' a] l aggs1 [E1 E2] _ IH]; [eexists; by split|]. cbn in E1, E2. subst c'.
    apply Forall_cons in Hargs as [[Harg _] Hargs]. apply Forall_cons in Hjs as [Hj Hjs]. cbn [fst snd] in *.
    destruct (accumulate_step stof schema c type j g row a Harg Hrow (Hsum j Hj) E2) as (a' & Ea & Ha'). destruct (IH Hargs Hjs) as (aggs2 & E & H2).
    exists ((c, a') :: aggs2). cbn. rewrite Ea. cbn [mbind option_bind]. rewrite E. cbn [mbind option_bind]. split; [done|]. by constructor.
Qed.

Lemma evaluate_group g aggs : (∀ j, j ∈ js → summable j g) → aggs_are (λ type j a, a = agg_state stof type (column_ints j g)) aggs → length args = length js →
  evaluate_all stof aggs = Some (zip_with (λ a j, aggregate_spec stof a.2 (column_ints j g)) args js).
Proof.
  intros Hsum Ha Hlen. unfold evaluate_all. apply mapM_Some. unfold aggs_are in Ha. clear args_at. revert aggs js Hlen Hsum Ha. induction args as [|[c type] args' IH]; intros aggs [|j js'] Hlen Hsum Ha; try done; cbn in Ha.
  - by apply Forall2_nil_inv_l in Ha as ->.
  - apply Forall2_cons_inv_l in Ha as ([c' a] & aggs' & [E1 E2] & Ha & ->). cbn in E1, E2. subst c' a. cbn. constructor.
    + destruct (Hsum j ltac:(by left)) as (_ & Hs & Hl). rewrite evaluate_state; [done|done|by rewrite column_ints_length].
    + apply IH; [by injection Hlen|intros j' Hj; apply Hsum; by right|done].
Qed.

Lemma columns_summable j : j ∈ js → summable j rows.
Proof.
  intros Hj. apply list_elem_of_lookup in Hj as [n En]. destruct (Forall2_lookup_r _ _ _ _ _ args_at En) as (a & _ & [_ Hs]). exact Hs.
Qed.

(** The operator has its input in memory, with the groups [m]. *)
Context (m : Groups) (grouping : Grouping (row_cmp (key_columns idx)) rows m).
Context (crows : list QTuple) (closed : C → Prop) (at_ : C → list QTuple → Prop) (over : C → Prop) (D : Delivery crows closed at_ over).

Definition gb_same o : Prop := gb_groupby_fields o = keys ∧ gb_field_expressions o = fields ∧ gb_having o = None ∧ gb_names o = names.
Definition gb_closed o : Prop :=
  gb_same o ∧ closed (gb_child o) ∧ gb_schema o = [] ∧ gb_tuples o = [] ∧ gb_groups o = [] ∧ aggs_idle (gb_aggregate_expressions o).
Definition gb_loaded o : Prop := gb_same o ∧ over (gb_child o) ∧ gb_schema o = schema ∧ gb_groups o = m ∧ aggs_idle (gb_aggregate_expressions o).

Lemma group_members k g : (k, g) ∈ m → head g = Some k ∧ Forall (λ row, length row = length schema) g ∧ length k = length schema ∧ (∀ j, j ∈ js → summable j g).
Proof.
  intros Hin. pose proof (gr_rows _ _ _ grouping) as Hr. rewrite Forall_forall in Hr. destruct (Hr _ Hin) as [Eh Eg]. cbn [fst snd] in *.
  assert (Hg : Forall (λ row, length row = length schema) g).
  { rewrite Eg. rewrite Forall_forall in rows_ok |- *. intros row Hrow. apply list_elem_of_In, filter_In, proj1, list_elem_of_In in Hrow. by apply rows_ok. }
  split; [done|]. split; [done|]. split.
  - destruct g as [|r g]; [done|]. injection Eh as ->. by apply Forall_cons in Hg as [? _].
  - intros j Hj. rewrite Eg. by apply summable_filter, columns_summable.
Qed.

Lemma group_row_ok o i k g : gb_loaded o → m !! i = Some (k, g) →
  ∃ o', group_row stof o i = Some (RC_SUCCESS, o') ∧ gb_loaded o' ∧ gb_iter o' = i ∧ gb_first o' = false ∧ gb_cells o' = group_cells k g.
Proof.
  intros ((Ek & Ef & Eh & En) & Hov & Es & Eg & Hi) Em. destruct (group_members k g ltac:(by eapply list_elem_of_lookup_2)) as (Hk & Hlen & Hlk & Hs).
  unfold group_row. rewrite Eg, Em. cbn [mbind option_bind]. rewrite Es. destruct (accumulate_group g k _ Hlen Hs Hi Hk) as (aggs & -> & Ha). cbn [mbind option_bind].
  rewrite Ef. assert (Efs : mapM (λ f, snd <$> get_value stof f (Shell k schema) Value_new) fields = Some ((λ i, copy_value (default Value_new (k !! i))) <$> fidx)).
  { apply mapM_Some, Forall2_fmap_r. eapply Forall2_impl; [exact fields_at|]. intros f n Hf. pose proof Hf as (? & ? & ? & ? & _ & En2).
    assert (Hn : (n < length k)%nat) by (rewrite Hlk; by eapply find_spec_lt). destruct (lookup_lt_is_Some_2 k n Hn) as [v Ev]. rewrite (get_field stof schema f n k v) by done. cbn. by rewrite Ev. }
  rewrite Efs. cbn [mbind option_bind]. rewrite (evaluate_group g aggs Hs Ha) by (by eapply Forall2_length). cbn [mbind option_bind].
  eexists. split; [done|]. split; [|split; [done|split; [done|]]].
  - split; [by split_and!|]. split; [done|]. split; [done|]. split; [done|]. cbn. eapply Forall2_impl; [exact Ha|]. intros [a j] [c x] [E1 E2]. cbn in *.
    split; [done|]. subst x. apply state_idle.
  - cbn [gb_cells gb_with_row]. rewrite fmap_app, <- list_fmap_compose. unfold group_cells. f_equal.
    + apply list_fmap_ext. intros n x _. apply copy_copy.
    + clear. revert js. induction args as [|a l IH]; intros [|j js']; try done. cbn. by rewrite spec_copy, IH.
Qed.

Lemma gb_close_ok o : gb_same o → aggs_idle (gb_aggregate_expressions o) → (∃ c, op_close (gb_child o) = Some (RC_SUCCESS, c) ∧ closed c) →
  ∃ o', group_by_close o = Some (RC_SUCCESS, o') ∧ gb_closed o'.
Proof.
  intros Hs Hi (c & E & Hc). unfold group_by_close. rewrite E. cbn [mbind option_bind]. rewrite bool_decide_true by done. eexists. split; [done|]. split_and!; try done; [apply Hs..|].
  cbn. unfold reset_all. apply Forall2_fmap_r. eapply Forall2_impl; [exact Hi|]. intros [a j] [c' x] [E1 (E2 & E3 & E4)]. cbn in *. by split_and!.
Qed.

Lemma gb_open_ok o : gb_closed o → crows ≠ [] → Forall (λ t, tuple_specs t = Some schema) crows → mapM tuple_values crows = Some rows → (length crows < fuel)%nat →
  group_rows (key_less stof schema keys) rows [] = Some m →
  ∃ o', group_by_open stof fuel o = Some (RC_SUCCESS, o') ∧ gb_loaded o' ∧ gb_iter o' = 0%nat ∧ gb_first o' = true.
Proof.
  intros ((Ek & Ef & Eh & En) & Hc & Es & Et & Eg & Hi) Hne Hspecs Hv Hf Em. unfold group_by_open, group_by_input.
  destruct (dl_open _ _ _ _ D _ Hc) as (c1 & -> & Hat). cbn [mbind option_bind]. rewrite bool_decide_true by done. cbn [negb]. destruct crows as [|t crows']; [done|].
  destruct (dl_row _ _ _ _ D _ _ _ Hat) as (c2 & -> & Ec & Hat2). cbn [mbind option_bind]. rewrite bool_decide_true by done. cbn [negb]. rewrite Ec. cbn [mbind option_bind].
  apply mapM_Some in Hv. apply Forall2_cons_inv_l in Hv as (v & vss' & Ev & Evs & Erows). apply mapM_Some in Evs. rewrite Ev. cbn [mbind option_bind].
  apply Forall_cons in Hspecs as [Ecells _]. rewrite Ecells. cbn [mbind option_bind]. rewrite Es, Et. cbn [app].
  cbn in Hf. destruct (drain_ok _ _ _ _ fuel D c2 crows' vss' [v] Hat2 Evs ltac:(lia)) as (c3 & -> & Hov). cbn [mbind option_bind app].
  rewrite bool_decide_true by done. cbn [negb gb_groupby_fields gb_groups gb_with_child]. rewrite Ek, Eg, <- Erows, Em. cbn [mbind option_bind]. rewrite bool_decide_true by done. cbn [negb].
  unfold group_filter. cbn [gb_having gb_with_input gb_with_child]. rewrite Eh. cbn [mbind option_bind]. eexists. split; [done|]. by split_and!.
Qed.

Definition group_out : list QTuple := (λ e, Shell (group_cells e.1 e.2) names) <$> m.
Definition gb_at o (xs : list QTuple) : Prop :=
  gb_loaded o ∧ ((gb_first o = true ∧ gb_iter o = 0%nat ∧ xs = group_out) ∨ (gb_first o = false ∧ (gb_iter o < length m)%nat ∧ xs = drop (S (gb_iter o)) group_out)).

Lemma gb_next_row o x xs : m ≠ [] → gb_at o (x :: xs) → ∃ o', group_by_next stof o = Some (RC_SUCCESS, o') ∧ Some (Shell (gb_cells o') (gb_names o')) = Some x ∧ gb_at o' xs.
Proof.
  intros Hm [Hl Hcase]. pose proof Hl as (_ & _ & _ & Eg & _).
  assert (Hgo : ∀ i, x :: xs = drop i group_out → ∃ o', group_row stof o i = Some (RC_SUCCESS, o') ∧ Some (Shell (gb_cells o') (gb_names o')) = Some x ∧ gb_at o' xs).
  { intros i Ex. assert (Ei : group_out !! i = Some x) by (by rewrite <- (Nat.add_0_r i), <- lookup_drop, <- Ex).
    pose proof Ei as Em. unfold group_out in Em. rewrite list_lookup_fmap in Em. apply fmap_Some in Em as ([k g] & Em & Exx).
    destruct (group_row_ok o i k g Hl Em) as (o' & E & Hl' & Ei' & Ef' & Ec'). exists o'. split; [done|]. split.
    - destruct Hl' as ((_ & _ & _ & En) & _). by rewrite Ec', En, Exx.
    - split; [done|]. right. split; [done|]. rewrite Ei'. split; [by apply lookup_lt_Some in Em|]. replace (S i) with (i + 1)%nat by lia. by rewrite <- drop_drop, <- Ex. }
  unfold group_by_next. rewrite Eg, (bool_decide_false (m = [])), andb_false_r by done. cbn [andb].
  destruct Hcase as [(-> & -> & Ex)|(-> & Hi & Ex)].
  - rewrite bool_decide_false by (destruct m; [done|cbn; lia]). by apply Hgo.
  - rewrite bool_decide_false by lia. assert (S (gb_iter o) < length m)%nat.
    { apply (f_equal length) in Ex. rewrite length_drop in Ex. unfold group_out in Ex. rewrite length_fmap in Ex. cbn in Ex. lia. }
    rewrite bool_decide_false by lia. by apply Hgo.
Qed.

Lemma gb_next_end o : m ≠ [] → gb_at o [] → ∃ o', group_by_next stof o = Some (RC_RECORD_EOF, o') ∧ gb_loaded o'.
Proof.
  intros Hm [Hl Hcase]. pose proof Hl as (Hs & Hov & Es & Eg & Hi).
  destruct Hcase as [(_ & _ & Ex)|(Ef & Hlt & Ex)]; [unfold group_out in Ex; by destruct m|].
  assert (length m ≤ S (gb_iter o))%nat.
  { apply (f_equal length) in Ex. rewrite length_drop in Ex. unfold group_out in Ex. rewrite length_fmap in Ex. cbn in Ex. lia. }
  unfold group_by_next. rewrite Ef, Eg. cbn [andb]. rewrite bool_decide_false, bool_decide_true by lia. eexists. split; [done|]. by split_and!.
Qed.

Lemma gb_delivery : crows ≠ [] → Forall (λ t, tuple_specs t = Some schema) crows → mapM tuple_values crows = Some rows → (length crows < fuel)%nat →
  group_rows (key_less stof schema keys) rows [] = Some m →
  Delivery (H := group_by stof fuel) group_out gb_closed gb_at gb_loaded.
Proof.
  intros Hne Hspecs Hv Hf Em.
  assert (Hm : m ≠ []).
  { intros ->. pose proof (gr_all _ _ _ grouping) as Ha. apply mapM_Some, Forall2_length in Hv. destruct rows as [|r rows']; [by destruct crows|].
    apply Forall_cons in Ha as [Ha _]. by apply Exists_nil in Ha. }
  constructor.
  - intros o Ho. destruct (gb_open_ok o Ho Hne Hspecs Hv Hf Em) as (o' & E & Hl & Ei & Ef). exists o'. split; [exact E|]. split; [done|]. by left.
  - intros o x xs Hat. exact (gb_next_row o x xs Hm Hat).
  - intros o Hat. exact (gb_next_end o Hm Hat).
  - intros o xs [(Hs & Hov & _ & _ & Hi) _]. apply gb_close_ok; [done..|]. apply (dl_close_over _ _ _ _ D _ Hov).
  - intros o (Hs & Hov & _ & _ & Hi). apply gb_close_ok; [done..|]. apply (dl_close_over _ _ _ _ D _ Hov).
Qed.
End delivery.

(** ** Input without rows *)

Definition created (args : list (option (Expression QTuple) * AggregateType)) : list Aggregation := (λ a, (a.1, create_aggregator a.2)) <$> args.

(** Without rows there is a row only if there are no fields and something is counted. *)
Definition empty_cells (stof : list Z → option float32) (args : list (option (Expression QTuple) * AggregateType)) : list Value := (λ a, aggregate_spec stof a.2 []) <$> args.
Definition empty_out (stof : list Z → option float32) (args : list (option (Expression QTuple) * AggregateType)) (fields : list (Expression QTuple)) (names : list TupleCellSpec) : list QTuple :=
  if bool_decide (fields = []) && existsb is_count (created args) then [Shell (empty_cells stof args) names] else [].

Section empty.
Variable stof : list Z → option float32.
Variable fuel : nat.
Context {C : Type} `{PhysicalOperator C QTuple}.
Implicit Types (o : GroupBy C).
Context (args : list (option (Expression QTuple) * AggregateType)) (keys fields : list (Expression QTuple)) (names : list TupleCellSpec).
Context (closed : C → Prop) (at_ : C → list QTuple → Prop) (over : C → Prop) (D : Delivery [] closed at_ over).

Definition ge_same o : Prop :=
  gb_field_expressions o = fields ∧ gb_having o = None ∧ gb_names o = names ∧ gb_groups o = [] ∧ gb_aggregate_expressions o = created args.
Definition ge_closed o : Prop := ge_same o ∧ closed (gb_child o).
Definition ge_over o : Prop := ge_same o ∧ over (gb_child o).
Definition ge_at o (xs : list QTuple) : Prop :=
  ge_over o ∧ ((gb_first o = true ∧ gb_iter o = 0%nat ∧ xs = empty_out stof args fields names) ∨ (gb_first o = false ∧ xs = [])).

Lemma created_reset : reset_all (created args) = created args.
Proof. unfold reset_all, created. rewrite <- list_fmap_compose. by apply list_fmap_ext. Qed.

Lemma created_values : evaluate_all stof (created args) = Some (empty_cells stof args).
Proof.
  unfold evaluate_all, created, empty_cells. apply mapM_Some, Forall2_fmap, Forall_Forall2_diag, Forall_true. intros [c type]. cbn.
  replace (create_aggregator type) with (agg_state stof type []) by (by destruct type). rewrite evaluate_state; done.
Qed.

Lemma ge_next o : ge_over o → gb_first o = true → gb_iter o = 0%nat →
  ∃ o', group_by_next stof o = Some (if bool_decide (empty_out stof args fields names = []) then RC_RECORD_EOF else RC_SUCCESS, o') ∧ ge_over o' ∧ gb_first o' = false ∧
    (empty_out stof args fields names = [] ∨ empty_out stof args fields names = [Shell (gb_cells o') (gb_names o')]).
Proof.
  intros [(Ef & Eh & En & Eg & Ea) Hov] E1 Ei. unfold group_by_next, empty_out. rewrite E1, Eg, Ea, Ei. cbn [andb]. rewrite bool_decide_true by done. cbn [andb length].
  case_bool_decide as E0; cbn [negb].
  - rewrite (nil_length_inv _ E0). cbn [existsb]. rewrite andb_false_r, (bool_decide_true (0 ≤ 0)%nat), bool_decide_true by (done || lia). eexists. split; [done|].
    split; [by split_and!|]. split; [done|by left].
  - unfold deal_with_empty_table. rewrite Ef, Ea. destruct (decide (fields = [])) as [E2|E2].
    + rewrite !(bool_decide_true (fields = [])), (bool_decide_true (_ = 0%nat)) by (done || by rewrite E2). cbn [negb andb]. destruct (existsb is_count (created args)); cbn [negb].
      * rewrite created_values. cbn [mbind option_bind]. rewrite bool_decide_false by done. eexists. split; [done|]. split; [by split_and!|]. split; [done|right].
        cbn. rewrite En. do 2 f_equal. unfold empty_cells. rewrite <- list_fmap_compose. apply list_fmap_ext. intros n x _. symmetry. apply spec_copy.
      * rewrite bool_decide_true by done. eexists. split; [done|]. split; [by split_and!|]. split; [done|by left].
    + rewrite (bool_decide_false (_ = 0%nat)), (bool_decide_false (fields = [])) by (done || by intros ?%nil_length_inv). cbn [negb andb]. rewrite bool_decide_true by done.
      eexists. split; [done|]. split; [by split_and!|]. split; [done|by left].
Qed.

Lemma ge_delivery : Delivery (H := group_by stof fuel) (empty_out stof args fields names) ge_closed ge_at ge_over.
Proof.
  assert (Hclose : ∀ o, ge_over o → ∃ o', group_by_close o = Some (RC_SUCCESS, o') ∧ ge_closed o').
  { intros o [(Ef & Eh & En & Eg & Ea) Hov]. destruct (dl_close_over _ _ _ _ D _ Hov) as (c & E & Hc). unfold group_by_close. rewrite E. cbn [mbind option_bind].
    rewrite bool_decide_true by done. cbn [negb]. eexists. split; [done|]. split; [|done]. split_and!; try done. change (reset_all (gb_aggregate_expressions o) = created args). by rewrite Ea, created_reset. }
  constructor.
  - intros o [(Ef & Eh & En & Eg & Ea) Hc]. cbn. unfold group_by_open, group_by_input. destruct (dl_open _ _ _ _ D _ Hc) as (c1 & -> & Hat). cbn [mbind option_bind].
    rewrite bool_decide_true by done. cbn [negb]. destruct (dl_end _ _ _ _ D _ Hat) as (c2 & -> & Hov). cbn [mbind option_bind]. rewrite bool_decide_false, bool_decide_true by done. cbn [negb].
    cbn [mbind option_bind]. rewrite bool_decide_true by done. cbn [negb]. unfold group_filter. cbn [gb_having gb_with_child]. rewrite Eh. cbn [mbind option_bind]. eexists. split; [done|]. split; [by split_and!|by left].
  - intros o x xs [Ho Hcase]. destruct Hcase as [(E1 & Ei & Ex)|[_ Ex]]; [|done]. destruct (ge_next o Ho E1 Ei) as (o' & E & Ho' & Ef' & Hx).
    rewrite <- Ex in E, Hx. exists o'. split; [exact E|]. destruct Hx as [?|Hx]; [done|]. injection Hx as -> ->. split; [done|]. split; [done|by right].
  - intros o [Ho Hcase]. cbn. destruct Hcase as [(E1 & Ei & Ex)|[E1 _]].
    + destruct (ge_next o Ho E1 Ei) as (o' & E & Ho' & _). rewrite bool_decide_true in E by done. by exists o'.
    + pose proof Ho as [(Ef & Eh & En & Eg & Ea) Hov]. unfold group_by_next. rewrite E1, Eg. cbn [andb length]. rewrite bool_decide_true by lia. eexists. split; [done|]. by split_and!.
  - intros o xs [Ho _]. by apply Hclose.
  - intros o Ho. by apply Hclose.
Qed.
End empty.

(** What the operator gives for the groups [m] of an input. *)
Definition group_by_rows (stof : list Z → option float32) (args : list (option (Expression QTuple) * AggregateType)) (js : list (option nat))
    (fields : list (Expression QTuple)) (fidx : list nat) (names : list TupleCellSpec) (m : Groups) : list QTuple :=
  match m with [] => empty_out stof args fields names | _ => group_out stof args js names fidx m end.

Definition group_names (agg_names : list string) (field_names : list (string * string)) : list TupleCellSpec :=
  ((λ '(table, field), TupleCellSpec_new table field "") <$> field_names) ++ (TupleCellSpec_alias <$> agg_names).

(** C28: grouping and aggregation.  If the child of a GROUP BY without HAVING gives tuples that have the columns [schema], the keys are
    columns of integers, dates or strings (NULL or not), the other fields are columns, and the aggregations are COUNT of the rows or
    COUNT, SUM, AVG, MIN or MAX of columns of integers of which (for each of these aggregations) the absolute values sum up to an [int], then the
    operator gives one row per group, in the order of the keys: the fields of the first tuple of the group and the
    mathematical aggregations of the values of the group that are not NULL, AVG being the quotient of sum and number as 32-bit floating point numbers.  The groups
    partition the input: a group has the tuples with its key in the order of the input.  Without input there is a row only if there
    are no fields and something is counted. *)
Theorem group_by_correct {C} `{PhysicalOperator C QTuple} stof fuel (c : C) crows args js keys fields agg_names field_names schema rows idx fidx ts :
  delivers c crows → (length crows < fuel)%nat → Forall (λ t, tuple_specs t = Some schema) crows → mapM tuple_values crows = Some rows →
  Forall2 (field_at schema) keys idx → Forall2 (field_at schema) fields fidx →
  Forall2 (λ a j, aggregation_of schema a.1 a.2 j ∧ summable j rows) args js →
  Forall (λ row, length row = length schema ∧ row_sortable (key_columns idx) ts row) rows →
  ∃ m, Grouping (row_cmp (key_columns idx)) rows m ∧
    delivers (H := group_by stof fuel) (GroupBy_new (created args) agg_names keys fields field_names None c)
      (group_by_rows stof args js fields fidx (group_names agg_names field_names) m).
Proof.
  intros (closed & at_ & over & D & Hc) Hf Hs Hv Hk Hfs Ha Hr. destruct (group_rows_grouping stof schema keys idx ts rows Hk Hr) as (m & Em & Hg). exists m. split; [done|].
  destruct crows as [|t crows].
  - injection Hv as <-. injection Em as <-. do 3 eexists. split; [exact (ge_delivery stof fuel args fields (group_names agg_names field_names) closed at_ over D)|]. by split_and!.
  - pose proof (gb_delivery stof fuel args js keys fields (group_names agg_names field_names) schema rows idx fidx ts Hfs Ha Hr m Hg (t :: crows) closed at_ over D ltac:(done) Hs Hv Hf Em) as HD.
    destruct m as [|e m].
    { pose proof (gr_all _ _ _ Hg) as Hall. apply mapM_Some, Forall2_cons_inv_l in Hv as (v & vs & _ & _ & ->). apply Forall_cons in Hall as [Hall _]. by apply Exists_nil in Hall. }
    do 3 eexists. split; [exact HD|]. split_and!; try done. unfold aggs_idle, aggs_are. cbn. unfold created. apply Forall2_length in Ha. clear -Ha.
    revert js Ha. induction args as [|[c type] l IH]; intros [|j js] Ha; try done. cbn. constructor; [|apply IH; by injection Ha]. by split; [|split_and!].
Qed.
