(* ===== verification/Plans.v ===== *)
(** * Query plans over stored tables

    The scanner of a record file as the scanner of a table scan, and the plan of
    [SELECT ... FROM l, r WHERE e ORDER BY ... LIMIT n]: a projection over a sort over a filter over a nested loop join over two table
    scans.  The plan is verified against the relational meaning of the query. *)
From Stdlib Require Import SpecFloat Sorted.
From stdpp Require Import strings.
From S2P Require Import Prelude Rc Bitmap Serializer BplusKey BufferPoolFile RecordPage RecordFile TableMeta Text Float Value ValueKey Aggregator.
From S2P Require Import Tuples Expression Operators RowOrder OrderBy GroupBy.

(** ** The scanner of a file *)

(** The scanner with its file and what the transaction answers for a record. *)
Record FileScan {L : Type} := mkFileScan { fsc_state : FileState L; fsc_trx : option (MemRecord → RC); fsc_scanner : RecordFileScanner }.
#[global] Arguments FileScan : clear implicits.
#[global] Arguments mkFileScan {L}.

Section file_scan.
Context {L : Type}.
Implicit Types (s : FileScan L).

(** [src/src/observer/storage/table/table.cpp:418-425] [Table::get_record_scanner] there is no condition filter *)
Definition get_record_scanner s : option (RC * FileScan L) := Some (RC_SUCCESS, mkFileScan (fsc_state s) (fsc_trx s) (open_scan (fsc_state s))).

(** The next record, without its position. *)
Definition file_scan_next s : option (RC * FileScan L * option (list Z)) :=
  '(rc, sc, rec) ← RecordFile.scanner_next None (fsc_trx s) (fsc_state s) (fsc_scanner s);
  Some (rc, mkFileScan (fsc_state s) (fsc_trx s) sc, match rec with Some r => Some r.2 | None => None end).

#[export] Instance file_scan : RecordScanner (FileScan L) :=
  {| scanner_open := get_record_scanner; Operators.scanner_next := file_scan_next; scanner_close s := Some (RC_SUCCESS, s) |}.

(** A transaction that reads sees a record or does not. *)
Definition reads (trx : option (MemRecord → RC)) : Prop := ∀ visit r, trx = Some visit → visit r = RC_SUCCESS ∨ visit r = RC_RECORD_INVISIBLE.
Definition visible (trx : option (MemRecord → RC)) (r : MemRecord) : bool := match trx with None => true | Some visit => bool_decide (visit r = RC_SUCCESS) end.

(** The records a transaction sees, in the order of their positions. *)
Definition visible_records (trx : option (MemRecord → RC)) (st : FileState L) : list (list Z) := snd <$> List.filter (visible trx) (file_list st).

Lemma pick_visible trx l : reads trx →
  match pick None trx l with
  | (Some (rc, r), l') => rc = RC_SUCCESS ∧ List.filter (visible trx) l = r :: List.filter (visible trx) l'
  | (None, _) => List.filter (visible trx) l = []
  end.
Proof.
  intros Ht. induction l as [|r l IH]; [done|]. cbn [pick List.filter]. unfold rejected, visit_code. cbn [orb].
  destruct trx as [visit|]; [|by rewrite bool_decide_false]. change (visible (Some visit) r) with (bool_decide (visit r = RC_SUCCESS)).
  destruct (Ht visit r eq_refl) as [-> | ->].
  - by rewrite bool_decide_false, bool_decide_true.
  - rewrite bool_decide_true, bool_decide_false by done. exact IH.
Qed.

Lemma file_scan_delivers template h st trx : file_state_ok template h st → reads trx → ∀ sc,
  ∃ closed at_ over, ScannerDelivery (visible_records trx st) closed at_ over ∧ closed (mkFileScan st trx sc).
Proof.
  intros Hok Ht sc. assert (Hv : ∀ visit r, trx = Some visit → visit r ≠ RC_RECORD_EOF) by (intros visit r Ev; by destruct (Ht visit r Ev) as [-> | ->]).
  set (same s := fsc_state s = st ∧ fsc_trx s = trx).
  exists same, (λ s xs, same s ∧ ∃ rest, scanner_at st (fsc_scanner s) rest ∧ xs = snd <$> List.filter (visible trx) rest), same. split; [|done].
  assert (Hnext : ∀ s rest, same s → scanner_at st (fsc_scanner s) rest →
    match List.filter (visible trx) rest with
    | [] => ∃ s', Operators.scanner_next s = Some (RC_RECORD_EOF, s', None) ∧ same s'
    | r :: l => ∃ s' rest', Operators.scanner_next s = Some (RC_SUCCESS, s', Some r.2) ∧ same s' ∧ scanner_at st (fsc_scanner s') rest' ∧ l = List.filter (visible trx) rest'
    end).
  { intros s rest [Es Et] Hat. cbn. unfold file_scan_next, RecordFile.scanner_next. rewrite Es, Et. pose proof (fetch_next_ok None trx Hv template h st Hok _ _ Hat) as Hn.
    pose proof (pick_visible trx rest Ht) as Hp. destruct (pick None trx rest) as [[[rc r]|] rest'].
    - destruct Hp as [-> ->]. destruct Hn as (sc' & -> & Er & Hat'). cbn. rewrite Er. by do 2 eexists.
    - rewrite Hp. destruct Hn as (sc' & ->). cbn. by eexists. }
  constructor.
  - intros s [Es Et]. cbn. unfold get_record_scanner. eexists. split; [done|]. split; [done|]. exists (file_list st). split; [|done]. cbn. rewrite Es. apply open_scan_at.
  - intros s x xs [Hs (rest & Hat & Ex)]. specialize (Hnext s rest Hs Hat). destruct (List.filter (visible trx) rest) as [|r l]; [done|]. injection Ex as -> ->.
    destruct Hnext as (s' & rest' & E & Hs' & Hat' & ->). exists s'. split; [exact E|]. split; [done|]. by exists rest'.
  - intros s [Hs (rest & Hat & Ex)]. specialize (Hnext s rest Hs Hat). destruct (List.filter (visible trx) rest); [|done]. exact Hnext.
  - intros s xs [Hs _]. by eexists.
  - intros s Hs. by eexists.
Qed.
End file_scan.

(** ** Stored tables *)

(** A table with its file, and the transaction that reads it. *)
Record StoredTable {L : Type} := mkStored {
  st_name : string;
  st_fields : list FieldMeta;
  st_alias : string;
  st_state : FileState L;
  st_trx : option (MemRecord → RC);
}.
#[global] Arguments StoredTable : clear implicits.
#[global] Arguments mkStored {L}.

Section plan.
Variable stof : list Z → option float32.
Variable fuel : nat.
Variable sort : (nat → nat → option bool) → list nat → option (list nat).
Context {L : Type}.
Implicit Types (st : StoredTable L).

Definition stored_ok st : Prop := (∃ template h, file_state_ok template h (st_state st)) ∧ reads (st_trx st).

(** The tuples of a table. *)
Definition st_rows st : list QTuple := (λ d, Row (mkRowTuple d (st_name st) (st_fields st) (st_alias st))) <$> visible_records (st_trx st) (st_state st).

(** The scan of a table, before it is opened. *)
Definition scan_of st : TableScan (FileScan L) :=
  mkTableScan (st_name st) (st_fields st) (st_alias st) [] (mkFileScan (st_state st) (st_trx st) (open_scan (st_state st))) None [] "".

Lemma scan_of_delivers st : stored_ok st → (length (st_rows st) < fuel)%nat → delivers (H := table_scan stof fuel) (scan_of st) (st_rows st).
Proof.
  intros [(template & h & Hok) Ht] Hf. unfold st_rows in *. rewrite length_fmap in Hf.
  pose proof (table_scan_delivers stof fuel (scan_of st) (visible_records (st_trx st) (st_state st)) (λ _, true)) as Hd.
  rewrite List.filter_true in Hd. apply Hd; [by apply (file_scan_delivers template h)|done|]. intros d _. done.
Qed.

#[local] Existing Instance file_scan.
#[local] Instance scan_op : PhysicalOperator (TableScan (FileScan L)) QTuple := table_scan stof fuel.
#[local] Instance predicate_op {C} `{PhysicalOperator C QTuple} : PhysicalOperator (Predicate C) QTuple := predicate stof fuel.
#[local] Instance order_by_op {C} `{PhysicalOperator C QTuple} : PhysicalOperator (OrderBy C) QTuple := order_by stof fuel sort.

(** [SELECT es FROM l, r WHERE e ORDER BY fields LIMIT limit] *)
Definition SelectPlan : Type := Project (OrderBy (Predicate (Join (TableScan (FileScan L)) (TableScan (FileScan L))))).
Definition select_plan (es : list (Expression QTuple)) (limit : Z) (fields : list (string * string * string)) (types : list OrderByType)
    (e : Expression QTuple) (l r : StoredTable L) : SelectPlan :=
  mkProject es (Some (mkOrderBy fields types (mkPredicate e (mkJoin (scan_of l) (scan_of r) None None true true) None) [] [] [] (-1))) limit 0.

#[local] Instance select_plan_operator : PhysicalOperator SelectPlan QTuple := project.

(** The expression is true or false on a tuple. *)
Definition evaluates (e : Expression QTuple) (t : QTuple) (b : bool) : Prop :=
  ∃ v, get_value stof e t Value_new = Some (RC_SUCCESS, v) ∧ get_boolean v = b.

Lemma product_length ls rs : length (product ls rs) = (length ls * length rs)%nat.
Proof. unfold product. induction ls as [|l ls IH]; cbn; [done|]. by rewrite length_app, length_fmap, IH. Qed.

(** C26: a query plan computes the query.  Let two tables be stored in well-formed record files, read by a transaction that sees a
    record or does not, let the condition be true or false on every pair of their visible records, let the columns of the order
    be found among the columns of the result, of type INTS, DATES or CHARS (not FLOATS; NULL is allowed), and let the limit not be negative.  The plan of
    [SELECT ... FROM l, r WHERE e ORDER BY ... LIMIT n] opens with success; the loop over its [next] ends with RECORD_EOF, and the tuples
    in between are the first [n] of a list that is sorted by the columns of the order and that has exactly the pairs of the cartesian
    product for which the condition is true, each as often as it occurs.  Of [std::sort] it is assumed that it sorts by a
    strict weak order. *)
Theorem select_plan_correct es limit fields types e l r keep cells vss index : sort_law sort → stored_ok l → stored_ok r → 0 ≤ limit →
  (length (st_rows l) < fuel)%nat → (length (st_rows r) < fuel)%nat → (length (st_rows l) * length (st_rows r) < fuel)%nat →
  (∀ t, t ∈ product (st_rows l) (st_rows r) → evaluates e t (keep t)) →
  let rows := List.filter keep (product (st_rows l) (st_rows r)) in
  rows = [] ∨ Sortable rows fields types cells vss index →
  ∃ o1 out o2, op_open (select_plan es limit fields types e l r) = Some (RC_SUCCESS, o1) ∧
    collect fuel o1 = Some ((λ values, Shell values cells) <$> take (Z.to_nat limit) out, RC_RECORD_EOF, o2) ∧
    match rows with [] => out = [] | _ => out ≡ₚ vss ∧ StronglySorted (λ a b, row_cmp (order_columns index types) a b ≤ 0) out end.
Proof.
  intros Hsort Hl Hr Hlim Fl Fr Flr Hkeep rows Hrows.
  pose proof (join_delivers (scan_of l) (scan_of r) None None true true _ _ (scan_of_delivers l Hl Fl) (scan_of_delivers r Hr Fr)) as Hj.
  assert (Hf : (length (product (st_rows l) (st_rows r)) < fuel)%nat) by (by rewrite product_length).
  pose proof (predicate_delivers stof fuel e _ None _ keep Hj Hf Hkeep) as Hp.
  assert (Hf2 : (length rows < fuel)%nat).
  { unfold rows. pose proof (List.filter_length_le keep (product (st_rows l) (st_rows r))). lia. }
  destruct (order_by_delivers stof fuel sort Hsort fields types _ rows cells vss index Hp Hf2 Hrows) as (out & Ho & Hout).
  destruct (project_delivers es _ limit 0 _ Ho Hlim) as (closed & at_ & over & D & Hc).
  destruct (dl_open _ _ _ _ D _ Hc) as (o1 & E1 & Hat). exists o1, out.
  destruct (collect_ok _ _ _ _ fuel D o1 _ Hat) as (o2 & E2 & _).
  { rewrite length_take, length_fmap. enough (length out ≤ length rows)%nat by lia. destruct rows as [|t rows'] eqn:E; [by rewrite Hout|].
    destruct Hout as [Hperm _]. rewrite Hperm. destruct Hrows as [?|[_ Hv _ _ _]]; [done|]. by apply mapM_Some, Forall2_length in Hv as ->. }
  exists o2. split; [exact E1|]. split; [|exact Hout]. rewrite fmap_take. exact E2.
Qed.
End plan.

(** ** Example *)

(** A table [t (id int)] with the rows 2 and 1, in one page of records of 100000 bytes. *)
Definition ex_row (id : Z) : list Z := le_encode 4 id ++ replicate (Z.to_nat 99996) 0.
Definition ex_table_page : PageFrame := mkPageFrame 0 false (mkRecordPage (set_record_num ex_template 2) [3] [] {[0 := ex_row 2; 1 := ex_row 1]}).
Definition ex_table_state : FileState unit := mkFileState tt (mkFile 0 false (mkFileHeader 1 2 2 [3; 0])) {[1 := ex_table_page]}.
Definition ex_field : FieldMeta := mkFieldMeta "id" INTS 0 4 true 0 false.
Definition ex_table (alias : string) : StoredTable unit := mkStored "t" [ex_field] alias ex_table_state None.

Lemma ex_row_length id : Z.of_nat (length (ex_row id)) = 100000.
Proof. unfold ex_row. rewrite length_app, le_encode_length, length_replicate. lia. Qed.

Lemma ex_table_file_ok : file_state_ok ex_template ex_handler ex_table_state.
Proof.
  assert (Hpages : file_pages (fs_header ex_table_state) = {[1]}) by by_compute.
  assert (Hpage : page_ok ex_table_page).
  { constructor.
    - constructor; by vm_compute.
    - split; [by repeat constructor|by vm_compute].
    - by vm_compute.
    - assert (H : Forall (λ i, bit [3] i = false) (seqZ 5 3)) by by_compute. intros i Hi. change (bits_ (pf_page ex_table_page)) with [3] in *.
      change (record_capacity (page_header_ (pf_page ex_table_page))) with (record_capacity ex_template) in Hi.
      assert (record_capacity ex_template = 5) as E by (by vm_compute). rewrite E in Hi. cbn [length] in Hi. rewrite Forall_forall in H. apply H, elem_of_seqZ. lia.
    - by vm_compute.
    - assert (H : Forall (λ i, i = 0 ∨ i = 1 ∨ bit [3] i = false) (seqZ 0 5)) by by_compute. intros i Hi Hb.
      change (record_capacity (page_header_ (pf_page ex_table_page))) with (record_capacity ex_template) in Hi.
      assert (record_capacity ex_template = 5) as E by (by vm_compute). rewrite E in Hi. rewrite Forall_forall in H.
      destruct (H i ltac:(apply elem_of_seqZ; lia)) as [->|[->|Hn]]; [eexists; (split; [done|]); rewrite ex_row_length; by vm_compute..|].
      change (bits_ (pf_page ex_table_page)) with [3] in Hb. congruence. }
  destruct (ex_record_file_ok ∅ (empty_subseteq _)) as [H1 _ _ H4 H5 H6 H7 H8]. constructor; [exact H1| | |exact H4|exact H5|exact H6|exact H7|exact H8].
  - intros p Hp. change (0 < p < 2) in Hp. assert (p = 1) as -> by lia. by eexists.
  - rewrite Hpages. intros p f ->%elem_of_singleton [= <-]. split; [exact Hpage|reflexivity].
Qed.

Lemma ex_table_ok alias : stored_ok (ex_table alias).
Proof. split; [|done]. exists ex_template, ex_handler. exact ex_table_file_ok. Qed.

(** [SELECT ... FROM t a, t b WHERE a.id <= b.id ORDER BY a.id DESC LIMIT 2] *)
Definition ex_condition : Expression QTuple := ComparisonExpr LESS_EQUAL (FieldExpr "t" "id" "a.id" INTS) (Some (FieldExpr "t" "id" "b.id" INTS)).
Definition ex_keep (t : QTuple) : bool := match get_value (λ _, None) ex_condition t Value_new with Some (_, v) => get_boolean v | None => false end.

(** Two of the three pairs, and the end. *)
Lemma select_plan_correct_witness :
  ∃ o1 out o2, @op_open _ _ (select_plan_operator (λ _, None) 10 insertion_sort)
      (select_plan [] 2 [("t", "id", "a.id")] [DESC] ex_condition (ex_table "a") (ex_table "b")) = Some (RC_SUCCESS, o1) ∧
    @collect _ _ (select_plan_operator (λ _, None) 10 insertion_sort) 10 o1 =
      Some ((λ values, Shell values [mkSpec "t" "id" "a.id"; mkSpec "t" "id" "b.id"]) <$> take (Z.to_nat 2) out, RC_RECORD_EOF, o2) ∧
    out ≡ₚ [[set_int 2; set_int 2]; [set_int 1; set_int 2]; [set_int 1; set_int 1]].
Proof.
  set (rows := List.filter ex_keep (product (st_rows (ex_table "a")) (st_rows (ex_table "b")))).
  assert (Hv : mapM tuple_values rows = Some [[set_int 2; set_int 2]; [set_int 1; set_int 2]; [set_int 1; set_int 1]]) by (by vm_compute).
  destruct (select_plan_correct (λ _, None) 10 insertion_sort [] 2 [("t", "id", "a.id")] [DESC] ex_condition (ex_table "a") (ex_table "b") ex_keep
    [mkSpec "t" "id" "a.id"; mkSpec "t" "id" "b.id"] [[set_int 2; set_int 2]; [set_int 1; set_int 2]; [set_int 1; set_int 1]] [0%nat])
    as (o1 & out & o2 & E1 & E2 & Hout).
  - apply insertion_sort_law.
  - apply ex_table_ok.
  - apply ex_table_ok.
  - lia.
  - apply Nat.ltb_lt. by vm_compute.
  - apply Nat.ltb_lt. by vm_compute.
  - apply Nat.ltb_lt. by vm_compute.
  - assert (H : Forall (λ t, bool_decide (fst <$> get_value (λ _, None) ex_condition t Value_new = Some RC_SUCCESS) = true) (product (st_rows (ex_table "a")) (st_rows (ex_table "b")))) by by_compute.
    intros t Ht. rewrite Forall_forall in H. specialize (H t Ht). apply bool_decide_eq_true in H. unfold evaluates, ex_keep.
    destruct (get_value _ _ _ _) as [[rc v]|]; [|done]. injection H as ->. by exists v.
  - right. fold rows. constructor; [by by_compute|done|by vm_compute|done|]. exists [INTS]. repeat constructor; (eexists; split; [done|]; split; [done|]; eexists; split; [done|]; by vm_compute).
  - exists o1, out, o2. split; [exact E1|]. split; [exact E2|]. fold rows in Hout. clearbody rows. destruct rows; [discriminate Hv|]. exact (proj1 Hout).
Defined.

(** [SELECT id, COUNT( * ), SUM(id) FROM t GROUP BY id] *)
Definition ex_id : Expression QTuple := FieldExpr "t" "id" "" INTS.
Definition ex_args : list (option (Expression QTuple) * AggregateType) := [(None, COUNT_STAR); (Some ex_id, SUM)].

Lemma group_by_correct_witness :
  ∃ m, Grouping (row_cmp (key_columns [0%nat])) [[set_int 2]; [set_int 1]] m ∧
    @delivers _ _ (@group_by (λ _, None) 10 _ (table_scan (λ _, None) 10))
      (GroupBy_new (created ex_args) ["count"; "sum"] [ex_id] [ex_id] [("t", "id")] None (scan_of (ex_table "")))
      (group_by_rows (λ _, None) ex_args [None; Some 0%nat] [ex_id] [0%nat] (group_names ["count"; "sum"] [("t", "id")]) m).
Proof.
  assert (Hf : field_at [mkSpec "t" "id" "t.id"] ex_id 0) by (by do 4 eexists).
  apply (@group_by_correct _ (table_scan (λ _, None) 10) (λ _, None) 10 (scan_of (ex_table "")) (st_rows (ex_table "")) ex_args [None; Some 0%nat] [ex_id] [ex_id]
    ["count"; "sum"] [("t", "id")] [mkSpec "t" "id" "t.id"] [[set_int 2]; [set_int 1]] [0%nat] [0%nat] [INTS]).
  - apply scan_of_delivers; [apply ex_table_ok|]. apply Nat.ltb_lt. by vm_compute.
  - apply Nat.ltb_lt. by vm_compute.
  - by by_compute.
  - by vm_compute.
  - by repeat constructor.
  - by repeat constructor.
  - repeat constructor; try done; intros row [->|[->|?%elem_of_nil]%elem_of_cons]%elem_of_cons; (done || by eexists).
  - repeat constructor; (eexists; split; [done|]; split; [done|]; eexists; split; [done|]; by vm_compute).
Defined.

(** A group that HAVING drops leaves a row with the count 0, where there should be none:
    [SELECT COUNT( * ) FROM t HAVING COUNT( * ) > 5]. *)
Example dropped_group_is_counted :
  let having := ComparisonExpr GREAT_THAN (AggregateExpr None (create_aggregator COUNT_STAR)) (Some (ValueExpr (set_int 5))) in
  let op := @group_by (λ _, None) 10 _ (table_scan (λ _, None) 10) in
  (λ '(rc, o), (rc, gb_cells o)) <$>
    ('(_, o) ← @op_open _ _ op (GroupBy_new [(None, create_aggregator COUNT_STAR)] ["count"] [] [] [] (Some having) (scan_of (ex_table "")));
     @op_next _ _ op o) = Some (RC_SUCCESS, [set_int 0]).
Proof. by vm_compute. Qed.
