(* ===== verification/Stores.v ===== *)
(** * What a table needs of its record file and its indexes

    [RecordStore] is what [RecordFileHandler] promises to the table, [IndexStore] what [Index] promises;
    each with a simple implementation, a map and an ordered list.  [StoreImpl] shows that the record
    file and the B+ tree keep the promises. *)
From stdpp Require Import sorting.
From S2P Require Import Prelude Rc BplusKey PageAlloc LowerBound BplusTree BplusGhost BplusWp BplusFind BplusInsert BplusInv.

(** ** Interfaces *)

(** [RecordFileHandler]: a map from positions to records of a fixed size. *)
Class RecordStore (F : Type) := {
  rs_record_size : F → Z;
  rs_holds : F → gmap RID (list Z) → Prop;
  rs_room : F → Prop;                                  (* one more page can be added *)
  rs_insert_record : F → list Z → option (RC * F * option RID);
  rs_delete_record : F → RID → option (RC * F);
  rs_get_record : F → RID → option (RC * option (list Z));
  rs_visit_record : F → RID → (list Z → option (list Z)) → option (RC * F);
  rs_insert_law : ∀ s m row, rs_holds s m → rs_room s → Z.of_nat (length row) = rs_record_size s →
    ∃ rc s' rid, rs_insert_record s row = Some (rc, s', rid) ∧ rs_record_size s' = rs_record_size s ∧
      ((rc = RC_SUCCESS ∧ ∃ r, rid = Some r ∧ valid_rid r ∧ m !! r = None ∧ rs_holds s' (<[r := row]> m)) ∨
       (OB_FAIL rc = true ∧ rc ≠ RC_RECORD_DUPLICATE_KEY ∧ rid = None ∧ rs_holds s' m));
  rs_delete_law : ∀ s m rid row, rs_holds s m → m !! rid = Some row →
    ∃ s', rs_delete_record s rid = Some (RC_SUCCESS, s') ∧ rs_holds s' (delete rid m) ∧ rs_record_size s' = rs_record_size s;
  rs_get_law : ∀ s m rid row, rs_holds s m → m !! rid = Some row → rs_get_record s rid = Some (RC_SUCCESS, Some row);
  rs_visit_law : ∀ s m rid row updater, rs_holds s m → m !! rid = Some row →
    (∀ row', updater row = Some row' → Z.of_nat (length row') = rs_record_size s) →
    ∃ s', rs_visit_record s rid updater = Some (RC_SUCCESS, s') ∧ rs_record_size s' = rs_record_size s ∧
      rs_holds s' (match updater row with Some row' => <[rid := row']> m | None => m end);
  rs_holds_unique : ∀ s m m', rs_holds s m → rs_holds s m' → m = m';
  rs_row_law : ∀ s m rid row, rs_holds s m → m !! rid = Some row → valid_rid rid ∧ Z.of_nat (length row) = rs_record_size s;
}.

(** [Index]: an ordered list of keys with the positions of their records; [ix_cmp] compares keys. *)
Class IndexStore (I : Type) := {
  ix_cmp : I → KeyComparator (list Z);
  ix_key_ok : I → Key (list Z) → Prop;
  ix_holds : I → list (Key (list Z) * RID) → Prop;
  ix_room : I → Prop;
  ix_insert_entry : I → list (list Z) → RID → option (RC * I);
  ix_delete_entry : I → list (list Z) → RID → option (RC * I);
  ix_total : ∀ i, TotalCompare (key_compare (ix_cmp i)) (ix_key_ok i);
  ix_sorted_law : ∀ i l, ix_holds i l → StronglySorted (lt_key (key_compare (ix_cmp i))) l.*1 ∧ Forall (ix_key_ok i) l.*1;
  ix_insert_law : ∀ i l key rid, ix_holds i l → ix_key_ok i (key, rid) → ix_room i →
    let spec := spec_insert (key_compare (ix_cmp i)) (key, rid) rid l in
    ∃ i', ix_insert_entry i key rid = Some (spec.1, i') ∧ ix_holds i' spec.2 ∧ ix_cmp i' = ix_cmp i ∧ ix_key_ok i' = ix_key_ok i;
  ix_delete_law : ∀ i l key rid, ix_holds i l → ix_key_ok i (key, rid) →
    let spec := spec_delete (key_compare (ix_cmp i)) (key, rid) l in
    ∃ i', ix_delete_entry i key rid = Some (spec.1, i') ∧ ix_holds i' spec.2 ∧ ix_cmp i' = ix_cmp i ∧ ix_key_ok i' = ix_key_ok i;
}.

(** ** Ordered lists as indexes *)

Section ordered.
Context {A : Type} (cmp : Key A → Key A → Z) (ok : Key A → Prop) `{!TotalCompare cmp ok}.
Implicit Types (l : list (Key A * RID)) (key : Key A).

(** Where a key belongs in an ordered list. *)
Lemma split_exact l key : StronglySorted (lt_key cmp) l.*1 → Forall ok l.*1 → ok key →
  ∃ l1 l2, Forall (λ x, cmp x.1 key < 0) l1 ∧ Forall (λ x, 0 < cmp x.1 key) l2 ∧
    (l = l1 ++ l2 ∧ has_key cmp l key = false ∨ ∃ x, l = l1 ++ x :: l2 ∧ cmp x.1 key = 0).
Proof using Type*.
  intros Hs Hok Hkey. destruct (split_at_key cmp ok l key Hs Hok Hkey) as (l1 & l2 & -> & H1 & H2).
  destruct l1 as [|x l1' _] using rev_ind.
  - exists [], l2. split; [constructor|]. split; [done|]. left. split; [done|]. by apply has_key_right.
  - apply Forall_app in H1 as [H1 [Hx _]%Forall_cons]. rewrite <- app_assoc. cbn [app].
    assert (Hlt : Forall (λ y, cmp y.1 key < 0) l1').
    { rewrite <- app_assoc in Hs, Hok. rewrite !fmap_app in Hs, Hok. cbn in Hs, Hok. apply StronglySorted_app in Hs as (Hlt & _ & _).
      apply Forall_app in Hok as [Hok1 [Hokx _]%Forall_cons]. rewrite Forall_forall in H1. rewrite Forall_forall in Hok1. apply Forall_forall. intros y Hy.
      apply (cmp_lt_le_trans cmp ok _ x.1); [apply Hok1; by apply list_elem_of_fmap_2|done|done| |done].
      apply Hlt; [by apply list_elem_of_fmap_2|by left]. }
    destruct (decide (cmp x.1 key = 0)) as [E|E].
    + exists l1', l2. split; [done|]. split; [done|]. right. by exists x.
    + exists (l1' ++ [x]), l2. split; [apply Forall_app; split; [done|]; apply Forall_singleton; cbn in Hx; lia|]. split; [done|]. left.
      rewrite <- app_assoc. split; [done|]. rewrite has_key_app, has_key_left by done. cbn. unfold has_key. cbn.
      rewrite (proj2 (Z.eqb_neq _ _)) by done. by apply has_key_right.
Qed.

Lemma has_key_perm l l' key : l ≡ₚ l' → has_key cmp l key = has_key cmp l' key.
Proof. induction 1; cbn; unfold has_key in *; cbn; [done|by f_equal|by destruct (_ =? _), (_ =? _)|congruence]. Qed.

Lemma has_key_elem l key : has_key cmp l key = true ↔ ∃ x, x ∈ l ∧ cmp x.1 key = 0.
Proof.
  unfold has_key. rewrite existsb_exists. split; intros (x & Hx & E); exists x.
  - by apply list_elem_of_In in Hx; apply Z.eqb_eq in E.
  - apply list_elem_of_In in Hx. by apply Z.eqb_eq in E.
Qed.

Lemma ordered_insert_perm l key rid : ordered_insert cmp key rid l ≡ₚ (key, rid) :: l.
Proof. induction l as [|i l IH]; [done|]. cbn. destruct (_ <? _); [|done]. rewrite IH. apply Permutation_swap. Qed.

(** A deletion removes the one item with an equal key. *)
Lemma spec_delete_perm l key x : StronglySorted (lt_key cmp) l.*1 → Forall ok l.*1 → ok key → x ∈ l → cmp x.1 key = 0 →
  (spec_delete cmp key l).1 = RC_SUCCESS ∧ l ≡ₚ x :: (spec_delete cmp key l).2.
Proof using Type*.
  intros Hs Hok Hkey Hx E. destruct (split_exact l key Hs Hok Hkey) as (l1 & l2 & H1 & H2 & [[-> Hn]|(y & -> & Ey)]).
  - assert (has_key cmp (l1 ++ l2) key = true) by (apply has_key_elem; by exists x). congruence.
  - rewrite spec_delete_at by done. cbn. split; [done|]. assert (x = y) as ->.
    { apply elem_of_app in Hx as [Hx|[->|Hx]%elem_of_cons]; [|done|].
      - rewrite Forall_forall in H1. specialize (H1 x Hx). lia.
      - rewrite Forall_forall in H2. specialize (H2 x Hx). lia. }
    by rewrite Permutation_middle.
Qed.

Lemma spec_insert_sorted l key rid : StronglySorted (lt_key cmp) l.*1 → Forall ok l.*1 → ok key →
  StronglySorted (lt_key cmp) (spec_insert cmp key rid l).2.*1 ∧ Forall ok (spec_insert cmp key rid l).2.*1.
Proof using Type*.
  intros Hs Hok Hkey. destruct (split_exact l key Hs Hok Hkey) as (l1 & l2 & H1 & H2 & [[-> Hn]|(y & -> & Ey)]).
  - rewrite spec_insert_at by done. cbn [snd]. rewrite !fmap_app in *. cbn in *. apply StronglySorted_app in Hs as (Hlt & Hs1 & Hs2).
    apply Forall_app in Hok as [Hok1 Hok2].
    assert (H2' : Forall (λ k, cmp key k < 0) l2.*1).
    { rewrite Forall_fmap. rewrite Forall_forall in H2. rewrite Forall_forall in Hok2. apply Forall_forall. intros y Hy. cbn. apply (cmp_flip (cmp := cmp) (ok := ok)); [done| |by apply H2].
      apply Hok2. by apply list_elem_of_fmap_2. }
    split; [|apply Forall_app; split; [done|by constructor]]. apply StronglySorted_app. split_and!; [|done|by constructor].
    intros a b Ha [->|Hb]%elem_of_cons; [|by apply Hlt]. unfold lt_key. apply list_elem_of_fmap in Ha as (x & -> & Hx).
    rewrite Forall_forall in H1. by apply H1.
  - unfold spec_insert. by rewrite has_key_at.
Qed.

Lemma spec_delete_sorted l key : StronglySorted (lt_key cmp) l.*1 → Forall ok l.*1 → ok key →
  StronglySorted (lt_key cmp) (spec_delete cmp key l).2.*1 ∧ Forall ok (spec_delete cmp key l).2.*1.
Proof using Type*.
  intros Hs Hok Hkey. destruct (split_exact l key Hs Hok Hkey) as (l1 & l2 & H1 & H2 & [[-> Hn]|(y & -> & Ey)]).
  - by rewrite spec_delete_none.
  - rewrite spec_delete_at by done. cbn [snd]. rewrite !fmap_app in *. cbn in *. split.
    + eapply StronglySorted_sublist; [|exact Hs]. apply sublist_app; [done|by constructor].
    + apply Forall_app in Hok as [? [_ ?]%Forall_cons]. by apply Forall_app.
Qed.
End ordered.

(** ** Reference implementations *)

(** An ordered list. *)
Record ListIndex := mkListIndex {
  li_cmp : KeyComparator (list Z);
  li_ok : Key (list Z) → Prop;
  li_total : TotalCompare (key_compare li_cmp) li_ok;
  li_items : list (Key (list Z) * RID);
}.

Definition list_holds (i : ListIndex) l : Prop :=
  li_items i = l ∧ StronglySorted (lt_key (key_compare (li_cmp i))) l.*1 ∧ Forall (li_ok i) l.*1.

Definition list_set (i : ListIndex) (spec : RC * list (Key (list Z) * RID)) : option (RC * ListIndex) :=
  Some (spec.1, mkListIndex (li_cmp i) (li_ok i) (li_total i) spec.2).
Definition list_insert (i : ListIndex) (key : list (list Z)) (rid : RID) : option (RC * ListIndex) :=
  list_set i (spec_insert (key_compare (li_cmp i)) (key, rid) rid (li_items i)).
Definition list_delete (i : ListIndex) (key : list (list Z)) (rid : RID) : option (RC * ListIndex) :=
  list_set i (spec_delete (key_compare (li_cmp i)) (key, rid) (li_items i)).

#[export] Program Instance list_index : IndexStore ListIndex := {|
  ix_cmp := li_cmp; ix_key_ok := li_ok; ix_holds := list_holds; ix_room _ := True;
  ix_insert_entry := list_insert; ix_delete_entry := list_delete; ix_total := li_total;
|}.
Next Obligation. by intros i l (_ & ? & ?). Qed.
Next Obligation.
  intros i l key rid (<- & Hs & Hok) Hkey _ spec. eexists. split; [done|]. split; [|done]. split; [done|].
  by apply (spec_insert_sorted _ (li_ok i) (TotalCompare0 := li_total i)).
Qed.
Next Obligation.
  intros i l key rid (<- & Hs & Hok) Hkey spec. eexists. split; [done|]. split; [|done]. split; [done|].
  by apply (spec_delete_sorted _ (li_ok i) (TotalCompare0 := li_total i)).
Qed.

(** A map whose positions are given out one after the other. *)
Record MapStore := mkMapStore { ms_size : Z; ms_next : Z; ms_rows : gmap RID (list Z) }.

Definition map_holds (s : MapStore) (m : gmap RID (list Z)) : Prop :=
  ms_rows s = m ∧ 0 ≤ ms_next s ∧ ∀ rid row, m !! rid = Some row →
    valid_rid rid ∧ rid_slot_num rid < ms_next s ∧ Z.of_nat (length row) = ms_size s.

Definition map_insert (s : MapStore) (row : list Z) : option (RC * MapStore * option RID) :=
  let rid := mkRID 1 (ms_next s) in
  if ms_next s <=? INT32_MAX
  then Some (RC_SUCCESS, mkMapStore (ms_size s) (ms_next s + 1) (<[rid := row]> (ms_rows s)), Some rid)
  else Some (RC_NOMEM, s, None).
Definition map_delete (s : MapStore) (rid : RID) : option (RC * MapStore) :=
  match ms_rows s !! rid with
  | Some _ => Some (RC_SUCCESS, mkMapStore (ms_size s) (ms_next s) (delete rid (ms_rows s)))
  | None => Some (RC_RECORD_NOT_EXIST, s)
  end.
Definition map_get (s : MapStore) (rid : RID) : option (RC * option (list Z)) :=
  match ms_rows s !! rid with Some row => Some (RC_SUCCESS, Some row) | None => Some (RC_RECORD_NOT_EXIST, None) end.
Definition map_visit (s : MapStore) (rid : RID) (updater : list Z → option (list Z)) : option (RC * MapStore) :=
  match ms_rows s !! rid with
  | Some row =>
      match updater row with
      | Some row => Some (RC_SUCCESS, mkMapStore (ms_size s) (ms_next s) (<[rid := row]> (ms_rows s)))
      | None => Some (RC_SUCCESS, s)
      end
  | None => Some (RC_RECORD_NOT_EXIST, s)
  end.

#[export] Program Instance map_store : RecordStore MapStore := {|
  rs_record_size := ms_size; rs_holds := map_holds; rs_room _ := True;
  rs_insert_record := map_insert; rs_delete_record := map_delete; rs_get_record := map_get; rs_visit_record := map_visit;
|}.
Next Obligation.
  intros s m row (<- & H0 & Hm) _ Hlen. unfold map_insert. cbv zeta. case_bool; cycle 1.
  { do 3 eexists. split; [done|]. split; [done|]. right. done. }
  do 3 eexists. split; [done|]. split; [done|]. left. split; [done|]. eexists. split; [done|].
  split; [unfold valid_rid, INT32_MAX in *; cbn; lia|]. split.
  { apply eq_None_not_Some. intros [d Hd]. apply Hm in Hd as (_ & Hd & _). cbn in Hd. lia. }
  split; [done|]. split; [cbn; lia|]. intros rid d [[<- <-]|[_ Hd]]%lookup_insert_Some.
  { unfold valid_rid, INT32_MAX in *. cbn. split_and!; lia || done. }
  destruct (Hm _ _ Hd) as (? & ? & ?). cbn. split_and!; lia || done.
Qed.
Next Obligation.
  intros s m rid row (<- & H0 & Hm) Hr. unfold map_delete. rewrite Hr. eexists. split; [done|]. split; [|done]. split; [done|]. split; [done|].
  intros r d [_ Hd]%lookup_delete_Some. by apply Hm.
Qed.
Next Obligation. intros s m rid row (<- & H0 & Hm) Hr. unfold map_get. by rewrite Hr. Qed.
Next Obligation.
  intros s m rid row updater (<- & H0 & Hm) Hr Hu. unfold map_visit. rewrite Hr. destruct (updater row) as [row'|] eqn:Eu; (eexists; split; [done|]; split; [done|]); [|by split].
  split; [done|]. split; [done|]. intros r d [[<- <-]|[_ Hd]]%lookup_insert_Some; [|by apply Hm].
  destruct (Hm _ _ Hr) as (? & ? & ?). split_and!; [done|done|]. by apply (Hu row').
Qed.
Next Obligation. by intros s m m' (<- & _) (<- & _). Qed.
Next Obligation. intros s m rid row (<- & H0 & Hm) Hr. by destruct (Hm _ _ Hr) as (? & ? & ?). Qed.
