(* ===== verification/Table.v ===== *)
(** * Tables ([storage/table/table.*, storage/index/index.h])

    A table is a record file and the indexes on it.  The operations call both; when an index refuses an
    entry they undo what they did.  They are verified against the interfaces [RecordStore] and
    [IndexStore].  [None] is a failed [ASSERT]. *)
From stdpp Require Import sorting.
From S2P Require Import Prelude Rc Serializer TableMeta BplusKey BplusTree BplusFind BplusInv Stores.

(** ** Tables *)

(** [src/src/observer/storage/index/index.h:108-111] [Index] an index with the fields it is on *)
Record TableIndex {I : Type} := mkTableIndex { ti_fields_meta_ : list FieldMeta; ti_index : I }.
#[global] Arguments TableIndex : clear implicits.
#[global] Arguments mkTableIndex {I}.

(** [src/src/observer/storage/table/table.h:130-138] [Table] *)
Record Table {F I : Type} := mkTable { record_handler_ : F; tbl_indexes_ : list (TableIndex I) }.
#[global] Arguments Table : clear implicits.
#[global] Arguments mkTable {F I}.

Section operations.
Context {F I : Type} `{RecordStore F} `{IndexStore I}.
Implicit Types (t : Table F I) (ix : TableIndex I) (row : list Z).

Definition index_key ix row : list (list Z) := get_index_key_from_tuple (ti_fields_meta_ ix) row.

(** [src/src/observer/storage/index/bplus_tree_index.cpp:94-97] [BplusTreeIndex::insert_entry] with the key of a record *)
Definition index_insert_entry ix row (rid : RID) : option (RC * TableIndex I) :=
  '(rc, i) ← ix_insert_entry (ti_index ix) (index_key ix row) rid; Some (rc, mkTableIndex (ti_fields_meta_ ix) i).

(** [src/src/observer/storage/index/bplus_tree_index.cpp:99-102] [BplusTreeIndex::delete_entry] with the key of a record *)
Definition index_delete_entry ix row (rid : RID) : option (RC * TableIndex I) :=
  '(rc, i) ← ix_delete_entry (ti_index ix) (index_key ix row) rid; Some (rc, mkTableIndex (ti_fields_meta_ ix) i).

(** The loop of [insert_entry_of_indexes] that undoes the entries, from the last index to the first. *)
Fixpoint rollback_entries (done : list (TableIndex I)) row (rid : RID) : option (list (TableIndex I)) :=
  match done with
  | [] => Some []
  | ix :: done =>
      '(rc2, ix) ← index_delete_entry ix row rid;
      if bool_decide (rc2 = RC_SUCCESS) then done ← rollback_entries done row rid; Some (ix :: done) else Some (ix :: done)
  end.

(** The loop over the indexes; [done] are those before, in reverse. *)
Fixpoint insert_entries (done todo : list (TableIndex I)) row (rid : RID) : option (RC * list (TableIndex I)) :=
  match todo with
  | [] => Some (RC_SUCCESS, rev done)
  | ix :: todo =>
      '(rc, ix) ← index_insert_entry ix row rid;
      if bool_decide (rc = RC_SUCCESS) then insert_entries (ix :: done) todo row rid
      else done ← rollback_entries done row rid; Some (rc, rev done ++ ix :: todo)
  end.

(** [src/src/observer/storage/table/table.cpp:566-593] [Table::insert_entry_of_indexes] *)
Definition insert_entry_of_indexes (ixs : list (TableIndex I)) row (rid : RID) : option (RC * list (TableIndex I)) :=
  insert_entries [] ixs row rid.

(** [src/src/observer/storage/table/table.cpp:595-609] [Table::delete_entry_of_indexes] *)
Fixpoint delete_entry_of_indexes (ixs : list (TableIndex I)) row (rid : RID) (error_on_not_exists : bool) : option (RC * list (TableIndex I)) :=
  match ixs with
  | [] => Some (RC_SUCCESS, [])
  | ix :: ixs =>
      '(rc, ix) ← index_delete_entry ix row rid;
      if negb (bool_decide (rc = RC_SUCCESS)) && (negb (bool_decide (rc = RC_RECORD_INVALID_KEY)) || negb error_on_not_exists)
      then Some (rc, ix :: ixs)
      else match ixs with
           | [] => Some (rc, [ix])
           | _ => '(rc, ixs) ← delete_entry_of_indexes ixs row rid error_on_not_exists; Some (rc, ix :: ixs)
           end
  end.

(** [src/src/observer/storage/table/table.cpp:231-254] [Table::insert_record] the position is written to the record *)
Definition insert_record t row : option (RC * Table F I * option RID) :=
  '(rc, s, r) ← rs_insert_record (record_handler_ t) row;
  match r with
  | Some rid =>
      if bool_decide (rc = RC_SUCCESS) then
        '(rc, ixs) ← insert_entry_of_indexes (tbl_indexes_ t) row rid;
        if bool_decide (rc = RC_SUCCESS) then Some (rc, mkTable s ixs, Some rid)
        else
          '(_, ixs) ← delete_entry_of_indexes ixs row rid false;
          '(_, s) ← rs_delete_record s rid;
          Some (rc, mkTable s ixs, Some rid)
      else Some (rc, mkTable s (tbl_indexes_ t), Some rid)
  | None => Some (rc, mkTable s (tbl_indexes_ t), None)
  end.

(** [src/src/observer/storage/table/table.cpp:272-275] [Table::visit_record] *)
Definition visit_record t (rid : RID) (visitor : list Z → option (list Z)) : option (RC * Table F I) :=
  '(rc, s) ← rs_visit_record (record_handler_ t) rid visitor; Some (rc, mkTable s (tbl_indexes_ t)).

(** [src/src/observer/storage/table/table.cpp:277-286] [Table::get_record] *)
Definition get_record t (rid : RID) : option (RC * option (list Z)) := rs_get_record (record_handler_ t) rid.

(** The loop over the indexes in [delete_record]; every entry has to be there. *)
Fixpoint delete_entries (ixs : list (TableIndex I)) row (rid : RID) : option (list (TableIndex I)) :=
  match ixs with
  | [] => Some []
  | ix :: ixs =>
      '(rc, ix) ← index_delete_entry ix row rid;
      if bool_decide (rc = RC_SUCCESS) then ixs ← delete_entries ixs row rid; Some (ix :: ixs) else None
  end.

(** [src/src/observer/storage/table/table.cpp:552-564] [Table::delete_record] of a record in memory *)
Definition delete_record t (rid : RID) row : option (RC * Table F I) :=
  ixs ← delete_entries (tbl_indexes_ t) row rid;
  '(rc, s) ← rs_delete_record (record_handler_ t) rid;
  Some (rc, mkTable s ixs).

(** [src/src/observer/storage/table/table.cpp:540-550] [Table::delete_record] at a position *)
Definition delete_record_at t (rid : RID) : option (RC * Table F I) :=
  '(rc, row) ← get_record t rid;
  if OB_FAIL rc then Some (rc, t) else row ← row; delete_record t rid row.

(** The loop over the indexes in [update_record]; the first failure ends it. *)
Fixpoint update_entries (ixs : list (TableIndex I)) row (rid : RID) : option (RC * list (TableIndex I)) :=
  match ixs with
  | [] => Some (RC_SUCCESS, [])
  | ix :: ixs =>
      '(rc, ix) ← index_delete_entry ix row rid;
      if bool_decide (rc = RC_SUCCESS) then '(rc, ixs) ← update_entries ixs row rid; Some (rc, ix :: ixs) else Some (rc, ix :: ixs)
  end.

(** [src/src/observer/storage/table/table.cpp:256-270] [Table::update_record] the code of the deletion is overwritten *)
Definition update_record t (old_rid : RID) (old_row new_row : list Z) : option (RC * Table F I * option RID) :=
  '(rc, ixs) ← update_entries (tbl_indexes_ t) old_row old_rid;
  if bool_decide (rc = RC_SUCCESS) then
    '(_, s) ← rs_delete_record (record_handler_ t) old_rid;
    insert_record (mkTable s ixs) new_row
  else Some (rc, mkTable (record_handler_ t) ixs, None).
End operations.

(** ** Rows and their entries *)

Section entries.
Context {F I : Type} `{RecordStore F} `{IndexStore I}.
Implicit Types (t : Table F I) (ix : TableIndex I) (row : list Z) (m : gmap RID (list Z)).

(** The order of the keys of an index, and the entry of a row. *)
Definition cmp_of ix : Key (list Z) → Key (list Z) → Z := key_compare (ix_cmp (ti_index ix)).
Definition entry_of ix (x : RID * list Z) : Key (list Z) * RID := ((index_key ix x.2, x.1), x.1).
Definition entries_of ix m : list (Key (list Z) * RID) := entry_of ix <$> map_to_list m.

(** An index has exactly the entries of the rows [m]. *)
Definition index_matches ix m : Prop := ∃ l, ix_holds (ti_index ix) l ∧ l ≡ₚ entries_of ix m.

(** The invariant of a table with the rows [m]. *)
Definition table_ok t m : Prop := rs_holds (record_handler_ t) m ∧ Forall (λ ix, index_matches ix m) (tbl_indexes_ t).

(** A unique index has a row with the same values. *)
Definition duplicate ix m row : bool :=
  unique_ (ix_cmp (ti_index ix)) && has_key (cmp_of ix) (entries_of ix m) (index_key ix row, RID_min).

Definition key_valid row (rid : RID) ix : Prop := ix_key_ok (ti_index ix) (index_key ix row, rid).

(** A row that fits the table. *)
Definition row_ok t row : Prop :=
  Z.of_nat (length row) = rs_record_size (record_handler_ t) ∧ ∀ rid, valid_rid rid → Forall (key_valid row rid) (tbl_indexes_ t).

Definition has_room t : Prop := rs_room (record_handler_ t) ∧ Forall (λ ix, ix_room (ti_index ix)) (tbl_indexes_ t).

(** What the operations on an index do not change. *)
Definition same_index ix ix' : Prop :=
  ti_fields_meta_ ix' = ti_fields_meta_ ix ∧ ix_cmp (ti_index ix') = ix_cmp (ti_index ix) ∧ ix_key_ok (ti_index ix') = ix_key_ok (ti_index ix).

#[global] Instance same_index_equiv : Equivalence same_index.
Proof. split; [by intros ix|by intros ix ix' (? & ? & ?)|intros ix ix' ix'' (? & ? & ?) (? & ? & ?); split_and!; congruence]. Qed.

Lemma same_index_views ix ix' (m : gmap RID (list Z)) row rid : same_index ix ix' →
  entries_of ix' m = entries_of ix m ∧ cmp_of ix' = cmp_of ix ∧ duplicate ix' m row = duplicate ix m row ∧ (key_valid row rid ix' ↔ key_valid row rid ix).
Proof.
  intros (Ef & Ec & Eo). unfold entries_of, duplicate, cmp_of, entries_of, key_valid, entry_of, index_key. by rewrite Ef, Ec, Eo.
Qed.

Lemma entries_insert ix m rid row : m !! rid = None → entries_of ix (<[rid := row]> m) ≡ₚ entry_of ix (rid, row) :: entries_of ix m.
Proof. intros Hn. unfold entries_of. rewrite map_to_list_insert by done. done. Qed.

Lemma entries_delete ix m rid row : m !! rid = Some row → entries_of ix m ≡ₚ entry_of ix (rid, row) :: entries_of ix (delete rid m).
Proof. intros Hs. unfold entries_of. rewrite <- (map_to_list_delete m rid row) by done. done. Qed.

Lemma elem_of_entries ix m e : e ∈ entries_of ix m ↔ ∃ rid row, e = entry_of ix (rid, row) ∧ m !! rid = Some row.
Proof.
  unfold entries_of. rewrite list_elem_of_fmap. split.
  - intros ([rid row] & -> & Hin). exists rid, row. split; [done|]. by apply elem_of_map_to_list.
  - intros (rid & row & -> & Hm). exists (rid, row). split; [done|]. by apply elem_of_map_to_list.
Qed.

(** An entry with an equal key: that of a row with the same values in a unique index, or of the same row. *)
Lemma has_key_duplicate ix m row rid : m !! rid = None → valid_rid rid → (∀ r d, m !! r = Some d → valid_rid r) →
  has_key (cmp_of ix) (entries_of ix m) (index_key ix row, rid) = duplicate ix m row.
Proof.
  intros Hn Hr Hval. unfold duplicate. destruct (unique_ (ix_cmp (ti_index ix))) eqn:Eu; cbn [andb].
  - unfold has_key. induction (entries_of ix m) as [|e l IH]; [done|]. cbn. f_equal; [|done].
    unfold cmp_of, key_compare. rewrite Eu. done.
  - apply not_true_iff_false. rewrite has_key_elem. intros (e & (r & d & -> & Hm)%elem_of_entries & E). cbn in E.
    assert (Hne : r ≠ rid) by congruence. unfold cmp_of, key_compare in E. rewrite Eu in E. cbn [fst snd] in E.
    destruct (negb _) eqn:En; [by apply negb_true_iff, Z.eqb_neq in En|]. apply Hne.
    rewrite RID_compare_valid in E by eauto. destruct r, rid. cbn in E. case_decide; f_equal; lia.
Qed.

(** *** One entry of one index *)

Lemma index_insert_ok ix m rid row : index_matches ix m → m !! rid = None → key_valid row rid ix → ix_room (ti_index ix) →
  let dup := has_key (cmp_of ix) (entries_of ix m) (index_key ix row, rid) in
  ∃ ix', index_insert_entry ix row rid = Some (if dup then RC_RECORD_DUPLICATE_KEY else RC_SUCCESS, ix') ∧
    index_matches ix' (if dup then m else <[rid := row]> m) ∧ same_index ix ix'.
Proof.
  intros (l & Hl & Hp) Hn Hk Hroom dup. destruct (ix_insert_law _ l _ rid Hl Hk Hroom) as (i' & E & Hl' & Ec & Eo).
  unfold index_insert_entry. rewrite E. cbn [mbind option_bind]. exists (mkTableIndex (ti_fields_meta_ ix) i').
  assert (Hsame : same_index ix (mkTableIndex (ti_fields_meta_ ix) i')) by done.
  destruct (same_index_views ix _ (if dup then m else <[rid:=row]> m) row rid Hsame) as (Ee & _).
  assert (Hdup : has_key (cmp_of ix) l (index_key ix row, rid) = dup) by (by apply has_key_perm). unfold cmp_of in Hdup.
  unfold spec_insert in E, Hl' |- *. rewrite Hdup in Hl' |- *. destruct dup; (split; [done|]; split; [|done]); eexists; (split; [exact Hl'|]); rewrite Ee.
  - done.
  - cbn [snd]. rewrite ordered_insert_perm, entries_insert, Hp by done. done.
Qed.

(** The entry of an equal key is removed. *)
Lemma index_delete_equal ix m r d rid row : index_matches ix m → m !! r = Some d → key_valid row rid ix →
  cmp_of ix (index_key ix d, r) (index_key ix row, rid) = 0 →
  ∃ ix', index_delete_entry ix row rid = Some (RC_SUCCESS, ix') ∧ index_matches ix' (delete r m) ∧ same_index ix ix'.
Proof.
  intros (l & Hl & Hp) Hm Hk E0. destruct (ix_sorted_law _ l Hl) as [Hs Hok].
  destruct (ix_delete_law _ l _ rid Hl Hk) as (i' & E & Hl' & Ec & Eo).
  destruct (spec_delete_perm _ (ix_key_ok (ti_index ix)) (TotalCompare0 := ix_total (ti_index ix)) l (index_key ix row, rid) (entry_of ix (r, d)) Hs Hok Hk) as [Erc Hperm].
  { rewrite Hp, elem_of_entries. eauto. } { exact E0. }
  unfold index_delete_entry. rewrite E, Erc. cbn [mbind option_bind]. eexists. split; [done|].
  assert (Hsame : same_index ix (mkTableIndex (ti_fields_meta_ ix) i')) by done. split; [|done].
  eexists. split; [exact Hl'|]. destruct (same_index_views ix _ (delete r m) row rid Hsame) as (-> & _).
  apply (Permutation_cons_inv (a := entry_of ix (r, d))). rewrite <- entries_delete, <- Hp by done. by symmetry.
Qed.

Lemma index_key_valid ix m rid row : index_matches ix m → m !! rid = Some row → key_valid row rid ix.
Proof.
  intros (l & Hl & Hp) Hm. destruct (ix_sorted_law _ l Hl) as [_ Hok]. rewrite Forall_forall in Hok.
  apply (Hok (entry_of ix (rid, row)).1). apply list_elem_of_fmap_2. rewrite Hp, elem_of_entries. eauto.
Qed.

Lemma index_delete_present ix m rid row : index_matches ix m → m !! rid = Some row →
  ∃ ix', index_delete_entry ix row rid = Some (RC_SUCCESS, ix') ∧ index_matches ix' (delete rid m) ∧ same_index ix ix'.
Proof.
  intros Hix Hm. apply (index_delete_equal ix m rid row); [done|done|by eapply index_key_valid|].
  apply (cmp_refl (cmp := key_compare (ix_cmp (ti_index ix))) (ok := ix_key_ok (ti_index ix)) (TotalCompare := ix_total (ti_index ix))).
  by eapply index_key_valid.
Qed.

Lemma index_delete_absent ix m rid row : index_matches ix m → key_valid row rid ix →
  has_key (cmp_of ix) (entries_of ix m) (index_key ix row, rid) = false →
  ∃ ix', index_delete_entry ix row rid = Some (RC_RECORD_NOT_EXIST, ix') ∧ index_matches ix' m ∧ same_index ix ix'.
Proof.
  intros (l & Hl & Hp) Hk Hn. destruct (ix_delete_law _ l _ rid Hl Hk) as (i' & E & Hl' & Ec & Eo).
  rewrite <- (has_key_perm _ _ _ _ Hp) in Hn. unfold cmp_of in Hn. unfold spec_delete in E, Hl'. rewrite Hn in E, Hl'.
  unfold index_delete_entry. rewrite E. cbn [mbind option_bind]. eexists. split; [done|].
  assert (Hsame : same_index ix (mkTableIndex (ti_fields_meta_ ix) i')) by done. split; [|done].
  eexists. split; [exact Hl'|]. destruct (same_index_views ix _ m row rid Hsame) as (-> & _). done.
Qed.
End entries.

(** ** The loops over the indexes *)

Section loops.
Context {F I : Type} `{RecordStore F} `{IndexStore I}.
Implicit Types (t : Table F I) (ix : TableIndex I) (ixs : list (TableIndex I)) (row : list Z) (m : gmap RID (list Z)).

Definition all_match ixs m : Prop := Forall (λ ix, index_matches ix m) ixs.
Definition same_indexes : relation (list (TableIndex I)) := Forall2 same_index.

#[export] Instance same_indexes_equiv : Equivalence same_indexes.
Proof. unfold same_indexes. split; apply _. Qed.

Lemma rollback_entries_ok m rid row done : m !! rid = None → all_match done (<[rid := row]> m) →
  ∃ done', rollback_entries done row rid = Some done' ∧ all_match done' m ∧ same_indexes done done'.
Proof.
  intros Hn. induction 1 as [|ix done Hix Hd IH]; [exists []; split_and!; constructor|]. cbn [rollback_entries].
  destruct (index_delete_present ix _ rid row Hix (lookup_insert_eq _ _ _)) as (ix' & E & Hix' & Hs).
  rewrite E. cbn [mbind option_bind]. rewrite bool_decide_true by done. destruct IH as (done' & -> & Hd' & Hs'). cbn.
  eexists. split; [done|]. rewrite delete_insert_id in Hix' by done. split; by constructor.
Qed.

Lemma same_indexes_rev ixs ixs' : same_indexes ixs ixs' → same_indexes (rev ixs) (rev ixs').
Proof.
  induction 1 as [|ix ix' ixs ixs' Hix _ IH]; [constructor|]. cbn. apply Forall2_app; [done|]. constructor; [done|constructor].
Qed.

Lemma insert_entries_ok m rid row : m !! rid = None → ∀ todo done,
  all_match done (<[rid := row]> m) → all_match todo m → Forall (key_valid row rid) todo → Forall (λ ix, ix_room (ti_index ix)) todo →
  let dup ix := has_key (cmp_of ix) (entries_of ix m) (index_key ix row, rid) in
  ∃ ixs, insert_entries done todo row rid = Some (if existsb dup todo then RC_RECORD_DUPLICATE_KEY else RC_SUCCESS, ixs) ∧
    same_indexes (rev done ++ todo) ixs ∧ all_match ixs (if existsb dup todo then m else <[rid := row]> m).
Proof.
  intros Hn todo. induction todo as [|ix todo IH]; intros done Hd Ht Hk Hroom dup.
  - cbn [insert_entries existsb]. exists (rev done). split; [done|]. rewrite app_nil_r. split; [reflexivity|]. by apply Forall_rev.
  - apply Forall_cons in Ht as [Hix Ht], Hk as [Hki Hk], Hroom as [Hri Hroom]. cbn [insert_entries existsb].
    destruct (index_insert_ok ix m rid row Hix Hn Hki Hri) as (ix' & E & Hix' & Hs). rewrite E. cbn [mbind option_bind]. fold (dup ix) in Hix' |- *.
    destruct (dup ix) eqn:Edup; cbn [orb].
    + rewrite bool_decide_false by done. destruct (rollback_entries_ok m rid row done Hn Hd) as (done' & -> & Hd' & Hs'). cbn.
      eexists. split; [done|]. split.
      * apply Forall2_app; [by apply same_indexes_rev|]. constructor; [done|]. reflexivity.
      * apply Forall_app. split; [by apply Forall_rev|]. by constructor.
    + rewrite bool_decide_true by done. destruct (IH (ix' :: done)) as (ixs & E' & Hs' & Hall); [by constructor|done..|].
      exists ixs. split; [exact E'|]. split; [|done]. cbn in Hs'. rewrite <- app_assoc in Hs'. etrans; [|exact Hs'].
      apply Forall2_app; [reflexivity|]. constructor; [done|]. reflexivity.
Qed.

(** After a failed insertion the entries of the row are looked for again; none is there unless the first
    index has an equal key. *)
Lemma delete_entries_absent m rid row ixs :
  all_match ixs m → Forall (key_valid row rid) ixs →
  match ixs with ix :: _ => has_key (cmp_of ix) (entries_of ix m) (index_key ix row, rid) = false | [] => True end →
  ∃ rc ixs', delete_entry_of_indexes ixs row rid false = Some (rc, ixs') ∧ same_indexes ixs ixs' ∧ all_match ixs' m.
Proof.
  intros Hall Hk Hn. destruct ixs as [|ix ixs]; [exists RC_SUCCESS, []; split_and!; constructor|]. apply Forall_cons in Hall as [Hix Hall], Hk as [Hki Hk].
  destruct (index_delete_absent ix m rid row Hix Hki Hn) as (ix' & E & Hix' & Hs). cbn [delete_entry_of_indexes]. rewrite E. cbn [mbind option_bind].
  rewrite bool_decide_false by done. cbn. rewrite orb_true_r. do 2 eexists. split; [done|]. split; by constructor.
Qed.

Lemma delete_entries_ok m rid row ixs : all_match ixs m → m !! rid = Some row →
  ∃ ixs', delete_entries ixs row rid = Some ixs' ∧ same_indexes ixs ixs' ∧ all_match ixs' (delete rid m).
Proof.
  intros Hall Hm. induction Hall as [|ix ixs Hix Hall IH]; [exists []; split_and!; constructor|]. cbn [delete_entries].
  destruct (index_delete_present ix m rid row Hix Hm) as (ix' & -> & Hix' & Hs). cbn [mbind option_bind]. rewrite bool_decide_true by done.
  destruct IH as (ixs' & -> & Hs' & Hall'). cbn. eexists. split; [done|]. split; by constructor.
Qed.

Lemma update_entries_ok m rid row ixs : all_match ixs m → m !! rid = Some row →
  ∃ ixs', update_entries ixs row rid = Some (RC_SUCCESS, ixs') ∧ same_indexes ixs ixs' ∧ all_match ixs' (delete rid m).
Proof.
  intros Hall Hm. induction Hall as [|ix ixs Hix Hall IH]; [exists []; split_and!; constructor|]. cbn [update_entries].
  destruct (index_delete_present ix m rid row Hix Hm) as (ix' & -> & Hix' & Hs). cbn [mbind option_bind]. rewrite bool_decide_true by done.
  destruct IH as (ixs' & -> & Hs' & Hall'). cbn. eexists. split; [done|]. split; by constructor.
Qed.

Lemma existsb_ext_in (f g : TableIndex I → bool) ixs : (∀ ix, ix ∈ ixs → f ix = g ix) → existsb f ixs = existsb g ixs.
Proof. intros E. induction ixs as [|ix ixs IH]; [done|]. cbn. rewrite E, IH; [done| |by left]. intros ? ?. apply E. by right. Qed.

Lemma same_indexes_valid ixs ixs' row rid : same_indexes ixs ixs' → Forall (key_valid row rid) ixs → Forall (key_valid row rid) ixs'.
Proof.
  induction 1 as [|ix ix' ixs ixs' Hs _ IH]; [done|]. intros [? ?]%Forall_cons. constructor; [|by apply IH].
  by apply (same_index_views ix ix' ∅ row rid Hs).
Qed.

Lemma same_indexes_dup ixs ixs' m row : same_indexes ixs ixs' → existsb (λ ix, duplicate ix m row) ixs' = existsb (λ ix, duplicate ix m row) ixs.
Proof.
  induction 1 as [|ix ix' ixs ixs' Hs _ IH]; [done|]. cbn. rewrite IH. f_equal. by apply (same_index_views ix ix' m row RID_min Hs).
Qed.

(** ** The operations of a table *)

(** The relation of a table with the tables its operations make of it. *)
Definition same_shape t t' : Prop :=
  rs_record_size (record_handler_ t') = rs_record_size (record_handler_ t) ∧ same_indexes (tbl_indexes_ t) (tbl_indexes_ t').

#[export] Instance same_shape_preorder : PreOrder same_shape.
Proof.
  split; [intros t; split; [done|reflexivity]|].
  intros t1 t2 t3 [E1 S1] [E2 S2]. split; [congruence|]. by etrans.
Qed.

Lemma row_ok_shape t t' row : same_shape t t' → row_ok t row → row_ok t' row.
Proof.
  intros [E Hs] [Hl Hk]. split; [congruence|]. intros rid Hr. eapply same_indexes_valid; [exact Hs|]. by apply Hk.
Qed.


Lemma delete_entry_total m rid row ixs : all_match ixs m → Forall (key_valid row rid) ixs →
  ∃ rc ixs', delete_entry_of_indexes ixs row rid false = Some (rc, ixs').
Proof.
  intros Hall. induction Hall as [|ix ixs Hix Hall IH]; intros Hk; [by exists RC_SUCCESS, []|]. apply Forall_cons in Hk as [Hki Hk].
  assert (∃ rc ix', index_delete_entry ix row rid = Some (rc, ix')) as (rc & ix' & E).
  { destruct Hix as (l & Hl & _). destruct (ix_delete_law _ l _ rid Hl Hki) as (i' & E & _). unfold index_delete_entry. rewrite E. eauto. }
  cbn [delete_entry_of_indexes]. rewrite E. cbn [mbind option_bind]. destruct (_ && _); [eauto|].
  destruct ixs as [|ix2 ixs]; [eauto|]. destruct (IH Hk) as (rc2 & ixs' & ->). cbn. eauto.
Qed.

(** If the first index has an equal key, the entry of that row is lost. *)
Lemma delete_entries_equal m rid row ix ixs : all_match (ix :: ixs) m → Forall (key_valid row rid) (ix :: ixs) →
  has_key (cmp_of ix) (entries_of ix m) (index_key ix row, rid) = true →
  ∃ r d rc ix' ixs', m !! r = Some d ∧ cmp_of ix (index_key ix d, r) (index_key ix row, rid) = 0 ∧
    delete_entry_of_indexes (ix :: ixs) row rid false = Some (rc, ix' :: ixs') ∧ index_matches ix' (delete r m) ∧ same_index ix ix'.
Proof.
  intros [Hix Hall]%Forall_cons [Hki Hk]%Forall_cons (e & (r & d & -> & Hm)%elem_of_entries & E0)%has_key_elem.
  destruct (index_delete_equal ix m r d rid row Hix Hm Hki E0) as (ix' & E & Hix' & Hs).
  cbn [delete_entry_of_indexes]. rewrite E. cbn [mbind option_bind]. rewrite bool_decide_true by done. cbn [negb andb].
  destruct ixs as [|ix2 ixs]; [by exists r, d, RC_SUCCESS, ix', []|].
  destruct (delete_entry_total m rid row (ix2 :: ixs) Hall Hk) as (rc2 & ixs' & ->). cbn. by exists r, d, rc2, ix', ixs'.
Qed.

Lemma rows_valid t m : rs_holds (record_handler_ t) m → ∀ r d, m !! r = Some d → valid_rid r.
Proof. intros Hh r d Hm. by destruct (rs_row_law _ _ _ _ Hh Hm). Qed.

(** What [insert_record] has done before it looks at the code of the indexes. *)
Lemma insert_start t m row : table_ok t m → has_room t → row_ok t row →
  (∃ rc t' r, insert_record t row = Some (rc, t', r) ∧ OB_FAIL rc = true ∧ rc ≠ RC_RECORD_DUPLICATE_KEY ∧ r = None ∧
     same_shape t t' ∧ table_ok t' m) ∨
  (∃ s rid ixs, rs_insert_record (record_handler_ t) row = Some (RC_SUCCESS, s, Some rid) ∧ m !! rid = None ∧ valid_rid rid ∧
     rs_holds s (<[rid := row]> m) ∧ rs_record_size s = rs_record_size (record_handler_ t) ∧ same_indexes (tbl_indexes_ t) ixs ∧
     insert_entry_of_indexes (tbl_indexes_ t) row rid =
       Some (if existsb (λ ix, duplicate ix m row) (tbl_indexes_ t) then RC_RECORD_DUPLICATE_KEY else RC_SUCCESS, ixs) ∧
     all_match ixs (if existsb (λ ix, duplicate ix m row) (tbl_indexes_ t) then m else <[rid := row]> m) ∧ Forall (key_valid row rid) ixs ∧
     ∀ ix, has_key (cmp_of ix) (entries_of ix m) (index_key ix row, rid) = duplicate ix m row).
Proof.
  intros [Hh Hall] [Hroom Hri] [Hlen Hk]. destruct (rs_insert_law _ _ row Hh Hroom Hlen) as (rc & s & rid & E & Esz & Hcase).
  destruct Hcase as [(-> & r & -> & Hr & Hn & Hh')|(Hrc & Hnd & -> & Hh')]; cycle 1.
  { left. unfold insert_record. rewrite E. cbn. do 3 eexists. split; [done|]. split_and!; try done. }
  right. exists s, r. pose proof (λ ix, has_key_duplicate ix m row r Hn Hr (rows_valid t m Hh)) as Hdup.
  destruct (insert_entries_ok m r row Hn (tbl_indexes_ t) [] (Forall_nil_2 _) Hall (Hk r Hr) Hri) as (ixs & Ei & Hs & Hm).
  rewrite (existsb_ext_in _ (λ ix, duplicate ix m row)) in Ei, Hm by (intros; apply Hdup).
  exists ixs. split_and!; try done. eapply same_indexes_valid; [exact Hs|]. by apply Hk.
Qed.

(** An insertion without a duplicate. *)
Lemma insert_fresh t m row : table_ok t m → has_room t → row_ok t row → existsb (λ ix, duplicate ix m row) (tbl_indexes_ t) = false →
  ∃ rc t' r, insert_record t row = Some (rc, t', r) ∧ same_shape t t' ∧
    ((rc = RC_SUCCESS ∧ ∃ rid, r = Some rid ∧ m !! rid = None ∧ valid_rid rid ∧ table_ok t' (<[rid := row]> m)) ∨
     (OB_FAIL rc = true ∧ rc ≠ RC_RECORD_DUPLICATE_KEY ∧ table_ok t' m)).
Proof.
  intros Hok Hroom Hrow Hd. destruct (insert_start t m row Hok Hroom Hrow)
    as [(rc & t' & r & E & Hrc & Hnd & -> & Hs & Hok')|(s & rid & ixs & E & Hn & Hv & Hh & Esz & Hs & Ei & Hm & _ & _)].
  { do 3 eexists. split; [exact E|]. split; [done|]. by right. }
  rewrite Hd in Ei, Hm. unfold insert_record. rewrite E. cbn [mbind option_bind]. rewrite bool_decide_true by done. rewrite Ei. cbn [mbind option_bind].
  rewrite bool_decide_true by done. do 3 eexists. split; [done|]. split; [done|]. left. split; [done|]. by eexists.
Qed.

(** A duplicate that not already the first index finds: nothing remains of the row. *)
Lemma table_insert_duplicate t m row : table_ok t m → has_room t → row_ok t row → existsb (λ ix, duplicate ix m row) (tbl_indexes_ t) = true →
  (∀ ix, head (tbl_indexes_ t) = Some ix → duplicate ix m row = false) →
  ∃ rc t' r, insert_record t row = Some (rc, t', r) ∧ same_shape t t' ∧ OB_FAIL rc = true ∧ table_ok t' m.
Proof.
  intros Hok Hroom Hrow Hd Hhead. destruct (insert_start t m row Hok Hroom Hrow)
    as [(rc & t' & r & E & Hrc & Hnd & -> & Hs & Hok')|(s & rid & ixs & E & Hn & Hv & Hh & Esz & Hs & Ei & Hm & Hk & Hdup)].
  { do 3 eexists. by split. }
  rewrite Hd in Ei, Hm. unfold insert_record. rewrite E. cbn [mbind option_bind]. rewrite bool_decide_true by done. rewrite Ei. cbn [mbind option_bind].
  rewrite bool_decide_false by done.
  destruct (delete_entries_absent m rid row ixs Hm Hk) as (rc1 & ixs' & E' & Hs' & Hm').
  { destruct Hs as [|ix ix' ixs0 ixs0' Hix _]; [done|]. destruct (same_index_views ix ix' m row rid Hix) as (-> & -> & _ & _).
    assert (index_key ix' row = index_key ix row) as -> by (unfold index_key; by rewrite (proj1 Hix)). rewrite Hdup. by apply Hhead. }
  rewrite E'. cbn [mbind option_bind]. destruct (rs_delete_law _ _ rid row Hh (lookup_insert_eq _ _ _)) as (s' & -> & Hh' & Esz').
  cbn [mbind option_bind]. rewrite delete_insert_id in Hh' by done. do 3 eexists. split; [done|]. split; [|by split].
  split; [cbn; congruence|]. cbn. by etrans.
Qed.

(** Two rows of an index have different keys. *)
Lemma index_unique ix m r1 d1 r2 d2 : index_matches ix m → m !! r1 = Some d1 → m !! r2 = Some d2 →
  cmp_of ix (index_key ix d1, r1) (index_key ix d2, r2) = 0 → r1 = r2.
Proof.
  intros Hix H1 H2 E0. pose proof (index_key_valid ix m r2 d2 Hix H2) as Hk. destruct Hix as (l & Hl & Hp).
  destruct (ix_sorted_law _ l Hl) as [Hs Hok].
  destruct (split_exact _ (ix_key_ok (ti_index ix)) (TotalCompare0 := ix_total (ti_index ix)) l (index_key ix d2, r2) Hs Hok Hk)
    as (l1 & l2 & Hl1 & Hl2 & Hcase).
  assert (Hin : ∀ r d, m !! r = Some d → cmp_of ix (index_key ix d, r) (index_key ix d2, r2) = 0 →
    ∃ x, l = l1 ++ x :: l2 ∧ entry_of ix (r, d) = x).
  { intros r d Hm E. assert (He : entry_of ix (r, d) ∈ l) by (rewrite Hp, elem_of_entries; eauto).
    assert (Hn1 : entry_of ix (r, d) ∉ l1) by (intros Hx; rewrite Forall_forall in Hl1; specialize (Hl1 _ Hx); unfold cmp_of in E; unfold entry_of in Hl1; cbn [fst snd] in Hl1; lia).
    assert (Hn2 : entry_of ix (r, d) ∉ l2) by (intros Hx; rewrite Forall_forall in Hl2; specialize (Hl2 _ Hx); unfold cmp_of in E; unfold entry_of in Hl2; cbn [fst snd] in Hl2; lia).
    destruct Hcase as [[-> _]|(x & -> & _)]; [set_solver|]. exists x. split; [done|]. set_solver. }
  destruct (Hin r1 d1 H1 E0) as (x1 & El1 & Ex1).
  destruct (Hin r2 d2 H2) as (x2 & El2 & Ex2).
  { apply (cmp_refl (cmp := key_compare (ix_cmp (ti_index ix))) (ok := ix_key_ok (ti_index ix)) (TotalCompare := ix_total (ti_index ix))). done. }
  rewrite El1 in El2. apply app_inv_head in El2. injection El2 as <-. rewrite <- Ex2 in Ex1. by injection Ex1.
Qed.

(** Rows with the same values in the fields of an index. *)
Definition equal_keys ix row1 row2 : Prop :=
  default 0 (compare_attrs (attrs_comparator_ (ix_cmp (ti_index ix))) (index_key ix row1) (index_key ix row2)) = 0.

Lemma unique_cmp ix row1 row2 r1 r2 : unique_ (ix_cmp (ti_index ix)) = true →
  cmp_of ix (index_key ix row1, r1) (index_key ix row2, r2) = 0 ↔ equal_keys ix row1 row2.
Proof.
  intros Hu. unfold cmp_of, key_compare, equal_keys. rewrite Hu. cbn [fst]. destruct (negb _) eqn:E; [done|].
  apply negb_false_iff, Z.eqb_eq in E. by rewrite E.
Qed.

(** After the entry of the row with the key of [row] is gone, the index would take [row]. *)
Lemma deleted_not_duplicate ix m r d rid row : index_matches ix m → m !! r = Some d → unique_ (ix_cmp (ti_index ix)) = true →
  equal_keys ix d row → key_valid row rid ix → has_key (cmp_of ix) (entries_of ix (delete r m)) (index_key ix row, rid) = false.
Proof.
  intros Hix Hm Hu Heq Hk. apply not_true_iff_false. rewrite has_key_elem. intros (e & (r' & d' & -> & [Hne Hm']%lookup_delete_Some)%elem_of_entries & E).
  apply Hne. symmetry. cbn in E. apply (index_unique ix m r' d' r d Hix Hm' Hm).
  pose proof (index_key_valid ix m r d Hix Hm) as Hkd. pose proof (index_key_valid ix m r' d' Hix Hm') as Hkd'.
  pose proof (proj2 (unique_cmp ix d row r rid Hu) Heq) as E2. unfold cmp_of, key_valid in *.
  set (c := key_compare (ix_cmp (ti_index ix))) in *. set (ok := ix_key_ok (ti_index ix)) in *.
  assert (Ht : TotalCompare c ok) by apply ix_total.
  pose proof (proj1 (cmp_eq_sym c ok _ _ Hkd Hk) E2) as E2'. pose proof (proj1 (cmp_eq_sym c ok _ _ Hkd' Hk) E) as E'.
  pose proof (cmp_trans (cmp := c) (ok := ok) _ _ _ Hkd' Hk Hkd ltac:(lia) ltac:(lia)).
  pose proof (cmp_trans (cmp := c) (ok := ok) _ _ _ Hkd Hk Hkd' ltac:(lia) ltac:(lia)) as H3.
  apply (cmp_le_flip c ok) in H3; [|done..]. lia.
Qed.

(** A duplicate in the first index. *)
Lemma insert_duplicate_first t m row ix ixs0 : table_ok t m → has_room t → row_ok t row → tbl_indexes_ t = ix :: ixs0 → duplicate ix m row = true →
  ∃ rc t' r, insert_record t row = Some (rc, t', r) ∧
    ((OB_FAIL rc = true ∧ rc ≠ RC_RECORD_DUPLICATE_KEY ∧ table_ok t' m) ∨
     rc = RC_RECORD_DUPLICATE_KEY ∧ rs_holds (record_handler_ t') m ∧
     ∃ r d ix' ixs', m !! r = Some d ∧ equal_keys ix d row ∧ tbl_indexes_ t' = ix' :: ixs' ∧ index_matches ix' (delete r m) ∧ same_index ix ix').
Proof.
  intros Hok Hroom Hrow Eix Hd.
  assert (Hex : existsb (λ ix, duplicate ix m row) (tbl_indexes_ t) = true) by (rewrite Eix; cbn; by rewrite Hd).
  assert (Hu : unique_ (ix_cmp (ti_index ix)) = true) by (unfold duplicate in Hd; by apply andb_prop in Hd as [? _]).
  destruct (insert_start t m row Hok Hroom Hrow)
    as [(rc & t' & r & E & Hrc & Hnd & -> & Hs & Hok')|(s & rid & ixs & E & Hn & Hv & Hh & Esz & Hs & Ei & Hm & Hk & Hdup)].
  { do 3 eexists. split; [exact E|]. by left. }
  rewrite Hex in Ei, Hm. unfold insert_record. rewrite E. cbn [mbind option_bind]. rewrite bool_decide_true by done. rewrite Ei. cbn [mbind option_bind].
  rewrite bool_decide_false by done. rewrite Eix in Hs. destruct ixs as [|ix1 ixs1]; [by inversion Hs|]. apply Forall2_cons in Hs as [Hs1 Hs].
  pose proof Hs1 as (Ef & Ec & Eo). assert (Ekey : ∀ d, index_key ix1 d = index_key ix d) by (intros d; unfold index_key; by rewrite Ef).
  destruct (delete_entries_equal m rid row ix1 ixs1 Hm Hk) as (r & d & rc1 & ix' & ixs' & Hr & E0 & E' & Hix' & Hs').
  { destruct (same_index_views ix ix1 m row rid Hs1) as (-> & -> & _ & _). rewrite Ekey, Hdup. done. }
  rewrite E'. cbn [mbind option_bind]. destruct (rs_delete_law _ _ rid row Hh (lookup_insert_eq _ _ _)) as (s' & -> & Hh' & Esz').
  cbn [mbind option_bind]. rewrite delete_insert_id in Hh' by done. do 3 eexists. split; [done|].
  right. split; [done|]. split; [done|]. exists r, d, ix', ixs'. split; [done|]. split; [|split; [done|]; split; [done|]; by etrans].
  rewrite !Ekey in E0. unfold cmp_of in E0. rewrite Ec in E0. by apply (unique_cmp ix d row r rid Hu).
Qed.

(** The entries of an index when a row changes outside the indexed fields. *)
Lemma index_matches_visit ix m rid row row' : index_matches ix m → m !! rid = Some row → index_key ix row' = index_key ix row →
  index_matches ix (<[rid := row']> m).
Proof.
  intros (l & Hl & Hp) Hm Hk. exists l. split; [done|]. rewrite Hp, (entries_delete ix m rid row Hm).
  rewrite <- insert_delete_eq. rewrite entries_insert by apply lookup_delete_eq. unfold entry_of. cbn. by rewrite Hk.
Qed.

Lemma visit_record_ok t m rid row visitor : table_ok t m → m !! rid = Some row →
  (∀ row', visitor row = Some row' → length row' = length row ∧ Forall (λ ix, index_key ix row' = index_key ix row) (tbl_indexes_ t)) →
  ∃ t', visit_record t rid visitor = Some (RC_SUCCESS, t') ∧ same_shape t t' ∧ tbl_indexes_ t' = tbl_indexes_ t ∧
    table_ok t' (match visitor row with Some row' => <[rid := row']> m | None => m end).
Proof.
  intros [Hh Hall] Hm Hv. destruct (rs_row_law _ _ _ _ Hh Hm) as [_ Hlen].
  destruct (rs_visit_law _ m rid row visitor Hh Hm) as (s' & E & Esz & Hh'); [intros row' Hr; destruct (Hv row' Hr); lia|].
  unfold visit_record. rewrite E. cbn [mbind option_bind]. eexists. split; [done|]. split; [by split|]. split; [done|]. split; [done|].
  cbn. destruct (visitor row) as [row'|]; [|done]. destruct (Hv row' eq_refl) as [_ Hk]. unfold all_match in Hall.
  rewrite Forall_forall in Hall. rewrite Forall_forall in Hk. apply Forall_forall. intros ix Hix.
  by apply (index_matches_visit ix m rid row); [apply Hall| |apply Hk].
Qed.

Lemma delete_record_ok t m rid row : table_ok t m → m !! rid = Some row →
  ∃ t', delete_record t rid row = Some (RC_SUCCESS, t') ∧ same_shape t t' ∧ table_ok t' (delete rid m).
Proof.
  intros [Hh Hall] Hm. destruct (delete_entries_ok m rid row _ Hall Hm) as (ixs' & E & Hs & Hall').
  destruct (rs_delete_law _ m rid row Hh Hm) as (s' & E' & Hh' & Esz).
  unfold delete_record. rewrite E. cbn [mbind option_bind]. rewrite E'. cbn. eexists. split; [done|]. by split.
Qed.

(** C20: [Table::insert_record] keeps the rows and all indexes consistent.  Let the indexes of the table hold exactly the entries
    of its rows ([table_ok]), let the file have room for a page and every index for a node on each level ([has_room]), and let the
    row have the size of the table and keys the indexes order, so no NULL in an indexed column ([row_ok]; with NULL in one
    index and a duplicate in another the entry of the NULL would stay).  Then it returns; without a duplicate in a
    unique index the row is stored at a fresh position and entered in every index, or the file reports an error and
    nothing changes; with a duplicate the insertion is refused and, if the first index is not the one that refuses it,
    every entry that was already made and the record itself are removed again. *)
Theorem table_insert_atomic t m row : table_ok t m → has_room t → row_ok t row →
  ∃ rc t' r, insert_record t row = Some (rc, t', r) ∧
    if existsb (λ ix, duplicate ix m row) (tbl_indexes_ t)
    then OB_FAIL rc = true ∧ ((∀ ix, head (tbl_indexes_ t) = Some ix → duplicate ix m row = false) → table_ok t' m)
    else (rc = RC_SUCCESS ∧ ∃ rid, r = Some rid ∧ m !! rid = None ∧ table_ok t' (<[rid := row]> m)) ∨
         (OB_FAIL rc = true ∧ table_ok t' m).
Proof.
  intros Hok Hroom Hrow. destruct (existsb _ _) eqn:Ed; cycle 1.
  { destruct (insert_fresh t m row Hok Hroom Hrow Ed) as (rc & t' & r & E & _ & Hcase). exists rc, t', r. split; [done|].
    destruct Hcase as [(-> & rid & -> & Hn & _ & Hok')|(Hrc & _ & Hok')]; [left; split; [done|]; by exists rid|by right]. }
  destruct (tbl_indexes_ t) as [|ix ixs] eqn:Eix; [done|]. destruct (duplicate ix m row) eqn:Edup.
  - destruct (insert_duplicate_first t m row ix ixs Hok Hroom Hrow Eix Edup) as (rc & t' & r & E & Hcase). exists rc, t', r. split; [done|].
    split; [by destruct Hcase as [(? & _)|(-> & _)]|]. intros Hh. rewrite (Hh ix eq_refl) in Edup. done.
  - rewrite <- Eix in Ed. destruct (table_insert_duplicate t m row Hok Hroom Hrow Ed) as (rc & t' & r & E & _ & Hrc & Hok').
    { rewrite Eix. by intros ? [= <-]. }
    exists rc, t', r. done.
Qed.

(** C21: if the first of the indexes of a table is unique and refuses a row, [Table::insert_record] removes the entry of the row that is
    in the table: the indexes have already undone their entries, and the second removal finds the equal key of the
    other row, because a unique index does not compare positions.  For a consistent table ([table_ok]) with room ([has_room])
    and a row of its size without NULL in indexed columns ([row_ok]): the rejection is reported, the rows stay, but afterwards deleting
    the row that is there fails its assertion.  If that index is the only one and the table has still room, then inserting the
    duplicate again succeeds, unless the file reports an error: two rows have the same unique key. *)
Theorem table_insert_loses_entry t m row ix ixs : table_ok t m → has_room t → row_ok t row →
  tbl_indexes_ t = ix :: ixs → duplicate ix m row = true →
  ∃ rc t' r, insert_record t row = Some (rc, t', r) ∧ (rc = RC_RECORD_DUPLICATE_KEY →
    ∃ rid d, m !! rid = Some d ∧ equal_keys ix d row ∧ rs_holds (record_handler_ t') m ∧ delete_record t' rid d = None ∧
      (ixs = [] → has_room t' → ∃ rc2 t2 r2, insert_record t' row = Some (rc2, t2, r2) ∧
         ((rc2 = RC_SUCCESS ∧ ∃ rid2, r2 = Some rid2 ∧ rid2 ≠ rid ∧ rs_holds (record_handler_ t2) (<[rid2 := row]> m)) ∨
          (OB_FAIL rc2 = true ∧ r2 = None)))).
Proof.
  intros Hok Hroom Hrow Eix Hd. destruct (insert_duplicate_first t m row ix ixs Hok Hroom Hrow Eix Hd) as (rc & t' & r & E & Hcase).
  exists rc, t', r. split; [done|]. intros ->. destruct Hcase as [(_ & ? & _)|(_ & Hh & rid & d & ix' & ixs' & Hm & Heq & Eix' & Hix' & Hs)]; [done|].
  assert (Hu : unique_ (ix_cmp (ti_index ix)) = true) by (unfold duplicate in Hd; by apply andb_prop in Hd as [? _]).
  destruct Hok as [Hh0 Hall]. assert (Hix : index_matches ix m) by (rewrite Eix in Hall; by apply Forall_inv in Hall).
  assert (Hsize : rs_record_size (record_handler_ t') = rs_record_size (record_handler_ t)).
  { destruct (rs_row_law _ _ _ _ Hh0 Hm) as [_ <-]. by destruct (rs_row_law _ _ _ _ Hh Hm) as [_ <-]. }
  destruct Hrow as [Hlen Hk]. pose proof Hs as (Ef & Ec & Eo).
  assert (Hgone : ∀ row2 rid2, equal_keys ix d row2 → key_valid row2 rid2 ix →
    has_key (cmp_of ix') (entries_of ix' (delete rid m)) (index_key ix' row2, rid2) = false).
  { intros row2 rid2 Heq2 Hk2. destruct (same_index_views ix ix' (delete rid m) row2 rid2 Hs) as (-> & -> & _ & _).
    assert (index_key ix' row2 = index_key ix row2) as -> by (unfold index_key; by rewrite Ef). by apply (deleted_not_duplicate ix m rid d). }
  exists rid, d. split; [done|]. split; [done|]. split; [done|]. split.
  - unfold delete_record. rewrite Eix'. cbn [delete_entries].
    destruct (index_delete_absent ix' (delete rid m) rid d Hix') as (ix'' & -> & _).
    { apply (same_index_views ix ix' ∅ d rid Hs). by eapply index_key_valid. }
    { apply Hgone; [|by eapply index_key_valid]. apply (unique_cmp ix d d rid rid Hu).
      apply (cmp_refl (cmp := key_compare (ix_cmp (ti_index ix))) (ok := ix_key_ok (ti_index ix)) (TotalCompare := ix_total (ti_index ix))).
      by eapply index_key_valid. }
    cbn [mbind option_bind]. by rewrite bool_decide_false.
  - intros Eixs [Hroom1 Hroom2]. rewrite Eixs in Eix. destruct (rs_insert_law _ m row Hh Hroom1 ltac:(congruence)) as (rc & s & r2 & E2 & _ & Hcase).
    unfold insert_record. rewrite E2. cbn [mbind option_bind]. destruct Hcase as [(-> & rid2 & -> & Hv & Hn & Hh2)|(Hrc & _ & -> & _)]; cycle 1.
    { do 3 eexists. split; [done|]. by right. }
    rewrite bool_decide_true by done. rewrite Eix' in Hroom2 |- *. apply Forall_cons in Hroom2 as [Hr1 Hroom2].
    assert (ixs' = []) as ->.
    { destruct (insert_start t m row ltac:(by split) Hroom ltac:(by split)) as [(rc & t1 & r1 & Ei & _ & Hnd & _)|(s1 & rid1 & ixs1 & Es & _ & _ & Hh1 & _ & Hs1 & Ei & _)].
      - rewrite Ei in E. by injection E.
      - unfold insert_record in E. rewrite Es in E. cbn [mbind option_bind] in E. rewrite bool_decide_true in E by done. rewrite Ei in E. cbn [mbind option_bind] in E.
        rewrite Eix in Hs1, E. cbn [existsb] in E. rewrite Hd in E. cbn [orb] in E. rewrite bool_decide_false in E by done.
        destruct ixs1 as [|ix1 ixs1]; [by inversion Hs1|]. apply Forall2_cons in Hs1 as [_ ->%Forall2_nil_inv_l].
        cbn [delete_entry_of_indexes] in E. destruct (index_delete_entry ix1 row rid1) as [[rc3 ix3]|]; [|done]. cbn [mbind option_bind] in E.
        destruct (rs_delete_record s1 rid1) as [[rc4 s4]|]; [|by destruct (_ && _)].
        destruct (_ && _); cbn in E; injection E as <- _; cbn in Eix'; by injection Eix'. }
    unfold insert_entry_of_indexes. cbn [insert_entries].
    assert (Hkv : key_valid row rid2 ix').
    { apply (same_index_views ix ix' ∅ row rid2 Hs). specialize (Hk rid2 Hv). rewrite Eix in Hk. by apply Forall_inv in Hk. }
    destruct (index_insert_ok ix' (delete rid m) rid2 row Hix') as (ix2 & Ei & _ & _); [apply lookup_delete_None; by right|done|done|].
    rewrite Hgone in Ei; [|done|by apply (same_index_views ix ix' ∅ row rid2 Hs)]. rewrite Ei. cbn [mbind option_bind].
    rewrite bool_decide_true by done. cbn. do 3 eexists. split; [done|]. left. split; [done|]. exists rid2. split; [done|]. split; [congruence|done].
Qed.

(** C22: on a consistent table ([table_ok]: every index has exactly the entries of the rows; this fails after [table_insert_loses_entry] and
    for rows with NULL in an indexed column, [null_row_undeletable]) [Table::delete_record] of a row, given by
    position or as a record, succeeds without failing its assertion and removes the row and its entry in every index;
    [update_record] then stores the new row the way [insert_record] does. *)
Theorem table_delete_exact t m rid row : table_ok t m → m !! rid = Some row →
  ∃ t', delete_record t rid row = Some (RC_SUCCESS, t') ∧ delete_record_at t rid = Some (RC_SUCCESS, t') ∧ table_ok t' (delete rid m) ∧
    ∀ row2, update_record t rid row row2 = insert_record t' row2.
Proof.
  intros Hok Hm. destruct (delete_record_ok t m rid row Hok Hm) as (t' & E & _ & Hok'). exists t'. split; [done|]. split; [|split; [done|]].
  - unfold delete_record_at, get_record. rewrite (rs_get_law _ m rid row (proj1 Hok) Hm). done.
  - intros row2. destruct Hok as [Hh Hall]. unfold update_record, delete_record in *.
    destruct (update_entries_ok m rid row _ Hall Hm) as (ixs & Eu & _). destruct (delete_entries (tbl_indexes_ t) row rid) as [ixs2|] eqn:Ed; [|done].
    assert (Hsame : ∀ ixs a b rc, update_entries ixs row rid = Some (rc, a) → delete_entries ixs row rid = Some b → a = b).
    { clear. induction ixs as [|ix ixs IH]; intros a b rc; cbn; [by intros [= _ <-] [= <-]|].
      destruct (index_delete_entry ix row rid) as [[rc1 ix1]|]; [|done]. cbn. destruct (bool_decide _); [|done].
      destruct (update_entries ixs row rid) as [[rc2 a2]|]; [|done]. destruct (delete_entries ixs row rid) as [b2|]; [|done]. cbn.
      intros [= _ <-] [= <-]. f_equal. by eapply IH. }
    rewrite Eu. cbn [mbind option_bind] in E |- *. rewrite bool_decide_true by done.
    destruct (rs_delete_record (record_handler_ t) rid) as [[rc s]|] eqn:Er; [|done]. cbn [mbind option_bind] in E |- *. injection E as _ <-.
    by rewrite (Hsame _ _ _ _ Eu Ed).
Qed.
End loops.

(** ** Examples: a table with two integer columns *)

Definition ex_id : FieldMeta := mkFieldMeta "id" INTS 0 4 true 0 false.
Definition ex_val : FieldMeta := mkFieldMeta "val" INTS 4 4 true 1 false.
Definition ex_row (id val : Z) : list Z := le_encode 4 id ++ le_encode 4 val.
Definition ex_comparator (unique : bool) : KeyComparator (list Z) := mkKeyComparator unique [λ x y, le_decode x - le_decode y].
Definition ex_key_ok (unique : bool) : Key (list Z) → Prop := valid_key [λ _, True].

Lemma ex_comparator_total unique : TotalCompare (key_compare (ex_comparator unique)) (ex_key_ok unique).
Proof. apply key_total. repeat constructor; intros; lia. Qed.

Definition ex_index (f : FieldMeta) (unique : bool) (l : list (Key (list Z) * RID)) : TableIndex ListIndex :=
  mkTableIndex [f] (mkListIndex (ex_comparator unique) (ex_key_ok unique) (ex_comparator_total unique) l).
Definition ex_entry (f : FieldMeta) : Key (list Z) * RID := (([field_bytes f (ex_row 1 10)], mkRID 1 0), mkRID 1 0).
Definition ex_rows : gmap RID (list Z) := {[mkRID 1 0 := ex_row 1 10]}.
Definition ex_store : MapStore := mkMapStore 8 1 ex_rows.
(** The unique index is the second one, and the only one. *)
Definition ex_table : Table MapStore ListIndex := mkTable ex_store [ex_index ex_val false [ex_entry ex_val]; ex_index ex_id true [ex_entry ex_id]].
Definition ex_unique : Table MapStore ListIndex := mkTable ex_store [ex_index ex_id true [ex_entry ex_id]].

Lemma ex_index_matches f unique : index_matches (ex_index f unique [ex_entry f]) ex_rows.
Proof.
  exists [ex_entry f]. split; [split; [done|]|].
  - split; [repeat constructor|]. apply Forall_singleton. split; [by repeat constructor|].
    split; cbn; unfold INT32_MAX; lia.
  - unfold entries_of, ex_rows. rewrite map_to_list_singleton. done.
Qed.

Lemma ex_store_holds : rs_holds ex_store ex_rows.
Proof.
  split; [done|]. split; [done|]. intros rid row Hr. unfold ex_rows in Hr. apply lookup_singleton_Some in Hr as [<- <-].
  split; [|split; by vm_compute].
  split; cbn; unfold INT32_MAX; lia.
Qed.

Lemma ex_valid row (rid : RID) f unique l : valid_rid rid → key_valid row rid (ex_index f unique l).
Proof. intros Hr. split; [by repeat constructor|done]. Qed.

Lemma table_insert_atomic_witness :
  ∃ rc t' r, insert_record ex_table (ex_row 1 20) = Some (rc, t', r) ∧ OB_FAIL rc = true ∧ table_ok t' ex_rows.
Proof.
  destruct (table_insert_atomic ex_table ex_rows (ex_row 1 20)) as (rc & t' & r & E & Hd).
  - split; [apply ex_store_holds|]. repeat constructor; apply ex_index_matches.
  - by repeat constructor.
  - split; [by vm_compute|]. intros rid Hr. repeat constructor; by apply ex_valid.
  - assert (Ed : existsb (λ ix, duplicate ix ex_rows (ex_row 1 20)) (tbl_indexes_ ex_table) = true) by by vm_compute.
    rewrite Ed in Hd. destruct Hd as [Hrc Hok]. exists rc, t', r. split; [exact E|]. split; [exact Hrc|]. apply Hok.
    intros ix [= <-]. by vm_compute.
Defined.

(** The duplicate is rejected once and accepted the second time. *)
Lemma table_insert_loses_entry_witness :
  ∃ t' r t2 rid2, insert_record ex_unique (ex_row 1 20) = Some (RC_RECORD_DUPLICATE_KEY, t', r) ∧
    insert_record t' (ex_row 1 20) = Some (RC_SUCCESS, t2, Some rid2) ∧ rs_holds (record_handler_ t2) (<[rid2 := ex_row 1 20]> ex_rows).
Proof.
  destruct (table_insert_loses_entry ex_unique ex_rows (ex_row 1 20) (ex_index ex_id true [ex_entry ex_id]) []) as (rc & t' & r & E & Hd).
  - split; [apply ex_store_holds|]. repeat constructor; apply ex_index_matches.
  - by repeat constructor.
  - split; [by vm_compute|]. intros rid Hr. repeat constructor; by apply ex_valid.
  - done.
  - by vm_compute.
  - assert (E1 : fst ∘ fst <$> insert_record ex_unique (ex_row 1 20) = Some RC_RECORD_DUPLICATE_KEY) by by vm_compute.
    assert (E3 : (insert_record ex_unique (ex_row 1 20) ≫= λ x, fst ∘ fst <$> insert_record x.1.2 (ex_row 1 20)) = Some RC_SUCCESS) by by vm_compute.
    rewrite E in E1, E3. injection E1 as ->.
    destruct (Hd eq_refl) as (rid & d & _ & _ & _ & _ & Hagain). clear Hd.
    destruct Hagain as (rc2 & t2 & r2 & E2 & Hcase); [done|split; [done|]; apply Forall_true; done|].
    destruct Hcase as [(-> & rid2 & -> & _ & Hh)|[Hrc ->]]; [by exists t', r, t2, rid2|].
    cbn [mbind option_bind fst snd] in E3. rewrite E2 in E3. injection E3 as ->. done.
Defined.

Lemma table_delete_exact_witness :
  ∃ t', delete_record ex_table (mkRID 1 0) (ex_row 1 10) = Some (RC_SUCCESS, t') ∧ table_ok t' ∅.
Proof.
  destruct (table_delete_exact ex_table ex_rows (mkRID 1 0) (ex_row 1 10)) as (t' & E & _ & Hok & _).
  - split; [apply ex_store_holds|]. repeat constructor; apply ex_index_matches.
  - done.
  - exists t'. split; [exact E|]. unfold ex_rows in Hok. by rewrite delete_singleton_eq in Hok.
Defined.
