(* ===== verification/Dml.v ===== *)
(** * Operators that change tables ([sql/operator/{insert,delete,update}_physical_operator.*, storage/trx/vacuous_trx.*])

    INSERT and DELETE work through the transaction, here [VacuousTrx], which hands every call to the table; UPDATE works on the table
    itself: it collects the records below it, deletes them all and inserts the new ones, and undoes what it did when a call
    fails.  Views are not modelled. *)
From Stdlib Require Import SpecFloat.
From stdpp Require Import strings.
From S2P Require Import Prelude Rc Serializer TableMeta Text Float Value BplusKey BplusTree BplusFind BplusInv Stores Table.
From S2P Require Import Aggregator Tuples MakeRecord Expression Operators.

(** ** Operations *)

Section operations.
Variable stof : list Z → option float32.
Variable fuel : nat.
Context {F I : Type} `{RecordStore F} `{IndexStore I} {X : Type} `{!Tuple X} {C : Type} `{!PhysicalOperator C (RID * list Z)}.
Implicit Types (t : Table F I) (c : C) (row : list Z).

(** [src/src/observer/storage/trx/vacuous_trx.cpp:35-35] [VacuousTrx::insert_record] *)
Definition vacuous_insert_record t row : option (RC * Table F I * option RID) := Table.insert_record t row.

(** [src/src/observer/storage/trx/vacuous_trx.cpp:37-37] [VacuousTrx::delete_record] *)
Definition vacuous_delete_record t (rid : RID) row : option (RC * Table F I) := Table.delete_record t rid row.

(** [src/src/observer/sql/operator/insert_physical_operator.cpp:46-53] [InsertPhysicalOperator::open] deletes what was inserted, the
    last one first; the same loop is in [UpdatePhysicalOperator::open] (241-248) *)
Fixpoint undo_inserts t (done : list (RID * list Z)) : option (RC * Table F I) :=
  match done with
  | [] => Some (RC_SUCCESS, t)
  | (rid, row) :: done =>
      '(rc2, t) ← vacuous_delete_record t rid row;
      if bool_decide (rc2 = RC_SUCCESS) then undo_inserts t done else Some (rc2, t)
  end.

(** [src/src/observer/sql/operator/insert_physical_operator.cpp:32-56] [InsertPhysicalOperator::open] the loop; a record that cannot
    be made ends it without undoing anything *)
Fixpoint insert_loop (m : TableMeta) (done : list (RID * list Z)) (values_ : list (list Value)) t : option (RC * Table F I) :=
  match values_ with
  | [] => Some (RC_SUCCESS, t)
  | value :: values_ =>
      '(rc, record) ← make_record m value;
      if negb (bool_decide (rc = RC_SUCCESS)) then Some (rc, t)
      else
        row ← record;
        '(rc, t, rid) ← vacuous_insert_record t row;
        if bool_decide (rc = RC_SUCCESS) then rid ← rid; insert_loop m ((rid, row) :: done) values_ t
        else '(_, t) ← undo_inserts t done; Some (rc, t)
  end.

(** [src/src/observer/sql/operator/insert_physical_operator.cpp:27-59] [InsertPhysicalOperator::open] *)
Definition insert_open (m : TableMeta) (values_ : list (list Value)) t : option (RC * Table F I) := insert_loop m [] values_ t.

(** [src/src/observer/sql/operator/delete_physical_operator.cpp:37-47] [DeletePhysicalOperator::open] collects the records; [false] if
    there is no tuple, where [open] returns *)
Fixpoint delete_rows (n : nat) c : option (RC * bool * list (RID * list Z) * C) :=
  match n with
  | O => None
  | S n =>
      '(rc, c) ← op_next c;
      if negb (bool_decide (rc = RC_SUCCESS)) then Some (rc, true, [], c)
      else match op_current_tuple c with
           | None => Some (rc, false, [], c)
           | Some x => '(rc, b, xs, c) ← delete_rows n c; Some (rc, b, x :: xs, c)
           end
  end.

(** [src/src/observer/sql/operator/delete_physical_operator.cpp:54-60] [DeletePhysicalOperator::open] deletes the records *)
Fixpoint delete_loop t (records_ : list (RID * list Z)) : option (RC * Table F I) :=
  match records_ with
  | [] => Some (RC_SUCCESS, t)
  | (rid, row) :: records_ =>
      '(rc, t) ← vacuous_delete_record t rid row;
      if bool_decide (rc = RC_SUCCESS) then delete_loop t records_ else Some (rc, t)
  end.

(** [src/src/observer/sql/operator/delete_physical_operator.cpp:21-63] [DeletePhysicalOperator::open] of a table; the code of the last
    [next] is not looked at *)
Definition delete_open (children_ : option C) t : option (RC * Table F I) :=
  match children_ with
  | None => Some (RC_SUCCESS, t)
  | Some child =>
      '(rc, child) ← op_open child;
      if negb (bool_decide (rc = RC_SUCCESS)) then Some (rc, t)
      else
        '(rc, all, records_, child) ← delete_rows fuel child;
        if negb all then Some (rc, t) else '(_, _) ← op_close child; delete_loop t records_
  end.

(** *** Update *)

(** [src/src/observer/sql/operator/update_physical_operator.cpp:72-103] [UpdatePhysicalOperator::convert_expression_to_values] the value
    of an expression, for a tuple without cells; the code of [get_value] is not looked at *)
Definition assigned_value (shell : X) (e : Expression X) : option (RC * Value) :=
  match m_cursor (meaning stof e shell) with
  | Some c =>
      if negb (bool_decide (c_open c = RC_SUCCESS)) then Some (c_open c, Value_new)
      else
        '(rc, tmp) ← cursor_next (c_items c) (c_end c) Value_new;
        if bool_decide (rc = RC_RECORD_EOF) then Some (RC_SUCCESS, NULL_VALUE)
        else if negb (bool_decide (rc = RC_SUCCESS)) then Some (rc, tmp)
        else
          '(rc, _) ← cursor_next (tail (c_items c)) (c_end c) Value_new;
          if negb (bool_decide (rc = RC_RECORD_EOF)) then Some (if bool_decide (rc = RC_SUCCESS) then RC_INVALID_ARGUMENT else rc, tmp)
          else Some (RC_SUCCESS, tmp)
  | None => '(_, tmp) ← get_value stof e shell Value_new; Some (RC_SUCCESS, tmp)
  end.

(** [src/src/observer/sql/operator/update_physical_operator.cpp:58-128] [UpdatePhysicalOperator::convert_expression_to_values] *)
Fixpoint convert_expression_to_values (shell : X) (fields_meta_ : list FieldMeta) (expressions_ : list (Expression X)) : option (RC * list Value) :=
  match expressions_, fields_meta_ with
  | [], _ => Some (RC_SUCCESS, [])
  | _, [] => None
  | e :: expressions_, field :: fields_meta_ =>
      '(rc, tmp) ← assigned_value shell e;
      if negb (bool_decide (rc = RC_SUCCESS)) then Some (rc, [])
      else
        '(rc, value) ← cast_to tmp (attr_type_ field) Value_new;
        if negb (bool_decide (rc = RC_SUCCESS)) then Some (rc, [])
        else
          let '(rc, value) := resize value (attr_len_ field) in
          if negb (bool_decide (rc = RC_SUCCESS)) then Some (rc, [])
          else if negb (nullable_ field) && is_null value then Some (RC_VARIABLE_NOT_VALID, [])
          else '(rc, values_) ← convert_expression_to_values shell fields_meta_ expressions_; Some (rc, value :: values_)
  end.

(** [src/src/observer/sql/operator/update_physical_operator.cpp:177-179] [UpdatePhysicalOperator::open] *)
Fixpoint set_fields row (fields_meta_ : list FieldMeta) (values_ : list Value) : option (list Z) :=
  match fields_meta_, values_ with
  | [], _ => Some row
  | _, [] => None
  | f :: fields_meta_, v :: values_ =>
      data ← value_data v; row ← copy_to row (attr_offset_ f) data (attr_len_ f); set_fields row fields_meta_ values_
  end.

(** [src/src/observer/sql/operator/update_physical_operator.cpp:161-195] [UpdatePhysicalOperator::open] the records and what they become;
    [false] if there is no tuple, where [open] returns *)
Fixpoint update_rows (n : nat) (fields_meta_ : list FieldMeta) (values_ : list Value) c : option (RC * bool * list ((RID * list Z) * list Z) * C) :=
  match n with
  | O => None
  | S n =>
      '(rc, c) ← op_next c;
      if negb (bool_decide (rc = RC_SUCCESS)) then Some (rc, true, [], c)
      else match op_current_tuple c with
           | None => Some (rc, false, [], c)
           | Some old =>
               new_record ← set_fields old.2 fields_meta_ values_;
               '(rc, b, xs, c) ← update_rows n fields_meta_ values_ c; Some (rc, b, (old, new_record) :: xs, c)
           end
  end.

(** [src/src/observer/sql/operator/update_physical_operator.cpp:254-260] [UpdatePhysicalOperator::open] puts old records back, as the
    loop over those that were deleted (219-226) does *)
Fixpoint reinsert t (rows : list (list Z)) : option (RC * Table F I) :=
  match rows with
  | [] => Some (RC_SUCCESS, t)
  | row :: rows =>
      '(rc2, t, _) ← Table.insert_record t row;
      if bool_decide (rc2 = RC_SUCCESS) then reinsert t rows else Some (rc2, t)
  end.

(** [src/src/observer/sql/operator/update_physical_operator.cpp:212-229] [UpdatePhysicalOperator::open] *)
Fixpoint delete_olds (done : list (list Z)) t (old_records : list (RID * list Z)) : option (RC * Table F I) :=
  match old_records with
  | [] => Some (RC_SUCCESS, t)
  | (rid, row) :: old_records =>
      '(rc, t) ← Table.delete_record t rid row;
      if bool_decide (rc = RC_SUCCESS) then delete_olds (row :: done) t old_records
      else '(_, t) ← reinsert t done; Some (rc, t)
  end.

(** [src/src/observer/sql/operator/update_physical_operator.cpp:236-267] [UpdatePhysicalOperator::open] *)
Fixpoint insert_news (old_records : list (RID * list Z)) (done : list (RID * list Z)) t (new_records : list (list Z)) : option (RC * Table F I) :=
  match new_records with
  | [] => Some (RC_SUCCESS, t)
  | row :: new_records =>
      '(rc, t, rid) ← Table.insert_record t row;
      if bool_decide (rc = RC_SUCCESS) then rid ← rid; insert_news old_records ((rid, row) :: done) t new_records
      else
        '(rc2, t) ← undo_inserts t done;
        if negb (bool_decide (rc2 = RC_SUCCESS)) then Some (rc2, t)
        else '(rc2, t) ← reinsert t old_records.*2; Some (if negb (bool_decide (rc2 = RC_SUCCESS)) then rc2 else rc, t)
  end.

(** [src/src/observer/sql/operator/update_physical_operator.cpp:212-269] [UpdatePhysicalOperator::open] *)
Definition update_apply t (old_records : list (RID * list Z)) (new_records : list (list Z)) : option (RC * Table F I) :=
  '(rc, t) ← delete_olds [] t old_records;
  if negb (bool_decide (rc = RC_SUCCESS)) then Some (rc, t) else insert_news old_records [] t new_records.

(** [src/src/observer/sql/operator/update_physical_operator.cpp:130-269] [UpdatePhysicalOperator::open] of a table *)
Definition update_open (shell : X) (fields_meta_ : list FieldMeta) (expressions_ : list (Expression X)) (children_ : option C) t : option (RC * Table F I) :=
  match children_ with
  | None => Some (RC_SUCCESS, t)
  | Some child =>
      '(rc, child) ← op_open child;
      if negb (bool_decide (rc = RC_SUCCESS)) then Some (rc, t)
      else
        '(rc, values_) ← convert_expression_to_values shell fields_meta_ expressions_;
        if negb (bool_decide (rc = RC_SUCCESS)) then
          '(rc2, child) ← op_next child; '(_, _) ← op_close child;
          Some (if bool_decide (rc2 = RC_RECORD_EOF) then RC_SUCCESS else rc, t)
        else
          '(rc, all, records, child) ← update_rows fuel fields_meta_ values_ child;
          if negb all then Some (rc, t)
          else
            '(rc3, _) ← op_close child;
            if negb (bool_decide (rc = RC_RECORD_EOF)) then Some (rc, t)
            else if negb (bool_decide (rc3 = RC_SUCCESS)) then Some (rc3, t)
            else update_apply t records.*1 records.*2
  end.
End operations.

(** ** Columns that are assigned *)

Section columns.
Variable stof : list Z → option float32.
Context {X : Type} `{!Tuple X}.
Implicit Types (row : list Z) (f : FieldMeta).

(** An expression has a value that the column can hold. *)
Definition value_for (shell : X) f (e : Expression X) (w : Value) : Prop :=
  ∃ tmp, assigned_value stof shell e = Some (RC_SUCCESS, tmp) ∧ cast_to tmp (attr_type_ f) Value_new = Some (RC_SUCCESS, w) ∧
    storable f w ∧ (nullable_ f = true ∨ is_null w = false).

(** The row with the values [ws] in the columns [fields]. *)
Fixpoint assign (fields : list FieldMeta) (ws : list Value) row : list Z :=
  match fields, ws with
  | f :: fields, w :: ws => assign fields ws (splice row (Z.to_nat (attr_offset_ f)) (field_data f w))
  | _, _ => row
  end.

Definition fits f row : Prop := 0 ≤ attr_offset_ f ∧ 0 < attr_len_ f ∧ attr_offset_ f + attr_len_ f ≤ Z.of_nat (length row).

Lemma splice_field_length f w row : storable f w → fits f row → length (splice row (Z.to_nat (attr_offset_ f)) (field_data f w)) = length row.
Proof. intros Hw (Ho & Hl & He). pose proof (field_data_length f w Hw Hl). apply splice_length. lia. Qed.

Lemma assign_length fields ws row : Forall2 storable fields ws → Forall (λ f, fits f row) fields → length (assign fields ws row) = length row.
Proof.
  intros Hw. revert row. induction Hw as [|f w fields ws Hw _ IH]; intros row Hf; [done|]. apply Forall_cons in Hf as [Hf Hfs]. cbn [assign].
  pose proof (splice_field_length f w row Hw Hf) as E. rewrite IH; [done|]. unfold fits in *. by rewrite E.
Qed.

(** The conversion of the expressions, and the copies into a record. *)
Lemma convert_ok shell fields es ws : Forall3 (value_for shell) fields es ws → Forall (λ f, 0 < attr_len_ f) fields →
  ∃ vs, convert_expression_to_values stof shell fields es = Some (RC_SUCCESS, vs) ∧
    ∀ row, Forall (λ f, fits f row) fields → set_fields row fields vs = Some (assign fields ws row).
Proof.
  induction 1 as [|f e w fields es ws (tmp & Ea & Ec & Hst & Hnull) Hall IH]; intros Hpos; [by exists []|]. apply Forall_cons in Hpos as [Hl Hpos].
  destruct (IH Hpos) as (vs & E & Hset). destruct (resize_data f w Hst Hl) as (v & Er & [_ En (data & Ed & Hlen & Et) _ _ _]).
  exists (v :: vs). split.
  - cbn [convert_expression_to_values]. rewrite Ea. cbn [mbind option_bind]. rewrite bool_decide_true by done. cbn [negb]. rewrite Ec. cbn [mbind option_bind].
    rewrite bool_decide_true by done. cbn [negb]. rewrite Er, bool_decide_true by done. cbn [negb]. rewrite En.
    assert (negb (nullable_ f) && is_null w = false) as -> by (destruct Hnull as [-> | ->]; [done|by rewrite andb_false_r]). by rewrite E.
  - intros row [Hf Hfs]%Forall_cons. cbn [set_fields assign]. rewrite Ed. cbn [mbind option_bind]. destruct Hf as (Ho & _ & He).
    rewrite copy_to_prefix by lia. cbn [mbind option_bind]. rewrite Et. apply Hset.
    pose proof (splice_field_length f w row Hst ltac:(done)) as El. unfold fits in *. by rewrite El.
Qed.

Lemma laid_out_disjoint fs o e f g : laid_out fs o e → f ∈ fs → g ∈ fs → f ≠ g → disjoint_fields f g.
Proof.
  revert o. induction fs as [|h fs IH]; intros o Hlay Hf Hg Hne; [by apply not_elem_of_nil in Hf|]. destruct Hlay as (Eo & Hl & Hlay).
  apply elem_of_cons in Hf as [->|Hf], Hg as [->|Hg]; [done| | |by eapply IH].
  - left. destruct (laid_out_in _ _ _ g Hlay Hg). lia.
  - right. destruct (laid_out_in _ _ _ f Hlay Hf). lia.
Qed.

Lemma assign_other fs o e fields ws row g : laid_out fs o e → 0 ≤ o → e ≤ Z.of_nat (length row) → fields ⊆ fs → Forall2 storable fields ws →
  g ∈ fs → g ∉ fields → field_bytes g (assign fields ws row) = field_bytes g row.
Proof.
  intros Hlay Ho He Hsub Hw Hg. revert row He. induction Hw as [|f w fields ws Hw _ IH]; intros row He Hn; [done|]. cbn [assign].
  apply not_elem_of_cons in Hn as [Hne Hn]. assert (Hf : f ∈ fs) by (apply Hsub; by left).
  destruct (laid_out_in _ _ _ f Hlay Hf) as (H1 & H2 & H3), (laid_out_in _ _ _ g Hlay Hg) as (H4 & H5 & H6).
  pose proof (field_data_length f w Hw H3) as Hlen.
  rewrite IH; [|intros x Hx; apply Hsub; by right|rewrite splice_length by lia; done|done].
  unfold field_bytes. apply splice_other; [lia|]. destruct (laid_out_disjoint fs o e f g Hlay Hf Hg) as [Hd|Hd]; [done|right; lia|left; lia].
Qed.

Lemma assign_cell fs o e fields ws row i f w : laid_out fs o e → 0 ≤ o → e ≤ Z.of_nat (length row) → fields ⊆ fs → NoDup fields →
  Forall2 storable fields ws → fields !! i = Some f → ws !! i = Some w → field_bytes f (assign fields ws row) = field_data f w.
Proof.
  intros Hlay Ho He Hsub Hnd Hw. revert row i He. induction Hw as [|g x fields ws Hx Hw IH]; intros row i He Hi Hwi; [done|]. cbn [assign].
  apply NoDup_cons in Hnd as [Hnin Hnd]. assert (Hg : g ∈ fs) by (apply Hsub; by left). assert (Hs : fields ⊆ fs) by (intros y Hy; apply Hsub; by right).
  destruct (laid_out_in _ _ _ g Hlay Hg) as (H1 & H2 & H3). pose proof (field_data_length g x Hx H3) as Hlen.
  destruct i as [|i]; [|apply (IH Hs Hnd _ i); [rewrite splice_length by lia; done|done..]].
  injection Hi as <-. injection Hwi as <-. rewrite (assign_other fs o e fields ws _ g) by (rewrite ?splice_length by lia; done).
  unfold field_bytes. replace (Z.to_nat (attr_len_ g)) with (length (field_data g x)) by lia. apply splice_at. lia.
Qed.
End columns.

(** ** Changes of a table *)

Section changes.
Context {F I : Type} `{RecordStore F} `{IndexStore I}.
Implicit Types (t : Table F I) (ix : TableIndex I) (row : list Z) (m : gmap RID (list Z)) (xs done : list (RID * list Z)).

(** The rows, without their positions. *)
Definition table_rows m : list (list Z) := snd <$> map_to_list m.

Lemma table_rows_insert m rid row : m !! rid = None → table_rows (<[rid := row]> m) ≡ₚ row :: table_rows m.
Proof. intros Hn. unfold table_rows. by rewrite map_to_list_insert. Qed.
Lemma table_rows_delete m rid row : m !! rid = Some row → table_rows m ≡ₚ row :: table_rows (delete rid m).
Proof. intros Hm. unfold table_rows. by rewrite <- (map_to_list_delete m rid row). Qed.

(** The first index is not a unique one: otherwise a refused insertion takes an entry away. *)
Definition first_not_unique t : Prop := ∀ ix, head (tbl_indexes_ t) = Some ix → unique_ (ix_cmp (ti_index ix)) = false.

(** There is room for the next [n] changes. *)
Fixpoint room_for (n : nat) t : Prop :=
  has_room t ∧
  match n with
  | O => True
  | S n => (∀ row rc t' r, insert_record t row = Some (rc, t', r) → room_for n t') ∧ (∀ rid row rc t', delete_record t rid row = Some (rc, t') → room_for n t')
  end.

Lemma room_for_le n : ∀ k t, (k ≤ n)%nat → room_for n t → room_for k t.
Proof.
  induction n as [|n IH]; intros k t Hk Hr; [assert (k = O) as -> by lia; exact Hr|]. destruct Hr as (Hr & Hi & Hd). destruct k as [|k]; [by split|].
  split; [done|]. split.
  - intros row rc t' r E. apply IH; [lia|by eapply Hi].
  - intros rid row rc t' E. apply IH; [lia|by eapply Hd].
Qed.

Definition ready (n : nat) t : Prop := first_not_unique t ∧ room_for n t.

Lemma ready_le n k t : (k ≤ n)%nat → ready n t → ready k t.
Proof. intros Hk [? Hr]. split; [done|]. by eapply room_for_le. Qed.
Lemma ready_room n t : ready n t → has_room t.
Proof. intros [_ Hr]. by destruct n, Hr. Qed.

Lemma first_not_unique_shape t t' : same_shape t t' → first_not_unique t → first_not_unique t'.
Proof.
  intros [_ Hs] Hf. unfold first_not_unique in *. destruct Hs as [|ix0 ix' ixs ixs' Hix Hrest]; [done|].
  intros ix [= <-]. destruct Hix as (_ & -> & _). by apply Hf.
Qed.

(** *** One change *)

Lemma table_insert_step n t m row : table_ok t m → ready (S n) t → row_ok t row →
  ∃ rc t' r, insert_record t row = Some (rc, t', r) ∧ same_shape t t' ∧ ready n t' ∧
    ((rc = RC_SUCCESS ∧ ∃ rid, r = Some rid ∧ m !! rid = None ∧ table_ok t' (<[rid := row]> m)) ∨ (OB_FAIL rc = true ∧ table_ok t' m)) ∧
    (existsb (λ ix, duplicate ix m row) (tbl_indexes_ t) = false → rc ≠ RC_RECORD_DUPLICATE_KEY).
Proof.
  intros Hok [Hf (Hr & Hins & _)] Hrow.
  assert (Hnext : ∀ rc t' r, insert_record t row = Some (rc, t', r) → same_shape t t' → ready n t').
  { intros rc t' r E Hs. split; [by eapply first_not_unique_shape|]. by eapply Hins. }
  destruct (existsb _ _) eqn:Ed.
  - destruct (table_insert_duplicate t m row Hok Hr Hrow Ed) as (rc & t' & r & E & Hs & Hrc & Hok').
    { intros ix Hix. unfold duplicate. by rewrite (Hf ix Hix). }
    exists rc, t', r. split; [done|]. split; [done|]. split; [by eapply Hnext|]. split; [by right|done].
  - destruct (insert_fresh t m row Hok Hr Hrow Ed) as (rc & t' & r & E & Hs & Hcase).
    exists rc, t', r. split; [done|]. split; [done|]. split; [by eapply Hnext|]. destruct Hcase as [(-> & rid & -> & Hn & _ & Hok')|(Hrc & Hnd & Hok')].
    + split; [|done]. left. split; [done|]. by exists rid.
    + split; [by right|done].
Qed.

Lemma table_delete_step n t m rid row : table_ok t m → ready (S n) t → m !! rid = Some row →
  ∃ t', delete_record t rid row = Some (RC_SUCCESS, t') ∧ same_shape t t' ∧ ready n t' ∧ table_ok t' (delete rid m).
Proof.
  intros Hok [Hf (_ & _ & Hdel)] Hm. destruct (delete_record_ok t m rid row Hok Hm) as (t' & E & Hs & Hok'). exists t'. split; [done|]. split; [done|].
  split; [|done]. split; [by eapply first_not_unique_shape|]. by eapply Hdel.
Qed.

(** *** Deleting rows *)

Fixpoint present m xs : Prop := match xs with [] => True | x :: xs => m !! x.1 = Some x.2 ∧ present (delete x.1 m) xs end.
Definition removed m xs : gmap RID (list Z) := foldl (λ m x, delete x.1 m) m xs.

Lemma present_rows xs m : NoDup xs.*1 → Forall (λ x, m !! x.1 = Some x.2) xs → present m xs.
Proof.
  revert m. induction xs as [|x xs IH]; intros m Hnd Hall; [done|]. cbn in Hnd. apply NoDup_cons in Hnd as [Hnin Hnd]. apply Forall_cons in Hall as [Hx Hall].
  split; [done|]. apply IH; [done|]. apply Forall_forall. intros y Hy. rewrite Forall_forall in Hall. rewrite lookup_delete_ne; [by apply Hall|].
  intros E. apply Hnin. rewrite E. by apply list_elem_of_fmap_2.
Qed.

Lemma removed_rows xs m : present m xs → table_rows m ≡ₚ xs.*2 ++ table_rows (removed m xs).
Proof.
  revert m. induction xs as [|x xs IH]; intros m Hp; [done|]. destruct Hp as [Hx Hp]. cbn. rewrite (table_rows_delete m x.1 x.2 Hx). by rewrite (IH _ Hp).
Qed.

Lemma delete_loop_ok n xs : ∀ t m, table_ok t m → present m xs → ready (length xs + n) t →
  ∃ t', delete_loop t xs = Some (RC_SUCCESS, t') ∧ same_shape t t' ∧ ready n t' ∧ table_ok t' (removed m xs).
Proof.
  induction xs as [|[rid row] xs IH]; intros t m Hok Hp Hr; [by exists t|]. destruct Hp as [Hx Hp].
  destruct (table_delete_step (length xs + n) t m rid row Hok Hr Hx) as (t1 & E & Hs & Hr1 & Hok1). cbn [delete_loop]. unfold vacuous_delete_record. rewrite E. cbn [mbind option_bind].
  rewrite bool_decide_true by done. destruct (IH t1 _ Hok1 Hp Hr1) as (t' & E' & Hs' & Hr' & Hok'). exists t'. split; [done|]. split; [by etrans|]. by split.
Qed.

Lemma delete_olds_loop xs : ∀ acc t t', delete_loop t xs = Some (RC_SUCCESS, t') → delete_olds acc t xs = Some (RC_SUCCESS, t').
Proof.
  induction xs as [|[rid row] xs IH]; intros acc t t' E; [done|]. cbn [delete_loop delete_olds] in *. unfold vacuous_delete_record in E.
  destruct (delete_record t rid row) as [[rc t1]|]; [|done]. cbn [mbind option_bind] in *. destruct (bool_decide _) eqn:Erc; [by apply IH|].
  injection E as -> _. done.
Qed.

(** *** Undoing insertions *)

Fixpoint added m done : gmap RID (list Z) := match done with [] => m | x :: done => <[x.1 := x.2]> (added m done) end.
Fixpoint fresh m done : Prop := match done with [] => True | x :: done => added m done !! x.1 = None ∧ fresh m done end.

Lemma added_present m done : fresh m done → present (added m done) done ∧ removed (added m done) done = m.
Proof.
  induction done as [|x done IH]; intros Hf; [done|]. destruct Hf as [Hn Hf]. cbn. rewrite lookup_insert_eq, delete_insert_id by done.
  destruct (IH Hf). done.
Qed.

Lemma added_rows m done : fresh m done → table_rows (added m done) ≡ₚ done.*2 ++ table_rows m.
Proof. induction done as [|x done IH]; intros Hf; [done|]. destruct Hf as [Hn Hf]. cbn. by rewrite table_rows_insert, IH. Qed.

Lemma undo_inserts_ok n t m done : table_ok t (added m done) → fresh m done → ready (length done + n) t →
  ∃ t', undo_inserts t done = Some (RC_SUCCESS, t') ∧ same_shape t t' ∧ ready n t' ∧ table_ok t' m.
Proof.
  intros Hok Hf Hr. destruct (added_present m done Hf) as [Hp Er]. destruct (delete_loop_ok n done t _ Hok Hp Hr) as (t' & E & Hs & Hr' & Hok').
  rewrite Er in Hok'. by exists t'.
Qed.

(** *** Putting rows back *)

(** Rows of a table that were taken away are no duplicates. *)
Lemma taken_not_duplicate t0 m0 t m row rest : table_ok t0 m0 → same_shape t0 t → table_rows m ++ row :: rest ≡ₚ table_rows m0 →
  existsb (λ ix, duplicate ix m row) (tbl_indexes_ t) = false.
Proof.
  intros [_ Hall] [_ Hs] Hp. rewrite (same_indexes_dup _ _ m row Hs). apply not_true_iff_false. rewrite existsb_exists. intros (ix & Hin & Hd).
  apply list_elem_of_In in Hin. rewrite Forall_forall in Hall. specialize (Hall ix Hin). unfold duplicate in Hd. apply andb_prop in Hd as [Hu Hk].
  apply has_key_elem in Hk as (e & (r & d & -> & Hr)%elem_of_entries & E). apply (unique_cmp ix d row r RID_min Hu) in E.
  assert (∃ l, table_rows m0 ≡ₚ d :: row :: l) as (l & Hl).
  { exists (table_rows (delete r m) ++ rest). rewrite <- Hp, (table_rows_delete m r d Hr). cbn. by rewrite <- Permutation_middle. }
  unfold table_rows in Hl. symmetry in Hl. apply Permutation_map_inv in Hl as (l3 & E3 & Hl3).
  destruct l3 as [|[r1 d1] [|[r2 d2] l3]]; [done..|]. cbn in E3. injection E3 as <- <- _.
  assert (Hnd : NoDup (((r1, d) :: (r2, row) :: l3).*1)) by (rewrite <- Hl3; apply NoDup_fst_map_to_list).
  cbn in Hnd. apply NoDup_cons in Hnd as [Hne _]. apply Hne. apply elem_of_cons. left.
  apply (index_unique ix m0 r1 d r2 row Hall); [apply elem_of_map_to_list; rewrite Hl3; by left|apply elem_of_map_to_list; rewrite Hl3; right; by left|].
  by apply unique_cmp.
Qed.

Lemma reinsert_ok n t0 m0 rows : table_ok t0 m0 → ∀ t m, same_shape t0 t → table_ok t m → table_rows m ++ rows ≡ₚ table_rows m0 →
  Forall (row_ok t0) rows → ready (length rows + n) t →
  ∃ rc t' m', reinsert t rows = Some (rc, t') ∧ table_ok t' m' ∧
    ((rc = RC_SUCCESS ∧ table_rows m' ≡ₚ table_rows m0) ∨ (OB_FAIL rc = true ∧ rc ≠ RC_RECORD_DUPLICATE_KEY ∧ table_rows m' ⊆+ table_rows m0)).
Proof.
  intros Hok0. induction rows as [|row rows IH]; intros t m Hs Hok Hp Hrows Hr.
  { exists RC_SUCCESS, t, m. split; [done|]. split; [done|]. left. split; [done|]. by rewrite app_nil_r in Hp. }
  apply Forall_cons in Hrows as [Hrow Hrows]. pose proof (taken_not_duplicate t0 m0 t m row rows Hok0 Hs Hp) as Hd.
  destruct (table_insert_step (length rows + n) t m row Hok Hr (row_ok_shape _ _ _ Hs Hrow)) as (rc & t' & r & E & Hs' & Hr' & Hcase & Hdup).
  cbn [reinsert]. rewrite E. cbn [mbind option_bind]. destruct Hcase as [(-> & rid & -> & Hn & Hok')|(Hrc & Hok')].
  - rewrite bool_decide_true by done. apply (IH t' (<[rid := row]> m)); [by etrans|done| |done|done].
    rewrite <- Hp, table_rows_insert by done. cbn. by rewrite Permutation_middle.
  - rewrite bool_decide_false by (by intros ->). exists rc, t', m. split; [done|]. split; [done|]. right. split; [done|]. split; [by apply Hdup|].
    rewrite <- Hp. apply submseteq_inserts_r. done.
Qed.

(** The second part of an update: all new rows, or the old ones again. *)
Lemma insert_news_ok n t0 m0 m1 olds news : table_ok t0 m0 → table_rows m1 ++ olds.*2 ≡ₚ table_rows m0 → Forall (row_ok t0) olds.*2 →
  ∀ done t, same_shape t0 t → table_ok t (added m1 done) → fresh m1 done → Forall (row_ok t0) news →
  ready (length olds + length done + 2 * length news + n) t →
  ∃ rc t' m', insert_news olds done t news = Some (rc, t') ∧ table_ok t' m' ∧
    ((rc = RC_SUCCESS ∧ table_rows m' ≡ₚ news ++ done.*2 ++ table_rows m1) ∨
     (OB_FAIL rc = true ∧ table_rows m' ⊆+ table_rows m0 ∧ (rc = RC_RECORD_DUPLICATE_KEY → table_rows m' ≡ₚ table_rows m0))).
Proof.
  intros Hok0 Hp Holds. induction news as [|row news IH]; intros done t Hs Hok Hf Hnews Hr.
  { exists RC_SUCCESS, t, (added m1 done). split; [done|]. split; [done|]. left. split; [done|]. exact (added_rows m1 done Hf). }
  apply Forall_cons in Hnews as [Hrow Hnews]. cbn [length] in Hr.
  destruct (table_insert_step (length olds + S (length done) + 2 * length news + n) t _ row Hok) as (rc & t1 & r & E & Hs1 & Hr1 & Hcase & _).
  { eapply ready_le; [|exact Hr]. lia. } { by eapply row_ok_shape. }
  cbn [insert_news]. rewrite E. cbn [mbind option_bind]. destruct Hcase as [(-> & rid & -> & Hn & Hok1)|(Hrc & Hok1)].
  - rewrite bool_decide_true by done. cbn [mbind option_bind].
    destruct (IH ((rid, row) :: done) t1) as (rc & t' & m' & E' & Hok' & Hcase); [by etrans|done|by split|done|done|].
    exists rc, t', m'. split; [done|]. split; [done|]. destruct Hcase as [[-> Hm']|?]; [|by right]. left. split; [done|]. rewrite Hm'. cbn. symmetry. apply Permutation_middle.
  - rewrite bool_decide_false by (by intros ->).
    destruct (undo_inserts_ok (length olds + n) t1 m1 done Hok1 Hf) as (t2 & E2 & Hs2 & Hr2 & Hok2); [eapply ready_le; [|exact Hr1]; lia|].
    rewrite E2. cbn [mbind option_bind]. rewrite bool_decide_true by done. cbn [negb].
    assert (Hs02 : same_shape t0 t2) by (etrans; [exact Hs|]; by etrans).
    destruct (reinsert_ok n t0 m0 olds.*2 Hok0 t2 m1 Hs02 Hok2 Hp Holds) as (rc2 & t' & m' & E' & Hok' & Hcase); [by rewrite length_fmap|].
    rewrite E'. cbn [mbind option_bind]. do 3 eexists. split; [done|]. split; [exact Hok'|]. right.
    destruct Hcase as [(-> & Hm')|(Hrc2 & Hnd & Hm')].
    + rewrite bool_decide_true by done. cbn [negb]. split; [done|]. split; [by rewrite Hm'|done].
    + rewrite bool_decide_false by (by intros ->). cbn [negb]. by split.
Qed.

Lemma update_apply_ok n t m olds news : table_ok t m → present m olds → Forall (row_ok t) olds.*2 → Forall (row_ok t) news → length news = length olds →
  ready (4 * length olds + n) t →
  ∃ rc t' m', update_apply t olds news = Some (rc, t') ∧ table_ok t' m' ∧
    ((rc = RC_SUCCESS ∧ table_rows m' ≡ₚ news ++ table_rows (removed m olds)) ∨
     (OB_FAIL rc = true ∧ table_rows m' ⊆+ table_rows m ∧ (rc = RC_RECORD_DUPLICATE_KEY → table_rows m' ≡ₚ table_rows m))).
Proof.
  intros Hok Hp Holds Hnews Hl Hr. destruct (delete_loop_ok (3 * length olds + n) olds t m Hok Hp) as (t1 & E & Hs & Hr1 & Hok1); [eapply ready_le; [|exact Hr]; lia|].
  unfold update_apply. rewrite (delete_olds_loop olds [] t t1 E). cbn [mbind option_bind]. rewrite bool_decide_true by done. cbn [negb].
  apply (insert_news_ok n t m (removed m olds) olds news Hok) with (done := []); try done.
  - rewrite (removed_rows olds m Hp). by rewrite Permutation_app_comm.
  - eapply ready_le; [|exact Hr1]. cbn [length]. lia.
Qed.

(** *** INSERT *)

Lemma insert_loop_ok n tm t0 m1 values rows : Forall2 (λ vs row, make_record tm vs = Some (RC_SUCCESS, Some row)) values rows → Forall (row_ok t0) rows →
  ∀ done t, same_shape t0 t → table_ok t (added m1 done) → fresh m1 done → ready (length done + 2 * length rows + n) t →
  ∃ rc t', insert_loop tm done values t = Some (rc, t') ∧
    ((rc = RC_SUCCESS ∧ ∃ m', table_ok t' m' ∧ table_rows m' ≡ₚ rows ++ done.*2 ++ table_rows m1) ∨ (OB_FAIL rc = true ∧ table_ok t' m1)).
Proof.
  intros Hall. induction Hall as [|vs row values rows E _ IH]; intros Hrows done t Hs Hok Hf Hr.
  { exists RC_SUCCESS, t. split; [done|]. left. split; [done|]. exists (added m1 done). split; [done|]. exact (added_rows m1 done Hf). }
  apply Forall_cons in Hrows as [Hrow Hrows]. cbn [length] in Hr.
  destruct (table_insert_step (S (length done) + 2 * length rows + n) t _ row Hok) as (rc & t1 & r & Ei & Hs1 & Hr1 & Hcase & _).
  { eapply ready_le; [|exact Hr]. lia. } { by eapply row_ok_shape. }
  cbn [insert_loop]. rewrite E. cbn [mbind option_bind]. rewrite bool_decide_true by done. cbn [negb]. unfold vacuous_insert_record. rewrite Ei. cbn [mbind option_bind].
  destruct Hcase as [(-> & rid & -> & Hn & Hok1)|(Hrc & Hok1)].
  - rewrite bool_decide_true by done. cbn [mbind option_bind].
    destruct (IH Hrows ((rid, row) :: done) t1) as (rc & t' & E' & Hcase); [by etrans|done|by split|done|]. exists rc, t'. split; [done|].
    destruct Hcase as [(-> & m' & Hok' & Hm')|?]; [|by right]. left. split; [done|]. exists m'. split; [done|]. rewrite Hm'. cbn. symmetry. apply Permutation_middle.
  - rewrite bool_decide_false by (by intros ->). destruct (undo_inserts_ok n t1 m1 done Hok1 Hf) as (t2 & -> & _ & _ & Hok2); [eapply ready_le; [|exact Hr1]; lia|].
    cbn [mbind option_bind]. exists rc, t2. split; [done|]. by right.
Qed.

(** C31: INSERT of several rows is atomic.  Let the table be consistent ([table_ok]), let [make_record] make a record of each row of
    values, none with NULL in an indexed column ([row_ok]; taking such a row out again fails an ASSERT), let the first index not be
    unique, and let there be room for two changes per row.  Then the operator either inserts all of the rows, or reports an
    error and leaves exactly the rows, at their positions, and the index entries that were there. *)
Theorem insert_values_atomic tm values rows t m : table_ok t m → Forall2 (λ vs row, make_record tm vs = Some (RC_SUCCESS, Some row)) values rows →
  Forall (row_ok t) rows → first_not_unique t → room_for (2 * length rows) t →
  ∃ rc t', insert_open tm values t = Some (rc, t') ∧
    ((rc = RC_SUCCESS ∧ ∃ m', table_ok t' m' ∧ table_rows m' ≡ₚ rows ++ table_rows m) ∨ (OB_FAIL rc = true ∧ table_ok t' m)).
Proof.
  intros Hok Hall Hrows Hu Hroom.
  destruct (insert_loop_ok 0 tm t m values rows Hall Hrows [] t) as (rc & t' & E & Hcase); [reflexivity|done|done| |by exists rc, t'].
  split; [done|]. eapply room_for_le; [|exact Hroom]. cbn. lia.
Qed.
End changes.

(** *** DELETE and UPDATE *)

Section statements.
Variable stof : list Z → option float32.
Variable fuel : nat.
Context {F I : Type} `{RecordStore F} `{IndexStore I} {X : Type} `{!Tuple X} {C : Type} `{!PhysicalOperator C (RID * list Z)}.
Implicit Types (t : Table F I) (c child : C) (m : gmap RID (list Z)) (olds : list (RID * list Z)).

Lemma delete_rows_ok olds closed at_ over n : Delivery olds closed at_ over →
  ∀ c xs, at_ c xs → (length xs < n)%nat → ∃ c', delete_rows n c = Some (RC_RECORD_EOF, true, xs, c') ∧ over c'.
Proof.
  intros D. induction n as [|n IH]; intros c xs Hat Hn; [lia|]. cbn [delete_rows]. destruct xs as [|x xs].
  - destruct (dl_end _ _ _ _ D c Hat) as (c' & -> & Ho). cbn [mbind option_bind]. rewrite bool_decide_false by done. cbn [negb]. by exists c'.
  - destruct (dl_row _ _ _ _ D c x xs Hat) as (c' & -> & Ec & Ho). cbn [mbind option_bind]. rewrite bool_decide_true by done. cbn [negb]. rewrite Ec.
    cbn in Hn. destruct (IH c' xs Ho ltac:(lia)) as (c2 & -> & Ho2). by exists c2.
Qed.

(** DELETE removes exactly the rows that the operator below it gives. *)
Lemma delete_open_ok child olds t m : delivers child olds → (length olds < fuel)%nat → table_ok t m → present m olds → ready (length olds) t →
  ∃ t', delete_open fuel (Some child) t = Some (RC_SUCCESS, t') ∧ table_ok t' (removed m olds).
Proof.
  intros (closed & at_ & over & D & Hc) Hn Hok Hp Hr. destruct (dl_open _ _ _ _ D child Hc) as (c1 & E1 & Hat). destruct (delete_rows_ok _ _ _ _ fuel D c1 olds Hat Hn) as (c2 & E2 & Hov).
  destruct (dl_close_over _ _ _ _ D c2 Hov) as (c3 & E3 & _). destruct (delete_loop_ok 0 olds t m Hok Hp) as (t' & E & _ & _ & Hok'); [by rewrite Nat.add_0_r|].
  exists t'. split; [|done]. unfold delete_open. rewrite E1. cbn [mbind option_bind]. rewrite bool_decide_true by done. cbn [negb]. rewrite E2. cbn [mbind option_bind negb].
  by rewrite E3.
Qed.

Lemma update_rows_ok fields vs (upd : list Z → list Z) olds closed at_ over n : Delivery olds closed at_ over →
  ∀ c xs, at_ c xs → (length xs < n)%nat → Forall (λ x : RID * list Z, set_fields x.2 fields vs = Some (upd x.2)) xs →
  ∃ c', update_rows n fields vs c = Some (RC_RECORD_EOF, true, (λ x, (x, upd x.2)) <$> xs, c') ∧ over c'.
Proof.
  intros D. induction n as [|n IH]; intros c xs Hat Hn Hall; [lia|]. cbn [update_rows]. destruct xs as [|x xs].
  - destruct (dl_end _ _ _ _ D c Hat) as (c' & -> & Ho). cbn [mbind option_bind]. rewrite bool_decide_false by done. cbn [negb]. by exists c'.
  - destruct (dl_row _ _ _ _ D c x xs Hat) as (c' & -> & Ec & Ho). cbn [mbind option_bind]. rewrite bool_decide_true by done. cbn [negb]. rewrite Ec.
    apply Forall_cons in Hall as [Hx Hall]. rewrite Hx. cbn [mbind option_bind]. cbn in Hn. destruct (IH c' xs Ho ltac:(lia) Hall) as (c2 & -> & Ho2). by exists c2.
Qed.

Lemma value_for_storable shell fields es ws : Forall3 (value_for stof shell) fields es ws → Forall2 storable fields ws.
Proof. induction 1 as [|f e w fields es ws (tmp & _ & _ & Hst & _) _ IH]; by constructor. Qed.

(** What an update makes of a row: the values in the assigned columns, the other columns as they were. *)
Definition row_updated (fs fields : list FieldMeta) (ws : list Value) (old new : list Z) : Prop :=
  (∀ i f w, fields !! i = Some f → ws !! i = Some w → field_bytes f new = field_data f w) ∧
  (∀ f, f ∈ fs → f ∉ fields → field_bytes f new = field_bytes f old).

Lemma assign_updated fs e shell fields es ws row : laid_out fs 0 e → fields ⊆ fs → NoDup fields → Forall3 (value_for stof shell) fields es ws →
  Z.of_nat (length row) = e → row_updated fs fields ws row (assign fields ws row).
Proof.
  intros Hlay Hsub Hnd Hv Hl. pose proof (value_for_storable _ _ _ _ Hv) as Hst. split.
  - intros i f w Hf Hw. eapply assign_cell; [exact Hlay|done|lia|done..].
  - intros f Hf Hn. eapply assign_other; [exact Hlay|done|lia|done..].
Qed.

Lemma pairs_unzip {A B} (g : A → B) (xs : list A) : ((λ x, (x, g x)) <$> xs).*1 = xs ∧ ((λ x, (x, g x)) <$> xs).*2 = g <$> xs.
Proof. induction xs as [|x xs [IH1 IH2]]; [done|]. split; cbn; f_equal; [exact IH1|exact IH2]. Qed.

(** C29: UPDATE changes all rows or none.  Let the table be consistent ([table_ok]), let the operator below give rows of the table, let the
    expressions have values that the assigned columns can hold, let the first index not be unique, let the old and the new rows
    have no NULL in an indexed column ([row_ok]; the deletion of such a row fails an ASSERT), and let there be room for four
    changes per row.  Then the operator returns.  On success the table has, instead of these rows, the rows with the new values in the
    assigned columns and all other columns as they were; on every error no row is new, and when an index has refused a
    duplicate the table has the same rows as before.  The table and its indexes are consistent in any case. *)
Theorem update_all_or_nothing fs shell fields es ws child olds t m :
  delivers child olds → (length olds < fuel)%nat → NoDup olds.*1 → Forall (λ x, m !! x.1 = Some x.2) olds →
  table_ok t m → first_not_unique t → room_for (4 * length olds) t →
  laid_out fs 0 (rs_record_size (record_handler_ t)) → fields ⊆ fs → NoDup fields → Forall3 (value_for stof shell) fields es ws →
  Forall (row_ok t) olds.*2 → Forall (row_ok t) (assign fields ws <$> olds.*2) →
  ∃ rc t' m' news, update_open stof fuel shell fields es (Some child) t = Some (rc, t') ∧ table_ok t' m' ∧
    Forall2 (row_updated fs fields ws) olds.*2 news ∧
    ((rc = RC_SUCCESS ∧ table_rows m' ≡ₚ news ++ table_rows (removed m olds)) ∨
     (OB_FAIL rc = true ∧ table_rows m' ⊆+ table_rows m ∧ (rc = RC_RECORD_DUPLICATE_KEY → table_rows m' ≡ₚ table_rows m))).
Proof.
  intros (closed & at_ & over & D & Hc) Hn Hnd Hin Hok Hu Hroom Hlay Hsub Hndf Hv Hrows Hnews.
  assert (Hlen : Forall (λ row : list Z, Z.of_nat (length row) = rs_record_size (record_handler_ t)) olds.*2) by (eapply Forall_impl; [exact Hrows|]; by intros row [? _]).
  assert (Hfit : ∀ f, f ∈ fields → 0 ≤ attr_offset_ f ∧ attr_offset_ f + attr_len_ f ≤ rs_record_size (record_handler_ t) ∧ 0 < attr_len_ f).
  { intros f Hf. by apply (laid_out_in fs 0 _ f Hlay), Hsub. }
  destruct (convert_ok stof shell fields es ws Hv) as (vs & Ecv & Hset); [apply Forall_forall; intros f Hf; by destruct (Hfit f Hf) as (_ & _ & ?)|].
  destruct (dl_open _ _ _ _ D child Hc) as (c1 & E1 & Hat).
  destruct (update_rows_ok fields vs (assign fields ws) _ _ _ _ fuel D c1 olds Hat Hn) as (c2 & E2 & Hov).
  { apply Forall_forall. intros x Hx. apply Hset, Forall_forall. intros f Hf. destruct (Hfit f Hf) as (? & ? & ?).
    rewrite Forall_forall in Hlen. specialize (Hlen x.2 ltac:(by apply list_elem_of_fmap_2)). unfold fits. lia. }
  destruct (dl_close_over _ _ _ _ D c2 Hov) as (c3 & E3 & _).
  destruct (update_apply_ok 0 t m olds (assign fields ws <$> olds.*2) Hok (present_rows _ _ Hnd Hin) Hrows Hnews) as (rc & t' & m' & E & Hok' & Hcase).
  { by rewrite !length_fmap. } { by rewrite Nat.add_0_r. }
  exists rc, t', m', (assign fields ws <$> olds.*2). split; [|split; [done|split; [|done]]].
  - unfold update_open. rewrite E1. cbn [mbind option_bind]. rewrite bool_decide_true by done. cbn [negb]. rewrite Ecv. cbn [mbind option_bind].
    rewrite bool_decide_true by done. cbn [negb]. rewrite E2. cbn [mbind option_bind negb]. rewrite E3. cbn [mbind option_bind]. rewrite !bool_decide_true by done. cbn [negb].
    destruct (pairs_unzip (λ x : RID * list Z, assign fields ws x.2) olds) as [-> ->]. rewrite <- (list_fmap_compose snd (assign fields ws) olds) in E. exact E.
  - apply Forall2_fmap_r, Forall_Forall2_diag. eapply Forall_impl; [exact Hlen|]. intros row Hl. by eapply assign_updated.
Qed.
End statements.

(** ** Examples: two rows, a plain index on [val] and a unique one on [id] *)

(** An operator that gives the elements of a list. *)
Record ListOperator (X : Type) := mkListOperator { lo_rows : list X; lo_rest : list X; lo_current : option X }.
#[global] Arguments mkListOperator {X}.
#[global] Arguments lo_rows {X}.
#[global] Arguments lo_rest {X}.
#[global] Arguments lo_current {X}.

Definition list_next {X} (o : ListOperator X) : option (RC * ListOperator X) :=
  match lo_rest o with
  | [] => Some (RC_RECORD_EOF, mkListOperator (lo_rows o) [] None)
  | x :: xs => Some (RC_SUCCESS, mkListOperator (lo_rows o) xs (Some x))
  end.

#[export] Instance list_operator X : PhysicalOperator (ListOperator X) X :=
  {| op_open o := Some (RC_SUCCESS, mkListOperator (lo_rows o) (lo_rows o) None); op_next := list_next;
     op_close o := Some (RC_SUCCESS, o); op_current_tuple := lo_current |}.

Lemma list_operator_delivers {X} (xs : list X) : delivers (mkListOperator xs [] None) xs.
Proof.
  exists (λ o, lo_rows o = xs), (λ o ys, lo_rows o = xs ∧ lo_rest o = ys), (λ o, lo_rows o = xs). split; [|done]. split.
  - intros o E. eexists. split; [done|]. split; [done|]. exact E.
  - intros o x ys [E1 E2]. cbn. unfold list_next. rewrite E2. eexists. split; [done|]. done.
  - intros o [E1 E2]. cbn. unfold list_next. rewrite E2. eexists. split; [done|]. done.
  - intros o ys [E _]. by exists o.
  - intros o E. by exists o.
Qed.

Definition ex2_olds : list (RID * list Z) := [(mkRID 1 0, ex_row 1 10); (mkRID 1 1, ex_row 2 20)].
Definition ex2_rows : gmap RID (list Z) := list_to_map ex2_olds.
Definition ex2_entry (f : FieldMeta) (x : RID * list Z) : Key (list Z) * RID := (([field_bytes f x.2], x.1), x.1).
Definition ex2_table : Table MapStore ListIndex :=
  mkTable (mkMapStore 8 2 ex2_rows) [ex_index ex_val false (ex2_entry ex_val <$> ex2_olds); ex_index ex_id true (ex2_entry ex_id <$> ex2_olds)].

Lemma ex2_nodup : NoDup ex2_olds.*1.
Proof. repeat constructor; set_solver. Qed.
Lemma ex2_table_rows : table_rows ex2_rows ≡ₚ [ex_row 1 10; ex_row 2 20].
Proof. exact (fmap_Permutation snd _ _ (map_to_list_to_map ex2_olds ex2_nodup)). Qed.

Lemma ex2_index_matches f unique : f = ex_id ∨ f = ex_val → index_matches (ex_index f unique (ex2_entry f <$> ex2_olds)) ex2_rows.
Proof.
  intros Hf. exists (ex2_entry f <$> ex2_olds). split; [split; [done|split]|].
  - destruct Hf as [-> | ->], unique; repeat constructor.
  - repeat constructor; cbn; unfold INT32_MAX; lia.
  - unfold entries_of, ex2_rows. rewrite (map_to_list_to_map ex2_olds ex2_nodup). done.
Qed.

Lemma ex2_ok : table_ok ex2_table ex2_rows.
Proof.
  split; [|repeat constructor; apply ex2_index_matches; auto]. split; [done|]. split; [done|]. intros rid row Hr. unfold ex2_rows in Hr.
  apply elem_of_list_to_map_2 in Hr. unfold ex2_olds in Hr. rewrite !elem_of_cons, elem_of_nil in Hr.
  destruct Hr as [[= -> ->]|[[= -> ->]|[]]]; (split; [split; cbn; unfold INT32_MAX; lia|]); split; by vm_compute.
Qed.

Lemma map_store_room n (t : Table MapStore ListIndex) : room_for n t.
Proof. revert t. induction n as [|n IH]; intros t; (split; [by split; [|apply Forall_true]|]); [done|]. split; intros; apply IH. Qed.

Lemma ex2_row_ok id val : row_ok ex2_table (ex_row id val).
Proof.
  split. { assert (length (ex_row id val) = 8%nat) as -> by (unfold ex_row; by rewrite length_app, !le_encode_length). done. }
  intros rid Hr. repeat constructor; by apply ex_valid.
Qed.

(** [UPDATE t SET id = 5] would give both rows the unique key 5: the table keeps its rows. *)
Lemma update_all_or_nothing_witness :
  ∃ t' m', update_open (λ _, None) 5 (Shell [] []) [ex_id] [ValueExpr (Value.set_int 5)] (Some (mkListOperator ex2_olds [] None)) ex2_table =
      Some (RC_RECORD_DUPLICATE_KEY, t') ∧ table_ok t' m' ∧ table_rows m' ≡ₚ [ex_row 1 10; ex_row 2 20].
Proof.
  destruct (update_all_or_nothing (λ _, None) 5 [ex_id; ex_val] (Shell [] []) [ex_id] [ValueExpr (Value.set_int 5)] [mkValue INTS 0 (Word 5) false]
    (mkListOperator ex2_olds [] None) ex2_olds ex2_table ex2_rows) as (rc & t' & m' & news & E & Hok & _ & Hcase).
  - apply list_operator_delivers.
  - cbn. lia.
  - apply ex2_nodup.
  - repeat constructor.
  - apply ex2_ok.
  - by intros ix [= <-].
  - apply map_store_room.
  - done.
  - set_solver.
  - repeat constructor; set_solver.
  - repeat constructor. exists (Value.set_int 5). split; [by vm_compute|]. split; [by vm_compute|]. split; [|right; by vm_compute].
    split; [done|]. split; [done|]. exists 5. split; [done|]. by vm_compute.
  - apply Forall_cons; split; [apply ex2_row_ok|]. apply Forall_singleton, ex2_row_ok.
  - apply Forall_cons; split; [exact (ex2_row_ok 5 10)|]. apply Forall_singleton. exact (ex2_row_ok 5 20).
  - assert (Er : fst <$> update_open (λ _, None) 5 (Shell [] []) [ex_id] [ValueExpr (Value.set_int 5)] (Some (mkListOperator ex2_olds [] None)) ex2_table =
      Some RC_RECORD_DUPLICATE_KEY) by by vm_compute.
    rewrite E in Er. injection Er as ->. exists t', m'. split; [exact E|]. split; [exact Hok|].
    destruct Hcase as [[? _]|(_ & _ & Hm)]; [done|]. etrans; [exact (Hm eq_refl)|exact ex2_table_rows].
Defined.

(** [INSERT INTO t VALUES (3, 30), (3, 40)]: the second row repeats the key of the first, which is taken out again. *)
Definition ex2_meta : TableMeta := mkTableMeta 1 "t" [] [ex_id; ex_val] [] 0 8.
Definition ex2_values : list (list Value) := [[Value.set_int 3; Value.set_int 30]; [Value.set_int 3; Value.set_int 40]].

Lemma insert_values_atomic_witness :
  ∃ rc t', insert_open ex2_meta ex2_values ex2_table = Some (rc, t') ∧ rc = RC_RECORD_DUPLICATE_KEY ∧ table_ok t' ex2_rows.
Proof.
  destruct (insert_values_atomic ex2_meta ex2_values [ex_row 3 30; ex_row 3 40] ex2_table ex2_rows) as (rc & t' & E & Hcase).
  - apply ex2_ok.
  - constructor; [by vm_compute|]. constructor; [by vm_compute|constructor].
  - apply Forall_cons; split; [apply ex2_row_ok|]. apply Forall_singleton, ex2_row_ok.
  - by intros ix [= <-].
  - apply map_store_room.
  - assert (Er : fst <$> insert_open ex2_meta ex2_values ex2_table = Some RC_RECORD_DUPLICATE_KEY) by by vm_compute.
    rewrite E in Er. injection Er as ->. exists RC_RECORD_DUPLICATE_KEY, t'. split; [exact E|]. split; [done|].
    destruct Hcase as [[? _]|[_ Hok]]; [done|exact Hok].
Defined.
