(* ===== verification/IndexScan.v ===== *)
(** * Scans of an index ([sql/operator/index_scan_physical_operator.*], [storage/index/bplus_tree_index.*])

    The plan generator looks for an equality with a constant on an indexed column; the scan of the table is then replaced by a
    scan of the index between the constant and itself, with the same predicates.  The operator is verified against the interface
    [IndexScanner]; the scanner of the B+ tree implements it. *)
From Stdlib Require Import SpecFloat.
From stdpp Require Import strings sorting.
From S2P Require Import Prelude Rc Serializer BplusKey PageAlloc BplusTree BplusGhost BplusWp BplusFind BplusInv BplusExample BplusScanner Stores TableMeta Table.
From S2P Require Import Text Float Value Aggregator Tuples MakeRecord Expression Operators.

(** ** The choice of the index *)

Section choice.
Context {T N : Type}.
Variable find_index_by_field : string → option N.

(** [src/src/observer/sql/optimizer/physical_plan_generator.cpp:295-325] [PhysicalPlanGenerator::create_plan] the field and the value of an
    equality *)
Definition equality_of (expr : Expression T) : option (string * Value) :=
  match expr with
  | ComparisonExpr EQUAL_TO (FieldExpr _ field _ _) (Some (ValueExpr v)) => Some (field, v)
  | ComparisonExpr EQUAL_TO (ValueExpr v) (Some (FieldExpr _ field _ _)) => Some (field, v)
  | _ => None
  end.

(** [src/src/observer/sql/optimizer/physical_plan_generator.cpp:287-327] [PhysicalPlanGenerator::create_plan] the loop over the predicates;
    the index is the first one that is found, the value that of the last equality *)
Fixpoint choose_index (predicates : list (Expression T)) (index : option N) (value_expr : option Value) : option N * option Value :=
  match predicates with
  | [] => (index, value_expr)
  | expr :: predicates =>
      match equality_of expr with
      | None => choose_index predicates index value_expr
      | Some (field, v) => choose_index predicates (match index with None => find_index_by_field field | Some _ => index end) (Some v)
      end
  end.
End choice.

(** ** The interface of the scanners *)

(** [src/src/observer/storage/index/index.h:117-129] [IndexScanner] with [Index::create_scanner]; the inner [None] is a null pointer, the outer
    one an access outside the memory *)
Class IndexScanner (N : Type) := {
  create_scanner : N → option (Key (list Z)) → bool → option (Key (list Z)) → bool → option (option N);
  scanner_next_entry : N → option (RC * N * option RID);
  scanner_destroy : N → option N;
}.

(** The scanner between two keys gives the positions [rids]. *)
Record IndexDelivery {N} `{IndexScanner N} (left : option (Key (list Z))) (li : bool) (right : option (Key (list Z))) (ri : bool) (rids : list RID)
    (closed : N → Prop) (at_ : N → list RID → Prop) (over : N → Prop) : Prop := {
  id_create n : closed n → ∃ n', create_scanner n left li right ri = Some (Some n') ∧ at_ n' rids;
  id_row n r rs : at_ n (r :: rs) → ∃ n', scanner_next_entry n = Some (RC_SUCCESS, n', Some r) ∧ at_ n' rs;
  id_end n : at_ n [] → ∃ n', scanner_next_entry n = Some (RC_RECORD_EOF, n', None) ∧ over n';
  id_destroy_at n rs : at_ n rs → ∃ n', scanner_destroy n = Some n' ∧ closed n';
  id_destroy_over n : over n → ∃ n', scanner_destroy n = Some n' ∧ closed n';
}.

(** ** The operator *)

Section index_scan.
Variable stof : list Z → option float32.
Variable fuel : nat.
Context {F N : Type} `{RecordStore F} `{IndexScanner N}.

(** [src/src/observer/sql/operator/index_scan_physical_operator.h:50-66] [IndexScanPhysicalOperator] [is_behind_left_] and [is_behind_right_] are
    what is in memory behind the two values; [is_visit_] is the answer of the transaction *)
Record IndexScan := mkIndexScan {
  is_table_ : string;
  is_fields_ : list FieldMeta;
  is_record_handler_ : F;
  is_visit_ : RID → list Z → RC;
  is_index_ : N;
  is_left_value_ : Value;
  is_behind_left_ : RID;
  is_left_inclusive_ : bool;
  is_right_value_ : Value;
  is_behind_right_ : RID;
  is_right_inclusive_ : bool;
  is_predicates_ : list (Expression QTuple);
  is_current_record_ : option (list Z);
  is_speces_ : list FieldMeta;
}.
Implicit Types (o : IndexScan).

Definition is_with o (n : N) (record : option (list Z)) (speces : list FieldMeta) : IndexScan :=
  mkIndexScan (is_table_ o) (is_fields_ o) (is_record_handler_ o) (is_visit_ o) n (is_left_value_ o) (is_behind_left_ o) (is_left_inclusive_ o)
    (is_right_value_ o) (is_behind_right_ o) (is_right_inclusive_ o) (is_predicates_ o) record speces.

(** [src/src/observer/sql/operator/index_scan_physical_operator.cpp:37-42] [IndexScanPhysicalOperator::open] a bound: the bytes at [Value::data] and
    the position that is read behind them; a null pointer is no bound *)
Definition user_key (v : Value) (behind : RID) : option (Key (list Z)) := (λ data, ([data], behind)) <$> value_data v.

(** [src/src/observer/sql/operator/index_scan_physical_operator.cpp:31-61] [IndexScanPhysicalOperator::open] *)
Definition index_scan_open o : option (RC * IndexScan) :=
  index_scanner ← create_scanner (is_index_ o) (user_key (is_left_value_ o) (is_behind_left_ o)) (is_left_inclusive_ o)
    (user_key (is_right_value_ o) (is_behind_right_ o)) (is_right_inclusive_ o);
  match index_scanner with
  | None => Some (RC_INTERNAL, o)
  | Some n => Some (RC_SUCCESS, is_with o n (is_current_record_ o) (is_fields_ o))
  end.

(** [src/src/observer/sql/operator/index_scan_physical_operator.cpp:108-112] [IndexScanPhysicalOperator::current_tuple] the tuple has no alias *)
Definition index_scan_tuple o : option QTuple := d ← is_current_record_ o; Some (Row (mkRowTuple d (is_table_ o) (is_speces_ o) "")).

(** [src/src/observer/sql/operator/index_scan_physical_operator.cpp:63-99] [IndexScanPhysicalOperator::next] [filter] (119-138) is that of the
    scan of a table *)
Fixpoint index_scan_next (n : nat) o : option (RC * IndexScan) :=
  match n with
  | O => None
  | S n =>
      '(rc, x, rid) ← scanner_next_entry (is_index_ o);
      let o := is_with o x (is_current_record_ o) (is_speces_ o) in
      if negb (bool_decide (rc = RC_SUCCESS)) then Some (rc, o)
      else
        rid ← rid;
        '(rc, row) ← rs_get_record (is_record_handler_ o) rid;
        if OB_FAIL rc then Some (rc, o)
        else
          row ← row;
          let o := is_with o (is_index_ o) (Some row) (is_speces_ o) in
          tuple ← index_scan_tuple o;
          '(rc, filter_result) ← scan_filter stof (is_predicates_ o) tuple Value_new;
          if OB_FAIL rc then Some (rc, o)
          else if negb filter_result then index_scan_next n o
          else if bool_decide (is_visit_ o rid row = RC_RECORD_INVISIBLE) then index_scan_next n o else Some (is_visit_ o rid row, o)
  end.

(** [src/src/observer/sql/operator/index_scan_physical_operator.cpp:101-106] [IndexScanPhysicalOperator::close] *)
Definition index_scan_close o : option (RC * IndexScan) := n ← scanner_destroy (is_index_ o); Some (RC_SUCCESS, is_with o n (is_current_record_ o) (is_speces_ o)).

#[export] Instance index_scan : PhysicalOperator IndexScan QTuple :=
  {| op_open := index_scan_open; op_next := index_scan_next fuel; op_close := index_scan_close; op_current_tuple := index_scan_tuple |}.
End index_scan.
#[global] Arguments IndexScan : clear implicits.

(** ** The scanner of the B+ tree *)

Section btree_scanner.
Context {B : Type} `{PageAllocator B} (key_comparator_ : KeyComparator (list Z)).

(** [src/src/observer/storage/index/bplus_tree_index.h:79-79] [BplusTreeIndexScanner] with the tree *)
Record BtreeCursor := mkBtreeCursor { bc_tree_ : State (list Z) B; bc_scanner_ : option (Scanner (list Z)) }.
Implicit Types (c : BtreeCursor).

(** [src/src/observer/storage/index/bplus_tree_index.cpp:104-122] [BplusTreeIndex::create_scanner] *)
Definition btree_create_scanner c (left : option (Key (list Z))) (li : bool) (right : option (Key (list Z))) (ri : bool) : option (option BtreeCursor) :=
  match BplusScanner.scanner_open key_comparator_ new_scanner left li right ri (bc_tree_ c) with
  | Ok (rc, s) st => Some (if bool_decide (rc = RC_SUCCESS) then Some (mkBtreeCursor st (Some s)) else None)
  | Err rc st => Some None
  | Stuck => None
  end.

(** [src/src/observer/storage/index/bplus_tree_index.cpp:148-151] [BplusTreeIndexScanner::next_entry] *)
Definition btree_next_entry c : option (RC * BtreeCursor * option RID) :=
  s ← bc_scanner_ c;
  match BplusScanner.next_entry key_comparator_ (depth_fuel (bc_tree_ c)) s (bc_tree_ c) with
  | Ok (rc, rid, s) st => Some (rc, mkBtreeCursor st (Some s), rid)
  | Err rc st => Some (rc, mkBtreeCursor st (Some s), None)
  | Stuck => None
  end.

(** [src/src/observer/storage/index/bplus_tree_index.cpp:153-157] [BplusTreeIndexScanner::destroy] *)
Definition btree_destroy c : option BtreeCursor := _ ← bc_scanner_ c; Some (mkBtreeCursor (bc_tree_ c) None).

#[export] Instance btree_scanner : IndexScanner BtreeCursor :=
  {| create_scanner := btree_create_scanner; scanner_next_entry := btree_next_entry; scanner_destroy := btree_destroy |}.
End btree_scanner.
#[global] Arguments BtreeCursor : clear implicits.

(** *** What it gives *)

Section btree_delivery.
Context {B : Type} `{PageAllocator B} (key_comparator_ : KeyComparator (list Z)) (zero_key : Key (list Z)).
Context (ok : Key (list Z) → Prop) `{!TotalCompare (key_compare key_comparator_) ok}.
Implicit Types (pgs : gmap Z (Node (list Z))) (e : env (B := B)) (s : Scanner (list Z)) (c : BtreeCursor B).

(** A scanner that is still to give the positions [rids]. *)
Definition cursor_at pgs rk s (rids : list RID) : Prop :=
  (current_frame_ s = None ∧ rids = []) ∨
  (first_emitted_ s = true ∧ ∃ rem, scanner_at pgs rk s rem ∧ rids = (until key_comparator_ rk rem).*2) ∨
  (first_emitted_ s = false ∧ ∃ p l rest i x, current_frame_ s = Some p ∧ right_key_ s = rk ∧ iter_index_ s = Z.of_nat i ∧
     linked pgs ((p, l) :: rest) ∧ Forall (λ q, 0 ≤ q) rest.*1 ∧ (length rest ≤ base.size pgs)%nat ∧ l !! i = Some x ∧
     ended key_comparator_ rk x = false ∧ rids = (until key_comparator_ rk (drop i l ++ concat rest.*2)).*2).

Lemma runs_scanner_open reserved pgs e l left li right ri :
  env_ok key_comparator_ ok reserved pgs e l → e_disp e = [] → (∀ k, left_key left li = Some k → ok k) → (∀ k, right_key right ri = Some k → ok k) →
  range_invalid key_comparator_ left right li ri = false →
  ∃ s, runs (BplusScanner.scanner_open key_comparator_ new_scanner left li right ri) pgs e (RC_SUCCESS, s) pgs e ∧
    cursor_at pgs (right_key right ri) s (List.filter (in_range key_comparator_ (left_key left li) (right_key right ri)) l).*2.
Proof.
  intros Hok Hd Hl Hr Hv. unfold BplusScanner.scanner_open. cbn [inited_ new_scanner]. fold (range_invalid key_comparator_ left right li ri). rewrite Hv.
  destruct (open_left_spec key_comparator_ zero_key ok reserved pgs e l left li Hok Hd Hl) as (start & Hrun & Hstart).
  destruct (holds_sorted _ _ _ _ _ (eo_holds _ _ _ _ _ _ Hok)) as [Hs Hvk]. rewrite <- (until_filter key_comparator_ zero_key ok _ _ _ Hs Hvk Hr).
  destruct start as [[p index]|].
  - destruct Hstart as (l0 & rest & i & -> & Hlk & Hpos & Hsz & Hil & ->). destruct (lookup_lt_is_Some_2 l0 i Hil) as [x Hx]. pose proof Hlk as (_ & [par Hp] & _).
    set (s := mkScanner true (Some p) (right_key right ri) (Z.of_nat i) false).
    exists (if ended key_comparator_ (right_key right ri) x then set_current s None else s). split.
    + eapply runs_bind; [exact Hrun|]. cbv beta iota zeta. fold (right_key right ri). change (from_option _ _ _) with (right_key right ri).
      eapply runs_bind; [by eapply (runs_touch_end key_comparator_ s)|]. apply runs_ret.
    + destruct (ended key_comparator_ (right_key right ri) x) eqn:Ex.
      * left. split; [done|]. rewrite (drop_S l0 x i Hx). cbn [app until]. by rewrite Ex.
      * right. right. split; [done|]. by exists p, l0, rest, i, x.
  - eexists. split; [eapply runs_bind; [exact Hrun|apply runs_ret]|]. left. split; [done|]. unfold start_at in Hstart. by rewrite Hstart.
Qed.

Lemma runs_next_entry pgs e rk s rids : cursor_at pgs rk s rids →
  ∃ s', match rids with
        | [] => runs (B := B) (BplusScanner.next_entry key_comparator_ (S (base.size pgs)) s) pgs e (RC_RECORD_EOF, None, s') pgs e
        | r :: rs => runs (B := B) (BplusScanner.next_entry key_comparator_ (S (base.size pgs)) s) pgs e (RC_SUCCESS, Some r, s') pgs e ∧ cursor_at pgs rk s' rs
        end.
Proof.
  intros [(Hc & ->)|[(Hfe & rem & Hat & ->)|(Hfe & p & l & rest & i & x & Hc & Hrk & Hi & Hlk & Hpos & Hsz & Hx & Hend & ->)]].
  - exists s. cbn [BplusScanner.next_entry]. rewrite Hc. apply runs_ret.
  - pose proof Hat as (p & l & rest & i & Hc & Hrk & Hi & Hlk & Hpos & Hsz & Hir & Hrem).
    destruct (next_entry_spec (B := B) key_comparator_ pgs e rk rest (S (base.size pgs)) s _ p l i Hc Hrk Hi Hfe Hlk Hpos Hsz Hir Hrem) as (s' & Hs'); [lia|]. exists s'.
    destruct rem as [|x rem]; [exact Hs'|]. cbn [until]. destruct (ended key_comparator_ rk x); [exact Hs'|]. cbn [fmap list_fmap].
    destruct Hs' as (Hrun & Hat' & Hfe'). split; [exact Hrun|]. right. left. split; [done|]. by exists rem.
  - rewrite (drop_S l x i Hx). cbn [app until]. rewrite Hend. cbn [fmap list_fmap]. exists (emitted s). pose proof Hlk as (_ & [par Hp] & _). split.
    + cbn [BplusScanner.next_entry]. rewrite Hc, Hfe. cbn [negb]. eapply runs_bind; [by eapply runs_fetch_item|]. unfold emitted. rewrite Hc. apply runs_ret.
    + right. left. split; [done|]. eexists. split; [|reflexivity]. pose proof (lookup_lt_Some _ _ _ Hx). exists p, l, rest, (Z.of_nat i). split_and!; try done; [lia|lia|].
      by replace (Z.to_nat (Z.of_nat i + 1)) with (S i) by lia.
Qed.

(** The scanner of the tree gives the positions of the items between the bounds, in the order of the keys. *)
Lemma btree_scanner_delivers reserved st l left li right ri :
  index_ok key_comparator_ ok reserved st l → disposed st = [] → (∀ k, left_key left li = Some k → ok k) → (∀ k, right_key right ri = Some k → ok k) →
  range_invalid key_comparator_ left right li ri = false →
  ∃ closed at_ over, IndexDelivery (H := btree_scanner key_comparator_) left li right ri
      (List.filter (in_range key_comparator_ (left_key left li) (right_key right ri)) l).*2 closed at_ over ∧ closed (mkBtreeCursor st None).
Proof.
  intros [Hf Hok] Hd Hl Hr Hv. set (pgs := pages st) in *. set (e := env_of st) in *.
  set (good c := in_state (bc_tree_ c) pgs e).
  exists (λ c, good c ∧ bc_scanner_ c = None), (λ c rids, good c ∧ ∃ s, bc_scanner_ c = Some s ∧ cursor_at pgs (right_key right ri) s rids),
    (λ c, good c ∧ is_Some (bc_scanner_ c)). split; [|by split; [split_and!|]].
  constructor.
  - intros c [Hg _]. destruct (runs_scanner_open reserved pgs e l left li right ri Hok eq_refl Hl Hr Hv) as (s & Hrun & Hat).
    destruct (Hrun _ Hg) as (st' & E & Hst'). cbn. unfold btree_create_scanner. rewrite E, bool_decide_true by done. eexists. split; [done|]. split; [done|]. by exists s.
  - intros c r rs [Hg (s & Es & Hat)]. destruct (runs_next_entry pgs e _ s _ Hat) as (s' & Hrun & Hat'). destruct (Hrun _ Hg) as (st' & E & Hst').
    cbn. unfold btree_next_entry, depth_fuel. rewrite Es. cbn [mbind option_bind]. assert (pages (bc_tree_ c) = pgs) as -> by apply Hg. rewrite E.
    eexists. split; [done|]. split; [done|]. by exists s'.
  - intros c [Hg (s & Es & Hat)]. destruct (runs_next_entry pgs e _ s _ Hat) as (s' & Hrun). destruct (Hrun _ Hg) as (st' & E & Hst').
    cbn. unfold btree_next_entry, depth_fuel. rewrite Es. cbn [mbind option_bind]. assert (pages (bc_tree_ c) = pgs) as -> by apply Hg. rewrite E.
    eexists. split; [done|]. by split.
  - intros c rs [Hg (s & Es & _)]. cbn. unfold btree_destroy. rewrite Es. eexists. split; [done|]. by split.
  - intros c [Hg [s Es]]. cbn. unfold btree_destroy. rewrite Es. eexists. split; [done|]. by split.
Qed.
End btree_delivery.

(** ** What the operator gives *)

Section index_scan_delivery.
Variable stof : list Z → option float32.
Variable fuel : nat.
Context {F N : Type} `{RecordStore F} `{IndexScanner N}.
Implicit Types (o : IndexScan F N) (m : gmap RID (list Z)) (rids : list RID).

Definition index_tuple o (d : list Z) : QTuple := Row (mkRowTuple d (is_table_ o) (is_fields_ o) "").

(** The row at a position, if the predicates hold and the transaction sees it. *)
Definition selected o m (keep : list Z → bool) (r : RID) : option (list Z) :=
  row ← m !! r; if keep row && bool_decide (is_visit_ o r row = RC_SUCCESS) then Some row else None.

Lemma index_scan_delivers o m rids keep :
  rs_holds (is_record_handler_ o) m →
  (∃ closed at_ over, IndexDelivery (user_key (is_left_value_ o) (is_behind_left_ o)) (is_left_inclusive_ o)
     (user_key (is_right_value_ o) (is_behind_right_ o)) (is_right_inclusive_ o) rids closed at_ over ∧ closed (is_index_ o)) →
  (∀ r, r ∈ rids → ∃ row, m !! r = Some row ∧ scan_filter stof (is_predicates_ o) (index_tuple o row) Value_new = Some (RC_SUCCESS, keep row) ∧
     (is_visit_ o r row = RC_SUCCESS ∨ is_visit_ o r row = RC_RECORD_INVISIBLE)) →
  (length rids < fuel)%nat → delivers (H := index_scan stof fuel) o (index_tuple o <$> omap (selected o m keep) rids).
Proof.
  intros Hm (closed & at_ & over & D & Hc) Hrows Hf. set (sel := selected o m keep).
  set (opened o' := ∃ n d, o' = is_with o n d (is_fields_ o)).
  set (same o' := ∃ n d sp, o' = is_with o n d sp).
  assert (Hnext : ∀ n o' rs, opened o' → rs ⊆ rids → (length rs < n)%nat → at_ (is_index_ o') rs →
    match omap sel rs with
    | [] => ∃ o2, index_scan_next stof n o' = Some (RC_RECORD_EOF, o2) ∧ same o2 ∧ over (is_index_ o2)
    | d :: ds => ∃ o2 rs', index_scan_next stof n o' = Some (RC_SUCCESS, o2) ∧ opened o2 ∧ is_current_record_ o2 = Some d ∧ at_ (is_index_ o2) rs' ∧
        rs' ⊆ rids ∧ (length rs' < length rs)%nat ∧ omap sel rs' = ds
    end).
  { induction n as [|n IH]; intros o' rs (x & rec & ->) Hsub Hlen Hat; [lia|]. cbn [index_scan_next]. cbn [is_with is_index_ is_current_record_ is_speces_] in *. destruct rs as [|r rs].
    - destruct (id_end _ _ _ _ _ _ _ _ D _ Hat) as (n' & -> & Hov). cbn. eexists. split; [done|]. split; [by do 3 eexists|done].
    - destruct (id_row _ _ _ _ _ _ _ _ D _ _ _ Hat) as (n' & -> & Hat'). cbn [mbind option_bind]. rewrite bool_decide_true by done. cbn [negb is_with is_record_handler_ is_index_ is_current_record_ is_speces_].
      destruct (Hrows r ltac:(set_solver)) as (row & Er & Ek & Hv). rewrite (rs_get_law _ m r row Hm Er). cbn [mbind option_bind]. change (OB_FAIL RC_SUCCESS) with false. cbv iota.
      unfold index_scan_tuple. cbn [is_with is_index_ is_current_record_ is_table_ is_speces_ is_predicates_ is_visit_ mbind option_bind]. fold (index_tuple o row). rewrite Ek.
      cbn [mbind option_bind]. change (OB_FAIL RC_SUCCESS) with false. cbv iota. change (omap sel (r :: rs)) with (match sel r with Some y => y :: omap sel rs | None => omap sel rs end).
      assert (Hskip : sel r = None → ∀ o', o' = is_with o n' (Some row) (is_fields_ o) →
        match omap sel rs with
        | [] => ∃ o2, index_scan_next stof n o' = Some (RC_RECORD_EOF, o2) ∧ same o2 ∧ over (is_index_ o2)
        | d :: ds => ∃ o2 rs', index_scan_next stof n o' = Some (RC_SUCCESS, o2) ∧ opened o2 ∧ is_current_record_ o2 = Some d ∧ at_ (is_index_ o2) rs' ∧
            rs' ⊆ rids ∧ (length rs' < length (r :: rs))%nat ∧ omap sel rs' = ds
        end).
      { intros _ o' ->. specialize (IH (is_with o n' (Some row) (is_fields_ o)) rs ltac:(by do 2 eexists) ltac:(set_solver) ltac:(cbn in Hlen; lia) Hat').
        destruct (omap sel rs) as [|d ds]; [exact IH|]. destruct IH as (o2 & rs' & E & ? & ? & ? & ? & ? & ?). exists o2, rs'. split_and!; try done. cbn. lia. }
      assert (Es : sel r = if keep row && bool_decide (is_visit_ o r row = RC_SUCCESS) then Some row else None) by (unfold sel, selected; by rewrite Er).
      rewrite Es. destruct (keep row) eqn:Ekr; cbn [andb negb] in *.
      + destruct Hv as [Hv|Hv]; rewrite Hv in Es |- *.
        * rewrite bool_decide_true, bool_decide_false by done. eexists _, rs. split; [done|]. split_and!; try done; [by do 2 eexists|set_solver|cbn; lia].
        * rewrite bool_decide_false, bool_decide_true by done. apply (Hskip ltac:(by rewrite Es)). done.
      + apply (Hskip Es). done. }
  exists (λ o', same o' ∧ closed (is_index_ o')),
    (λ o' xs, opened o' ∧ ∃ rs, rs ⊆ rids ∧ (length rs < fuel)%nat ∧ at_ (is_index_ o') rs ∧ xs = index_tuple o <$> omap sel rs), (λ o', same o' ∧ over (is_index_ o')).
  split; [|split; [|done]; destruct o; by do 3 eexists]. constructor.
  - intros o' [(n & d & sp & ->) Hcl]. destruct (id_create _ _ _ _ _ _ _ _ D _ Hcl) as (n' & E & Hat). cbn. unfold index_scan_open. cbn [is_with is_index_ is_left_value_ is_behind_left_ is_left_inclusive_ is_right_value_ is_behind_right_ is_right_inclusive_] in *.
    rewrite E. eexists. split; [done|]. split; [by do 2 eexists|]. by exists rids.
  - intros o' x xs [Ho (rs & Hsub & Hlen & Hat & Ex)]. specialize (Hnext fuel o' rs Ho Hsub Hlen Hat). destruct (omap sel rs) as [|d ds]; [done|].
    injection Ex as -> ->. destruct Hnext as (o2 & rs' & E & Ho2 & Er & Hat' & Hsub' & Hlen' & E2). exists o2. split; [exact E|]. split.
    + cbn. unfold index_scan_tuple. rewrite Er. by destruct Ho2 as (? & ? & ->).
    + split; [done|]. exists rs'. split_and!; try done; [lia|]. by rewrite E2.
  - intros o' [Ho (rs & Hsub & Hlen & Hat & Ex)]. specialize (Hnext fuel o' rs Ho Hsub Hlen Hat). destruct (omap sel rs); [|done].
    destruct Hnext as (o2 & E & ?). by exists o2.
  - intros o' xs [(n & d & ->) (rs & _ & _ & Hat & _)]. destruct (id_destroy_at _ _ _ _ _ _ _ _ D _ _ Hat) as (n' & E & Hcl). cbn. unfold index_scan_close. rewrite E.
    eexists. split; [done|]. split; [by do 3 eexists|done].
  - intros o' [(n & d & sp & ->) Hov]. destruct (id_destroy_over _ _ _ _ _ _ _ _ D _ Hov) as (n' & E & Hcl). cbn. unfold index_scan_close. rewrite E.
    eexists. split; [done|]. split; [by do 3 eexists|done].
Qed.
End index_scan_delivery.

(** ** The plan with the index *)

(** The entry of a row in an index on [fields]. *)
Definition row_entry (fields : list FieldMeta) (x : RID * list Z) : Key (list Z) * RID := ((get_index_key_from_tuple fields x.2, x.1), x.1).

Section plan.
Variable stof : list Z → option float32.
Variable fuel : nat.
Context {B F S : Type} `{PageAllocator B} `{RecordStore F} `{RecordScanner S} (key_comparator_ : KeyComparator (list Z)) (zero_key : Key (list Z)).
Context (oks : list (list Z → Prop)) (Htot : Forall2 (λ (comp : list Z → list Z → Z) ok_attr, TotalCompare comp ok_attr) (attrs_comparator_ key_comparator_) oks).
Implicit Types (o : IndexScan F (BtreeCursor B)) (m : gmap RID (list Z)).
#[local] Existing Instance btree_scanner.

(** The scan between the value [v] and itself, as the plan generator builds it. *)
Definition equality_scan o (v : Value) : Prop :=
  is_left_value_ o = v ∧ is_right_value_ o = v ∧ is_left_inclusive_ o = true ∧ is_right_inclusive_ o = true.

Lemma equality_invalid key b b' : valid_attrs oks key →
  range_invalid key_comparator_ (Some (key, b)) (Some (key, b')) true true = negb (unique_ key_comparator_) && (0 <? RID_compare b b').
Proof using Htot.
  intros Hval. unfold range_invalid, key_compare. cbn [fst snd]. pose proof (compare_attrs_total _ _ Htot) as Ht.
  rewrite (cmp_refl (TotalCompare := Ht) key) by done. cbn [Z.eqb negb orb]. rewrite andb_false_r, orb_false_r. by destruct (unique_ key_comparator_).
Qed.

(** The rows that an operator selects from the entries of the index. *)
Lemma selected_entries o m keep fields (f : Key (list Z) * RID → bool) l :
  l ≡ₚ row_entry fields <$> map_to_list m → (∀ r row, m !! r = Some row → keep row = true → f (row_entry fields (r, row)) = true) →
  omap (selected o m keep) (List.filter f l).*2 ≡ₚ List.filter keep (snd <$> filter (λ x, is_visit_ o x.1 x.2 = RC_SUCCESS) (map_to_list m)).
Proof.
  intros Hp Hkeep. set (g i := if f i then selected o m keep i.2 else None).
  assert (E : ∀ l, omap (selected o m keep) (List.filter f l).*2 = omap g l).
  { clear. intros l. induction l as [|i l IH]; [done|]. cbn [List.filter].
    transitivity (match g i with Some y => y :: omap g l | None => omap g l end); [|done]. unfold g at 1. destruct (f i); [|exact IH].
    transitivity (match selected o m keep i.2 with Some y => y :: omap (selected o m keep) (List.filter f l).*2 | None => omap (selected o m keep) (List.filter f l).*2 end); [done|].
    by rewrite IH. }
  rewrite E. rewrite (omap_Permutation g _ _ Hp). clear E Hp l.
  assert (Hin : ∀ x, x ∈ map_to_list m → m !! x.1 = Some x.2) by (intros [r row] Hx; by apply elem_of_map_to_list in Hx).
  induction (map_to_list m) as [|[r row] L IH]; [done|]. cbn [fmap list_fmap]. rewrite filter_cons.
  assert (Hr : m !! r = Some row) by (apply (Hin (r, row)); by left). specialize (IH ltac:(intros x Hx; apply Hin; by right)). cbn [fst snd].
  transitivity (match g (row_entry fields (r, row)) with Some y => y :: omap g (row_entry fields <$> L) | None => omap g (row_entry fields <$> L) end); [done|].
  assert (Eg : g (row_entry fields (r, row)) = if keep row && bool_decide (is_visit_ o r row = RC_SUCCESS) then Some row else None).
  { unfold g, selected. cbn [row_entry snd fst]. rewrite Hr. cbn [mbind option_bind]. destruct (keep row) eqn:Ek; cbn [andb]; [by rewrite (Hkeep r row Hr Ek)|by destruct (f _)]. }
  rewrite Eg. destruct (decide (is_visit_ o r row = RC_SUCCESS)) as [Hv|Hv]; cbn [fmap list_fmap List.filter snd].
  - rewrite bool_decide_true, andb_true_r by done. destruct (keep row); [by constructor|done].
  - by rewrite bool_decide_false, andb_false_r.
Qed.

(** C27: the scan of an index gives the rows that the scan of the table gives.  The index is a B+ tree on one column with exactly the entries of the
    rows; the scan goes from a value to itself, both inclusive, the value is ordered by the index (not NULL), the table has no alias
    in the query (with one see [alias_lost_by_index]), the predicates can be evaluated and hold only for rows whose key equals the
    value, and the transaction sees a row or does not see it.  Then the plan with the index and the plan with the scan of the
    table deliver the same rows, up to their order, whatever the predicates are otherwise - if the index is unique, or
    the memory behind the first value is not greater than that behind the second. *)
Theorem index_scan_equals_table_scan o (ts : TableScan S) v data reserved fields st l m keep rows :
  rs_holds (is_record_handler_ o) m → is_index_ o = mkBtreeCursor st None → index_ok key_comparator_ (valid_key oks) reserved st l → disposed st = [] →
  l ≡ₚ row_entry fields <$> map_to_list m → equality_scan o v → value_data v = Some data → valid_attrs oks [data] →
  unique_ key_comparator_ = true ∨ RID_compare (is_behind_left_ o) (is_behind_right_ o) ≤ 0 →
  ts_table ts = is_table_ o → ts_fields ts = is_fields_ o → ts_alias ts = EmptyString → ts_predicates ts = is_predicates_ o →
  (∃ closed at_ over, ScannerDelivery rows closed at_ over ∧ closed (ts_scanner ts)) →
  rows ≡ₚ snd <$> filter (λ x, is_visit_ o x.1 x.2 = RC_SUCCESS) (map_to_list m) →
  (∀ r row, m !! r = Some row → scan_filter stof (is_predicates_ o) (index_tuple o row) Value_new = Some (RC_SUCCESS, keep row) ∧
     (is_visit_ o r row = RC_SUCCESS ∨ is_visit_ o r row = RC_RECORD_INVISIBLE) ∧
     (keep row = true → attrs_cmp key_comparator_ (get_index_key_from_tuple fields row) [data] = 0)) →
  (base.size m < fuel)%nat →
  ∃ xs ys, delivers (H := index_scan stof fuel (H0 := btree_scanner key_comparator_)) o xs ∧ delivers (H := table_scan stof fuel) ts ys ∧ xs ≡ₚ ys.
Proof using All.
  intros Hm Ei Hix Hd Hp (El & Er & Eli & Eri) Ev Hval Hb Ett Etf Eta Etp Hts Hrows Hall Hf.
  pose proof (key_total key_comparator_ oks Htot) as Hord. set (k := ([data], is_behind_left_ o) : Key (list Z)). set (k' := ([data], is_behind_right_ o) : Key (list Z)).
  assert (Hlen : length l = base.size m) by (rewrite Hp, length_fmap; apply length_map_to_list).
  set (rng := in_range key_comparator_ (left_key (Some k) true) (right_key (Some k') true)).
  destruct (btree_scanner_delivers key_comparator_ zero_key (valid_key oks) reserved st l (Some k) true (Some k') true Hix Hd) as (closed & at_ & over & D & Hc).
  { intros x [= <-]. done. } { intros x [= <-]. done. }
  { unfold k, k'. rewrite equality_invalid by done. destruct Hb as [->|Hb]; [done|]. rewrite (proj2 (Z.ltb_ge _ _)) by done. by rewrite andb_false_r. }
  fold rng in D. assert (Hkeys : ∀ r row, m !! r = Some row → valid_key oks (row_entry fields (r, row)).1).
  { intros r row Hr. destruct Hix as [_ Hok]. destruct (holds_sorted _ _ _ _ _ (eo_holds _ _ _ _ _ _ Hok)) as [_ Hv]. rewrite Forall_forall in Hv. apply Hv.
    apply list_elem_of_fmap_2. rewrite Hp. apply list_elem_of_fmap_2. by apply elem_of_map_to_list. }
  exists (index_tuple o <$> omap (selected o m keep) (List.filter rng l).*2), (row_of ts <$> List.filter keep rows). split; [|split].
  - apply (index_scan_delivers stof fuel o m (List.filter rng l).*2 keep Hm).
    + exists closed, at_, over. unfold user_key. rewrite El, Er, Eli, Eri, Ev, Ei. done.
    + intros r (i & -> & Hi)%list_elem_of_fmap. apply list_elem_of_In, filter_In in Hi as [Hi _]. apply list_elem_of_In in Hi. rewrite Hp in Hi.
      apply list_elem_of_fmap in Hi as ([r row] & -> & Hx). apply elem_of_map_to_list in Hx. destruct (Hall r row Hx) as (Hk & Hv & _). by exists row.
    + rewrite length_fmap. pose proof (List.filter_length_le rng l). lia.
  - apply table_scan_delivers; [exact Hts| |].
    + rewrite Hrows, length_fmap. pose proof (length_filter (λ x, is_visit_ o x.1 x.2 = RC_SUCCESS) (map_to_list m)). rewrite length_map_to_list in *. lia.
    + intros d Hin. rewrite Hrows in Hin. apply list_elem_of_fmap in Hin as ([r row] & -> & [_ Hx]%list_elem_of_filter). apply elem_of_map_to_list in Hx.
      unfold row_of. rewrite Ett, Etf, Eta, Etp. apply (Hall r row Hx).
  - assert (row_of ts = index_tuple o) as -> by (unfold row_of, index_tuple; by rewrite Ett, Etf, Eta).
    apply fmap_Permutation. rewrite (selected_entries o m keep fields rng l Hp).
    + clear -Hrows. induction Hrows; cbn; try done; repeat case_match; eauto using Permutation.
    + intros r row Hr Hk. unfold rng. rewrite (between_keys key_comparator_ oks _ k) by (by apply Hkeys). apply Z.eqb_eq. by apply (Hall r row Hr).
Qed.

(** In an index that is not unique the check of the bounds also compares the positions, which are not part of the values: it reads what is
    behind them in memory.  If that is greater behind the first value, the scan between a value and itself is refused. *)
Lemma index_scan_refused o v data : equality_scan o v → value_data v = Some data → valid_attrs oks [data] →
  unique_ key_comparator_ = false → 0 < RID_compare (is_behind_left_ o) (is_behind_right_ o) →
  index_scan_open (H0 := btree_scanner key_comparator_) o = Some (RC_INTERNAL, o).
Proof using Htot.
  intros (El & Er & Eli & Eri) Ev Hval Hu Hb. unfold index_scan_open, user_key. rewrite El, Er, Eli, Eri, Ev. cbn [fmap option_fmap option_map create_scanner btree_scanner].
  unfold btree_create_scanner, BplusScanner.scanner_open. cbn [inited_ new_scanner].
  fold (range_invalid key_comparator_ (Some ([data], is_behind_left_ o)) (Some ([data], is_behind_right_ o)) true true).
  rewrite equality_invalid, Hu by done. cbn [negb andb]. by rewrite (proj2 (Z.ltb_lt _ _)).
Qed.
End plan.

(** ** Examples *)

Definition ex_equals (field : string) (v : Value) : Expression QTuple := ComparisonExpr EQUAL_TO (FieldExpr "t" field "" (v_type v)) (Some (ValueExpr v)).

(** [WHERE id = 1 AND val = 20] with an index on [id] only: the index is searched for the value of the other column. *)
Example index_searched_for_other_value :
  choose_index (λ field, if String.eqb field "id" then Some "index_of_id"%string else None)
    [ex_equals "id" (Value.set_int 1); ex_equals "val" (Value.set_int 20)] None None = (Some "index_of_id"%string, Some (Value.set_int 20)).
Proof. reflexivity. Qed.

(** A column that is named by the alias of its table, [a.id], is found in the tuples of a scan of the table and not in those of an index. *)
Example alias_lost_by_index :
  row_find_cell (mkRowTuple (ex_row 1 10) "t" [ex_id; ex_val] "a") (TupleCellSpec_new "t" "id" "a.id") Value_new = Some (RC_SUCCESS, Value.set_int 1) ∧
  row_find_cell (mkRowTuple (ex_row 1 10) "t" [ex_id; ex_val] "") (TupleCellSpec_new "t" "id" "a.id") Value_new = Some (RC_NOTFOUND, Value_new).
Proof. split; by vm_compute. Qed.

(** Three rows, two of them with the key 1, and the tree of one leaf on their first column. *)
Definition ex3_rows : list (RID * list Z) := [(mkRID 1 0, ex_row 1 10); (mkRID 1 2, ex_row 1 30); (mkRID 1 1, ex_row 2 20)].
Definition ex3_map : gmap RID (list Z) := list_to_map ex3_rows.
Definition ex3_items : list (Key (list Z) * RID) := row_entry [ex_id] <$> ex3_rows.
Definition ex3_tree : State (list Z) PageSet :=
  mkState {[2 := LeafNode BP_INVALID_PAGE_NUM BP_INVALID_PAGE_NUM ex3_items]} (ex_header 2) (ex_header 2) false (mkPageSet {[0; 1; 2]} 20) [] [] [] true [] ∅ [].

Lemma ex3_tree_ok : index_ok (ex_comparator false) (valid_key [λ _, True]) {[0; 1]} ex3_tree ex3_items.
Proof.
  split; [done|]. constructor; [apply ex_header_wf|done|by vm_compute|set_solver|].
  right. exists (TLeaf 2 ex3_items). split; [|done]. constructor; try done.
  - apply NoDup_singleton.
  - by repeat constructor.
  - by eexists.
  - by exists 0%nat.
  - apply msorted_items. repeat constructor; by vm_compute.
  - apply mvalid_items. repeat constructor; by vm_compute.
Qed.

(** A scanner of the records of a list. *)
Record ListScanner := mkListScanner { ls_rows : list (list Z); ls_rest : list (list Z) }.
#[export] Instance list_scanner : RecordScanner ListScanner :=
  {| Operators.scanner_open s := Some (RC_SUCCESS, mkListScanner (ls_rows s) (ls_rows s));
     scanner_next s := Some (match ls_rest s with [] => (RC_RECORD_EOF, s, None) | d :: ds => (RC_SUCCESS, mkListScanner (ls_rows s) ds, Some d) end);
     scanner_close s := Some (RC_SUCCESS, s) |}.

Lemma list_scanner_delivers rows : ∃ closed at_ over, ScannerDelivery rows closed at_ over ∧ closed (mkListScanner rows []).
Proof.
  exists (λ s, ls_rows s = rows), (λ s ds, ls_rows s = rows ∧ ls_rest s = ds), (λ s, ls_rows s = rows). split; [|done]. constructor.
  - intros s E. eexists. split; [done|]. split; [exact E|exact E].
  - intros s d ds [E1 E2]. cbn. rewrite E2. eexists. split; [done|]. done.
  - intros s [E1 E2]. cbn. rewrite E2. eexists. split; [done|]. done.
  - intros s ds [E _]. by exists s.
  - intros s E. by exists s.
Qed.

Definition ex3_predicates : list (Expression QTuple) := [ex_equals "id" (Value.set_int 1)].
(** The transaction does not see the last row. *)
Definition ex3_index_scan : IndexScan MapStore (BtreeCursor PageSet) :=
  mkIndexScan "t" [ex_id; ex_val] (mkMapStore 8 3 ex3_map) (λ r _, if bool_decide (r = mkRID 1 2) then RC_RECORD_INVISIBLE else RC_SUCCESS) (mkBtreeCursor ex3_tree None)
    (Value.set_int 1) RID_min true (Value.set_int 1) RID_min true ex3_predicates None [].
Definition ex3_table_scan : TableScan ListScanner :=
  mkTableScan "t" [ex_id; ex_val] "" ex3_predicates (mkListScanner [ex_row 2 20; ex_row 1 10] []) None [] "".

Lemma ex3_nodup : NoDup ex3_rows.*1.
Proof. repeat constructor; set_solver. Qed.
Lemma ex3_lookup r row : ex3_map !! r = Some row → (r, row) ∈ ex3_rows.
Proof. apply elem_of_list_to_map_2. Qed.

Lemma index_scan_equals_table_scan_witness :
  ∃ xs ys, delivers (H := index_scan (λ _, None) 5 (H0 := btree_scanner (ex_comparator false))) ex3_index_scan xs ∧
    delivers (H := table_scan (λ _, None) 5) ex3_table_scan ys ∧ xs ≡ₚ ys.
Proof.
  apply (index_scan_equals_table_scan (λ _, None) 5 (ex_comparator false) ([[]], RID_min) [λ _, True]) with (v := Value.set_int 1) (data := le_encode 4 1) (reserved := {[0; 1]})
    (fields := [ex_id]) (st := ex3_tree) (l := ex3_items) (m := ex3_map) (keep := λ row, le_decode (take 4 row) =? 1) (rows := [ex_row 2 20; ex_row 1 10]).
  - repeat constructor; intros; lia.
  - split; [done|]. split; [done|]. intros rid row Hr%ex3_lookup. unfold ex3_rows in Hr. rewrite !elem_of_cons, elem_of_nil in Hr.
    destruct Hr as [[= -> ->]|[[= -> ->]|[[= -> ->]|[]]]]; (split; [split; cbn; unfold INT32_MAX; lia|]); split; by vm_compute.
  - done.
  - apply ex3_tree_ok.
  - done.
  - unfold ex3_items, ex3_map. apply fmap_Permutation. symmetry. apply map_to_list_to_map, ex3_nodup.
  - done.
  - done.
  - repeat constructor.
  - right. by vm_compute.
  - done.
  - done.
  - done.
  - done.
  - apply list_scanner_delivers.
  - etrans; [|apply fmap_Permutation, filter_Permutation; symmetry; exact (map_to_list_to_map ex3_rows ex3_nodup)]. vm_compute. apply Permutation_swap.
  - intros r row Hr%ex3_lookup. unfold ex3_rows in Hr. rewrite !elem_of_cons, elem_of_nil in Hr.
    destruct Hr as [[= -> ->]|[[= -> ->]|[[= -> ->]|[]]]]; (split; [by vm_compute|]); (split; [first [by left|by right]|]); intros Hk; by vm_compute in Hk |- *.
  - vm_compute; lia.
Defined.
