(* ===== verification/StoreImpl.v ===== *)
(** * The record file and the B+ tree as the parts of a table

    The record file of [RecordFile] implements [RecordStore], the B+ tree of [BplusTree] implements
    [IndexStore]: the theorems on tables and transactions hold for the pages the server stores. *)
From stdpp Require Import sorting.
From S2P Require Import Prelude Rc Serializer BplusKey PageAlloc LowerBound BplusTree BplusGhost BplusWp BplusFind BplusInsert BplusInv BplusExample.
From S2P Require Import BplusInsertEntry BplusDelete LogFile LogManager LogHandler LogSink BufferPoolFile Bitmap RecordPage RecordFile TableMeta Value ValueKey Stores Table.

(** ** The B+ tree as an index *)

Section btree.
Context {B : Type} `{PageAllocator B}.

(** A tree with its comparator; [bi_lsns] are the numbers the log gives to its mini-transactions, if it accepts their records. *)
Record BtreeIndex := mkBtree {
  bi_cmp : KeyComparator (list Z);
  bi_ok : Key (list Z) → Prop;
  bi_total : TotalCompare (key_compare bi_cmp) bi_ok;
  bi_zero : Key (list Z);
  bi_lsns : nat → option Z;
  bi_count : nat;
  bi_tree : State (list Z) B;
}.

Definition bi_next (i : BtreeIndex) (r : option (RC * State (list Z) B)) : option (RC * BtreeIndex) :=
  '(rc, st) ← r; Some (rc, mkBtree (bi_cmp i) (bi_ok i) (bi_total i) (bi_zero i) (bi_lsns i) (S (bi_count i)) st).

(** The user's key in memory; [make_key] replaces the position. *)
Definition btree_insert (i : BtreeIndex) (key : list (list Z)) (rid : RID) : option (RC * BtreeIndex) :=
  bi_next i (insert_entry (bi_cmp i) (bi_zero i) (bi_lsns i (bi_count i)) (key, RID_min) rid (bi_tree i)).
Definition btree_delete (i : BtreeIndex) (key : list (list Z)) (rid : RID) : option (RC * BtreeIndex) :=
  bi_next i (delete_entry (bi_cmp i) (bi_lsns i (bi_count i)) (key, RID_min) rid (bi_tree i)).

Definition btree_holds (i : BtreeIndex) (l : list (Key (list Z) * RID)) : Prop :=
  ∃ reserved, index_ok (bi_cmp i) (bi_ok i) reserved (bi_tree i) l.
(** The file has room for a new node on every level. *)
Definition btree_room (i : BtreeIndex) : Prop := (S (base.size (pages (bi_tree i))) ≤ bp_free (bp (bi_tree i)))%nat.

#[export] Program Instance btree_index : IndexStore BtreeIndex := {|
  ix_cmp := bi_cmp; ix_key_ok := bi_ok; ix_holds := btree_holds; ix_room := btree_room;
  ix_insert_entry := btree_insert; ix_delete_entry := btree_delete; ix_total := bi_total;
|}.
Next Obligation. intros i l (reserved & _ & Hok). eapply holds_sorted. exact (eo_holds _ _ _ _ _ _ Hok). Qed.
Next Obligation.
  intros i l key rid (reserved & Hok) Hkey Hroom spec.
  destruct (insert_entry_ok (bi_cmp i) (bi_zero i) (bi_ok i) (TotalCompare0 := bi_total i) reserved (bi_tree i) l (bi_lsns i (bi_count i)) (key, RID_min) rid Hok Hkey Hroom)
    as (st' & E & Hok' & _).
  unfold btree_insert. rewrite E. cbn [mbind option_bind bi_next]. eexists. split; [done|]. split; [|done]. by exists reserved.
Qed.
Next Obligation.
  intros i l key rid (reserved & Hok) Hkey spec.
  destruct (delete_entry_ok (bi_cmp i) (bi_zero i) (bi_ok i) (TotalCompare0 := bi_total i) reserved (bi_tree i) l (bi_lsns i (bi_count i)) (key, RID_min) rid Hok Hkey)
    as (st' & E & Hok' & _).
  unfold btree_delete. rewrite E. cbn [mbind option_bind bi_next]. eexists. split; [done|]. split; [|done]. by exists reserved.
Qed.
End btree.
#[global] Arguments BtreeIndex : clear implicits.

(** ** The record file as a store *)

(** A log does not answer with the code of a duplicate key. *)
Class LogCodes (L : Type) `{LogSink L} := append_code : ∀ (l : L) m d, (sink_append l m d).1.2 ≠ RC_RECORD_DUPLICATE_KEY.

#[export] Instance unit_codes : LogCodes unit.
Proof. done. Qed.
#[export] Instance flushed_codes : LogCodes FlushedLog.
Proof. intros [b d] m data. cbn. unfold buffer_sink_append, buffer_append, entry_init. by destruct (_ <? _). Qed.

Section file.
Context {L : Type} `{LogCodes L}.

(** A record file that is open, with the header of an empty page, the order in which the set of free pages is iterated
    and the value of the field that is never assigned. *)
Record StoredFile := mkStored {
  sf_template : PageHeader;
  sf_iteration : gset Z → list Z;
  sf_iteration_perm : ∀ ps, sf_iteration ps ≡ₚ elements ps;
  sf_uninitialized : Z;
  sf_handler : RecordFileHandler;
  sf_state : FileState L;
}.

Definition with_state (s : StoredFile) (h : RecordFileHandler) (st : FileState L) : StoredFile :=
  mkStored (sf_template s) (sf_iteration s) (sf_iteration_perm s) (sf_uninitialized s) h st.
Definition sf_size (s : StoredFile) : Z := record_real_size (sf_template s).

Definition file_insert (s : StoredFile) (row : list Z) : option (RC * StoredFile * option RID) :=
  '(rc, h, st, rid) ← RecordFile.insert_record (sf_iteration s) (sf_handler s) (sf_state s) row (sf_size s); Some (rc, with_state s h st, rid).
Definition file_delete (s : StoredFile) (rid : RID) : option (RC * StoredFile) :=
  '(rc, h, st) ← RecordFile.delete_record (sf_uninitialized s) (sf_handler s) (sf_state s) rid; Some (rc, with_state s h st).
Definition file_get (s : StoredFile) (rid : RID) : option (RC * option (list Z)) :=
  '(rc, r) ← RecordFile.get_record (sf_state s) rid; Some (rc, option_map snd r).
Definition file_visit (s : StoredFile) (rid : RID) (updater : list Z → option (list Z)) : option (RC * StoredFile) :=
  '(rc, st) ← RecordFile.visit_record (sf_handler s) (sf_state s) rid updater; Some (rc, with_state s (sf_handler s) st).

Definition file_holds (s : StoredFile) (m : gmap RID (list Z)) : Prop :=
  file_state_ok (sf_template s) (sf_handler s) (sf_state s) ∧ represents (sf_state s) m.

Lemma stored_slot s m rid row : file_holds s m → m !! rid = Some row →
  rid_page_num rid ∈ file_pages (fs_header (sf_state s)) ∧ 0 ≤ rid_slot_num rid < record_capacity (sf_template s) ∧
  Z.of_nat (length row) = sf_size s ∧ valid_rid rid.
Proof.
  intros [Hok Hr] Hm. rewrite Hr in Hm. unfold file_slot in Hm. case_decide as Hp; [|done].
  destruct (fs_frames (sf_state s) !! rid_page_num rid) as [f|] eqn:Ef; [|done]. cbn in Hm.
  destruct (fso_pages _ _ _ Hok _ f Hp Ef) as [Hpok Eh]. apply page_slots_lookup in Hm as (Hd & Hi & Hb).
  destruct (po_records f Hpok _ Hi Hb) as (d & Hd' & Hl). rewrite Hd in Hd'. injection Hd' as <-. rewrite Eh in Hi, Hl. cbn in Hi, Hl.
  destruct (page_stored _ _ _ _ Hok Hp) as [Hrange _]. split_and!; try done; try lia.
  pose proof (fo_count_capacity _ (fso_header _ _ _ Hok)) as Hc. pose proof (fo_capacity _ (fso_header _ _ _ Hok)) as Hc'.
  destruct (template_ok _ _ _ Hok) as [[_ _ Hreal Hbm Hcol Hrec Hcn] _]. pose proof (page_bitmap_size_bound (record_capacity (sf_template s)) ltac:(lia)) as Hbs.
  assert (BITMAP_BYTES ≤ 1048576 ∧ BP_PAGE_DATA_SIZE ≤ 1048576) as [? ?] by by_compute.
  unfold valid_rid, INT32_MAX. assert (0 ≤ PAGE_HEADER_SIZE) by by_compute. pose proof (Z.mul_nonneg_nonneg (record_capacity (sf_template s)) (record_size (sf_template s)) ltac:(lia) ltac:(lia)). lia.
Qed.

Definition file_room (s : StoredFile) : Prop :=
  allocated_pages (file_header_ (fs_header (sf_state s))) < capacity (fs_header (sf_state s)).

#[export] Program Instance file_store : RecordStore StoredFile := {|
  rs_record_size := sf_size; rs_holds := file_holds; rs_room := file_room;
  rs_insert_record := file_insert; rs_delete_record := file_delete; rs_get_record := file_get; rs_visit_record := file_visit;
|}.
Next Obligation.
  intros s m row [Hok Hr] Hroom Hlen. unfold sf_size in Hlen.
  destruct (file_insert_record_ok (sf_uninitialized s) (sf_iteration s) (sf_iteration_perm s) (sf_template s) (sf_handler s) (sf_state s) m row Hok Hr ltac:(lia) Hroom)
    as (rc & h' & st' & rid & m' & E & Hok' & Hr' & Hspec & _ & _ & Hcode).
  unfold file_insert, sf_size. rewrite E. cbn [mbind option_bind]. do 3 eexists. split; [done|]. split; [done|].
  assert (Hh : file_holds (with_state s h' st') m') by done.
  destruct Hspec as [(r & [= -> ->] & Hn & Hi & Em)|(rc' & [= -> ->] & Hf & _ & ->)].
  - left. split; [done|]. exists r. split; [done|]. rewrite take_ge in Em by lia. rewrite Em in Hh.
    split; [|by split]. by apply (stored_slot _ _ _ _ Hh (lookup_insert_eq _ _ _)).
  - right. split; [done|]. split; [|by split]. destruct (Hcode eq_refl) as (l & d & ->). apply append_code.
Qed.
Next Obligation.
  intros s m rid row Hh Hm. destruct (stored_slot s m rid row Hh Hm) as (Hp & Hi & _). destruct Hh as [Hok Hr].
  destruct (template_ok _ _ _ Hok) as [[_ Hcap _ _ _ _ _] _]. pose proof (page_bitmap_size_bound _ Hcap).
  destruct (file_delete_record_ok (sf_uninitialized s) (sf_template s) (sf_handler s) (sf_state s) m rid Hok Hr Hp ltac:(lia)) as (rc & m' & h' & st' & E & (Hok' & _) & Hr' & Em).
  cbn [map_op] in Em. rewrite Hm in Em. injection Em as -> ->. unfold file_delete. rewrite E. cbn [mbind option_bind]. eexists. split; [done|]. by split.
Qed.
Next Obligation.
  intros s m rid row Hh Hm. destruct (stored_slot s m rid row Hh Hm) as (Hp & Hi & _). destruct Hh as [Hok Hr].
  destruct (page_stored _ _ _ _ Hok Hp) as (_ & f & Hf).
  destruct (get_on_page (sf_uninitialized s) (sf_template s) (sf_handler s) (sf_state s) m rid f Hok Hr Hp Hf ltac:(lia)) as (rc & d & E & _ & Em).
  cbn [map_op] in Em. rewrite (proj2 (Z.leb_gt _ _)), Hm in Em by lia. injection Em as -> ->.
  unfold file_get, RecordFile.get_record. rewrite Hf. rewrite E. done.
Qed.
Next Obligation.
  intros s m rid row updater Hh Hm Hu. destruct (stored_slot s m rid row Hh Hm) as (Hp & Hi & _). destruct Hh as [Hok Hr].
  destruct (file_visit_record_ok (sf_uninitialized s) (sf_template s) (sf_handler s) (sf_state s) m rid updater Hok Hr Hp ltac:(lia)) as (rc & m' & st' & E & (Hok' & _) & Hr' & Em).
  { intros d d' Hd Hd'. rewrite <- Hr, Hm in Hd. injection Hd as <-. specialize (Hu d' Hd'). unfold sf_size in Hu. lia. }
  cbn [map_op] in Em. rewrite (proj2 (Z.leb_gt _ _)), Hm in Em by lia. unfold file_visit. rewrite E. cbn [mbind option_bind].
  destruct (updater row) as [row'|] eqn:Eu; injection Em as -> ->; (eexists; split; [done|]; split; [done|]; split; [done|]); [|done].
  specialize (Hu row' eq_refl). unfold sf_size in Hu. cbn in Hr'. by rewrite take_ge in Hr' by lia.
Qed.
Next Obligation. intros s m m' [_ Hr] [_ Hr']. apply map_eq. intros rid. by rewrite Hr, Hr'. Qed.
Next Obligation. intros s m rid row Hh Hm. by destruct (stored_slot s m rid row Hh Hm) as (_ & _ & ? & ?). Qed.
End file.
#[global] Arguments StoredFile : clear implicits.

(** ** A table on pages *)

Section table.
Context {L B : Type} `{LogCodes L} `{PageAllocator B}.
Implicit Types (t : Table (StoredFile L) (BtreeIndex B)) (m : gmap RID (list Z)) (row : list Z).

(** The pages of a table with the rows [m]: those of the record file are well formed and hold [m], those of every index
    hold a balanced tree with exactly the entries of [m], and no page of an index is lost. *)
Definition pages_hold t m : Prop :=
  file_state_ok (sf_template (record_handler_ t)) (sf_handler (record_handler_ t)) (sf_state (record_handler_ t)) ∧
  represents (sf_state (record_handler_ t)) m ∧
  ∀ ix, ix ∈ tbl_indexes_ t → ∃ reserved l,
    index_ok (bi_cmp (ti_index ix)) (bi_ok (ti_index ix)) reserved (bi_tree (ti_index ix)) l ∧ l ≡ₚ entries_of ix m.

Lemma pages_hold_ok t m : pages_hold t m ↔ table_ok t m.
Proof.
  unfold pages_hold, table_ok. cbn. unfold file_holds. rewrite Forall_forall. split.
  - intros (Hok & Hr & Hi). split; [done|]. intros ix Hix. destruct (Hi ix Hix) as (reserved & l & Hl & Hp). exists l. split; [by exists reserved|done].
  - intros [[Hok Hr] Hi]. split; [done|]. split; [done|]. intros ix Hix. destruct (Hi ix Hix) as (l & [reserved Hl] & Hp). by exists reserved, l.
Qed.

(** C19: a table on pages.  Let the record file and the B+ trees hold the rows and exactly their entries, with room for a page in the file and
    for a node on every level in the trees ([has_room]); let the row have the size of the table, no NULL in an
    indexed column ([row_ok]) and no equal key in a unique index.  Then its insertion returns: either it gives a
    position that was not in use, the pages hold the row and its entries, the row can be read there, and its deletion
    brings back pages with the rows there were before; or it fails and leaves the rows as they are. *)
Theorem stored_table_roundtrip t m row : pages_hold t m → has_room t → row_ok t row →
  existsb (λ ix, duplicate ix m row) (tbl_indexes_ t) = false →
  ∃ rc t' r, Table.insert_record t row = Some (rc, t', r) ∧
    ((rc = RC_SUCCESS ∧ ∃ rid, r = Some rid ∧ m !! rid = None ∧ pages_hold t' (<[rid := row]> m) ∧
       Table.get_record t' rid = Some (RC_SUCCESS, Some row) ∧
       ∃ t'', delete_record_at t' rid = Some (RC_SUCCESS, t'') ∧ pages_hold t'' m) ∨
     (OB_FAIL rc = true ∧ pages_hold t' m)).
Proof.
  rewrite pages_hold_ok. intros Hok Hroom Hrow Hdup.
  destruct (insert_fresh t m row Hok Hroom Hrow Hdup) as (rc & t' & r & E & _ & [(-> & rid & -> & Hn & Hv & Hok')|(Hrc & _ & Hok')]); do 3 eexists; (split; [exact E|]).
  - left. split; [done|]. exists rid. rewrite pages_hold_ok. split_and!; try done.
    + apply (rs_get_law _ _ _ _ (proj1 Hok') (lookup_insert_eq _ _ _)).
    + destruct (delete_record_ok t' _ rid row Hok' (lookup_insert_eq _ _ _)) as (t'' & E'' & _ & Hok'').
      exists t''. rewrite pages_hold_ok. rewrite delete_insert_id in Hok'' by done. split; [|done].
      unfold delete_record_at, Table.get_record. rewrite (rs_get_law _ _ _ _ (proj1 Hok') (lookup_insert_eq _ _ _)). exact E''.
  - right. by rewrite pages_hold_ok.
Qed.
End table.

(** ** Keys that are equal to no key *)

Lemma lower_bound_loop_found {A T} (comp : A → T → Z) l val i fuel : ∀ first c,
  lower_bound_loop comp l val fuel first c = Some (i, true) → ∃ x, x ∈ l ∧ comp x val = 0.
Proof.
  induction fuel as [|fuel IH]; intros first c; cbn [lower_bound_loop]; (destruct (0 <? c); [|done]); [done|].
  destruct (at_z l _) as [x|] eqn:Ex; [|done]. cbn [mbind option_bind]. destruct (comp x val =? 0) eqn:E0.
  - intros _. exists x. split; [|by apply Z.eqb_eq]. unfold at_z in Ex. destruct (0 <=? _); [|done]. by apply list_elem_of_lookup_2 in Ex.
  - destruct (comp x val <? 0); apply IH.
Qed.

Section never.
Context {A B : Type} `{PageAllocator B} (kc : KeyComparator A).
#[local] Abbreviation MM := (M (State A B)).

(** What does not change the pages, fails only on an empty tree and meets no fault of the buffer pool. *)
Definition reads_only {T} (m : MM T) : Prop := ∀ st, faults st = [] →
  match m st with
  | Ok _ st' => pages st' = pages st ∧ faults st' = []
  | Err rc _ => rc = RC_EMPTY
  | Stuck => True
  end.

Lemma readonly_bind {T U} (m : MM T) (f : T → MM U) : reads_only m → (∀ x, reads_only (f x)) → reads_only (m ≫= f).
Proof.
  intros Hm Hf st Hst. unfold mbind, M_bind. specialize (Hm st Hst). destruct (m st) as [x st1|rc st1|]; [|done|done].
  destruct Hm as [Hp Hst1]. specialize (Hf x st1 Hst1). destruct (f x st1); [|done|done]. by rewrite <- Hp.
Qed.
Lemma readonly_ret {T} (x : T) : reads_only (mret x).
Proof. by intros st Hst. Qed.
Lemma readonly_gets {T} (f : State A B → T) : reads_only (gets f).
Proof. by intros st Hst. Qed.
Lemma readonly_option {T} (o : option T) : reads_only (of_option o).
Proof. by destruct o; intros st Hst. Qed.
Lemma readonly_memo f : reads_only (modify (λ st, set_memo st (f st))).
Proof. by intros st Hst. Qed.
Lemma readonly_fault : reads_only page_fault.
Proof. intros st Hst. unfold page_fault. by rewrite Hst. Qed.
Lemma readonly_assert b : reads_only (assert_ b).
Proof. by destruct b; intros st Hst. Qed.

Lemma readonly_crabing op p b : reads_only (crabing_protocal_fetch_page op p b).
Proof.
  unfold crabing_protocal_fetch_page, get_page, get_node, header, latch, push_memo, release_to.
  repeat first [apply readonly_bind; [|intros ?]|apply readonly_gets|apply readonly_option|apply readonly_memo|apply readonly_fault|apply readonly_ret|apply readonly_assert|
    match goal with |- context [match op with _ => _ end] => destruct op end|case_match].
Qed.

Lemma readonly_find_leaf op key : reads_only (find_leaf kc op key).
Proof.
  unfold find_leaf, find_leaf_internal. apply readonly_bind; [apply readonly_memo|]. intros []. apply readonly_bind; [apply readonly_gets|].
  intros st. destruct (BplusTree.is_empty st); [by intros st' _|]. apply readonly_bind; [apply readonly_crabing|]. intros _.
  generalize (root_page (BplusTree.file_header_ st)) as p. induction (depth_fuel st) as [|fuel IH]; intros p; cbn [find_leaf_loop];
    (apply readonly_bind; [apply readonly_bind; [apply readonly_gets|intros ?; apply readonly_option]|intros [par nx l|par l]]); try apply readonly_ret.
  - by intros st' _.
  - apply readonly_bind; [apply readonly_option|]. intros q. apply readonly_bind; [apply readonly_crabing|]. intros _. apply IH.
Qed.

(** A key that equals no key of a leaf cannot be deleted. *)
Lemma delete_entry_never lsn user_key rid st rc st' :
  faults st = [] →
  (∀ p par nx l, pages st !! p = Some (LeafNode par nx l) → Forall (λ i, key_compare kc i.1 (make_key user_key rid) ≠ 0) l) →
  delete_entry kc lsn user_key rid st = Some (rc, st') → rc = RC_RECORD_NOT_EXIST.
Proof.
  intros Hf Hnever. unfold delete_entry, mini_transaction. set (st0 := set_entries _ _).
  assert (H0 : faults st0 = [] ∧ pages st0 = pages st) by done. destruct H0 as [Hf0 Hp0]. clearbody st0.
  unfold mbind, M_bind, map_err. pose proof (readonly_find_leaf OP_DELETE (make_key user_key rid) st0 Hf0) as Hfind.
  destruct (find_leaf kc OP_DELETE (make_key user_key rid) st0) as [p st1|rc1 st1|]; [| |done].
  - destruct Hfind as [Hp1 _]. unfold delete_entry_internal, leaf_remove_key, get_leaf, get_node, mbind, M_bind, gets.
    destruct (pages st1 !! p) as [[par nx l|par l]|] eqn:Ep; [|done|done]. cbn.
    destruct (leaf_lookup _ l (make_key user_key rid)) as [[i found]|] eqn:El; [|done]. cbn.
    destruct found.
    { unfold leaf_lookup in El. apply lower_bound_loop_found in El as (x & Hx & E). rewrite Hp1, Hp0 in Ep.
      pose proof (Hnever p par nx l Ep) as Hall. rewrite Forall_forall in Hall. by apply Hall in E. }
    cbn. destruct (rollback st1) as [u st2|rc2 st2|]; [|done|done]. by intros [= <- _].
  - rewrite Hfind. rewrite decide_True by done. destruct (rollback st1) as [u st2|rc2 st2|]; [|done|done]. by intros [= <- _].
Qed.
End never.

(** *** Rows with NULL in an indexed column *)

(** The types whose [compare] looks for NULL. *)
Definition nullable_type (t : AttrType) : bool := match t with INTS | FLOATS | DATES | CHARS => true | _ => false end.

Lemma compare_null stof c v1 v2 : nullable_type (attr_type c) = true → is_null <$> attr_value c v2 = Some true →
  attr_compare stof c v1 v2 = Some (-1) ∨ attr_compare stof c v1 v2 = Some 1.
Proof.
  unfold attr_compare, attr_value. destruct c as [t len]. cbn [attr_type attr_length]. intros Ht.
  destruct t; try done; cbn [set_type set_data v_type mbind option_bind fmap option_fmap option_map]; intros [= Hn];
    unfold compare; cbn [v_type type_instance].
  all: try (match goal with |- context [type_instance (v_type (set_string ?a ?b))] => change (type_instance (v_type (set_string a b))) with CharType end).
  all: cbn; unfold integer_compare, float_compare, date_compare, char_compare.
  all: try rewrite Hn. all: try rewrite bool_decide_true by done. all: repeat case_match; auto.
Qed.

(** A key with NULL in some column differs from every key of as many columns, itself included. *)
Lemma key_compare_null stof unique fs (k1 k2 : Key (list Z)) f v :
  length k1.1 = length fs → length k2.1 = length fs →
  (f, v) ∈ zip fs k2.1 → nullable_type (attr_type_ f) = true → is_null <$> attr_value (field_comparator f) v = Some true →
  key_compare (KeyComparator_init stof unique fs) k1 k2 ≠ 0.
Proof.
  destruct k1 as [v1 r1], k2 as [v2 r2]. cbn [fst snd]. intros Hl1 Hl2 Hin Ht Hn. unfold key_compare, KeyComparator_init. cbn [fst snd attrs_comparator_].
  assert (Hres : ∃ n, compare_attrs ((λ f v1 v2, default 0 (attr_compare stof (field_comparator f) v1 v2)) <$> fs) v1 v2 = Some n ∧ n ≠ 0).
  { revert v1 v2 Hl1 Hl2 Hin. induction fs as [|g fs IH]; intros [|x1 v1] [|x2 v2] Hl1 Hl2; try discriminate;
      [intros []%not_elem_of_nil|]. injection Hl1 as Hl1. injection Hl2 as Hl2.
    cbn [zip zip_with]. intros Hin. cbn [fmap list_fmap compare_attrs]. cbv zeta.
    destruct (default 0 (attr_compare stof (field_comparator g) x1 x2) =? 0) eqn:E; cbn [negb].
    - apply elem_of_cons in Hin as [[= -> ->]|Hin]; [|by apply IH].
      destruct (compare_null stof (field_comparator g) x1 x2 Ht Hn) as [Ec|Ec]; rewrite Ec in E; vm_compute in E; discriminate E.
    - eexists. split; [done|]. by apply Z.eqb_neq. }
  destruct Hres as (n & -> & Hne). unfold default, id. rewrite (proj2 (Z.eqb_neq n 0) Hne). done.
Qed.

Section null_rows.
Context {F B : Type} `{RecordStore F} `{PageAllocator B} (stof : list Z → option Float.float32).
Implicit Types (t : Table F (BtreeIndex B)) (ix : TableIndex (BtreeIndex B)).

(** An index as it is opened on its columns, in a file whose leaves have keys of these columns, without faults of the buffer pool;
    the tree may be in any other state. *)
Record column_index ix : Prop := {
  ci_cmp : ∃ unique, bi_cmp (ti_index ix) = KeyComparator_init stof unique (ti_fields_meta_ ix);
  ci_keys : ∀ p par nx l, pages (bi_tree (ti_index ix)) !! p = Some (LeafNode par nx l) → Forall (λ i, length i.1.1 = length (ti_fields_meta_ ix)) l;
  ci_faults : faults (bi_tree (ti_index ix)) = [];
}.

(** The row has NULL in a column of the index. *)
Definition null_in ix (row : list Z) : Prop :=
  ∃ f, f ∈ ti_fields_meta_ ix ∧ nullable_type (attr_type_ f) = true ∧ is_null <$> attr_value (field_comparator f) (field_bytes f row) = Some true.

Lemma null_entry_stays ix row rid rc ix' : column_index ix → null_in ix row →
  index_delete_entry ix row rid = Some (rc, ix') → rc = RC_RECORD_NOT_EXIST.
Proof.
  intros [[unique Hc] Hk Hf] (f & Hin & Ht & Hn). unfold index_delete_entry. cbn [ix_delete_entry btree_index]. unfold btree_delete, bi_next.
  destruct (delete_entry _ _ _ _ _) as [[rc1 st1]|] eqn:E; [|done]. cbn [mbind option_bind]. intros [= -> _].
  eapply delete_entry_never; [exact Hf| |exact E]. intros p par nx l Hp. eapply Forall_impl; [exact (Hk p par nx l Hp)|].
  intros i Hi. cbn beta in Hi |- *. rewrite Hc. eapply key_compare_null; [exact Hi| | |exact Ht|exact Hn].
  - cbn. unfold index_key, get_index_key_from_tuple. by rewrite length_fmap.
  - cbn. unfold index_key, get_index_key_from_tuple. apply list_elem_of_lookup in Hin as [j Hj]. apply list_elem_of_lookup. exists j.
    rewrite lookup_zip_with, Hj, list_lookup_fmap, Hj. done.
Qed.

(** C25: rows with NULL in an indexed column cannot be deleted.  The comparator of an index finds that NULL is less than NULL, so the
    entry of such a row equals no key.  For every table with an index on columns of which the row has NULL in one of
    type INTS, FLOATS, DATES or CHARS, whatever is in the table and in the index (its leaves have keys of the columns of the
    index, and the buffer pool gives the pages): [Table::delete_record] of the row never succeeds nor reports an error, it fails its [ASSERT]
    or an earlier one ([None]). *)
Theorem null_row_undeletable t rid row ix :
  ix ∈ tbl_indexes_ t → column_index ix → null_in ix row → Table.delete_record t rid row = None.
Proof.
  intros Hin Hix Hn. unfold Table.delete_record. assert (E : delete_entries (tbl_indexes_ t) row rid = None); [|by rewrite E].
  induction (tbl_indexes_ t) as [|ix0 ixs IH]; [by apply not_elem_of_nil in Hin|]. cbn [delete_entries].
  destruct (index_delete_entry ix0 row rid) as [[rc ix']|] eqn:E; [|done]. cbn [mbind option_bind]. apply elem_of_cons in Hin as [<-|Hin].
  - by rewrite (null_entry_stays ix row rid rc ix' Hix Hn E), bool_decide_false.
  - destruct (bool_decide _); [|done]. by rewrite IH.
Qed.
End null_rows.

(** *** Example: a file with one page and an empty index on its first column *)

Definition ex_column : FieldMeta := mkFieldMeta "id" INTS 0 4 true 0 false.
(** The numerals of floating point numbers do not matter for integers. *)
Definition ex_bcmp (unique : bool) : KeyComparator (list Z) := KeyComparator_init (λ _, None) unique [ex_column].
Definition ex_btotal unique : TotalCompare (key_compare (ex_bcmp unique)) (field_key_ok [ex_column]) := field_key_total _ unique _.
Definition ex_btree (unique : bool) : BtreeIndex PageSet :=
  mkBtree (ex_bcmp unique) (field_key_ok [ex_column]) (ex_btotal unique) ([[]], RID_min) (λ n, Some (Z.of_nat n)) 0
    (mkState ∅ (BplusExample.ex_header BP_INVALID_PAGE_NUM) (BplusExample.ex_header BP_INVALID_PAGE_NUM) false (mkPageSet {[0; 1]} 20) [] [] [] true [] ∅ []).
Definition ex_stored : Table (StoredFile unit) (BtreeIndex PageSet) :=
  mkTable (mkStored ex_template elements (λ ps, reflexivity (elements ps)) 0 (with_free ex_handler {[1]}) ex_state) [mkTableIndex [ex_column] (ex_btree true)].

Lemma ex_btree_ok unique : index_ok (ex_bcmp unique) (field_key_ok [ex_column]) {[0; 1]} (bi_tree (ex_btree unique)) [].
Proof. split; [done|]. constructor; [apply ex_header_wf|done|by vm_compute|done|]. left. done. Qed.

Lemma ex_stored_ok : pages_hold ex_stored ∅.
Proof.
  split; [by apply ex_record_file_ok|]. split; [apply ex_represents|]. intros ix ->%list_elem_of_singleton. exists {[0; 1]}, [].
  split; [apply ex_btree_ok|done].
Qed.

Lemma stored_table_roundtrip_witness : ∃ rid t' t'', Table.insert_record ex_stored ex_data = Some (RC_SUCCESS, t', Some rid) ∧
  pages_hold t' (<[rid := ex_data]> ∅) ∧ delete_record_at t' rid = Some (RC_SUCCESS, t'') ∧ pages_hold t'' ∅.
Proof.
  destruct (stored_table_roundtrip ex_stored ∅ ex_data) as (rc & t' & r & E & Hcase).
  - exact ex_stored_ok.
  - split; [by vm_compute|]. repeat constructor.
  - split; [rewrite ex_data_length; by vm_compute|]. intros rid Hr. apply Forall_singleton. split; [repeat constructor; by vm_compute|exact Hr].
  - done.
  - assert (Hrc : fst ∘ fst <$> Table.insert_record ex_stored ex_data = Some RC_SUCCESS).
    { vm_compute. reflexivity. }
    rewrite E in Hrc. injection Hrc as Hrc. subst rc.
    destruct Hcase as [Hcase|[Hf _]]; [|exfalso; clear - Hf; vm_compute in Hf; discriminate Hf].
    destruct Hcase as (_ & rid & Er & _ & Hp & _ & t'' & Ed & Hp'). subst r.
    exists rid, t', t''. split; [exact E|]. split; [exact Hp|]. split; [exact Ed|exact Hp'].
Defined.

(** ** Rows with NULL in an indexed column *)

(** A table with one column, an integer, and a B+ tree on it. *)
Definition ex_nullable (unique : bool) : Table MapStore (BtreeIndex PageSet) :=
  mkTable (mkMapStore 4 1 ∅) [mkTableIndex [ex_column] (ex_btree unique)].

Lemma ex_index_empty unique : index_matches (mkTableIndex [ex_column] (ex_btree unique)) ∅.
Proof. exists []. split; [exists {[0; 1]}; apply ex_btree_ok|done]. Qed.

Lemma ex_nullable_insert unique z : is_int32 z → z ≠ INT_NULL → ∃ t', Table.insert_record (ex_nullable unique) (le_encode 4 z) = Some (RC_SUCCESS, t', Some (mkRID 1 1)) ∧
  table_ok t' {[mkRID 1 1 := le_encode 4 z]}.
Proof.
  intros Hz Hn. pose proof (ex_index_empty unique) as Hi.
  assert (Hv : valid_rid (mkRID 1 1)) by by_compute.
  destruct (index_insert_ok (mkTableIndex [ex_column] (ex_btree unique)) ∅ (mkRID 1 1) (le_encode 4 z) Hi) as (ix' & E & Hm & _); [done| |vm_compute; repeat constructor|].
  { split; [|done]. repeat constructor. cbn [field_comparator attr_ok]. unfold attr_ok. cbn [attr_type field_comparator attr_type_ ex_column].
    change (field_bytes ex_column (le_encode 4 z)) with (take 4 (le_encode 4 z)). rewrite take_take, take_ge by (rewrite le_encode_length; done).
    rewrite (int_bytes_encode 4) by (unfold is_int32, INT32_MAX, INT32_MIN in Hz; lia). exact Hn. }
  cbv zeta in E, Hm. change (has_key _ (entries_of _ ∅) _) with false in E, Hm. cbn iota in E, Hm.
  unfold Table.insert_record, insert_entry_of_indexes. change (tbl_indexes_ (ex_nullable unique)) with [mkTableIndex [ex_column] (ex_btree unique)].
  change (rs_insert_record (record_handler_ (ex_nullable unique)) (le_encode 4 z)) with (Some (RC_SUCCESS, mkMapStore 4 2 {[mkRID 1 1 := le_encode 4 z]}, Some (mkRID 1 1))).
  cbn [mbind option_bind]. rewrite bool_decide_true by done. cbn [insert_entries]. rewrite E. cbn [mbind option_bind]. rewrite bool_decide_true by done.
  cbn [insert_entries rev app mbind option_bind]. rewrite bool_decide_true by done. eexists. split; [done|]. split; [|by apply Forall_singleton].
  split; [done|]. split; [done|]. intros rid row [<- <-]%lookup_singleton_Some. split; [done|]. split; [done|]. by rewrite le_encode_length.
Qed.

(** In this table the insertion of a NULL succeeds in an index that is unique or not, and only NULL cannot be deleted again. *)
Lemma null_alone_undeletable unique z : is_int32 z →
  ∃ t' rid, Table.insert_record (ex_nullable unique) (le_encode 4 z) = Some (RC_SUCCESS, t', Some rid) ∧
    (delete_record_at t' rid = None ↔ z = INT_NULL).
Proof.
  intros Hz. destruct (decide (z = INT_NULL)) as [->|Hn].
  - assert (E : ('(rc, t', r) ← Table.insert_record (ex_nullable unique) (le_encode 4 INT_NULL);
      Some (rc, r, match delete_record_at t' (mkRID 1 1) with None => true | Some _ => false end)) = Some (RC_SUCCESS, Some (mkRID 1 1), true)).
    { destruct unique; vm_compute; reflexivity. }
    destruct (Table.insert_record (ex_nullable unique) (le_encode 4 INT_NULL)) as [[[rc t'] r]|]; [|discriminate E].
    cbn [mbind option_bind] in E. injection E as -> -> E. exists t', (mkRID 1 1). split; [done|]. split; [done|]. by destruct (delete_record_at t' _).
  - destruct (ex_nullable_insert unique z Hz Hn) as (t' & E & Hok). exists t', (mkRID 1 1). split; [done|].
    destruct (delete_record_ok t' _ (mkRID 1 1) (le_encode 4 z) Hok (lookup_singleton_eq _ _)) as (t'' & Ed & _).
    split; [|done]. unfold delete_record_at, Table.get_record. rewrite (rs_get_law _ _ _ _ (proj1 Hok) (lookup_singleton_eq _ _)). cbn [mbind option_bind]. by rewrite Ed.
Qed.

(** The table with a NULL in an index that is not unique. *)
Definition ex_null_tree : State (list Z) PageSet :=
  match insert_entry (ex_bcmp false) ([[]], RID_min) (Some 0) ([le_encode 4 INT_NULL], RID_min) (mkRID 1 1) (bi_tree (ex_btree false)) with
  | Some (_, st) => st
  | None => bi_tree (ex_btree false)
  end.
Definition ex_null_index : TableIndex (BtreeIndex PageSet) :=
  mkTableIndex [ex_column] (mkBtree (ex_bcmp false) (field_key_ok [ex_column]) (ex_btotal false) ([[]], RID_min) (λ n, Some (Z.of_nat n)) 1 ex_null_tree).
Definition ex_null_table : Table MapStore (BtreeIndex PageSet) :=
  mkTable (mkMapStore 4 2 {[mkRID 1 1 := le_encode 4 INT_NULL]}) [ex_null_index].

Lemma ex_null_index_ok : column_index (λ _, None) ex_null_index.
Proof.
  assert (Hp : map_to_list (pages ex_null_tree) = [(2, LeafNode (-1) (-1) [(([le_encode 4 INT_NULL], mkRID 1 1), mkRID 1 1)])]) by (by vm_compute).
  constructor; [by exists false| |by vm_compute].
  intros p par nx l Hl. change (bi_tree (ti_index ex_null_index)) with ex_null_tree in Hl.
  apply elem_of_map_to_list in Hl. rewrite Hp in Hl. apply list_elem_of_singleton in Hl. injection Hl as _ _ _ ->. by repeat constructor.
Qed.

Lemma null_row_undeletable_witness :
  Table.get_record ex_null_table (mkRID 1 1) = Some (RC_SUCCESS, Some (le_encode 4 INT_NULL)) ∧
  Table.delete_record ex_null_table (mkRID 1 1) (le_encode 4 INT_NULL) = None.
Proof.
  split; [by vm_compute|]. apply (null_row_undeletable (λ _, None) ex_null_table (mkRID 1 1) (le_encode 4 INT_NULL) ex_null_index).
  - apply list_elem_of_here.
  - apply ex_null_index_ok.
  - exists ex_column. split; [apply list_elem_of_here|]. by vm_compute.
Defined.
