(* ===== verification/CreateIndex.v ===== *)
(** * Building an index on the rows of a table ([Table::create_index], [storage/table/table.cpp])

    A new index is filled with the records that a scan of the table gives to the transaction; then it becomes an index of the table.
    The scan is that of the record file of [RecordFile].  The files of the index and of the meta data are not modelled. *)
From stdpp Require Import sorting.
From S2P Require Import Prelude Rc Bitmap Serializer BplusKey PageAlloc BplusTree BplusFind BplusInv BplusExample LogSink BufferPoolFile RecordPage RecordFile.
From S2P Require Import TableMeta Value ValueKey Stores Table StoreImpl Text Float Aggregator Tuples Expression Operators RowOrder OrderBy GroupBy Plans.

Section operations.
Context {L I : Type} `{LogCodes L} `{IndexStore I}.
Implicit Types (t : Table (StoredFile L) I) (ix : TableIndex I) (st : FileState L) (trx : option (MemRecord → RC)).

(** [src/src/observer/storage/table/table.cpp:472-482] [Table::create_index] the loop over the records; [false] if an entry was refused, where
    [create_index] returns *)
Fixpoint fill_index (n : nat) trx st (scanner : RecordFileScanner) ix : option (RC * bool * TableIndex I) :=
  match n with
  | O => None
  | S n =>
      '(rc, scanner, record) ← RecordFile.scanner_next None trx st scanner;
      if OB_FAIL rc then Some (rc, true, ix)
      else
        '(rid, row) ← record;
        '(rc, ix) ← index_insert_entry ix row rid;
        if bool_decide (rc = RC_SUCCESS) then fill_index n trx st scanner ix else Some (rc, false, ix)
  end.

(** [src/src/observer/storage/table/table.cpp:463-497] [Table::create_index] with the index [ix] that was created *)
Definition create_index (n : nat) trx t ix : option (RC * Table (StoredFile L) I) :=
  let st := sf_state (record_handler_ t) in
  '(rc, all, ix) ← fill_index n trx st (open_scan st) ix;
  if negb all then Some (rc, t)
  else if bool_decide (rc = RC_RECORD_EOF) then Some (RC_SUCCESS, mkTable (record_handler_ t) (tbl_indexes_ t ++ [ix]))
  else Some (rc, t).
End operations.

(** ** What is in the new index *)

Section filling.
Context {L I : Type} `{LogCodes L} `{IndexStore I}.
Implicit Types (t : Table (StoredFile L) I) (ix : TableIndex I) (m : gmap RID (list Z)) (trx : option (MemRecord → RC)).

(** There is room for the next [n] entries. *)
Fixpoint index_room_for (n : nat) ix : Prop :=
  ix_room (ti_index ix) ∧ match n with O => True | S n => ∀ row rid rc ix', index_insert_entry ix row rid = Some (rc, ix') → index_room_for n ix' end.

(** Two rows that the index does not take both. *)
Definition conflict ix m : Prop :=
  unique_ (ix_cmp (ti_index ix)) = true ∧ ∃ r1 d1 r2 d2, r1 ≠ r2 ∧ m !! r1 = Some d1 ∧ m !! r2 = Some d2 ∧ equal_keys ix d1 d2.

Lemma index_no_conflict ix m : index_matches ix m → ¬ conflict ix m.
Proof.
  intros Hix (Hu & r1 & d1 & r2 & d2 & Hne & Hr1 & Hr2 & E). apply Hne. apply (index_unique ix m r1 d1 r2 d2 Hix Hr1 Hr2). by apply unique_cmp.
Qed.

Lemma conflict_index ix ix' m : same_index ix ix' → conflict ix' m → conflict ix m.
Proof.
  intros (Ef & Ec & _) (Hu & r1 & d1 & r2 & d2 & Hne & Hr1 & Hr2 & E). unfold equal_keys, index_key in E. rewrite Ef, Ec in E. rewrite Ec in Hu.
  split; [done|]. by exists r1, d1, r2, d2.
Qed.

(** A refused entry is that of a row that conflicts with one before it. *)
Lemma refused_conflict ix m rid row : index_matches ix m → m !! rid = None → key_valid row rid ix → (∀ r d, m !! r = Some d → valid_rid r) → valid_rid rid →
  has_key (cmp_of ix) (entries_of ix m) (index_key ix row, rid) = true → conflict ix (<[rid := row]> m).
Proof.
  intros Hix Hn Hk Hval Hr Hd. rewrite has_key_duplicate in Hd by done. unfold duplicate in Hd. apply andb_prop in Hd as [Hu Hd].
  apply has_key_elem in Hd as (e & (r & d & -> & Hm)%elem_of_entries & E). split; [done|]. exists r, d, rid, row.
  assert (r ≠ rid) by congruence. split; [done|]. rewrite lookup_insert_ne, lookup_insert_eq by done. split; [done|]. split; [done|].
  by apply (unique_cmp ix d row r RID_min Hu).
Qed.

(** The records that are still to come are put into the index, until one conflicts. *)
Lemma fill_index_ok template h (st : FileState L) trx : file_state_ok template h st → reads trx → ∀ n rest sc ix m,
  let todo := List.filter (visible trx) rest in
  scanner_at st sc rest → (length rest < n)%nat → index_matches ix m → (∀ r d, m !! r = Some d → valid_rid r) → NoDup todo.*1 →
  Forall (λ x : MemRecord, m !! x.1 = None ∧ valid_rid x.1 ∧ key_valid x.2 x.1 ix) todo → index_room_for (length todo) ix →
  ∃ rc all ix', fill_index n trx st sc ix = Some (rc, all, ix') ∧ same_index ix ix' ∧
    ((rc = RC_RECORD_EOF ∧ all = true ∧ index_matches ix' (list_to_map todo ∪ m)) ∨
     (rc = RC_RECORD_DUPLICATE_KEY ∧ all = false ∧ conflict ix (list_to_map todo ∪ m))).
Proof.
  intros Hok Ht. assert (Hv : ∀ visit r, trx = Some visit → visit r ≠ RC_RECORD_EOF) by (intros visit r Ev; by destruct (Ht visit r Ev) as [-> | ->]).
  induction n as [|n IH]; intros rest sc ix m todo Hat Hn Hix Hval Hnd Hall Hroom; [lia|]. cbn [fill_index]. unfold RecordFile.scanner_next.
  pose proof (fetch_next_ok None trx Hv template h st Hok sc rest Hat) as Hnext. pose proof (pick_visible trx rest Ht) as Hp.
  destruct (pick None trx rest) as [[[rc [rid row]]|] rest'] eqn:Epick.
  - destruct Hp as [-> Ef]. destruct Hnext as (sc' & -> & Er & Hat'). cbn [mbind option_bind]. change (OB_FAIL RC_SUCCESS) with false. cbv iota. rewrite Er. cbn [mbind option_bind].
    unfold todo in *. rewrite Ef in *. cbn [fmap list_fmap fst length] in *. apply NoDup_cons in Hnd as [Hnin Hnd]. apply Forall_cons in Hall as [(Hm & Hr & Hk) Hall]. destruct Hroom as [Hroom Hrooms].
    destruct (index_insert_ok ix m rid row Hix Hm Hk Hroom) as (ix' & E & Hix' & Hs). rewrite E. cbn [mbind option_bind]. cbn zeta in E, Hix'.
    destruct (has_key _ _ _) eqn:Ed.
    + rewrite bool_decide_false by done. do 3 eexists. split; [done|]. split; [exact Hs|]. right. split; [done|]. split; [done|].
      destruct (refused_conflict ix m rid row Hix Hm Hk Hval Hr Ed) as (Hu & r1 & d1 & r2 & d2 & Hne & Hr1 & Hr2 & Eq). split; [done|]. exists r1, d1, r2, d2.
      assert (Hsub : ∀ r d, <[rid := row]> m !! r = Some d → (list_to_map ((rid, row) :: List.filter (visible trx) rest') ∪ m) !! r = Some d); [|by split_and!; try done; apply Hsub].
      intros r d Hrd. cbn [list_to_map foldr fst snd uncurry]. destruct (decide (r = rid)) as [->|Hnr].
      * rewrite lookup_insert_eq in Hrd. rewrite lookup_union_l'; [|rewrite lookup_insert_eq; by eexists]. by rewrite lookup_insert_eq.
      * rewrite lookup_insert_ne in Hrd by done. rewrite lookup_union_r; [done|]. rewrite lookup_insert_ne by done.
        apply not_elem_of_list_to_map_1. intros (x & -> & Hx)%list_elem_of_fmap. rewrite Forall_forall in Hall. destruct (Hall x Hx) as [Hx' _]. congruence.
    + rewrite bool_decide_true by done.
      destruct (IH rest' sc' ix' (<[rid := row]> m) Hat') as (rc & all & ix'' & E' & Hs' & Hcase).
      * apply pick_length in Epick. lia.
      * done.
      * intros r d. rewrite lookup_insert_Some. intros [[<- _]|[_ ?]]; [done|by eapply Hval].
      * done.
      * apply Forall_forall. intros x Hx. rewrite Forall_forall in Hall. destruct (Hall x Hx) as (Hxm & Hxr & Hxk). split; [|split; [done|]].
        -- rewrite lookup_insert_ne; [done|]. intros ->. apply Hnin. by apply list_elem_of_fmap_2.
        -- by apply (same_index_views ix ix' ∅ x.2 x.1 Hs).
      * by eapply Hrooms.
      * exists rc, all, ix''. split; [exact E'|]. split; [by etrans|].
        assert (Em : list_to_map ((rid, row) :: List.filter (visible trx) rest') ∪ m = list_to_map (List.filter (visible trx) rest') ∪ <[rid := row]> m).
        { cbn [list_to_map foldr fst snd uncurry]. rewrite <- insert_union_l, insert_union_r; [done|]. by apply not_elem_of_list_to_map_1. }
        destruct Hcase as [(? & ? & Hc)|(? & ? & Hc)]; [left|right]; (split; [done|]); (split; [done|]).
        -- exact (eq_ind_r (index_matches ix'') Hc Em).
        -- exact (eq_ind_r (conflict ix) (conflict_index ix ix' _ Hs Hc) Em).
  - destruct Hnext as (sc' & ->). cbn [mbind option_bind]. unfold todo in *. rewrite Hp in *. change (OB_FAIL RC_RECORD_EOF) with true. cbv iota.
    exists RC_RECORD_EOF, true, ix. split; [done|]. split; [done|]. left. split; [done|]. split; [done|].
    exact (eq_ind_r (index_matches ix) Hix (left_id_L ∅ (∪) m)).
Qed.

(** The rows that the transaction sees. *)
Definition visible_rows trx m : gmap RID (list Z) := filter (λ x, visible trx x = true) m.

Lemma visible_map template h (st : FileState L) trx m : file_state_ok template h st → represents st m →
  NoDup (List.filter (visible trx) (file_list st)).*1 ∧ list_to_map (List.filter (visible trx) (file_list st)) = visible_rows trx m ∧
  (∀ x, x ∈ List.filter (visible trx) (file_list st) → m !! x.1 = Some x.2) ∧ (length (file_list st) = base.size m).
Proof.
  intros Hok Hr. destruct (file_list_ok template h st m Hok Hr) as [Hin Hsort].
  assert (Hnd1 : NoDup (file_list st).*1).
  { clear -Hsort. induction Hsort as [|x l Hl IH Hx]; cbn; constructor; [|done]. intros (y & E & Hin)%list_elem_of_fmap. rewrite Forall_forall in Hx.
    specialize (Hx y Hin). unfold rid_before in Hx. rewrite E in Hx. lia. }
  assert (Hnd : NoDup (List.filter (visible trx) (file_list st)).*1).
  { clear -Hnd1. induction (file_list st) as [|x l IH]; [constructor|]. cbn in Hnd1 |- *. apply NoDup_cons in Hnd1 as [Hn Hnd]. destruct (visible trx x); [|by apply IH].
    cbn. constructor; [|by apply IH]. intros (y & E & Hy)%list_elem_of_fmap. apply Hn. rewrite E. apply list_elem_of_fmap_2.
    apply list_elem_of_In. apply list_elem_of_In, filter_In in Hy. apply Hy. }
  assert (Hfin : ∀ x, x ∈ List.filter (visible trx) (file_list st) ↔ m !! x.1 = Some x.2 ∧ visible trx x = true).
  { intros [r d]. rewrite list_elem_of_In, filter_In, <- list_elem_of_In, Hin. done. }
  split; [done|]. split; [|split].
  - apply map_eq. intros r. apply option_eq. intros d. unfold visible_rows. rewrite map_lookup_filter_Some, <- elem_of_list_to_map by done. by rewrite Hfin.
  - intros x Hx. by apply Hfin in Hx as [? _].
  - rewrite <- length_map_to_list. apply Permutation_length, NoDup_Permutation; [by eapply NoDup_fmap_1|apply NoDup_map_to_list|].
    intros [r d]. rewrite Hin. symmetry. apply elem_of_map_to_list.
Qed.

Lemma index_room_for_le n : ∀ k ix, (k ≤ n)%nat → index_room_for n ix → index_room_for k ix.
Proof.
  induction n as [|n IH]; intros k ix Hk Hr; [assert (k = O) as -> by lia; exact Hr|]. destruct Hr as [Hr Hi]. destruct k as [|k]; [by split|].
  split; [done|]. intros row rid rc ix' E. apply IH; [lia|by eapply Hi].
Qed.

(** A row that an index has not: its deletion fails the assertion. *)
Lemma delete_unindexed ixs ix m mv rid row : all_match ixs m → m !! rid = Some row → index_matches ix mv → mv !! rid = None → key_valid row rid ix →
  valid_rid rid → (∀ r d, mv !! r = Some d → valid_rid r) → duplicate ix mv row = false → delete_entries (ixs ++ [ix]) row rid = None.
Proof.
  intros Hall Hm Hix Hn Hk Hr Hval Hd. induction Hall as [|ix0 ixs Hix0 _ IH]; cbn [app delete_entries].
  - destruct (index_delete_absent ix mv rid row Hix Hk) as (ix' & -> & _); [by rewrite has_key_duplicate|]. cbn [mbind option_bind]. by rewrite bool_decide_false.
  - destruct (index_delete_present ix0 m rid row Hix0 Hm) as (ix0' & -> & _). cbn [mbind option_bind]. rewrite bool_decide_true by done. by rewrite IH.
Qed.

(** C23: a new index has the entries of exactly the rows that the transaction sees.  Let the table be consistent ([table_ok]), let the transaction
    see a record or not, let the new index be empty with room for all rows, and let no row have NULL in its columns.
    [create_index] returns; if two of the visible rows conflict in a unique index it is refused and the table is as before,
    otherwise it succeeds and the index is the last one of the table.  The table is consistent if the transaction sees all
    rows; a row that it did not see (the insertion of another transaction that is not committed yet) is missing in
    the index: deleting it fails an assertion, if no visible row has equal values in a new unique index. *)
Theorem create_index_visible_rows t m trx ix n : table_ok t m → reads trx → index_matches ix ∅ →
  (∀ rid row, m !! rid = Some row → key_valid row rid ix) → index_room_for (base.size m) ix → (base.size m < n)%nat →
  ∃ rc t', create_index n trx t ix = Some (rc, t') ∧
    ((conflict ix (visible_rows trx m) ∧ rc = RC_RECORD_DUPLICATE_KEY ∧ t' = t) ∨
     (¬ conflict ix (visible_rows trx m) ∧ rc = RC_SUCCESS ∧ ∃ ix', tbl_indexes_ t' = tbl_indexes_ t ++ [ix'] ∧ same_index ix ix' ∧
        index_matches ix' (visible_rows trx m) ∧ (visible_rows trx m = m → table_ok t' m) ∧
        ∀ rid row, m !! rid = Some row → visible_rows trx m !! rid = None → duplicate ix' (visible_rows trx m) row = false →
          Table.delete_record t' rid row = None)).
Proof.
  intros Htab Ht Hix Hk Hroom Hn. pose proof (rows_valid t m (proj1 Htab)) as Hval. pose proof Htab as [[Hok Hr] Hall].
  set (st := sf_state (record_handler_ t)) in *. destruct (visible_map _ _ st trx m Hok Hr) as (Hnd & Emap & Hin & Hlen).
  destruct (fill_index_ok _ _ st trx Hok Ht n (file_list st) (open_scan st) ix ∅) as (rc & all & ix' & E & Hs & Hcase); [apply open_scan_at|lia|done|done|done| | |].
  { apply Forall_forall. intros x Hx. specialize (Hin x Hx). split; [done|]. split; [by eapply Hval|by apply Hk]. }
  { eapply index_room_for_le; [|exact Hroom]. rewrite <- Hlen. apply List.filter_length_le. }
  assert (Eu : list_to_map (List.filter (visible trx) (file_list st)) ∪ ∅ = visible_rows trx m) by (by rewrite Emap, (right_id_L ∅ (∪))).
  unfold create_index. fold st. rewrite E. cbn [mbind option_bind]. destruct Hcase as [(-> & -> & Hm')|(-> & -> & Hc)]; cbn [negb].
  - pose proof (eq_ind _ (index_matches ix') Hm' _ Eu) as Hix'. rewrite bool_decide_true by done. do 2 eexists. split; [done|]. right. split.
    { intros Hc. apply (index_no_conflict ix' _ Hix'). by apply (conflict_index ix' ix). }
    split; [done|]. exists ix'. split; [done|]. split; [done|]. split; [done|]. split.
    + intros Em. split; [done|]. cbn [tbl_indexes_]. apply Forall_app. split; [done|]. apply Forall_singleton. by rewrite Em in Hix'.
    + intros rid row Hrow Hno Hd. unfold Table.delete_record. cbn [tbl_indexes_]. rewrite (delete_unindexed _ ix' m (visible_rows trx m) rid row Hall Hrow Hix' Hno); try done.
      * apply (same_index_views ix ix' ∅ row rid Hs). by apply Hk.
      * by eapply Hval.
      * intros r d Hrd. apply map_lookup_filter_Some in Hrd as [Hrd _]. by eapply Hval.
  - do 2 eexists. split; [done|]. left. split; [|done]. exact (eq_ind _ (conflict ix) Hc _ Eu).
Qed.
End filling.

(** ** Example: an index on a table of two rows, the second of which the transaction does not see *)

Definition ex_hidden_rows : gmap RID (list Z) := <[mkRID 1 1 := Plans.ex_row 1]> {[mkRID 1 0 := Plans.ex_row 2]}.
Definition ex_hidden_table : Table (StoredFile unit) ListIndex :=
  mkTable (StoreImpl.mkStored ex_template elements (λ ps, reflexivity (elements ps)) 0 ex_handler ex_table_state) [].
Definition ex_reader : option (MemRecord → RC) := Some (λ r, if bool_decide (r.1 = mkRID 1 1) then RC_RECORD_INVISIBLE else RC_SUCCESS).

Lemma ex_table_represents : represents ex_table_state ex_hidden_rows.
Proof.
  assert (Hpages : file_pages (fs_header ex_table_state) = {[1]}) by by_compute.
  assert (Hbits : ∀ i, 0 ≤ i < 5 → bit [3] i = true → i = 0 ∨ i = 1).
  { assert (H : Forall (λ i, bit [3] i = true → i = 0 ∨ i = 1) (seqZ 0 5)) by (repeat constructor; by vm_compute). intros i Hi. rewrite Forall_forall in H. apply H, elem_of_seqZ. lia. }
  assert (Ecap : record_capacity ex_template = 5) by (by vm_compute).
  intros [p i]. unfold file_slot. cbn [rid_page_num rid_slot_num]. rewrite Hpages. case_decide as Hp.
  - apply elem_of_singleton in Hp as ->. change (fs_frames ex_table_state !! 1) with (Some ex_table_page). cbn [mbind option_bind].
    apply option_eq. intros d. rewrite page_slots_lookup. change (record_capacity (page_header_ (pf_page ex_table_page))) with (record_capacity ex_template). rewrite Ecap.
    change (bits_ (pf_page ex_table_page)) with [3]. change (records_ (pf_page ex_table_page)) with ({[0 := Plans.ex_row 2; 1 := Plans.ex_row 1]} : gmap Z (list Z)).
    unfold ex_hidden_rows. rewrite lookup_insert_Some, lookup_singleton_Some. split.
    + intros [[[= <-] <-]|[Hne [[= <-] <-]]].
      * split; [|by split]. rewrite lookup_insert_ne by done. apply lookup_singleton_eq.
      * split; [|by split]. apply lookup_insert_eq.
    + intros (Hd & Hi & Hb). destruct (Hbits i Hi Hb) as [-> | ->].
      * rewrite lookup_insert_eq in Hd. injection Hd as <-. right. split; [done|]. by split.
      * rewrite lookup_insert_ne in Hd by done. rewrite lookup_singleton_eq in Hd. injection Hd as <-. by left.
  - unfold ex_hidden_rows. rewrite not_elem_of_singleton in Hp. rewrite lookup_insert_ne, lookup_singleton_ne by congruence. done.
Qed.

Lemma list_index_room n (ix : TableIndex ListIndex) : index_room_for n ix.
Proof. revert ix. induction n as [|n IH]; intros ix; [done|]. split; [done|]. intros row rid rc ix' _. apply IH. Qed.

Lemma create_index_visible_rows_witness :
  ∃ t', create_index 3 ex_reader ex_hidden_table (ex_index Table.ex_id false []) = Some (RC_SUCCESS, t') ∧
    Table.delete_record t' (mkRID 1 1) (Plans.ex_row 1) = None.
Proof.
  destruct (create_index_visible_rows ex_hidden_table ex_hidden_rows ex_reader (ex_index Table.ex_id false []) 3) as (rc & t' & E & Hcase).
  - split; [|constructor]. split; [exact ex_table_file_ok|exact ex_table_represents].
  - intros visit r [= <-]. destruct (bool_decide _); [by right|by left].
  - exists []. split; [|done]. split; [done|]. split; constructor.
  - intros rid row Hr. apply ex_valid. unfold ex_hidden_rows in Hr. apply lookup_insert_Some in Hr as [[<- _]|[_ [<- _]%lookup_singleton_Some]]; (split; cbn; unfold INT32_MAX; lia).
  - apply list_index_room.
  - assert (base.size ex_hidden_rows = 2%nat) as -> by (by vm_compute). lia.
  - destruct Hcase as [([Hu _] & _)|(_ & -> & ix' & _ & (_ & Ec & _) & _ & _ & Hdel)]; [done|]. exists t'. split; [exact E|].
    apply Hdel; [apply lookup_insert_eq| |].
    + apply map_lookup_filter_None. right. intros d _. vm_compute. discriminate.
    + unfold duplicate. by rewrite Ec.
Defined.
