(* ===== verification/MvccTrx.v ===== *)
(** * Multi-version transactions ([storage/trx/mvcc_trx.*, mvcc_trx_log.*, trx.h])

    Every row carries the number of the transaction that inserted it and of the one that deleted it,
    negative while that transaction is open.  Transactions of several sessions run interleaved: a step
    of the system is one call of a session, and a commit or rollback visits its rows one at a time.
    [None] is a failed [ASSERT]. *)
From S2P Require Import Prelude Rc Serializer LogFile LogHandler LogSink TableMeta BplusKey BplusTree BplusFind BplusInv Stores Table.

(** ** Data *)

(** [src/src/observer/storage/trx/mvcc_trx.h:113-113] [MvccTrx::MAX_TRX_ID] also [MvccTrxKit::max_trx_id] *)
Definition MAX_TRX_ID : Z := INT32_MAX.

(** [src/src/observer/storage/trx/trx.h:52-58] [Operation::Type] *)
Inductive OperationType := OP_INSERT | OP_UPDATE | OP_DELETE | OP_UNDEFINED.

#[export] Instance OperationType_eq_dec : EqDecision OperationType.
Proof. solve_decision. Defined.

(** [src/src/observer/storage/trx/trx.h:60-80] [Operation] *)
Record Operation := mkOperation { op_type : OperationType; op_table : Z; op_rid : RID }.

#[export] Instance Operation_eq_dec : EqDecision Operation.
Proof. solve_decision. Defined.

(** [src/src/observer/storage/trx/mvcc_trx.h:115-125] [MvccTrx] *)
Record MvccTrx := mkTrx {
  trx_id_ : Z;
  started_ : bool;
  recovering_ : bool;
  operations_ : list Operation;
}.

Definition set_started (x : MvccTrx) b : MvccTrx := mkTrx (trx_id_ x) b (recovering_ x) (operations_ x).
Definition set_operations (x : MvccTrx) ops : MvccTrx := mkTrx (trx_id_ x) (started_ x) (recovering_ x) ops.

(** [src/src/observer/storage/trx/mvcc_trx.cpp:133-135] [MvccTrx::MvccTrx] *)
Definition new_trx : MvccTrx := mkTrx (-1) false false [].
(** [src/src/observer/storage/trx/mvcc_trx.cpp:137-142] [MvccTrx::MvccTrx] for the recovery *)
Definition recovery_trx (trx_id : Z) : MvccTrx := mkTrx trx_id true true [].

(** [src/src/observer/storage/trx/mvcc_trx.cpp:58-58] [MvccTrxKit::next_trx_id] on [current_trx_id_] *)
Definition next_trx_id (current_trx_id : Z) : Z := to_int32 (current_trx_id + 1).

(** [src/src/observer/storage/trx/mvcc_trx_log.h:38-44] [MvccTrxLogOperation::Type] *)
Inductive MvccTrxLogOperation := INSERT_RECORD | DELETE_RECORD | COMMIT | ROLLBACK.
Definition log_operation_index (t : MvccTrxLogOperation) : Z :=
  match t with INSERT_RECORD => 0 | DELETE_RECORD => 1 | COMMIT => 2 | ROLLBACK => 3 end.
Definition log_operation_of (z : Z) : option MvccTrxLogOperation :=
  match z with 0 => Some INSERT_RECORD | 1 => Some DELETE_RECORD | 2 => Some COMMIT | 3 => Some ROLLBACK | _ => None end.

(** [src/src/observer/storage/trx/mvcc_trx_log.h:79-88] [MvccTrxRecordLogEntry] *)
Definition record_log_entry (t : MvccTrxLogOperation) (trx_id table_id : Z) (rid : RID) : list Z :=
  le_encode 4 (log_operation_index t) ++ le_encode 4 trx_id ++ le_encode 4 table_id ++
  le_encode 4 (rid_page_num rid) ++ le_encode 4 (rid_slot_num rid).

(** [src/src/observer/storage/trx/mvcc_trx_log.h:95-103] [MvccTrxCommitLogEntry] *)
Definition commit_log_entry (t : MvccTrxLogOperation) (trx_id commit_trx_id : Z) : list Z :=
  le_encode 4 (log_operation_index t) ++ le_encode 4 trx_id ++ le_encode 4 commit_trx_id.

(** A table of the database with its meta data. *)
Record DbTable {F I : Type} := mkDbTable { dt_meta : TableMeta; dt_table : Table F I }.
#[global] Arguments DbTable : clear implicits.
#[global] Arguments mkDbTable {F I}.

(** [src/src/observer/storage/trx/mvcc_trx.cpp:274-285] [MvccTrx::trx_fields] *)
Definition trx_field_pair (m : TableMeta) : option (FieldMeta * FieldMeta) :=
  match trx_fields m with b :: e :: _ => Some (b, e) | _ => None end.

(** The two numbers of a row. *)
Definition row_xids (m : TableMeta) (row : list Z) : option (Z * Z) :=
  '(b, e) ← trx_field_pair m; begin_xid ← get_int b row; end_xid ← get_int e row; Some (begin_xid, end_xid).

Definition set_begin (m : TableMeta) (row : list Z) (v : Z) : option (list Z) := '(b, _) ← trx_field_pair m; set_int b row v.
Definition set_end (m : TableMeta) (row : list Z) (v : Z) : option (list Z) := '(_, e) ← trx_field_pair m; set_int e row v.

(** ** Visibility *)

(** [src/src/observer/storage/trx/mvcc_trx.cpp:222-264] [MvccTrx::visit_record] the code for the two numbers
    of a row *)
Definition visit_code (trx_id begin_xid end_xid : Z) (mode : ReadWriteMode) : RC :=
  if (0 <? begin_xid) && (0 <? end_xid) then
    if (begin_xid <=? trx_id) && (trx_id <=? end_xid) then RC_SUCCESS else RC_RECORD_INVISIBLE
  else if begin_xid <? 0 then
    if to_int32 (- begin_xid) =? trx_id then RC_SUCCESS else RC_RECORD_INVISIBLE
  else if end_xid <? 0 then
    match mode with
    | READ_ONLY => if negb (to_int32 (- end_xid) =? trx_id) then RC_SUCCESS else RC_RECORD_INVISIBLE
    | READ_WRITE => if negb (to_int32 (- end_xid) =? trx_id) then RC_LOCKED_CONCURRENCY_CONFLICT else RC_RECORD_INVISIBLE
    end
  else RC_SUCCESS.

Section operations.
Context {F I L : Type} `{RecordStore F} `{IndexStore I} `{LogWaiter L}.
(** The field of a [MvccTrxCommitLogEntry] that [rollback] does not write. *)
Variable uninitialized : Z.
Implicit Types (x : MvccTrx) (dt : DbTable F I) (row : list Z) (l : L).
#[local] Abbreviation Db := (gmap Z (DbTable F I)).
Implicit Types (db : Db).

Definition set_table db (id : Z) dt (t : Table F I) : Db := <[id := mkDbTable (dt_meta dt) t]> db.

(** [src/src/observer/storage/trx/mvcc_trx.cpp:212-220] [MvccTrx::visit_record] *)
Definition visit_record x dt row (mode : ReadWriteMode) : option RC :=
  '(begin_xid, end_xid) ← row_xids (dt_meta dt) row; Some (visit_code (trx_id_ x) begin_xid end_xid mode).

(** [Table::visit_record] with a visitor that may fail an assertion and leaves a result. *)
Definition visit_with {A} (t : Table F I) (rid : RID) (visitor : list Z → option (option (list Z) * A)) : option (RC * Table F I * option A) :=
  '(_, row) ← Table.get_record t rid;
  match row with
  | Some row =>
      '(updated, a) ← visitor row;
      '(rc, t) ← Table.visit_record t rid (λ _, updated); Some (rc, t, Some a)
  | None => '(rc, t) ← Table.visit_record t rid (λ _, None); Some (rc, t, None)
  end.

(** [src/src/observer/storage/trx/mvcc_trx_log.cpp:71-99] [MvccTrxLogHandler::insert_record] and [delete_record] *)
Definition log_record l (t : MvccTrxLogOperation) (trx_id table_id : Z) (rid : RID) : option (L * RC) :=
  if 0 <? trx_id then '(l, rc, _) ← Some (sink_append l (module_index TRANSACTION) (record_log_entry t trx_id table_id rid)); Some (l, rc)
  else None.

(** [src/src/observer/storage/trx/mvcc_trx_log.cpp:101-120] [MvccTrxLogHandler::commit] *)
Definition log_commit l (trx_id commit_trx_id : Z) : option (L * RC) :=
  if (0 <? trx_id) && (trx_id <? commit_trx_id) then
    let '(l, rc, lsn) := sink_append l (module_index TRANSACTION) (commit_log_entry COMMIT trx_id commit_trx_id) in
    if OB_FAIL rc then Some (l, rc) else Some (log_wait l lsn)
  else None.

(** [src/src/observer/storage/trx/mvcc_trx_log.cpp:122-133] [MvccTrxLogHandler::rollback] *)
Definition log_rollback l (trx_id : Z) : option (L * RC) :=
  if 0 <? trx_id then
    let '(l, rc, _) := sink_append l (module_index TRANSACTION) (commit_log_entry ROLLBACK trx_id uninitialized) in Some (l, rc)
  else None.

(** [src/src/observer/storage/trx/mvcc_trx.cpp:287-296] [MvccTrx::start_if_need] with the counter of the kit *)
Definition start_if_need (current : Z) x : option (Z * MvccTrx) :=
  if started_ x then Some (current, x)
  else match operations_ x with
       | [] => let id := next_trx_id current in Some (id, mkTrx id true (recovering_ x) [])
       | _ => None
       end.

(** [src/src/observer/storage/trx/mvcc_trx.cpp:146-168] [MvccTrx::insert_record] *)
Definition insert_record x db l (table_id : Z) row : option (RC * MvccTrx * Db * L * option RID) :=
  dt ← db !! table_id;
  row ← set_begin (dt_meta dt) row (- trx_id_ x);
  row ← set_end (dt_meta dt) row MAX_TRX_ID;
  '(rc, t, rid) ← Table.insert_record (dt_table dt) row;
  let db := set_table db table_id dt t in
  if bool_decide (rc = RC_SUCCESS) then
    rid ← rid;
    '(l, rc) ← log_record l INSERT_RECORD (trx_id_ x) table_id rid;
    if bool_decide (rc = RC_SUCCESS)
    then Some (rc, set_operations x (operations_ x ++ [mkOperation OP_INSERT table_id rid]), db, l, Some rid)
    else None
  else Some (rc, x, db, l, None).

(** [src/src/observer/storage/trx/mvcc_trx.cpp:170-210] [MvccTrx::delete_record] *)
Definition delete_record x db l (table_id : Z) (rid : RID) : option (RC * MvccTrx * Db * L) :=
  dt ← db !! table_id;
  '(rc, t, delete_result) ← visit_with (dt_table dt) rid (λ row,
    rc ← visit_record x dt row READ_WRITE;
    if OB_FAIL rc then Some (None, rc) else row ← set_end (dt_meta dt) row (- trx_id_ x); Some (Some row, RC_SUCCESS));
  let db := set_table db table_id dt t in
  if OB_FAIL rc then Some (rc, x, db, l)
  else
    let delete_result := default RC_SUCCESS delete_result in
    if OB_FAIL delete_result then Some (delete_result, x, db, l)
    else
      '(l, rc) ← log_record l DELETE_RECORD (trx_id_ x) table_id rid;
      if bool_decide (rc = RC_SUCCESS)
      then Some (RC_SUCCESS, set_operations x (operations_ x ++ [mkOperation OP_DELETE table_id rid]), db, l)
      else None.

(** [src/src/observer/storage/trx/mvcc_trx.cpp:312-361] [MvccTrx::commit_with_trx_id] one turn of the loop *)
Definition commit_operation x db (commit_xid : Z) (op : Operation) : option Db :=
  dt ← db !! op_table op;
  '(rc, t, _) ← match op_type op with
    | OP_INSERT => visit_with (dt_table dt) (op_rid op) (λ row,
        '(begin_xid, _) ← row_xids (dt_meta dt) row;
        if (begin_xid =? - trx_id_ x) && negb (recovering_ x) then row ← set_begin (dt_meta dt) row commit_xid; Some (Some row, tt) else None)
    | OP_DELETE => visit_with (dt_table dt) (op_rid op) (λ row,
        '(_, end_xid) ← row_xids (dt_meta dt) row;
        if end_xid =? - trx_id_ x then row ← set_end (dt_meta dt) row commit_xid; Some (Some row, tt) else None)
    | _ => None
    end;
  if bool_decide (rc = RC_SUCCESS) then Some (set_table db (op_table op) dt t) else None.

(** The loop. *)
Fixpoint commit_operations x db (commit_xid : Z) (ops : list Operation) : option Db :=
  match ops with
  | [] => Some db
  | op :: ops => db ← commit_operation x db commit_xid op; commit_operations x db commit_xid ops
  end.

(** [src/src/observer/storage/trx/mvcc_trx.cpp:304-373] [MvccTrx::commit_with_trx_id] *)
Definition commit_with_trx_id x db l (commit_xid : Z) : option (RC * MvccTrx * Db * L) :=
  let x := set_started x false in
  db ← commit_operations x db commit_xid (operations_ x);
  '(l, rc) ← if recovering_ x then Some (l, RC_SUCCESS) else log_commit l (trx_id_ x) commit_xid;
  Some (rc, set_operations x [], db, l).

(** [src/src/observer/storage/trx/mvcc_trx.cpp:298-302] [MvccTrx::commit] *)
Definition commit (current : Z) x db l : option (RC * Z * MvccTrx * Db * L) :=
  let commit_id := next_trx_id current in
  '(rc, x, db, l) ← commit_with_trx_id x db l commit_id; Some (rc, commit_id, x, db, l).

(** [src/src/observer/storage/trx/mvcc_trx.cpp:384-444] [MvccTrx::rollback] one turn of the loop: the code [rc]
    survives a [continue]; [inl] returns from the function *)
Definition rollback_operation x db (rc : RC) (op : Operation) : option (Db * (RC + RC)) :=
  dt ← db !! op_table op;
  match op_type op with
  | OP_INSERT =>
      let erase :=
        '(rc, t) ← delete_record_at (dt_table dt) (op_rid op);
        if bool_decide (rc = RC_SUCCESS) then Some (set_table db (op_table op) dt t, inr rc) else None in
      if recovering_ x then
        '(rc, row) ← Table.get_record (dt_table dt) (op_rid op);
        if bool_decide (rc = RC_SUCCESS) then
          row ← row;
          '(begin_xid, _) ← row_xids (dt_meta dt) row;
          if negb (begin_xid =? - trx_id_ x) then Some (db, inr rc) else erase
        else if bool_decide (rc = RC_RECORD_NOT_EXIST) then Some (db, inr rc) else Some (db, inl rc)
      else erase
  | OP_DELETE =>
      if bool_decide (rc = RC_SUCCESS) then
        '(rc, t, _) ← visit_with (dt_table dt) (op_rid op) (λ row,
          '(_, end_xid) ← row_xids (dt_meta dt) row;
          if recovering_ x && negb (end_xid =? - trx_id_ x) then Some (None, tt)
          else if end_xid =? - trx_id_ x then row ← set_end (dt_meta dt) row MAX_TRX_ID; Some (Some row, tt) else None);
        if bool_decide (rc = RC_SUCCESS) then Some (set_table db (op_table op) dt t, inr rc) else None
      else None
  | _ => None
  end.

(** The loop, over the operations from the last to the first. *)
Fixpoint rollback_operations x db (rc : RC) (ops : list Operation) : option (Db * (RC + RC)) :=
  match ops with
  | [] => Some (db, inr rc)
  | op :: ops =>
      '(db, r) ← rollback_operation x db rc op;
      match r with inr rc => rollback_operations x db rc ops | inl rc => Some (db, inl rc) end
  end.

(** [src/src/observer/storage/trx/mvcc_trx.cpp:375-453] [MvccTrx::rollback] *)
Definition rollback x db l : option (RC * MvccTrx * Db * L) :=
  let x := set_started x false in
  '(db, r) ← rollback_operations x db RC_SUCCESS (rev (operations_ x));
  match r with
  | inl rc => Some (rc, x, db, l)
  | inr rc =>
      '(l, rc) ← if recovering_ x then Some (l, rc) else log_rollback l (trx_id_ x);
      Some (rc, set_operations x [], db, l)
  end.
End operations.

(** ** Recovery *)

(** [src/src/observer/storage/trx/mvcc_trx.h:56-62] [MvccTrxKit] the transactions by their addresses *)
Record MvccTrxKit := mkTrxKit { current_trx_id_ : Z; trxes_ : gmap nat MvccTrx; next_address : nat }.

(** [src/src/observer/storage/trx/mvcc_trx.cpp:76-88] [MvccTrxKit::create_trx] with a number *)
Definition create_trx (k : MvccTrxKit) (trx_id : Z) : MvccTrxKit * nat :=
  (mkTrxKit (if current_trx_id_ k <? trx_id then trx_id else current_trx_id_ k)
     (<[next_address k := recovery_trx trx_id]> (trxes_ k)) (S (next_address k)), next_address k).

(** [src/src/observer/storage/trx/mvcc_trx.cpp:90-103] [MvccTrxKit::destroy_trx] [None] is the null pointer *)
Definition destroy_trx (k : MvccTrxKit) (trx : option nat) : MvccTrxKit :=
  match trx with Some p => mkTrxKit (current_trx_id_ k) (delete p (trxes_ k)) (next_address k) | None => k end.

(** The header of a log entry, [None] if the entry is too short. *)
Definition parse_header (data : list Z) : option (Z * Z) :=
  if 8 <=? Z.of_nat (length data) then Some (int_bytes 4 (take 4 data), int_bytes 4 (take 4 (drop 4 data))) else None.
(** The position and the table in a [MvccTrxRecordLogEntry]. *)
Definition parse_record (data : list Z) : Z * RID :=
  (int_bytes 4 (take 4 (drop 8 data)), mkRID (int_bytes 4 (take 4 (drop 12 data))) (int_bytes 4 (take 4 (drop 16 data)))).

Section replay.
(** The tables of the database that can be found. *)
Variable has_table : Z → bool.

(** [src/src/observer/storage/trx/mvcc_trx.cpp:455-521] [MvccTrx::redo] with [find_table] *)
Definition redo (x : MvccTrx) (data : list Z) : option (RC * MvccTrx) :=
  '(t, _) ← parse_header data;
  let '(table_id, rid) := parse_record data in
  t ← log_operation_of t;
  match t with
  | INSERT_RECORD =>
      if has_table table_id then Some (RC_SUCCESS, set_operations x (operations_ x ++ [mkOperation OP_INSERT table_id rid]))
      else Some (RC_SCHEMA_TABLE_NOT_EXIST, x)
  | DELETE_RECORD =>
      if has_table table_id then Some (RC_SUCCESS, set_operations x (operations_ x ++ [mkOperation OP_DELETE table_id rid]))
      else Some (RC_SCHEMA_TABLE_NOT_EXIST, x)
  | COMMIT | ROLLBACK => Some (RC_SUCCESS, x)
  end.

(** [src/src/observer/storage/trx/mvcc_trx_log.h:158-163] [MvccTrxLogReplayer] *)
Record MvccTrxLogReplayer := mkReplayer { trx_kit_ : MvccTrxKit; trx_map_ : gmap Z nat }.

(** [src/src/observer/storage/trx/mvcc_trx_log.cpp:140-175] [MvccTrxLogReplayer::replay] the transaction made here is
    not put into the map *)
Definition replay (r : MvccTrxLogReplayer) (module : Z) (data : list Z) : option (RC * MvccTrxLogReplayer) :=
  if negb (module =? module_index TRANSACTION) then None
  else match parse_header data with
  | None => Some (RC_LOG_ENTRY_INVALID, r)
  | Some (t, trx_id) =>
      let '(k, trx) := match trx_map_ r !! trx_id with None => create_trx (trx_kit_ r) trx_id | Some p => (trx_kit_ r, p) end in
      x ← trxes_ k !! trx;
      '(rc, x) ← redo x data;
      let k := mkTrxKit (current_trx_id_ k) (<[trx := x]> (trxes_ k)) (next_address k) in
      t ← log_operation_of t;
      match t with
      | COMMIT | ROLLBACK => Some (rc, mkReplayer (destroy_trx k (trx_map_ r !! trx_id)) (delete trx_id (trx_map_ r)))
      | _ => Some (rc, mkReplayer k (trx_map_ r))
      end
  end.

(** The entries of the log one after the other, until one fails. *)
Fixpoint replay_all (r : MvccTrxLogReplayer) (entries : list LogFile.LogEntry) : option (RC * MvccTrxLogReplayer) :=
  match entries with
  | [] => Some (RC_SUCCESS, r)
  | e :: entries =>
      '(rc, r) ← replay r (lh_module_id (LogFile.header_ e)) (LogFile.data_ e);
      if OB_FAIL rc then Some (rc, r) else replay_all r entries
  end.
End replay.

Section on_done.
Context {F I L : Type} `{RecordStore F} `{IndexStore I} `{LogWaiter L}.
Variable uninitialized : Z.

(** [src/src/observer/storage/trx/mvcc_trx_log.cpp:177-188] [MvccTrxLogReplayer::on_done] the codes are ignored *)
Definition on_done (r : MvccTrxLogReplayer) (db : gmap Z (DbTable F I)) (l : L) : option (MvccTrxLogReplayer * gmap Z (DbTable F I) * L) :=
  '(db, l) ← foldr (λ '(_, p) s, '(db, l) ← s; x ← trxes_ (trx_kit_ r) !! p; '(_, _, db, l) ← rollback uninitialized x db l; Some (db, l))
      (Some (db, l)) (map_to_list (trx_map_ r));
  Some (mkReplayer (trx_kit_ r) ∅, db, l).
End on_done.

(** ** What a log does not refuse *)

(** A log that accepts the small entries of the transactions. *)
Class ReliableLog (L : Type) `{LogSink L} :=
  reliable_append : ∀ (l : L) m data, Z.of_nat (length data) ≤ 20 → (sink_append l m data).1.2 = RC_SUCCESS.

#[export] Instance unit_reliable : ReliableLog unit.
Proof. done. Qed.

#[export] Instance flushed_reliable : ReliableLog FlushedLog.
Proof.
  intros [b d] m data Hd. cbn. unfold buffer_sink_append, buffer_append, entry_init. rewrite to_int32_small by (unfold is_int32, INT32_MIN, INT32_MAX; lia).
  case_bool; [|done]. unfold max_payload_size, LogHeader_SIZE in E. lia.
Qed.

(** ** Rows *)

(** The fields of the transactions of a table, apart from its indexed fields and its columns. *)
Definition user_fields (m : TableMeta) : list FieldMeta := drop (sys_field_num m) (fields_ m).
Definition data_of (m : TableMeta) (row : list Z) : list (list Z) := (λ f, field_bytes f row) <$> user_fields m.

Definition apart (b e f : FieldMeta) : Prop := disjoint_fields b f ∧ disjoint_fields e f ∧ 0 ≤ attr_offset_ f ∧ 0 ≤ attr_len_ f.

Section rows.
Context {F I : Type} `{RecordStore F} `{IndexStore I}.
Implicit Types (dt : DbTable F I) (row : list Z) (t : Table F I).

Record schema_ok dt : Prop := {
  schema_fields : ∃ b e, trx_field_pair (dt_meta dt) = Some (b, e) ∧ int_field b (rs_record_size (record_handler_ (dt_table dt))) ∧
    int_field e (rs_record_size (record_handler_ (dt_table dt))) ∧ disjoint_fields b e ∧ Forall (apart b e) (user_fields (dt_meta dt)) ∧
    Forall (λ ix, Forall (apart b e) (ti_fields_meta_ ix)) (tbl_indexes_ (dt_table dt));
}.

(** Rows that differ only in the numbers of the transactions. *)
Definition same_data dt row row' : Prop :=
  length row' = length row ∧ Forall (λ ix, index_key ix row' = index_key ix row) (tbl_indexes_ (dt_table dt)) ∧
  data_of (dt_meta dt) row' = data_of (dt_meta dt) row.

#[global] Instance same_data_trans dt : Transitive (same_data dt).
Proof.
  intros r1 r2 r3 (E1 & I1 & D1) (E2 & I2 & D2). split_and!; [congruence| |congruence].
  rewrite Forall_forall in I1. rewrite Forall_forall in I2. apply Forall_forall. intros ix Hix. rewrite I2, I1 by done. done.
Qed.

Lemma schema_shape dt t' : schema_ok dt → same_shape (dt_table dt) t' → schema_ok (mkDbTable (dt_meta dt) t').
Proof.
  intros [(b & e & Ef & Hb & He & Hd & Hu & Hi)] [Esz Hs]. constructor. exists b, e. cbn [dt_meta dt_table]. rewrite Esz. split_and!; try done.
  clear - Hi Hs. induction Hs as [|ix ix' l l' (Ei & _) _ IH]; [done|]. apply Forall_cons in Hi as [? ?]. constructor; [by rewrite Ei|by apply IH].
Qed.

Lemma fields_apart b e f (l : list FieldMeta) row row' : f = b ∨ f = e → Forall (apart b e) l →
  (∀ g, disjoint_fields f g → 0 ≤ attr_offset_ g → 0 ≤ attr_len_ g → field_bytes g row' = field_bytes g row ∧ (attr_len_ g = 4 → get_int g row' = get_int g row)) →
  (λ g, field_bytes g row') <$> l = (λ g, field_bytes g row) <$> l.
Proof.
  intros Hf Hl Hg. apply list_fmap_ext. intros i g Hi. apply (Forall_lookup_1 _ _ _ _ Hl) in Hi as (H1 & H2 & H3 & H4).
  apply Hg; [by destruct Hf as [->| ->]|done|done].
Qed.

Context dt (Hdt : schema_ok dt) row (Hrow : Z.of_nat (length row) = rs_record_size (record_handler_ (dt_table dt))).

Lemma row_xids_some : ∃ b e, row_xids (dt_meta dt) row = Some (b, e).
Proof using Hdt Hrow.
  destruct Hdt as [(b & e & Ef & Hb & He & _)]. rewrite <- Hrow in Hb, He. destruct (get_int_some b row Hb) as [vb Eb], (get_int_some e row He) as [ve Ee].
  exists vb, ve. unfold row_xids. rewrite Ef. cbn. rewrite Eb. cbn. by rewrite Ee.
Qed.

Lemma set_begin_ok b e v : row_xids (dt_meta dt) row = Some (b, e) → is_int32 v →
  ∃ row', set_begin (dt_meta dt) row v = Some row' ∧ row_xids (dt_meta dt) row' = Some (v, e) ∧ same_data dt row row'.
Proof using Hdt Hrow.
  destruct Hdt as [(fb & fe & Ef & Hb & He & Hd & Hu & Hi)]. rewrite <- Hrow in Hb, He. unfold row_xids, set_begin. rewrite Ef. cbn. intros Ex Hv.
  destruct (set_int_ok fb row Hb v Hv) as (row' & Es & El & Eg & Ho). exists row'. split; [done|].
  destruct (Ho fe Hd) as [_ Eo]; [apply He|destruct He as (_ & -> & _); lia|]. rewrite Eg. cbn. rewrite (Eo (proj1 (proj2 He))).
  destruct (get_int fb row) as [?|]; [|done]. cbn in Ex. destruct (get_int fe row) as [?|]; [|done]. cbn in Ex |- *. injection Ex as -> ->. split; [done|].
  split_and!; [done| |].
  - eapply Forall_impl; [exact Hi|]. cbn. intros ix Hix. unfold index_key, get_index_key_from_tuple. eapply fields_apart; [by left|done|done].
  - unfold data_of. eapply fields_apart; [by left|done|done].
Qed.

Lemma set_end_ok b e v : row_xids (dt_meta dt) row = Some (b, e) → is_int32 v →
  ∃ row', set_end (dt_meta dt) row v = Some row' ∧ row_xids (dt_meta dt) row' = Some (b, v) ∧ same_data dt row row'.
Proof using Hdt Hrow.
  destruct Hdt as [(fb & fe & Ef & Hb & He & Hd & Hu & Hi)]. rewrite <- Hrow in Hb, He. unfold row_xids, set_end. rewrite Ef. cbn. intros Ex Hv.
  destruct (set_int_ok fe row He v Hv) as (row' & Es & El & Eg & Ho). exists row'. split; [done|].
  assert (Hd' : disjoint_fields fe fb) by (destruct Hd; [by right|by left]).
  destruct (Ho fb Hd') as [_ Eo]; [apply Hb|destruct Hb as (_ & -> & _); lia|]. rewrite (Eo (proj1 (proj2 Hb))).
  destruct (get_int fb row) as [?|]; [|done]. cbn in Ex |- *. rewrite Eg. destruct (get_int fe row) as [?|]; [|done]. cbn in Ex |- *. injection Ex as -> ->. split; [done|].
  split_and!; [done| |].
  - eapply Forall_impl; [exact Hi|]. cbn. intros ix Hix. unfold index_key, get_index_key_from_tuple. eapply fields_apart; [by right|done|done].
  - unfold data_of. eapply fields_apart; [by right|done|done].
Qed.
End rows.

(** ** What recovery does *)

(** An entry of the log. *)
Inductive TrxLogEntry :=
  | RecordEntry (deletion : bool) (trx_id table_id : Z) (rid : RID)
  | EndEntry (rolled_back : bool) (trx_id commit_trx_id : Z).

Definition entry_operation (e : TrxLogEntry) : MvccTrxLogOperation :=
  match e with
  | RecordEntry false _ _ _ => INSERT_RECORD | RecordEntry true _ _ _ => DELETE_RECORD
  | EndEntry false _ _ => COMMIT | EndEntry true _ _ => ROLLBACK
  end.
Definition entry_trx (e : TrxLogEntry) : Z := match e with RecordEntry _ i _ _ | EndEntry _ i _ => i end.
Definition entry_bytes (e : TrxLogEntry) : list Z :=
  match e with
  | RecordEntry _ i t r => record_log_entry (entry_operation e) i t r
  | EndEntry _ i c => commit_log_entry (entry_operation e) i c
  end.
Definition log_entry (n : Z) (e : TrxLogEntry) : LogFile.LogEntry :=
  LogFile.mkLogEntry (LogFile.mkLogHeader n (Z.of_nat (length (entry_bytes e))) (module_index TRANSACTION)) (entry_bytes e).

(** Entries of existing tables with numbers in range. *)
Definition entry_ok (has_table : Z → bool) (e : TrxLogEntry) : Prop :=
  is_int32 (entry_trx e) ∧ match e with RecordEntry _ _ t r => is_int32 t ∧ has_table t = true | _ => True end.

Lemma take_encode n z (l : list Z) : take n (le_encode n z ++ l) = le_encode n z.
Proof. rewrite take_app_le by (rewrite le_encode_length; done). apply take_ge. by rewrite le_encode_length. Qed.
Lemma drop_encode n z (l : list Z) : drop n (le_encode n z ++ l) = l.
Proof. rewrite drop_app_ge by (rewrite le_encode_length; done). by rewrite le_encode_length, Nat.sub_diag. Qed.
Lemma int_encode z : is_int32 z → int_bytes 4 (le_encode 4 z) = z.
Proof. intros Hz. apply (int_bytes_encode 4); [lia|]. unfold is_int32, INT32_MAX, INT32_MIN in Hz. simpl. lia. Qed.

Lemma parse_entry e : is_int32 (entry_trx e) → parse_header (entry_bytes e) = Some (log_operation_index (entry_operation e), entry_trx e).
Proof.
  intros He. unfold parse_header. assert (Hop : is_int32 (log_operation_index (entry_operation e))) by (by destruct e as [[]|[]]).
  rewrite (proj2 (Z.leb_le _ _)) by (destruct e; unfold entry_bytes, record_log_entry, commit_log_entry; rewrite !length_app, !le_encode_length; lia).
  destruct e as [d i t r|d i c]; unfold entry_bytes, record_log_entry, commit_log_entry; rewrite take_encode, drop_encode, take_encode, !int_encode by done; done.
Qed.

Lemma log_operation_roundtrip t : log_operation_of (log_operation_index t) = Some t.
Proof. by destruct t. Qed.

(** The table of an entry is found. *)
Lemma redo_entry has_table x e : entry_ok has_table e → ∃ x', redo has_table x (entry_bytes e) = Some (RC_SUCCESS, x').
Proof.
  intros [Hi He]. unfold redo. rewrite parse_entry by done. cbn [mbind option_bind]. destruct (parse_record (entry_bytes e)) as [t rid] eqn:Ep. rewrite log_operation_roundtrip. cbn [mbind option_bind].
  destruct e as [d i tb r|d i c]; cbn [entry_operation]; [|destruct d; eauto]. destruct He as [Ht Hh].
  assert (t = tb) as ->.
  { apply (f_equal fst) in Ep. cbn [fst] in Ep. rewrite <- Ep. unfold parse_record, entry_bytes, record_log_entry. cbn [fst]. assert (E8 : ∀ l : list Z, drop 8 l = drop 4 (drop 4 l)) by (intros; by rewrite drop_drop). rewrite E8, !drop_encode, take_encode. by apply int_encode. }
  rewrite Hh. destruct d; eauto.
Qed.

Lemma replay_entry has_table k e n : entry_ok has_table e → ∃ k', replay has_table (mkReplayer k ∅) (LogFile.lh_module_id (LogFile.header_ (log_entry n e))) (entry_bytes e) = Some (RC_SUCCESS, mkReplayer k' ∅) ∧
  current_trx_id_ k' = Z.max (current_trx_id_ k) (entry_trx e).
Proof.
  intros He. unfold replay. cbn [LogFile.lh_module_id LogFile.header_ log_entry]. rewrite Z.eqb_refl. cbn [negb]. rewrite parse_entry by apply He. cbn [trx_map_]. rewrite lookup_empty. cbn [trx_kit_].
  unfold create_trx. cbn [trxes_]. rewrite lookup_insert_eq. cbn [mbind option_bind]. destruct (redo_entry has_table (recovery_trx (entry_trx e)) e He) as [x' ->]. cbn [mbind option_bind].
  rewrite log_operation_roundtrip. cbn [mbind option_bind current_trx_id_].
  assert (Em : (if current_trx_id_ k <? entry_trx e then entry_trx e else current_trx_id_ k) = Z.max (current_trx_id_ k) (entry_trx e)) by (case_bool; lia).
  destruct (entry_operation e); rewrite ?delete_empty; (eexists; split; [reflexivity|exact Em]).
Qed.

(** C18: recovery rolls back nothing.  The replayer never puts a transaction into the map it searches.  So for every log of well-formed
    entries whose tables still exist (for another table, as after a DROP TABLE, the replay ends with
    SCHEMA_TABLE_NOT_EXIST) the replay succeeds, the map stays empty and [on_done] leaves every table as it is, with the
    rows of the transactions that were open at the crash.  The counter continues behind the greatest number of a
    transaction in the log; the numbers of the commits, which are greater, are not looked at. *)
Theorem recovery_rolls_back_nothing {F I L} `{RecordStore F} `{IndexStore I} `{LogWaiter L} uninitialized has_table k (es : list (Z * TrxLogEntry)) :
  Forall (λ e, entry_ok has_table e.2) es →
  ∃ k', replay_all has_table (mkReplayer k ∅) ((λ e, log_entry e.1 e.2) <$> es) = Some (RC_SUCCESS, mkReplayer k' ∅) ∧
    current_trx_id_ k' = foldl Z.max (current_trx_id_ k) (entry_trx ∘ snd <$> es) ∧
    ∀ (db : gmap Z (DbTable F I)) (l : L), on_done uninitialized (mkReplayer k' ∅) db l = Some (mkReplayer k' ∅, db, l).
Proof.
  intros Hes. revert k. induction Hes as [|[n e] es He _ IH]; intros k; [by exists k|].
  destruct (replay_entry has_table k e n He) as (k1 & E & Ec). destruct (IH k1) as (k' & E' & Ec' & Hd). exists k'.
  cbn [fmap list_fmap replay_all foldl compose snd fst]. rewrite <- Ec. split; [|done].
  cbn [LogFile.data_ log_entry] in E |- *. rewrite E. cbn [mbind option_bind]. change (OB_FAIL RC_SUCCESS) with false. exact E'.
Qed.

(** An insertion of transaction 1, and transaction 2 that commits with the number 5. *)
Lemma recovery_rolls_back_nothing_witness : ∃ k',
  replay_all (λ _, true) (mkReplayer (mkTrxKit 0 ∅ 0) ∅) [log_entry 7 (RecordEntry false 1 3 (mkRID 1 0)); log_entry 8 (EndEntry false 2 5)] = Some (RC_SUCCESS, mkReplayer k' ∅) ∧
  current_trx_id_ k' = 2.
Proof.
  destruct (recovery_rolls_back_nothing (F := MapStore) (I := ListIndex) (L := unit) 0 (λ _, true) (mkTrxKit 0 ∅ 0) [(7, RecordEntry false 1 3 (mkRID 1 0)); (8, EndEntry false 2 5)])
    as (k' & E & Ec & _); [by repeat constructor|]. exists k'. split; [exact E|exact Ec].
Defined.
