(* ===== verification/MvccSessions.v ===== *)
(** * Interleaved transactions of several sessions

    The sessions of the server call their transactions one after the other; a commit or rollback visits
    one row per step.  A world has the tables, the log, the counter and the sessions; [exec] makes one
    step of one session.  The versions of a row are followed as a transition system. *)
From S2P Require Import Prelude Rc Serializer LogFile LogSink TableMeta BplusKey Stores Table MvccTrx.

(** ** The world *)

Inductive Phase := Running | Committing (commit_xid : Z) (rest : list Operation) | RollingBack (rest : list Operation).

Record Session := mkSession { s_trx : MvccTrx; s_phase : Phase }.

Inductive Action :=
  | Begin (s : nat)
  | Insert (s : nat) (id : Z) (row : list Z)
  | Delete (s : nat) (id : Z) (rid : RID)
  | StartCommit (s : nat)
  | CommitNext (s : nat)
  | StartRollback (s : nat)
  | RollbackNext (s : nat).

Definition actor (a : Action) : nat :=
  match a with
  | Begin s | Insert s _ _ | Delete s _ _ | StartCommit s | CommitNext s | StartRollback s | RollbackNext s => s
  end.

Abbreviation Rows := (gmap Z (gmap RID (list Z))).

Section world.
Context {F I L : Type} `{RecordStore F} `{IndexStore I} `{LogWaiter L}.
Variable uninitialized : Z.
#[local] Abbreviation Db := (gmap Z (DbTable F I)).

Record World := mkWorld { w_current : Z; w_db : Db; w_log : L; w_sessions : gmap nat Session }.

Definition set_session (w : World) (s : nat) (x : Session) : World := mkWorld (w_current w) (w_db w) (w_log w) (<[s := x]> (w_sessions w)).
Definition set_store (w : World) (db : Db) (l : L) : World := mkWorld (w_current w) db l (w_sessions w).
Definition set_current (w : World) (c : Z) : World := mkWorld c (w_db w) (w_log w) (w_sessions w).

(** One step; a session that cannot make the call changes nothing. *)
Definition exec (w : World) (a : Action) : option World :=
  match w_sessions w !! actor a with
  | None => Some w
  | Some x =>
      let trx := s_trx x in let s := actor a in
      match a, s_phase x with
      | Begin _, Running =>
          '(cur, trx) ← start_if_need (w_current w) trx; Some (set_session (set_current w cur) s (mkSession trx Running))
      | Insert _ id row, Running =>
          if started_ trx then
            '(_, trx, db, l, _) ← insert_record trx (w_db w) (w_log w) id row;
            Some (set_session (set_store w db l) s (mkSession trx Running))
          else Some w
      | Delete _ id rid, Running =>
          if started_ trx then
            '(_, trx, db, l) ← delete_record trx (w_db w) (w_log w) id rid;
            Some (set_session (set_store w db l) s (mkSession trx Running))
          else Some w
      | StartCommit _, Running =>
          if started_ trx then
            let c := next_trx_id (w_current w) in
            Some (set_session (set_current w c) s (mkSession (set_started trx false) (Committing c (operations_ trx))))
          else Some w
      | CommitNext _, Committing c (op :: rest) =>
          db ← commit_operation trx (w_db w) c op; Some (set_session (set_store w db (w_log w)) s (mkSession trx (Committing c rest)))
      | CommitNext _, Committing c [] =>
          '(l, _) ← if recovering_ trx then Some (w_log w, RC_SUCCESS) else log_commit (w_log w) (trx_id_ trx) c;
          Some (set_session (set_store w (w_db w) l) s (mkSession (set_operations trx []) Running))
      | StartRollback _, Running =>
          if started_ trx then Some (set_session w s (mkSession (set_started trx false) (RollingBack (rev (operations_ trx))))) else Some w
      | RollbackNext _, RollingBack (op :: rest) =>
          '(db, r) ← rollback_operation trx (w_db w) RC_SUCCESS op;
          match r with
          | inr rc => if bool_decide (rc = RC_SUCCESS)
                      then Some (set_session (set_store w db (w_log w)) s (mkSession trx (RollingBack rest))) else None
          | inl _ => None
          end
      | RollbackNext _, RollingBack [] =>
          '(l, _) ← if recovering_ trx then Some (w_log w, RC_SUCCESS) else log_rollback uninitialized (w_log w) (trx_id_ trx);
          Some (set_session (set_store w (w_db w) l) s (mkSession (set_operations trx []) Running))
      | _, _ => Some w
      end
  end.

Fixpoint exec_all (w : World) (acts : list Action) : option World :=
  match acts with [] => Some w | a :: acts => w ← exec w a; exec_all w acts end.

Lemma exec_all_app w l1 l2 : exec_all w (l1 ++ l2) = exec_all w l1 ≫= λ w, exec_all w l2.
Proof. revert w. induction l1 as [|a l1 IH]; intros w; [done|]. cbn. destruct (exec w a); [apply IH|done]. Qed.

(** The steps are those of the whole calls. *)
Lemma commit_steps w s trx c ops db : w_sessions w !! s = Some (mkSession trx (Committing c ops)) →
  commit_operations trx (w_db w) c ops = Some db →
  exec_all w (replicate (length ops) (CommitNext s)) = Some (set_session (set_store w db (w_log w)) s (mkSession trx (Committing c []))).
Proof.
  revert w. induction ops as [|op ops IH]; intros w Hs.
  - intros [= <-]. cbn. f_equal. destruct w. unfold set_session, set_store. cbn in *. f_equal. by rewrite insert_id.
  - cbn [commit_operations length replicate exec_all]. destruct (commit_operation trx (w_db w) c op) as [db1|] eqn:E; [|done]. cbn [mbind option_bind].
    unfold exec at 1. cbn [actor]. rewrite Hs. cbn [s_trx s_phase]. rewrite E. cbn [mbind option_bind]. intros Ec. rewrite IH; [|apply lookup_insert_eq|done].
    unfold set_session, set_store. cbn. by rewrite insert_insert_eq.
Qed.

Lemma rollback_steps w s trx ops db : w_sessions w !! s = Some (mkSession trx (RollingBack ops)) → recovering_ trx = false →
  rollback_operations trx (w_db w) RC_SUCCESS ops = Some (db, inr RC_SUCCESS) →
  exec_all w (replicate (length ops) (RollbackNext s)) = Some (set_session (set_store w db (w_log w)) s (mkSession trx (RollingBack []))).
Proof.
  intros Hs Hr. revert w Hs. induction ops as [|op ops IH]; intros w Hs.
  - intros [= <-]. cbn. f_equal. destruct w. unfold set_session, set_store. cbn in *. f_equal. by rewrite insert_id.
  - cbn [rollback_operations length replicate exec_all]. destruct (rollback_operation trx (w_db w) RC_SUCCESS op) as [[db1 r]|] eqn:E; [|done]. cbn [mbind option_bind].
    assert (r = inr RC_SUCCESS) as ->.
    { revert E. unfold rollback_operation. destruct (w_db w !! op_table op) as [dt|]; [|done]. cbn [mbind option_bind]. rewrite Hr. destruct (op_type op); [|done| |done].
      - destruct (delete_record_at _ _) as [[rc t]|]; [|done]. cbn [mbind option_bind]. case_bool_decide as D; [|done]. rewrite D. by intros [= _ <-].
      - rewrite bool_decide_true by done. destruct (visit_with _ _ _) as [[[rc t] a]|]; [|done]. cbn [mbind option_bind]. case_bool_decide as D; [|done]. rewrite D. by intros [= _ <-]. }
    unfold exec at 1. cbn [actor]. rewrite Hs. cbn [s_trx s_phase]. rewrite E. cbn [mbind option_bind]. rewrite bool_decide_true by done. cbn [mbind option_bind]. intros Ec.
    rewrite IH; [|apply lookup_insert_eq|done]. unfold set_session, set_store. cbn. by rewrite insert_insert_eq.
Qed.

(** ** The rows of the tables *)

Implicit Types (db : Db) (ms : Rows) (w : World).

Definition db_ok db ms : Prop := ∀ id,
  match db !! id, ms !! id with
  | Some dt, Some m => table_ok (dt_table dt) m ∧ schema_ok dt
  | None, None => True
  | _, _ => False
  end.

Definition cell ms (id : Z) (rid : RID) : option (list Z) := ms !! id ≫= lookup rid.

(** The two numbers of a row, and its values. *)
Definition version db ms (id : Z) (rid : RID) : option (Z * Z) :=
  dt ← db !! id; row ← cell ms id rid; row_xids (dt_meta dt) row.
Definition values db ms (id : Z) (rid : RID) : option (list (list Z)) :=
  dt ← db !! id; row ← cell ms id rid; Some (data_of (dt_meta dt) row).

Lemma db_ok_table db ms id dt : db_ok db ms → db !! id = Some dt → ∃ m, ms !! id = Some m ∧ table_ok (dt_table dt) m ∧ schema_ok dt.
Proof. intros Hdb Hd. specialize (Hdb id). rewrite Hd in Hdb. destruct (ms !! id) as [m|]; [|done]. by exists m. Qed.

Lemma cell_table db ms id rid row : db_ok db ms → cell ms id rid = Some row →
  ∃ dt m, db !! id = Some dt ∧ ms !! id = Some m ∧ m !! rid = Some row ∧ table_ok (dt_table dt) m ∧ schema_ok dt ∧
    Z.of_nat (length row) = rs_record_size (record_handler_ (dt_table dt)) ∧ valid_rid rid.
Proof.
  intros Hdb. unfold cell. destruct (ms !! id) as [m|] eqn:Em; [|done]. cbn. intros Hr. specialize (Hdb id). rewrite Em in Hdb.
  destruct (db !! id) as [dt|]; [|done]. destruct Hdb as [[Hh Hi] Hs]. exists dt, m. split_and!; try done; by apply (rs_row_law _ _ _ _ Hh Hr).
Qed.

Lemma version_cell db ms id rid v : version db ms id rid = Some v → ∃ row, cell ms id rid = Some row.
Proof. unfold version. destruct (db !! id); [|done]. cbn. destruct (cell ms id rid) as [row|]; [by exists row|done]. Qed.

(** The rows determine the tables' contents and are determined by them. *)
Lemma db_ok_unique db ms ms' : db_ok db ms → db_ok db ms' → ms = ms'.
Proof.
  intros Hm1 Hm2. apply map_eq. intros id. specialize (Hm1 id). specialize (Hm2 id). destruct (db !! id) as [dt|].
  - destruct (ms !! id) as [m|] eqn:E, (ms' !! id) as [m'|] eqn:E'; try done. assert (m = m') as <-; [|done]. destruct Hm1 as [[Hh _] _], Hm2 as [[Hh' _] _]. by eapply rs_holds_unique.
  - destruct (ms !! id) eqn:E, (ms' !! id) eqn:E'; try done.
Qed.

(** One row was written: [old] and [new] are its numbers before and after. *)
Record touched db ms db' ms' (id : Z) (rid : RID) (old new : option (Z * Z)) : Prop := {
  t_db : db_ok db' ms';
  t_metas : ∀ i, dt_meta <$> db' !! i = dt_meta <$> db !! i;
  t_old : version db ms id rid = old;
  t_new : version db' ms' id rid = new;
  t_others : ∀ i r, (i, r) ≠ (id, rid) → version db' ms' i r = version db ms i r ∧ values db' ms' i r = values db ms i r;
  t_values : old ≠ None → new ≠ None → values db' ms' id rid = values db ms id rid;
}.

(** Nothing was written. *)
Record untouched db ms db' ms' : Prop := {
  u_db : db_ok db' ms';
  u_metas : ∀ i, dt_meta <$> db' !! i = dt_meta <$> db !! i;
  u_version : ∀ i r, version db' ms' i r = version db ms i r;
  u_values : ∀ i r, values db' ms' i r = values db ms i r;
}.

Lemma set_table_ok db ms id dt m t' m' : db_ok db ms → db !! id = Some dt → ms !! id = Some m → same_shape (dt_table dt) t' → table_ok t' m' →
  db_ok (set_table db id dt t') (<[id := m']> ms).
Proof.
  intros Hdb Hd Hm Hs Ht i. unfold set_table. destruct (decide (i = id)) as [->|Hne].
  - rewrite !lookup_insert_eq. cbn. split; [done|]. apply schema_shape; [|done]. specialize (Hdb id). rewrite Hd, Hm in Hdb. apply Hdb.
  - rewrite !lookup_insert_ne by done. apply Hdb.
Qed.

Lemma set_table_metas db id dt t' i : db !! id = Some dt → dt_meta <$> set_table db id dt t' !! i = dt_meta <$> db !! i.
Proof. intros Hd. unfold set_table. destruct (decide (i = id)) as [->|Hne]; [by rewrite lookup_insert_eq, Hd|by rewrite lookup_insert_ne]. Qed.

Lemma set_table_others db ms id dt m t' rid v i r : db !! id = Some dt → ms !! id = Some m → (i, r) ≠ (id, rid) →
  let ms' := <[id := partial_alter (λ _, v) rid m]> ms in
  version (set_table db id dt t') ms' i r = version db ms i r ∧ values (set_table db id dt t') ms' i r = values db ms i r.
Proof.
  intros Hd Hm Hne ms'. unfold version, values, cell, set_table, ms'. destruct (decide (i = id)) as [->|].
  - rewrite !lookup_insert_eq, Hd, Hm. cbn. rewrite lookup_partial_alter_ne by congruence. done.
  - by rewrite !lookup_insert_ne.
Qed.

Lemma version_at db ms id rid dt m row : db !! id = Some dt → ms !! id = Some m → m !! rid = Some row →
  version db ms id rid = row_xids (dt_meta dt) row ∧ values db ms id rid = Some (data_of (dt_meta dt) row).
Proof. intros Hd Hm Hr. unfold version, values, cell. rewrite Hd, Hm. cbn. rewrite Hr. done. Qed.

Lemma version_none db ms id rid dt m : db !! id = Some dt → ms !! id = Some m → m !! rid = None → version db ms id rid = None.
Proof. intros Hd Hm Hr. unfold version, cell. rewrite Hd, Hm. cbn. by rewrite Hr. Qed.

Lemma version_some db ms id rid row : db_ok db ms → cell ms id rid = Some row → ∃ b e, version db ms id rid = Some (b, e).
Proof.
  intros Hdb Hc. destruct (cell_table db ms id rid row Hdb Hc) as (dt & m & Hd & Hm & Hr & Ht & Hs & Hl & _).
  destruct (row_xids_some dt Hs row Hl) as (b & e & E). exists b, e. by rewrite (proj1 (version_at _ _ _ _ _ _ _ Hd Hm Hr)).
Qed.

(** A table whose rows did not change. *)
Lemma same_rows db ms id dt m t' : db_ok db ms → db !! id = Some dt → ms !! id = Some m → same_shape (dt_table dt) t' → table_ok t' m →
  untouched db ms (set_table db id dt t') ms.
Proof.
  intros Hdb Hd Hm Hs Ht. split.
  - rewrite <- (insert_id ms id m) by done. by eapply set_table_ok.
  - intros i. by apply set_table_metas.
  - intros i r. unfold version, set_table. destruct (decide (i = id)) as [->|]; [by rewrite lookup_insert_eq, Hd|by rewrite lookup_insert_ne].
  - intros i r. unfold values, set_table. destruct (decide (i = id)) as [->|]; [by rewrite lookup_insert_eq, Hd|by rewrite lookup_insert_ne].
Qed.

(** [visit_with] of a present row. *)
Lemma visit_with_ok {A} (t : Table F I) m rid row visitor upd (a : A) : table_ok t m → m !! rid = Some row → visitor row = Some (upd, a) →
  (∀ row', upd = Some row' → length row' = length row ∧ Forall (λ ix, index_key ix row' = index_key ix row) (tbl_indexes_ t)) →
  ∃ t', visit_with t rid visitor = Some (RC_SUCCESS, t', Some a) ∧ same_shape t t' ∧
    table_ok t' (match upd with Some row' => <[rid := row']> m | None => m end).
Proof.
  intros Ht Hm Hv Hu. unfold visit_with, Table.get_record. rewrite (rs_get_law _ m rid row (proj1 Ht) Hm). cbn [mbind option_bind]. rewrite Hv. cbn [mbind option_bind].
  destruct (visit_record_ok t m rid row (λ _, upd) Ht Hm Hu) as (t' & -> & Hs & _ & Hok). cbn. by exists t'.
Qed.

(** A row is rewritten with other numbers. *)
Lemma update_row_ok {A} db ms id rid dt m row row' visitor (a : A) old new : db_ok db ms → db !! id = Some dt → ms !! id = Some m →
  m !! rid = Some row → row_xids (dt_meta dt) row = Some old → row_xids (dt_meta dt) row' = Some new → same_data dt row row' →
  visitor row = Some (Some row', a) →
  ∃ t', visit_with (dt_table dt) rid visitor = Some (RC_SUCCESS, t', Some a) ∧
    touched db ms (set_table db id dt t') (<[id := <[rid := row']> m]> ms) id rid (Some old) (Some new).
Proof.
  intros Hdb Hd Hm Hr Eo En (El & Ei & Ed) Hv. destruct (db_ok_table _ _ _ _ Hdb Hd) as (m0 & Hm0 & Ht & Hs). rewrite Hm in Hm0. injection Hm0 as <-.
  destruct (visit_with_ok (dt_table dt) m rid row visitor (Some row') a Ht Hr Hv) as (t' & E & Hsh & Hok); [intros ? [= <-]; by split|].
  exists t'. split; [exact E|]. assert (Hl' : <[id:=<[rid:=row']> m]> ms !! id = Some (<[rid:=row']> m)) by apply lookup_insert_eq.
  assert (Hd' : set_table db id dt t' !! id = Some (mkDbTable (dt_meta dt) t')) by apply lookup_insert_eq.
  split.
  - by eapply set_table_ok.
  - intros i. by apply set_table_metas.
  - by rewrite (proj1 (version_at _ _ _ _ _ _ _ Hd Hm Hr)).
  - by rewrite (proj1 (version_at _ _ _ _ _ _ _ Hd' Hl' (lookup_insert_eq _ _ _))).
  - intros i r Hne. by apply set_table_others.
  - intros _ _. rewrite (proj2 (version_at _ _ _ _ _ _ _ Hd Hm Hr)), (proj2 (version_at _ _ _ _ _ _ _ Hd' Hl' (lookup_insert_eq _ _ _))). cbn. by rewrite Ed.
Qed.

(** ** Versions as a transition system *)

(** A step of the transaction [u] on one row. *)
Inductive version_step (u : Z) : Phase → option (Z * Z) → option (Z * Z) → Prop :=
  | step_insert : version_step u Running None (Some (- u, MAX_TRX_ID))
  | step_delete b e : visit_code u b e READ_WRITE = RC_SUCCESS → version_step u Running (Some (b, e)) (Some (b, - u))
  | step_commit_insert c rest e : version_step u (Committing c rest) (Some (- u, e)) (Some (c, e))
  | step_commit_delete c rest b : version_step u (Committing c rest) (Some (b, - u)) (Some (b, c))
  | step_rollback_insert rest e : version_step u (RollingBack rest) (Some (- u, e)) None
  | step_rollback_delete rest b : version_step u (RollingBack rest) (Some (b, - u)) (Some (b, MAX_TRX_ID)).

Definition id_ok (u : Z) : Prop := 0 < u < MAX_TRX_ID.

Lemma id_int32 u : id_ok u → is_int32 u ∧ is_int32 (- u).
Proof. unfold id_ok, MAX_TRX_ID, is_int32, INT32_MAX, INT32_MIN. lia. Qed.

Lemma max_int32 : is_int32 MAX_TRX_ID.
Proof. done. Qed.

Context `{!ReliableLog L}.

Lemma log_record_ok (l : L) t u id rid : id_ok u → ∃ l', log_record l t u id rid = Some (l', RC_SUCCESS).
Proof.
  intros Hu. unfold log_record. rewrite (proj2 (Z.ltb_lt _ _)) by apply Hu.
  assert (E : (sink_append l (module_index TRANSACTION) (record_log_entry t u id rid)).1.2 = RC_SUCCESS).
  { apply reliable_append. unfold record_log_entry. rewrite !length_app, !le_encode_length. done. }
  destruct (sink_append _ _ _) as [[l' rc] n]. cbn in *. subst rc. by exists l'.
Qed.

(** An inserted row for which the table has room, of its size, without NULL in an indexed column, and without a duplicate in the first
    index (which [Table.table_insert_loses_entry] excludes; a later unique index may refuse the row). *)
Definition row_fits dt m row : Prop := has_room (dt_table dt) ∧ row_ok (dt_table dt) row ∧
  ∀ ix, head (tbl_indexes_ (dt_table dt)) = Some ix → duplicate ix m row = false.

Lemma same_data_fits dt m row row' : same_data dt row row' → row_fits dt m row → row_fits dt m row'.
Proof.
  intros (El & Ei & _) (Hroom & [Hl Hk] & Hd). split; [done|]. split; [split; [by rewrite El|]|].
  - intros rid Hr. specialize (Hk rid Hr). rewrite Forall_forall in Ei. rewrite Forall_forall in Hk. apply Forall_forall. intros ix Hix. unfold key_valid. rewrite Ei by done. by apply Hk.
  - intros ix Hh. rewrite <- (Hd ix Hh). unfold duplicate. rewrite Forall_forall in Ei. rewrite (Ei ix); [done|]. destruct (tbl_indexes_ (dt_table dt)); [done|]. injection Hh as ->. by left.
Qed.

Lemma insert_record_steps x db ms (l : L) id dt m row : db_ok db ms → db !! id = Some dt → ms !! id = Some m → id_ok (trx_id_ x) → row_fits dt m row →
  ∃ rc x' db' l' r ms', insert_record x db l id row = Some (rc, x', db', l', r) ∧
    ((∃ rid, rc = RC_SUCCESS ∧ r = Some rid ∧ valid_rid rid ∧ x' = set_operations x (operations_ x ++ [mkOperation OP_INSERT id rid]) ∧
        touched db ms db' ms' id rid None (Some (- trx_id_ x, MAX_TRX_ID)) ∧ values db' ms' id rid = Some (data_of (dt_meta dt) row)) ∨
     (OB_FAIL rc = true ∧ r = None ∧ x' = x ∧ ms' = ms ∧ untouched db ms db' ms)).
Proof.
  intros Hdb Hd Hm Hu Hfit. destruct (db_ok_table _ _ _ _ Hdb Hd) as (m0 & Hm0 & Ht & Hs). rewrite Hm in Hm0. injection Hm0 as <-.
  destruct (row_xids_some dt Hs row (proj1 (proj1 (proj2 Hfit)))) as (b & e & Ex).
  destruct (set_begin_ok dt Hs row (proj1 (proj1 (proj2 Hfit))) b e (- trx_id_ x) Ex (proj2 (id_int32 _ Hu))) as (row1 & E1 & Ex1 & Hd1).
  pose proof (same_data_fits _ m _ _ Hd1 Hfit) as Hfit1.
  destruct (set_end_ok dt Hs row1 (proj1 (proj1 (proj2 Hfit1))) _ _ MAX_TRX_ID Ex1 max_int32) as (row2 & E2 & Ex2 & Hd2).
  destruct (same_data_fits _ m _ _ Hd2 Hfit1) as (Hroom & Hrow & Hdup).
  unfold insert_record. rewrite Hd. cbn [mbind option_bind]. rewrite E1. cbn [mbind option_bind]. rewrite E2. cbn [mbind option_bind].
  destruct (existsb (λ ix, duplicate ix m row2) (tbl_indexes_ (dt_table dt))) eqn:Edup.
  - destruct (table_insert_duplicate (dt_table dt) m row2 Ht Hroom Hrow Edup Hdup) as (rc & t' & r & -> & Hsh & Hrc & Hok). cbn [mbind option_bind].
    rewrite bool_decide_false by (intros ->; done). do 6 eexists. split; [done|]. right. split_and!; try done. by eapply same_rows.
  - destruct (insert_fresh (dt_table dt) m row2 Ht Hroom Hrow Edup) as (rc & t' & r & -> & Hsh & [(-> & rid & -> & Hn & Hv & Hok)|(Hrc & _ & Hok)]); cbn [mbind option_bind].
    + rewrite bool_decide_true by done. cbn [mbind option_bind]. destruct (log_record_ok l INSERT_RECORD (trx_id_ x) id rid Hu) as (l' & ->). cbn [mbind option_bind].
      rewrite bool_decide_true by done. do 5 eexists. exists (<[id := <[rid := row2]> m]> ms). split; [done|]. left. exists rid. do 4 (split; [done|]).
      assert (Hl' : <[id:=<[rid:=row2]> m]> ms !! id = Some (<[rid:=row2]> m)) by apply lookup_insert_eq.
      assert (Hd' : set_table db id dt t' !! id = Some (mkDbTable (dt_meta dt) t')) by apply lookup_insert_eq.
      destruct (version_at _ _ _ _ _ _ _ Hd' Hl' (lookup_insert_eq _ _ _)) as [Ev Ew]. split; [split|].
      * by eapply set_table_ok.
      * intros i. by apply set_table_metas.
      * by eapply version_none.
      * by rewrite Ev.
      * intros i r' Hne. by apply set_table_others.
      * done.
      * rewrite Ew. cbn. destruct Hd1 as (_ & _ & D1), Hd2 as (_ & _ & D2). by rewrite D2, D1.
    + rewrite bool_decide_false by (intros ->; done). do 6 eexists. split; [done|]. right. split_and!; try done. by eapply same_rows.
Qed.

Lemma delete_record_steps x db ms (l : L) id rid b e : db_ok db ms → version db ms id rid = Some (b, e) → id_ok (trx_id_ x) →
  ∃ rc x' db' l' ms', delete_record x db l id rid = Some (rc, x', db', l') ∧ rc = visit_code (trx_id_ x) b e READ_WRITE ∧
    ((rc = RC_SUCCESS ∧ x' = set_operations x (operations_ x ++ [mkOperation OP_DELETE id rid]) ∧
        touched db ms db' ms' id rid (Some (b, e)) (Some (b, - trx_id_ x))) ∨
     (OB_FAIL rc = true ∧ x' = x ∧ ms' = ms ∧ untouched db ms db' ms)).
Proof.
  intros Hdb Hv Hu. destruct (version_cell _ _ _ _ _ Hv) as [row Hc].
  destruct (cell_table _ _ _ _ _ Hdb Hc) as (dt & m & Hd & Hm & Hr & Ht & Hs & Hl & _).
  rewrite (proj1 (version_at _ _ _ _ _ _ _ Hd Hm Hr)) in Hv.
  unfold delete_record. rewrite Hd. cbn [mbind option_bind].
  destruct (OB_FAIL (visit_code (trx_id_ x) b e READ_WRITE)) eqn:Ec.
  - destruct (visit_with_ok (dt_table dt) m rid row (λ row,
      rc ← visit_record x dt row READ_WRITE;
      if OB_FAIL rc then Some (None, rc) else row ← set_end (dt_meta dt) row (- trx_id_ x); Some (Some row, RC_SUCCESS)) None (visit_code (trx_id_ x) b e READ_WRITE) Ht Hr)
      as (t' & E & Hsh & Hok); [|done|].
    { unfold visit_record. rewrite Hv. cbn [mbind option_bind]. by rewrite Ec. }
    rewrite E. cbn [mbind option_bind]. change (OB_FAIL RC_SUCCESS) with false. cbn [from_option Datatypes.id]. rewrite Ec.
    do 4 eexists. exists ms. split; [done|]. split; [done|]. right. split_and!; try done. by eapply same_rows.
  - destruct (set_end_ok dt Hs row Hl b e (- trx_id_ x) Hv (proj2 (id_int32 _ Hu))) as (row' & E1 & Ex1 & Hd1).
    destruct (update_row_ok db ms id rid dt m row row' (λ row,
      rc ← visit_record x dt row READ_WRITE;
      if OB_FAIL rc then Some (None, rc) else row ← set_end (dt_meta dt) row (- trx_id_ x); Some (Some row, RC_SUCCESS)) RC_SUCCESS (b, e) (b, - trx_id_ x) Hdb Hd Hm Hr Hv Ex1 Hd1)
      as (t' & E & Htch).
    { unfold visit_record. rewrite Hv. cbn [mbind option_bind]. rewrite Ec, E1. done. }
    rewrite E. cbn [mbind option_bind]. change (OB_FAIL RC_SUCCESS) with false. cbn [from_option Datatypes.id]. change (OB_FAIL RC_SUCCESS) with false.
    destruct (log_record_ok l DELETE_RECORD (trx_id_ x) id rid Hu) as (l' & ->). cbn [mbind option_bind]. rewrite bool_decide_true by done.
    do 5 eexists. split; [done|]. assert (Ecode : visit_code (trx_id_ x) b e READ_WRITE = RC_SUCCESS) by (by destruct (visit_code _ _ _ _)).
    split; [done|]. left. split; [done|]. split; [done|exact Htch].
Qed.

Lemma commit_operation_steps x db ms c op b e : db_ok db ms → version db ms (op_table op) (op_rid op) = Some (b, e) → recovering_ x = false → id_ok c →
  match op_type op with OP_INSERT => b = - trx_id_ x | OP_DELETE => e = - trx_id_ x | _ => False end →
  ∃ db' ms', commit_operation x db c op = Some db' ∧
    touched db ms db' ms' (op_table op) (op_rid op) (Some (b, e))
      (Some (match op_type op with OP_INSERT => (c, e) | _ => (b, c) end)).
Proof.
  intros Hdb Hv Hrec Hc Hop. destruct (version_cell _ _ _ _ _ Hv) as [row Hcl].
  destruct (cell_table _ _ _ _ _ Hdb Hcl) as (dt & m & Hd & Hm & Hr & Ht & Hs & Hl & _).
  rewrite (proj1 (version_at _ _ _ _ _ _ _ Hd Hm Hr)) in Hv. unfold commit_operation. rewrite Hd. cbn [mbind option_bind].
  destruct (op_type op); try done.
  - destruct (set_begin_ok dt Hs row Hl b e c Hv (proj1 (id_int32 _ Hc))) as (row' & E1 & Ex1 & Hd1).
    destruct (update_row_ok db ms (op_table op) (op_rid op) dt m row row' (λ row, '(begin_xid, _) ← row_xids (dt_meta dt) row;
        if (begin_xid =? - trx_id_ x) && negb (recovering_ x) then row ← set_begin (dt_meta dt) row c; Some (Some row, tt) else None)
        tt (b, e) (c, e) Hdb Hd Hm Hr Hv Ex1 Hd1) as (t' & E & Htch).
    { rewrite Hv. cbn [mbind option_bind]. rewrite Hop, Z.eqb_refl, Hrec. cbn [andb negb]. by rewrite E1. }
    rewrite E. cbn [mbind option_bind]. rewrite bool_decide_true by done. by do 2 eexists.
  - destruct (set_end_ok dt Hs row Hl b e c Hv (proj1 (id_int32 _ Hc))) as (row' & E1 & Ex1 & Hd1).
    destruct (update_row_ok db ms (op_table op) (op_rid op) dt m row row' (λ row, '(_, end_xid) ← row_xids (dt_meta dt) row;
        if end_xid =? - trx_id_ x then row ← set_end (dt_meta dt) row c; Some (Some row, tt) else None)
        tt (b, e) (b, c) Hdb Hd Hm Hr Hv Ex1 Hd1) as (t' & E & Htch).
    { rewrite Hv. cbn [mbind option_bind]. rewrite Hop, Z.eqb_refl. by rewrite E1. }
    rewrite E. cbn [mbind option_bind]. rewrite bool_decide_true by done. by do 2 eexists.
Qed.

Lemma delete_at_ok dt m rid row : table_ok (dt_table dt) m → m !! rid = Some row →
  ∃ t', delete_record_at (dt_table dt) rid = Some (RC_SUCCESS, t') ∧ same_shape (dt_table dt) t' ∧ table_ok t' (delete rid m).
Proof.
  intros Ht Hr. unfold delete_record_at, Table.get_record. rewrite (rs_get_law _ m rid row (proj1 Ht) Hr). cbn [mbind option_bind].
  change (OB_FAIL RC_SUCCESS) with false. cbn [mbind option_bind]. by apply delete_record_ok.
Qed.

Lemma rollback_operation_steps x db ms op b e : db_ok db ms → version db ms (op_table op) (op_rid op) = Some (b, e) → recovering_ x = false →
  match op_type op with OP_INSERT => b = - trx_id_ x | OP_DELETE => e = - trx_id_ x | _ => False end →
  ∃ db' ms', rollback_operation x db RC_SUCCESS op = Some (db', inr RC_SUCCESS) ∧
    touched db ms db' ms' (op_table op) (op_rid op) (Some (b, e))
      (match op_type op with OP_INSERT => None | _ => Some (b, MAX_TRX_ID) end).
Proof.
  intros Hdb Hv Hrec Hop. destruct (version_cell _ _ _ _ _ Hv) as [row Hcl].
  destruct (cell_table _ _ _ _ _ Hdb Hcl) as (dt & m & Hd & Hm & Hr & Ht & Hs & Hl & _). pose proof Hv as Hv0.
  rewrite (proj1 (version_at _ _ _ _ _ _ _ Hd Hm Hr)) in Hv. unfold rollback_operation. rewrite Hd. cbn [mbind option_bind]. rewrite Hrec.
  destruct (op_type op); try done.
  - destruct (delete_at_ok dt m (op_rid op) row Ht Hr) as (t' & -> & Hsh & Hok). cbn [mbind option_bind]. rewrite bool_decide_true by done.
    exists (set_table db (op_table op) dt t'), (<[op_table op := delete (op_rid op) m]> ms). split; [done|]. split.
    + by eapply set_table_ok.
    + intros i. by apply set_table_metas.
    + done.
    + eapply version_none; [apply lookup_insert_eq|apply lookup_insert_eq|apply lookup_delete_eq].
    + intros i r Hne. by apply (set_table_others db ms (op_table op) dt m t' (op_rid op) None).
    + done.
  - rewrite bool_decide_true by done. destruct (set_end_ok dt Hs row Hl b e MAX_TRX_ID Hv max_int32) as (row' & E1 & Ex1 & Hd1).
    destruct (update_row_ok db ms (op_table op) (op_rid op) dt m row row' (λ row, '(_, end_xid) ← row_xids (dt_meta dt) row;
          if false && negb (end_xid =? - trx_id_ x) then Some (None, tt)
          else if end_xid =? - trx_id_ x then row ← set_end (dt_meta dt) row MAX_TRX_ID; Some (Some row, tt) else None)
        tt (b, e) (b, MAX_TRX_ID) Hdb Hd Hm Hr Hv Ex1 Hd1) as (t' & E & Htch).
    { rewrite Hv. cbn [mbind option_bind andb]. rewrite Hop, Z.eqb_refl. by rewrite E1. }
    rewrite E. cbn [mbind option_bind]. rewrite bool_decide_true by done. by do 2 eexists.
Qed.

(** ** The invariant of a world *)

Definition rest (x : Session) : list Operation :=
  match s_phase x with Running => operations_ (s_trx x) | Committing _ r => r | RollingBack r => r end.

Definition active (x : Session) : Prop := s_phase x = Running → started_ (s_trx x) = true.

(** No deletion of a row comes before its insertion. *)
Definition ins_first (ops : list Operation) : Prop := ∀ l1 l2 id rid,
  ops = l1 ++ mkOperation OP_INSERT id rid :: l2 → mkOperation OP_DELETE id rid ∉ l1.

Definition program_order (x : Session) : list Operation := match s_phase x with RollingBack r => rev r | _ => rest x end.

Record session_ok (current : Z) (x : Session) : Prop := {
  so_live : recovering_ (s_trx x) = false;
  so_id : active x → 0 < trx_id_ (s_trx x) ≤ current;
  so_idle : ¬ active x → operations_ (s_trx x) = [];
  so_nodup : NoDup (rest x);
  so_order : ins_first (program_order x);
  so_commit : ∀ c r, s_phase x = Committing c r → trx_id_ (s_trx x) < c ≤ current;
  so_started : s_phase x ≠ Running → started_ (s_trx x) = false;
}.

(** What an operation that is not yet committed or rolled back has left in its row. *)
Definition op_version (u : Z) (op : Operation) (v : option (Z * Z)) : Prop :=
  ∃ b e, v = Some (b, e) ∧ match op_type op with OP_INSERT => b = - u | OP_DELETE => e = - u | _ => False end.

Definition pending (w : World) (u : Z) (op : Operation) : Prop :=
  ∃ s x, w_sessions w !! s = Some x ∧ trx_id_ (s_trx x) = u ∧ op ∈ rest x.

Record version_ok (w : World) (id : Z) (rid : RID) (b e : Z) : Prop := {
  vo_begin : 0 < b ≤ w_current w ∨ (∃ u, b = - u ∧ pending w u (mkOperation OP_INSERT id rid));
  vo_end : 0 < e ≤ w_current w ∨ e = MAX_TRX_ID ∨ (∃ u, e = - u ∧ pending w u (mkOperation OP_DELETE id rid));
  vo_own : b < 0 → e = MAX_TRX_ID ∨ e = b;
}.

Record world_ok (w : World) (ms : Rows) : Prop := {
  wo_db : db_ok (w_db w) ms;
  wo_current : 0 ≤ w_current w < MAX_TRX_ID;
  wo_session : ∀ s x, w_sessions w !! s = Some x → session_ok (w_current w) x;
  wo_distinct : ∀ s1 s2 x1 x2, w_sessions w !! s1 = Some x1 → w_sessions w !! s2 = Some x2 → active x1 → active x2 →
    trx_id_ (s_trx x1) = trx_id_ (s_trx x2) → s1 = s2;
  wo_pending : ∀ s x op, w_sessions w !! s = Some x → op ∈ rest x → op_version (trx_id_ (s_trx x)) op (version (w_db w) ms (op_table op) (op_rid op));
  wo_rows : ∀ id rid b e, version (w_db w) ms id rid = Some (b, e) → version_ok w id rid b e;
}.

Lemma rest_active w ms s x op : world_ok w ms → w_sessions w !! s = Some x → op ∈ rest x → active x.
Proof.
  intros Hw Hs Hop Hph. destruct (started_ (s_trx x)) eqn:E; [done|]. exfalso. unfold rest in Hop. rewrite Hph in Hop.
  rewrite (so_idle _ _ (wo_session _ _ Hw _ _ Hs)) in Hop; [by apply not_elem_of_nil in Hop|]. intros Ha. specialize (Ha Hph). congruence.
Qed.

(** The owner of a number. *)
Lemma pending_owner w ms s x u op : world_ok w ms → w_sessions w !! s = Some x → active x → trx_id_ (s_trx x) = u → pending w u op → op ∈ rest x.
Proof.
  intros Hw Hs Ha <- (s' & x' & Hs' & E & Hop). assert (s' = s) as ->; [|by rewrite Hs in Hs'; injection Hs' as <-].
  eapply wo_distinct; eauto. by eapply rest_active.
Qed.

Lemma pending_id w ms u op : world_ok w ms → pending w u op → 0 < u ≤ w_current w.
Proof.
  intros Hw (s & x & Hs & <- & Hop). apply (so_id _ _ (wo_session _ _ Hw _ _ Hs)). by eapply rest_active.
Qed.

(** *** What a step keeps of a session's work *)

(** The operations pending after the session [s] did a step, and the numbers in the rows. *)
Lemma world_step w ms s x x' w' ms' :
  world_ok w ms → w_sessions w !! s = Some x → w_sessions w' = <[s := x']> (w_sessions w) → w_current w ≤ w_current w' < MAX_TRX_ID →
  session_ok (w_current w') x' → db_ok (w_db w') ms' →
  (active x' → (active x ∧ trx_id_ (s_trx x') = trx_id_ (s_trx x)) ∨ w_current w < trx_id_ (s_trx x')) →
  (∀ op, op ∈ rest x' → op_version (trx_id_ (s_trx x')) op (version (w_db w') ms' (op_table op) (op_rid op))) →
  (∀ s0 x0 op, s0 ≠ s → w_sessions w !! s0 = Some x0 → op ∈ rest x0 →
     op_version (trx_id_ (s_trx x0)) op (version (w_db w') ms' (op_table op) (op_rid op))) →
  (∀ id rid b e, version (w_db w') ms' id rid = Some (b, e) → version_ok w' id rid b e) →
  world_ok w' ms'.
Proof.
  intros Hw Hs Es Hcur Hx' Hdb Hid Hown Hoth Hrows. split; [done|pose proof (wo_current _ _ Hw); lia| | | |done]; rewrite Es.
  - intros s0 x0 [[<- <-]|[Hne Hs0]]%lookup_insert_Some; [done|]. destruct (wo_session _ _ Hw _ _ Hs0) as [? Hi ? ? ? Hc ?]. split; try done.
    + intros Ha. specialize (Hi Ha). lia.
    + intros c r Hp. specialize (Hc c r Hp). lia.
  - assert (Hnew : ∀ s0 x0, s0 ≠ s → w_sessions w !! s0 = Some x0 → active x0 → active x' → trx_id_ (s_trx x0) = trx_id_ (s_trx x') → False).
    { intros s0 x0 Hne Hs0 Ha0 Ha' E. destruct (Hid Ha') as [[Ha Ei]|Hlt].
      - apply Hne. apply (wo_distinct _ _ Hw s0 s x0 x); [done|done|done|done|congruence].
      - pose proof (so_id _ _ (wo_session _ _ Hw _ _ Hs0) Ha0). lia. }
    intros s1 s2 x1 x2 [[<- <-]|[Hn1 Hs1]]%lookup_insert_Some [[<- <-]|[Hn2 Hs2]]%lookup_insert_Some Ha1 Ha2 E; [done| | |].
    + exfalso. by eapply (Hnew s2 x2).
    + exfalso. by eapply (Hnew s1 x1).
    + by eapply (wo_distinct _ _ Hw).
  - intros s0 x0 op [[<- <-]|[Hne Hs0]]%lookup_insert_Some Hop; [by apply Hown|]. by eapply Hoth.
Qed.

(** A step that writes no row. *)
Lemma world_silent w ms s x x' w' :
  world_ok w ms → w_sessions w !! s = Some x → w_sessions w' = <[s := x']> (w_sessions w) → w_current w ≤ w_current w' < MAX_TRX_ID →
  session_ok (w_current w') x' → untouched (w_db w) ms (w_db w') ms →
  (active x' → (active x ∧ trx_id_ (s_trx x') = trx_id_ (s_trx x)) ∨ w_current w < trx_id_ (s_trx x')) →
  (∀ op, op ∈ rest x ↔ op ∈ rest x') → (rest x' ≠ [] → trx_id_ (s_trx x') = trx_id_ (s_trx x)) →
  world_ok w' ms.
Proof.
  intros Hw Hs Es Hcur Hx' Hun Hid Hrest Hsame.
  assert (Hpend : ∀ u op, pending w u op → pending w' u op).
  { intros u op (s0 & x0 & Hs0 & E0 & Hop). destruct (decide (s0 = s)) as [->|Hne].
    - rewrite Hs in Hs0. injection Hs0 as <-. exists s, x'. rewrite Es, lookup_insert_eq. apply Hrest in Hop. split_and!; [done| |done].
      rewrite Hsame; [done|]. intros E. rewrite E in Hop. by apply not_elem_of_nil in Hop.
    - exists s0, x0. rewrite Es, lookup_insert_ne by done. done. }
  apply (world_step w ms s x x' w' ms); try done.
  - apply (u_db _ _ _ _ Hun).
  - intros op Hop. rewrite (u_version _ _ _ _ Hun). rewrite Hsame by (intros E; rewrite E in Hop; by apply not_elem_of_nil in Hop).
    apply (wo_pending _ _ Hw s x); [done|by apply Hrest].
  - intros s0 x0 op _ Hs0 Hop. rewrite (u_version _ _ _ _ Hun). by apply (wo_pending _ _ Hw s0 x0).
  - intros id rid b e Hv. rewrite (u_version _ _ _ _ Hun) in Hv. destruct (wo_rows _ _ Hw _ _ _ _ Hv) as [Hb He Ho]. split; [| |done].
    + destruct Hb as [?|(u & ? & Hp)]; [left; lia|right]. exists u. split; [done|by apply Hpend].
    + destruct He as [?|[?|(u & ? & Hp)]]; [left; lia|right; by left|right; right]. exists u. split; [done|by apply Hpend].
Qed.

(** A step that writes one row. *)
Lemma world_touch w ms s x x' w' ms' id rid old new :
  world_ok w ms → w_sessions w !! s = Some x → w_sessions w' = <[s := x']> (w_sessions w) → w_current w' = w_current w →
  session_ok (w_current w) x' → touched (w_db w) ms (w_db w') ms' id rid old new →
  active x → trx_id_ (s_trx x') = trx_id_ (s_trx x) →
  (∀ op, (op_table op, op_rid op) ≠ (id, rid) → op ∈ rest x' ↔ op ∈ rest x) →
  (∀ op, op ∈ rest x' → (op_table op, op_rid op) = (id, rid) → op_version (trx_id_ (s_trx x')) op new) →
  (∀ u op, u ≠ trx_id_ (s_trx x) → pending w u op → (op_table op, op_rid op) = (id, rid) → op_version u op new) →
  (∀ b e, new = Some (b, e) → version_ok w' id rid b e) →
  world_ok w' ms'.
Proof.
  intros Hw Hs Es Ecur Hx' Ht Hact Hid Hrest Hown Hoth Hnew.
  assert (Hpend : ∀ u op, (op_table op, op_rid op) ≠ (id, rid) → pending w u op → pending w' u op).
  { intros u op Hne (s0 & x0 & Hs0 & E0 & Hop). destruct (decide (s0 = s)) as [->|Hns].
    - rewrite Hs in Hs0. injection Hs0 as <-. exists s, x'. rewrite Es, lookup_insert_eq. split_and!; [done|congruence|by apply Hrest].
    - exists s0, x0. rewrite Es, lookup_insert_ne by done. done. }
  pose proof (wo_current _ _ Hw).
  apply (world_step w ms s x x' w' ms'); rewrite ?Ecur; try done; [lia|by apply Ht|intros _; by left| | |].
  - intros op Hop. destruct (decide ((op_table op, op_rid op) = (id, rid))) as [E|Hne].
    + injection E as <- <-. rewrite (t_new _ _ _ _ _ _ _ _ Ht). by apply Hown.
    + destruct (t_others _ _ _ _ _ _ _ _ Ht _ _ Hne) as [-> _]. rewrite Hid. apply (wo_pending _ _ Hw s x); [done|by apply Hrest].
  - intros s0 x0 op Hns Hs0 Hop. destruct (decide ((op_table op, op_rid op) = (id, rid))) as [E|Hne].
    + injection E as <- <-. rewrite (t_new _ _ _ _ _ _ _ _ Ht). destruct (decide (trx_id_ (s_trx x0) = trx_id_ (s_trx x))) as [Ei|Hni].
      * exfalso. apply Hns. apply (wo_distinct _ _ Hw s0 s x0 x); try done. by eapply rest_active.
      * apply Hoth; [done| |done]. by exists s0, x0.
    + destruct (t_others _ _ _ _ _ _ _ _ Ht _ _ Hne) as [-> _]. by apply (wo_pending _ _ Hw s0 x0).
  - intros i r b e Hv. destruct (decide ((i, r) = (id, rid))) as [[= -> ->]|Hne].
    + rewrite (t_new _ _ _ _ _ _ _ _ Ht) in Hv. by apply Hnew.
    + destruct (t_others _ _ _ _ _ _ _ _ Ht _ _ Hne) as [E _]. rewrite E in Hv. destruct (wo_rows _ _ Hw _ _ _ _ Hv) as [Hb He Ho]. split; [| |done]; rewrite Ecur.
      * destruct Hb as [?|(u & ? & Hp)]; [by left|right]. exists u. split; [done|by apply Hpend].
      * destruct He as [?|[?|(u & ? & Hp)]]; [by left|right; by left|right; right]. exists u. split; [done|by apply Hpend].
Qed.

(** ** Steps *)

(** The scope of the theorems on runs, not a part of the code: an inserted row fits ([row_fits]); the deleted row is there and was
    not inserted and deleted by the same transaction; the counter does not overflow. *)
Definition fits (w : World) (ms : Rows) (a : Action) : Prop :=
  match a with
  | Begin _ | StartCommit _ => w_current w + 1 < MAX_TRX_ID
  | Insert _ id row => ∃ dt m, w_db w !! id = Some dt ∧ ms !! id = Some m ∧ row_fits dt m row
  | Delete s id rid => ∃ b e, version (w_db w) ms id rid = Some (b, e) ∧
      ∀ x, w_sessions w !! s = Some x → ¬ (b = - trx_id_ (s_trx x) ∧ e = - trx_id_ (s_trx x))
  | _ => True
  end.

(** What a step does to the rows. *)
Definition effect (w : World) (ms : Rows) (a : Action) (w' : World) (ms' : Rows) : Prop :=
  (ms' = ms ∧ untouched (w_db w) ms (w_db w') ms) ∨
  ∃ x id rid old new, w_sessions w !! actor a = Some x ∧ active x ∧ touched (w_db w) ms (w_db w') ms' id rid old new ∧
    version_step (trx_id_ (s_trx x)) (s_phase x) old new ∧ (∀ v, s_phase x = Running → old = Some v → a = Delete (actor a) id rid).

Lemma untouched_refl db ms : db_ok db ms → untouched db ms db ms.
Proof. by split. Qed.

Lemma rev_reverse {A} (l : list A) : rev l = reverse l.
Proof. apply rev_alt. Qed.

Lemma ins_first_nil : ins_first [].
Proof. intros [|] l2 i r E; done. Qed.

Lemma ins_first_delete ops i r : ins_first ops → ins_first (ops ++ [mkOperation OP_DELETE i r]).
Proof.
  intros Ho l1 l2 i' r' E. destruct l2 as [|y l2' _] using rev_ind; [by apply app_inj_tail in E as [_ ?]|].
  rewrite app_comm_cons, app_assoc in E. apply app_inj_tail in E as [E _]. by eapply Ho.
Qed.

Lemma ins_first_insert ops i r : ins_first ops → mkOperation OP_DELETE i r ∉ ops → ins_first (ops ++ [mkOperation OP_INSERT i r]).
Proof.
  intros Ho Hn l1 l2 i' r' E. destruct l2 as [|y l2' _] using rev_ind; [by apply app_inj_tail in E as [-> [= -> ->]]|].
  rewrite app_comm_cons, app_assoc in E. apply app_inj_tail in E as [E _]. by eapply Ho.
Qed.

Lemma ins_first_tail op ops : ins_first (op :: ops) → ins_first ops.
Proof. intros Ho l1 l2 i r -> Hin. apply (Ho (op :: l1) l2 i r eq_refl). by right. Qed.

Lemma ins_first_init op ops : ins_first (ops ++ [op]) → ins_first ops.
Proof. intros Ho l1 l2 i r ->. apply (Ho l1 (l2 ++ [op])). by rewrite <- app_assoc. Qed.

(** An operation with its own fields. *)
Lemma op_eta op i r : (op_table op, op_rid op) = (i, r) → op = mkOperation (op_type op) i r.
Proof. destruct op. cbn. by intros [= -> ->]. Qed.

Lemma id_ok_of w ms s x : world_ok w ms → w_sessions w !! s = Some x → active x → id_ok (trx_id_ (s_trx x)).
Proof. intros Hw Hs Ha. pose proof (so_id _ _ (wo_session _ _ Hw _ _ Hs) Ha). pose proof (wo_current _ _ Hw). unfold id_ok. lia. Qed.

Lemma visit_success u b e : 0 < u → visit_code u b e READ_WRITE = RC_SUCCESS → is_int32 b → b ≠ INT32_MIN → e ≠ 0 → b ≠ 0 →
  (0 < b ≤ u ∧ u ≤ e) ∨ b = - u.
Proof.
  unfold visit_code, is_int32, INT32_MIN, INT32_MAX. intros Hu E Hb Hb' He Hb0. destruct (0 <? b) eqn:E1, (0 <? e) eqn:E2; cbn [andb] in E; zify_bool.
  - destruct (b <=? u) eqn:E3, (u <=? e) eqn:E4; try done. zify_bool. left. lia.
  - destruct (b <? 0) eqn:E3; zify_bool; [lia|]. destruct (e <? 0) eqn:E4; zify_bool; [|lia]. by destruct (negb _).
  - destruct (b <? 0) eqn:E3; zify_bool; [|lia]. destruct (_ =? u) eqn:E4; zify_bool; [|done]. rewrite to_int32_small in E4 by (unfold is_int32, INT32_MIN, INT32_MAX; lia). right. lia.
  - destruct (b <? 0) eqn:E3; zify_bool; [|lia]. destruct (_ =? u) eqn:E4; zify_bool; [|done]. rewrite to_int32_small in E4 by (unfold is_int32, INT32_MIN, INT32_MAX; lia). right. lia.
Qed.

(** The numbers in the rows are in range and not 0. *)
Lemma version_range w ms id rid b e : world_ok w ms → version (w_db w) ms id rid = Some (b, e) →
  - w_current w ≤ b ≤ w_current w ∧ b ≠ 0 ∧ - w_current w ≤ e ≤ MAX_TRX_ID ∧ e ≠ 0.
Proof.
  intros Hw Hv. pose proof (wo_current _ _ Hw) as Hc. destruct (wo_rows _ _ Hw _ _ _ _ Hv) as [Hb He _]. unfold MAX_TRX_ID, INT32_MAX in *. split_and!.
  1, 2, 3: destruct Hb as [?|(u & -> & Hp)]; [lia|pose proof (pending_id _ _ _ _ Hw Hp); lia].
  all: destruct He as [?|[->|(u & -> & Hp)]]; [lia|unfold MAX_TRX_ID, INT32_MAX in *; lia|pose proof (pending_id _ _ _ _ Hw Hp); lia].
Qed.

Lemma begin_step w ms s x : world_ok w ms → w_sessions w !! s = Some x → s_phase x = Running → fits w ms (Begin s) →
  ∃ w', exec w (Begin s) = Some w' ∧ world_ok w' ms ∧ effect w ms (Begin s) w' ms.
Proof.
  intros Hw Hs Hp Hf. pose proof (wo_session _ _ Hw _ _ Hs) as Hx. unfold exec. cbn [actor]. rewrite Hs, Hp. pose proof (wo_current _ _ Hw) as Hcur. cbn in Hf.
  unfold start_if_need. destruct (started_ (s_trx x)) eqn:Est; cbn [mbind option_bind].
  - eexists. split; [done|]. split; [|left; split; [done|]; apply untouched_refl, Hw]. destruct x as [trx ph]. cbn in *. subst ph.
    apply (world_silent w ms s (mkSession trx Running) (mkSession trx Running)); try done; [cbn; lia|apply untouched_refl, Hw|by left].
  - assert (Hops : operations_ (s_trx x) = []) by (apply (so_idle _ _ Hx); intros Ha; specialize (Ha Hp); congruence). rewrite Hops. cbn [mbind option_bind].
    assert (En : next_trx_id (w_current w) = w_current w + 1).
    { unfold next_trx_id. apply to_int32_small. unfold is_int32, MAX_TRX_ID, INT32_MAX, INT32_MIN in *. lia. }
    rewrite En. eexists. split; [done|]. split; [|left; split; [done|]; apply untouched_refl, Hw].
    apply (world_silent w ms s x (mkSession (mkTrx (w_current w + 1) true (recovering_ (s_trx x)) []) Running)); try done.
    + cbn. lia.
    + split; cbn; try done; [apply Hx|lia|constructor|apply ins_first_nil].
    + apply untouched_refl, Hw.
    + cbn. right. lia.
    + unfold rest. cbn. by rewrite Hp, Hops.
Qed.

Lemma start_commit_step w ms s x : world_ok w ms → w_sessions w !! s = Some x → s_phase x = Running → fits w ms (StartCommit s) →
  ∃ w', exec w (StartCommit s) = Some w' ∧ world_ok w' ms ∧ effect w ms (StartCommit s) w' ms.
Proof.
  intros Hw Hs Hp Hf. pose proof (wo_session _ _ Hw _ _ Hs) as Hx. unfold exec. cbn [actor]. rewrite Hs, Hp. pose proof (wo_current _ _ Hw) as Hcur. cbn in Hf.
  destruct (started_ (s_trx x)) eqn:Est; [|by exists w; split; [done|]; split; [done|]; left; split; [done|]; apply untouched_refl, Hw].
  assert (En : next_trx_id (w_current w) = w_current w + 1).
  { unfold next_trx_id. apply to_int32_small. unfold is_int32, MAX_TRX_ID, INT32_MAX, INT32_MIN in *. lia. }
  rewrite En. eexists. split; [done|]. split; [|left; split; [done|]; apply untouched_refl, Hw].
  assert (Ha : active x) by (by intros _). destruct Hx as [Hl Hi Hid Hn Ho Hc Hst].
  assert (Er : rest x = operations_ (s_trx x)) by (unfold rest; by rewrite Hp). specialize (Hi Ha).
  apply (world_silent w ms s x (mkSession (set_started (s_trx x) false) (Committing (w_current w + 1) (operations_ (s_trx x))))); try done.
  - cbn. lia.
  - split; cbn; try done; [lia|intros Hna; exfalso; by apply Hna|by rewrite <- Er| |intros c r [= <- <-]; lia].
    unfold program_order in *. cbn. rewrite Hp, Er in Ho. done.
  - apply untouched_refl, Hw.
  - by left.
  - intros op. by rewrite Er.
Qed.

Lemma start_rollback_step w ms s x : world_ok w ms → w_sessions w !! s = Some x → s_phase x = Running →
  ∃ w', exec w (StartRollback s) = Some w' ∧ world_ok w' ms ∧ effect w ms (StartRollback s) w' ms.
Proof.
  intros Hw Hs Hp. pose proof (wo_session _ _ Hw _ _ Hs) as Hx. unfold exec. cbn [actor]. rewrite Hs, Hp. pose proof (wo_current _ _ Hw) as Hcur.
  destruct (started_ (s_trx x)) eqn:Est; [|by exists w; split; [done|]; split; [done|]; left; split; [done|]; apply untouched_refl, Hw].
  eexists. split; [done|]. split; [|left; split; [done|]; apply untouched_refl, Hw].
  assert (Ha : active x) by (by intros _). destruct Hx as [Hl Hi Hid Hn Ho Hc Hst].
  assert (Er : rest x = operations_ (s_trx x)) by (unfold rest; by rewrite Hp). specialize (Hi Ha).
  apply (world_silent w ms s x (mkSession (set_started (s_trx x) false) (RollingBack (rev (operations_ (s_trx x)))))); try done.
  - cbn. lia.
  - split; cbn; try done; [intros Hna; exfalso; by apply Hna| |].
    + rewrite <- Er. rewrite rev_reverse. eapply NoDup_Permutation_proper; [apply reverse_Permutation|done].
    + unfold program_order in *. cbn. rewrite rev_involutive. rewrite Hp, Er in Ho. done.
  - apply untouched_refl, Hw.
  - by left.
  - intros op. rewrite Er. cbn. rewrite rev_reverse. by rewrite elem_of_reverse.
Qed.

Lemma finish_step w ms s x l' : world_ok w ms → w_sessions w !! s = Some x → s_phase x ≠ Running → rest x = [] →
  let w' := set_session (set_store w (w_db w) l') s (mkSession (set_operations (s_trx x) []) Running) in
  world_ok w' ms ∧ ∀ a, effect w ms a w' ms.
Proof.
  intros Hw Hs Hp Hr w'. split; [|intros a; left; split; [done|]; apply untouched_refl, Hw].
  pose proof (wo_session _ _ Hw _ _ Hs) as [Hl Hi Hid Hn Ho Hc Hst]. pose proof (wo_current _ _ Hw) as Hcur.
  assert (Hna : ¬ active (mkSession (set_operations (s_trx x) []) Running)) by (intros Ha; specialize (Ha eq_refl); cbn in Ha; rewrite Hst in Ha; done).
  apply (world_silent w ms s x (mkSession (set_operations (s_trx x) []) Running)); try done.
  - cbn. lia.
  - split; cbn; try done; [constructor|apply ins_first_nil].
  - apply untouched_refl, Hw.
  - intros op. by rewrite Hr.
Qed.

Lemma insert_step w ms s x id row : world_ok w ms → w_sessions w !! s = Some x → s_phase x = Running → started_ (s_trx x) = true →
  fits w ms (Insert s id row) → ∃ w' ms', exec w (Insert s id row) = Some w' ∧ world_ok w' ms' ∧ effect w ms (Insert s id row) w' ms'.
Proof.
  intros Hw Hs Hp Est (dt & m & Hd & Hm & Hfit). pose proof (wo_session _ _ Hw _ _ Hs) as [Hl Hi Hid Hn Ho Hc Hst].
  assert (Ha : active x) by (by intros _). pose proof (id_ok_of _ _ _ _ Hw Hs Ha) as Hu. pose proof (wo_current _ _ Hw) as Hcur.
  assert (Er : rest x = operations_ (s_trx x)) by (unfold rest; by rewrite Hp).
  destruct (insert_record_steps (s_trx x) (w_db w) ms (w_log w) id dt m row (wo_db _ _ Hw) Hd Hm Hu Hfit)
    as (rc & trx' & db' & l' & r & ms' & E & [(rid & -> & -> & Hv & -> & Ht & Hval)|(Hrc & -> & -> & -> & Hun)]);
    unfold exec; cbn [actor]; rewrite Hs, Hp, Est, E; cbn [mbind option_bind].
  - set (x' := mkSession _ Running). assert (Er' : rest x' = rest x ++ [mkOperation OP_INSERT id rid]) by (rewrite Er; done).
    assert (Hfresh : ∀ u op, pending w u op → (op_table op, op_rid op) ≠ (id, rid)).
    { intros u op (s0 & x0 & Hs0 & <- & Hop) [= <- <-]. destruct (wo_pending _ _ Hw _ _ _ Hs0 Hop) as (b & e & Hve & _).
      rewrite (t_old _ _ _ _ _ _ _ _ Ht) in Hve. done. }
    assert (Hfr : ∀ op, op ∈ rest x → (op_table op, op_rid op) ≠ (id, rid)) by (intros op Hop; apply (Hfresh (trx_id_ (s_trx x))); by exists s, x).
    assert (Hw' : world_ok (set_session (set_store w db' l') s x') ms').
    { eapply (world_touch w ms s x x' _ ms' id rid); try done; try exact Ht.
      - split; try done; [intros _; by apply Hi|intros Hna; exfalso; apply Hna; by intros _| |].
        + rewrite Er'. apply NoDup_app. split; [done|]. split; [|apply NoDup_singleton]. intros op Hop ->%list_elem_of_singleton. by apply (Hfr _ Hop).
        + unfold program_order in *. cbn [s_phase x'] in *. rewrite Hp in Ho. rewrite Er'. apply ins_first_insert; [done|]. intros Hin. by apply (Hfr _ Hin).
      - intros op Hne. rewrite Er', elem_of_app, list_elem_of_singleton. split; [|by left]. by intros [?| ->].
      - intros op Hop Hcell. rewrite Er' in Hop. apply elem_of_app in Hop as [Hop|Hop]; [by destruct (Hfr _ Hop)|].
        apply list_elem_of_singleton in Hop as ->. by do 2 eexists.
      - intros u op _ Hp' Hcell. by destruct (Hfresh _ _ Hp').
      - intros b e [= <- <-]. split; [right|right; by left|by left]. exists (trx_id_ (s_trx x)). split; [done|]. exists s, x'. cbn [w_sessions set_session set_store].
        rewrite lookup_insert_eq. split_and!; [done|done|]. rewrite Er'. apply elem_of_app. right. by left. }
    eexists _, ms'. split; [done|]. split; [done|]. right. exists x, id, rid, None, (Some (- trx_id_ (s_trx x), MAX_TRX_ID)). split; [done|]. split; [done|]. split; [done|].
    split; [rewrite Hp; constructor|done].
  - eexists _, ms. split; [done|]. split; [|left; by split].
    apply (world_silent w ms s x (mkSession (s_trx x) Running)); try done.
    + cbn. lia.
    + destruct x as [trx ph]. cbn in *. subst ph. exact (wo_session _ _ Hw _ _ Hs).
    + by left.
    + intros op. by rewrite Er.
Qed.

Lemma delete_step w ms s x id rid : world_ok w ms → w_sessions w !! s = Some x → s_phase x = Running → started_ (s_trx x) = true →
  fits w ms (Delete s id rid) → ∃ w' ms', exec w (Delete s id rid) = Some w' ∧ world_ok w' ms' ∧ effect w ms (Delete s id rid) w' ms'.
Proof.
  intros Hw Hs Hp Est (b & e & Hv & Hown). specialize (Hown x Hs). pose proof (wo_session _ _ Hw _ _ Hs) as [Hl Hi Hid Hn Ho Hc Hst].
  assert (Ha : active x) by (by intros _). pose proof (id_ok_of _ _ _ _ Hw Hs Ha) as Hu. pose proof (wo_current _ _ Hw) as Hcur.
  assert (Er : rest x = operations_ (s_trx x)) by (unfold rest; by rewrite Hp).
  destruct (delete_record_steps (s_trx x) (w_db w) ms (w_log w) id rid b e (wo_db _ _ Hw) Hv Hu)
    as (rc & trx' & db' & l' & ms' & E & Erc & [(-> & -> & Ht)|(Hrc & -> & -> & Hun)]);
    unfold exec; cbn [actor]; rewrite Hs, Hp, Est, E; cbn [mbind option_bind].
  - set (x' := mkSession _ Running). assert (Er' : rest x' = rest x ++ [mkOperation OP_DELETE id rid]) by (rewrite Er; done).
    destruct (version_range _ _ _ _ _ _ Hw Hv) as (Hb & Hb0 & He & He0). unfold MAX_TRX_ID, INT32_MAX in Hcur.
    assert (Hcase : (0 < b ≤ trx_id_ (s_trx x) ∧ trx_id_ (s_trx x) ≤ e) ∨ b = - trx_id_ (s_trx x)).
    { apply visit_success; unfold is_int32, INT32_MIN, INT32_MAX; try done; try lia. apply Hu. }
    destruct (wo_rows _ _ Hw _ _ _ _ Hv) as [Vb Ve Vo]. pose proof (proj1 Hu) as Hpos.
    assert (He' : - trx_id_ (s_trx x) ≠ e) by (intros E'; destruct Hcase as [?|?]; [lia|]; apply Hown; split; congruence).
    (* no deletion is pending *)
    assert (Hnd : ∀ u, pending w u (mkOperation OP_DELETE id rid) → False).
    { intros u Hpend. pose proof (pending_id _ _ _ _ Hw Hpend). destruct Hpend as (s0 & x0 & Hs0 & <- & Hop). destruct (wo_pending _ _ Hw _ _ _ Hs0 Hop) as (b0 & e0 & Hve & Hee). cbn in Hve, Hee. rewrite Hv in Hve.
      injection Hve as <- <-. destruct Hcase as [?|Hb1]; [lia|]. destruct (Vo ltac:(lia)) as [Hm|Hm]; [unfold MAX_TRX_ID, INT32_MAX in Hm; lia|]. congruence. }
    assert (Hndx : mkOperation OP_DELETE id rid ∉ rest x) by (intros Hin; apply (Hnd (trx_id_ (s_trx x))); by exists s, x).
    assert (Hins : ∀ u, pending w u (mkOperation OP_INSERT id rid) → b = - u).
    { intros u (s0 & x0 & Hs0 & <- & Hop). destruct (wo_pending _ _ Hw _ _ _ Hs0 Hop) as (b0 & e0 & Hve & Hbb). cbn in Hve, Hbb. rewrite Hv in Hve. by injection Hve as <- <-. }
    assert (Hw' : world_ok (set_session (set_store w db' l') s x') ms').
    { eapply (world_touch w ms s x x' _ ms' id rid); try done; try exact Ht.
      - split; try done; [intros _; by apply Hi|intros Hna; exfalso; apply Hna; by intros _| |].
        + rewrite Er'. apply NoDup_app. split; [done|]. split; [|apply NoDup_singleton]. intros op Hop ->%list_elem_of_singleton. done.
        + unfold program_order in *. cbn [s_phase x'] in *. rewrite Hp in Ho. rewrite Er'. by apply ins_first_delete.
      - intros op Hne. rewrite Er', elem_of_app, list_elem_of_singleton. split; [|by left]. by intros [?| ->].
      - intros op Hop Hcell. rewrite Er' in Hop. exists b, (- trx_id_ (s_trx x)). split; [done|]. rewrite (op_eta _ _ _ Hcell) in Hop |- *. cbn [op_type].
        apply elem_of_app in Hop as [Hop|Hop%list_elem_of_singleton]; [|by injection Hop as ->].
        destruct (wo_pending _ _ Hw _ _ _ Hs Hop) as (b0 & e0 & Hve & Hbb). cbn in Hve, Hbb. rewrite Hv in Hve. injection Hve as <- <-. by destruct (op_type op).
      - intros u op Hne Hpend Hcell. exists b, (- trx_id_ (s_trx x)). split; [done|]. rewrite (op_eta _ _ _ Hcell) in Hpend. pose proof Hpend as (s0 & x0 & Hs0 & <- & Hop).
        destruct (wo_pending _ _ Hw _ _ _ Hs0 Hop) as (b0 & e0 & Hve & Hbb). cbn in Hve, Hbb. rewrite Hv in Hve. injection Hve as <- <-. destruct (op_type op); try done.
        by destruct (Hnd _ Hpend).
      - intros b' e' [= <- <-]. split.
        + destruct Vb as [?|(u & -> & Hpend)]; [by left|]. right. exists u. split; [done|]. destruct Hpend as (s0 & x0 & Hs0 & <- & Hop). destruct (decide (s0 = s)) as [->|Hns].
          * rewrite Hs in Hs0. injection Hs0 as <-. exists s, x'. cbn [w_sessions set_session set_store]. rewrite lookup_insert_eq. split_and!; [done|done|]. rewrite Er'. apply elem_of_app. by left.
          * exists s0, x0. cbn [w_sessions set_session set_store]. by rewrite lookup_insert_ne.
        + right. right. exists (trx_id_ (s_trx x)). split; [done|]. exists s, x'. cbn [w_sessions set_session set_store]. rewrite lookup_insert_eq. split_and!; [done|done|]. rewrite Er'. apply elem_of_app. right. by left.
        + intros Hbn. right. destruct Hcase; [lia|done]. }
    eexists _, ms'. split; [done|]. split; [done|]. right. exists x, id, rid, (Some (b, e)), (Some (b, - trx_id_ (s_trx x))). split; [done|]. split; [done|]. split; [done|].
    split; [rewrite Hp; by constructor|done].
  - eexists _, ms. split; [done|]. split; [|left; by split].
    apply (world_silent w ms s x (mkSession (s_trx x) Running)); try done.
    + cbn. lia.
    + destruct x as [trx ph]. cbn in *. subst ph. exact (wo_session _ _ Hw _ _ Hs).
    + by left.
    + intros op. by rewrite Er.
Qed.

Lemma pending_op_version w ms u op v : world_ok w ms → pending w u op → version (w_db w) ms (op_table op) (op_rid op) = v → op_version u op v.
Proof. intros Hw (s & x & Hs & <- & Hop) <-. by eapply wo_pending. Qed.

(** The operation a step has finished. *)
Lemma pending_rest w ms s x x' op r w' u o : world_ok w ms → w_sessions w !! s = Some x → rest x = op :: r → rest x' = r →
  w_sessions w' = <[s := x']> (w_sessions w) → trx_id_ (s_trx x') = trx_id_ (s_trx x) → o ≠ op → pending w u o → pending w' u o.
Proof.
  intros Hw Hs Er Er' Es Ei Hne (s0 & x0 & Hs0 & <- & Hop). destruct (decide (s0 = s)) as [->|Hns].
  - rewrite Hs in Hs0. injection Hs0 as <-. exists s, x'. rewrite Es, lookup_insert_eq. split_and!; [done|done|]. rewrite Er'. rewrite Er in Hop. by apply elem_of_cons in Hop as [?|?].
  - exists s0, x0. rewrite Es, lookup_insert_ne by done. done.
Qed.

Lemma commit_step w ms s x c op r : world_ok w ms → w_sessions w !! s = Some x → s_phase x = Committing c (op :: r) →
  ∃ w' ms', exec w (CommitNext s) = Some w' ∧ world_ok w' ms' ∧ effect w ms (CommitNext s) w' ms'.
Proof.
  intros Hw Hs Hp. pose proof (wo_session _ _ Hw _ _ Hs) as [Hl Hi Hid Hn Ho Hc Hst].
  assert (Ha : active x) by (intros E; congruence). pose proof (id_ok_of _ _ _ _ Hw Hs Ha) as Hu. pose proof (wo_current _ _ Hw) as Hcur.
  assert (Er : rest x = op :: r) by (unfold rest; by rewrite Hp). pose proof (Hc _ _ Hp) as Hcc. pose proof (proj1 Hu) as Hpos.
  assert (Hcok : id_ok c) by (unfold id_ok; lia). assert (Hop : op ∈ rest x) by (rewrite Er; left).
  destruct (wo_pending _ _ Hw _ _ _ Hs Hop) as (b & e & Hv & Hbe). destruct (wo_rows _ _ Hw _ _ _ _ Hv) as [Vb Ve Vo].
  destruct (commit_operation_steps (s_trx x) (w_db w) ms c op b e (wo_db _ _ Hw) Hv Hl Hcok Hbe) as (db' & ms' & E & Ht).
  unfold exec. cbn [actor]. rewrite Hs, Hp, E. cbn [mbind option_bind].
  set (x' := mkSession (s_trx x) (Committing c r)). assert (Er' : rest x' = r) by done.
  unfold program_order in Ho. rewrite Hp, Er in Ho. rewrite Er in Hn. apply NoDup_cons in Hn as [Hnin Hn].
  set (w' := set_session _ s x').
  assert (Hkeep : ∀ u o, o ≠ op → pending w u o → pending w' u o) by (intros u o Hne; by eapply (pending_rest w ms s x x')).
  assert (Hino : op_type op = OP_DELETE → mkOperation OP_INSERT (op_table op) (op_rid op) ∉ r).
  { intros Ety Hin. apply list_elem_of_split in Hin as (l1 & l2 & ->). apply (Ho (op :: l1) l2 _ _ eq_refl). destruct op as [ty i rd]. cbn in *. subst ty. by left. }
  assert (Hw' : world_ok w' ms').
  { eapply (world_touch w ms s x x' _ ms' (op_table op) (op_rid op)); try done; try exact Ht.
    - split; cbn; [done|intros _; by apply Hi|intros Hna; exfalso; apply Hna; intros Hph; done|done|by apply ins_first_tail in Ho|intros c0 r0 [= <- <-]; done|intros _; apply Hst; congruence].
    - intros o Hne. rewrite Er, Er', elem_of_cons. split; [by right|]. intros [->|?]; done.
    - intros o Hin Hcell. rewrite Er' in Hin. destruct (wo_pending _ _ Hw s x o Hs) as (b0 & e0 & Hv0 & Hb0); [rewrite Er; by right|]. injection Hcell as E1 E2. rewrite E1, E2, Hv in Hv0. injection Hv0 as <- <-.
      destruct op as [ty i rd], o as [ty' i' rd']. cbn in *. subst i' rd'. destruct ty, ty'; try done; try (do 2 eexists; by split); exfalso; by apply Hnin.
    - intros u o Hne Hpend Hcell. injection Hcell as E1 E2. destruct (pending_op_version w ms u o (Some (b, e)) Hw Hpend) as (b0 & e0 & [= <- <-] & Hb0); [by rewrite E1, E2|].
      unfold op_version. revert Hbe Hb0. destruct (op_type op), (op_type o); intros Hbe Hb0; try done; try (do 2 eexists; by split); lia.
    - intros b' e' Hnew. destruct (op_type op) eqn:Ety; try done; injection Hnew as <- <-; split; cbn [w_current w' set_session set_store].
      + left. lia.
      + destruct Ve as [?|[?|(u & -> & Hpend)]]; [by left|right; by left|right; right]. exists u. split; [done|]. apply Hkeep; [|done]. intros E0. by rewrite <- E0 in Ety.
      + intros ?. lia.
      + destruct Vb as [?|(u & -> & Hpend)]; [by left|right]. exists u. split; [done|]. apply Hkeep; [|done]. intros E0. by rewrite <- E0 in Ety.
      + left. lia.
      + intros Hbn. exfalso. destruct (Vo Hbn) as [Hm|Hm]; [unfold MAX_TRX_ID, INT32_MAX in *; lia|]. destruct Vb as [?|(u & -> & Hpend)]; [lia|].
        apply Hino; [done|]. assert (Hin : mkOperation OP_INSERT (op_table op) (op_rid op) ∈ rest x) by (eapply (pending_owner w ms s x u); try done; lia).
        rewrite Er in Hin. apply elem_of_cons in Hin as [E0|?]; [by rewrite <- E0 in Ety|done]. }
  exists w', ms'. split; [done|]. split; [done|]. right. do 5 eexists. split; [done|]. split; [done|]. split; [exact Ht|].
  split; [|intros v E0; congruence]. rewrite Hp. revert Hbe. destruct (op_type op); intros Hbe; try done; rewrite Hbe; constructor.
Qed.

Lemma rollback_step w ms s x op r : world_ok w ms → w_sessions w !! s = Some x → s_phase x = RollingBack (op :: r) →
  ∃ w' ms', exec w (RollbackNext s) = Some w' ∧ world_ok w' ms' ∧ effect w ms (RollbackNext s) w' ms'.
Proof.
  intros Hw Hs Hp. pose proof (wo_session _ _ Hw _ _ Hs) as [Hl Hi Hid Hn Ho Hc Hst].
  assert (Ha : active x) by (intros E; congruence). pose proof (id_ok_of _ _ _ _ Hw Hs Ha) as Hu. pose proof (wo_current _ _ Hw) as Hcur.
  assert (Er : rest x = op :: r) by (unfold rest; by rewrite Hp). pose proof (proj1 Hu) as Hpos.
  assert (Hop : op ∈ rest x) by (rewrite Er; left).
  destruct (wo_pending _ _ Hw _ _ _ Hs Hop) as (b & e & Hv & Hbe). destruct (wo_rows _ _ Hw _ _ _ _ Hv) as [Vb Ve Vo].
  destruct (rollback_operation_steps (s_trx x) (w_db w) ms op b e (wo_db _ _ Hw) Hv Hl Hbe) as (db' & ms' & E & Ht).
  unfold exec. cbn [actor]. rewrite Hs, Hp, E. cbn [mbind option_bind]. rewrite bool_decide_true by done.
  set (x' := mkSession (s_trx x) (RollingBack r)). assert (Er' : rest x' = r) by done.
  unfold program_order in Ho. rewrite Hp in Ho. cbn [rev] in Ho. rewrite Er in Hn. apply NoDup_cons in Hn as [Hnin Hn].
  set (w' := set_session _ s x').
  assert (Hkeep : ∀ u o, o ≠ op → pending w u o → pending w' u o) by (intros u o Hne; by eapply (pending_rest w ms s x x')).
  assert (Hino : op_type op = OP_INSERT → mkOperation OP_DELETE (op_table op) (op_rid op) ∉ r).
  { intros Ety Hin. apply (Ho (rev r) [] (op_table op) (op_rid op)); [destruct op; cbn in *; by subst|]. rewrite rev_reverse. by apply elem_of_reverse. }
  assert (Hw' : world_ok w' ms').
  { eapply (world_touch w ms s x x' _ ms' (op_table op) (op_rid op)); try done; try exact Ht.
    - split; cbn; [done|intros _; by apply Hi|intros Hna; exfalso; apply Hna; intros Hph; done|done|by eapply ins_first_init|done|intros _; apply Hst; congruence].
    - intros o Hne. rewrite Er, Er', elem_of_cons. split; [by right|]. intros [->|?]; done.
    - intros o Hin Hcell. rewrite Er' in Hin. destruct (wo_pending _ _ Hw s x o Hs) as (b0 & e0 & Hv0 & Hb0); [rewrite Er; by right|]. injection Hcell as E1 E2. rewrite E1, E2, Hv in Hv0. injection Hv0 as <- <-.
      destruct op as [ty i rd], o as [ty' i' rd']. cbn in *. subst i' rd'. destruct ty, ty'; try done; try (do 2 eexists; by split); exfalso; try (by apply Hnin). by apply Hino.
    - intros u o Hne Hpend Hcell. injection Hcell as E1 E2. destruct (pending_op_version w ms u o (Some (b, e)) Hw Hpend) as (b0 & e0 & [= <- <-] & Hb0); [by rewrite E1, E2|].
      pose proof (pending_id _ _ _ _ Hw Hpend) as Hup.
      unfold op_version. revert Hbe Hb0. destruct (op_type op), (op_type o); intros Hbe Hb0; try done; try (do 2 eexists; by split); lia.
    - intros b' e' Hnew. destruct (op_type op) eqn:Ety; try done; injection Hnew as <- <-; split; cbn [w_current w' set_session set_store].
      + destruct Vb as [?|(u & -> & Hpend)]; [by left|right]. exists u. split; [done|]. apply Hkeep; [|done]. intros E0. by rewrite <- E0 in Ety.
      + right. by left.
      + intros _. by left. }
  exists w', ms'. split; [done|]. split; [done|]. right. do 5 eexists. split; [done|]. split; [done|]. split; [exact Ht|].
  split; [|intros v E0; congruence]. rewrite Hp. revert Hbe. destruct (op_type op); intros Hbe; try done; rewrite Hbe; constructor.
Qed.

Lemma commit_end w ms s x c : world_ok w ms → w_sessions w !! s = Some x → s_phase x = Committing c [] →
  ∃ w', exec w (CommitNext s) = Some w' ∧ world_ok w' ms ∧ effect w ms (CommitNext s) w' ms.
Proof.
  intros Hw Hs Hp. pose proof (wo_session _ _ Hw _ _ Hs) as [Hl Hi Hid Hn Ho Hc Hst]. pose proof (Hc _ _ Hp) as Hcc.
  assert (Ha : active x) by (intros E; congruence). pose proof (id_ok_of _ _ _ _ Hw Hs Ha) as Hu.
  unfold exec. cbn [actor]. rewrite Hs, Hp, Hl. unfold log_commit. rewrite (proj2 (Z.ltb_lt _ _)), (proj2 (Z.ltb_lt _ _)) by (try apply Hu; lia). cbn [andb].
  assert (∃ l' rc, (let '(l, rc, lsn) := sink_append (w_log w) (module_index TRANSACTION) (commit_log_entry COMMIT (trx_id_ (s_trx x)) c) in
     if OB_FAIL rc then Some (l, rc) else Some (log_wait l lsn)) = Some (l', rc)) as (l' & rc & ->).
  { destruct (sink_append _ _ _) as [[l1 rc] n]. destruct (OB_FAIL rc); [eauto|]. destruct (log_wait l1 n). eauto. }
  cbn [mbind option_bind]. eexists. split; [done|]. destruct (finish_step w ms s x l' Hw Hs) as [? ?]; [congruence|unfold rest; by rewrite Hp|]. by split.
Qed.

Lemma rollback_end w ms s x : world_ok w ms → w_sessions w !! s = Some x → s_phase x = RollingBack [] →
  ∃ w', exec w (RollbackNext s) = Some w' ∧ world_ok w' ms ∧ effect w ms (RollbackNext s) w' ms.
Proof.
  intros Hw Hs Hp. pose proof (wo_session _ _ Hw _ _ Hs) as [Hl Hi Hid Hn Ho Hc Hst].
  assert (Ha : active x) by (intros E; congruence). pose proof (id_ok_of _ _ _ _ Hw Hs Ha) as Hu.
  unfold exec. cbn [actor]. rewrite Hs, Hp, Hl. unfold log_rollback. rewrite (proj2 (Z.ltb_lt _ _)) by apply Hu.
  destruct (sink_append _ _ _) as [[l1 rc] n]. cbn [mbind option_bind]. eexists. split; [done|].
  destruct (finish_step w ms s x l1 Hw Hs) as [? ?]; [congruence|unfold rest; by rewrite Hp|]. by split.
Qed.

Lemma exec_ok w ms a : world_ok w ms → fits w ms a → ∃ w' ms', exec w a = Some w' ∧ world_ok w' ms' ∧ effect w ms a w' ms'.
Proof.
  intros Hw Hf. assert (Hsame : ∃ w' ms', Some w = Some w' ∧ world_ok w' ms' ∧ effect w ms a w' ms').
  { exists w, ms. split; [done|]. split; [done|]. left. split; [done|]. apply untouched_refl, Hw. }
  destruct (w_sessions w !! actor a) as [x|] eqn:Hs; [|unfold exec; by rewrite Hs].
  destruct (s_phase x) as [|c [|op r]|[|op r]] eqn:Hp; destruct a; cbn [actor] in Hs;
    try (unfold exec; cbn [actor]; rewrite Hs, Hp; exact Hsame).
  - destruct (begin_step w ms s x Hw Hs Hp Hf) as (? & ? & ? & ?). eauto.
  - destruct (started_ (s_trx x)) eqn:Est; [by eapply insert_step|]. unfold exec. cbn [actor]. rewrite Hs, Hp, Est. exact Hsame.
  - destruct (started_ (s_trx x)) eqn:Est; [by eapply delete_step|]. unfold exec. cbn [actor]. rewrite Hs, Hp, Est. exact Hsame.
  - destruct (start_commit_step w ms s x Hw Hs Hp Hf) as (? & ? & ? & ?). eauto.
  - destruct (start_rollback_step w ms s x Hw Hs Hp) as (? & ? & ? & ?). eauto.
  - destruct (commit_end w ms s x c Hw Hs Hp) as (? & ? & ? & ?). eauto.
  - by eapply commit_step.
  - destruct (rollback_end w ms s x Hw Hs Hp) as (? & ? & ? & ?). eauto.
  - by eapply rollback_step.
Qed.

(** ** Runs *)

(** Steps that are used as [P] allows, from rows [ms] to rows [ms']. *)
Inductive run (P : World → Rows → Action → Prop) : World → Rows → list Action → World → Rows → Prop :=
  | run_nil w ms : run P w ms [] w ms
  | run_cons w ms a w1 ms1 acts w' ms' : P w ms a → exec w a = Some w1 → db_ok (w_db w1) ms1 → run P w1 ms1 acts w' ms' →
      run P w ms (a :: acts) w' ms'.

Lemma exec_step w ms a w' ms' : world_ok w ms → fits w ms a → exec w a = Some w' → db_ok (w_db w') ms' → world_ok w' ms' ∧ effect w ms a w' ms'.
Proof.
  intros Hw Hf E Hdb. destruct (exec_ok w ms a Hw Hf) as (w1 & ms1 & E1 & Hw1 & Heff). rewrite E in E1. injection E1 as <-.
  by rewrite (db_ok_unique _ _ _ Hdb (wo_db _ _ Hw1)).
Qed.

Lemma run_ok P w ms acts w' ms' : (∀ w ms a, P w ms a → fits w ms a) → run P w ms acts w' ms' → world_ok w ms → world_ok w' ms'.
Proof. intros HP. induction 1 as [|w ms a w1 ms1 acts w' ms' Hp E Hdb _ IH]; [done|]. intros Hw. apply IH. by eapply exec_step; eauto. Qed.

(** The session that does not act. *)
Lemma exec_others w a w' s : exec w a = Some w' → s ≠ actor a → w_sessions w' !! s = w_sessions w !! s.
Proof.
  unfold exec. intros E Hne. destruct (w_sessions w !! actor a) as [x|]; [|by injection E as <-].
  destruct a; destruct (s_phase x) as [|c [|op r]|[|op r]]; try (by injection E as <-); cbn [actor] in *; revert E;
    repeat (case_match; try done); try (intros [= <-]; cbn; by rewrite ?lookup_insert_ne);
    match goal with |- mbind _ ?e = _ → _ => destruct e as [r0|]; [|done]; cbn [mbind option_bind]; destruct_or?; try (repeat case_match); intros E; try done; injection E as <-; cbn; by rewrite ?lookup_insert_ne end.
Qed.

(** What a commit number can be. *)
Lemma exec_commits w a w' x c r : exec w a = Some w' → w_sessions w' !! actor a = Some x → s_phase x = Committing c r →
  c = next_trx_id (w_current w) ∨ ∃ x0 r0, w_sessions w !! actor a = Some x0 ∧ s_phase x0 = Committing c r0.
Proof.
  unfold exec. intros E Hx Hp. destruct (w_sessions w !! actor a) as [x0|] eqn:E0; [|injection E as <-; by rewrite E0 in Hx].
  destruct (s_phase x0) as [|c0 l|l] eqn:Ep.
  - destruct a; cbn [actor] in *; revert E; repeat (case_match; try done); try (intros [= <-]; cbn in Hx; rewrite ?lookup_insert_eq in Hx; try (rewrite E0 in Hx); injection Hx as <-; cbn in Hp; try congruence; left; congruence);
      match goal with |- mbind _ ?e = _ → _ => destruct e as [r0|]; [|done]; cbn [mbind option_bind]; try (repeat case_match); intros E; try done; injection E as <-; cbn in Hx; rewrite lookup_insert_eq in Hx; injection Hx as <-; done end.
  - right. exists x0, l. split; [done|]. rewrite Ep. f_equal.
    destruct a; cbn [actor] in *; try (injection E as <-; rewrite E0 in Hx; injection Hx as <-; congruence). destruct l as [|op l].
    + destruct (if recovering_ (s_trx x0) then _ else _) as [[l' rc]|]; [|done]. injection E as <-. cbn in Hx. rewrite lookup_insert_eq in Hx. by injection Hx as <-.
    + destruct (commit_operation _ _ _ _) as [db|]; [|done]. injection E as <-. cbn in Hx. rewrite lookup_insert_eq in Hx. injection Hx as <-. cbn in Hp. congruence.
  - destruct a; cbn [actor] in *; try (injection E as <-; rewrite E0 in Hx; injection Hx as <-; congruence). destruct l as [|op l].
    + destruct (if recovering_ (s_trx x0) then _ else _) as [[l' rc]|]; [|done]. injection E as <-. cbn in Hx. rewrite lookup_insert_eq in Hx. by injection Hx as <-.
    + destruct (rollback_operation _ _ _ _) as [[db [rc|rc]]|]; cbn [mbind option_bind] in E; [done| |done]. destruct (bool_decide _); [|done]. injection E as <-. cbn in Hx. rewrite lookup_insert_eq in Hx. by injection Hx as <-.
Qed.

(** ** What a transaction sees *)

(** The rows of the snapshot of the transaction [t]: those committed up to it and not deleted then, and its own. *)
Definition sees (t : Z) (v : Z * Z) : bool :=
  let '(b, e) := v in (b =? - t) || ((0 <? b) && (b <=? t) && (if 0 <? e then t <=? e else negb (e =? - t))).

Definition seen (t : Z) db ms (id : Z) (rid : RID) : option (list (list Z)) :=
  v ← version db ms id rid; if sees t v then values db ms id rid else None.

(** A deletion of a row whose deletion is not yet committed. *)
Definition calm (w : World) (ms : Rows) (a : Action) : Prop :=
  match a with
  | Delete _ id rid => ∀ b e, version (w_db w) ms id rid = Some (b, e) → 0 < e → e = MAX_TRX_ID
  | _ => True
  end.

(** Every commit under way has a greater number. *)
Definition late (w : World) (t : Z) : Prop := ∀ s x c r, w_sessions w !! s = Some x → s_phase x = Committing c r → t < c.

(** A row that [MvccTrx::visit_record] shows although it was committed later: someone is deleting it. *)
Definition premature (t : Z) (v : Z * Z) : Prop := t < v.1 ∧ v.2 < 0 ∧ v.2 ≠ - t.

Lemma visit_code_sees w ms id rid b e t : world_ok w ms → 0 < t ≤ w_current w → version (w_db w) ms id rid = Some (b, e) →
  visit_code t b e READ_ONLY = RC_SUCCESS ↔ sees t (b, e) = true ∨ premature t (b, e).
Proof.
  intros Hw Ht Hv. destruct (version_range _ _ _ _ _ _ Hw Hv) as (Hb & Hb0 & He & He0). pose proof (wo_current _ _ Hw) as Hc.
  unfold MAX_TRX_ID, INT32_MAX in *. unfold visit_code, sees, premature. cbn [fst snd].
  rewrite !to_int32_small by (unfold is_int32, INT32_MIN, INT32_MAX; lia).
  destruct (0 <? b) eqn:E1, (0 <? e) eqn:E2, (b <? 0) eqn:E3, (e <? 0) eqn:E4; zify_bool; try lia; cbn [andb orb negb];
    repeat match goal with |- context [?a <=? ?b] => destruct (a <=? b) eqn:?; zify_bool | |- context [?a =? ?b] => destruct (a =? b) eqn:?; zify_bool end;
    cbn [andb orb negb]; split; intros; try done; try (left; done); try (right; lia); try lia; naive_solver lia.
Qed.

(** A step of another transaction keeps the snapshot. *)
Lemma version_step_sees u t ph old new : u ≠ t → 0 < t ≤ MAX_TRX_ID → 0 < u →
  (∀ c r, ph = Committing c r → t < c) → (∀ b e, ph = Running → old = Some (b, e) → 0 < e → e = MAX_TRX_ID) →
  (∀ b e, old = Some (b, e) → (0 < b ∨ b < 0) ∧ e ≠ 0 ∧ is_int32 b ∧ b ≠ INT32_MIN) →
  version_step u ph old new → (sees t <$> old) = Some true ↔ (sees t <$> new) = Some true.
Proof.
  intros Hne Ht Hu Hc Hcalm Hr Hs. unfold sees. destruct Hs as [|b e Hvis|c rest0 e|c rest0 b|rest0 e|rest0 b]; cbn [fmap option_fmap option_map].
  - split; [done|]. intros [= E]. apply orb_true_iff in E as [E|E]; zify_bool; [lia|]. apply andb_true_iff in E as [E _]. apply andb_true_iff in E as [E _]. zify_bool. lia.
  - destruct (Hr b e eq_refl) as (Hb & He0 & Hbi & Hbm). destruct (visit_success u b e Hu Hvis Hbi Hbm He0 ltac:(lia)) as [[Hbp Hep]| ->].
    + specialize (Hcalm b e eq_refl eq_refl ltac:(lia)) as ->. rewrite (proj2 (Z.ltb_lt 0 MAX_TRX_ID)), (proj2 (Z.leb_le t MAX_TRX_ID)) by (unfold MAX_TRX_ID, INT32_MAX in *; lia).
      rewrite (proj2 (Z.ltb_ge 0 (- u))), (proj2 (Z.eqb_neq (- u) (- t))) by lia. done.
    + rewrite (proj2 (Z.eqb_neq (- u) (- t))), (proj2 (Z.ltb_ge 0 (- u))) by lia. done.
  - specialize (Hc _ _ eq_refl). rewrite (proj2 (Z.eqb_neq (- u) (- t))), (proj2 (Z.ltb_ge 0 (- u))), (proj2 (Z.eqb_neq c (- t))), (proj2 (Z.leb_gt c t)) by lia. by rewrite andb_false_r.
  - specialize (Hc _ _ eq_refl). rewrite (proj2 (Z.ltb_ge 0 (- u))), (proj2 (Z.eqb_neq (- u) (- t))), (proj2 (Z.ltb_lt 0 c)), (proj2 (Z.leb_le t c)) by lia. done.
  - rewrite (proj2 (Z.eqb_neq (- u) (- t))), (proj2 (Z.ltb_ge 0 (- u))) by lia. done.
  - rewrite (proj2 (Z.ltb_ge 0 (- u))), (proj2 (Z.eqb_neq (- u) (- t))), (proj2 (Z.ltb_lt 0 MAX_TRX_ID)), (proj2 (Z.leb_le t MAX_TRX_ID)) by (unfold MAX_TRX_ID, INT32_MAX in *; lia). done.
Qed.

Lemma seen_touched t db ms db' ms' id rid old new i r : touched db ms db' ms' id rid old new →
  ((sees t <$> old) = Some true ↔ (sees t <$> new) = Some true) → seen t db' ms' i r = seen t db ms i r.
Proof.
  intros Ht Hiff. unfold seen. destruct (decide ((i, r) = (id, rid))) as [[= -> ->]|Hne]; [|destruct (t_others _ _ _ _ _ _ _ _ Ht _ _ Hne) as [-> ->]; done].
  rewrite (t_new _ _ _ _ _ _ _ _ Ht), (t_old _ _ _ _ _ _ _ _ Ht). pose proof (t_values _ _ _ _ _ _ _ _ Ht) as Hval.
  destruct old as [o|], new as [n|]; cbn in *; try done.
  - rewrite Hval by done. destruct (sees t o) eqn:E1, (sees t n) eqn:E2; try done; [by specialize (proj1 Hiff eq_refl)|by specialize (proj2 Hiff eq_refl)].
  - destruct (sees t o) eqn:E1; [by specialize (proj1 Hiff eq_refl)|done].
  - destruct (sees t n) eqn:E2; [by specialize (proj2 Hiff eq_refl)|done].
Qed.

Lemma seen_step w ms a w' ms' r x i rd : world_ok w ms → effect w ms a w' ms' → calm w ms a → w_sessions w !! r = Some x → active x →
  actor a ≠ r → late w (trx_id_ (s_trx x)) →
  seen (trx_id_ (s_trx x)) (w_db w') ms' i rd = seen (trx_id_ (s_trx x)) (w_db w) ms i rd.
Proof.
  intros Hw Heff Hcalm Hr Ha Hact Hlate. destruct Heff as [[-> Hun]|(y & id & rid & old & new & Hy & Hay & Ht & Hs & Hdel)].
  { unfold seen. by rewrite (u_version _ _ _ _ Hun), (u_values _ _ _ _ Hun). }
  eapply seen_touched; [exact Ht|]. pose proof (so_id _ _ (wo_session _ _ Hw _ _ Hr) Ha) as Hid. pose proof (wo_current _ _ Hw) as Hc.
  apply (version_step_sees (trx_id_ (s_trx y)) _ (s_phase y)); [| | | | | |done].
  - intros E. apply Hact. by apply (wo_distinct _ _ Hw (actor a) r y x).
  - lia.
  - apply (so_id _ _ (wo_session _ _ Hw _ _ Hy) Hay).
  - intros c l E. exact (Hlate _ _ _ _ Hy E).
  - intros b e Hp -> He. rewrite (Hdel _ Hp eq_refl) in Hcalm. cbn in Hcalm. apply (Hcalm b e); [apply (t_old _ _ _ _ _ _ _ _ Ht)|done].
  - intros b e ->. pose proof (t_old _ _ _ _ _ _ _ _ Ht) as Ho. pose proof (version_range _ _ _ _ _ _ Hw Ho). unfold is_int32, MAX_TRX_ID, INT32_MAX, INT32_MIN in *. lia.
Qed.

(** ** The end of a transaction *)

(** The numbers of a row after the commit, and after the rollback, of [u]. *)
Definition committed (u c : Z) (v : Z * Z) : Z * Z := (if v.1 =? - u then c else v.1, if v.2 =? - u then c else v.2).
Definition rolled_back (u : Z) (v : Z * Z) : option (Z * Z) :=
  if v.1 =? - u then None else Some (v.1, if v.2 =? - u then MAX_TRX_ID else v.2).

(** Nothing of an idle session is left in the rows. *)
Lemma no_own_numbers w ms s x id rid b e : world_ok w ms → w_sessions w !! s = Some x → active x → rest x = [] →
  version (w_db w) ms id rid = Some (b, e) → b ≠ - trx_id_ (s_trx x) ∧ e ≠ - trx_id_ (s_trx x).
Proof.
  intros Hw Hs Ha Hr Hv. destruct (wo_rows _ _ Hw _ _ _ _ Hv) as [Vb Ve _]. pose proof (id_ok_of _ _ _ _ Hw Hs Ha) as [Hu Hu']. split; intros E.
  - destruct Vb as [?|(u & Eu & Hp)]; [lia|]. assert (Hin : mkOperation OP_INSERT id rid ∈ rest x) by (eapply (pending_owner w ms s x u); try done; lia).
    rewrite Hr in Hin. by apply not_elem_of_nil in Hin.
  - destruct Ve as [?|[?|(u & Eu & Hp)]]; [lia|unfold MAX_TRX_ID, INT32_MAX in *; lia|].
    assert (Hin : mkOperation OP_DELETE id rid ∈ rest x) by (eapply (pending_owner w ms s x u); try done; lia).
    rewrite Hr in Hin. by apply not_elem_of_nil in Hin.
Qed.

Lemma commit_loop trx c s ops : ∀ w ms, world_ok w ms → w_sessions w !! s = Some (mkSession trx (Committing c ops)) →
  ∃ db' ms', commit_operations trx (w_db w) c ops = Some db' ∧
    world_ok (set_session (set_store w db' (w_log w)) s (mkSession trx (Committing c []))) ms' ∧
    ∀ id rid, version db' ms' id rid = committed (trx_id_ trx) c <$> version (w_db w) ms id rid ∧ values db' ms' id rid = values (w_db w) ms id rid.
Proof.
  assert (Hact : ∀ l, active (mkSession trx (Committing c l))) by (intros l E; done).
  induction ops as [|op ops IH]; intros w ms Hw Hs.
  - exists (w_db w), ms. split; [done|]. assert (Ew : set_session (set_store w (w_db w) (w_log w)) s (mkSession trx (Committing c [])) = w).
    { destruct w. unfold set_session, set_store. cbn in *. f_equal. by apply insert_id. }
    rewrite Ew. split; [done|]. intros id rid. split; [|done]. destruct (version (w_db w) ms id rid) as [[b e]|] eqn:Ev; [|done]. cbn. f_equal.
    destruct (no_own_numbers w ms s _ id rid b e Hw Hs (Hact []) eq_refl Ev) as [Hb He]. unfold committed. cbn in *. by rewrite (proj2 (Z.eqb_neq _ _) Hb), (proj2 (Z.eqb_neq _ _) He).
  - destruct (commit_step w ms s _ c op ops Hw Hs eq_refl) as (w1 & ms1 & E & Hw1 & Heff). unfold exec in E. cbn [actor] in E. rewrite Hs in E. cbn [s_trx s_phase] in E.
    cbn [commit_operations]. destruct (commit_operation trx (w_db w) c op) as [db1|]; [|done]. cbn [mbind option_bind] in E |- *. injection E as <-.
    destruct (IH _ ms1 Hw1 (lookup_insert_eq _ _ _)) as (db' & ms' & Ec & Hw' & Hver). cbn [w_db w_log set_session set_store] in Ec, Hver.
    exists db', ms'. split; [done|]. split.
    { unfold set_session, set_store in *. cbn [w_sessions w_current w_log] in Hw'. by rewrite insert_insert_eq in Hw'. }
    intros id rid. destruct (Hver id rid) as [-> ->]. destruct (wo_session _ _ Hw _ _ Hs) as [_ Hid _ _ _ Hc _]. specialize (Hid (Hact _)). specialize (Hc _ _ eq_refl). cbn in Hid, Hc.
    destruct Heff as [[-> Hun]|(y & i & r & old & new & Hy & Hay & Ht & Hst & _)].
    { pose proof (u_version _ _ _ _ Hun id rid) as E1. pose proof (u_values _ _ _ _ Hun id rid) as E2. cbn [w_db set_session set_store] in E1, E2. by rewrite E1, E2. }
    cbn [actor] in Hy. rewrite Hs in Hy. injection Hy as <-. cbn [s_trx s_phase w_db set_session set_store] in *.
    destruct (decide ((id, rid) = (i, r))) as [[= -> ->]|Hne]; [|by destruct (t_others _ _ _ _ _ _ _ _ Ht _ _ Hne) as [-> ->]].
    rewrite (t_new _ _ _ _ _ _ _ _ Ht), (t_old _ _ _ _ _ _ _ _ Ht), (t_values _ _ _ _ _ _ _ _ Ht) by (inversion Hst; done). split; [|done].
    inversion Hst; subst; cbn; f_equal; unfold committed; cbn; rewrite Z.eqb_refl, (proj2 (Z.eqb_neq c _)) by lia; done.
Qed.

Lemma rollback_loop trx s ops : ∀ w ms, world_ok w ms → w_sessions w !! s = Some (mkSession trx (RollingBack ops)) →
  ∃ db' ms', rollback_operations trx (w_db w) RC_SUCCESS ops = Some (db', inr RC_SUCCESS) ∧
    world_ok (set_session (set_store w db' (w_log w)) s (mkSession trx (RollingBack []))) ms' ∧
    ∀ id rid, version db' ms' id rid = version (w_db w) ms id rid ≫= rolled_back (trx_id_ trx) ∧
      (version db' ms' id rid ≠ None → values db' ms' id rid = values (w_db w) ms id rid).
Proof.
  assert (Hact : ∀ l, active (mkSession trx (RollingBack l))) by (intros l E; done).
  induction ops as [|op ops IH]; intros w ms Hw Hs.
  - exists (w_db w), ms. split; [done|]. assert (Ew : set_session (set_store w (w_db w) (w_log w)) s (mkSession trx (RollingBack [])) = w).
    { destruct w. unfold set_session, set_store. cbn in *. f_equal. by apply insert_id. }
    rewrite Ew. split; [done|]. intros id rid. split; [|done]. destruct (version (w_db w) ms id rid) as [[b e]|] eqn:Ev; [|done]. cbn.
    destruct (no_own_numbers w ms s _ id rid b e Hw Hs (Hact []) eq_refl Ev) as [Hb He]. unfold rolled_back. cbn in *. by rewrite (proj2 (Z.eqb_neq _ _) Hb), (proj2 (Z.eqb_neq _ _) He).
  - destruct (rollback_step w ms s _ op ops Hw Hs eq_refl) as (w1 & ms1 & E & Hw1 & Heff). unfold exec in E. cbn [actor] in E. rewrite Hs in E. cbn [s_trx s_phase] in E.
    cbn [rollback_operations]. destruct (rollback_operation trx (w_db w) RC_SUCCESS op) as [[db1 [rc|rc]]|]; cbn [mbind option_bind] in E |- *; [done| |done].
    case_bool_decide as Erc; [|done]. subst rc. injection E as <-.
    destruct (IH _ ms1 Hw1 (lookup_insert_eq _ _ _)) as (db' & ms' & Ec & Hw' & Hver). cbn [w_db w_log set_session set_store] in Ec, Hver.
    exists db', ms'. split; [done|]. split.
    { unfold set_session, set_store in *. cbn [w_sessions w_current w_log] in Hw'. by rewrite insert_insert_eq in Hw'. }
    intros id rid. destruct (Hver id rid) as [Ev Ew]. destruct (wo_session _ _ Hw _ _ Hs) as [_ Hid _ _ _ _ _]. specialize (Hid (Hact _)). cbn in Hid. pose proof (wo_current _ _ Hw) as Hcur.
    destruct Heff as [[-> Hun]|(y & i & r & old & new & Hy & Hay & Ht & Hst & _)].
    { pose proof (u_version _ _ _ _ Hun id rid) as E1. pose proof (u_values _ _ _ _ Hun id rid) as E2. cbn [w_db set_session set_store] in E1, E2. rewrite <- E1, <- E2. by split. }
    cbn [actor] in Hy. rewrite Hs in Hy. injection Hy as <-. cbn [s_trx s_phase w_db set_session set_store] in *.
    destruct (decide ((id, rid) = (i, r))) as [[= -> ->]|Hne]; [|destruct (t_others _ _ _ _ _ _ _ _ Ht _ _ Hne) as [<- <-]; by split].
    rewrite Ev, (t_new _ _ _ _ _ _ _ _ Ht), (t_old _ _ _ _ _ _ _ _ Ht) in *.
    assert (Ern : new ≫= rolled_back (trx_id_ trx) = old ≫= rolled_back (trx_id_ trx)).
    { assert (Em : (MAX_TRX_ID =? - trx_id_ trx) = false) by (apply Z.eqb_neq; unfold MAX_TRX_ID, INT32_MAX in *; lia).
      inversion Hst; subst; cbn [mbind option_bind]; unfold rolled_back; cbn [fst snd]; by rewrite Z.eqb_refl, ?Em. }
    split; [done|]. intros Hn. rewrite (Ew Hn). apply (t_values _ _ _ _ _ _ _ _ Ht); [by inversion Hst|]. intros ->. done.
Qed.

Lemma log_commit_total (l : L) u c : 0 < u < c → ∃ l' rc, log_commit l u c = Some (l', rc).
Proof.
  intros [Hu Hc]. unfold log_commit. rewrite (proj2 (Z.ltb_lt _ _) Hu), (proj2 (Z.ltb_lt _ _) Hc). cbn [andb].
  destruct (sink_append _ _ _) as [[l1 rc] n]. destruct (OB_FAIL rc); [eauto|]. destruct (log_wait l1 n). eauto.
Qed.

(** ** Properties *)

(** C14: transactions of several sessions can be interleaved step by step.  Consider a world whose tables are consistent and whose rows belong to the open
    transactions ([world_ok]), and a run of calls that fit: an inserted row has the size of the table, finds room in the file and
    the indexes, has no NULL in an indexed column and no duplicate in the first index of the table (a later unique index may refuse it); a deleted row is there and was not inserted and already deleted by
    the same transaction; the counter does not overflow; the log accepts the small entries of the transactions.  The run reaches only such worlds, no step fails an assertion, and
    each step moves the numbers of at most one row by a transition of [version_step]. *)
Theorem transactions_refine_versions w ms acts w' ms' : world_ok w ms → run fits w ms acts w' ms' →
  world_ok w' ms' ∧ ∀ a, fits w' ms' a → ∃ w'' ms'', exec w' a = Some w'' ∧ world_ok w'' ms'' ∧ effect w' ms' a w'' ms''.
Proof. intros Hw Hr. pose proof (run_ok _ _ _ _ _ _ (λ _ _ _ Hp, Hp) Hr Hw) as Hw'. split; [done|]. intros a. by apply exec_ok. Qed.

(** C15: reads are repeatable.  In a consistent world ([world_ok]) let other sessions insert, delete, commit and roll back, step by step, with
    calls that fit as in [transactions_refine_versions]: inserted rows find room, have no NULL in an indexed column and no
    duplicate in the first index, nobody deletes again a row that it inserted and deleted, the counter does not overflow, the log accepts the entries.  Then the rows in the
    snapshot of an open transaction stay the same, if nobody deletes a row whose deletion is already
    committed and no commit with a smaller number was under way when the transaction was looked at first.  What
    [MvccTrx::visit_record] shows is this snapshot, and rows committed later that someone is deleting. *)
Theorem repeatable_reads w ms acts w' ms' r x : world_ok w ms → w_sessions w !! r = Some x → s_phase x = Running → started_ (s_trx x) = true →
  late w (trx_id_ (s_trx x)) → Forall (λ a, actor a ≠ r) acts → run (λ w ms a, fits w ms a ∧ calm w ms a) w ms acts w' ms' →
  (∀ id rid, seen (trx_id_ (s_trx x)) (w_db w') ms' id rid = seen (trx_id_ (s_trx x)) (w_db w) ms id rid) ∧
  (∀ id rid b e, version (w_db w') ms' id rid = Some (b, e) →
     visit_code (trx_id_ (s_trx x)) b e READ_ONLY = RC_SUCCESS ↔ sees (trx_id_ (s_trx x)) (b, e) = true ∨ premature (trx_id_ (s_trx x)) (b, e)).
Proof.
  intros Hw Hx Hp Hst Hlate Hothers Hrun. assert (Ha : active x) by (by intros _).
  induction Hrun as [w ms|w ms a w1 ms1 acts w' ms' [Hf Hc] E Hdb Hrun IH].
  { split; [done|]. intros id rid b e Hv. eapply (visit_code_sees w ms id rid); [done| |done]. apply (so_id _ _ (wo_session _ _ Hw _ _ Hx) Ha). }
  apply Forall_cons in Hothers as [Hne Hothers]. destruct (exec_step w ms a w1 ms1 Hw Hf E Hdb) as [Hw1 Heff].
  assert (Hx1 : w_sessions w1 !! r = Some x) by (rewrite <- Hx; eapply exec_others; [exact E|congruence]).
  destruct IH as [IHs IHc]; try done.
  - intros s y c l Hy Hpy. destruct (decide (s = actor a)) as [->|Hs].
    + destruct (exec_commits _ _ _ _ _ _ E Hy Hpy) as [->|(y0 & r0 & Hy0 & Hp0)]; [|by eapply Hlate].
      pose proof (so_id _ _ (wo_session _ _ Hw _ _ Hx) Ha). pose proof (wo_current _ _ Hw). unfold next_trx_id.
      rewrite to_int32_small; [lia|]. unfold is_int32, MAX_TRX_ID, INT32_MAX, INT32_MIN in *. lia.
    + rewrite (exec_others _ _ _ _ E Hs) in Hy. by eapply Hlate.
  - split; [|done]. intros id rid. rewrite IHs. by eapply seen_step.
Qed.

(** C16: commit and rollback are exact, in a world whose tables are consistent and whose rows belong to the open transactions ([world_ok], the
    invariant of [transactions_refine_versions]; INSERT and two DELETEs of one row in one transaction leave it,
    and then the commit fails an assertion, [ex_double_delete]).  The commit of an open transaction gives it the next
    number, as long as the counter does not overflow, no assertion fails, and afterwards exactly the numbers of this transaction
    are replaced by the commit's; the rollback fails no assertion, removes exactly the rows it inserted and gives back exactly those it
    deleted.  All values stay.  The calls are the sequences of their steps. *)
Theorem transaction_end_exact w ms s x : world_ok w ms → w_sessions w !! s = Some x → s_phase x = Running → started_ (s_trx x) = true →
  w_current w + 1 < MAX_TRX_ID → let u := trx_id_ (s_trx x) in let c := w_current w + 1 in let n := S (length (operations_ (s_trx x))) in
  (∃ rc x' db' l' ms', commit (w_current w) (s_trx x) (w_db w) (w_log w) = Some (rc, c, x', db', l') ∧ operations_ x' = [] ∧ db_ok db' ms' ∧
     (∀ id rid, version db' ms' id rid = committed u c <$> version (w_db w) ms id rid ∧ values db' ms' id rid = values (w_db w) ms id rid) ∧
     exec_all w (StartCommit s :: replicate n (CommitNext s)) = Some (mkWorld c db' l' (<[s := mkSession x' Running]> (w_sessions w)))) ∧
  (∃ rc x' db' l' ms', rollback uninitialized (s_trx x) (w_db w) (w_log w) = Some (rc, x', db', l') ∧ operations_ x' = [] ∧ db_ok db' ms' ∧
     (∀ id rid, version db' ms' id rid = version (w_db w) ms id rid ≫= rolled_back u ∧
       (version db' ms' id rid ≠ None → values db' ms' id rid = values (w_db w) ms id rid)) ∧
     exec_all w (StartRollback s :: replicate n (RollbackNext s)) = Some (mkWorld (w_current w) db' l' (<[s := mkSession x' Running]> (w_sessions w)))).
Proof.
  intros Hw Hs Hp Hst Hmax u c n. assert (Ha : active x) by (by intros _). pose proof (so_id _ _ (wo_session _ _ Hw _ _ Hs) Ha) as Hid.
  pose proof (so_live _ _ (wo_session _ _ Hw _ _ Hs)) as Hrec. pose proof (wo_current _ _ Hw) as Hcur. split.
  - destruct (start_commit_step w ms s x Hw Hs Hp Hmax) as (w1 & E1 & Hw1 & _). pose proof E1 as E1'. unfold exec in E1. cbn [actor] in E1. rewrite Hs, Hp, Hst in E1.
    assert (En : next_trx_id (w_current w) = c).
    { unfold next_trx_id. apply to_int32_small. unfold is_int32, MAX_TRX_ID, INT32_MAX, INT32_MIN in *. lia. }
    rewrite En in E1. injection E1 as E1. assert (Hs1 : w_sessions w1 !! s = Some (mkSession (set_started (s_trx x) false) (Committing c (operations_ (s_trx x))))) by (by rewrite <- E1; apply lookup_insert_eq).
    destruct (commit_loop _ c s _ w1 ms Hw1 Hs1) as (db' & ms' & Ec & Hw2 & Hver). pose proof Ec as Ec1. rewrite <- E1 in Ec, Hver. cbn [w_db set_session set_current] in Ec, Hver.
    destruct (log_commit_total (w_log w) u c) as (l' & rc & El); [unfold u, c; lia|].
    unfold commit. rewrite En. unfold commit_with_trx_id. cbv zeta. cbn [operations_ set_started]. rewrite Ec. cbn [mbind option_bind recovering_ set_started trx_id_].
    rewrite Hrec. fold u. rewrite El. cbn [mbind option_bind].
    do 4 eexists. exists ms'. split; [done|]. split; [done|]. split; [apply (wo_db _ _ Hw2)|]. split; [exact Hver|].
    cbn [exec_all]. rewrite E1'. cbn [mbind option_bind]. unfold n. rewrite replicate_S_end, exec_all_app. rewrite (commit_steps _ _ _ _ _ _ Hs1 Ec1).
    rewrite <- E1. cbn [mbind option_bind exec_all]. unfold exec. cbn [actor]. unfold set_session, set_store. cbn [w_sessions]. rewrite lookup_insert_eq. cbn [s_trx s_phase recovering_ set_started trx_id_ w_log w_db w_current set_session set_current].
    rewrite Hrec. fold u. rewrite El. cbn [mbind option_bind]. by rewrite !insert_insert_eq.
  - destruct (start_rollback_step w ms s x Hw Hs Hp) as (w1 & E1 & Hw1 & _). pose proof E1 as E1'. unfold exec in E1. cbn [actor] in E1. rewrite Hs, Hp, Hst in E1.
    injection E1 as E1. assert (Hs1 : w_sessions w1 !! s = Some (mkSession (set_started (s_trx x) false) (RollingBack (rev (operations_ (s_trx x)))))) by (by rewrite <- E1; apply lookup_insert_eq).
    destruct (rollback_loop _ s _ w1 ms Hw1 Hs1) as (db' & ms' & Ec & Hw2 & Hver). pose proof Ec as Ec1. rewrite <- E1 in Ec, Hver. cbn [w_db set_session] in Ec, Hver.
    assert (∃ l' rc, log_rollback uninitialized (w_log w) u = Some (l', rc)) as (l' & rc & El).
    { unfold log_rollback. rewrite (proj2 (Z.ltb_lt _ _)) by (unfold u; lia). destruct (sink_append _ _ _) as [[l1 rc] k]. eauto. }
    unfold rollback. cbv zeta. cbn [operations_ set_started]. rewrite Ec. cbn [mbind option_bind recovering_ set_started trx_id_].
    rewrite Hrec. fold u. rewrite El. cbn [mbind option_bind].
    do 4 eexists. exists ms'. split; [done|]. split; [done|]. split; [apply (wo_db _ _ Hw2)|]. split; [exact Hver|].
    cbn [exec_all]. rewrite E1'. cbn [mbind option_bind]. unfold n. rewrite <- length_rev. rewrite replicate_S_end, exec_all_app. rewrite (rollback_steps _ _ _ _ _ Hs1 Hrec Ec1).
    rewrite <- E1. cbn [mbind option_bind exec_all]. unfold exec. cbn [actor]. unfold set_session, set_store. cbn [w_sessions]. rewrite lookup_insert_eq. cbn [s_trx s_phase recovering_ set_started trx_id_ w_log w_db w_current set_session].
    rewrite Hrec. fold u. rewrite El. cbn [mbind option_bind]. by rewrite !insert_insert_eq.
Qed.

(** C17: a deleted row can come back.  In a consistent world ([world_ok]) an open transaction that has not changed anything yet may delete a row whose
    deletion another transaction has committed with a number that is not smaller than its own ([visit_code] compares only with the own number):
    [delete_record] reports success, if the log accepts its entry, and the rollback, which writes MAX_TRX_ID, makes the row present for everybody, although
    its deletion is committed. *)
Theorem rollback_resurrects w ms s x id rid b e : world_ok w ms → w_sessions w !! s = Some x → s_phase x = Running → started_ (s_trx x) = true →
  operations_ (s_trx x) = [] → version (w_db w) ms id rid = Some (b, e) → 0 < b ≤ trx_id_ (s_trx x) → trx_id_ (s_trx x) ≤ e < MAX_TRX_ID →
  ∃ w' ms', exec_all w [Delete s id rid; StartRollback s; RollbackNext s] = Some w' ∧ world_ok w' ms' ∧
    version (w_db w') ms' id rid = Some (b, MAX_TRX_ID).
Proof.
  intros Hw Hs Hp Hst Hops Hv Hb He. assert (Ha : active x) by (by intros _). pose proof (id_ok_of _ _ _ _ Hw Hs Ha) as Hu.
  assert (Hf : fits w ms (Delete s id rid)).
  { exists b, e. split; [done|]. intros y Hy. rewrite Hs in Hy. injection Hy as <-. lia. }
  destruct (delete_step w ms s x id rid Hw Hs Hp Hst Hf) as (w1 & ms1 & E1 & Hw1 & _).
  destruct (delete_record_steps (s_trx x) (w_db w) ms (w_log w) id rid b e (wo_db _ _ Hw) Hv Hu) as (rc & trx' & db' & l' & ms' & E & Erc & Hcase).
  assert (Evis : visit_code (trx_id_ (s_trx x)) b e READ_WRITE = RC_SUCCESS).
  { unfold visit_code. rewrite (proj2 (Z.ltb_lt _ _)), (proj2 (Z.ltb_lt _ _)), (proj2 (Z.leb_le _ _)), (proj2 (Z.leb_le _ _)) by lia. done. }
  destruct Hcase as [(-> & -> & Ht)|(Hrc & _)]; [|rewrite Erc, Evis in Hrc; done].
  assert (Ew1 : exec w (Delete s id rid) = Some (set_session (set_store w db' l') s (mkSession (set_operations (s_trx x) [mkOperation OP_DELETE id rid]) Running))).
  { unfold exec. cbn [actor]. by rewrite Hs, Hp, Hst, E, Hops. }
  rewrite Ew1 in E1. injection E1 as <-. rewrite (db_ok_unique _ _ _ (wo_db _ _ Hw1) (t_db _ _ _ _ _ _ _ _ Ht)) in Hw1.
  set (x1 := mkSession (set_operations _ _) Running) in *.
  set (w1 := set_session _ s x1) in *. assert (Hs1 : w_sessions w1 !! s = Some x1) by apply lookup_insert_eq.
  destruct (start_rollback_step w1 ms' s x1 Hw1 Hs1 eq_refl) as (w2 & E2 & Hw2 & _).
  assert (Ew2 : exec w1 (StartRollback s) = Some (set_session w1 s (mkSession (set_started (s_trx x1) false) (RollingBack [mkOperation OP_DELETE id rid])))).
  { unfold exec. cbn [actor]. rewrite Hs1. cbn [s_phase s_trx x1 started_ set_operations]. by rewrite Hst. }
  rewrite Ew2 in E2. injection E2 as <-.
  set (w2 := set_session w1 s _) in *.
  assert (Hs2 : w_sessions w2 !! s = Some (mkSession (set_started (s_trx x1) false) (RollingBack [mkOperation OP_DELETE id rid]))) by apply lookup_insert_eq.
  destruct (rollback_loop _ s _ _ ms' Hw2 Hs2) as (db2 & ms2 & Ec & Hw3 & Hver).
  pose proof (rollback_steps _ _ _ _ _ Hs2 (so_live _ _ (wo_session _ _ Hw _ _ Hs)) Ec) as Es. cbn [length replicate exec_all] in Es.
  exists (set_session (set_store w1 db2 l') s (mkSession (set_started (s_trx x1) false) (RollingBack []))), ms2.
  cbn [exec_all]. rewrite Ew1. cbn [mbind option_bind]. fold w1. rewrite Ew2. cbn [mbind option_bind].
  split; [|split].
  - rewrite Es. f_equal. unfold w2, w1, set_session, set_store. cbn [w_sessions w_current w_log w_db]. by rewrite !insert_insert_eq.
  - unfold w2, w1, set_session, set_store in Hw3 |- *. cbn [w_sessions w_current w_log w_db] in Hw3 |- *. rewrite !insert_insert_eq. by rewrite !insert_insert_eq in Hw3.
  - cbn [w_db set_session set_store]. rewrite (proj1 (Hver id rid)). cbn [w_db set_session w2 w1 set_store]. rewrite (t_new _ _ _ _ _ _ _ _ Ht).
    cbn [mbind option_bind]. unfold rolled_back. cbn [fst snd trx_id_ set_started s_trx x1 set_operations]. rewrite Z.eqb_refl, (proj2 (Z.eqb_neq b _)) by lia. done.
Qed.
End world.

(** ** Examples: a table with one column and two sessions *)

Definition ex_meta : TableMeta :=
  match TableMeta_init 1 "t" (Some mvcc_trx_fields) [mkAttrInfo INTS "id" 4 false] 1 with
  | Some (inr m) => m
  | _ => mkTableMeta 0 "" [] [] [] 0 0
  end.
Abbreviation ExWorld := (World (F := MapStore) (I := ListIndex) (L := unit)).
Definition ex_row (b e v : Z) : list Z := le_encode 4 b ++ le_encode 4 e ++ le_encode 4 v.
Definition ex_db_table (m : gmap RID (list Z)) : DbTable MapStore ListIndex := mkDbTable ex_meta (mkTable (mkMapStore 12 (Z.of_nat (size m)) m) []).
Definition ex_open (id : Z) : Session := mkSession (mkTrx id true false []) Running.
Definition ex_world (current : Z) (m : gmap RID (list Z)) (s1 s2 : Session) : ExWorld :=
  mkWorld current {[ 1 := ex_db_table m ]} tt {[ 0%nat := s1; 1%nat := s2 ]}.

(** The numbers of a row, from the table. *)
Definition ex_numbers (w : ExWorld) (rid : RID) : option (Z * Z) :=
  match w_db w !! 1 with
  | Some dt => match Table.get_record (dt_table dt) rid with Some (_, Some row) => row_xids (dt_meta dt) row | _ => None end
  | None => None
  end.
Definition ex_after (w : ExWorld) acts rid : option (Z * Z) := match exec_all 0 w acts with Some w => ex_numbers w rid | None => None end.

(** A transaction that deletes twice a row it has inserted fails an assertion in its commit. *)
Example ex_double_delete :
  let acts := [Insert 0 1 (ex_row 0 0 7); Delete 0 1 (mkRID 1 0); Delete 0 1 (mkRID 1 0); StartCommit 0; CommitNext 0; CommitNext 0] in
  let w := ex_world 2 ∅ (ex_open 1) (ex_open 2) in
  ex_after w acts (mkRID 1 0) = Some (3, 3) ∧ match exec_all 0 w (acts ++ [CommitNext 0]) with Some _ => False | None => True end.
Proof. vm_compute. split; [done|exact I]. Qed.

(** Transaction 1 sees a row that was committed after it began, as soon as someone starts to delete the row. *)
Example ex_premature :
  let w := ex_world 3 {[ mkRID 1 0 := ex_row 2 MAX_TRX_ID 7 ]} (ex_open 1) (ex_open 3) in
  visit_code 1 2 MAX_TRX_ID READ_ONLY = RC_RECORD_INVISIBLE ∧
  ex_after w [Delete 1 1 (mkRID 1 0)] (mkRID 1 0) = Some (2, -3) ∧ visit_code 1 2 (-3) READ_ONLY = RC_SUCCESS.
Proof. vm_compute. done. Qed.

Lemma ex_schema m : schema_ok (ex_db_table m).
Proof. split. eexists _, _. split; [by vm_compute|]. unfold int_field, disjoint_fields. split_and!; try (by vm_compute); try (left; by vm_compute). all: repeat first [apply Forall_nil_2 | apply Forall_cons_2]. all: unfold apart, disjoint_fields; split_and!; first [left; by vm_compute | by vm_compute]. Qed.

(** A world with two open transactions that have not done anything. *)
Lemma ex_world_ok current m u1 u2 : 0 ≤ current < MAX_TRX_ID → 0 < u1 < u2 → u2 ≤ current →
  map_holds (mkMapStore 12 (Z.of_nat (size m)) m) m →
  (∀ rid row, m !! rid = Some row → ∃ b e, row_xids ex_meta row = Some (b, e) ∧ 0 < b ≤ current ∧ (0 < e ≤ current ∨ e = MAX_TRX_ID)) →
  world_ok (ex_world current m (ex_open u1) (ex_open u2)) {[ 1 := m ]}.
Proof.
  intros Hc Hu Hu2 Hh Hrows. split; unfold ex_world; cbn [w_sessions w_current w_db].
  - intros id. cbn [w_db ex_world]. destruct (decide (id = 1)) as [->|Hne]; [|by rewrite !lookup_singleton_ne].
    rewrite !lookup_singleton_eq. split; [|apply ex_schema]. split; [exact Hh|constructor].
  - done.
  - intros s x [[_ <-]|[_ [_ <-]%lookup_singleton_Some]]%lookup_insert_Some; (split; cbn; try done; [lia|constructor|apply ins_first_nil]).
  - intros s1 s2 x1 x2 [[<- <-]|[_ [<- <-]%lookup_singleton_Some]]%lookup_insert_Some [[<- <-]|[_ [<- <-]%lookup_singleton_Some]]%lookup_insert_Some _ _ E; cbn in E; lia || done.
  - intros s x op [[_ <-]|[_ [_ <-]%lookup_singleton_Some]]%lookup_insert_Some Hop; by apply not_elem_of_nil in Hop.
  - intros id rid b e Hv. unfold version, cell in Hv. cbn [w_db ex_world] in Hv. destruct (decide (id = 1)) as [->|Hne]; [|by rewrite !lookup_singleton_ne in Hv].
    rewrite !lookup_singleton_eq in Hv. cbn in Hv. destruct (m !! rid) as [row|] eqn:Er; [|done]. cbn in Hv. destruct (Hrows _ _ Er) as (b0 & e0 & Ex & Hb & He).
    unfold dt_meta, ex_db_table in Hv. rewrite Ex in Hv. injection Hv as <- <-. split; [by left|destruct He; [by left|right; by left]|lia].
Qed.

Lemma ex_open_ok : world_ok (ex_world 2 ∅ (ex_open 1) (ex_open 2)) {[ 1 := ∅ ]}.
Proof. apply ex_world_ok; try done; try lia. Qed.

Lemma ex_fits : fits (ex_world 2 ∅ (ex_open 1) (ex_open 2)) {[ 1 := ∅ ]} (Insert 1 1 (ex_row 0 0 7)).
Proof. eexists _, ∅. split; [done|]. split; [done|]. split; [|split; [|done]]; split; try done; constructor. Qed.

(** ** Witnesses *)

Lemma transactions_refine_versions_witness : ∃ w' ms',
  run 0 (fits (L := unit)) (ex_world 2 ∅ (ex_open 1) (ex_open 2)) {[ 1 := ∅ ]} [Insert 1 1 (ex_row 0 0 7)] w' ms' ∧ world_ok w' ms' ∧
  ex_numbers w' (mkRID 1 0) = Some (-2, MAX_TRX_ID).
Proof.
  destruct (exec_ok 0 _ _ _ ex_open_ok ex_fits) as (w' & ms' & E & Hw & _). exists w', ms'.
  assert (Hr : run 0 (fits (L := unit)) (ex_world 2 ∅ (ex_open 1) (ex_open 2)) {[ 1 := ∅ ]} [Insert 1 1 (ex_row 0 0 7)] w' ms').
  { eapply run_cons; [exact ex_fits|exact E|apply Hw|constructor]. }
  split; [exact Hr|]. split; [exact (proj1 (transactions_refine_versions 0 _ _ _ _ _ ex_open_ok Hr))|]. vm_compute in E. by injection E as <-.
Defined.

Lemma repeatable_reads_witness : ∃ w' ms', world_ok w' ms' ∧ ex_numbers w' (mkRID 1 0) = Some (3, MAX_TRX_ID) ∧
  ∀ id rid, seen 1 (w_db w') ms' id rid = seen 1 (w_db (ex_world 2 ∅ (ex_open 1) (ex_open 2))) {[ 1 := ∅ ]} id rid.
Proof.
  destruct (exec_ok 0 _ _ _ ex_open_ok ex_fits) as (w1 & ms1 & E1 & Hw1 & _).
  destruct (exec_ok 0 w1 ms1 (StartCommit 1) Hw1) as (w2 & ms2 & E2 & Hw2 & _); [vm_compute in E1; injection E1 as <-; done|].
  destruct (exec_ok 0 w2 ms2 (CommitNext 1) Hw2 I) as (w3 & ms3 & E3 & Hw3 & _). destruct (exec_ok 0 w3 ms3 (CommitNext 1) Hw3 I) as (w4 & ms4 & E4 & Hw4 & _).
  exists w4, ms4. split; [exact Hw4|].
  pose proof (repeatable_reads 0 (ex_world 2 ∅ (ex_open 1) (ex_open 2)) {[ 1 := ∅ ]} [Insert 1 1 (ex_row 0 0 7); StartCommit 1; CommitNext 1; CommitNext 1]
    w4 ms4 0%nat (ex_open 1) ex_open_ok eq_refl eq_refl eq_refl) as Hrep. split.
  - clear Hrep Hw1 Hw2 Hw3 Hw4. vm_compute in E1. injection E1 as <-. vm_compute in E2. injection E2 as <-. vm_compute in E3. injection E3 as <-. vm_compute in E4. by injection E4 as <-.
  - destruct Hrep as [Hseen _]; [|by repeat constructor| |exact Hseen].
    + unfold late, ex_world. cbn [w_sessions]. intros s x c r [[_ <-]|[_ [_ <-]%lookup_singleton_Some]]%lookup_insert_Some Hp; done.
    + eapply run_cons; [split; [exact ex_fits|done]|exact E1|apply Hw1|]. eapply run_cons; [split; [vm_compute in E1; injection E1 as <-; done|done]|exact E2|apply Hw2|].
      eapply run_cons; [by split|exact E3|apply Hw3|]. eapply run_cons; [by split|exact E4|apply Hw4|constructor].
Defined.

Lemma transaction_end_exact_witness : ∃ (w : ExWorld) ms x rc x' db' l', world_ok w ms ∧ w_sessions w !! 1%nat = Some x ∧ operations_ (s_trx x) = [mkOperation OP_INSERT 1 (mkRID 1 0)] ∧
  commit (w_current w) (s_trx x) (w_db w) (w_log w) = Some (rc, w_current w + 1, x', db', l').
Proof.
  destruct (exec_ok 0 _ _ _ ex_open_ok ex_fits) as (w1 & ms1 & E1 & Hw1 & _).
  destruct (transaction_end_exact 0 w1 ms1 1 (mkSession (mkTrx 2 true false [mkOperation OP_INSERT 1 (mkRID 1 0)]) Running) Hw1) as [(rc & x' & db' & l' & ms' & E & _) _];
    [vm_compute in E1; injection E1 as <-; done..|].
  exists w1, ms1, (mkSession (mkTrx 2 true false [mkOperation OP_INSERT 1 (mkRID 1 0)]) Running), rc, x', db', l'.
  split; [exact Hw1|]. split; [vm_compute in E1; injection E1 as <-; done|]. split; [done|exact E].
Defined.

Lemma rollback_resurrects_witness : ∃ w' ms',
  exec_all 0 (ex_world 5 {[ mkRID 1 0 := ex_row 2 5 7 ]} (ex_open 3) (ex_open 4)) [Delete 0 1 (mkRID 1 0); StartRollback 0; RollbackNext 0] = Some w' ∧
  world_ok w' ms' ∧ version (w_db w') ms' 1 (mkRID 1 0) = Some (2, MAX_TRX_ID).
Proof.
  apply (rollback_resurrects 0 _ {[ 1 := {[ mkRID 1 0 := ex_row 2 5 7 ]} ]} 0%nat (ex_open 3) 1 (mkRID 1 0) 2 5); try done.
  apply ex_world_ok; try done; try lia.
  - split; [done|]. split; [done|]. intros rid row [<- <-]%lookup_singleton_Some. unfold valid_rid. cbn. split_and!; done || lia.
  - intros rid row [<- <-]%lookup_singleton_Some. exists 2, 5. split; [by vm_compute|]. split; [lia|left; lia].
Defined.
